(* ===== verification/_CoqProject ===== *)
-Q . S2P
Prelude.v
Effects.v
Auth.v
OperationModels.v
OperationPolicy.v
CaseModels.v
CasePolicy.v
RiskMatcher.v
RiskTheorems.v
Conversation.v
Calendar.v
Hmac.v
Envelope.v
InboxModels.v
Retry.v
Connections.v
IdentityConfig.v
Jwks.v
Authentication.v
IdentityRuntime.v
RateLimit.v
Migrations.v
Database.v
RedrivePolicy.v
Transactions.v
Messaging.v
CaseRepository.v
Refunds.v
CaseService.v
CaseSafety.v
CaseTheorems.v
HandoffTheorems.v
CaseGuarantees.v
DirectoryGuarantees.v
OperationRepository.v
OperationService.v
OperationSafety.v
OperationTheorems.v
OperationGuarantees.v
OutboxWrites.v
Finalization.v
InboxWrites.v
OutboxRepository.v
InboxRepository.v
InboxFinalizer.v
Webhook.v
ProviderFailure.v
Nodes.v
DemoProvider.v
GraphSteps.v
GraphReady.v
ProviderViews.v
ProviderRedrive.v
OutboxSafety.v
OutboxTransactions.v
FinalizationSafety.v
InboxSafety.v
Steady.v
RefundSafety.v
ProviderFailureSafety.v
DeliverySafety.v
RecoverySafety.v
WorkerSafety.v
InboxTransactions.v
SystemSafety.v
CallbackSafety.v
InboxWorkerSafety.v
WebhookSafety.v
HttpTransport.v
RedriveSafety.v
TurnSafety.v
TurnNodes.v
OutboxGuarantees.v
InboxGuarantees.v
WebhookGuarantees.v
System.v
RedriveGuarantees.v
TurnGuarantees.v
InternalApi.v
