(* ===== verification/Prelude.v ===== *)
(** * Verification of the customer-service agent (orders, cases, provider commands)

    The program is an assistant for an online shop.  A conversation graph classifies what
    a customer writes; deterministic policies decide whether an order operation
    (cancellation, return, exchange) may run automatically or a support case must be
    opened; two services ([operations/service.py], [cases/service.py]) carry the decisions
    out against PostgreSQL, with audit events, optimistic locking, idempotency keys and an
    outbox of commands for the order and delivery providers.  Paths below are relative to
    [src/src/agent].

    ** Files

    - [Prelude]: Python exceptions and results ([res], [let*]), [str.strip], lengths,
      sorting, list and option lemmas, the tactics and hints shared below.
    - [Effects]: the monad [M] of the asynchronous services.  A call is a sequence of clock
      readings, identifier draws and database round trips.  [Ambient] holds everything the
      call does not control, by tick: the commits of other workers between any two round
      trips ([interfere]), the clock, the UUID factory, and faults.  A round trip can fail
      before it commits ([FailBefore]) or after ([FailAfter]: the acknowledgement is lost).
      [World] logs the commits the call makes itself.  [runs a I m Q]: from any database
      satisfying [I], the call [m] ends with a result and a commit log satisfying [Q], and
      [I] holds again.  Retry loops are [for_attempts], structural in the number of
      attempts, which stays arbitrary in every theorem ([max_write_attempts] of the
      source), so there is no fuel to choose.
      [Versioned], its last section: optimistic locking for rows with a version column: a row
      whose version is the one read is the row read, whoever else commits in between.
    - [Auth]: [auth/models.py], [auth/rbac.py], [auth/visibility.py], [auth/directory.py],
      [auth/claim_policy.py], [auth/context.py].
    - [OperationModels], [OperationPolicy]: [operations/models.py] and
      [operations/policy.py].
    - [CaseModels], [CasePolicy]: [cases/models.py] and [cases/policy.py].
    - [Envelope]: the provider command contract of [integrations/models.py].
    - [Database]: the tables the services write, with the primary keys, unique indexes,
      foreign keys and CHECK constraints of [sql/migrations], and the insert of
      [integrations/postgres_writes.py].
    - [CaseRepository], [CaseService]: [cases/repository.py],
      [cases/postgres_repository.py] and [cases/service.py].
    - [OperationRepository], [OperationService]: [operations/repository.py],
      [operations/postgres_repository.py] and [operations/service.py].
    - [CaseSafety], [CaseTheorems], [HandoffTheorems], [CaseGuarantees] and
      [OperationSafety], [OperationTheorems], [OperationGuarantees]: the invariants, the
      per-call lemmas and the final theorems of the two services.
    - [Transactions]: transactions of several statements ([Tx]), in which the application
      reads the clock, draws identifiers and decides between statements, and how they can
      fail; running calls one after the other on a quiet database, for the examples.
    - [Retry], [Messaging], [OutboxWrites], [Finalization], [OutboxRepository]:
      the delivery of queued commands: [integrations/retry.py],
      [integrations/persistence_models.py], the outbox part of
      [integrations/postgres_writes.py], [integrations/finalization.py], the outbox half of
      [integrations/postgres_repository.py] and [integrations/outbox_worker.py].
    - [OutboxSafety], [OutboxTransactions], [FinalizationSafety], [DeliverySafety],
      [RecoverySafety], [WorkerSafety], [OutboxGuarantees]: the invariant of the outbox, what
      each of its transactions commits, the worker, and the final theorems on delivery.
    - [InboxModels], [InboxWrites], [InboxRepository], [InboxFinalizer]: the
      callbacks of the provider: webhook events and the inbox tables, the inbox half of
      [integrations/postgres_writes.py] and [integrations/postgres_repository.py],
      [integrations/inbox_policy.py], [integrations/inbox_postgres_finalizer.py] and
      [integrations/inbox_worker.py].
    - [InboxSafety], [InboxTransactions], [CallbackSafety], [InboxWorkerSafety],
      [InboxGuarantees]: the invariant of the inbox, what its transactions and finalizers
      commit, the worker, and the final theorems on callbacks.
    - [RedrivePolicy], [ProviderViews], [ProviderRedrive]: the
      provider operations console: its audit tables and what they keep true,
      [integrations/provider_operations_policy.py], and the reads and the redrives of
      [integrations/provider_operations_contracts.py],
      [integrations/provider_operations_postgres.py],
      [integrations/provider_operations_service.py] and
      [integrations/provider_operations_api_errors.py].
    - [RedriveSafety], [RedriveGuarantees]: what redrives commit and raise,
      and the final theorems on them.
    - [ProviderFailure], [ProviderFailureSafety]: the manual-review
      fallback of [integrations/provider_failure.py] for an operation whose provider cannot
      be reached, what its transaction commits, and the final theorem on it.
    - [RiskMatcher], [RiskTheorems]: [risk_matcher.py] and its final theorems.
    - [Refunds], [RefundSafety], with the table in [Database]: [refunds/models.py], [refunds/service.py],
      [refunds/postgres_repository.py] and [tools/check_refund_policy.py], with the final
      theorem on requests.
    - [Conversation], [Nodes]: the conversation: [order_context.py];
      [schemas.py], [state.py] and [routing.py]; the nodes of [nodes] with
      [tools/search_order.py]; the edges of [graph.py] with the subflow of
      [nodes/operations.py] in place of the node that runs it.  [run_node] does what one
      node does and says where the graph goes; [run_from] goes on from there.
    - [GraphSteps], [GraphReady], [TurnSafety], [TurnNodes], [TurnGuarantees]: steps,
      termination and interrupts of the graph; what each node finds; what each node commits;
      the final theorems on turns.
    - [Calendar], [Hmac]: the parts of Python's library that signing uses: the Gregorian
      calendar with [strftime] and [strptime], UTF-8, SHA-256 and HMAC, all executable.
    - [Connections], [Webhook]: the connection models of
      [integrations/models.py] with [integrations/connection_resolver.py] and
      [integrations/webhook_resolver.py]; [integrations/signing.py],
      [integrations/webhook_adapter.py] and [integrations/webhook_router.py].
    - [RateLimit], [HttpTransport]: [integrations/rate_limit.py], the gate as a state machine
      over its waiters; [integrations/http_adapter.py] and the provider simulator.
    - [IdentityConfig], [Jwks], [Authentication]: [auth/config.py] with Python's [int] and
      [urlsplit]; [auth/jwks.py], the key cache as a state machine over its concurrent
      callers; [auth/oidc_provider.py] and [auth/demo_provider.py] behind the interface
      [IdentityProvider], with the two surfaces that use it ([auth/dependencies.py],
      [auth/langgraph_auth.py]).
    - [IdentityRuntime]: [auth/scim_directory.py], [auth/preflight.py] and
      [auth/runtime.py], with the HTTP clients the process has open; [DirectoryGuarantees]:
      the final theorem on the directory, for its answers and for the assignments that rest
      on them.
    - [Migrations]: [migrations.py], runs of the migration runner one after the other, each of
      which may be cut short.
    - [DemoProvider]: [operations/demo_provider.py], and what [operations/provider.py] asks of a
      provider of commands ([command_contract]).
    - [InternalApi]: [cases/api.py], [cases/api_models.py], [cases/api_errors.py] and
      [integrations/provider_operations_api.py]: a request from its header to its response.
    - [WebhookSafety], [WebhookGuarantees]: what a verified request establishes, and the
      final theorems on signatures and on the webhook route.
    - [Steady], [SystemSafety], [System]: what every transaction of any component promises to
      all of them, and the executions of the whole system.

    ** How the code is modelled

    A pydantic class is a record with a [_validate] function that does what construction
    does: it strips strings, checks field constraints, then runs the validators.  Python
    functions keep their names without the leading underscore; exceptions are values of
    [exn].  A row of a table is the record the repository reads; a statement is a function
    on [database] that raises the violated constraint by name, and a transaction is a
    sequence of statements that commits as a whole or not at all.  Timestamps are integers
    (microseconds), decimals are integers of hundredths or rationals, UUIDs are numbers.
    Code outside the repository is a parameter: the personnel directory
    ([IdentityDirectory]), the order provider ([OrderProvider]), the provider transport
    ([CommandTransport], whose answer may depend on everything it has received), the
    connection lookup, the rows other transactions hold locked, the clock, the UUID factory.
    The tasks of one worker batch run one after the other in the model; what a sibling does
    in between is interference like any other worker's, which every theorem allows.  Lease
    renewals that race a callback's finalizer are a parameter ([renewal_race]).  A redrive
    locks its message before it looks for its request again; that another message's redrive
    may have recorded the request after that look is a parameter ([stale]).

    A turn of the conversation is a computation on the state the graph passes on
    ([RefundState], its keys grouped by who writes them).  The language models
    ([Assistants]), the customer's answers to interrupts ([tn_replies]), the order system
    ([OrderQueries]), the Unicode tables ([UnicodeData]) and the configured connections are
    parameters; an unanswered question suspends the turn, and [resumed_turn] shows that
    resuming it later is the same as having known the answer, with the other workers'
    commits in between.  [RECURSION_LIMIT] is the default of the runtime; the graph has no
    cycles and fifteen steps are always enough ([turn_terminates]), so the bound hides
    nothing.

    ** What the theorems show

    - Concurrency.  Each service call is proved correct against any other workers that
      keep the invariant and only move rows on ([others_ok], [op_others_ok]).
      [case_service_closed] and [operation_service_closed] close the circle: every commit
      of every entry point is itself of that kind, so any number of workers running the
      services satisfy what each of them assumes.
    - Each entry point ([change_status_audited], [assign_case_audited],
      [record_handoff_outcome], [record_delivery_investigation_outcome],
      [create_pending_operation_outcome], [customer_decisions_audited],
      [submit_confirmed_operation_outcome],
      [queue_confirmed_operation_atomic],
      [status_reports_audited]): the result on every branch, the single commit it
      makes with its audit events, who may see it, and that an error means nothing was
      committed unless an acknowledgement was lost.
    - Idempotency ([requests_take_effect_once], [operation_requests_take_effect_once]): a
      repeated request commits nothing and answers with the recorded outcome.
    - Delivery: claiming, renewal, finalization and recovery are each one commit whose whole
      effect is stated ([claim_due_outbox_outcome], [renew_outbox_lease_outcome],
      [delivery_finalized_atomically], [recover_expired_outcome]); the counters of a worker
      run tell what was committed and what the provider received ([run_once_truthful]); an
      undeliverable operation reaches a human ([undeliverable_operation_reaches_a_human]);
      commands survive storage ([stored_command_roundtrip]); backoff is bounded and sound
      ([decide_retry_sound]).
    - Callbacks: an event is stored once ([event_received_once]); its callback is applied
      once, under a lease, in one commit with the operation it moves
      ([callback_applied_atomically]); what is done about it follows the lifecycle of
      operations ([callback_decision_spec]); the counters of a worker run are truthful
      ([inbox_run_truthful]).
    - Redrives by hand: the policy fails closed ([outbox_redrive_policy_exact]); a redrive is
      one audited commit that moves a dead message and its aggregate on together
      ([redrive_outbox_audited], [redrive_inbox_audited]); a request id takes effect once
      ([redrives_take_effect_once]); every failure has a response of its own
      ([redrive_failures_have_responses]); and in every reachable database each delivery or
      processing cycle was opened by exactly one recorded redrive ([every_cycle_explained]).
    - Reception and transport: the webhook route stores an event only of a request whose
      signature one of the connection's current secrets made, inside the time window
      ([webhook_authenticated], [verify_and_decode_exact], [signature_window_exact]); two
      requests with one canonical text are one request ([canonical_payload_binds]); a command
      names at most one connection, and the one it is pinned to reaches its provider the same way
      ([resolver_exact]); what a delivery sends, under which
      headers, and what each response means ([http_delivery_exact],
      [canonical_headers_sent]); and a gate never lets through more requests than its
      concurrency and its rate allow ([gate_limits_load]).
    - The fallback ([provider_fallback_outcome]): a pending operation and its review case move
      to manual review together, or nothing happens.
    - The conversation: a turn acts on an order or makes a refund request only after the
      customer's yes, whatever the models say ([turn_acts_on_consent]); a message that
      matches a hard-critical rule gets a case for a human, without asking a model
      ([hard_critical_always_escalates]); every turn ends ([turn_terminates]); every node
      finds what it reads, and what it commands or its router answers is a node, so that the
      graph fails only where a node does ([turn_well_routed]).  Rule files mean what they say ([load_risk_rules_exact]) and
      the matcher reports exactly the occurrences of their patterns ([risk_match_exact]);
      no order gets two refund requests ([create_refund_once]).
    - The system: [system_reaches] closes the services, the turns, the workers, the console and
      the fallback under each other's interference, with no assumption on an environment
      left.  Every reachable database
      satisfies all invariants ([system_invariant]), no message has two open attempts or more
      than eight in a cycle ([attempts_bounded_and_exclusive]), and the provider has only
      received commands of confirmed operations
      ([provider_receives_only_confirmed_commands]).
    - Policies: exactly when an operation is automatic, that no snapshot makes the policy
      raise, that manual review opens the case the policy recommends, how handoff
      reasons are chosen and ordered.
    - Access: exactly which case rows a role sees ([case_visibility_exact]), that verified
      claims grant exactly one role, and that identity keys can be decoded.
    - Authentication: the key cache hands out only keys an issuer's document published, and
      refreshes once for callers that ask together ([signing_keys_trusted]); an identity comes
      only of a token the decoder accepted under such a key
      ([only_verified_tokens_authenticate]); the HTTP surface and the graph see the same caller
      ([surfaces_authenticate_alike]); threads belong to who created them
      ([threads_belong_to_their_owner]); the directory answers for the person asked about,
      and no case is assigned when it fails ([scim_directory_exact]); and a failed startup publishes nothing
      ([startup_fails_closed]).
    - Migrations: whatever happened before, the schema is what the recorded files make of the
      first one, and a run that returns has executed exactly what was pending
      ([migrations_applied_once]).
    - The demonstration order system deduplicates, names its operations and never carries out two
      commands on one version of an order ([demo_provider_keeps_contract]).
    - The API: every request about cases has a response, but for two named exceptions
      ([case_requests_answered]), whichever lawful identity provider and directory it is served
      with: [LawfulProvider] and [directory_lawful] are what it needs of them, and both
      providers and both directories are shown to be lawful.
    - [cancelled_operation_can_reach_provider], [reopening_conflict_escapes],
      [acceptance_lost_to_a_database_fault], [retry_after_overflow_escapes_run],
      [critical_without_categories_fails] and [second_review_never_linked] are concrete runs in which the code does something its callers may not expect.

    ** What is not modelled

    Language-model calls, prompts, the evaluation harness and the showcase, connection pools,
    and the wiring of the services ([operations/runtime.py], [cases/runtime.py], [webapp.py] but
    for its exception handlers): input and output, or configuration.  The web framework hands the routes typed parameters, and the graph platform picks
    the handler of a resource; how either parses a request is theirs.  The JWT decoder, the
    parser of keys and the HTTP client are parameters, as is their timing.
    The worker is modelled without its gate, which only delays requests and has a model of its
    own ([RateLimit]).  The JSON decoder, the HTTP client, the parsing of decimal and HTTP-date
    texts and [strftime] before the year 1000 are parameters where the code uses them.
    A request whose JSON does not parse is the framework's, which answers it before the route
    runs.  Times are unbounded integers but where the code converts them; the names of
    migration files are matched with ASCII digits.
    Strings are sequences of characters below 256 (the matcher alone works on all code
    points, so messages of the graph are limited to these), so [str.upper] on the number a
    model reports is that of ASCII; only order numbers, which are ASCII, pass the check that
    follows. *)
From Stdlib Require Export ZArith NArith QArith_base Ascii String Lia.
From stdpp Require Export strings gmap list sorting.


Open Scope Z_scope.

(** * Python exceptions *)

(** The exceptions the modelled code raises.  A constructor carries the message
    where the source builds one that callers can observe; [ValidationError]
    is pydantic's rejection of a model, named after the model class. *)
Inductive exn :=
  | ValueError (msg : string)
  | ValidationError (model : string)
  | AssertionError
  | RuntimeError (msg : string)
  | ForbiddenError (msg : string)
  | UnauthenticatedError (msg : string)
  | DirectoryInfrastructureUnavailableError
  | IdentityInfrastructureUnavailableError
  | IdentityConfigurationError
  | UnknownSigningKeyError
  | AssignmentTargetUnavailableError
  | InvalidCaseStatusTransition
  | CaseNotFoundError
  | ActiveCaseConflictError
  | ConcurrentCaseUpdateError
  | DuplicateIdempotencyKeyError
  | DuplicateSourceMessageError
  | CasePersistenceError
  | InvalidOperationStatusTransition
  | OperationNotFoundError
  | ActiveOrderOperationConflictError
  | ConcurrentOperationUpdateError
  | DuplicateOperationIdempotencyError
  | DuplicateOperationSourceMessageError
  | OperationPersistenceError
  | ProviderError (code : string)
  | StaleOrderVersionError
  | OrderNotAccessibleError
  | LeaseConflictError
  | OutboxAttemptsExhaustedError
  | InboxEventConflictError (fields : list string)
  | IntegrationPersistenceError
  | ProviderConnectionNotFoundError
  | ProviderConnectionError
  | ProviderTimeoutError
  | ProviderRejectionError
  | HTTPStatusError (status_code : Z) (retry_after_seconds : option Q)
  | OverflowError
  | ProviderOperationsNotFoundError
  | ProviderOperationsConflictError (code : string)
  | ProviderOperationsPersistenceError
  | PgUniqueViolation (constraint_name : string)
  | TypeError (msg : string)
  | KeyError (key : string)
  | RiskRuleConfigError
  | RefundPersistenceError
  | ProviderConfigurationUnavailableError
  | WebhookAuthenticationError
  | WebhookPayloadError (msg : string)
  | MigrationError (msg : string)
  | OperationalError
  | DecodingError.

#[export] Instance Q_eq_dec : EqDecision Q.
Proof. solve_decision. Defined.
#[export] Instance exn_eq_dec : EqDecision exn.
Proof. solve_decision. Defined.

(** A Python call either returns a value or raises. *)
Inductive res (A : Type) :=
  | Ok (a : A)
  | Err (e : exn).
Arguments Ok {A} a.
Arguments Err {A} e.

Definition res_bind {A B} (r : res A) (f : A → res B) : res B :=
  match r with Ok a => f a | Err e => Err e end.

(** [if cond: raise e], then the rest. *)
Definition raise_if (c : bool) (e : exn) : res unit :=
  if c then Err e else Ok tt.

(** A validator run by pydantic: what it raises becomes a [ValidationError]. *)
Definition validating {A} (model : string) (r : res A) : res A :=
  match r with Ok a => Ok a | Err _ => Err (ValidationError model) end.

(** [except ValueError]: pydantic's [ValidationError], the two status-transition errors, the
    rule configuration error and the webhook errors are subclasses. *)
Definition is_ValueError (e : exn) : bool :=
  match e with
  | ValueError _ | ValidationError _
  | InvalidCaseStatusTransition | InvalidOperationStatusTransition
  | RiskRuleConfigError | WebhookAuthenticationError | WebhookPayloadError _ => true
  | _ => false
  end.

Declare Scope py_scope.
Delimit Scope py_scope with py.
Notation "'let*' x ':=' r 'in' k" := (res_bind r (λ x, k))
  (at level 10, x binder, r at level 100, k at level 200) : py_scope.
Notation "r ';;;' k" := (res_bind r (λ _ : unit, k))
  (at level 100, k at level 200, right associativity) : py_scope.
Open Scope py_scope.

Lemma res_bind_ok {A B} (r : res A) (f : A → res B) b :
  res_bind r f = Ok b ↔ ∃ a, r = Ok a ∧ f a = Ok b.
Proof. destruct r; naive_solver. Qed.

Lemma raise_if_ok c e u : raise_if c e = Ok u ↔ c = false.
Proof. destruct c, u; naive_solver. Qed.

Lemma raise_if_err c e e' : raise_if c e = Err e' ↔ c = true ∧ e' = e.
Proof. destruct c; naive_solver. Qed.

Lemma validating_ok {A} model (r : res A) a : validating model r = Ok a ↔ r = Ok a.
Proof. destruct r; naive_solver. Qed.

(** What a call may raise. *)
Definition only_raises {A} (P : exn → Prop) (r : res A) : Prop := ∀ e, r = Err e → P e.

Lemma only_raises_ok {A} P (a : A) : only_raises P (Ok a).
Proof. by intros e. Qed.
Lemma only_raises_err {A} (P : exn → Prop) e : P e → only_raises P (Err e : res A).
Proof. by intros HP ? [= <-]. Qed.
Lemma only_raises_bind {A B} P (r : res A) (f : A → res B) :
  only_raises P r → (∀ a, only_raises P (f a)) → only_raises P (res_bind r f).
Proof. intros Hr Hf e. destruct r as [a|x]; cbn; [apply Hf|intros [= <-]; by apply Hr]. Qed.
Lemma only_raises_if (P : exn → Prop) c e : P e → only_raises P (raise_if c e).
Proof. destruct c; intros HP x; cbn; [by intros [= <-]|done]. Qed.
Lemma only_raises_validating {A} (P : exn → Prop) model (r : res A) :
  P (ValidationError model) → only_raises P (validating model r).
Proof. intros HP x. destruct r; cbn; [done|by intros [= <-]]. Qed.
Lemma only_raises_weaken {A} (P Q : exn → Prop) (r : res A) :
  (∀ e, P e → Q e) → only_raises P r → only_raises Q r.
Proof. intros HPQ Hr e He. by apply HPQ, Hr. Qed.

Create HintDb raising.
#[export] Hint Resolve only_raises_ok only_raises_err only_raises_if only_raises_validating : raising.

(** Follow a pure call branch by branch to what it raises. *)
Ltac raising :=
  repeat first
    [ progress intros
    | solve [eauto 3 with raising]
    | apply only_raises_bind
    | apply only_raises_validating
    | apply only_raises_if
    | apply only_raises_err
    | case_match ].

(** Split a successful chain of guards into the facts it establishes. *)
Ltac inv_ok :=
  repeat match goal with
    | H : res_bind _ _ = Ok _ |- _ =>
        apply res_bind_ok in H; destruct H as (? & ? & H)
    | H : raise_if _ _ = Ok _ |- _ => apply raise_if_ok in H
    | H : validating _ _ = Ok _ |- _ => apply validating_ok in H
    | H : Ok _ = Ok _ |- _ => injection H as H; subst
    | H : Err _ = Ok _ |- _ => discriminate H
    | H : Ok _ = Err _ |- _ => discriminate H
    end.

(** Discharge boolean guards into propositions. *)
Ltac bools :=
  repeat match goal with
    | H : context [negb _ = true] |- _ => rewrite negb_true_iff in H
    | H : context [negb _ = false] |- _ => rewrite negb_false_iff in H
    | H : (_ && _)%bool = true |- _ => apply andb_true_iff in H; destruct H
    | H : (_ || _)%bool = false |- _ => apply orb_false_iff in H; destruct H
    | H : bool_decide _ = true |- _ => apply bool_decide_eq_true in H
    | H : bool_decide _ = false |- _ => apply bool_decide_eq_false in H
    | H : (_ <? _)%Z = true |- _ => apply Z.ltb_lt in H
    | H : (_ <? _)%Z = false |- _ => apply Z.ltb_ge in H
    | H : (_ <=? _)%Z = true |- _ => apply Z.leb_le in H
    | H : (_ <=? _)%Z = false |- _ => apply Z.leb_gt in H
    end.

(** Compute the equality tests between known constructors. *)
Ltac eval_bool_decide :=
  repeat match goal with
    | |- context [bool_decide (?a = ?b)] =>
        first [ rewrite (bool_decide_eq_true_2 (a = b)) by reflexivity
              | rewrite (bool_decide_eq_false_2 (a = b)) by discriminate ]
    end.

(** Open the conjunctions and existentials of the context. *)
Ltac destruct_exs :=
  repeat match goal with
    | H : ∃ _, _ |- _ => destruct H
    | H : _ ∧ _ |- _ => destruct H
    end.

(** * Values shared by the components *)

(** A timezone-aware datetime: microseconds since the epoch, in UTC. *)
Abbreviation instant := Z (only parsing).

(** A Python [datetime]: aware, or naive (no usable UTC offset). *)
Inductive datetime :=
  | Aware (t : instant)
  | Naive (t : Z).

Definition microseconds_per_second : Z := 1000000.
Definition seconds (n : Z) : Z := n * microseconds_per_second.
Definition hours (n : Z) : Z := seconds (n * 3600).
Definition days (n : Z) : Z := hours (n * 24).

(** Round to the nearest integer, ties to even. *)
Definition round_half_even (q : Q) : Z :=
  let n := Qnum q in
  let m := Zpos (Qden q) in
  let lower := n / m in
  let twice := 2 * (n mod m) in
  if twice <? m then lower
  else if m <? twice then lower + 1
  else if Z.even lower then lower else lower + 1.

(** UUIDs are 128-bit values; PostgreSQL orders them as big-endian numbers. *)
Abbreviation uuid := N (only parsing).
Definition uuid_ok (u : uuid) : Prop := (u < 2 ^ 128)%N.

(** * Python strings *)

(** [str.isspace] on the code points a Rocq [ascii] can hold. *)
Definition is_space (c : ascii) : bool :=
  let n := N_of_ascii c in
  ((9 <=? n) && (n <=? 13) || (28 <=? n) && (n <=? 32)
   || (n =? 133) || (n =? 160))%N.

Fixpoint lstrip (s : string) : string :=
  match s with
  | EmptyString => EmptyString
  | String c s' => if is_space c then lstrip s' else s
  end.

Fixpoint rstrip (s : string) : string :=
  match s with
  | EmptyString => EmptyString
  | String c s' =>
      match rstrip s' with
      | EmptyString => if is_space c then EmptyString else String c EmptyString
      | r => String c r
      end
  end.

(** [str.strip()]. *)
Definition strip (s : string) : string := rstrip (lstrip s).

(** [bool(s)] for a string. *)
Definition nonempty (s : string) : bool :=
  match s with EmptyString => false | _ => true end.

Definition str_len (s : string) : Z := Z.of_nat (String.length s).

(** [c in s] for a one-character string. *)
Fixpoint has_char (c : ascii) (s : string) : bool :=
  match s with
  | EmptyString => false
  | String d s' => Ascii.eqb c d || has_char c s'
  end.

(** [s.count(c)] for a one-character string. *)
Fixpoint count_char (c : ascii) (s : string) : nat :=
  match s with
  | EmptyString => 0
  | String d s' => (if Ascii.eqb c d then 1 else 0) + count_char c s'
  end%nat.

(** [s.split(c)] when [c] occurs: the text before and after the first one. *)
Fixpoint split_once (c : ascii) (s : string) : option (string * string) :=
  match s with
  | EmptyString => None
  | String d s' =>
      if Ascii.eqb c d then Some (EmptyString, s')
      else match split_once c s' with
           | Some (a, b) => Some (String d a, b)
           | None => None
           end
  end.

Lemma lstrip_head s c s' : lstrip s = String c s' → is_space c = false.
Proof.
  induction s as [|d s IH]; cbn; [done|].
  destruct (is_space d) eqn:E; naive_solver.
Qed.

Lemma rstrip_cons c s :
  is_space c = false → rstrip (String c s) = String c (rstrip s).
Proof. intros E. cbn. destruct (rstrip s); by rewrite ?E. Qed.

Lemma rstrip_idem s : rstrip (rstrip s) = rstrip s.
Proof.
  induction s as [|c s IH]; [done|].
  cbn. destruct (rstrip s) as [|d r] eqn:E; [destruct (is_space c) eqn:Ec|].
  - done.
  - cbn. by rewrite Ec.
  - cbn in *. destruct (rstrip r) as [|d' r'] eqn:E'.
    + destruct (is_space d); naive_solver.
    + by rewrite IH.
Qed.

Lemma strip_lstrip s : lstrip (strip s) = strip s.
Proof.
  unfold strip. destruct (lstrip s) as [|c t] eqn:E; [done|].
  apply lstrip_head in E. rewrite rstrip_cons by done. cbn. by rewrite E.
Qed.

Lemma strip_idem s : strip (strip s) = strip s.
Proof. unfold strip at 1. rewrite strip_lstrip. apply rstrip_idem. Qed.

Lemma rstrip_app a b : rstrip b ≠ "" → rstrip (String.append a b) = String.append a (rstrip b).
Proof.
  intros Hb. induction a as [|c a IH]; [done|].
  change (rstrip (String c (String.append a b)) = String c (String.append a (rstrip b))).
  cbn [rstrip]. rewrite IH. by destruct a, (rstrip b).
Qed.

Lemma strip_rstrip s : rstrip (strip s) = strip s.
Proof. apply rstrip_idem. Qed.

(** A prefix without leading blanks and a stripped, non-empty suffix need no stripping. *)
Lemma strip_app a b :
  lstrip (String.append a b) = String.append a b → strip b = b → b ≠ "" →
  strip (String.append a b) = String.append a b.
Proof.
  intros Ha Hb Hne. assert (rstrip b = b) as Hr by (by rewrite <- Hb, strip_rstrip).
  unfold strip. rewrite Ha, rstrip_app; by rewrite Hr.
Qed.

(** Stripping empties exactly the strings without a character that is not a space. *)
Fixpoint has_ink (s : string) : bool :=
  match s with EmptyString => false | String c s' => negb (is_space c) || has_ink s' end.

Lemma nonempty_strip s : nonempty (strip s) = has_ink s.
Proof.
  assert (∀ s, nonempty (rstrip s) = has_ink s) as Hr.
  { induction s0 as [|c s0 IH]; [done|]. cbn. rewrite <- IH.
    destruct (rstrip s0); cbn; [by destruct (is_space c)|by rewrite orb_true_r]. }
  assert (∀ s, has_ink (lstrip s) = has_ink s) as Hl.
  { induction s0 as [|c s0 IH]; [done|]. cbn. destruct (is_space c) eqn:E; cbn; [done|by rewrite E]. }
  unfold strip. by rewrite Hr, Hl.
Qed.

Lemma has_ink_app a b : has_ink (String.append a b) = has_ink a || has_ink b.
Proof.
  induction a as [|c a IH]; [done|].
  change (negb (is_space c) || has_ink (String.append a b) = (negb (is_space c) || has_ink a) || has_ink b).
  by rewrite IH, orb_assoc.
Qed.

#[global] Arguments strip : simpl never.

Lemma nonempty_true s : nonempty s = true ↔ s ≠ "".
Proof. destruct s; naive_solver. Qed.

(** ** Concatenation *)

#[local] Arguments String.append : simpl nomatch.

Lemma append_assoc (a b c : string) : ((a +:+ b) +:+ c = a +:+ (b +:+ c)).
Proof. induction a; cbn; congruence. Qed.

Lemma append_length (a b : string) :
  String.length (a +:+ b) = (String.length a + String.length b)%nat.
Proof. induction a; cbn; congruence. Qed.

Lemma append_inj_l (a b c : string) : a +:+ b = a +:+ c → b = c.
Proof. induction a; cbn; [done|]. intros [= ?]. auto. Qed.

Lemma append_inj_len (a a' b b' : string) :
  String.length a = String.length a' →
  a +:+ b = a' +:+ b' → a = a' ∧ b = b'.
Proof.
  revert a'. induction a as [|c a IH]; intros [|c' a'] Hl; cbn in *; try done.
  intros [= -> H]. injection Hl as Hl. destruct (IH _ Hl H). naive_solver.
Qed.

Lemma has_char_app c a b : has_char c (a +:+ b) = has_char c a || has_char c b.
Proof. induction a; cbn; [done|]. rewrite IHa. by destruct (Ascii.eqb c a). Qed.

(** A separator that does not occur on the left of either string splits them. *)
Lemma append_sep_inj c (a a' b b' : string) :
  has_char c a = false → has_char c a' = false →
  a +:+ String c b = a' +:+ String c b' → a = a' ∧ b = b'.
Proof.
  revert a'. induction a as [|d a IH]; intros [|d' a'] Ha Ha'; cbn in *.
  - naive_solver.
  - intros [= <- _]. rewrite Ascii.eqb_refl in Ha'. done.
  - intros [= -> _]. rewrite Ascii.eqb_refl in Ha. done.
  - apply orb_false_iff in Ha as [_ Ha], Ha' as [_ Ha'].
    intros [= -> H]. destruct (IH a' Ha Ha' H). naive_solver.
Qed.

Lemma split_once_app c a b :
  has_char c a = false → split_once c (a +:+ String c b) = Some (a, b).
Proof.
  induction a as [|d a IH]; cbn.
  - by rewrite Ascii.eqb_refl.
  - intros [-> Ha]%orb_false_iff. by rewrite IH.
Qed.

Lemma count_char_none c a : has_char c a = false → count_char c a = 0%nat.
Proof.
  induction a as [|d a IH]; cbn; [done|].
  intros [-> Ha]%orb_false_iff. auto.
Qed.

Lemma count_char_app c a b :
  count_char c (a +:+ b) = (count_char c a + count_char c b)%nat.
Proof. induction a; cbn; [done|]. lia. Qed.

(** [str.lower] on the code points an [ascii] holds. *)
Definition lower_char (c : ascii) : ascii :=
  let n := N_of_ascii c in
  if (((65 <=? n) && (n <=? 90)) || ((192 <=? n) && (n <=? 222) && negb (n =? 215)))%N
  then ascii_of_N (n + 32) else c.
Definition lower (s : string) : string :=
  String.string_of_list_ascii (lower_char <$> String.list_ascii_of_string s).

(** [s.rstrip("/")] *)
Fixpoint rstrip_slash (s : string) : string :=
  match s with
  | EmptyString => EmptyString
  | String c s' =>
      match rstrip_slash s' with
      | EmptyString => if Ascii.eqb c "/" then EmptyString else String c EmptyString
      | r => String c r
      end
  end.

(** [sorted] of strings: by code points. *)
Definition sorted_strings (l : list string) : list string := merge_sort String.le l.

(** Every character of a string satisfies [p]; [[0-9a-f]]. *)
Fixpoint all_chars (p : ascii → bool) (s : string) : bool :=
  match s with EmptyString => true | String c s' => p c && all_chars p s' end.
Definition is_lower_hex (c : ascii) : bool :=
  let n := N_of_ascii c in ((48 <=? n) && (n <=? 57) || (97 <=? n) && (n <=? 102))%N.

Lemma all_chars_app p a b : all_chars p (a +:+ b) = all_chars p a && all_chars p b.
Proof.
  induction a as [|c a IH]; [done|]. change (String c a +:+ b) with (String c (a +:+ b)).
  cbn. by rewrite IH, andb_assoc.
Qed.

(** ** [str(uuid)]: 32 lowercase hexadecimal digits in groups 8-4-4-4-12 *)

Definition hex_digit (n : N) : ascii :=
  ascii_of_N (if (n <? 10)%N then 48 + n else 87 + n)%N.

(** The [k] low hexadecimal digits of [n]. *)
Fixpoint hex (k : nat) (n : N) : string :=
  match k with
  | O => ""
  | S k' => hex k' (n / 16)%N +:+ String (hex_digit (n mod 16)%N) ""
  end.

Definition uuid_str (u : uuid) : string :=
  hex 8 (u / 16 ^ 24)%N +:+ "-" +:+ hex 4 (u / 16 ^ 20)%N +:+ "-" +:+
  hex 4 (u / 16 ^ 16)%N +:+ "-" +:+ hex 4 (u / 16 ^ 12)%N +:+ "-" +:+ hex 12 u.

Lemma hex_digit_inj a b :
  (a < 16)%N → (b < 16)%N → hex_digit a = hex_digit b → a = b.
Proof.
  unfold hex_digit. intros Ha Hb H.
  apply (f_equal N_of_ascii) in H. revert H.
  destruct (N.ltb_spec a 10), (N.ltb_spec b 10);
    rewrite !N_ascii_embedding by lia; lia.
Qed.

Lemma hex_length k n : String.length (hex k n) = k.
Proof. revert n. induction k; intros n; cbn; [done|]. rewrite append_length, IHk. cbn. lia. Qed.

Lemma hex_inj k n m : hex k n = hex k m → (n mod 16 ^ N.of_nat k = m mod 16 ^ N.of_nat k)%N.
Proof.
  revert n m. induction k as [|k IH]; intros n m H.
  { by rewrite !N.mod_1_r. }
  cbn in H. apply append_inj_len in H as [H1 H2]; [|by rewrite !hex_length].
  injection H2 as H2. apply hex_digit_inj in H2; [|apply N.mod_lt; lia..].
  apply IH in H1.
  rewrite Nat2N.inj_succ, N.pow_succ_r'.
  rewrite !N.Div0.mod_mul_r. congruence.
Qed.

Lemma uuid_str_length u : String.length (uuid_str u) = 36%nat.
Proof. unfold uuid_str. repeat (rewrite !append_length; cbn [String.length]). by rewrite !hex_length. Qed.

Lemma mod_glue n m a b :
  (n mod a = m mod a)%N → ((n / a) mod b = (m / a) mod b)%N →
  (n mod (a * b) = m mod (a * b))%N.
Proof. intros H1 H2. rewrite !N.Div0.mod_mul_r. congruence. Qed.

Lemma uuid_str_inj u v : uuid_ok u → uuid_ok v → uuid_str u = uuid_str v → u = v.
Proof.
  unfold uuid_ok, uuid_str. intros Hu Hv H.
  assert (∀ k n m a b, hex k n +:+ a = hex k m +:+ b → hex k n = hex k m ∧ a = b) as Hsplit.
  { intros k n m a b. apply append_inj_len. by rewrite !hex_length. }
  apply Hsplit in H as [H1 H]. apply (append_inj_l "-") in H.
  apply Hsplit in H as [H2 H]. apply (append_inj_l "-") in H.
  apply Hsplit in H as [H3 H]. apply (append_inj_l "-") in H.
  apply Hsplit in H as [H4 H]. apply (append_inj_l "-") in H as H5.
  apply hex_inj in H1, H2, H3, H4, H5.
  pose proof (mod_glue _ _ _ _ H5 H4) as G. pose proof (mod_glue _ _ (16 ^ 16) _ G H3) as G'.
  pose proof (mod_glue _ _ (16 ^ 20) _ G' H2) as G''.
  pose proof (mod_glue _ _ (16 ^ 24) _ G'' H1) as H0.
  change (16 ^ 24 * 16 ^ N.of_nat 8)%N with (2 ^ 128)%N in H0.
  by rewrite !N.mod_small in H0.
Qed.

(** * Ordered collections *)

Section Uniq.
Context {A : Type} `{EqDecision A}.

(** The [seen]-set loop: keep the first occurrence of each value. *)
Fixpoint uniq_from (seen l : list A) : list A :=
  match l with
  | [] => []
  | x :: l' =>
      if decide (x ∈ seen) then uniq_from seen l'
      else x :: uniq_from (x :: seen) l'
  end.

(** [tuple(dict.fromkeys(l))]. *)
Definition dict_fromkeys (l : list A) : list A := uniq_from [] l.

Lemma elem_of_uniq_from x seen l :
  x ∈ uniq_from seen l ↔ x ∈ l ∧ x ∉ seen.
Proof.
  revert seen. induction l as [|y l IH]; intros seen; cbn; [set_solver|].
  destruct (decide (y ∈ seen)); rewrite ?elem_of_cons, IH; [set_solver|].
  destruct (decide (x = y)); set_solver.
Qed.

Lemma NoDup_uniq_from seen l : NoDup (uniq_from seen l).
Proof.
  revert seen. induction l as [|y l IH]; intros seen; cbn; [constructor|].
  destruct (decide (y ∈ seen)); [done|]. constructor; [|done].
  rewrite elem_of_uniq_from. set_solver.
Qed.

Lemma elem_of_dict_fromkeys x l : x ∈ dict_fromkeys l ↔ x ∈ l.
Proof. unfold dict_fromkeys. rewrite elem_of_uniq_from. set_solver. Qed.

Lemma NoDup_dict_fromkeys l : NoDup (dict_fromkeys l).
Proof. apply NoDup_uniq_from. Qed.

Lemma uniq_from_NoDup seen l :
  NoDup l → (∀ x, x ∈ l → x ∉ seen) → uniq_from seen l = l.
Proof.
  revert seen. induction l as [|y l IH]; intros seen; cbn; [done|].
  intros [Hy Hl]%NoDup_cons Hs. rewrite decide_False by set_solver.
  f_equal. apply IH; set_solver.
Qed.

Lemma dict_fromkeys_NoDup l : NoDup l → dict_fromkeys l = l.
Proof. intros. apply uniq_from_NoDup; set_solver. Qed.

(** The values already present keep their place: merging only appends. *)
Lemma uniq_from_app seen l k :
  uniq_from seen (l ++ k) = uniq_from seen l ++ uniq_from (rev l ++ seen) k.
Proof.
  revert seen. induction l as [|y l IH]; intros seen; cbn; [done|].
  assert (∀ s1 s2, (∀ x, x ∈ s1 ↔ x ∈ s2) → uniq_from s1 k = uniq_from s2 k) as Hext.
  { clear. induction k as [|z k IHk]; intros s1 s2 Hs; cbn; [done|].
    rewrite (decide_ext (z ∈ s1) (z ∈ s2)) by done.
    case_decide; [auto|]. f_equal. apply IHk. set_solver. }
  case_decide; cbn; rewrite IH; [|f_equal]; f_equal; apply Hext; set_solver.
Qed.

Lemma dict_fromkeys_nil l : dict_fromkeys l = [] ↔ l = [].
Proof.
  split; [|by intros ->]. intros H. destruct l as [|x l]; [done|].
  assert (x ∈ dict_fromkeys (x :: l)) as Hx by (apply elem_of_dict_fromkeys; set_solver).
  rewrite H in Hx. set_solver.
Qed.
End Uniq.

Section MinBy.
Context {A : Type} (key : A → Z).

(** [min(x, *l, key=key)]: the first element whose key is least. *)
Fixpoint min_by (x : A) (l : list A) : A :=
  match l with
  | [] => x
  | y :: l' => min_by (if key y <? key x then y else x) l'
  end.

Lemma min_by_elem x l : min_by x l ∈ x :: l.
Proof.
  revert x. induction l as [|y l IH]; intros x; cbn; [set_solver|].
  specialize (IH (if key y <? key x then y else x)).
  destruct (key y <? key x); set_solver.
Qed.

Lemma min_by_le x l y : y ∈ x :: l → key (min_by x l) ≤ key y.
Proof.
  revert x y. induction l as [|z l IH]; intros x y Hy; cbn.
  { apply list_elem_of_singleton in Hy as ->. lia. }
  destruct (Z.ltb_spec (key z) (key x)) as [Hlt|Hge].
  - pose proof (IH z z ltac:(set_solver)).
    apply elem_of_cons in Hy as [->|Hy]; [lia|auto].
  - pose proof (IH x x ltac:(set_solver)).
    apply elem_of_cons in Hy as [->|[->|Hy]%elem_of_cons]; [lia..|].
    apply IH. set_solver.
Qed.

(** With distinct keys, the choice depends on the set of candidates only. *)
Lemma min_by_ext `{!Inj (=) (=) key} x l y k :
  (∀ z, z ∈ x :: l ↔ z ∈ y :: k) → min_by x l = min_by y k.
Proof.
  intros Hs. apply (inj key).
  pose proof (min_by_elem x l) as H1. pose proof (min_by_elem y k) as H2.
  apply Hs in H1. apply Hs in H2.
  pose proof (min_by_le x l _ H2). pose proof (min_by_le y k _ H1). lia.
Qed.
End MinBy.

(** [ORDER BY created_at, id]: rows compare by timestamp, then by UUID. *)
Definition row_key_lt (a b : instant * uuid) : bool :=
  (a.1 <? b.1) || ((a.1 =? b.1) && (a.2 <? b.2)%N).

(** [SELECT ... ORDER BY key LIMIT 1] over the matching rows. *)
Fixpoint first_row {A} (key : A → instant * uuid) (l : list A) : option A :=
  match l with
  | [] => None
  | x :: l' =>
      match first_row key l' with
      | Some y => if row_key_lt (key y) (key x) then Some y else Some x
      | None => Some x
      end
  end.

Lemma first_row_elem {A} (key : A → instant * uuid) l x :
  first_row key l = Some x → x ∈ l.
Proof.
  revert x. induction l as [|y l IH]; intros x; cbn; [done|].
  destruct (first_row key l) as [z|]; [destruct row_key_lt|];
    intros [= <-]; set_solver.
Qed.

Lemma first_row_None {A} (key : A → instant * uuid) l :
  first_row key l = None ↔ l = [].
Proof.
  split; [|by intros ->]. destruct l as [|y l]; cbn; [done|].
  by destruct (first_row key l) as [z|]; [destruct row_key_lt|].
Qed.
