(* ===== verification/Effects.v ===== *)
(** Effects of the asynchronous services: a service call is a sequence of
    clock readings, identifier draws and database round trips, and other
    workers commit between any two of them.

    [Ambient] is everything the call does not control, indexed by the tick at
    which it is consulted: the commits of other workers ([interfere]), the clock,
    the UUID factory and database faults.  [World] is the database together with
    the tick and the log of the commits made by the call itself (each as the
    state before and after), so that a theorem can speak about what this call
    wrote no matter what the others did in between. *)
From S2P Require Import Prelude.

(** A round trip can fail before the server commits, or after (the connection is
    lost while the acknowledgement travels back). *)
Inductive fault := NoFault | FailBefore | FailAfter.

Record Ambient (DB : Type) := mkAmbient {
  interfere : nat → DB → DB;
  clock : nat → Z;
  fresh_id : nat → N;
  fault_at : nat → fault;
}.
Arguments interfere {DB} _ _ _.
Arguments clock {DB} _ _.
Arguments fresh_id {DB} _ _.
Arguments fault_at {DB} _ _.

Record World (DB : Type) := mkWorld {
  w_db : DB;
  w_tick : nat;
  w_log : list (DB * DB);
}.
Arguments mkWorld {DB} _ _ _.
Arguments w_db {DB} _.
Arguments w_tick {DB} _.
Arguments w_log {DB} _.

Definition M (DB A : Type) : Type := Ambient DB → World DB → res A * World DB.

Section Ops.
Context {DB : Type}.

Definition ret {A} (a : A) : M DB A := λ _ w, (Ok a, w).
Definition raise {A} (e : exn) : M DB A := λ _ w, (Err e, w).
Definition lift {A} (r : res A) : M DB A := λ _ w, (r, w).

Definition bind {A B} (m : M DB A) (f : A → M DB B) : M DB B := λ amb w,
  match m amb w with
  | (Ok a, w') => f a amb w'
  | (Err e, w') => (Err e, w')
  end.

Definition tick (w : World DB) : World DB :=
  mkWorld (w_db w) (S (w_tick w)) (w_log w).

(** [self._clock()] *)
Definition now : M DB Z := λ amb w, (Ok (clock amb (w_tick w)), tick w).

(** [self._id_factory()] *)
Definition new_id : M DB N := λ amb w, (Ok (fresh_id amb (w_tick w)), tick w).

(** One read-only round trip; [pe] is what the repository raises for a
    [psycopg.Error] or a [PoolTimeout]. *)
Definition query {A} (pe : exn) (f : DB → res A) : M DB A := λ amb w,
  let d := interfere amb (w_tick w) (w_db w) in
  let w' := mkWorld d (S (w_tick w)) (w_log w) in
  match fault_at amb (w_tick w) with
  | NoFault => (f d, w')
  | _ => (Err pe, w')
  end.

(** One transaction: [f] runs atomically, an error rolls it back. *)
Definition transact {A} (pe : exn) (f : DB → res (A * DB)) : M DB A := λ amb w,
  let d := interfere amb (w_tick w) (w_db w) in
  let aborted := mkWorld d (S (w_tick w)) (w_log w) in
  match fault_at amb (w_tick w), f d with
  | FailBefore, _ => (Err pe, aborted)
  | _, Err e => (Err e, aborted)
  | NoFault, Ok (a, d') => (Ok a, mkWorld d' (S (w_tick w)) (w_log w ++ [(d, d')]))
  | FailAfter, Ok (_, d') => (Err pe, mkWorld d' (S (w_tick w)) (w_log w ++ [(d, d')]))
  end.

(** [try: m; except ...]: the handler returns [None] for what it lets through. *)
Definition try_except {A} (m : M DB A) (h : exn → option (M DB A)) : M DB A :=
  λ amb w,
    match m amb w with
    | (Ok a, w') => (Ok a, w')
    | (Err e, w') => match h e with Some k => k amb w' | None => (Err e, w') end
    end.

(** [for _attempt in range(n): body; after]: the body returns [Some] to leave the
    function and [None] to go round again. *)
Fixpoint for_attempts {A} (n : nat) (body : M DB (option A)) (after : M DB A) : M DB A :=
  match n with
  | O => after
  | S n' => bind body (λ o, match o with
                            | Some a => ret a
                            | None => for_attempts n' body after
                            end)
  end.
End Ops.

Declare Scope eff_scope.
Delimit Scope eff_scope with eff.
Notation "x '<-' m ';' k" := (bind m (λ x, k))
  (at level 100, m at next level, k at level 200, right associativity) : eff_scope.
Notation "m ';,' k" := (bind m (λ _, k))
  (at level 100, k at level 200, right associativity) : eff_scope.
Open Scope eff_scope.

(** * Reasoning about a call under interference *)

Section Runs.
Context {DB : Type} (amb : Ambient DB) (I : DB → Prop).

(** The commits of the other workers keep the invariant. *)
Definition rely : Prop := ∀ n d, I d → I (interfere amb n d).

(** [runs m Q]: from any world whose database satisfies [I], the call ends with
    [I] and with a result and list of own commits that satisfy [Q]. *)
Definition runs {A} (m : M DB A) (Q : res A → list (DB * DB) → Prop) : Prop :=
  ∀ w r w', I (w_db w) → m amb w = (r, w') →
    I (w_db w') ∧ ∃ cs, w_log w' = w_log w ++ cs ∧ Q r cs.

Lemma runs_ret {A} (a : A) (Q : _ → _ → Prop) : Q (Ok a) [] → runs (ret a) Q.
Proof. intros HQ w r w' HI [= <- <-]. split; [done|]. exists []. by rewrite app_nil_r. Qed.

Lemma runs_raise {A} e (Q : res A → _ → Prop) : Q (Err e) [] → runs (raise e) Q.
Proof. intros HQ w r w' HI [= <- <-]. split; [done|]. exists []. by rewrite app_nil_r. Qed.

Lemma runs_lift {A} (x : res A) (Q : _ → _ → Prop) : Q x [] → runs (lift x) Q.
Proof. intros HQ w r w' HI [= <- <-]. split; [done|]. exists []. by rewrite app_nil_r. Qed.

Lemma runs_weaken {A} (m : M DB A) (Q Q' : _ → _ → Prop) :
  runs m Q → (∀ r cs, Q r cs → Q' r cs) → runs m Q'.
Proof. intros Hm HQ w r w' HI Hr. destruct (Hm w r w' HI Hr) as (? & cs & ? & ?). eauto. Qed.

Lemma runs_bind {A B} (m : M DB A) (f : A → M DB B) Q1 Q :
  runs m Q1 →
  (∀ a cs1, Q1 (Ok a) cs1 → runs (f a) (λ r cs2, Q r (cs1 ++ cs2))) →
  (∀ e cs1, Q1 (Err e) cs1 → Q (Err e) cs1) →
  runs (bind m f) Q.
Proof.
  intros Hm Hf He w r w' HI. unfold bind. destruct (m amb w) as [[a|e] w1] eqn:E.
  - intros Hr. destruct (Hm w _ _ HI E) as (HI1 & cs1 & Hl1 & HQ1).
    destruct (Hf a cs1 HQ1 w1 r w' HI1 Hr) as (HI2 & cs2 & Hl2 & HQ2).
    split; [done|]. exists (cs1 ++ cs2). by rewrite app_assoc, <- Hl1.
  - intros [= <- <-]. destruct (Hm w _ _ HI E) as (HI1 & cs1 & Hl1 & HQ1). eauto.
Qed.

(** The common case: the first part makes no commit of its own. *)
Lemma runs_bind_pure {A B} (m : M DB A) (f : A → M DB B) (Qa : A → Prop) Q :
  runs m (λ r cs, cs = [] ∧ match r with Ok a => Qa a | Err e => Q (Err e) [] end) →
  (∀ a, Qa a → runs (f a) Q) →
  runs (bind m f) Q.
Proof.
  intros Hm Hf. eapply runs_bind; [exact Hm|..].
  - intros a cs1 [-> Ha]. eapply runs_weaken; [by apply Hf|]. done.
  - by intros e cs1 [-> He].
Qed.

Lemma runs_lift_bind {A B} (x : res A) (f : A → M DB B) Q :
  (∀ e, x = Err e → Q (Err e) []) → (∀ a, x = Ok a → runs (f a) Q) →
  runs (bind (lift x) f) Q.
Proof.
  intros He Hf. apply runs_bind_pure with (Qa := λ a, x = Ok a); [|done].
  apply runs_lift. split; [done|]. destruct x; auto.
Qed.

Lemma runs_now (Q : res Z → _ → Prop) : (∀ t, Q (Ok t) []) → runs now Q.
Proof. intros HQ w r w' HI [= <- <-]. split; [done|]. exists []. cbn. by rewrite app_nil_r. Qed.

Lemma runs_new_id (Q : res N → _ → Prop) : (∀ u, Q (Ok u) []) → runs new_id Q.
Proof. intros HQ w r w' HI [= <- <-]. split; [done|]. exists []. cbn. by rewrite app_nil_r. Qed.

Lemma runs_query {A} pe (f : DB → res A) (Q : _ → _ → Prop) :
  rely →
  (∀ d, I d → Q (f d) []) → Q (Err pe) [] → runs (query pe f) Q.
Proof.
  intros Hrely Hf Hpe w r w' HI. unfold query.
  pose proof (Hrely (w_tick w) _ HI).
  destruct (fault_at amb (w_tick w)); intros [= <- <-];
    (split; [done|]); exists []; rewrite app_nil_r; auto.
Qed.

Lemma runs_transact {A} pe (f : DB → res (A * DB)) (Q : _ → _ → Prop) :
  rely →
  (∀ d a d', I d → f d = Ok (a, d') →
     I d' ∧ Q (Ok a) [(d, d')] ∧ Q (Err pe) [(d, d')]) →
  (∀ d e, I d → f d = Err e → Q (Err e) []) →
  Q (Err pe) [] →
  runs (transact pe f) Q.
Proof.
  intros Hrely Hok Herr Hpe w r w' HI. unfold transact.
  pose proof (Hrely (w_tick w) _ HI) as HId.
  set (d := interfere amb (w_tick w) (w_db w)) in *.
  destruct (fault_at amb (w_tick w)).
  - destruct (f d) as [[a d']|e] eqn:E; intros [= <- <-]; cbn.
    + destruct (Hok _ _ _ HId E) as (? & ? & ?). split; [done|]. by eexists.
    + split; [done|]. exists []. rewrite app_nil_r. eauto.
  - intros [= <- <-]. split; [done|]. exists []. by rewrite app_nil_r.
  - destruct (f d) as [[a d']|e] eqn:E; intros [= <- <-]; cbn.
    + destruct (Hok _ _ _ HId E) as (? & ? & ?). split; [done|]. by eexists.
    + split; [done|]. exists []. rewrite app_nil_r. eauto.
Qed.

Lemma runs_try_except {A} (m : M DB A) h Q1 Q :
  runs m Q1 →
  (∀ a cs, Q1 (Ok a) cs → Q (Ok a) cs) →
  (∀ e cs, Q1 (Err e) cs →
     match h e with
     | Some k => runs k (λ r cs2, Q r (cs ++ cs2))
     | None => Q (Err e) cs
     end) →
  runs (try_except m h) Q.
Proof.
  intros Hm Hok He w r w' HI. unfold try_except.
  destruct (m amb w) as [[a|e] w1] eqn:E.
  - intros [= <- <-]. destruct (Hm w _ _ HI E) as (? & cs & ? & ?). eauto.
  - destruct (Hm w _ _ HI E) as (HI1 & cs & Hl & HQ1).
    specialize (He e cs HQ1). destruct (h e) as [k|].
    + intros Hr. destruct (He w1 r w' HI1 Hr) as (? & cs2 & Hl2 & ?).
      split; [done|]. exists (cs ++ cs2). by rewrite app_assoc, <- Hl.
    + intros [= <- <-]. eauto.
Qed.

(** A bounded retry loop: an unsuccessful round may leave commits [S] behind, which the
    rest of the call accounts for. *)
Lemma runs_for_attempts_acc {A} n (body : M DB (option A)) after (S : list (DB * DB) → Prop)
    (Q : res A → list (DB * DB) → Prop) :
  (∀ cs0 r cs, S cs0 → Q r cs → Q r (cs0 ++ cs)) →
  runs body (λ r cs, match r with
                     | Ok (Some a) => Q (Ok a) cs
                     | Ok None => S cs
                     | Err e => Q (Err e) cs
                     end) →
  runs after Q →
  runs (for_attempts n body after) Q.
Proof.
  intros HS Hb Ha. induction n as [|n IH]; cbn; [done|].
  eapply runs_bind; [exact Hb|..].
  - intros [a|] cs; cbn.
    + intros HQ. apply runs_ret. by rewrite app_nil_r.
    + intros Hcs. eapply runs_weaken; [exact IH|]. auto.
  - done.
Qed.

(** The usual case: unsuccessful rounds leave nothing behind. *)
Lemma runs_for_attempts {A} n (body : M DB (option A)) after Q :
  runs body (λ r cs, match r with
                     | Ok (Some a) => Q (Ok a) cs
                     | Ok None => cs = []
                     | Err e => Q (Err e) cs
                     end) →
  runs after Q →
  runs (for_attempts n body after) Q.
Proof.
  intros Hb Ha. eapply (runs_for_attempts_acc n body after (λ cs, cs = [])); [|exact Hb|done].
  by intros cs0 r cs ->.
Qed.
End Runs.

Arguments rely {DB} amb I /.

(** An ambient with no concurrent commits and no database faults. *)
Class Quiet {DB} (amb : Ambient DB) : Prop := {
  quiet_interfere : ∀ n d, interfere amb n d = d;
  quiet_fault : ∀ n, fault_at amb n = NoFault;
}.

Section Sequential.
Context {DB : Type} (amb : Ambient DB) `{!Quiet amb}.

Lemma query_quiet {A} pe (f : DB → res A) w :
  query pe f amb w = (f (w_db w), tick w).
Proof. unfold query, tick. by rewrite quiet_fault, quiet_interfere. Qed.

Lemma transact_quiet {A} pe (f : DB → res (A * DB)) w :
  transact pe f amb w =
    match f (w_db w) with
    | Ok (a, d') => (Ok a, mkWorld d' (S (w_tick w)) (w_log w ++ [(w_db w, d')]))
    | Err e => (Err e, tick w)
    end.
Proof. unfold transact, tick. rewrite quiet_fault, quiet_interfere. by destruct (f (w_db w)) as [[]|]. Qed.
End Sequential.

(** * Stable facts

    A read can establish a fact that the other workers keep true (a row that can only
    move to a higher version); the rest of the call then runs under the stronger
    invariant. *)
Section Stable.
Context {DB : Type} (amb : Ambient DB).

Lemma runs_query_bind {A B} (I : DB → Prop) pe (f : DB → res A) (k : A → M DB B)
    (J : A → DB → Prop) Q :
  rely amb I →
  Q (Err pe) [] →
  (∀ d e, I d → f d = Err e → Q (Err e) []) →
  (∀ d a, I d → f d = Ok a → J a d) →
  (∀ a d, J a d → I d) →
  (∀ a, (∃ d, J a d) → runs amb (J a) (k a) Q) →
  runs amb I (bind (query pe f) k) Q.
Proof.
  intros Hrely Hpe Herr HJ HI Hk w r w' Hw. unfold bind, query.
  pose proof (Hrely (w_tick w) _ Hw) as Hd.
  set (d := interfere amb (w_tick w) (w_db w)) in *.
  assert (∀ e, Q (Err e) [] →
    (Err e, mkWorld d (S (w_tick w)) (w_log w)) = (r, w') →
    I (w_db w') ∧ ∃ cs, w_log w' = w_log w ++ cs ∧ Q r cs) as Hfail.
  { intros e He [= <- <-]. split; [done|]. exists []. by rewrite app_nil_r. }
  destruct (fault_at amb (w_tick w)); [|by eauto..].
  destruct (f d) as [a|e] eqn:E; [|by eauto].
  intros Hr. pose proof (HJ d a Hd E) as Ha.
  destruct (Hk a (ex_intro _ d Ha) (mkWorld d _ _) _ _ Ha Hr) as (HJ' & cs & Hl & HQ).
  split; [by eapply HI|]. exists cs. done.
Qed.
End Stable.

(** * The database a call leaves behind

    [runs] speaks of the commits of a call; [returns] of the database at its end, which a
    read at the end of the call has just seen. *)
Section Returns.
Context {DB : Type} (amb : Ambient DB).

Definition returns (I : DB → Prop) {A} (m : M DB A) (P : A → DB → Prop) : Prop :=
  ∀ w a w', I (w_db w) → m amb w = (Ok a, w') → P a (w_db w').

Lemma returns_bind (I : DB → Prop) {A B} (m : M DB A) (f : A → M DB B) (P1 : A → DB → Prop) P :
  returns I m P1 → (∀ a, returns (P1 a) (f a) P) → returns I (bind m f) P.
Proof.
  intros Hm Hf w b w' Hw. unfold bind. destruct (m amb w) as [[a|e] w1] eqn:E; [|done].
  apply Hf. by eapply Hm.
Qed.

Lemma returns_lift (I : DB → Prop) {A} (x : res A) (P : A → DB → Prop) :
  (∀ a d, I d → x = Ok a → P a d) → returns I (lift x) P.
Proof. intros H w a w' Hw [= Ha <-]. by apply H. Qed.

Lemma returns_query (I : DB → Prop) {A} pe (f : DB → res A) (P : A → DB → Prop) :
  rely amb I → (∀ d a, I d → f d = Ok a → P a d) → returns I (query pe f) P.
Proof.
  intros Hr H w a w' Hw. unfold query. destruct (fault_at amb (w_tick w)); [|done..].
  intros [= Hf <-]. by apply H; [apply Hr|].
Qed.

Lemma returns_for_attempts (I : DB → Prop) {A} n (body : M DB (option A)) after (P : A → DB → Prop) :
  returns I body (λ o d, match o with Some a => P a d | None => I d end) → returns I after P →
  returns I (for_attempts n body after) P.
Proof.
  intros Hb Ha. induction n as [|n IH]; cbn; [done|]. eapply returns_bind; [exact Hb|].
  intros [a|]; [|done]. by intros w a' w' Hw [= <- <-].
Qed.
End Returns.

(** A single worker with a steady clock and a counting identifier factory. *)
Definition idle_ambient {DB} : Ambient DB :=
  mkAmbient DB (λ _ d, d) (λ n, seconds (1000 + Z.of_nat n)) (λ n, N.of_nat n + 100)%N (λ _, NoFault).

#[export] Instance idle_quiet {DB} : Quiet (@idle_ambient DB).
Proof. by split. Qed.

(** * Optimistic locking

    Optimistic locking: rows that are never deleted, keep their identity columns, and
    whose every rewrite raises the version column.  Under that discipline a row whose
    version is the one read is the row read, whoever else commits in between. *)

Section Versioned.
Context {DB R : Type} (table : DB → gmap uuid R) (row_id : R → uuid) (version : R → Z)
  (same : relation R) `{!PreOrder same} (ok : DB → Prop).

Definition moved_on (r r' : R) : Prop := same r r' ∧ (r' = r ∨ version r < version r').

#[global] Instance moved_on_preorder : PreOrder moved_on.
Proof.
  split.
  - intros r. split; [done|by left].
  - intros x y z [Sxy Vxy] [Syz Vyz]. split; [by etrans|].
    destruct Vxy as [->|Vxy], Vyz as [->|Vyz]; auto. right. lia.
Qed.

(** Every row of [d] is in [d'], possibly at a higher version. *)
Definition evolve (d d' : DB) : Prop :=
  ∀ i r, table d !! i = Some r → ∃ r', table d' !! i = Some r' ∧ moved_on r r'.

#[global] Instance evolve_preorder : PreOrder evolve.
Proof.
  split.
  - intros d i r Hr. exists r. split; [done|]. reflexivity.
  - intros d1 d2 d3 H12 H23 i r Hr. destruct (H12 i r Hr) as (r2 & Hr2 & M2).
    destruct (H23 i r2 Hr2) as (r3 & Hr3 & M3). exists r3. split; [done|by etrans].
Qed.

(** A row that has been read: it is still that one, or has moved on. *)
Definition seen (r : R) (d : DB) : Prop :=
  ok d ∧ ∃ r', table d !! row_id r = Some r' ∧ moved_on r r'.

Lemma seen_ok r d : seen r d → ok d.
Proof. by intros []. Qed.

Lemma seen_read r d : ok d → table d !! row_id r = Some r → seen r d.
Proof. intros Hd Hr. split; [done|]. exists r. split; [done|]. reflexivity. Qed.

Lemma seen_same_version r d o :
  seen r d → table d !! row_id r = Some o → version o = version r → o = r.
Proof. intros [_ (r' & Hr & _ & [->|Hv])] Ho Hver; simplify_eq; [done|lia]. Qed.

Lemma rely_seen (amb : Ambient DB) r :
  (∀ n d, ok d → ok (interfere amb n d) ∧ evolve d (interfere amb n d)) →
  rely amb (seen r).
Proof.
  intros H n d [Hd (r1 & H1 & M1)]. destruct (H n d Hd) as [Hd' Hev]. split; [done|].
  destruct (Hev _ _ H1) as (r2 & H2 & M2). exists r2. split; [done|by etrans].
Qed.

(** Replacing [old] by a higher version of it, or adding a row, is an evolution. *)
Lemma evolve_insert d d' id (old : option R) new :
  table d !! id = old → table d' = <[id := new]> (table d) →
  (∀ o, old = Some o → same o new ∧ version o < version new) → evolve d d'.
Proof.
  intros Hb Hr Hid i x Hx. rewrite Hr, lookup_insert. case_decide as Hi.
  - subst i. rewrite Hx in Hb. subst old. destruct (Hid x eq_refl). exists new.
    split; [done|]. split; [done|by right].
  - exists x. split; [done|]. reflexivity.
Qed.

Lemma seen_insert d d' old new :
  ok d' → table d' = <[row_id old := new]> (table d) →
  same old new → version old < version new → seen old d'.
Proof.
  intros Hok Hr Hs Hv. split; [done|]. exists new.
  rewrite Hr, lookup_insert, decide_True by done. split; [done|]. split; [done|by right].
Qed.
End Versioned.
