(* ===== verification/Auth.v ===== *)
(** Trusted identity and authorization: [auth/models.py] (identity keys, access
    scopes), [auth/rbac.py] (role permissions), [auth/visibility.py] (row
    visibility), [auth/directory.py] (assignment candidates) and
    [auth/claim_policy.py] (OIDC claims to identity). *)
From S2P Require Import Prelude.

Inductive Role := customer | support_agent | supervisor.

Inductive Permission :=
  | orders_read_own | orders_operate_own
  | cases_read_own | cases_read_assigned | cases_read_all
  | cases_update_assigned | cases_update_all | cases_assign
  | provider_ops_read | provider_ops_redrive.

#[export] Instance Role_eq_dec : EqDecision Role.
Proof. solve_decision. Defined.
#[export] Instance Permission_eq_dec : EqDecision Permission.
Proof. solve_decision. Defined.

Definition Permission_code (p : Permission) : nat :=
  match p with
  | orders_read_own => 0 | orders_operate_own => 1
  | cases_read_own => 2 | cases_read_assigned => 3 | cases_read_all => 4
  | cases_update_assigned => 5 | cases_update_all => 6 | cases_assign => 7
  | provider_ops_read => 8 | provider_ops_redrive => 9
  end.
Definition Permission_of_code (n : nat) : Permission :=
  match n with
  | 0 => orders_read_own | 1 => orders_operate_own
  | 2 => cases_read_own | 3 => cases_read_assigned | 4 => cases_read_all
  | 5 => cases_update_assigned | 6 => cases_update_all | 7 => cases_assign
  | 8 => provider_ops_read | _ => provider_ops_redrive
  end%nat.
#[export] Program Instance Permission_countable : Countable Permission :=
  inj_countable' Permission_code Permission_of_code _.
Next Obligation. by intros []. Qed.

Definition Role_code (r : Role) : nat :=
  match r with customer => 0 | support_agent => 1 | supervisor => 2 end.
Definition Role_of_code (n : nat) : Role :=
  match n with 0 => customer | 1 => support_agent | _ => supervisor end%nat.
#[export] Program Instance Role_countable : Countable Role :=
  inj_countable' Role_code Role_of_code _.
Next Obligation. by intros []. Qed.

(** * Identity keys *)

Definition separator : ascii := ":"%char.
Definition reserved_tenant_ids : gset string := {["legacy"]}.

(** [_validate_identity_part(value, field)] *)
Definition validate_identity_part (value field : string) : res unit :=
  raise_if (negb (nonempty (strip value)))
    (ValueError (field +:+ " must be a non-empty string"));;;
  raise_if (has_char separator value)
    (ValueError (field +:+ " must not contain the separator ':'"));;;
  raise_if (String.eqb field "tenant_id"
            && bool_decide (strip value ∈ reserved_tenant_ids))
    (ValueError (field +:+ " is reserved: " +:+ strip value)).

Definition encode_identity_key (tenant_id user_id : string) : res string :=
  validate_identity_part tenant_id "tenant_id";;;
  validate_identity_part user_id "user_id";;;
  Ok (tenant_id +:+ String separator user_id).

Definition decode_identity_key (key : string) : res (string * string) :=
  raise_if (negb (Nat.eqb (count_char separator key) 1))
    (ValueError "identity key must contain exactly one separator");;;
  match split_once separator key with
  | Some (tenant_id, user_id) =>
      validate_identity_part tenant_id "tenant_id";;;
      validate_identity_part user_id "user_id";;;
      Ok (tenant_id, user_id)
  | None => Err (ValueError "identity key must contain exactly one separator")
  end.

(** * Access scopes *)

Record AccessScope := mkAccessScope {
  sc_tenant_id : string;
  sc_user_id : string;
  sc_role : Role;
  sc_permissions : gset Permission;
}.

(** Construction: strings are stripped, then validated. *)
Definition AccessScope_validate (s : AccessScope) : res AccessScope :=
  let s := mkAccessScope (strip (sc_tenant_id s)) (strip (sc_user_id s))
             (sc_role s) (sc_permissions s) in
  raise_if (negb (nonempty (sc_tenant_id s)) || negb (nonempty (sc_user_id s)))
    (ValidationError "AccessScope");;;
  validating "AccessScope"
    (validate_identity_part (sc_tenant_id s) "tenant_id";;;
     validate_identity_part (sc_user_id s) "user_id");;;
  Ok s.

(** [AccessScope.identity] *)
Definition identity (s : AccessScope) : res string :=
  encode_identity_key (sc_tenant_id s) (sc_user_id s).

(** [AccessScope.customer_id] *)
Definition customer_id (s : AccessScope) : option string :=
  if decide (sc_role s = customer) then Some (sc_user_id s) else None.

(** * Role-based access control *)

Definition role_permissions (r : Role) : gset Permission :=
  match r with
  | customer => {[orders_read_own; orders_operate_own; cases_read_own]}
  | support_agent => {[cases_read_assigned; cases_update_assigned]}
  | supervisor =>
      {[cases_read_own; cases_read_assigned; cases_read_all; cases_update_assigned;
        cases_update_all; cases_assign; provider_ops_read; provider_ops_redrive]}
  end.

Definition has_permission (s : AccessScope) (p : Permission) : bool :=
  bool_decide (p ∈ sc_permissions s).

Definition has_any_permission (s : AccessScope) (ps : list Permission) : bool :=
  existsb (has_permission s) ps.

Definition has_provider_operations_permission (s : AccessScope) (p : Permission) : bool :=
  bool_decide (sc_role s = supervisor) && has_permission s p.

Definition derive_role (ps : gset Permission) : res Role :=
  match list_find (λ r, ps = role_permissions r) [customer; support_agent; supervisor] with
  | Some (_, r) => Ok r
  | None => Err (ValueError "permission set does not exactly match a known role")
  end.

(** * Row visibility *)

(** The ownership columns a visibility predicate reads. *)
Record row_owner := mkRowOwner {
  ro_tenant : string;
  ro_customer : string;
  ro_assigned : option string;
}.

Definition case_visibility (s : AccessScope) : res (row_owner → bool) :=
  if has_permission s cases_read_all then
    Ok (λ o, bool_decide (ro_tenant o = sc_tenant_id s))
  else if has_permission s cases_read_assigned then
    Ok (λ o, bool_decide (ro_tenant o = sc_tenant_id s)
             && bool_decide (ro_assigned o = Some (sc_user_id s)))
  else if has_permission s cases_read_own then
    match customer_id s with
    | None => Err (ForbiddenError "own-case access requires a customer identity")
    | Some c => Ok (λ o, bool_decide (ro_tenant o = sc_tenant_id s)
                         && bool_decide (ro_customer o = c))
    end
  else Err (ForbiddenError "the caller cannot read support cases").

Definition customer_owned_visibility (s : AccessScope) : res (row_owner → bool) :=
  match customer_id s with
  | None => Err (ForbiddenError "only customers may access customer-owned records")
  | Some c => Ok (λ o, bool_decide (ro_tenant o = sc_tenant_id s)
                       && bool_decide (ro_customer o = c))
  end.

(** * The personnel directory *)

Record DirectoryUser := mkDirectoryUser {
  du_user_id : string;
  du_tenant_id : string;
  du_active : bool;
  du_roles : gset Role;
}.

(** [IdentityDirectory.find_user]: an external service; it answers or is
    unreachable. *)
Definition IdentityDirectory : Type := string → string → res (option DirectoryUser).

(** * OIDC claims *)

Record AuthenticatedIdentity := mkAuthenticatedIdentity {
  ai_user_id : string;
  ai_tenant_id : string;
  ai_role : Role;
  ai_permissions : gset Permission;
}.

Definition AuthenticatedIdentity_validate (i : AuthenticatedIdentity) :
    res AuthenticatedIdentity :=
  let i := mkAuthenticatedIdentity (strip (ai_user_id i)) (strip (ai_tenant_id i))
             (ai_role i) (ai_permissions i) in
  raise_if (negb (nonempty (ai_tenant_id i)) || negb (nonempty (ai_user_id i)))
    (ValidationError "AuthenticatedIdentity");;;
  validating "AuthenticatedIdentity"
    (validate_identity_part (ai_tenant_id i) "tenant_id";;;
     validate_identity_part (ai_user_id i) "user_id");;;
  Ok i.

(** [AuthenticatedIdentity.scope()] *)
Definition identity_scope (i : AuthenticatedIdentity) : res AccessScope :=
  AccessScope_validate
    (mkAccessScope (ai_tenant_id i) (ai_user_id i) (ai_role i) (ai_permissions i)).

(** A decoded claim value: what the code distinguishes by [isinstance]. *)
Inductive claim :=
  | ClaimStr (s : string)
  | ClaimSeq (l : list claim)
  | ClaimOther.

(** [role_groups] is an insertion-ordered dict. *)
Record ClaimMappingConfig := mkClaimMapping {
  user_id_claim : string;
  tenant_id_claim : string;
  groups_claim : string;
  role_groups : list (Role * gset string);
}.

Definition required_string_claim (claims : gmap string claim) (name : string) : res string :=
  match claims !! name with
  | Some (ClaimStr s) =>
      raise_if (negb (nonempty (strip s)))
        (UnauthenticatedError "required identity claim is invalid");;;
      Ok (strip s)
  | _ => Err (UnauthenticatedError "required identity claim is invalid")
  end.

Fixpoint claim_groups (l : list claim) : option (list string) :=
  match l with
  | [] => Some []
  | ClaimStr s :: l' =>
      if nonempty (strip s) then cons (strip s) <$> claim_groups l' else None
  | _ :: _ => None
  end.

Definition required_string_sequence_claim (claims : gmap string claim) (name : string) :
    res (gset string) :=
  match claims !! name with
  | Some (ClaimSeq (g :: gs)) =>
      match claim_groups (g :: gs) with
      | Some l => Ok (list_to_set l)
      | None => Err (UnauthenticatedError "required identity groups claim is invalid")
      end
  | _ => Err (UnauthenticatedError "required identity groups claim is invalid")
  end.

(** The set comprehension [{role for role, allowed in ... if groups & allowed}]. *)
Definition matched_roles (groups : gset string) (rg : list (Role * gset string)) : gset Role :=
  list_to_set (fst <$> filter (λ '(_, allowed), groups ∩ allowed ≠ ∅) rg).

Definition identity_from_verified_claims (claims : gmap string claim)
    (mapping : ClaimMappingConfig) : res AuthenticatedIdentity :=
  raise_if (bool_decide (is_Some (claims !! "permissions")))
    (UnauthenticatedError "token permissions are not accepted");;;
  let* user_id := required_string_claim claims (user_id_claim mapping) in
  let* tenant_id := required_string_claim claims (tenant_id_claim mapping) in
  let* groups := required_string_sequence_claim claims (groups_claim mapping) in
  match elements (matched_roles groups (role_groups mapping)) with
  | [role] =>
      match AuthenticatedIdentity_validate
              (mkAuthenticatedIdentity user_id tenant_id role (role_permissions role)) with
      | Ok i => Ok i
      | Err e => if is_ValueError e
                 then Err (UnauthenticatedError "identity claims are invalid")
                 else Err e
      end
  | _ => Err (UnauthenticatedError "identity role mapping is invalid")
  end.

(** * Properties *)

Definition identity_part_ok (value field : string) : Prop :=
  validate_identity_part value field = Ok tt.

Lemma validate_identity_part_unit value field u :
  validate_identity_part value field = Ok u ↔ identity_part_ok value field.
Proof. by destruct u. Qed.

Lemma identity_part_no_separator value field :
  identity_part_ok value field → has_char separator value = false.
Proof. unfold identity_part_ok, validate_identity_part. intros H. by inv_ok. Qed.

Lemma encode_identity_key_ok t u k :
  encode_identity_key t u = Ok k ↔
  identity_part_ok t "tenant_id" ∧ identity_part_ok u "user_id" ∧
  k = t +:+ String separator u.
Proof.
  unfold encode_identity_key. split.
  - intros H. inv_ok. by rewrite !validate_identity_part_unit in *.
  - by intros (-> & -> & ->).
Qed.

Lemma decode_identity_key_ok t u k :
  decode_identity_key k = Ok (t, u) ↔
  count_char separator k = 1%nat ∧ split_once separator k = Some (t, u) ∧
  identity_part_ok t "tenant_id" ∧ identity_part_ok u "user_id".
Proof.
  unfold decode_identity_key. split.
  - intros H. inv_ok. destruct split_once as [[t' u']|]; inv_ok.
    rewrite !validate_identity_part_unit in *.
    apply negb_false_iff, Nat.eqb_eq in H0. by simplify_eq.
  - intros (-> & -> & -> & ->). done.
Qed.

Lemma split_once_inv c s a b :
  split_once c s = Some (a, b) → s = a +:+ String c b.
Proof.
  revert a b. induction s as [|d s IH]; intros a b; cbn; [done|].
  destruct (Ascii.eqb_spec c d) as [<-|Hne].
  - by intros [= <- <-].
  - destruct (split_once c s) as [[a' b']|] eqn:E; [|done].
    intros [= <- <-]. by rewrite (IH a' b' eq_refl).
Qed.

(** Identity keys round-trip in both directions: a tenant and user pair encodes
    to a key exactly when that key decodes to the pair, so [created_by] and actor
    stamps identify one tenant and one user. *)
Theorem identity_key_roundtrip (tenant_id user_id key : string) :
  encode_identity_key tenant_id user_id = Ok key ↔
  decode_identity_key key = Ok (tenant_id, user_id).
Proof.
  rewrite encode_identity_key_ok, decode_identity_key_ok. split.
  - intros (Ht & Hu & ->). rewrite split_once_app by eauto using identity_part_no_separator.
    apply identity_part_no_separator in Ht as Ht', Hu as Hu'.
    rewrite count_char_app. cbn. by rewrite !count_char_none.
  - intros (_ & Hs & Ht & Hu). by apply split_once_inv in Hs as ->.
Qed.

(** The scopes the runtime builds carry the canonical permissions of their role. *)
Definition canonical (s : AccessScope) : Prop :=
  sc_permissions s = role_permissions (sc_role s).

(** What a role may see of a support-case row. *)
Definition sees_case (s : AccessScope) (o : row_owner) : Prop :=
  ro_tenant o = sc_tenant_id s ∧
  match sc_role s with
  | customer => ro_customer o = sc_user_id s
  | support_agent => ro_assigned o = Some (sc_user_id s)
  | supervisor => True
  end.

(** Whatever the permissions, a visible case row belongs to the caller's tenant. *)
Lemma case_visibility_tenant s p o :
  case_visibility s = Ok p → p o = true → ro_tenant o = sc_tenant_id s.
Proof.
  unfold case_visibility. repeat case_match; intros; simplify_eq; by bools.
Qed.

Lemma customer_owned_visibility_ok s p o :
  customer_owned_visibility s = Ok p →
  p o = true ↔ ro_tenant o = sc_tenant_id s ∧ customer_id s = Some (ro_customer o).
Proof.
  unfold customer_owned_visibility. destruct (customer_id s) as [c|]; [|done].
  intros [= <-]. rewrite andb_true_iff, !bool_decide_eq_true. naive_solver.
Qed.

Lemma canonical_has_permission s p :
  canonical s → has_permission s p = bool_decide (p ∈ role_permissions (sc_role s)).
Proof. unfold canonical, has_permission. by intros ->. Qed.

Lemma case_visibility_canonical (s : AccessScope) :
  canonical s →
  ∃ visible, case_visibility s = Ok visible ∧
    ∀ o, visible o = true ↔ sees_case s o.
Proof.
  intros Hc. unfold case_visibility, sees_case, customer_id.
  rewrite !canonical_has_permission by done.
  destruct (sc_role s) eqn:Er; cbn; rewrite ?decide_True by done;
    (eexists; split; [reflexivity|]); intros o;
    rewrite ?andb_true_iff, ?bool_decide_eq_true; naive_solver.
Qed.

(** A scope with the canonical permissions of its role sees exactly the rows its
    role allows: a customer its own cases, an agent the cases assigned to it, a
    supervisor every case of its tenant, and never a row of another tenant. *)
Theorem case_visibility_exact (s : AccessScope) :
  canonical s →
  ∃ visible, case_visibility s = Ok visible ∧
    ∀ o, visible o = true ↔ sees_case s o.
Proof. apply case_visibility_canonical. Qed.

Definition demo_scope (r : Role) : AccessScope :=
  mkAccessScope "tenant-a" "u1" r (role_permissions r).

Lemma case_visibility_exact_witness :
  canonical (demo_scope support_agent) ∧
  ∃ visible, case_visibility (demo_scope support_agent) = Ok visible ∧
    ∀ o, visible o = true ↔ sees_case (demo_scope support_agent) o.
Proof. split; [reflexivity|]. apply (case_visibility_exact (demo_scope support_agent)). reflexivity. Defined.

(** A role is recovered from its permission set, and from no other set. *)
Lemma derive_role_ok ps r : derive_role ps = Ok r ↔ ps = role_permissions r.
Proof.
  unfold derive_role. split.
  - destruct list_find as [[i r']|] eqn:E; [|done].
    intros [= <-]. by apply list_find_Some in E as (_ & ? & _).
  - intros ->. destruct r; vm_compute; reflexivity.
Qed.

Lemma AuthenticatedIdentity_validate_ok i i' :
  AuthenticatedIdentity_validate i = Ok i' →
  strip (ai_tenant_id i') = ai_tenant_id i' ∧ strip (ai_user_id i') = ai_user_id i' ∧
  ai_tenant_id i' ≠ "" ∧ ai_user_id i' ≠ "" ∧
  identity_part_ok (ai_tenant_id i') "tenant_id" ∧
  identity_part_ok (ai_user_id i') "user_id" ∧
  ai_role i' = ai_role i ∧ ai_permissions i' = ai_permissions i.
Proof.
  unfold AuthenticatedIdentity_validate. cbn. intros H. inv_ok. bools. cbn in *.
  subst. cbn in *. rewrite !validate_identity_part_unit in *. rewrite !strip_idem.
  repeat match goal with H : nonempty _ = true |- _ => apply nonempty_true in H end.
  done.
Qed.

Lemma identity_scope_ok i i' :
  AuthenticatedIdentity_validate i = Ok i' →
  identity_scope i' =
    Ok (mkAccessScope (ai_tenant_id i') (ai_user_id i') (ai_role i') (ai_permissions i')).
Proof.
  intros (St & Su & Nt & Nu & Ht & Hu & _ & _)%AuthenticatedIdentity_validate_ok.
  unfold identity_scope, AccessScope_validate. cbn. rewrite St, Su.
  apply nonempty_true in Nt as ->, Nu as ->. cbn. by rewrite Ht; cbn; rewrite Hu.
Qed.

(** Verified OIDC claims fail closed.  When they are accepted, the token carried no
    permissions of its own, exactly one configured role matched the groups claim,
    the identity holds precisely that role's permissions, and it yields a canonical
    scope of its tenant whose identity key is well formed. *)
Theorem claims_grant_exactly_one_role (claims : gmap string claim)
    (mapping : ClaimMappingConfig) (i : AuthenticatedIdentity) :
  identity_from_verified_claims claims mapping = Ok i →
  claims !! "permissions" = None ∧
  (∃ groups, required_string_sequence_claim claims (groups_claim mapping) = Ok groups ∧
             matched_roles groups (role_groups mapping) = {[ai_role i]}) ∧
  ai_permissions i = role_permissions (ai_role i) ∧
  ∃ s, identity_scope i = Ok s ∧ canonical s ∧ sc_tenant_id s = ai_tenant_id i ∧
       ∃ k, identity s = Ok k.
Proof.
  unfold identity_from_verified_claims. intros H. inv_ok. bools.
  destruct (elements _) as [|role [|]] eqn:Er; try done.
  destruct (AuthenticatedIdentity_validate _) as [i'|e] eqn:E; [|by case_match].
  inv_ok. pose proof (identity_scope_ok _ _ E) as Hs.
  apply AuthenticatedIdentity_validate_ok in E as (_ & _ & _ & _ & Ht & Hu & Hr & Hp).
  cbn in Hr, Hp. rewrite <- eq_None_not_Some in *. split; [done|]. split; [|split].
  - eexists. split; [done|]. rewrite Hr. apply leibniz_equiv.
    intros r. by rewrite <- elem_of_elements, Er, list_elem_of_singleton, elem_of_singleton.
  - by rewrite Hp, Hr.
  - eexists. split; [exact Hs|]. unfold canonical. cbn. rewrite Hp, Hr.
    split_and!; [done..|]. unfold identity. cbn. eexists.
    apply encode_identity_key_ok. done.
Qed.

Definition demo_mapping : ClaimMappingConfig :=
  mkClaimMapping "sub" "tid" "groups"
    [(customer, {["shoppers"]}); (support_agent, {["agents"; "night-shift"]})].
Definition demo_claims : gmap string claim :=
  {["sub" := ClaimStr " ann "; "tid" := ClaimStr "tenant-a";
    "groups" := ClaimSeq [ClaimStr "night-shift"; ClaimStr "cyclists"]]}.
Definition demo_identity : AuthenticatedIdentity :=
  mkAuthenticatedIdentity "ann" "tenant-a" support_agent (role_permissions support_agent).

Lemma claims_grant_exactly_one_role_witness :
  identity_from_verified_claims demo_claims demo_mapping = Ok demo_identity ∧
  ai_permissions demo_identity = role_permissions support_agent.
Proof.
  assert (identity_from_verified_claims demo_claims demo_mapping = Ok demo_identity) as H
    by (vm_compute; reflexivity).
  split; [exact H|].
  exact (proj1 (proj2 (proj2 (claims_grant_exactly_one_role _ _ _ H)))).
Defined.

(** * The identity of a graph turn

    The authenticated identity of a graph turn, read back from the trusted configuration:
    [auth/context.py]. *)

(** The literals of [Permission] and [Role]. *)
Definition permission_str (p : Permission) : string :=
  match p with
  | orders_read_own => "orders:read:own" | orders_operate_own => "orders:operate:own"
  | cases_read_own => "cases:read:own" | cases_read_assigned => "cases:read:assigned"
  | cases_read_all => "cases:read:all" | cases_update_assigned => "cases:update:assigned"
  | cases_update_all => "cases:update:all" | cases_assign => "cases:assign"
  | provider_ops_read => "provider_ops:read" | provider_ops_redrive => "provider_ops:redrive"
  end.
Definition role_str (r : Role) : string :=
  match r with customer => "customer" | support_agent => "support_agent" | supervisor => "supervisor" end.

Definition all_permissions : list Permission :=
  [orders_read_own; orders_operate_own; cases_read_own; cases_read_assigned; cases_read_all;
   cases_update_assigned; cases_update_all; cases_assign; provider_ops_read; provider_ops_redrive].

(** The auth-user payload; a field is [None] when it is missing or not of its type. *)
Record UserPayload := mkUserPayload {
  up_identity : option string;
  up_permissions : option (list string);
  up_role : option string;
}.

(** [for permission in raw_permissions]: unknown permissions are rejected. *)
Fixpoint validated_permissions (raw : list string) : res (gset Permission) :=
  match raw with
  | [] => Ok ∅
  | s :: raw' =>
      match list_find (λ p, permission_str p = s) all_permissions with
      | None => Err (UnauthenticatedError ("unknown permission: " +:+ s))
      | Some (_, p) => let* ps := validated_permissions raw' in Ok ({[p]} ∪ ps)
      end
  end.

(** [except ValueError as error: raise UnauthenticatedError(...)] *)
Definition unauthenticated_on_value_error {A} (r : res A) (msg : string) : res A :=
  match r with
  | Ok a => Ok a
  | Err e => if is_ValueError e then Err (UnauthenticatedError msg) else Err e
  end.

Definition identity_from_user_payload (payload : option UserPayload) : res AuthenticatedIdentity :=
  match payload with
  | None => Err (UnauthenticatedError "authenticated user is missing")
  | Some p =>
      match up_identity p with
      | None => Err (UnauthenticatedError "authenticated user has no identity key")
      | Some key =>
          raise_if (negb (nonempty (strip key)))
            (UnauthenticatedError "authenticated user has no identity key");;;
          let* parts := unauthenticated_on_value_error (decode_identity_key key)
                          "authenticated user has an invalid identity key" in
          match up_permissions p with
          | None => Err (UnauthenticatedError "authenticated user has no permissions")
          | Some raw =>
              let* permissions := validated_permissions raw in
              let* derived := unauthenticated_on_value_error (derive_role permissions)
                                "permission set does not map to a known role" in
              let claimed := match up_role p with
                             | Some s => snd <$> list_find (λ r, role_str r = s) [customer; support_agent; supervisor]
                             | None => None
                             end in
              match claimed with
              | Some role => raise_if (bool_decide (role ≠ derived))
                               (UnauthenticatedError "role and permissions do not match")
              | None => Ok tt
              end;;;
              AuthenticatedIdentity_validate (mkAuthenticatedIdentity parts.2 parts.1 derived permissions)
          end
      end
  end.

Definition require_identity (payload : option UserPayload) : res AuthenticatedIdentity :=
  identity_from_user_payload payload.

Definition require_scope (payload : option UserPayload) : res AccessScope :=
  let* i := require_identity payload in identity_scope i.

(** * What an accepted payload establishes *)

Lemma derive_role_permissions ps r : derive_role ps = Ok r → ps = role_permissions r.
Proof.
  unfold derive_role. destruct (list_find _ _) as [[i x]|] eqn:E; [|done].
  apply list_find_Some in E as (_ & -> & _). by intros [= ->].
Qed.

Lemma unauthenticated_ok {A} (r : res A) msg a : unauthenticated_on_value_error r msg = Ok a → r = Ok a.
Proof. destruct r; cbn; [done|]. by case_match. Qed.

(** A scope accepted from a configuration is of one role, with exactly the permissions of that
    role, for the tenant and user its identity key decodes to. *)

(** A scope accepted from a configuration is of one role, with exactly the permissions of that
    role, for the tenant and user its identity key decodes to. *)
Lemma require_scope_canonical payload s :
  require_scope payload = Ok s →
  canonical s ∧ ∃ p key tenant user, payload = Some p ∧ up_identity p = Some key ∧
    decode_identity_key key = Ok (tenant, user) ∧
    sc_tenant_id s = strip tenant ∧ sc_user_id s = strip user.
Proof.
  intros H. unfold require_scope, require_identity, identity_from_user_payload in H.
  apply res_bind_ok in H as (i & H & Hs).
  destruct payload as [p|]; [|done]. destruct (up_identity p) as [key|] eqn:Hk; [|done].
  apply res_bind_ok in H as (? & _ & H). apply res_bind_ok in H as ([t u] & Hd%unauthenticated_ok & H).
  destruct (up_permissions p) as [raw|]; [|done].
  apply res_bind_ok in H as (ps & _ & H).
  apply res_bind_ok in H as (r & Hr%unauthenticated_ok%derive_role_permissions & H).
  apply res_bind_ok in H as (? & _ & H). unfold AuthenticatedIdentity_validate in H. inv_ok.
  unfold identity_scope, AccessScope_validate in Hs. inv_ok. cbn. split; [done|].
  exists p, key, t, u. rewrite !strip_idem. done.
Qed.
