(* ===== verification/OperationModels.v ===== *)
(** Order-operation domain contracts: [operations/models.py].  Each pydantic class
    is a record with a [_validate] function that performs its construction:
    string stripping, field constraints, then the model validator. *)
From S2P Require Import Prelude.

Inductive OrderStatus :=
  | ord_pending_payment | ord_confirmed | ord_cancelled | ord_completed.
Inductive PaymentStatus :=
  | pay_unpaid | pay_paid | pay_refund_pending | pay_partially_refunded | pay_refunded.
Inductive FulfillmentStatus :=
  | ful_unfulfilled | ful_processing | ful_shipped | ful_delivered.
Inductive OperationType := op_cancellation | op_return | op_exchange.
(** [OperationStatus]: the status of an operation reported by the order system.
    The policy also tests for ["queued"], which this type cannot hold. *)
Inductive OperationStatus :=
  | xs_submitted | xs_processing | xs_manual_review | xs_completed | xs_rejected.
Inductive OperationRecordStatus :=
  | os_pending_confirmation | os_queued | os_submitted | os_processing
  | os_manual_review | os_completed | os_rejected | os_cancelled_by_customer.
Inductive OperationEventType :=
  | oe_operation_created | oe_confirmation_recorded | oe_status_changed
  | oe_support_case_attached.
Inductive OperationServiceAction :=
  | oa_created | oa_duplicate_ignored | oa_confirmed | oa_queued | oa_submitted
  | oa_cancelled | oa_status_changed | oa_status_unchanged | oa_support_case_attached.
Inductive ExistingOperationType := xo_refund | xo_cancellation | xo_return | xo_exchange.
Inductive DeliveryIssueType :=
  | di_delayed | di_tracking_stalled | di_delivery_failed
  | di_marked_delivered_not_received | di_package_damaged
  | di_wrong_item_or_missing_parts | di_other_delivery_issue.
(** [OperationReason = CancellationReason | ReturnExchangeReason]; ["other"] is in
    both unions. *)
Inductive OperationReason :=
  | or_ordered_by_mistake | or_no_longer_needed | or_incorrect_item_or_quantity
  | or_delivery_too_slow | or_payment_issue | or_other
  | or_changed_mind | or_wrong_item_received | or_damaged_item | or_defective_item
  | or_missing_parts | or_not_as_described | or_size_or_variant_issue.
Inductive OperationOutcome :=
  | out_eligible | out_manual_review | out_rejected | out_existing_operation
  | out_already_completed.
Inductive DeliveryOutcome := do_self_service | do_manual_review | do_offer_return_exchange.
Inductive RecommendedCaseType := rec_order_operation_review | rec_delivery_investigation.
Inductive CasePriority := p0 | p1 | p2 | p3.

#[export] Instance OrderStatus_eq_dec : EqDecision OrderStatus.
Proof. solve_decision. Defined.
#[export] Instance PaymentStatus_eq_dec : EqDecision PaymentStatus.
Proof. solve_decision. Defined.
#[export] Instance FulfillmentStatus_eq_dec : EqDecision FulfillmentStatus.
Proof. solve_decision. Defined.
#[export] Instance OperationType_eq_dec : EqDecision OperationType.
Proof. solve_decision. Defined.
#[export] Instance OperationStatus_eq_dec : EqDecision OperationStatus.
Proof. solve_decision. Defined.
#[export] Instance OperationRecordStatus_eq_dec : EqDecision OperationRecordStatus.
Proof. solve_decision. Defined.
#[export] Instance OperationEventType_eq_dec : EqDecision OperationEventType.
Proof. solve_decision. Defined.
#[export] Instance OperationServiceAction_eq_dec : EqDecision OperationServiceAction.
Proof. solve_decision. Defined.
#[export] Instance ExistingOperationType_eq_dec : EqDecision ExistingOperationType.
Proof. solve_decision. Defined.
#[export] Instance DeliveryIssueType_eq_dec : EqDecision DeliveryIssueType.
Proof. solve_decision. Defined.
#[export] Instance OperationReason_eq_dec : EqDecision OperationReason.
Proof. solve_decision. Defined.
#[export] Instance OperationOutcome_eq_dec : EqDecision OperationOutcome.
Proof. solve_decision. Defined.
#[export] Instance DeliveryOutcome_eq_dec : EqDecision DeliveryOutcome.
Proof. solve_decision. Defined.
#[export] Instance RecommendedCaseType_eq_dec : EqDecision RecommendedCaseType.
Proof. solve_decision. Defined.
#[export] Instance CasePriority_eq_dec : EqDecision CasePriority.
Proof. solve_decision. Defined.

(** * Field constraints *)

Definition is_digit (c : ascii) : bool :=
  let n := N_of_ascii c in ((48 <=? n) && (n <=? 57))%N.
Definition is_upper (c : ascii) : bool :=
  let n := N_of_ascii c in ((65 <=? n) && (n <=? 90))%N.

(** [pattern=r"^ORD-\d{5}$"] *)
Definition order_id_ok (s : string) : bool :=
  match s with
  | String "O" (String "R" (String "D" (String "-"
      (String a (String b (String c (String d (String e "")))))))) =>
      is_digit a && is_digit b && is_digit c && is_digit d && is_digit e
  | _ => false
  end.

(** [pattern=r"^[A-Z]{3}$"] *)
Definition currency_ok (s : string) : bool :=
  match s with
  | String a (String b (String c "")) => is_upper a && is_upper b && is_upper c
  | _ => false
  end.

(** [Decimal] with [max_digits=12, decimal_places=2]: a number of hundredths. *)
Definition amount_ok (hundredths : Z) : bool :=
  (0 <=? hundredths) && (hundredths <? 10 ^ 12).

(** [Field(default=None, min_length=1)] *)
Definition opt_nonempty (o : option string) : bool :=
  match o with Some s => nonempty s | None => true end.

(** * Records *)

Record ExistingOperation := mkExistingOperation {
  xop_operation_id : string;
  xop_operation_type : ExistingOperationType;
  xop_status : OperationStatus;
  xop_provider_reference : option string;
}.

Record OrderSnapshot := mkOrderSnapshot {
  sn_order_id : string;
  sn_version : Z;
  sn_amount : Z;
  sn_currency : string;
  sn_order_status : OrderStatus;
  sn_payment_status : PaymentStatus;
  sn_fulfillment_status : FulfillmentStatus;
  sn_created_at : instant;
  sn_shipped_at : option instant;
  sn_delivered_at : option instant;
  sn_promised_delivery_at : option instant;
  sn_last_tracking_event_at : option instant;
  sn_return_eligible : option bool;
  sn_exchange_eligible : option bool;
  sn_existing_operations : list ExistingOperation;
  sn_customer_id : option string;
  sn_tenant_id : option string;
}.

Record OrderOperationRequest := mkOrderOperationRequest {
  rq_thread_id : string;
  rq_source_message_id : string;
  rq_order_id : string;
  rq_operation_type : OperationType;
  rq_reason : OperationReason;
  rq_replacement_variant_id : option string;
  rq_customer_id : string;
  rq_tenant_id : string;
}.

Record DeliveryIssueRequest := mkDeliveryIssueRequest {
  dr_thread_id : string;
  dr_source_message_id : string;
  dr_order_id : string;
  dr_issue_type : DeliveryIssueType;
  dr_investigation_requested : bool;
}.

Record CaseRecommendation := mkCaseRecommendation {
  cr_case_type : RecommendedCaseType;
  cr_priority : CasePriority;
  cr_reason_codes : list string;
}.

Record OperationDecision := mkOperationDecision {
  od_outcome : OperationOutcome;
  od_operation_type : OperationType;
  od_requires_confirmation : bool;
  od_reason_codes : list string;
  od_display_reason : string;
  od_existing_operation : option ExistingOperation;
  od_case_recommendation : option CaseRecommendation;
}.

Record DeliveryDecision := mkDeliveryDecision {
  dd_outcome : DeliveryOutcome;
  dd_issue_type : DeliveryIssueType;
  dd_reason_codes : list string;
  dd_display_reason : string;
  dd_case_recommendation : option CaseRecommendation;
}.

Record OrderOperation := mkOrderOperation {
  oo_operation_id : uuid;
  oo_idempotency_key : string;
  oo_thread_id : string;
  oo_source_message_id : string;
  oo_order_id : string;
  oo_operation_type : OperationType;
  oo_request_reason_code : OperationReason;
  oo_policy_reason_codes : list string;
  oo_display_reason : string;
  oo_replacement_variant_id : option string;
  oo_request_excerpt : string;
  oo_order_version : Z;
  oo_amount : Z;
  oo_currency : string;
  oo_requires_manual_review : bool;
  oo_review_case_type : option RecommendedCaseType;
  oo_review_priority : option CasePriority;
  oo_support_case_id : option uuid;
  oo_provider_reference : option string;
  oo_status : OperationRecordStatus;
  oo_created_at : instant;
  oo_updated_at : instant;
  oo_version : Z;
  oo_customer_id : string;
  oo_tenant_id : string;
  oo_created_by : string;
}.

Record OrderOperationEvent := mkOrderOperationEvent {
  oev_event_id : uuid;
  oev_idempotency_key : string;
  oev_operation_id : uuid;
  oev_event_type : OperationEventType;
  oev_previous_status : option OperationRecordStatus;
  oev_current_status : option OperationRecordStatus;
  oev_provider_reference : option string;
  oev_support_case_id : option uuid;
  oev_actor : string;
  oev_customer_id : string;
  oev_tenant_id : string;
  oev_created_at : instant;
}.

Record OperationServiceResult := mkOperationServiceResult {
  or_action : OperationServiceAction;
  or_operation : OrderOperation;
  or_events : list OrderOperationEvent;
}.

(** * Construction *)

(** Membership in [_CANCELLATION_REASONS]. *)
Definition cancellation_reason (r : OperationReason) : bool :=
  match r with
  | or_ordered_by_mistake | or_no_longer_needed | or_incorrect_item_or_quantity
  | or_delivery_too_slow | or_payment_issue | or_other => true
  | _ => false
  end.

(** [OrderOperationRequest.validate_operation_specific_fields] *)
Definition validate_operation_specific_fields (r : OrderOperationRequest) : res unit :=
  if bool_decide (rq_operation_type r = op_cancellation) then
    raise_if (negb (cancellation_reason (rq_reason r)))
      (ValueError "a cancellation must use a cancellation reason");;;
    raise_if (bool_decide (is_Some (rq_replacement_variant_id r)))
      (ValueError "only an exchange may include replacement_variant_id")
  else
    raise_if (cancellation_reason (rq_reason r) && bool_decide (rq_reason r ≠ or_other))
      (ValueError "a return or exchange must use a return/exchange reason");;;
    raise_if (bool_decide (rq_operation_type r = op_exchange)
              && bool_decide (rq_replacement_variant_id r = None))
      (ValueError "an exchange requires replacement_variant_id");;;
    raise_if (bool_decide (rq_operation_type r = op_return)
              && bool_decide (is_Some (rq_replacement_variant_id r)))
      (ValueError "only an exchange may include replacement_variant_id").

Definition OrderOperationRequest_validate (r : OrderOperationRequest) :
    res OrderOperationRequest :=
  let r := mkOrderOperationRequest (strip (rq_thread_id r)) (strip (rq_source_message_id r))
             (strip (rq_order_id r)) (rq_operation_type r) (rq_reason r)
             (strip <$> rq_replacement_variant_id r)
             (strip (rq_customer_id r)) (strip (rq_tenant_id r)) in
  raise_if (negb (nonempty (rq_thread_id r) && nonempty (rq_source_message_id r)
                  && order_id_ok (rq_order_id r)
                  && opt_nonempty (rq_replacement_variant_id r)
                  && nonempty (rq_customer_id r) && nonempty (rq_tenant_id r)))
    (ValidationError "OrderOperationRequest");;;
  validating "OrderOperationRequest" (validate_operation_specific_fields r);;;
  Ok r.

Definition ExistingOperation_validate (x : ExistingOperation) : res ExistingOperation :=
  let x := mkExistingOperation (strip (xop_operation_id x)) (xop_operation_type x) (xop_status x)
             (strip <$> xop_provider_reference x) in
  raise_if (negb (nonempty (xop_operation_id x) && opt_nonempty (xop_provider_reference x)))
    (ValidationError "ExistingOperation");;;
  Ok x.

(** A nested model that does not validate rejects the outer one. *)
Fixpoint existing_operations_validate (l : list ExistingOperation) : res (list ExistingOperation) :=
  match l with
  | [] => Ok []
  | x :: l' =>
      let* x := ExistingOperation_validate x in
      let* l' := existing_operations_validate l' in
      Ok (x :: l')
  end.

Definition OrderSnapshot_validate (s : OrderSnapshot) : res OrderSnapshot :=
  match existing_operations_validate (sn_existing_operations s) with
  | Err _ => Err (ValidationError "OrderSnapshot")
  | Ok operations =>
      let s := mkOrderSnapshot (strip (sn_order_id s)) (sn_version s) (sn_amount s) (strip (sn_currency s))
                 (sn_order_status s) (sn_payment_status s) (sn_fulfillment_status s) (sn_created_at s)
                 (sn_shipped_at s) (sn_delivered_at s) (sn_promised_delivery_at s)
                 (sn_last_tracking_event_at s) (sn_return_eligible s) (sn_exchange_eligible s)
                 operations (strip <$> sn_customer_id s) (strip <$> sn_tenant_id s) in
      raise_if (negb (order_id_ok (sn_order_id s) && (1 <=? sn_version s) && amount_ok (sn_amount s)
                      && currency_ok (sn_currency s)))
        (ValidationError "OrderSnapshot");;;
      Ok s
  end.

Definition DeliveryIssueRequest_validate (r : DeliveryIssueRequest) : res DeliveryIssueRequest :=
  let r := mkDeliveryIssueRequest (strip (dr_thread_id r)) (strip (dr_source_message_id r))
             (strip (dr_order_id r)) (dr_issue_type r) (dr_investigation_requested r) in
  raise_if (negb (nonempty (dr_thread_id r) && nonempty (dr_source_message_id r)
                  && order_id_ok (dr_order_id r)))
    (ValidationError "DeliveryIssueRequest");;;
  Ok r.

(** [OperationDecision.validate_outcome_fields] *)
Definition validate_operation_outcome_fields (d : OperationDecision) : res unit :=
  if bool_decide (od_outcome d = out_existing_operation) then
    raise_if (bool_decide (od_existing_operation d = None))
      (ValueError "existing_operation outcome requires an operation");;;
    raise_if (od_requires_confirmation d || bool_decide (is_Some (od_case_recommendation d)))
      (ValueError "an existing operation cannot request confirmation or a case")
  else
    raise_if (bool_decide (is_Some (od_existing_operation d)))
      (ValueError "only existing_operation may contain an existing operation");;;
    raise_if ((bool_decide (od_outcome d = out_eligible)
               || bool_decide (od_outcome d = out_manual_review))
              && negb (od_requires_confirmation d))
      (ValueError "requires confirmation");;;
    raise_if ((bool_decide (od_outcome d = out_rejected)
               || bool_decide (od_outcome d = out_already_completed))
              && od_requires_confirmation d)
      (ValueError "cannot require confirmation");;;
    raise_if (bool_decide (od_outcome d = out_manual_review)
              && bool_decide (od_case_recommendation d = None))
      (ValueError "manual_review requires a case recommendation");;;
    raise_if (bool_decide (od_outcome d ≠ out_manual_review)
              && bool_decide (is_Some (od_case_recommendation d)))
      (ValueError "only manual_review may contain a case recommendation").

Definition CaseRecommendation_ok (c : CaseRecommendation) : bool :=
  bool_decide (cr_reason_codes c ≠ []).

Definition OperationDecision_validate (d : OperationDecision) : res OperationDecision :=
  raise_if (negb (bool_decide (od_reason_codes d ≠ []) && nonempty (od_display_reason d)
                  && default true (CaseRecommendation_ok <$> od_case_recommendation d)))
    (ValidationError "OperationDecision");;;
  validating "OperationDecision" (validate_operation_outcome_fields d);;;
  Ok d.

(** [DeliveryDecision.validate_outcome_fields] *)
Definition validate_delivery_outcome_fields (d : DeliveryDecision) : res unit :=
  raise_if (bool_decide (dd_outcome d = do_manual_review)
            && bool_decide (dd_case_recommendation d = None))
    (ValueError "manual_review requires a case recommendation");;;
  raise_if (bool_decide (dd_outcome d ≠ do_manual_review)
            && bool_decide (is_Some (dd_case_recommendation d)))
    (ValueError "only manual_review may contain a case recommendation").

Definition DeliveryDecision_validate (d : DeliveryDecision) : res DeliveryDecision :=
  raise_if (negb (bool_decide (dd_reason_codes d ≠ []) && nonempty (dd_display_reason d)
                  && default true (CaseRecommendation_ok <$> dd_case_recommendation d)))
    (ValidationError "DeliveryDecision");;;
  validating "DeliveryDecision" (validate_delivery_outcome_fields d);;;
  Ok d.

(** The embedded [OrderOperationRequest(...)] of a persisted operation. *)
Definition operation_request (o : OrderOperation) : OrderOperationRequest :=
  mkOrderOperationRequest (oo_thread_id o) (oo_source_message_id o) (oo_order_id o)
    (oo_operation_type o) (oo_request_reason_code o) (oo_replacement_variant_id o)
    (oo_customer_id o) (oo_tenant_id o).

(** [OrderOperation.validate_persisted_operation] *)
Definition validate_persisted_operation (o : OrderOperation) : res unit :=
  (let* _ := OrderOperationRequest_validate (operation_request o) in Ok tt);;;
  (if oo_requires_manual_review o then
     raise_if (bool_decide (oo_review_case_type o ≠ Some rec_order_operation_review)
               || negb (bool_decide (oo_review_priority o ∈ [Some p1; Some p2])))
       (ValueError "manual review requires its approved case metadata")
   else
     raise_if (bool_decide (is_Some (oo_review_case_type o))
               || bool_decide (is_Some (oo_review_priority o)))
       (ValueError "only manual review may contain review case metadata"));;;
  raise_if (bool_decide (is_Some (oo_support_case_id o)) && negb (oo_requires_manual_review o))
    (ValueError "only manual review may link a support case");;;
  raise_if (oo_updated_at o <? oo_created_at o)
    (ValueError "updated_at must not be earlier than created_at").

(** [str_strip_whitespace=True] on every string field. *)
Definition OrderOperation_strip (o : OrderOperation) : OrderOperation :=
  mkOrderOperation (oo_operation_id o) (strip (oo_idempotency_key o))
    (strip (oo_thread_id o)) (strip (oo_source_message_id o)) (strip (oo_order_id o))
    (oo_operation_type o) (oo_request_reason_code o)
    (strip <$> oo_policy_reason_codes o) (strip (oo_display_reason o))
    (strip <$> oo_replacement_variant_id o) (strip (oo_request_excerpt o))
    (oo_order_version o) (oo_amount o) (strip (oo_currency o))
    (oo_requires_manual_review o) (oo_review_case_type o) (oo_review_priority o)
    (oo_support_case_id o) (strip <$> oo_provider_reference o) (oo_status o)
    (oo_created_at o) (oo_updated_at o) (oo_version o)
    (strip (oo_customer_id o)) (strip (oo_tenant_id o)) (strip (oo_created_by o)).

Definition OrderOperation_fields_ok (o : OrderOperation) : bool :=
  nonempty (oo_idempotency_key o) && nonempty (oo_thread_id o)
  && nonempty (oo_source_message_id o) && order_id_ok (oo_order_id o)
  && bool_decide (oo_policy_reason_codes o ≠ [])
  && nonempty (oo_display_reason o)
  && opt_nonempty (oo_replacement_variant_id o)
  && nonempty (oo_request_excerpt o) && (str_len (oo_request_excerpt o) <=? 500)
  && (1 <=? oo_order_version o) && amount_ok (oo_amount o)
  && currency_ok (oo_currency o) && opt_nonempty (oo_provider_reference o)
  && (1 <=? oo_version o) && nonempty (oo_customer_id o)
  && nonempty (oo_tenant_id o) && nonempty (oo_created_by o).

Definition OrderOperation_validate (o : OrderOperation) : res OrderOperation :=
  let o := OrderOperation_strip o in
  raise_if (negb (OrderOperation_fields_ok o)) (ValidationError "OrderOperation");;;
  validating "OrderOperation" (validate_persisted_operation o);;;
  Ok o.

(** [OrderOperationEvent.validate_event_shape] *)
Definition validate_event_shape (e : OrderOperationEvent) : res unit :=
  let has_statuses := bool_decide (is_Some (oev_previous_status e))
                      && bool_decide (is_Some (oev_current_status e)) in
  raise_if (bool_decide (oev_event_type e = oe_status_changed) && negb has_statuses)
    (ValueError "status_changed requires previous and current status");;;
  raise_if (bool_decide (oev_event_type e ≠ oe_status_changed)
            && (bool_decide (is_Some (oev_previous_status e))
                || bool_decide (is_Some (oev_current_status e))))
    (ValueError "only status_changed may contain status fields");;;
  raise_if (bool_decide (oev_event_type e = oe_support_case_attached)
            && bool_decide (oev_support_case_id e = None))
    (ValueError "support_case_attached requires support_case_id").

Definition OrderOperationEvent_strip (e : OrderOperationEvent) : OrderOperationEvent :=
  mkOrderOperationEvent (oev_event_id e) (strip (oev_idempotency_key e))
    (oev_operation_id e) (oev_event_type e) (oev_previous_status e)
    (oev_current_status e) (strip <$> oev_provider_reference e)
    (oev_support_case_id e) (strip (oev_actor e)) (strip (oev_customer_id e))
    (strip (oev_tenant_id e)) (oev_created_at e).

Definition OrderOperationEvent_fields_ok (e : OrderOperationEvent) : bool :=
  nonempty (oev_idempotency_key e) && opt_nonempty (oev_provider_reference e)
  && nonempty (oev_actor e) && nonempty (oev_customer_id e) && nonempty (oev_tenant_id e).

Definition OrderOperationEvent_validate (e : OrderOperationEvent) : res OrderOperationEvent :=
  let e := OrderOperationEvent_strip e in
  raise_if (negb (OrderOperationEvent_fields_ok e)) (ValidationError "OrderOperationEvent");;;
  validating "OrderOperationEvent" (validate_event_shape e);;;
  Ok e.

(** [is_aware(value)] *)
Definition is_aware (d : datetime) : bool :=
  match d with Aware _ => true | Naive _ => false end.
