(* ===== verification/OperationPolicy.v ===== *)
(** Deterministic order-operation and delivery policy: [operations/policy.py]. *)
From S2P Require Import Prelude OperationModels.

Definition RETURN_WINDOW_DAYS : Z := 7.
Definition TRACKING_STALLED_HOURS : Z := 72.

(** Membership in [_ACTIVE_OPERATION_STATUSES]. *)
Definition active_operation_status (s : OperationStatus) : bool :=
  match s with
  | xs_submitted | xs_processing | xs_manual_review | xs_completed => true
  | xs_rejected => false
  end.

(** [CurrencyThresholds]: manual-review amounts per ISO currency, as exact decimals. *)
Definition CurrencyThresholds : Type := gmap string Q.
Definition threshold_for (t : CurrencyThresholds) (currency : string) : option Q := t !! currency.

(** [amount >= threshold], with the amount in hundredths. *)
Definition amount_reaches (hundredths : Z) (threshold : Q) : bool :=
  Qle_bool threshold (hundredths # 100).

Definition operation_type_str (t : OperationType) : string :=
  match t with
  | op_cancellation => "cancellation" | op_return => "return" | op_exchange => "exchange"
  end.
Definition operation_type_title (t : OperationType) : string :=
  match t with
  | op_cancellation => "Cancellation" | op_return => "Return" | op_exchange => "Exchange"
  end.

(** * Decision constructors *)

Definition eligible (t : OperationType) (reason_code display_reason : string) :
    res OperationDecision :=
  OperationDecision_validate
    (mkOperationDecision out_eligible t true [reason_code] display_reason None None).

Definition manual (t : OperationType) (reason_code display_reason : string)
    (priority : CasePriority) : res OperationDecision :=
  OperationDecision_validate
    (mkOperationDecision out_manual_review t true [reason_code] display_reason None
       (Some (mkCaseRecommendation rec_order_operation_review priority [reason_code]))).

Definition rejected (t : OperationType) (reason_code display_reason : string) :
    res OperationDecision :=
  OperationDecision_validate
    (mkOperationDecision out_rejected t false [reason_code] display_reason None None).

Definition existing (t : OperationType) (x : ExistingOperation) : res OperationDecision :=
  OperationDecision_validate
    (mkOperationDecision out_existing_operation t false ["operation_already_exists"]
       "An existing order operation is already being handled." (Some x) None).

Definition delivery_manual (i : DeliveryIssueType) (reason_code display_reason : string)
    (priority : CasePriority) : res DeliveryDecision :=
  DeliveryDecision_validate
    (mkDeliveryDecision do_manual_review i [reason_code] display_reason
       (Some (mkCaseRecommendation rec_delivery_investigation priority [reason_code]))).

Definition delivery_self_service (i : DeliveryIssueType) (reason_code display_reason : string) :
    res DeliveryDecision :=
  DeliveryDecision_validate
    (mkDeliveryDecision do_self_service i [reason_code] display_reason None).

(** * Guards *)

Definition require_aware_datetime (d : datetime) : res instant :=
  match d with
  | Aware t => Ok t
  | Naive _ => Err (ValueError "now must be timezone-aware")
  end.

Definition validate_request_context (r : OrderOperationRequest) (s : OrderSnapshot)
    (now : datetime) : res instant :=
  raise_if (bool_decide (rq_order_id r ≠ sn_order_id s))
    (ValueError "request and snapshot must have the same order_id");;;
  require_aware_datetime now.

Definition has_contradictory_lifecycle (s : OrderSnapshot) : bool :=
  let delivered := bool_decide (sn_fulfillment_status s = ful_delivered) in
  let unfulfilled := bool_decide (sn_fulfillment_status s = ful_unfulfilled) in
  let has_delivered_at := bool_decide (is_Some (sn_delivered_at s)) in
  let has_shipped_at := bool_decide (is_Some (sn_shipped_at s)) in
  if delivered && negb has_delivered_at then true
  else if negb delivered && has_delivered_at then true
  else if unfulfilled && has_shipped_at then true
  else if (bool_decide (sn_fulfillment_status s = ful_shipped) || delivered)
          && negb has_shipped_at then true
  else if bool_decide (sn_order_status s = ord_pending_payment) && negb unfulfilled then true
  else if bool_decide (sn_order_status s = ord_cancelled) && negb unfulfilled then true
  else match sn_delivered_at s with
       | Some t => t <? sn_created_at s
       | None => false
       end.

(** The [operation_type] argument is unused by the source. *)
Definition conflicting_operation (s : OrderSnapshot) (t : OperationType) :
    option ExistingOperation :=
  snd <$> list_find (λ o, active_operation_status (xop_status o) = true)
            (sn_existing_operations s).

(** * Evaluation *)

Definition evaluate_cancellation (s : OrderSnapshot) : res OperationDecision :=
  if bool_decide (sn_order_status s = ord_cancelled) then
    OperationDecision_validate
      (mkOperationDecision out_already_completed op_cancellation false
         ["order_already_cancelled"] "This order has already been cancelled." None None)
  else if bool_decide (sn_payment_status s = pay_refund_pending)
          || bool_decide (sn_payment_status s = pay_refunded) then
    rejected op_cancellation "cancellation_payment_already_refunded"
      "This order already has a refund in progress or completed."
  else if bool_decide (sn_fulfillment_status s = ful_shipped)
          || bool_decide (sn_fulfillment_status s = ful_delivered) then
    rejected op_cancellation "cancellation_fulfillment_started"
      "This order can no longer be cancelled after fulfillment has started."
  else if bool_decide (sn_fulfillment_status s = ful_processing) then
    manual op_cancellation "cancellation_fulfillment_processing"
      "This cancellation needs warehouse review." p1
  else if bool_decide (sn_order_status s = ord_pending_payment)
          || bool_decide (sn_order_status s = ord_confirmed) then
    eligible op_cancellation "cancellation_eligible" "This order can be cancelled."
  else
    manual op_cancellation "cancellation_state_invalid"
      "This cancellation needs manual review." p1.

Definition evaluate_return_or_exchange (t : OperationType) (s : OrderSnapshot)
    (now : instant) (thresholds : CurrencyThresholds) : res OperationDecision :=
  if bool_decide (sn_payment_status s = pay_refund_pending)
     || bool_decide (sn_payment_status s = pay_refunded) then
    rejected t "operation_payment_already_refunded"
      "This order already has a refund in progress or completed."
  else if bool_decide (sn_fulfillment_status s ≠ ful_delivered) then
    rejected t "operation_not_delivered"
      "This order must be delivered before a return or exchange can be requested."
  else match sn_delivered_at s with
  | None => manual t "operation_delivery_date_invalid"
              "Delivery timing needs manual review." p1
  | Some delivered_at =>
      if now <? delivered_at then
        manual t "operation_delivery_date_invalid" "Delivery timing needs manual review." p1
      else if delivered_at + days RETURN_WINDOW_DAYS <? now then
        rejected t "operation_return_window_expired"
          "This order is past the return and exchange deadline."
      else
        let eligibility := if bool_decide (t = op_return) then sn_return_eligible s
                           else sn_exchange_eligible s in
        match eligibility with
        | Some false =>
            rejected t (operation_type_str t +:+ "_not_eligible")
              ("This order is not eligible for " +:+ operation_type_str t +:+ ".")
        | None =>
            manual t (operation_type_str t +:+ "_eligibility_unknown")
              (operation_type_title t +:+ " eligibility needs manual review.") p1
        | Some true =>
            match threshold_for thresholds (sn_currency s) with
            | None => manual t "currency_threshold_unconfigured"
                        "This currency needs manual review." p1
            | Some threshold =>
                if bool_decide (t = op_return) && amount_reaches (sn_amount s) threshold then
                  manual op_return "return_manual_amount_review"
                    "This return amount needs manual review." p1
                else
                  eligible t (operation_type_str t +:+ "_eligible")
                    ("This order is eligible for " +:+ operation_type_str t +:+ ".")
            end
        end
  end.

Definition evaluate_exchange (s : OrderSnapshot) (now : instant)
    (thresholds : CurrencyThresholds) (replacement_available : option bool) :
    res OperationDecision :=
  let* base_decision := evaluate_return_or_exchange op_exchange s now thresholds in
  if bool_decide (od_outcome base_decision ≠ out_eligible) then Ok base_decision
  else match replacement_available with
  | Some false => rejected op_exchange "exchange_replacement_unavailable"
                    "The requested replacement is unavailable."
  | None => manual op_exchange "exchange_inventory_unknown"
              "Replacement availability needs manual review." p2
  | Some true => eligible op_exchange "exchange_eligible" "This order is eligible for exchange."
  end.

Definition evaluate_operation (r : OrderOperationRequest) (s : OrderSnapshot)
    (now : datetime) (thresholds : CurrencyThresholds) (replacement_available : option bool) :
    res OperationDecision :=
  let* now := validate_request_context r s now in
  if has_contradictory_lifecycle s then
    manual (rq_operation_type r) "order_state_invalid" "Order state needs manual review." p1
  else match conflicting_operation s (rq_operation_type r) with
  | Some x => existing (rq_operation_type r) x
  | None =>
      match rq_operation_type r with
      | op_cancellation => evaluate_cancellation s
      | op_return => evaluate_return_or_exchange op_return s now thresholds
      | op_exchange => evaluate_exchange s now thresholds replacement_available
      end
  end.

Definition evaluate_tracking_stalled (s : OrderSnapshot) (now : instant) : res DeliveryDecision :=
  let invalid := delivery_manual di_tracking_stalled "delivery_data_invalid"
                   "Tracking data needs investigation." p1 in
  if bool_decide (sn_fulfillment_status s ≠ ful_shipped) then invalid
  else match sn_last_tracking_event_at s with
  | None => invalid
  | Some t =>
      if now <? t then invalid
      else if hours TRACKING_STALLED_HOURS <=? now - t then
        delivery_manual di_tracking_stalled "delivery_tracking_stalled"
          "Tracking has not updated for 72 hours." p1
      else
        delivery_self_service di_tracking_stalled "delivery_tracking_recent"
          "Tracking is still updating."
  end.

Definition evaluate_delayed (s : OrderSnapshot) (now : instant) (investigation_requested : bool) :
    res DeliveryDecision :=
  match sn_promised_delivery_at s with
  | None => delivery_manual di_delayed "delivery_data_invalid"
              "Delivery timing needs investigation." p1
  | Some promised =>
      if bool_decide (sn_fulfillment_status s = ful_delivered) || (now <=? promised) then
        delivery_self_service di_delayed "delivery_not_overdue"
          "The order is not confirmed as overdue."
      else if investigation_requested || bool_decide (sn_last_tracking_event_at s = None) then
        delivery_manual di_delayed "delivery_overdue_investigation"
          "The delayed delivery needs investigation." p2
      else
        delivery_self_service di_delayed "delivery_overdue"
          "The order is delayed; current tracking is available."
  end.

Definition evaluate_delivery_issue (r : DeliveryIssueRequest) (s : OrderSnapshot)
    (now : datetime) : res DeliveryDecision :=
  raise_if (bool_decide (dr_order_id r ≠ sn_order_id s))
    (ValueError "request and snapshot must have the same order_id");;;
  let* now := require_aware_datetime now in
  let issue := dr_issue_type r in
  if has_contradictory_lifecycle s then
    delivery_manual issue "delivery_data_invalid" "Delivery data needs investigation." p1
  else match issue with
  | di_tracking_stalled => evaluate_tracking_stalled s now
  | di_delayed => evaluate_delayed s now (dr_investigation_requested r)
  | di_delivery_failed =>
      delivery_manual issue "delivery_failed"
        "Delivery needs a redelivery or address review." p2
  | di_marked_delivered_not_received =>
      delivery_manual issue "delivery_marked_received_dispute"
        "Your delivery report needs investigation." p1
  | di_package_damaged =>
      delivery_manual issue "delivery_damage_claim" "Your damage report needs review." p1
  | di_wrong_item_or_missing_parts =>
      DeliveryDecision_validate
        (mkDeliveryDecision do_offer_return_exchange issue
           ["delivery_wrong_item_or_missing_parts_claim"]
           "We can evaluate a return or exchange request." None)
  | di_other_delivery_issue =>
      delivery_manual issue "delivery_other_issue" "Your delivery report needs review." p2
  end.

(** * Properties *)

(** The decision constructors never fail on a non-empty display text. *)
Lemma eligible_ok t r x : nonempty x = true →
  eligible t r x = Ok (mkOperationDecision out_eligible t true [r] x None None).
Proof. by intros H; unfold eligible, OperationDecision_validate; cbn; rewrite H. Qed.

Lemma rejected_ok t r x : nonempty x = true →
  rejected t r x = Ok (mkOperationDecision out_rejected t false [r] x None None).
Proof. by intros H; unfold rejected, OperationDecision_validate; cbn; rewrite H. Qed.

Lemma manual_ok t r x p : nonempty x = true →
  manual t r x p =
    Ok (mkOperationDecision out_manual_review t true [r] x None
          (Some (mkCaseRecommendation rec_order_operation_review p [r]))).
Proof. by intros H; unfold manual, OperationDecision_validate; cbn; rewrite H. Qed.

Lemma existing_ok t x :
  existing t x =
    Ok (mkOperationDecision out_existing_operation t false ["operation_already_exists"]
          "An existing order operation is already being handled." (Some x) None).
Proof. reflexivity. Qed.

Lemma delivery_manual_ok i r x p : nonempty x = true →
  delivery_manual i r x p =
    Ok (mkDeliveryDecision do_manual_review i [r] x
          (Some (mkCaseRecommendation rec_delivery_investigation p [r]))).
Proof. by intros H; unfold delivery_manual, DeliveryDecision_validate; cbn; rewrite H. Qed.

Lemma delivery_self_service_ok i r x : nonempty x = true →
  delivery_self_service i r x = Ok (mkDeliveryDecision do_self_service i [r] x None).
Proof. by intros H; unfold delivery_self_service, DeliveryDecision_validate; cbn; rewrite H. Qed.

Lemma already_completed_ok t r x : nonempty x = true →
  OperationDecision_validate (mkOperationDecision out_already_completed t false [r] x None None) =
  Ok (mkOperationDecision out_already_completed t false [r] x None None).
Proof. by intros H; unfold OperationDecision_validate; cbn; rewrite H. Qed.

Lemma offer_ok i r x : nonempty x = true →
  DeliveryDecision_validate (mkDeliveryDecision do_offer_return_exchange i [r] x None) =
  Ok (mkDeliveryDecision do_offer_return_exchange i [r] x None).
Proof. by intros H; unfold DeliveryDecision_validate; cbn; rewrite H. Qed.

Create Rewrite HintDb decision.
#[export] Hint Rewrite eligible_ok rejected_ok manual_ok existing_ok delivery_manual_ok
  delivery_self_service_ok already_completed_ok offer_ok using reflexivity : decision.

Ltac eval_decision := autorewrite with decision; cbn [res_bind].

(** What the store's rules let the system execute without a human: the conditions of
    the business policy, stated without reference to the evaluation order. *)
Definition refundable_payment (s : OrderSnapshot) : Prop :=
  sn_payment_status s ≠ pay_refund_pending ∧ sn_payment_status s ≠ pay_refunded.

Definition in_return_window (s : OrderSnapshot) (now : instant) : Prop :=
  ∃ t, sn_delivered_at s = Some t ∧ t ≤ now ≤ t + days RETURN_WINDOW_DAYS.

Definition automatic_allowed (t : OperationType) (s : OrderSnapshot) (now : instant)
    (thresholds : CurrencyThresholds) (replacement_available : option bool) : Prop :=
  match t with
  | op_cancellation =>
      refundable_payment s ∧ sn_fulfillment_status s = ful_unfulfilled ∧
      (sn_order_status s = ord_pending_payment ∨ sn_order_status s = ord_confirmed)
  | op_return =>
      refundable_payment s ∧ sn_fulfillment_status s = ful_delivered ∧
      in_return_window s now ∧ sn_return_eligible s = Some true ∧
      ∃ q, threshold_for thresholds (sn_currency s) = Some q ∧
           (sn_amount s # 100 < q)%Q
  | op_exchange =>
      refundable_payment s ∧ sn_fulfillment_status s = ful_delivered ∧
      in_return_window s now ∧ sn_exchange_eligible s = Some true ∧
      (∃ q, threshold_for thresholds (sn_currency s) = Some q) ∧
      replacement_available = Some true
  end.

Definition no_active_operation (s : OrderSnapshot) : Prop :=
  ∀ x, x ∈ sn_existing_operations s → xop_status x = xs_rejected.

Lemma conflicting_operation_None s t :
  conflicting_operation s t = None ↔ no_active_operation s.
Proof.
  unfold conflicting_operation, no_active_operation. rewrite fmap_None, list_find_None, Forall_forall.
  split; intros H x Hx; specialize (H x Hx); by destruct (xop_status x).
Qed.

Lemma amount_reaches_false a q : amount_reaches a q = false ↔ (a # 100 < q)%Q.
Proof.
  unfold amount_reaches. rewrite <- not_true_iff_false, Qle_bool_iff.
  split; [apply Qnot_le_lt|apply Qlt_not_le].
Qed.

Lemma ok_outcome (d : OperationDecision) o :
  (∃ d', Ok d = Ok d' ∧ od_outcome d' = o) ↔ od_outcome d = o.
Proof. naive_solver. Qed.

(** Close a branch whose decision is computed: compare its outcome with the rule. *)
Ltac outcome_branch :=
  eval_decision; rewrite ok_outcome; cbn;
  split; [discriminate|intros; destruct_exs; simplify_eq; (congruence || intuition congruence || lia)].

Lemma evaluate_cancellation_eligible s :
  (∃ d, evaluate_cancellation s = Ok d ∧ od_outcome d = out_eligible) ↔
  automatic_allowed op_cancellation s 0 ∅ None.
Proof.
  unfold evaluate_cancellation, automatic_allowed, refundable_payment.
  do 6 (case_bool_decide; cbn [orb]; [outcome_branch|]).
  repeat case_bool_decide; cbn [orb]; eval_decision; rewrite ok_outcome; cbn;
    destruct (sn_fulfillment_status s); intuition congruence.
Qed.

(** The eligibility flag that applies to an operation. *)
Definition eligibility_flag (t : OperationType) (s : OrderSnapshot) : option bool :=
  if decide (t = op_return) then sn_return_eligible s else sn_exchange_eligible s.

Lemma evaluate_return_or_exchange_eligible t s now th :
  (∃ d, evaluate_return_or_exchange t s now th = Ok d ∧ od_outcome d = out_eligible) ↔
  refundable_payment s ∧ sn_fulfillment_status s = ful_delivered ∧ in_return_window s now ∧
  eligibility_flag t s = Some true ∧
  ∃ q, threshold_for th (sn_currency s) = Some q ∧
       (t = op_return → (sn_amount s # 100 < q)%Q).
Proof.
  unfold evaluate_return_or_exchange, refundable_payment, in_return_window.
  replace (if bool_decide (t = op_return) then _ else _) with (eligibility_flag t s)
    by (unfold eligibility_flag; by destruct t).
  case_bool_decide as Hp1; cbn [orb]; [outcome_branch|].
  case_bool_decide as Hp2; cbn [orb]; [outcome_branch|].
  case_bool_decide as Hf; [outcome_branch|].
  destruct (sn_delivered_at s) as [at_|]; [|outcome_branch].
  destruct (Z.ltb_spec now at_); [outcome_branch|].
  destruct (Z.ltb_spec (at_ + days RETURN_WINDOW_DAYS) now); [outcome_branch|].
  destruct (eligibility_flag t s) as [[]|]; [|destruct t; outcome_branch..].
  destruct (threshold_for th (sn_currency s)) as [q|]; [|outcome_branch].
  destruct (bool_decide (t = op_return) && _) eqn:Ha.
  - eval_decision; rewrite ok_outcome; cbn. split; [done|].
    intros (_ & _ & _ & _ & q' & [= <-] & Hq). bools. subst.
    apply amount_reaches_false in Hq; [congruence|done].
  - rewrite eligible_ok by (by destruct t). rewrite ok_outcome. split; [intros _|done].
    bools. split_and!; [done..| |done|].
    + eexists. split; [done|lia].
    + eexists. split; [done|]. intros ->. by apply amount_reaches_false.
Qed.

(** The lifecycle facts of a snapshot that agree with each other. *)
Definition consistent_lifecycle (s : OrderSnapshot) : Prop :=
  (sn_fulfillment_status s = ful_delivered ↔ sn_delivered_at s ≠ None) ∧
  (sn_fulfillment_status s = ful_unfulfilled → sn_shipped_at s = None) ∧
  (sn_fulfillment_status s = ful_shipped ∨ sn_fulfillment_status s = ful_delivered →
     sn_shipped_at s ≠ None) ∧
  (sn_order_status s = ord_pending_payment ∨ sn_order_status s = ord_cancelled →
     sn_fulfillment_status s = ful_unfulfilled) ∧
  match sn_delivered_at s with Some t => sn_created_at s ≤ t | None => True end.

Lemma has_contradictory_lifecycle_false s :
  has_contradictory_lifecycle s = false ↔ consistent_lifecycle s.
Proof.
  unfold has_contradictory_lifecycle, consistent_lifecycle.
  assert (∀ {A} (o : option A),
    bool_decide (is_Some o) = match o with Some _ => true | None => false end) as Hs.
  { intros A [a|]; [by rewrite bool_decide_true|].
    apply bool_decide_false. by intros [? [=]]. }
  rewrite !Hs. clear Hs.
  destruct (sn_delivered_at s) as [t|], (sn_shipped_at s) as [u|],
    (sn_fulfillment_status s), (sn_order_status s);
    eval_bool_decide; cbn; rewrite ?Z.ltb_ge; intuition congruence.
Qed.

Lemma evaluate_exchange_eligible s now th ra :
  (∃ d, evaluate_exchange s now th ra = Ok d ∧ od_outcome d = out_eligible) ↔
  automatic_allowed op_exchange s now th ra.
Proof.
  pose proof (evaluate_return_or_exchange_eligible op_exchange s now th) as Hb.
  unfold evaluate_exchange, automatic_allowed.
  destruct (evaluate_return_or_exchange op_exchange s now th) as [b|e]; cbn [res_bind].
  - rewrite ok_outcome in Hb. case_bool_decide as Ho.
    + rewrite ok_outcome. unfold eligibility_flag in Hb. naive_solver.
    + assert (od_outcome b = out_eligible) as Ho' by (by destruct (od_outcome b); naive_solver).
      apply Hb in Ho'. unfold eligibility_flag in Ho'.
      destruct ra as [[]|]; eval_decision; rewrite ok_outcome; cbn; naive_solver.
  - unfold eligibility_flag in Hb. naive_solver.
Qed.

(** C35: the evaluator offers an operation for automatic execution exactly when the store's
    rules allow it: same order, timezone-aware clock, consistent order data, no active
    operation on the order, and the type's own conditions (payment, fulfilment,
    seven-day window, eligibility flag, currency threshold, replacement stock). *)
Theorem evaluate_operation_automatic_iff (r : OrderOperationRequest) (s : OrderSnapshot)
    (now : datetime) (thresholds : CurrencyThresholds) (replacement_available : option bool) :
  (∃ d, evaluate_operation r s now thresholds replacement_available = Ok d ∧
        od_outcome d = out_eligible) ↔
  rq_order_id r = sn_order_id s ∧ consistent_lifecycle s ∧ no_active_operation s ∧
  ∃ t, now = Aware t ∧
       automatic_allowed (rq_operation_type r) s t thresholds replacement_available.
Proof.
  unfold evaluate_operation, validate_request_context.
  rewrite <- has_contradictory_lifecycle_false, <- (conflicting_operation_None s (rq_operation_type r)).
  case_bool_decide as Hid; cbn [raise_if res_bind]; [naive_solver|].
  destruct now as [t|t]; cbn [require_aware_datetime res_bind]; [|naive_solver].
  destruct (has_contradictory_lifecycle s); [outcome_branch|].
  destruct (conflicting_operation s _) as [x|]; [outcome_branch|].
  assert (∀ (P : Prop) (Q : Z → Prop), (P ↔ Q t) →
    (P ↔ rq_order_id r = sn_order_id s ∧ false = false ∧ @None ExistingOperation = None ∧
         ∃ t0, Aware t = Aware t0 ∧ Q t0)) as Hcut by (clear -Hid; naive_solver).
  destruct (rq_operation_type r); apply (Hcut _ (λ t0, automatic_allowed _ s t0 _ _)).
  - apply evaluate_cancellation_eligible.
  - rewrite evaluate_return_or_exchange_eligible. unfold automatic_allowed, eligibility_flag.
    rewrite decide_True by done. clear. split; intros; destruct_exs; eauto 10.
  - apply evaluate_exchange_eligible.
Qed.

(** ** Every evaluation is a decision *)

(** The shape the rest of the system relies on: the decision is about the requested
    type, gives one reason, asks for confirmation exactly when it may be persisted, and
    recommends an order-operation review of priority p1 or p2 exactly when a human
    has to decide. *)
Definition decision_shape (t : OperationType) (d : OperationDecision) : Prop :=
  od_operation_type d = t ∧ (∃ c, od_reason_codes d = [c]) ∧
  od_requires_confirmation d =
    bool_decide (od_outcome d = out_eligible ∨ od_outcome d = out_manual_review) ∧
  match od_case_recommendation d with
  | Some c => od_outcome d = out_manual_review ∧
              cr_case_type c = rec_order_operation_review ∧
              (cr_priority c = p1 ∨ cr_priority c = p2) ∧
              cr_reason_codes c = od_reason_codes d
  | None => od_outcome d ≠ out_manual_review
  end ∧
  (is_Some (od_existing_operation d) ↔ od_outcome d = out_existing_operation).

Definition decides (t : OperationType) (r : res OperationDecision) : Prop :=
  ∃ d, r = Ok d ∧ decision_shape t d.

Lemma decides_Ok t d : decision_shape t d → decides t (Ok d).
Proof. unfold decides. eauto. Qed.

Lemma decides_eligible t r x : nonempty x = true → decides t (eligible t r x).
Proof.
  intros H. rewrite eligible_ok by done. apply decides_Ok. unfold decision_shape; cbn.
  split_and!; [done|eauto|done|done|]. by split; [intros [? [=]]|].
Qed.
Lemma decides_rejected t r x : nonempty x = true → decides t (rejected t r x).
Proof.
  intros H. rewrite rejected_ok by done. apply decides_Ok. unfold decision_shape; cbn.
  split_and!; [done|eauto|done|done|]. by split; [intros [? [=]]|].
Qed.
Lemma decides_manual t r x p :
  nonempty x = true → p = p1 ∨ p = p2 → decides t (manual t r x p).
Proof.
  intros H Hp. rewrite manual_ok by done. apply decides_Ok. unfold decision_shape; cbn.
  split_and!; [done|eauto|done|done|done|done|done|]. by split; [intros [? [=]]|].
Qed.
Lemma decides_existing t x : decides t (existing t x).
Proof.
  rewrite existing_ok. apply decides_Ok. unfold decision_shape; cbn.
  split_and!; [done|eauto|done|done|]. by split.
Qed.

Create HintDb decides.
#[export] Hint Resolve decides_eligible decides_rejected decides_manual decides_existing : decides.
#[export] Hint Extern 1 (nonempty _ = true) => reflexivity : decides.

Lemma decides_return_or_exchange t s now th : decides t (evaluate_return_or_exchange t s now th).
Proof.
  unfold evaluate_return_or_exchange. repeat case_match; bools; subst; auto with decides;
    destruct t; by auto with decides.
Qed.

Lemma decides_exchange s now th ra : decides op_exchange (evaluate_exchange s now th ra).
Proof.
  unfold evaluate_exchange.
  destruct (decides_return_or_exchange op_exchange s now th) as (d & -> & Hd). cbn [res_bind].
  repeat case_match; auto with decides. by apply decides_Ok.
Qed.

Lemma decides_cancellation s : decides op_cancellation (evaluate_cancellation s).
Proof.
  unfold evaluate_cancellation. repeat case_match; auto with decides.
  rewrite already_completed_ok by reflexivity. apply decides_Ok. unfold decision_shape; cbn.
  split_and!; [done|eauto|done|done|]. by split; [intros [? [=]]|].
Qed.

(** On the order it was asked about and with an aware clock, the evaluator always
    answers: no validation error can surface, and the decision has the shape
    [decision_shape] that confirmation, persistence and case creation rely on. *)
Theorem evaluate_operation_total (r : OrderOperationRequest) (s : OrderSnapshot)
    (now : instant) (thresholds : CurrencyThresholds) (replacement_available : option bool) :
  rq_order_id r = sn_order_id s →
  ∃ d, evaluate_operation r s (Aware now) thresholds replacement_available = Ok d ∧
       decision_shape (rq_operation_type r) d.
Proof.
  intros Hid. unfold evaluate_operation, validate_request_context.
  rewrite bool_decide_eq_false_2 by (intros H; by apply H). cbn [raise_if res_bind require_aware_datetime].
  change (∃ d, ?x = Ok d ∧ decision_shape ?t d) with (decides t x).
  repeat case_match; auto using decides_cancellation, decides_exchange, decides_return_or_exchange
    with decides.
Qed.

Definition demo_request : OrderOperationRequest :=
  mkOrderOperationRequest "thread-1" "msg-1" "ORD-10001" op_return or_damaged_item None
    "u1" "tenant-a".
Definition demo_snapshot : OrderSnapshot :=
  mkOrderSnapshot "ORD-10001" 3 12950 "USD" ord_completed pay_paid ful_delivered
    0 (Some (days 1)) (Some (days 3)) (Some (days 4)) None (Some true) (Some false) []
    (Some "u1") (Some "tenant-a").
Definition demo_thresholds : CurrencyThresholds := {["USD" := 500 # 1]}.

Lemma evaluate_operation_total_witness :
  rq_order_id demo_request = sn_order_id demo_snapshot ∧
  ∃ d, evaluate_operation demo_request demo_snapshot (Aware (days 10)) demo_thresholds None = Ok d ∧
       decision_shape op_return d.
Proof.
  split; [reflexivity|].
  apply (evaluate_operation_total demo_request demo_snapshot (days 10) demo_thresholds None).
  reflexivity.
Defined.

(** ** Delivery issues *)

(** A delivery assessment is about the reported issue, gives one reason, and recommends
    an investigation case exactly when it asks for a manual review. *)
Definition delivery_shape (i : DeliveryIssueType) (d : DeliveryDecision) : Prop :=
  dd_issue_type d = i ∧ (∃ c, dd_reason_codes d = [c]) ∧
  match dd_case_recommendation d with
  | Some c => dd_outcome d = do_manual_review ∧ cr_case_type c = rec_delivery_investigation ∧
              cr_reason_codes c = dd_reason_codes d
  | None => dd_outcome d ≠ do_manual_review
  end.

Definition assesses (i : DeliveryIssueType) (r : res DeliveryDecision) : Prop :=
  ∃ d, r = Ok d ∧ delivery_shape i d.

Lemma assesses_manual i r x p : nonempty x = true → assesses i (delivery_manual i r x p).
Proof.
  intros H. rewrite delivery_manual_ok by done. eexists. split; [done|].
  unfold delivery_shape; cbn. split_and!; by eauto.
Qed.
Lemma assesses_self_service i r x : nonempty x = true → assesses i (delivery_self_service i r x).
Proof.
  intros H. rewrite delivery_self_service_ok by done. eexists. split; [done|].
  unfold delivery_shape; cbn. split_and!; by eauto.
Qed.
#[export] Hint Resolve assesses_manual assesses_self_service : decides.

Lemma assesses_tracking_stalled s now : assesses di_tracking_stalled (evaluate_tracking_stalled s now).
Proof. unfold evaluate_tracking_stalled. repeat case_match; auto with decides. Qed.

Lemma assesses_delayed s now b : assesses di_delayed (evaluate_delayed s now b).
Proof. unfold evaluate_delayed. repeat case_match; auto with decides. Qed.

Lemma evaluate_delivery_issue_total r s now :
  dr_order_id r = sn_order_id s →
  assesses (dr_issue_type r) (evaluate_delivery_issue r s (Aware now)).
Proof.
  intros Hid. unfold evaluate_delivery_issue.
  rewrite bool_decide_eq_false_2 by (intros H; by apply H). cbn [raise_if res_bind require_aware_datetime].
  repeat case_match; auto using assesses_tracking_stalled, assesses_delayed with decides.
  rewrite offer_ok by reflexivity. eexists. split; [done|]. unfold delivery_shape; cbn. split_and!; by eauto.
Qed.
