(* ===== verification/CaseModels.v ===== *)
(** Support-case domain models: [cases/models.py], with the literal types of
    [schemas.py] they use.  Each pydantic class is a record with a [_validate]
    function that performs its construction. *)
From S2P Require Import Prelude OperationModels.

Inductive SemanticRiskLevel := rl_none | rl_low | rl_medium | rl_high | rl_critical.
Inductive SemanticRiskCategory :=
  | rc_self_harm | rc_violence | rc_legal | rc_regulatory | rc_reputation | rc_other.
Inductive StaffComplaintSeverity := sev_critical | sev_high | sev_medium | sev_low.

Inductive CaseType :=
  | ct_safety_review | ct_business_escalation | ct_refund_review | ct_general_support
  | ct_staff_conduct_complaint | ct_other_complaint | ct_order_operation_review
  | ct_delivery_investigation.
Inductive CaseStatus := cs_open | cs_in_progress | cs_on_hold | cs_resolved.
Inductive CaseEventType :=
  | ev_case_created | ev_trigger_appended | ev_status_changed | ev_assigned
  | ev_provider_update | ev_provider_redrive.
Inductive ProviderRedriveReasonCode :=
  | rr_dependency_or_configuration_restored | rr_transient_incident_resolved
  | rr_manual_retry_approved.
(** [ProviderCommandExecutionStatus] of [integrations/models.py]. *)
Inductive ProviderCommandExecutionStatus :=
  | px_accepted | px_processing | px_completed | px_rejected.
Inductive CaseServiceAction :=
  | ca_not_created | ca_created | ca_event_appended | ca_duplicate_ignored
  | ca_status_changed | ca_status_unchanged | ca_assigned.
Inductive OnHoldReason :=
  | oh_waiting_customer | oh_waiting_external_system | oh_waiting_internal_team
  | oh_system_unavailable | oh_force_majeure | oh_other.
Inductive HandoffReason :=
  | hr_hard_critical_self_harm | hr_hard_critical_violence | hr_hard_critical_legal
  | hr_hard_critical_regulatory | hr_hard_critical_reputation | hr_hard_critical_other
  | hr_semantic_critical_self_harm | hr_semantic_critical_violence
  | hr_semantic_critical_legal | hr_semantic_critical_regulatory
  | hr_semantic_critical_reputation | hr_semantic_critical_other
  | hr_semantic_high_self_harm | hr_semantic_high_violence | hr_semantic_high_legal
  | hr_semantic_high_regulatory | hr_semantic_high_reputation | hr_semantic_high_other
  | hr_semantic_medium_self_harm | hr_semantic_medium_violence | hr_semantic_medium_legal
  | hr_semantic_medium_regulatory | hr_semantic_medium_reputation
  | hr_semantic_medium_other | hr_refund_manual_review | hr_confirmed_human_request
  | hr_staff_conduct_critical | hr_staff_conduct_high | hr_staff_conduct_medium
  | hr_staff_conduct_low | hr_explicit_other_complaint | hr_order_state_invalid
  | hr_cancellation_fulfillment_processing | hr_cancellation_state_invalid
  | hr_operation_delivery_date_invalid | hr_return_eligibility_unknown
  | hr_exchange_eligibility_unknown | hr_currency_threshold_unconfigured
  | hr_return_manual_amount_review | hr_exchange_inventory_unknown
  | hr_delivery_data_invalid | hr_delivery_tracking_stalled
  | hr_delivery_overdue_investigation | hr_delivery_failed
  | hr_delivery_marked_received_dispute | hr_delivery_damage_claim
  | hr_delivery_other_issue | hr_provider_delivery_failed.

#[export] Instance SemanticRiskLevel_eq_dec : EqDecision SemanticRiskLevel.
Proof. solve_decision. Defined.
#[export] Instance SemanticRiskCategory_eq_dec : EqDecision SemanticRiskCategory.
Proof. solve_decision. Defined.
#[export] Instance StaffComplaintSeverity_eq_dec : EqDecision StaffComplaintSeverity.
Proof. solve_decision. Defined.
#[export] Instance CaseType_eq_dec : EqDecision CaseType.
Proof. solve_decision. Defined.
#[export] Instance CaseStatus_eq_dec : EqDecision CaseStatus.
Proof. solve_decision. Defined.
#[export] Instance CaseEventType_eq_dec : EqDecision CaseEventType.
Proof. solve_decision. Defined.
#[export] Instance ProviderRedriveReasonCode_eq_dec : EqDecision ProviderRedriveReasonCode.
Proof. solve_decision. Defined.
#[export] Instance ProviderCommandExecutionStatus_eq_dec : EqDecision ProviderCommandExecutionStatus.
Proof. solve_decision. Defined.
#[export] Instance CaseServiceAction_eq_dec : EqDecision CaseServiceAction.
Proof. solve_decision. Defined.
#[export] Instance OnHoldReason_eq_dec : EqDecision OnHoldReason.
Proof. solve_decision. Defined.

(** The literal of a reason code, as it appears in decisions and rows. *)
Definition reason_str (r : HandoffReason) : string :=
  match r with
  | hr_hard_critical_self_harm => "hard_critical_self_harm"
  | hr_hard_critical_violence => "hard_critical_violence"
  | hr_hard_critical_legal => "hard_critical_legal"
  | hr_hard_critical_regulatory => "hard_critical_regulatory"
  | hr_hard_critical_reputation => "hard_critical_reputation"
  | hr_hard_critical_other => "hard_critical_other"
  | hr_semantic_critical_self_harm => "semantic_critical_self_harm"
  | hr_semantic_critical_violence => "semantic_critical_violence"
  | hr_semantic_critical_legal => "semantic_critical_legal"
  | hr_semantic_critical_regulatory => "semantic_critical_regulatory"
  | hr_semantic_critical_reputation => "semantic_critical_reputation"
  | hr_semantic_critical_other => "semantic_critical_other"
  | hr_semantic_high_self_harm => "semantic_high_self_harm"
  | hr_semantic_high_violence => "semantic_high_violence"
  | hr_semantic_high_legal => "semantic_high_legal"
  | hr_semantic_high_regulatory => "semantic_high_regulatory"
  | hr_semantic_high_reputation => "semantic_high_reputation"
  | hr_semantic_high_other => "semantic_high_other"
  | hr_semantic_medium_self_harm => "semantic_medium_self_harm"
  | hr_semantic_medium_violence => "semantic_medium_violence"
  | hr_semantic_medium_legal => "semantic_medium_legal"
  | hr_semantic_medium_regulatory => "semantic_medium_regulatory"
  | hr_semantic_medium_reputation => "semantic_medium_reputation"
  | hr_semantic_medium_other => "semantic_medium_other"
  | hr_refund_manual_review => "refund_manual_review"
  | hr_confirmed_human_request => "confirmed_human_request"
  | hr_staff_conduct_critical => "staff_conduct_critical"
  | hr_staff_conduct_high => "staff_conduct_high"
  | hr_staff_conduct_medium => "staff_conduct_medium"
  | hr_staff_conduct_low => "staff_conduct_low"
  | hr_explicit_other_complaint => "explicit_other_complaint"
  | hr_order_state_invalid => "order_state_invalid"
  | hr_cancellation_fulfillment_processing => "cancellation_fulfillment_processing"
  | hr_cancellation_state_invalid => "cancellation_state_invalid"
  | hr_operation_delivery_date_invalid => "operation_delivery_date_invalid"
  | hr_return_eligibility_unknown => "return_eligibility_unknown"
  | hr_exchange_eligibility_unknown => "exchange_eligibility_unknown"
  | hr_currency_threshold_unconfigured => "currency_threshold_unconfigured"
  | hr_return_manual_amount_review => "return_manual_amount_review"
  | hr_exchange_inventory_unknown => "exchange_inventory_unknown"
  | hr_delivery_data_invalid => "delivery_data_invalid"
  | hr_delivery_tracking_stalled => "delivery_tracking_stalled"
  | hr_delivery_overdue_investigation => "delivery_overdue_investigation"
  | hr_delivery_failed => "delivery_failed"
  | hr_delivery_marked_received_dispute => "delivery_marked_received_dispute"
  | hr_delivery_damage_claim => "delivery_damage_claim"
  | hr_delivery_other_issue => "delivery_other_issue"
  | hr_provider_delivery_failed => "provider_delivery_failed"
  end.

Definition all_reasons : list HandoffReason :=
  [hr_hard_critical_self_harm; hr_hard_critical_violence; hr_hard_critical_legal;
   hr_hard_critical_regulatory; hr_hard_critical_reputation; hr_hard_critical_other;
   hr_semantic_critical_self_harm; hr_semantic_critical_violence; hr_semantic_critical_legal;
   hr_semantic_critical_regulatory; hr_semantic_critical_reputation; hr_semantic_critical_other;
   hr_semantic_high_self_harm; hr_semantic_high_violence; hr_semantic_high_legal;
   hr_semantic_high_regulatory; hr_semantic_high_reputation; hr_semantic_high_other;
   hr_semantic_medium_self_harm; hr_semantic_medium_violence; hr_semantic_medium_legal;
   hr_semantic_medium_regulatory; hr_semantic_medium_reputation; hr_semantic_medium_other;
   hr_refund_manual_review; hr_confirmed_human_request; hr_staff_conduct_critical;
   hr_staff_conduct_high; hr_staff_conduct_medium; hr_staff_conduct_low;
   hr_explicit_other_complaint; hr_order_state_invalid; hr_cancellation_fulfillment_processing;
   hr_cancellation_state_invalid; hr_operation_delivery_date_invalid; hr_return_eligibility_unknown;
   hr_exchange_eligibility_unknown; hr_currency_threshold_unconfigured; hr_return_manual_amount_review;
   hr_exchange_inventory_unknown; hr_delivery_data_invalid; hr_delivery_tracking_stalled;
   hr_delivery_overdue_investigation; hr_delivery_failed; hr_delivery_marked_received_dispute;
   hr_delivery_damage_claim; hr_delivery_other_issue; hr_provider_delivery_failed].

Lemma elem_of_all_reasons r : r ∈ all_reasons.
Proof. apply list_elem_of_In. destruct r; cbn; tauto. Qed.

(** The typed view of a reason string: what the [HandoffReason] literal accepts. *)
Definition reason_of_string (s : string) : option HandoffReason :=
  snd <$> list_find (λ r, reason_str r = s) all_reasons.

Lemma reason_of_string_str r : reason_of_string (reason_str r) = Some r.
Proof. destruct r; reflexivity. Qed.

#[export] Instance reason_str_inj : Inj (=) (=) reason_str.
Proof.
  intros r r' H. pose proof (reason_of_string_str r) as E.
  rewrite H, reason_of_string_str in E. congruence.
Qed.

#[export] Instance HandoffReason_eq_dec : EqDecision HandoffReason.
Proof.
  intros r r'. destruct (decide (reason_str r = reason_str r')) as [H|H].
  - left. by apply (inj reason_str).
  - right. congruence.
Defined.

(** * Records *)

Record HandoffPolicyInput := mkHandoffPolicyInput {
  hi_hard_critical_categories : list SemanticRiskCategory;
  hi_semantic_risk_level : option SemanticRiskLevel;
  hi_semantic_risk_categories : list SemanticRiskCategory;
  hi_refund_requires_manual_review : bool;
  hi_human_handoff_confirmed : bool;
  hi_staff_complaint_severity : option StaffComplaintSeverity;
  hi_explicit_other_complaint : bool;
  hi_domain_case_reason_codes : list HandoffReason;
}.

Record CaseListQuery := mkCaseListQuery {
  lq_status : option CaseStatus;
  lq_priority : option CasePriority;
  lq_case_type : option CaseType;
  lq_thread_id : option string;
  lq_order_id : option string;
  lq_limit : Z;
  lq_offset : Z;
}.

Record HandoffDecision := mkHandoffDecision {
  hd_should_create_case : bool;
  hd_case_type : option CaseType;
  hd_priority : option CasePriority;
  hd_reason_codes : list HandoffReason;
  hd_display_reason : string;
}.

Record CaseTrigger := mkCaseTrigger {
  tr_thread_id : string;
  tr_source_message_id : string;
  tr_order_id : option string;
  tr_risk_level : option SemanticRiskLevel;
  tr_risk_categories : list SemanticRiskCategory;
  tr_excerpt : string;
}.

Record SupportCase := mkSupportCase {
  c_case_id : uuid;
  c_thread_id : string;
  c_source_message_id : string;
  c_order_id : option string;
  c_case_type : CaseType;
  c_priority : CasePriority;
  c_status : CaseStatus;
  c_risk_level : option SemanticRiskLevel;
  c_risk_categories : list SemanticRiskCategory;
  c_reason_codes : list HandoffReason;
  c_display_reason : string;
  c_excerpt : string;
  c_on_hold_reason : option OnHoldReason;
  c_created_at : instant;
  c_updated_at : instant;
  c_version : Z;
  c_customer_id : string;
  c_tenant_id : string;
  c_created_by : string;
  c_assigned_agent_id : option string;
}.

Record SupportCaseEvent := mkSupportCaseEvent {
  ev_event_id : uuid;
  ev_idempotency_key : string;
  ev_case_id : uuid;
  ev_event_type : CaseEventType;
  ev_source_message_id : option string;
  ev_order_id : option string;
  ev_risk_level : option SemanticRiskLevel;
  ev_risk_categories : list SemanticRiskCategory;
  ev_reason_codes : list HandoffReason;
  ev_excerpt : string;
  ev_previous_priority : option CasePriority;
  ev_current_priority : option CasePriority;
  ev_previous_status : option CaseStatus;
  ev_current_status : option CaseStatus;
  ev_on_hold_reason : option OnHoldReason;
  ev_previous_assigned_agent_id : option string;
  ev_current_assigned_agent_id : option string;
  ev_provider_command_id : option uuid;
  ev_provider_command_status : option ProviderCommandExecutionStatus;
  ev_provider_reference : option string;
  ev_provider_redrive_reason_code : option ProviderRedriveReasonCode;
  ev_actor : option string;
  ev_customer_id : string;
  ev_tenant_id : string;
  ev_created_at : instant;
}.

Record CaseServiceResult := mkCaseServiceResult {
  cres_action : CaseServiceAction;
  cres_case : option SupportCase;
  cres_event : option SupportCaseEvent;
}.

(** * Construction *)

(** [HandoffPolicyInput.validate_semantic_risk] *)
Definition validate_semantic_risk (i : HandoffPolicyInput) : res unit :=
  let absent := bool_decide (hi_semantic_risk_level i ∈ [None; Some rl_none]) in
  let categories := bool_decide (hi_semantic_risk_categories i ≠ []) in
  raise_if (absent && categories)
    (ValueError "semantic_risk_categories must be empty when semantic_risk_level is None or 'none'");;;
  raise_if (negb absent && negb categories)
    (ValueError "semantic_risk_categories must not be empty for a non-none semantic_risk_level").

Definition HandoffPolicyInput_validate (i : HandoffPolicyInput) : res HandoffPolicyInput :=
  validating "HandoffPolicyInput" (validate_semantic_risk i);;; Ok i.

Definition CaseListQuery_validate (q : CaseListQuery) : res CaseListQuery :=
  let q := mkCaseListQuery (lq_status q) (lq_priority q) (lq_case_type q)
             (strip <$> lq_thread_id q) (strip <$> lq_order_id q) (lq_limit q) (lq_offset q) in
  raise_if (negb (opt_nonempty (lq_thread_id q) && opt_nonempty (lq_order_id q)
                  && (1 <=? lq_limit q) && (lq_limit q <=? 100) && (0 <=? lq_offset q)))
    (ValidationError "CaseListQuery");;;
  Ok q.

(** [HandoffDecision.validate_decision] *)
Definition validate_decision (d : HandoffDecision) : res unit :=
  let has_type := bool_decide (is_Some (hd_case_type d)) in
  let has_priority := bool_decide (is_Some (hd_priority d)) in
  let has_reasons := bool_decide (hd_reason_codes d ≠ []) in
  let has_display := nonempty (hd_display_reason d) in
  if hd_should_create_case d then
    raise_if (negb has_type || negb has_priority)
      (ValueError "case_type and priority are required when creating a case");;;
    raise_if (negb has_reasons || negb has_display)
      (ValueError "reason_codes and display_reason are required when creating a case")
  else
    raise_if (has_type || has_priority || has_reasons || has_display)
      (ValueError "a no-case decision must not contain case details or reasons").

Definition HandoffDecision_validate (d : HandoffDecision) : res HandoffDecision :=
  validating "HandoffDecision" (validate_decision d);;; Ok d.

Definition CaseTrigger_validate (t : CaseTrigger) : res CaseTrigger :=
  let t := mkCaseTrigger (strip (tr_thread_id t)) (strip (tr_source_message_id t))
             (strip <$> tr_order_id t) (tr_risk_level t) (tr_risk_categories t)
             (strip (tr_excerpt t)) in
  raise_if (negb (nonempty (tr_thread_id t) && nonempty (tr_source_message_id t)
                  && nonempty (tr_excerpt t) && (str_len (tr_excerpt t) <=? 500)))
    (ValidationError "CaseTrigger");;;
  Ok t.

(** [SupportCase.validate_lifecycle_fields] *)
Definition validate_lifecycle_fields (c : SupportCase) : res unit :=
  raise_if (c_updated_at c <? c_created_at c)
    (ValueError "updated_at must not be earlier than created_at");;;
  raise_if (bool_decide (c_status c = cs_on_hold) && bool_decide (c_on_hold_reason c = None))
    (ValueError "on_hold_reason is required when status is 'on_hold'");;;
  raise_if (bool_decide (c_status c ≠ cs_on_hold) && bool_decide (is_Some (c_on_hold_reason c)))
    (ValueError "on_hold_reason is only allowed when status is 'on_hold'");;;
  raise_if (bool_decide (c_case_type c = ct_delivery_investigation)
            && bool_decide (c_order_id c = None))
    (ValueError "delivery_investigation cases require an order_id").

(** [str_strip_whitespace=True] on every string field. *)
Definition SupportCase_strip (c : SupportCase) : SupportCase :=
  mkSupportCase (c_case_id c) (strip (c_thread_id c)) (strip (c_source_message_id c))
    (strip <$> c_order_id c) (c_case_type c) (c_priority c) (c_status c) (c_risk_level c)
    (c_risk_categories c) (c_reason_codes c) (strip (c_display_reason c)) (strip (c_excerpt c))
    (c_on_hold_reason c) (c_created_at c) (c_updated_at c) (c_version c)
    (strip (c_customer_id c)) (strip (c_tenant_id c)) (strip (c_created_by c))
    (strip <$> c_assigned_agent_id c).

Definition SupportCase_fields_ok (c : SupportCase) : bool :=
  nonempty (c_thread_id c) && nonempty (c_source_message_id c)
  && bool_decide (c_reason_codes c ≠ []) && nonempty (c_display_reason c)
  && nonempty (c_excerpt c) && (str_len (c_excerpt c) <=? 500) && (1 <=? c_version c)
  && nonempty (c_customer_id c) && nonempty (c_tenant_id c) && nonempty (c_created_by c)
  && opt_nonempty (c_assigned_agent_id c).

Definition SupportCase_validate (c : SupportCase) : res SupportCase :=
  let c := SupportCase_strip c in
  raise_if (negb (SupportCase_fields_ok c)) (ValidationError "SupportCase");;;
  validating "SupportCase" (validate_lifecycle_fields c);;;
  Ok c.

Definition SupportCaseEvent_strip (e : SupportCaseEvent) : SupportCaseEvent :=
  mkSupportCaseEvent (ev_event_id e) (strip (ev_idempotency_key e)) (ev_case_id e)
    (ev_event_type e) (strip <$> ev_source_message_id e) (strip <$> ev_order_id e)
    (ev_risk_level e) (ev_risk_categories e) (ev_reason_codes e) (strip (ev_excerpt e))
    (ev_previous_priority e) (ev_current_priority e) (ev_previous_status e)
    (ev_current_status e) (ev_on_hold_reason e) (strip <$> ev_previous_assigned_agent_id e)
    (strip <$> ev_current_assigned_agent_id e) (ev_provider_command_id e)
    (ev_provider_command_status e) (strip <$> ev_provider_reference e)
    (ev_provider_redrive_reason_code e) (strip <$> ev_actor e) (strip (ev_customer_id e))
    (strip (ev_tenant_id e)) (ev_created_at e).

Definition SupportCaseEvent_fields_ok (e : SupportCaseEvent) : bool :=
  nonempty (ev_idempotency_key e) && (str_len (ev_excerpt e) <=? 500)
  && opt_nonempty (ev_previous_assigned_agent_id e)
  && opt_nonempty (ev_current_assigned_agent_id e) && opt_nonempty (ev_provider_reference e)
  && nonempty (ev_customer_id e) && nonempty (ev_tenant_id e).

(** [not self.actor] *)
Definition no_actor (e : SupportCaseEvent) : bool :=
  match ev_actor e with Some a => negb (nonempty a) | None => true end.

Definition has_status_fields (e : SupportCaseEvent) : bool :=
  bool_decide (is_Some (ev_previous_status e)) || bool_decide (is_Some (ev_current_status e)).

(** [SupportCaseEvent.validate_event_fields] *)
Definition validate_event_fields (e : SupportCaseEvent) : res unit :=
  raise_if (bool_decide (ev_event_type e ≠ ev_provider_redrive)
            && bool_decide (is_Some (ev_provider_redrive_reason_code e)))
    (ValueError "only provider_redrive events may carry a redrive reason");;;
  match ev_event_type e with
  | ev_case_created | ev_trigger_appended =>
      raise_if (bool_decide (ev_source_message_id e = None))
        (ValueError "source_message_id is required for trigger events");;;
      raise_if (bool_decide (ev_reason_codes e = []) || negb (nonempty (ev_excerpt e)))
        (ValueError "reason_codes and triggering_message_excerpt are required for trigger events");;;
      raise_if (bool_decide (ev_current_priority e = None) || bool_decide (ev_current_status e = None))
        (ValueError "current_priority and current_status are required for trigger events")
  | ev_assigned =>
      raise_if (bool_decide (ev_current_assigned_agent_id e = None))
        (ValueError "current_assigned_agent_id is required for assigned events");;;
      raise_if (no_actor e) (ValueError "actor is required for assigned events")
  | ev_provider_update =>
      raise_if (bool_decide (ev_provider_command_id e = None))
        (ValueError "provider_command_id is required for provider_update events");;;
      raise_if (bool_decide (ev_provider_command_status e = None))
        (ValueError "provider_command_status is required for provider_update events");;;
      raise_if (no_actor e) (ValueError "actor is required for provider_update events");;;
      raise_if (has_status_fields e)
        (ValueError "provider_update events must not carry case status fields")
  | ev_provider_redrive =>
      raise_if (bool_decide (ev_provider_command_id e = None))
        (ValueError "provider_command_id is required for provider_redrive events");;;
      raise_if (bool_decide (ev_provider_redrive_reason_code e = None))
        (ValueError "provider_redrive_reason_code is required for provider_redrive events");;;
      raise_if (bool_decide (is_Some (ev_provider_command_status e))
                || bool_decide (is_Some (ev_provider_reference e)))
        (ValueError "provider_redrive events must not carry provider result fields");;;
      raise_if (has_status_fields e)
        (ValueError "provider_redrive events must not carry case status fields");;;
      raise_if (no_actor e) (ValueError "actor is required for provider_redrive events")
  | ev_status_changed =>
      raise_if (bool_decide (ev_previous_status e = None) || bool_decide (ev_current_status e = None))
        (ValueError "previous_status and current_status are required for status events");;;
      raise_if (no_actor e) (ValueError "actor is required for status events");;;
      raise_if (bool_decide (ev_current_status e = Some cs_on_hold)
                && bool_decide (ev_on_hold_reason e = None))
        (ValueError "on_hold_reason is required for an on-hold status event");;;
      raise_if (bool_decide (ev_current_status e ≠ Some cs_on_hold)
                && bool_decide (is_Some (ev_on_hold_reason e)))
        (ValueError "on_hold_reason is only allowed for an on-hold status event")
  end.

Definition SupportCaseEvent_validate (e : SupportCaseEvent) : res SupportCaseEvent :=
  let e := SupportCaseEvent_strip e in
  raise_if (negb (SupportCaseEvent_fields_ok e)) (ValidationError "SupportCaseEvent");;;
  validating "SupportCaseEvent" (validate_event_fields e);;;
  Ok e.

(** [CaseServiceResult.validate_result] *)
Definition validate_result (r : CaseServiceResult) : res unit :=
  if bool_decide (cres_action r = ca_not_created) then
    raise_if (bool_decide (is_Some (cres_case r)) || bool_decide (is_Some (cres_event r)))
      (ValueError "not_created must not contain a case or event")
  else
    raise_if (bool_decide (cres_case r = None)) (ValueError "must contain a case");;;
    let writes_event := bool_decide (cres_action r ∈
      [ca_created; ca_event_appended; ca_status_changed; ca_assigned]) in
    raise_if (writes_event && bool_decide (cres_event r = None))
      (ValueError "must contain an event");;;
    raise_if (negb writes_event && bool_decide (is_Some (cres_event r)))
      (ValueError "must not contain an event").

Definition CaseServiceResult_validate (r : CaseServiceResult) : res CaseServiceResult :=
  validating "CaseServiceResult" (validate_result r);;; Ok r.
