(* ===== verification/CasePolicy.v ===== *)
(** Deterministic handoff policy and case lifecycle rules: [cases/policy.py]. *)
From S2P Require Import Prelude OperationModels OperationPolicy CaseModels.

Record ReasonPolicy := mkReasonPolicy {
  rp_case_type : CaseType;
  rp_priority : CasePriority;
  rp_description : string;
}.

Definition RISK_CATEGORY_ORDER : list SemanticRiskCategory :=
  [rc_self_harm; rc_violence; rc_legal; rc_regulatory; rc_reputation; rc_other].

Definition case_type_rank (t : CaseType) : Z :=
  match t with
  | ct_safety_review => 0
  | ct_staff_conduct_complaint => 1
  | ct_business_escalation => 2
  | ct_refund_review => 3
  | ct_order_operation_review => 4
  | ct_delivery_investigation => 5
  | ct_general_support => 6
  | ct_other_complaint => 7
  end.

Definition priority_rank (p : CasePriority) : Z :=
  match p with p0 => 0 | p1 => 1 | p2 => 2 | p3 => 3 end.

(** Membership in [_UNRESOLVED_STATUSES]. *)
Definition unresolved (s : CaseStatus) : bool :=
  match s with cs_open | cs_in_progress | cs_on_hold => true | cs_resolved => false end.

(** Membership of the target in [_ALLOWED_STATUS_TRANSITIONS[current]]. *)
Definition case_transition_allowed (current target : CaseStatus) : bool :=
  match current, target with
  | cs_open, cs_in_progress => true
  | cs_in_progress, (cs_on_hold | cs_resolved) => true
  | cs_on_hold, (cs_in_progress | cs_resolved) => true
  | cs_resolved, cs_open => true
  | _, _ => false
  end.

Definition HARD_REASON_BY_CATEGORY (c : SemanticRiskCategory) : HandoffReason :=
  match c with
  | rc_self_harm => hr_hard_critical_self_harm
  | rc_violence => hr_hard_critical_violence
  | rc_legal => hr_hard_critical_legal
  | rc_regulatory => hr_hard_critical_regulatory
  | rc_reputation => hr_hard_critical_reputation
  | rc_other => hr_hard_critical_other
  end.

(** [_SEMANTIC_REASON_BY_LEVEL], with [None] for the levels that create no case. *)
Definition SEMANTIC_REASON_BY_LEVEL (l : SemanticRiskLevel) :
    option (SemanticRiskCategory → HandoffReason) :=
  match l with
  | rl_critical => Some (λ c, match c with
      | rc_self_harm => hr_semantic_critical_self_harm
      | rc_violence => hr_semantic_critical_violence
      | rc_legal => hr_semantic_critical_legal
      | rc_regulatory => hr_semantic_critical_regulatory
      | rc_reputation => hr_semantic_critical_reputation
      | rc_other => hr_semantic_critical_other end)
  | rl_high => Some (λ c, match c with
      | rc_self_harm => hr_semantic_high_self_harm
      | rc_violence => hr_semantic_high_violence
      | rc_legal => hr_semantic_high_legal
      | rc_regulatory => hr_semantic_high_regulatory
      | rc_reputation => hr_semantic_high_reputation
      | rc_other => hr_semantic_high_other end)
  | rl_medium => Some (λ c, match c with
      | rc_self_harm => hr_semantic_medium_self_harm
      | rc_violence => hr_semantic_medium_violence
      | rc_legal => hr_semantic_medium_legal
      | rc_regulatory => hr_semantic_medium_regulatory
      | rc_reputation => hr_semantic_medium_reputation
      | rc_other => hr_semantic_medium_other end)
  | rl_none | rl_low => None
  end.

Definition STAFF_REASON_BY_SEVERITY (s : StaffComplaintSeverity) : HandoffReason :=
  match s with
  | sev_critical => hr_staff_conduct_critical
  | sev_high => hr_staff_conduct_high
  | sev_medium => hr_staff_conduct_medium
  | sev_low => hr_staff_conduct_low
  end.

Definition REASON_POLICIES (r : HandoffReason) : ReasonPolicy :=
  match r with
  | hr_hard_critical_self_harm =>
      mkReasonPolicy ct_safety_review p0 "A hard-critical self-harm rule matched."
  | hr_hard_critical_violence =>
      mkReasonPolicy ct_safety_review p0 "A hard-critical violence rule matched."
  | hr_hard_critical_legal =>
      mkReasonPolicy ct_business_escalation p1 "A hard-critical legal rule matched."
  | hr_hard_critical_regulatory =>
      mkReasonPolicy ct_business_escalation p1 "A hard-critical regulatory rule matched."
  | hr_hard_critical_reputation =>
      mkReasonPolicy ct_business_escalation p1 "A hard-critical reputation rule matched."
  | hr_hard_critical_other =>
      mkReasonPolicy ct_business_escalation p1 "An uncategorized hard-critical rule matched."
  | hr_semantic_critical_self_harm =>
      mkReasonPolicy ct_safety_review p0 "Semantic classification found critical self-harm risk."
  | hr_semantic_critical_violence =>
      mkReasonPolicy ct_safety_review p0 "Semantic classification found critical violence risk."
  | hr_semantic_critical_legal =>
      mkReasonPolicy ct_business_escalation p1 "Semantic classification found critical legal risk."
  | hr_semantic_critical_regulatory =>
      mkReasonPolicy ct_business_escalation p1 "Semantic classification found critical regulatory risk."
  | hr_semantic_critical_reputation =>
      mkReasonPolicy ct_business_escalation p1 "Semantic classification found critical reputation risk."
  | hr_semantic_critical_other =>
      mkReasonPolicy ct_business_escalation p1 "Semantic classification found an uncategorized critical risk."
  | hr_semantic_high_self_harm =>
      mkReasonPolicy ct_safety_review p0 "Semantic classification found high self-harm risk."
  | hr_semantic_high_violence =>
      mkReasonPolicy ct_safety_review p0 "Semantic classification found high violence risk."
  | hr_semantic_high_legal =>
      mkReasonPolicy ct_business_escalation p1 "Semantic classification found high legal risk."
  | hr_semantic_high_regulatory =>
      mkReasonPolicy ct_business_escalation p1 "Semantic classification found high regulatory risk."
  | hr_semantic_high_reputation =>
      mkReasonPolicy ct_business_escalation p1 "Semantic classification found high reputation risk."
  | hr_semantic_high_other =>
      mkReasonPolicy ct_business_escalation p1 "Semantic classification found an uncategorized high risk."
  | hr_semantic_medium_self_harm =>
      mkReasonPolicy ct_safety_review p2 "Semantic classification found medium self-harm risk."
  | hr_semantic_medium_violence =>
      mkReasonPolicy ct_safety_review p2 "Semantic classification found medium violence risk."
  | hr_semantic_medium_legal =>
      mkReasonPolicy ct_business_escalation p2 "Semantic classification found medium legal risk."
  | hr_semantic_medium_regulatory =>
      mkReasonPolicy ct_business_escalation p2 "Semantic classification found medium regulatory risk."
  | hr_semantic_medium_reputation =>
      mkReasonPolicy ct_business_escalation p2 "Semantic classification found medium reputation risk."
  | hr_semantic_medium_other =>
      mkReasonPolicy ct_business_escalation p2 "Semantic classification found an uncategorized medium risk."
  | hr_refund_manual_review =>
      mkReasonPolicy ct_refund_review p1 "The refund requires manual review."
  | hr_confirmed_human_request =>
      mkReasonPolicy ct_general_support p2 "The user confirmed a request for human support."
  | hr_staff_conduct_critical =>
      mkReasonPolicy ct_staff_conduct_complaint p0 "The user reported critical staff conduct."
  | hr_staff_conduct_high =>
      mkReasonPolicy ct_staff_conduct_complaint p1 "The user reported serious staff conduct."
  | hr_staff_conduct_medium =>
      mkReasonPolicy ct_staff_conduct_complaint p1 "The user reported material staff misconduct."
  | hr_staff_conduct_low =>
      mkReasonPolicy ct_staff_conduct_complaint p2 "The user reported a staff service issue."
  | hr_explicit_other_complaint =>
      mkReasonPolicy ct_other_complaint p3 "The user explicitly made another formal complaint."
  | hr_order_state_invalid =>
      mkReasonPolicy ct_order_operation_review p1 "The order state needs manual review."
  | hr_cancellation_fulfillment_processing =>
      mkReasonPolicy ct_order_operation_review p1 "Cancellation needs warehouse review."
  | hr_cancellation_state_invalid =>
      mkReasonPolicy ct_order_operation_review p1 "Cancellation state needs manual review."
  | hr_operation_delivery_date_invalid =>
      mkReasonPolicy ct_order_operation_review p1 "Delivery timing needs manual review."
  | hr_return_eligibility_unknown =>
      mkReasonPolicy ct_order_operation_review p1 "Return eligibility needs manual review."
  | hr_exchange_eligibility_unknown =>
      mkReasonPolicy ct_order_operation_review p1 "Exchange eligibility needs manual review."
  | hr_currency_threshold_unconfigured =>
      mkReasonPolicy ct_order_operation_review p1 "Currency threshold needs manual review."
  | hr_return_manual_amount_review =>
      mkReasonPolicy ct_order_operation_review p1 "Return amount needs manual review."
  | hr_exchange_inventory_unknown =>
      mkReasonPolicy ct_order_operation_review p2 "Replacement inventory needs manual review."
  | hr_provider_delivery_failed =>
      mkReasonPolicy ct_order_operation_review p1 "Provider delivery failed and requires human review."
  | hr_delivery_data_invalid =>
      mkReasonPolicy ct_delivery_investigation p1 "Delivery data needs investigation."
  | hr_delivery_tracking_stalled =>
      mkReasonPolicy ct_delivery_investigation p1 "Tracking has stalled."
  | hr_delivery_overdue_investigation =>
      mkReasonPolicy ct_delivery_investigation p2 "Delivery delay needs investigation."
  | hr_delivery_failed =>
      mkReasonPolicy ct_delivery_investigation p1 "Delivery failure needs investigation."
  | hr_delivery_marked_received_dispute =>
      mkReasonPolicy ct_delivery_investigation p1 "Marked-delivered dispute needs investigation."
  | hr_delivery_damage_claim =>
      mkReasonPolicy ct_delivery_investigation p1 "Damage claim needs investigation."
  | hr_delivery_other_issue =>
      mkReasonPolicy ct_delivery_investigation p2 "Delivery issue needs investigation."
  end.

(** * Operations *)

Definition deduplicate_reasons (l : list HandoffReason) : list HandoffReason := uniq_from [] l.

(** [" ".join(...)] *)
Definition join_space (l : list string) : string := String.concat " " l.

Definition build_display_reason (reason_codes : list HandoffReason) : string :=
  join_space (rp_description ∘ REASON_POLICIES <$> deduplicate_reasons reason_codes).

(** The reasons collected, in order, before deduplication. *)
Definition collect_reasons (i : HandoffPolicyInput) : list HandoffReason :=
  (HARD_REASON_BY_CATEGORY <$>
     filter (λ c, c ∈ hi_hard_critical_categories i) RISK_CATEGORY_ORDER) ++
  match hi_semantic_risk_level i ≫= SEMANTIC_REASON_BY_LEVEL with
  | Some semantic_reasons =>
      semantic_reasons <$> filter (λ c, c ∈ hi_semantic_risk_categories i) RISK_CATEGORY_ORDER
  | None => []
  end ++
  match hi_staff_complaint_severity i with
  | Some s => [STAFF_REASON_BY_SEVERITY s] | None => []
  end ++
  (if hi_refund_requires_manual_review i then [hr_refund_manual_review] else []) ++
  (if hi_human_handoff_confirmed i then [hr_confirmed_human_request] else []) ++
  (if hi_explicit_other_complaint i then [hr_explicit_other_complaint] else []) ++
  hi_domain_case_reason_codes i.

Definition determine_handoff_policy (i : HandoffPolicyInput) : res HandoffDecision :=
  match deduplicate_reasons (collect_reasons i) with
  | [] => HandoffDecision_validate (mkHandoffDecision false None None [] "")
  | r :: rs =>
      let case_types := rp_case_type ∘ REASON_POLICIES <$> rs in
      let priorities := rp_priority ∘ REASON_POLICIES <$> rs in
      HandoffDecision_validate
        (mkHandoffDecision true
           (Some (min_by case_type_rank (rp_case_type (REASON_POLICIES r)) case_types))
           (Some (min_by priority_rank (rp_priority (REASON_POLICIES r)) priorities))
           (r :: rs) (build_display_reason (r :: rs)))
  end.

Definition validate_case_status_transition (current target : CaseStatus) : res unit :=
  if bool_decide (current = target) then Ok tt
  else raise_if (negb (case_transition_allowed current target)) InvalidCaseStatusTransition.

Definition should_append_to_existing_case (existing_thread_id : string)
    (existing_case_type : CaseType) (existing_status : CaseStatus)
    (incoming_thread_id : string) (incoming_case_type : CaseType) : bool :=
  bool_decide (existing_thread_id = incoming_thread_id)
  && bool_decide (existing_case_type = incoming_case_type)
  && unresolved existing_status.

Definition select_higher_priority (current incoming : CasePriority) : CasePriority :=
  min_by priority_rank current [incoming].

(** * Properties *)

#[export] Instance case_type_rank_inj : Inj (=) (=) case_type_rank.
Proof. intros [] []; cbn; congruence. Qed.
#[export] Instance priority_rank_inj : Inj (=) (=) priority_rank.
Proof. intros [] []; cbn; congruence. Qed.

Lemma description_nonempty r : rp_description (REASON_POLICIES r) ≠ "".
Proof. by destruct r. Qed.

Lemma concat_nonempty sep x l : x ≠ "" → String.concat sep (x :: l) ≠ "".
Proof. intros Hx. destruct x as [|c x]; [done|]. by destruct l. Qed.

Lemma build_display_reason_nonempty l : l ≠ [] → build_display_reason l ≠ "".
Proof.
  intros Hl. unfold build_display_reason, join_space, deduplicate_reasons.
  destruct (uniq_from [] l) as [|r rs] eqn:E; [by destruct Hl; apply (dict_fromkeys_nil l)|].
  rewrite fmap_cons. apply concat_nonempty, description_nonempty.
Qed.

(** The reason codes of a decision are the facts that hold, whatever their order: this is
    the specification the collection loop implements. *)
Definition reason_holds (i : HandoffPolicyInput) (r : HandoffReason) : Prop :=
  (∃ c, c ∈ hi_hard_critical_categories i ∧ r = HARD_REASON_BY_CATEGORY c) ∨
  (∃ l f c, hi_semantic_risk_level i = Some l ∧ SEMANTIC_REASON_BY_LEVEL l = Some f ∧
            c ∈ hi_semantic_risk_categories i ∧ r = f c) ∨
  (∃ s, hi_staff_complaint_severity i = Some s ∧ r = STAFF_REASON_BY_SEVERITY s) ∨
  (hi_refund_requires_manual_review i = true ∧ r = hr_refund_manual_review) ∨
  (hi_human_handoff_confirmed i = true ∧ r = hr_confirmed_human_request) ∨
  (hi_explicit_other_complaint i = true ∧ r = hr_explicit_other_complaint) ∨
  r ∈ hi_domain_case_reason_codes i.

Lemma elem_of_category_order c : c ∈ RISK_CATEGORY_ORDER.
Proof. apply list_elem_of_In. destruct c; cbn; tauto. Qed.

Lemma elem_of_mapped_categories (f : SemanticRiskCategory → HandoffReason)
    (cs : list SemanticRiskCategory) r :
  r ∈ f <$> filter (λ c, c ∈ cs) RISK_CATEGORY_ORDER ↔ ∃ c, c ∈ cs ∧ r = f c.
Proof.
  rewrite list_elem_of_fmap. setoid_rewrite list_elem_of_filter.
  split; [naive_solver|]. intros (c & ? & ->). eauto using elem_of_category_order.
Qed.

Lemma elem_of_collect_reasons i r : r ∈ collect_reasons i ↔ reason_holds i r.
Proof.
  unfold collect_reasons, reason_holds. rewrite !elem_of_app, elem_of_mapped_categories.
  apply or_iff_compat_l. apply Morphisms_Prop.or_iff_morphism.
  { destruct (hi_semantic_risk_level i) as [l|]; cbn [mbind option_bind]; [|set_solver].
    destruct (SEMANTIC_REASON_BY_LEVEL l) as [f|] eqn:E.
    - rewrite elem_of_mapped_categories. naive_solver.
    - set_solver. }
  destruct (hi_staff_complaint_severity i), (hi_refund_requires_manual_review i),
    (hi_human_handoff_confirmed i), (hi_explicit_other_complaint i); set_solver.
Qed.

Lemma decision_ok t p rs x :
  rs ≠ [] → x ≠ "" →
  HandoffDecision_validate (mkHandoffDecision true (Some t) (Some p) rs x) =
  Ok (mkHandoffDecision true (Some t) (Some p) rs x).
Proof.
  intros Hr Hx%nonempty_true. unfold HandoffDecision_validate, validate_decision. cbn.
  rewrite Hx, (bool_decide_eq_true_2 (rs ≠ [])) by done. by destruct t, p.
Qed.

(** The decision in closed form. *)
Lemma determine_handoff_policy_eq i :
  determine_handoff_policy i =
    match deduplicate_reasons (collect_reasons i) with
    | [] => Ok (mkHandoffDecision false None None [] "")
    | r :: rs =>
        Ok (mkHandoffDecision true
             (Some (min_by case_type_rank (rp_case_type (REASON_POLICIES r))
                      (rp_case_type ∘ REASON_POLICIES <$> rs)))
             (Some (min_by priority_rank (rp_priority (REASON_POLICIES r))
                      (rp_priority ∘ REASON_POLICIES <$> rs)))
             (r :: rs) (build_display_reason (r :: rs)))
    end.
Proof.
  unfold determine_handoff_policy. destruct (deduplicate_reasons _) as [|r rs]; [done|].
  by rewrite decision_ok by (done || by apply build_display_reason_nonempty).
Qed.

(** The most urgent policy among the reasons that hold. *)
Definition is_most_urgent {A} (rank : A → Z) (proj : ReasonPolicy → A)
    (i : HandoffPolicyInput) (a : A) : Prop :=
  (∃ r, reason_holds i r ∧ proj (REASON_POLICIES r) = a) ∧
  ∀ r, reason_holds i r → rank a ≤ rank (proj (REASON_POLICIES r)).

Lemma min_by_most_urgent {A} (rank : A → Z) (proj : ReasonPolicy → A) i r rs :
  (∀ x, x ∈ r :: rs ↔ reason_holds i x) →
  is_most_urgent rank proj i
    (min_by rank (proj (REASON_POLICIES r)) (proj ∘ REASON_POLICIES <$> rs)).
Proof.
  intros Hrs.
  assert (∀ a, a ∈ proj (REASON_POLICIES r) :: (proj ∘ REASON_POLICIES <$> rs) ↔
               ∃ x, reason_holds i x ∧ proj (REASON_POLICIES x) = a) as Hmem.
  { intros a. setoid_rewrite <- Hrs.
    change (proj (REASON_POLICIES r) :: (proj ∘ REASON_POLICIES <$> rs))
      with (proj ∘ REASON_POLICIES <$> r :: rs).
    rewrite list_elem_of_fmap. naive_solver. }
  split.
  - apply Hmem, min_by_elem.
  - intros x Hx. apply min_by_le, Hmem. eauto.
Qed.

Lemma handoff_decision_facts (i : HandoffPolicyInput) :
  ∃ d, determine_handoff_policy i = Ok d ∧
    (hd_should_create_case d = true ↔ ∃ r, reason_holds i r) ∧
    NoDup (hd_reason_codes d) ∧ (∀ r, r ∈ hd_reason_codes d ↔ reason_holds i r) ∧
    if hd_should_create_case d then
      ∃ t p, hd_case_type d = Some t ∧ hd_priority d = Some p ∧
             is_most_urgent case_type_rank rp_case_type i t ∧
             is_most_urgent priority_rank rp_priority i p
    else hd_case_type d = None ∧ hd_priority d = None.
Proof.
  rewrite determine_handoff_policy_eq.
  assert (∀ r, r ∈ deduplicate_reasons (collect_reasons i) ↔ reason_holds i r) as Hmem.
  { intros r. rewrite <- elem_of_collect_reasons. apply elem_of_dict_fromkeys. }
  pose proof (NoDup_uniq_from [] (collect_reasons i)) as Hnd.
  fold (deduplicate_reasons (collect_reasons i)) in Hnd.
  destruct (deduplicate_reasons _) as [|r rs]; (eexists; split; [done|]); cbn.
  - split_and!; [|done..]. split; [done|]. intros (r & Hr). apply Hmem in Hr. set_solver.
  - split_and!; [|done|done|].
    + split; [intros _; exists r; apply Hmem; set_solver|done].
    + do 2 eexists. split_and!; [done..| |]; by apply min_by_most_urgent.
Qed.

(** The outcome depends on the facts only, not on the order in which the classifiers
    listed the categories. *)
Lemma handoff_order_irrelevant i j d d' :
  (∀ r, reason_holds i r ↔ reason_holds j r) →
  determine_handoff_policy i = Ok d → determine_handoff_policy j = Ok d' →
  hd_should_create_case d = hd_should_create_case d' ∧
  hd_case_type d = hd_case_type d' ∧ hd_priority d = hd_priority d'.
Proof.
  intros Hij Hd Hd'.
  destruct (handoff_decision_facts i) as (d0 & Hi & Hci & _ & _ & Ri).
  destruct (handoff_decision_facts j) as (d0' & Hj & Hcj & _ & _ & Rj).
  rewrite Hi in Hd. rewrite Hj in Hd'. inv_ok.
  assert (hd_should_create_case d = hd_should_create_case d') as Hs.
  { apply eq_true_iff_eq. rewrite Hci, Hcj. by setoid_rewrite Hij. }
  rewrite Hs in *. destruct (hd_should_create_case d').
  - destruct Ri as (t & p & -> & -> & [(x & Hx & <-) Ht] & [(y & Hy & <-) Hp]),
      Rj as (t' & p' & -> & -> & [(x' & Hx' & <-) Ht'] & [(y' & Hy' & <-) Hp']).
    split_and!; [done|f_equal; apply (inj case_type_rank)|f_equal; apply (inj priority_rank)];
      apply Z.le_antisymm; naive_solver.
  - destruct Ri as (-> & ->), Rj as (-> & ->). done.
Qed.

(** C36: the handoff policy is total and deterministic.  It never raises; it asks for a case
    exactly when some reason holds; the reason codes are the holding reasons, each once;
    and the case type and the priority are the most urgent ones any holding reason
    calls for. *)
Theorem determine_handoff_policy_spec (i : HandoffPolicyInput) :
  ∃ d, determine_handoff_policy i = Ok d ∧
    (hd_should_create_case d = true ↔ ∃ r, reason_holds i r) ∧
    NoDup (hd_reason_codes d) ∧ (∀ r, r ∈ hd_reason_codes d ↔ reason_holds i r) ∧
    if hd_should_create_case d then
      ∃ t p, hd_case_type d = Some t ∧ hd_priority d = Some p ∧
             is_most_urgent case_type_rank rp_case_type i t ∧
             is_most_urgent priority_rank rp_priority i p
    else hd_case_type d = None ∧ hd_priority d = None.
Proof. apply handoff_decision_facts. Qed.

(** ** From operation decisions to cases *)

(** A manual-review decision whose single reason is a handoff reason that opens the
    recommended review at the recommended priority. *)
Definition handoff_ready (r : res OperationDecision) : Prop :=
  ∀ d c, r = Ok d → od_case_recommendation d = Some c →
    ∃ h, od_reason_codes d = [reason_str h] ∧
         rp_case_type (REASON_POLICIES h) = ct_order_operation_review ∧
         rp_priority (REASON_POLICIES h) = cr_priority c.

Lemma handoff_ready_manual t s x p :
  nonempty x = true →
  match reason_of_string s with
  | Some h => reason_str h = s ∧ rp_case_type (REASON_POLICIES h) = ct_order_operation_review ∧
              rp_priority (REASON_POLICIES h) = p
  | None => False
  end →
  handoff_ready (manual t s x p).
Proof.
  intros Hx Hs d c. rewrite manual_ok by done. intros [= <-]; cbn. intros [= <-]; cbn.
  destruct (reason_of_string s) as [h|]; [|done]. destruct Hs as (<- & ? & ?). eauto.
Qed.

Lemma handoff_ready_vacuous r :
  (∀ d, r = Ok d → od_case_recommendation d = None) → handoff_ready r.
Proof. intros H d c ->. by rewrite H. Qed.

Ltac handoff_ready_tac :=
  first [ apply handoff_ready_manual; [reflexivity|vm_compute; by split_and!]
        | apply handoff_ready_vacuous; intros ?; eval_decision; by intros [= <-] ].

Lemma handoff_ready_return_or_exchange t s now th :
  t ≠ op_cancellation → handoff_ready (evaluate_return_or_exchange t s now th).
Proof.
  intros Ht. unfold evaluate_return_or_exchange. destruct t; [done|..];
    repeat case_match; handoff_ready_tac.
Qed.

Lemma handoff_ready_exchange s now th ra : handoff_ready (evaluate_exchange s now th ra).
Proof.
  unfold evaluate_exchange.
  pose proof (handoff_ready_return_or_exchange op_exchange s now th ltac:(done)) as Hb.
  destruct (evaluate_return_or_exchange _ _ _ _) as [b|e]; cbn [res_bind]; [|done].
  repeat case_match; (exact Hb || handoff_ready_tac).
Qed.

Lemma handoff_ready_cancellation s : handoff_ready (evaluate_cancellation s).
Proof. unfold evaluate_cancellation. repeat case_match; handoff_ready_tac. Qed.

(** Every manual review the operation policy asks for can be handed to the case policy:
    its reason code is a known handoff reason, and that reason opens an
    order-operation review with exactly the priority the operation policy recommended. *)
Theorem manual_review_opens_recommended_case (r : OrderOperationRequest) (s : OrderSnapshot)
    (now : datetime) (thresholds : CurrencyThresholds) (replacement_available : option bool) :
  handoff_ready (evaluate_operation r s now thresholds replacement_available).
Proof.
  unfold evaluate_operation. destruct (validate_request_context r s now) as [t|e]; cbn [res_bind]; [|done].
  repeat case_match; auto using handoff_ready_cancellation, handoff_ready_exchange,
    handoff_ready_return_or_exchange with decides; handoff_ready_tac.
Qed.

(** The delivery counterpart, with the priority the case policy really assigns. *)
Definition delivery_handoff (r : res DeliveryDecision) : Prop :=
  ∀ d c, r = Ok d → dd_case_recommendation d = Some c →
    ∃ h, dd_reason_codes d = [reason_str h] ∧
         rp_case_type (REASON_POLICIES h) = ct_delivery_investigation ∧
         rp_priority (REASON_POLICIES h) =
           if decide (h = hr_delivery_failed) then p1 else cr_priority c.

Lemma delivery_handoff_manual i s x p :
  nonempty x = true →
  match reason_of_string s with
  | Some h => reason_str h = s ∧ rp_case_type (REASON_POLICIES h) = ct_delivery_investigation ∧
              rp_priority (REASON_POLICIES h) = if decide (h = hr_delivery_failed) then p1 else p
  | None => False
  end →
  delivery_handoff (delivery_manual i s x p).
Proof.
  intros Hx Hs d c. rewrite delivery_manual_ok by done. intros [= <-]; cbn. intros [= <-]; cbn.
  destruct (reason_of_string s) as [h|]; [|done]. destruct Hs as (<- & ? & ?). eauto.
Qed.

Lemma delivery_handoff_vacuous r :
  (∀ d, r = Ok d → dd_case_recommendation d = None) → delivery_handoff r.
Proof. intros H d c ->. by rewrite H. Qed.

Ltac delivery_handoff_tac :=
  first [ apply delivery_handoff_manual; [reflexivity|vm_compute; by split_and!]
        | apply delivery_handoff_vacuous; intros ?; eval_decision; by intros [= <-] ].

(** Every delivery investigation the delivery policy asks for is created with a known
    handoff reason and the recommended priority, except a failed delivery, which the
    delivery policy and the business rules rate p2 and the case policy opens at p1. *)
Theorem delivery_review_opens_investigation (r : DeliveryIssueRequest) (s : OrderSnapshot)
    (now : datetime) :
  delivery_handoff (evaluate_delivery_issue r s now).
Proof.
  unfold evaluate_delivery_issue, evaluate_tracking_stalled, evaluate_delayed.
  destruct (raise_if _ _) as [[]|e]; cbn [res_bind]; [|done].
  destruct (require_aware_datetime now) as [t|e]; cbn [res_bind]; [|done].
  repeat case_match; delivery_handoff_tac.
Qed.

(** ** Case lifecycle *)

Lemma select_higher_priority_spec p q :
  let m := select_higher_priority p q in
  (m = p ∨ m = q) ∧ priority_rank m ≤ priority_rank p ∧ priority_rank m ≤ priority_rank q.
Proof. destruct p, q; cbn; split; auto; lia. Qed.

Lemma validate_case_status_transition_ok s t u :
  validate_case_status_transition s t = Ok u ↔ s = t ∨ case_transition_allowed s t = true.
Proof.
  destruct u. unfold validate_case_status_transition. case_bool_decide; [naive_solver|].
  rewrite raise_if_ok, negb_false_iff. naive_solver.
Qed.
