(* ===== verification/RiskMatcher.v ===== *)
(** The deterministic risk rules: [risk_matcher.py].

    A Python [str] is the list of its code points here, because the rules and the messages
    they are matched against are not confined to one byte per character.  The Unicode
    character database (normal forms, case folding, the alphanumeric characters behind
    [\w]) is a parameter. *)
From S2P Require Import Prelude CaseModels.

Abbreviation text := (list N) (only parsing).

Definition code_points (s : string) : text := N_of_ascii <$> String.list_ascii_of_string s.

(** [str.isspace] on one code point, which is also what [str.split()] splits at. *)
Definition space_point (c : N) : bool :=
  ((9 <=? c) && (c <=? 13) || (28 <=? c) && (c <=? 32) || (c =? 133) || (c =? 160)
   || (c =? 5760) || (8192 <=? c) && (c <=? 8202) || (c =? 8232) || (c =? 8233)
   || (c =? 8239) || (c =? 8287) || (c =? 12288))%N.

Inductive UnicodeForm := NFC | NFKC | NFD | NFKD.

Record UnicodeData := mkUnicodeData {
  unicode_normalize : UnicodeForm → text → text;
  unicode_casefold : text → text;
  unicode_isalnum : N → bool;
}.

(** * Rules *)

Inductive RiskCategory := rk_self_harm | rk_violence | rk_legal | rk_regulatory | rk_reputation.
Inductive RiskSeverity := sv_critical | sv_high | sv_medium | sv_low.
Inductive RiskRuleType := rt_hard_critical | rt_risk_signal.
Inductive RiskLanguage := lang_en | lang_zh.
Inductive MatchType := mt_phrase | mt_word.

#[export] Instance UnicodeForm_eq_dec : EqDecision UnicodeForm.
Proof. solve_decision. Defined.
#[export] Instance RiskCategory_eq_dec : EqDecision RiskCategory.
Proof. solve_decision. Defined.
#[export] Instance RiskSeverity_eq_dec : EqDecision RiskSeverity.
Proof. solve_decision. Defined.
#[export] Instance RiskRuleType_eq_dec : EqDecision RiskRuleType.
Proof. solve_decision. Defined.
#[export] Instance RiskLanguage_eq_dec : EqDecision RiskLanguage.
Proof. solve_decision. Defined.
#[export] Instance MatchType_eq_dec : EqDecision MatchType.
Proof. solve_decision. Defined.

Record NormalizationConfig := mkNormalizationConfig {
  nc_unicode_form : UnicodeForm;
  nc_casefold : bool;
  nc_collapse_whitespace : bool;
  nc_normalize_apostrophes : bool;
}.

Definition default_normalization : NormalizationConfig := mkNormalizationConfig NFKC true true true.

Record RiskRule := mkRiskRule {
  rr_id : text;
  rr_pattern : text;
  rr_match_type : MatchType;
  rr_language : RiskLanguage;
  rr_category : RiskCategory;
  rr_severity : RiskSeverity;
  rr_rule_type : RiskRuleType;
}.

Record RiskRuleSet := mkRiskRuleSet {
  rs_normalization : NormalizationConfig;
  rs_hard_critical : list RiskRule;
  rs_risk_signals : list RiskRule;
}.

Record RiskMatch := mkRiskMatch {
  rm_rule_id : text;
  rm_pattern : text;
  rm_matched_text : text;
  rm_start : Z;
  rm_end : Z;
  rm_language : RiskLanguage;
  rm_category : RiskCategory;
  rm_severity : RiskSeverity;
  rm_rule_type : RiskRuleType;
}.

Record RiskMatchResult := mkRiskMatchResult {
  rx_normalized_text : text;
  rx_hard_critical : bool;
  rx_has_risk_signals : bool;
  rx_hard_critical_matches : list RiskMatch;
  rx_risk_signal_matches : list RiskMatch;
}.

Definition rx_matches (r : RiskMatchResult) : list RiskMatch :=
  rx_hard_critical_matches r ++ rx_risk_signal_matches r.

(** * Matching *)

Section Matching.
Context (u : UnicodeData).

(** [str.split()]: the maximal runs of characters that are not whitespace; [word] is the run
    being read, reversed. *)
Fixpoint split_words_from (word : text) (s : text) : list text :=
  let close := match word with [] => [] | _ => [reverse word] end in
  match s with
  | [] => close
  | c :: s' => if space_point c then close ++ split_words_from [] s'
               else split_words_from (c :: word) s'
  end.

Definition split_words (s : text) : list text := split_words_from [] s.

(** [" ".join(words)] *)
Fixpoint join_words (words : list text) : text :=
  match words with
  | [] => []
  | [w] => w
  | w :: words' => w ++ 32%N :: join_words words'
  end.

(** [_APOSTROPHE_TRANSLATION]: U+2019, U+2018 and U+FF07 become an ASCII apostrophe. *)
Definition straight_apostrophe (c : N) : N :=
  if bool_decide (c ∈ [8217; 8216; 65287]%N) then 39%N else c.

Definition normalize_text (s : text) (config : NormalizationConfig) : text :=
  let s := unicode_normalize u (nc_unicode_form config) s in
  let s := if nc_normalize_apostrophes config then straight_apostrophe <$> s else s in
  let s := if nc_casefold config then unicode_casefold u s else s in
  if nc_collapse_whitespace config then join_words (split_words s) else s.

(** [\w] in a [str] pattern *)
Definition word_point (c : N) : bool := unicode_isalnum u c || (c =? 95)%N.

(** A compiled rule: an escaped literal, between [(?<!\w)] and [(?!\w)] when [bounded]. *)
Record literal := mkLiteral { lit_text : text; lit_bounded : bool }.

Definition compile_rule (config : NormalizationConfig) (r : RiskRule) : literal :=
  mkLiteral (normalize_text (rr_pattern r) config)
    (bool_decide (rr_language r = lang_en) || bool_decide (rr_match_type r = mt_word)).

(** Whether the pattern matches in front of [rest], which the character [prev] precedes. *)
Definition boundary (c : option N) : bool := match c with Some c => negb (word_point c) | None => true end.

Definition matches_at (p : literal) (prev : option N) (rest : text) : bool :=
  bool_decide (lit_text p `prefix_of` rest)
  && (negb (lit_bounded p)
      || boundary prev && boundary (head (drop (length (lit_text p)) rest))).

(** [pattern.finditer]: the leftmost matches that do not overlap, as pairs of positions;
    [skip] characters are still inside the last match. *)
Fixpoint finditer (p : literal) (prev : option N) (skip : nat) (pos : nat) (rest : text) :
    list (nat * nat) :=
  let here := match skip with O => matches_at p prev rest | S _ => false end in
  let found := if here then [(pos, pos + length (lit_text p))%nat] else [] in
  match rest with
  | [] => found
  | c :: rest' =>
      found ++ finditer p (Some c)
        (if here then pred (length (lit_text p)) else pred skip) (S pos) rest'
  end.

Definition occurrence (r : RiskRule) (s : text) (span : nat * nat) : RiskMatch :=
  mkRiskMatch (rr_id r) (rr_pattern r) (take (span.2 - span.1) (drop span.1 s))
    (Z.of_nat span.1) (Z.of_nat span.2) (rr_language r) (rr_category r) (rr_severity r) (rr_rule_type r).

Definition find_matches (s : text) (config : NormalizationConfig) (rules : list RiskRule) : list RiskMatch :=
  r ← rules; occurrence r s <$> finditer (compile_rule config r) None 0 0 s.

(** [RiskRuleMatcher.match] *)
Definition risk_match (rules : RiskRuleSet) (s : text) : RiskMatchResult :=
  let config := rs_normalization rules in
  let normalized := normalize_text s config in
  let hard := find_matches normalized config (rs_hard_critical rules) in
  let signals := find_matches normalized config (rs_risk_signals rules) in
  mkRiskMatchResult normalized (bool_decide (hard ≠ [])) (bool_decide (signals ≠ [])) hard signals.

End Matching.

(** * Loading rules *)

(** What [json.loads] returns; the keys of an object are distinct. *)
Inductive json :=
  | JNull
  | JBool (b : bool)
  | JNumber (q : Q)
  | JString (s : text)
  | JArray (l : list json)
  | JObject (fields : list (text * json)).

Definition fields_of (value : json) : res (list (text * json)) :=
  match value with JObject fields => Ok fields | _ => Err RiskRuleConfigError end.

(** [value.get(key)]; a missing key is [None], as is a JSON [null]. *)
Fixpoint json_get (key : string) (fields : list (text * json)) : json :=
  match fields with
  | [] => JNull
  | (k, v) :: fields' => if bool_decide (k = code_points key) then v else json_get key fields'
  end.

Definition require_string (value : json) : res text :=
  match value with JString s => Ok s | _ => Err RiskRuleConfigError end.

Definition require_bool (value : json) : res bool :=
  match value with JBool b => Ok b | _ => Err RiskRuleConfigError end.

(** [_require_choice], returning what the chosen literal stands for. *)
Definition require_choice {A} (value : json) (choices : list (string * A)) : res A :=
  let* s := require_string value in
  match list_find (λ c, code_points c.1 = s) choices with
  | Some (_, (_, a)) => Ok a
  | None => Err RiskRuleConfigError
  end.

Definition reject_unknown_fields (fields : list (text * json)) (allowed : list string) : res unit :=
  raise_if (negb (forallb (λ f, bool_decide (f.1 ∈ code_points <$> allowed)) fields)) RiskRuleConfigError.

Definition RULE_FIELDS : list string :=
  ["id"; "pattern"; "match_type"; "language"; "category"; "severity"; "rule_type"].
Definition NORMALIZATION_FIELDS : list string :=
  ["unicode_form"; "casefold"; "collapse_whitespace"; "normalize_apostrophes"].
Definition TOP_LEVEL_FIELDS : list string :=
  ["schema_version"; "normalization"; "hard_critical"; "risk_signals"].

Definition UNICODE_FORMS : list (string * UnicodeForm) :=
  [("NFC", NFC); ("NFKC", NFKC); ("NFD", NFD); ("NFKD", NFKD)].
Definition MATCH_TYPES : list (string * MatchType) := [("phrase", mt_phrase); ("word", mt_word)].
Definition RISK_LANGUAGES : list (string * RiskLanguage) := [("en", lang_en); ("zh", lang_zh)].
Definition RISK_CATEGORIES : list (string * RiskCategory) :=
  [("self_harm", rk_self_harm); ("violence", rk_violence); ("legal", rk_legal);
   ("regulatory", rk_regulatory); ("reputation", rk_reputation)].
Definition RISK_SEVERITIES : list (string * RiskSeverity) :=
  [("critical", sv_critical); ("high", sv_high); ("medium", sv_medium); ("low", sv_low)].
Definition rule_type_name (t : RiskRuleType) : string :=
  match t with rt_hard_critical => "hard_critical" | rt_risk_signal => "risk_signal" end.

Definition parse_normalization (value : json) : res NormalizationConfig :=
  let* config := fields_of value in
  reject_unknown_fields config NORMALIZATION_FIELDS;;;
  let* form := require_choice (json_get "unicode_form" config) UNICODE_FORMS in
  let* casefold := require_bool (json_get "casefold" config) in
  let* collapse := require_bool (json_get "collapse_whitespace" config) in
  let* apostrophes := require_bool (json_get "normalize_apostrophes" config) in
  Ok (mkNormalizationConfig form casefold collapse apostrophes).

(** One round of the loop of [_parse_rule_section] *)
Definition parse_rule (expected : RiskRuleType) (item : json) : res RiskRule :=
  let* entry := fields_of item in
  reject_unknown_fields entry RULE_FIELDS;;;
  let* rule_id := require_string (json_get "id" entry) in
  let* pattern := require_string (json_get "pattern" entry) in
  raise_if (forallb space_point pattern) RiskRuleConfigError;;;
  let* match_type := require_choice (json_get "match_type" entry) MATCH_TYPES in
  let* language := require_choice (json_get "language" entry) RISK_LANGUAGES in
  let* category := require_choice (json_get "category" entry) RISK_CATEGORIES in
  let* severity := require_choice (json_get "severity" entry) RISK_SEVERITIES in
  let* rule_type := require_string (json_get "rule_type" entry) in
  raise_if (bool_decide (rule_type ≠ code_points (rule_type_name expected))) RiskRuleConfigError;;;
  raise_if (bool_decide (expected = rt_hard_critical) && bool_decide (severity ≠ sv_critical))
    RiskRuleConfigError;;;
  raise_if (bool_decide (expected = rt_risk_signal) && bool_decide (severity = sv_critical))
    RiskRuleConfigError;;;
  Ok (mkRiskRule rule_id pattern match_type language category severity expected).

Fixpoint parse_rules (expected : RiskRuleType) (items : list json) : res (list RiskRule) :=
  match items with
  | [] => Ok []
  | item :: items' =>
      let* r := parse_rule expected item in
      let* rs := parse_rules expected items' in
      Ok (r :: rs)
  end.

Definition parse_rule_section (value : json) (expected : RiskRuleType) : res (list RiskRule) :=
  match value with JArray items => parse_rules expected items | _ => Err RiskRuleConfigError end.

(** [schema_version != 1]: Python's [1], [1.0] and [True] are equal. *)
Definition is_one (value : json) : bool :=
  match value with JBool b => b | JNumber q => Qeq_bool q 1 | _ => false end.

(** [load_risk_rules], from the parsed file. *)
Definition load_risk_rules (payload : json) : res RiskRuleSet :=
  let* root := fields_of payload in
  reject_unknown_fields root TOP_LEVEL_FIELDS;;;
  raise_if (negb (is_one (json_get "schema_version" root))) RiskRuleConfigError;;;
  let* normalization := parse_normalization (json_get "normalization" root) in
  let* hard := parse_rule_section (json_get "hard_critical" root) rt_hard_critical in
  let* signals := parse_rule_section (json_get "risk_signals" root) rt_risk_signal in
  raise_if (negb (bool_decide (NoDup (rr_id <$> hard ++ signals)))) RiskRuleConfigError;;;
  Ok (mkRiskRuleSet normalization hard signals).
