(* ===== verification/RiskTheorems.v ===== *)
(** What the risk rules find, and what a loaded rule file guarantees. *)
From S2P Require Import Prelude CaseModels RiskMatcher.

(** * The scanner against a declarative occurrence *)

Section Scan.
Context (u : UnicodeData).

(** The character in front of position [i]. *)
Definition before (s : text) (i : nat) : option N := match i with O => None | S j => s !! j end.

(** The pattern stands at position [i] of the text, between word boundaries if it must. *)
Definition occurs (p : literal) (s : text) (i : nat) : Prop :=
  (i ≤ length s)%nat ∧ lit_text p `prefix_of` drop i s ∧
  (lit_bounded p = true → boundary u (before s i) = true ∧
   boundary u (s !! (i + length (lit_text p))%nat) = true).

Lemma head_lookup {A} (l : list A) : head l = l !! 0%nat.
Proof. by destruct l. Qed.

Lemma before_last pre rest : before (pre ++ rest) (length pre) = last pre.
Proof.
  destruct pre as [|c pre _] using rev_ind; [done|].
  rewrite last_snoc, length_app. cbn. rewrite Nat.add_1_r. cbn.
  rewrite <- app_assoc. by apply list_lookup_middle.
Qed.

Lemma matches_at_occurs p pre rest :
  matches_at u p (last pre) rest = true ↔ occurs p (pre ++ rest) (length pre).
Proof.
  unfold matches_at, occurs. rewrite length_app, drop_app_length, before_last, head_lookup, lookup_drop.
  rewrite (lookup_app_r pre rest) by lia.
  replace (length pre + length (lit_text p) - length pre)%nat with (length (lit_text p) + 0)%nat by lia.
  rewrite andb_true_iff, orb_true_iff, andb_true_iff, negb_true_iff, bool_decide_eq_true.
  destruct (lit_bounded p); split; intros; destruct_and?; split_and?; naive_solver lia.
Qed.

Lemma finditer_sound p rest : ∀ pre skip span,
  span ∈ finditer u p (last pre) skip (length pre) rest →
  (length pre + skip ≤ span.1)%nat ∧ span.2 = (span.1 + length (lit_text p))%nat ∧
  occurs p (pre ++ rest) span.1.
Proof.
  assert (∀ pre skip rest span,
    span ∈ (if match skip with O => matches_at u p (last pre) rest | S _ => false end
            then [(length pre, length pre + length (lit_text p))%nat] else []) →
    (length pre + skip ≤ span.1)%nat ∧ span.2 = (span.1 + length (lit_text p))%nat ∧
    occurs p (pre ++ rest) span.1) as Hhere.
  { intros pre skip rest' span. destruct skip as [|k]; [|by intros ?%not_elem_of_nil].
    destruct (matches_at u p (last pre) rest') eqn:E; [|by intros ?%not_elem_of_nil].
    intros ->%list_elem_of_singleton. cbn. rewrite Nat.add_0_r. split_and!; [done..|by apply matches_at_occurs]. }
  induction rest as [|c rest IH]; intros pre skip span; cbn [finditer]; [apply Hhere|].
  rewrite elem_of_app. intros [H|H]; [by apply Hhere in H|].
  specialize (IH (pre ++ [c])). rewrite last_snoc, length_app in IH. cbn in IH.
  rewrite Nat.add_1_r in IH. apply IH in H as (Hle & Hend & Hocc).
  rewrite <- app_assoc in Hocc. split_and!; [|done..]. destruct skip; cbn in *; lia.
Qed.

(** One match ends before the next one starts. *)
Definition spans_apart (a b : nat * nat) : Prop := (a.2 ≤ b.1)%nat ∧ (a.1 < b.1)%nat.

Lemma finditer_apart p rest : ∀ pre skip,
  StronglySorted spans_apart (finditer u p (last pre) skip (length pre) rest).
Proof.
  induction rest as [|c rest IH]; intros pre skip; cbn [finditer].
  - destruct (match skip with O => _ | S _ => _ end); repeat constructor.
  - specialize (IH (pre ++ [c])). pose proof (finditer_sound p rest (pre ++ [c])) as Hs.
    rewrite last_snoc, length_app in IH, Hs. cbn in IH, Hs. rewrite Nat.add_1_r in IH, Hs.
    destruct (match skip with O => _ | S _ => _ end); cbn [app]; [|apply IH].
    constructor; [apply IH|]. apply Forall_forall. intros span Hin.
    apply Hs in Hin as (Hle & _ & _). unfold spans_apart. cbn. lia.
Qed.

(** Nothing is missed: an occurrence is reported, or overlaps a match that starts earlier. *)
Lemma finditer_complete p rest : ∀ pre skip i,
  occurs p (pre ++ rest) i → (length pre + skip ≤ i)%nat →
  ∃ span, span ∈ finditer u p (last pre) skip (length pre) rest ∧
    (span.1 = i ∨ span.1 < i < span.2)%nat.
Proof.
  induction rest as [|c rest IH]; intros pre skip i Hocc Hi; cbn [finditer].
  - assert (i = length pre) as -> by (destruct Hocc as [Hl _]; rewrite app_nil_r in Hl; lia).
    assert (skip = 0%nat) as -> by lia. apply matches_at_occurs in Hocc as ->.
    eexists. split; [apply list_elem_of_here|by left].
  - destruct (decide (i = length pre)) as [->|Hne].
    + assert (skip = 0%nat) as -> by lia. apply matches_at_occurs in Hocc as ->.
      eexists. split; [apply list_elem_of_here|by left].
    + destruct (match skip with O => matches_at u p (last pre) (c :: rest) | S _ => false end) eqn:E.
      * destruct (decide (i < length pre + length (lit_text p))%nat) as [Hin|Hout].
        { eexists. split; [apply list_elem_of_here|]. right. cbn. destruct skip; [lia|done]. }
        destruct (IH (pre ++ [c]) (pred (length (lit_text p))) i) as (span & Hspan & Hd).
        { by rewrite <- app_assoc. } { rewrite length_app. cbn. lia. }
        rewrite last_snoc, length_app, Nat.add_1_r in Hspan.
        exists span. split; [by apply elem_of_app; right|done].
      * destruct (IH (pre ++ [c]) (pred skip) i) as (span & Hspan & Hd).
        { by rewrite <- app_assoc. } { rewrite length_app. cbn. lia. }
        rewrite last_snoc, length_app, Nat.add_1_r in Hspan. by exists span.
Qed.

Definition all_matches (p : literal) (s : text) : list (nat * nat) := finditer u p None 0 0 s.

Lemma all_matches_spec p s :
  StronglySorted spans_apart (all_matches p s) ∧
  (∀ span, span ∈ all_matches p s → span.2 = (span.1 + length (lit_text p))%nat ∧ occurs p s span.1) ∧
  (∀ i, occurs p s i → ∃ span, span ∈ all_matches p s ∧ (span.1 = i ∨ span.1 < i < span.2)%nat).
Proof.
  split_and!.
  - apply (finditer_apart p s []).
  - intros span H. by apply (finditer_sound p s [] 0) in H as (_ & ? & ?).
  - intros i H. apply (finditer_complete p s [] 0); [done|cbn; lia].
Qed.

Lemma occurs_text p s i : occurs p s i → take (length (lit_text p)) (drop i s) = lit_text p.
Proof. intros (_ & [k ->] & _). by rewrite take_app_length. Qed.

End Scan.

(** * Which messages match *)

(** A rule stands somewhere in a normalized text. *)
Definition rule_occurs (u : UnicodeData) (config : NormalizationConfig) (r : RiskRule) (t : text) (i : nat) : Prop :=
  occurs u (compile_rule u config r) t i.

Lemma elem_of_find_matches u t config rules m :
  m ∈ find_matches u t config rules ↔
  ∃ r span, r ∈ rules ∧ span ∈ all_matches u (compile_rule u config r) t ∧ m = occurrence r t span.
Proof.
  unfold find_matches. rewrite list_elem_of_bind. setoid_rewrite list_elem_of_fmap.
  unfold all_matches. naive_solver.
Qed.

Lemma find_matches_nonempty u t config rules :
  bool_decide (find_matches u t config rules ≠ []) = true ↔
  ∃ r i, r ∈ rules ∧ rule_occurs u config r t i.
Proof.
  rewrite bool_decide_eq_true. split.
  - intros H. destruct (find_matches u t config rules) as [|m l] eqn:E; [done|].
    assert (m ∈ find_matches u t config rules) as Hm by (rewrite E; apply list_elem_of_here).
    apply elem_of_find_matches in Hm as (r & span & Hr & Hspan & _).
    exists r, span.1. split; [done|]. by apply (all_matches_spec u (compile_rule u config r) t).
  - intros (r & i & Hr & Hi).
    destruct (proj2 (proj2 (all_matches_spec u (compile_rule u config r) t)) i Hi) as (span & Hspan & _).
    assert (occurrence r t span ∈ find_matches u t config rules) as Hm.
    { apply elem_of_find_matches. by exists r, span. }
    intros E. rewrite E in Hm. by apply not_elem_of_nil in Hm.
Qed.

Lemma find_matches_texts u t config rules m :
  m ∈ find_matches u t config rules →
  ∃ r i, r ∈ rules ∧ rule_occurs u config r t i ∧
    m = mkRiskMatch (rr_id r) (rr_pattern r) (normalize_text u (rr_pattern r) config) (Z.of_nat i)
      (Z.of_nat (i + length (normalize_text u (rr_pattern r) config))) (rr_language r) (rr_category r)
      (rr_severity r) (rr_rule_type r).
Proof.
  intros (r & span & Hr & Hspan & ->)%elem_of_find_matches.
  destruct (proj1 (proj2 (all_matches_spec u (compile_rule u config r) t)) span Hspan) as (Hend & Hocc).
  exists r, span.1. split_and!; [done..|]. destruct span as [i j]. cbn in *. subst j. unfold occurrence. cbn.
  replace (i + _ - i)%nat with (length (lit_text (compile_rule u config r))) by (cbn; lia).
  by rewrite (occurs_text u _ t i Hocc).
Qed.

(** C39: the rule matcher is exact: a message is hard-critical, or carries risk signals, just
    when the normalized pattern of one of those rules stands in the normalized message,
    between word boundaries where the rule asks for them; every reported match is such an
    occurrence, quoted with its rule, its position and the text found there; the matches of
    one rule are in order and do not overlap, and every other occurrence of it overlaps a
    reported one that starts before it. *)
Theorem risk_match_exact (u : UnicodeData) (rules : RiskRuleSet) (s : text) :
  let config := rs_normalization rules in
  let t := normalize_text u s config in
  let r := risk_match u rules s in
  (rx_hard_critical r = true ↔
     ∃ rule i, rule ∈ rs_hard_critical rules ∧ rule_occurs u config rule t i) ∧
  (rx_has_risk_signals r = true ↔
     ∃ rule i, rule ∈ rs_risk_signals rules ∧ rule_occurs u config rule t i) ∧
  (∀ m, m ∈ rx_matches r → ∃ rule i, rule ∈ rs_hard_critical rules ++ rs_risk_signals rules ∧
     rule_occurs u config rule t i ∧
     let found := normalize_text u (rr_pattern rule) config in
     m = mkRiskMatch (rr_id rule) (rr_pattern rule) found (Z.of_nat i) (Z.of_nat (i + length found))
       (rr_language rule) (rr_category rule) (rr_severity rule) (rr_rule_type rule)) ∧
  (∀ rule, rule ∈ rs_hard_critical rules ++ rs_risk_signals rules →
     let spans := all_matches u (compile_rule u config rule) t in
     (∀ span, span ∈ spans → occurrence rule t span ∈ rx_matches r) ∧
     StronglySorted spans_apart spans ∧
     ∀ i, rule_occurs u config rule t i →
       ∃ span, span ∈ spans ∧ (span.1 = i ∨ span.1 < i < span.2)%nat).
Proof.
  intros config t r. split_and!; [apply find_matches_nonempty..| |].
  - intros m [(x & i & ? & ? & ->)%find_matches_texts|(x & i & ? & ? & ->)%find_matches_texts]%elem_of_app;
      exists x, i; rewrite elem_of_app; auto.
  - intros rule Hrule spans. destruct (all_matches_spec u (compile_rule u config rule) t) as (? & _ & ?).
    split_and!; [|done..]. intros span Hspan. unfold rx_matches. rewrite elem_of_app.
    apply elem_of_app in Hrule as [?|?]; [left|right]; apply elem_of_find_matches; by exists rule, span.
Qed.

(** * Rule files *)

Definition blank (s : text) : Prop := Forall (λ c, space_point c = true) s.

(** What a rule of a loaded section satisfies. *)
Record rule_ok (t : RiskRuleType) (r : RiskRule) : Prop := {
  ro_type : rr_rule_type r = t;
  ro_severity : rr_severity r = sv_critical ↔ t = rt_hard_critical;
  ro_pattern : ¬ blank (rr_pattern r);
}.

Record rule_set_ok (rules : RiskRuleSet) : Prop := {
  ruo_hard : Forall (rule_ok rt_hard_critical) (rs_hard_critical rules);
  ruo_signals : Forall (rule_ok rt_risk_signal) (rs_risk_signals rules);
  ruo_ids : NoDup (rr_id <$> rs_hard_critical rules ++ rs_risk_signals rules);
}.

(** The file that says exactly these rules. *)
Definition field (key : string) (value : json) : text * json := (code_points key, value).
Definition name_of {A} `{EqDecision A} (choices : list (string * A)) (a : A) : json :=
  match list_find (λ c, c.2 = a) choices with
  | Some (_, (s, _)) => JString (code_points s)
  | None => JNull
  end.

Definition dump_rule (r : RiskRule) : json :=
  JObject [field "id" (JString (rr_id r)); field "pattern" (JString (rr_pattern r));
    field "match_type" (name_of MATCH_TYPES (rr_match_type r));
    field "language" (name_of RISK_LANGUAGES (rr_language r));
    field "category" (name_of RISK_CATEGORIES (rr_category r));
    field "severity" (name_of RISK_SEVERITIES (rr_severity r));
    field "rule_type" (JString (code_points (rule_type_name (rr_rule_type r))))].

Definition dump_normalization (c : NormalizationConfig) : json :=
  JObject [field "unicode_form" (name_of UNICODE_FORMS (nc_unicode_form c));
    field "casefold" (JBool (nc_casefold c)); field "collapse_whitespace" (JBool (nc_collapse_whitespace c));
    field "normalize_apostrophes" (JBool (nc_normalize_apostrophes c))].

Definition dump_rules (rules : RiskRuleSet) : json :=
  JObject [field "schema_version" (JNumber 1); field "normalization" (dump_normalization (rs_normalization rules));
    field "hard_critical" (JArray (dump_rule <$> rs_hard_critical rules));
    field "risk_signals" (JArray (dump_rule <$> rs_risk_signals rules))].

Lemma blank_spec s : forallb space_point s = true ↔ blank s.
Proof. unfold blank. rewrite forallb_forall, Forall_forall. by setoid_rewrite list_elem_of_In. Qed.

Lemma parse_rule_ok t item r : parse_rule t item = Ok r → rule_ok t r.
Proof.
  intros H. unfold parse_rule in H. inv_ok. split; cbn.
  - done.
  - repeat case_bool_decide; destruct t; naive_solver.
  - rewrite <- blank_spec. congruence.
Qed.

Lemma parse_dumped t i p m l c v ty :
  parse_rule t (dump_rule (mkRiskRule i p m l c v ty)) =
  (raise_if (forallb space_point p) RiskRuleConfigError;;;
   let* m := require_choice (name_of MATCH_TYPES m) MATCH_TYPES in
   let* l := require_choice (name_of RISK_LANGUAGES l) RISK_LANGUAGES in
   let* c := require_choice (name_of RISK_CATEGORIES c) RISK_CATEGORIES in
   let* v := require_choice (name_of RISK_SEVERITIES v) RISK_SEVERITIES in
   raise_if (bool_decide (code_points (rule_type_name ty) ≠ code_points (rule_type_name t))) RiskRuleConfigError;;;
   raise_if (bool_decide (t = rt_hard_critical) && bool_decide (v ≠ sv_critical)) RiskRuleConfigError;;;
   raise_if (bool_decide (t = rt_risk_signal) && bool_decide (v = sv_critical)) RiskRuleConfigError;;;
   Ok (mkRiskRule i p m l c v t)).
Proof. reflexivity. Qed.

Lemma choose_named_match m : require_choice (name_of MATCH_TYPES m) MATCH_TYPES = Ok m.
Proof. by destruct m. Qed.
Lemma choose_named_language l : require_choice (name_of RISK_LANGUAGES l) RISK_LANGUAGES = Ok l.
Proof. by destruct l. Qed.
Lemma choose_named_category c : require_choice (name_of RISK_CATEGORIES c) RISK_CATEGORIES = Ok c.
Proof. by destruct c. Qed.
Lemma choose_named_severity v : require_choice (name_of RISK_SEVERITIES v) RISK_SEVERITIES = Ok v.
Proof. by destruct v. Qed.

Lemma parse_dump_rule t r : rule_ok t r → parse_rule t (dump_rule r) = Ok r.
Proof.
  intros [Ht Hs Hp]. rewrite <- blank_spec, not_true_iff_false in Hp.
  destruct r as [i p m l c v ty]; cbn in Ht, Hs, Hp. subst ty.
  rewrite parse_dumped, Hp, choose_named_match, choose_named_language, choose_named_category,
    choose_named_severity. cbn [raise_if res_bind].
  rewrite (bool_decide_eq_false_2 (code_points _ ≠ _)) by tauto. cbn [raise_if res_bind].
  destruct t, v; naive_solver.
Qed.

Lemma parse_rules_ok t items rs : parse_rules t items = Ok rs → Forall (rule_ok t) rs.
Proof.
  revert rs. induction items as [|item items IH]; intros rs H; cbn in H; [by injection H as <-|].
  inv_ok. constructor; [by eapply parse_rule_ok|by apply IH].
Qed.

Lemma parse_dump_rules t rs : Forall (rule_ok t) rs → parse_rules t (dump_rule <$> rs) = Ok rs.
Proof.
  induction 1 as [|r rs Hr _ IH]; [done|]. cbn [fmap list_fmap parse_rules].
  rewrite parse_dump_rule by done. cbn [res_bind]. by rewrite IH.
Qed.

Lemma parse_dump_normalization c : parse_normalization (dump_normalization c) = Ok c.
Proof. destruct c as [[] [] [] []]; vm_compute; reflexivity. Qed.

Lemma load_dumped c hard signals :
  load_risk_rules (dump_rules (mkRiskRuleSet c hard signals)) =
  (let* normalization := parse_normalization (dump_normalization c) in
   let* hard := parse_rules rt_hard_critical (dump_rule <$> hard) in
   let* signals := parse_rules rt_risk_signal (dump_rule <$> signals) in
   raise_if (negb (bool_decide (NoDup (rr_id <$> hard ++ signals)))) RiskRuleConfigError;;;
   Ok (mkRiskRuleSet normalization hard signals)).
Proof. reflexivity. Qed.

(** A rule file that loads gives a well-formed rule set: every hard rule is critical, no
    signal rule is, no pattern is blank and no two rules share an id; conversely every
    well-formed rule set is loaded, unchanged, from the file that says it. *)
Theorem load_risk_rules_exact (payload : json) (rules : RiskRuleSet) :
  (load_risk_rules payload = Ok rules → rule_set_ok rules) ∧
  (rule_set_ok rules → load_risk_rules (dump_rules rules) = Ok rules).
Proof.
  split.
  - intros H. unfold load_risk_rules, parse_rule_section in H. inv_ok.
    repeat match goal with H : match ?v with _ => _ end = Ok _ |- _ => destruct v; try discriminate H end.
    split; cbn; [by eapply parse_rules_ok..|]. bools. done.
  - intros [H1 H2 H3]. destruct rules as [c hard signals]; cbn in H1, H2, H3.
    rewrite load_dumped, parse_dump_normalization. cbn [res_bind]. rewrite parse_dump_rules by done.
    cbn [res_bind]. rewrite parse_dump_rules by done. cbn [res_bind].
    by rewrite bool_decide_eq_true_2.
Qed.

(** * Worked examples *)

(** A character database for ASCII text. *)
Definition ascii_lower (c : N) : N := if ((65 <=? c) && (c <=? 90))%N then (c + 32)%N else c.
Definition ascii_alnum (c : N) : bool :=
  ((48 <=? c) && (c <=? 57) || (65 <=? c) && (c <=? 90) || (97 <=? c) && (c <=? 122))%N.
Definition demo_unicode : UnicodeData := mkUnicodeData (λ _ s, s) (fmap ascii_lower) ascii_alnum.

(** Two of the packaged rules. *)
Definition demo_rules : RiskRuleSet :=
  mkRiskRuleSet default_normalization
    [mkRiskRule (code_points "hard-violence-en-001") (code_points "i will kill you") mt_phrase lang_en
       rk_violence sv_critical rt_hard_critical]
    [mkRiskRule (code_points "signal-violence-en-001") (code_points "you will regret this") mt_phrase lang_en
       rk_violence sv_medium rt_risk_signal].

Lemma demo_rules_ok : rule_set_ok demo_rules.
Proof.
  split; [repeat constructor; cbn; try done; intros H; by inversion H..|].
  apply (bool_decide_unpack _). vm_compute. exact I.
Qed.

Definition demo_threat : text := code_points "Fine,  I WILL kill you.".

Lemma load_risk_rules_exact_witness :
  load_risk_rules (JArray []) = Err RiskRuleConfigError ∧
  load_risk_rules (dump_rules demo_rules) = Ok demo_rules ∧ rule_set_ok demo_rules.
Proof.
  split; [reflexivity|].
  pose proof (proj2 (load_risk_rules_exact JNull demo_rules) demo_rules_ok) as H.
  split; [exact H|exact (proj1 (load_risk_rules_exact _ _) H)].
Defined.

Lemma risk_match_exact_witness :
  (rm_start <$> rx_matches (risk_match demo_unicode demo_rules demo_threat)) = [6] ∧
  rx_matches (risk_match demo_unicode demo_rules (code_points "I will kill your bill")) = [] ∧
  (rx_hard_critical (risk_match demo_unicode demo_rules demo_threat) = true ↔
     ∃ rule i, rule ∈ rs_hard_critical demo_rules ∧
       rule_occurs demo_unicode default_normalization rule
         (normalize_text demo_unicode demo_threat default_normalization) i).
Proof.
  do 2 (split; [vm_compute; reflexivity|]).
  exact (proj1 (risk_match_exact demo_unicode demo_rules demo_threat)).
Defined.
