(* ===== verification/Conversation.v ===== *)
(** The state a conversation turn carries through the graph, and where the graph goes next:
    [schemas.py], [state.py] and [routing.py]. *)
From S2P Require Import Prelude OperationModels CaseModels CasePolicy RiskMatcher.

(** * Order numbers and references

    Order numbers and references to an earlier order in a message: [order_context.py].  The
    regular expressions are spelled out as the scans they perform. *)

(** [ORDER_ID_PATTERN.fullmatch] *)
Definition order_id_pattern_fullmatch (s : string) : bool := order_id_ok s.

Section References.
Context (u : UnicodeData).

Definition lower_letter (c : N) : N := if ((65 <=? c) && (c <=? 90))%N then (c + 32)%N else c.

(** A pattern character under [re.IGNORECASE]: U+0130 and U+0131 also match an i, and U+017F
    an s. *)
Definition same_letter (p c : N) : bool :=
  ((lower_letter c =? p) || (p =? 105) && ((c =? 304) || (c =? 305)) || (p =? 115) && (c =? 383))%N.

Fixpoint strip_literal (p s : text) : option text :=
  match p, s with
  | [], _ => Some s
  | x :: p', c :: s' => if same_letter x c then strip_literal p' s' else None
  | _ :: _, [] => None
  end.

Fixpoint skip_spaces (s : text) : text :=
  match s with
  | [] => []
  | c :: s' => if space_point c then skip_spaces s' else s
  end.

(** [first\s+second\b] at the start of [s] *)
Definition two_words (first second : string) (s : text) : bool :=
  match strip_literal (code_points first) s with
  | Some (c :: rest) =>
      space_point c &&
      match strip_literal (code_points second) (skip_spaces rest) with
      | Some rest => boundary u (head rest)
      | None => false
      end
  | _ => false
  end.

(** [\b(?:firsts)\s+(?:seconds)\b] somewhere in [s]; the patterns start and end with letters. *)
Fixpoint search_two_words (firsts seconds : list string) (prev : option N) (s : text) : bool :=
  boundary u prev && existsb (λ a, existsb (λ b, two_words a b s) seconds) firsts
  || match s with [] => false | c :: s' => search_two_words firsts seconds (Some c) s' end.

(** One of the literals, somewhere in [s] *)
Fixpoint search_any (literals : list text) (s : text) : bool :=
  existsb (λ l, bool_decide (l `prefix_of` s)) literals
  || match s with [] => false | _ :: s' => search_any literals s' end.

(** The demonstratives of the Chinese pattern, followed by the word for order. *)
Definition chinese_references : list text :=
  (λ l, l ++ [35746; 21333]%N) <$>
  [[36825; 20010]; [37027; 20010]; [36825; 31508]; [37027; 31508]; [21018; 25165; 30340];
   [19978; 19968; 20010]; [19978; 19968; 31508]; [21516; 19968; 20010]; [21516; 19968; 31508]]%N.

Definition references_previous_order (s : text) : bool :=
  search_two_words ["this"; "that"; "the same"; "previous"; "last"] ["order"] None s
  || search_two_words ["refund"; "return"] ["it"; "this"; "that"] None s
  || search_any chinese_references s.

End References.

(** * Structured model outputs *)

Inductive Intent :=
  | in_refund_request | in_order_inquiry | in_complaint | in_cancellation_request
  | in_return_request | in_exchange_request | in_delivery_issue | in_support_case_status.
Inductive FormalComplaintKind := fc_ordinary | fc_staff_conduct | fc_other_formal.

#[export] Instance Intent_eq_dec : EqDecision Intent.
Proof. solve_decision. Defined.
#[export] Instance FormalComplaintKind_eq_dec : EqDecision FormalComplaintKind.
Proof. solve_decision. Defined.

Record Route := mkRoute { rte_step : Intent; rte_human_handoff_requested : bool }.

Record OperationRequestExtraction := mkExtraction {
  ex_operation_type : option OperationType;
  ex_reason : option OperationReason;
  ex_delivery_issue_type : option DeliveryIssueType;
  ex_replacement_variant_id : option string;
  ex_investigation_requested : bool;
  ex_ambiguous : bool;
}.

(** [OperationRequestExtraction.validate_shape] *)
Definition validate_shape (x : OperationRequestExtraction) : res unit :=
  if ex_ambiguous x then
    raise_if (bool_decide (is_Some (ex_operation_type x)) || bool_decide (is_Some (ex_reason x))
              || bool_decide (is_Some (ex_delivery_issue_type x))
              || bool_decide (is_Some (ex_replacement_variant_id x)))
      (ValueError "ambiguous extraction must not select an operation")
  else if bool_decide (is_Some (ex_delivery_issue_type x)) then
    raise_if (bool_decide (is_Some (ex_operation_type x)) || bool_decide (is_Some (ex_reason x)))
      (ValueError "a delivery issue cannot also contain an operation")
  else
    raise_if (bool_decide (ex_operation_type x = None) || bool_decide (ex_reason x = None))
      (ValueError "an operation extraction requires operation_type and reason");;;
    raise_if (bool_decide (ex_operation_type x = Some op_exchange)
              && bool_decide (ex_replacement_variant_id x = None))
      (ValueError "an exchange extraction requires replacement_variant_id");;;
    raise_if (bool_decide (ex_operation_type x ≠ Some op_exchange)
              && bool_decide (is_Some (ex_replacement_variant_id x)))
      (ValueError "only exchange may contain replacement_variant_id").

Definition OperationRequestExtraction_validate (x : OperationRequestExtraction) :
    res OperationRequestExtraction :=
  validating "OperationRequestExtraction" (validate_shape x);;; Ok x.

Record FormalComplaintDetection := mkFormalComplaint {
  fd_complaint_kind : FormalComplaintKind;
  fd_staff_complaint_severity : option StaffComplaintSeverity;
  fd_reason : string;
}.

(** [FormalComplaintDetection.validate_staff_severity] *)
Definition validate_staff_severity (x : FormalComplaintDetection) : res unit :=
  let staff := bool_decide (fd_complaint_kind x = fc_staff_conduct) in
  raise_if (staff && bool_decide (fd_staff_complaint_severity x = None))
    (ValueError "staff_complaint_severity is required for staff_conduct");;;
  raise_if (negb staff && bool_decide (is_Some (fd_staff_complaint_severity x)))
    (ValueError "staff_complaint_severity is only valid for staff_conduct").

Definition FormalComplaintDetection_validate (x : FormalComplaintDetection) : res FormalComplaintDetection :=
  validating "FormalComplaintDetection" (validate_staff_severity x);;; Ok x.

Record OrderDetection := mkOrderDetection { dt_has_order_id : bool; dt_order_id : option string }.

Record SemanticRiskDetection := mkSemanticRisk {
  sr_risk_level : SemanticRiskLevel;
  sr_categories : list SemanticRiskCategory;
  sr_reason : string;
}.

(** * Messages *)

(** A chat message.  The content of a human message is [None] when it is not text, its
    identifier when it is not a string. *)
Inductive message :=
  | HumanMessage (id : option string) (content : option string)
  | AIMessage (content : string).

(** * State *)

(** The order fields of the inquiry and refund flows: [order_info]; a date is a day. *)
Record OrderData := mkOrderData {
  ord_order_id : string;
  ord_product_name : string;
  ord_status : string;
  ord_refunded : bool;
  ord_amount : Q;
  ord_delivery_date : option Z;
}.

(** The fields of [RefundState], grouped by who writes them; a missing key reads as [None] or
    as the falsy value of its type.  [new_turn_state] resets all groups but the risk facts. *)
Record RiskFacts := mkRiskFacts {
  risk_hard_critical : bool;
  risk_has_signals : bool;
  risk_rule_matches : list RiskMatch;
  semantic_risk_level : option SemanticRiskLevel;
  semantic_risk_categories : list SemanticRiskCategory;
  semantic_risk_reason : string;
  risk_order_choice : option string;
  risk_requires_human_review : bool;
}.

Record OrderFacts := mkOrderFacts {
  of_order_id : option string;
  of_order_info : option OrderData;
  of_success : bool;
  of_search_success : bool;
  of_eligible : bool;
  of_requires_manual_review : bool;
  of_order_id_valid : bool;
  of_reason : string;
}.

Record HandoffFacts := mkHandoffFacts {
  human_handoff_requested : bool;
  human_handoff_confirmed : bool;
  staff_complaint_severity : option StaffComplaintSeverity;
  explicit_other_complaint : bool;
  formal_complaint_reason : string;
}.

Record SupportFacts := mkSupportFacts {
  support_case_action : option CaseServiceAction;
  support_case_id : option uuid;
  support_case_type : option CaseType;
  support_case_priority : option CasePriority;
  support_case_status : option CaseStatus;
  support_case_reason_codes : list HandoffReason;
  provider_failure_case_persisted : bool;
}.

Record OperationFacts := mkOperationFacts {
  operation_snapshot : option OrderSnapshot;
  operation_lookup_success : bool;
  operation_extraction : option OperationRequestExtraction;
  operation_ambiguous : bool;
  operation_outcome : option string;
  operation_policy_reason_codes : list string;
  operation_display_reason : string;
  turn_operation_id : option uuid;
  operation_status : option string;
  operation_service_action : option string;
  turn_provider_reference : option string;
  domain_case_reason_codes : list string;
}.

Record RefundState := mkRefundState {
  messages : list message;
  last_order_id : option string;
  turn_decision : option Intent;
  risk_facts : RiskFacts;
  order_facts : OrderFacts;
  handoff_facts : HandoffFacts;
  support_facts : SupportFacts;
  operation_facts : OperationFacts;
}.

Definition no_risk_facts : RiskFacts := mkRiskFacts false false [] None [] "" None false.
Definition no_order_facts : OrderFacts := mkOrderFacts None None false false false false false "".
Definition no_handoff_facts : HandoffFacts := mkHandoffFacts false false None false "".
Definition no_support_facts : SupportFacts := mkSupportFacts None None None None None [] false.
Definition no_operation_facts : OperationFacts :=
  mkOperationFacts None false None false None [] "" None None None None [].

(** [{**new_turn_state(decision)}] merged into the state *)
Definition new_turn_state (d : option Intent) (s : RefundState) : RefundState :=
  mkRefundState (messages s) (last_order_id s) d (risk_facts s) no_order_facts no_handoff_facts
    no_support_facts no_operation_facts.

(** The [messages] reducer appends. *)
Definition say (content : string) (s : RefundState) : RefundState :=
  mkRefundState (messages s ++ [AIMessage content]) (last_order_id s) (turn_decision s) (risk_facts s)
    (order_facts s) (handoff_facts s) (support_facts s) (operation_facts s).
Definition set_last_order_id (o : option string) (s : RefundState) : RefundState :=
  mkRefundState (messages s) o (turn_decision s) (risk_facts s) (order_facts s) (handoff_facts s)
    (support_facts s) (operation_facts s).
Definition set_risk (f : RiskFacts) (s : RefundState) : RefundState :=
  mkRefundState (messages s) (last_order_id s) (turn_decision s) f (order_facts s) (handoff_facts s)
    (support_facts s) (operation_facts s).
Definition set_order (f : OrderFacts) (s : RefundState) : RefundState :=
  mkRefundState (messages s) (last_order_id s) (turn_decision s) (risk_facts s) f (handoff_facts s)
    (support_facts s) (operation_facts s).
Definition set_handoff (f : HandoffFacts) (s : RefundState) : RefundState :=
  mkRefundState (messages s) (last_order_id s) (turn_decision s) (risk_facts s) (order_facts s) f
    (support_facts s) (operation_facts s).
Definition set_support (f : SupportFacts) (s : RefundState) : RefundState :=
  mkRefundState (messages s) (last_order_id s) (turn_decision s) (risk_facts s) (order_facts s)
    (handoff_facts s) f (operation_facts s).
Definition set_operation (f : OperationFacts) (s : RefundState) : RefundState :=
  mkRefundState (messages s) (last_order_id s) (turn_decision s) (risk_facts s) (order_facts s)
    (handoff_facts s) (support_facts s) f.

(** [latest_text_user_message]: the last human message, if its content is text. *)
Fixpoint last_human (l : list message) : option (option string * option string) :=
  match l with
  | [] => None
  | m :: l' =>
      match last_human l', m with
      | Some h, _ => Some h
      | None, HumanMessage id content => Some (id, content)
      | None, AIMessage _ => None
      end
  end.

Definition latest_text_user_message (s : RefundState) : option (option string * string) :=
  match last_human (messages s) with
  | Some (id, Some content) => Some (id, content)
  | _ => None
  end.

(** * Routing *)

Definition is_low_or_medium (l : option SemanticRiskLevel) : bool :=
  bool_decide (l = Some rl_low) || bool_decide (l = Some rl_medium).

(** The intents of [("cancellation_request", "return_request", "exchange_request",
    "delivery_issue")] *)
Definition operation_intent (d : Intent) : bool :=
  match d with
  | in_cancellation_request | in_return_request | in_exchange_request | in_delivery_issue => true
  | _ => false
  end.
Definition order_query_intent (d : Intent) : bool :=
  match d with in_refund_request | in_order_inquiry => true | _ => false end.

Definition risk_level (s : RefundState) : option SemanticRiskLevel := semantic_risk_level (risk_facts s).

Definition route_after_risk_rules (s : RefundState) : res string :=
  Ok (if risk_hard_critical (risk_facts s) then "critical_risk" else "semantic_risk").

Definition route_after_semantic_risk (s : RefundState) : res string :=
  match risk_level s with
  | Some (rl_high | rl_critical) => Ok "critical_risk"
  | Some (rl_none | rl_low | rl_medium) => Ok "intent"
  | None => Err (ValueError "Unexpected semantic risk level")
  end.

Definition route_by_intent_and_risk (s : RefundState) : res string :=
  match turn_decision s with
  | None => Ok "finalize"
  | Some in_complaint => Ok "formal_complaint"
  | Some d =>
      if human_handoff_requested (handoff_facts s) then Ok "confirm_human_handoff"
      else if bool_decide (d = in_support_case_status) then Ok "support_case_status"
      else if is_low_or_medium (risk_level s) then Ok "confirm_order_priority"
      else if bool_decide (risk_level s = Some rl_none) then
        Ok (if operation_intent d then "operation_flow" else "order_query")
      else Err (ValueError "Unexpected intent/risk combination")
  end.

Definition route_after_formal_complaint (s : RefundState) : res string :=
  Ok (if human_handoff_requested (handoff_facts s) then "confirm_human_handoff"
      else if is_low_or_medium (risk_level s) then "noncritical_risk" else "complaint").

Definition route_after_human_handoff_declined (s : RefundState) : res string :=
  let none := bool_decide (risk_level s = Some rl_none) in
  match turn_decision s with
  | Some d =>
      if bool_decide (d = in_complaint) && is_low_or_medium (risk_level s) then Ok "handle_noncritical_risk"
      else if bool_decide (d = in_complaint) && none then Ok "handle_complaint"
      else if order_query_intent d && is_low_or_medium (risk_level s) then Ok "confirm_order_priority"
      else if order_query_intent d && none then Ok "detect_order"
      else if operation_intent d && is_low_or_medium (risk_level s) then Ok "confirm_order_priority"
      else if operation_intent d && none then Ok "resume_order_flow"
      else Err (ValueError "Cannot resume self-service flow")
  | None => Err (ValueError "Cannot resume self-service flow")
  end.

Definition route_after_detection (s : RefundState) : res string :=
  Ok (if bool_decide (default "" (of_order_id (order_facts s)) ≠ "") then "search_node" else "finalize").

Definition route_after_order_lookup (s : RefundState) : res string :=
  if negb (of_search_success (order_facts s)) then Ok "finalize"
  else match turn_decision s with
       | Some in_order_inquiry => Ok "order_response"
       | Some in_refund_request => Ok "check_refund_eligibility"
       | _ => Err (ValueError "Unexpected decision after order lookup")
       end.

Definition route_after_policy (s : RefundState) : res string :=
  Ok (if negb (of_eligible (order_facts s)) || of_requires_manual_review (order_facts s)
      then "finalize" else "approval_node").

Definition route_after_order_priority (s : RefundState) : res string :=
  match turn_decision s with
  | Some d => if order_query_intent d then Ok "order_query"
              else if operation_intent d then Ok "operation_flow"
              else Err (ValueError "Unexpected order flow decision")
  | None => Err (ValueError "Unexpected order flow decision")
  end.
