(* ===== verification/Calendar.v ===== *)
(** Python's [datetime] as far as the signing timestamp needs it: the proleptic Gregorian
    calendar, [strftime] and [strptime] for the format [%Y-%m-%dT%H:%M:%SZ].  Below the year
    1000 the text [%Y] gives depends on the C library, so it is a parameter there. *)
From S2P Require Import Prelude OperationModels.

(** * Dates *)

Definition is_leap (year : Z) : bool :=
  (year mod 4 =? 0) && (negb (year mod 100 =? 0) || (year mod 400 =? 0)).

(** Days before the first of January of a year, counted from the first of January of 1. *)
Definition days_before_year (year : Z) : Z :=
  let y := year - 1 in y * 365 + y / 4 - y / 100 + y / 400.

Definition month_lengths (year : Z) : list Z :=
  [31; if is_leap year then 29 else 28; 31; 30; 31; 30; 31; 31; 30; 31; 30; 31].

Definition days_in_month (year month : Z) : Z :=
  nth (Z.to_nat (month - 1)) (month_lengths year) 0.

Definition sum_days (l : list Z) : Z := foldr Z.add 0 l.

Definition days_before_month (year month : Z) : Z :=
  sum_days (take (Z.to_nat (month - 1)) (month_lengths year)).

Record civil := mkCivil {
  cv_year : Z;
  cv_month : Z;
  cv_day : Z;
  cv_hour : Z;
  cv_minute : Z;
  cv_second : Z;
}.

(** What [datetime(...)] accepts. *)
Definition civil_ok (c : civil) : bool :=
  (1 <=? cv_year c) && (cv_year c <=? 9999) && (1 <=? cv_month c) && (cv_month c <=? 12)
  && (1 <=? cv_day c) && (cv_day c <=? days_in_month (cv_year c) (cv_month c))
  && (0 <=? cv_hour c) && (cv_hour c <=? 23) && (0 <=? cv_minute c) && (cv_minute c <=? 59)
  && (0 <=? cv_second c) && (cv_second c <=? 59).

(** The first of January of 1970, as a day number. *)
Definition epoch_day : Z := 719162.

Definition day_number (c : civil) : Z :=
  days_before_year (cv_year c) + days_before_month (cv_year c) (cv_month c) + (cv_day c - 1).

Definition instant_of (c : civil) : instant :=
  seconds ((day_number c - epoch_day) * 86400 + cv_hour c * 3600 + cv_minute c * 60 + cv_second c).

(** The year a day falls in, from an estimate that is at most one year late. *)
Definition year_of (day : Z) : Z :=
  let y := day * 400 / 146097 + 1 in
  if day <? days_before_year y then y - 1
  else if days_before_year (y + 1) <=? day then y + 1 else y.

(** The month a day of the year falls in, and the day of that month, from 0. *)
Fixpoint month_of (lengths : list Z) (month day : Z) : Z * Z :=
  match lengths with
  | [] => (month, day)
  | l :: lengths' => if day <? l then (month, day) else month_of lengths' (month + 1) (day - l)
  end.

Definition civil_of (t : instant) : civil :=
  let s := t / microseconds_per_second in
  let day := s / 86400 + epoch_day in
  let year := year_of day in
  let '(month, d) := month_of (month_lengths year) 1 (day - days_before_year year) in
  mkCivil year month (d + 1) (s mod 86400 / 3600) (s mod 3600 / 60) (s mod 60).

(** * Text *)

Definition digit (n : Z) : ascii := ascii_of_N (48 + Z.to_N n).
Definition digit_value (c : ascii) : Z := Z.of_N (N_of_ascii c) - 48.

Definition digits2 (n : Z) : string := String (digit (n / 10)) (String (digit (n mod 10)) "").
Definition digits4 (n : Z) : string := digits2 (n / 100) +:+ digits2 (n mod 100).

(** [%Y]: four digits, exactly. *)
Definition parse_year (s : string) : option Z :=
  match s with
  | String a (String b (String c (String d ""))) =>
      if is_digit a && is_digit b && is_digit c && is_digit d
      then Some (digit_value a * 1000 + digit_value b * 100 + digit_value c * 10 + digit_value d)
      else None
  | _ => None
  end.

(** [%m], [%H], [%M], [%S]: one or two digits. *)
Definition parse_number (s : string) : option Z :=
  match s with
  | String a "" => if is_digit a then Some (digit_value a) else None
  | String a (String b "") =>
      if is_digit a && is_digit b then Some (digit_value a * 10 + digit_value b) else None
  | _ => None
  end.

(** [%d] accepts a blank in place of the first digit as well. *)
Definition parse_day (s : string) : option Z :=
  match s with
  | String " " (String b "") => parse_number (String b "")
  | _ => parse_number s
  end.

(** The literals of the format match in either case. *)
Fixpoint split_letter (upper lower : ascii) (s : string) : option (string * string) :=
  match s with
  | EmptyString => None
  | String d s' =>
      if Ascii.eqb upper d || Ascii.eqb lower d then Some (EmptyString, s')
      else match split_letter upper lower s' with
           | Some (a, b) => Some (String d a, b)
           | None => None
           end
  end.

(** [datetime.strptime(s, TIMESTAMP_FORMAT)]; [None] is its [ValueError]. *)
Definition strptime (s : string) : option instant :=
  '(year, s) ← split_once "-" s;
  '(month, s) ← split_once "-" s;
  '(day, s) ← split_letter "T" "t" s;
  '(hour, s) ← split_once ":" s;
  '(minute, s) ← split_once ":" s;
  '(second, rest) ← split_letter "Z" "z" s;
  year ← parse_year year;
  month ← parse_number month;
  day ← parse_day day;
  hour ← parse_number hour;
  minute ← parse_number minute;
  second ← parse_number second;
  let c := mkCivil year month day hour minute second in
  if civil_ok c && negb (nonempty rest) then Some (instant_of c) else None.

Section Format.
(** The text of a year below 1000. *)
Context (early_year : Z → string).

Definition year_text (year : Z) : string :=
  if 1000 <=? year then digits4 year else early_year year.

(** [t.strftime(TIMESTAMP_FORMAT)] *)
Definition strftime (t : instant) : string :=
  let c := civil_of t in
  year_text (cv_year c) +:+ "-" +:+ digits2 (cv_month c) +:+ "-" +:+ digits2 (cv_day c) +:+ "T" +:+
  digits2 (cv_hour c) +:+ ":" +:+ digits2 (cv_minute c) +:+ ":" +:+ digits2 (cv_second c) +:+ "Z".
End Format.

(** * Properties *)

(** [lia] knows division and remainder. *)
#[local] Ltac Zify.zify_post_hook ::= Z.to_euclidean_division_equations.

Lemma digit_code n : 0 ≤ n ≤ 9 → N_of_ascii (digit n) = (48 + Z.to_N n)%N.
Proof. intros Hn. unfold digit. apply N_ascii_embedding. lia. Qed.

Lemma digit_is_digit n : 0 ≤ n ≤ 9 → is_digit (digit n) = true.
Proof. intros Hn. unfold is_digit. rewrite digit_code by done.
  apply andb_true_iff; split; apply N.leb_le; lia.
Qed.

Lemma digit_value_digit n : 0 ≤ n ≤ 9 → digit_value (digit n) = n.
Proof. intros Hn. unfold digit_value. rewrite digit_code by done. lia. Qed.

Lemma digit_not c n : 0 ≤ n ≤ 9 → is_digit c = false → Ascii.eqb c (digit n) = false.
Proof.
  intros Hn Hc. apply Ascii.eqb_neq. intros ->. by rewrite digit_is_digit in Hc.
Qed.

Lemma tens n : 0 ≤ n < 100 → 0 ≤ n / 10 ≤ 9 ∧ 0 ≤ n mod 10 ≤ 9.
Proof. lia. Qed.

Lemma parse_digits2 n : 0 ≤ n < 100 → parse_number (digits2 n) = Some n.
Proof.
  intros Hn. destruct (tens n Hn) as [H1 H2]. unfold digits2, parse_number.
  rewrite !digit_is_digit, !digit_value_digit by done. cbn. f_equal. lia.
Qed.

Lemma parse_day_digits2 n : 0 ≤ n < 100 → parse_day (digits2 n) = Some n.
Proof.
  intros Hn. rewrite <- (parse_digits2 n Hn). destruct (tens n Hn) as [H1 _].
  unfold digits2, parse_day. destruct (digit (n / 10)) as [[][][][][][][][]] eqn:E; try done.
  by apply (f_equal is_digit) in E; rewrite digit_is_digit in E.
Qed.

Lemma parse_digits4 n : 0 ≤ n < 10000 → parse_year (digits4 n) = Some n.
Proof.
  intros Hn. destruct (tens (n / 100)) as [H1 H2]; [lia|]. destruct (tens (n mod 100)) as [H3 H4]; [lia|].
  cbv beta iota delta [digits4 digits2 String.append parse_year].
  rewrite !digit_is_digit, !digit_value_digit by done. cbn. f_equal. lia.
Qed.

Lemma has_char_digits2 c n : is_digit c = false → 0 ≤ n < 100 → has_char c (digits2 n) = false.
Proof.
  intros Hc Hn. destruct (tens n Hn). unfold digits2. cbn. by rewrite !digit_not.
Qed.

Lemma has_char_digits4 c n : is_digit c = false → 0 ≤ n < 10000 → has_char c (digits4 n) = false.
Proof.
  intros Hc Hn. unfold digits4. rewrite has_char_app, !has_char_digits2 by (done || lia). done.
Qed.

Lemma split_letter_app u l a b :
  has_char u a = false → has_char l a = false → split_letter u l (a +:+ String u b) = Some (a, b).
Proof.
  induction a as [|d a IH].
  - change ("" +:+ String u b) with (String u b). cbn. by rewrite Ascii.eqb_refl.
  - change (String d a +:+ String u b) with (String d (a +:+ String u b)). cbn.
    intros [-> Hu]%orb_false_iff [-> Hl]%orb_false_iff. cbn. by rewrite IH.
Qed.

Lemma singleton_append c s : String c "" +:+ s = String c s.
Proof. done. Qed.

(** ** The calendar *)

Lemma year_length y :
  days_before_year (y + 1) = days_before_year y + (if is_leap y then 366 else 365).
Proof. unfold days_before_year, is_leap. cbn. destruct (_ && _) eqn:E; lia. Qed.

Lemma year_of_bounds day :
  days_before_year (year_of day) ≤ day < days_before_year (year_of day + 1).
Proof.
  unfold year_of. set (y := day * 400 / 146097 + 1).
  assert (H1 : days_before_year (y - 1) ≤ day) by (unfold days_before_year; subst y; lia).
  assert (H2 : day < days_before_year (y + 2)) by (unfold days_before_year; subst y; lia).
  destruct (Z.ltb_spec day (days_before_year y)).
  - split; [done|]. by replace (y - 1 + 1) with y by lia.
  - destruct (Z.leb_spec (days_before_year (y + 1)) day); [|done].
    by replace (y + 1 + 1) with (y + 2) by lia.
Qed.

Lemma days_before_year_mono y y' : y ≤ y' → days_before_year y ≤ days_before_year y'.
Proof. unfold days_before_year. lia. Qed.

Lemma year_lengths_sum y : sum_days (month_lengths y) = if is_leap y then 366 else 365.
Proof. unfold month_lengths. by destruct (is_leap y). Qed.

Lemma month_of_spec lengths month day : 0 ≤ day < sum_days lengths →
  let '(m, d) := month_of lengths month day in
  month ≤ m < month + Z.of_nat (length lengths) ∧
  sum_days (take (Z.to_nat (m - month)) lengths) + d = day ∧
  0 ≤ d < nth (Z.to_nat (m - month)) lengths 0.
Proof.
  revert month day. induction lengths as [|l lengths IH]; intros month day Hd; cbn in Hd |- *; [lia|].
  destruct (Z.ltb_spec day l) as [Hl|Hl].
  - replace (month - month) with 0 by lia. change (Z.to_nat 0) with O. cbn. lia.
  - specialize (IH (month + 1) (day - l)). destruct (month_of lengths (month + 1) (day - l)) as [m d].
    destruct IH as (H1 & H2 & H3); [unfold sum_days in *; lia|].
    replace (Z.to_nat (m - month)) with (S (Z.to_nat (m - (month + 1)))) by lia.
    cbn in *. fold sum_days in *. unfold sum_days in *. split_and!; lia.
Qed.

(** ** Instants *)

(** [datetime.min] and [datetime.max], in UTC. *)
Definition in_calendar (t : instant) : Prop :=
  instant_of (mkCivil 1 1 1 0 0 0) ≤ t ≤ instant_of (mkCivil 9999 12 31 23 59 59).

Definition whole_second (t : instant) : Prop := t mod microseconds_per_second = 0.

Lemma in_calendar_year t :
  in_calendar t → let c := civil_of t in 1 ≤ cv_year c ≤ 9999.
Proof.
  unfold in_calendar, civil_of. cbv zeta. set (day := t / _ / 86400 + epoch_day).
  change (instant_of (mkCivil 1 1 1 0 0 0)) with (-62135596800000000).
  change (instant_of (mkCivil 9999 12 31 23 59 59)) with 253402300799000000. intros Ht.
  assert (H : 0 ≤ day < 3652059) by (subst day; unfold microseconds_per_second, epoch_day; lia).
  destruct (month_of _ _ _). cbn. pose proof (year_of_bounds day) as [H1 H2].
  split; apply Z.le_ngt; intros Hy.
  - pose proof (days_before_year_mono (year_of day + 1) 1 ltac:(lia)) as H3.
    unfold days_before_year in H3 at 2. cbn in H3. lia.
  - pose proof (days_before_year_mono 10000 (year_of day) ltac:(lia)) as H3.
    unfold days_before_year in H3 at 1. cbn in H3. lia.
Qed.

Lemma civil_of_date t :
  let c := civil_of t in
  1 ≤ cv_month c ≤ 12 ∧ 1 ≤ cv_day c ≤ days_in_month (cv_year c) (cv_month c) ∧
  day_number c = t / microseconds_per_second / 86400 + epoch_day.
Proof.
  unfold civil_of, day_number, days_in_month, days_before_month. cbv zeta.
  set (day := t / _ / 86400 + epoch_day). set (year := year_of day).
  pose proof (year_of_bounds day) as [H1 H2]. rewrite year_length, <- year_lengths_sum in H2. fold year in H1, H2.
  pose proof (month_of_spec (month_lengths year) 1 (day - days_before_year year) ltac:(lia)) as H.
  destruct (month_of _ _ _) as [m d]. cbn [cv_year cv_month cv_day] in *.
  change (Z.of_nat (length (month_lengths year))) with 12 in H.
  destruct H as (Hm & Hs & Hd). split_and!; lia.
Qed.

Lemma civil_of_ok t : in_calendar t → civil_ok (civil_of t) = true.
Proof.
  intros Ht%in_calendar_year. pose proof (civil_of_date t) as (Hm & Hd & _). cbv zeta in *.
  unfold civil_ok. rewrite !andb_true_iff, !Z.leb_le.
  assert (H : 0 ≤ cv_hour (civil_of t) ≤ 23 ∧ 0 ≤ cv_minute (civil_of t) ≤ 59 ∧ 0 ≤ cv_second (civil_of t) ≤ 59).
  { unfold civil_of. cbv zeta. destruct (month_of _ _ _). cbn. lia. }
  lia.
Qed.

Lemma instant_of_civil t :
  instant_of (civil_of t) = seconds (t / microseconds_per_second).
Proof.
  pose proof (civil_of_date t) as (_ & _ & Hn). cbv zeta in Hn.
  unfold instant_of. rewrite Hn. unfold civil_of. cbv zeta. destruct (month_of _ _ _). cbn.
  f_equal. lia.
Qed.

Lemma days_in_month_bound y m : days_in_month y m ≤ 31.
Proof.
  unfold days_in_month. destruct (Z.to_nat (m - 1)) as [|[|[|[|[|[|[|[|[|[|[|[|n]]]]]]]]]]]]; cbn;
    try lia; [by destruct (is_leap y)|by destruct n].
Qed.

Lemma strptime_strftime early_year t :
  in_calendar t → 1000 ≤ cv_year (civil_of t) →
  strptime (strftime early_year t) = Some (seconds (t / microseconds_per_second)).
Proof.
  intros Ht Hy. pose proof (civil_of_ok t Ht) as Hok. pose proof (instant_of_civil t) as Hi.
  unfold strptime, strftime, year_text. set (c := civil_of t) in *.
  rewrite (proj2 (Z.leb_le _ _) Hy). unfold civil_ok in Hok. bools.
  pose proof (days_in_month_bound (cv_year c) (cv_month c)).
  rewrite !singleton_append.
  repeat (first [ rewrite split_once_app by (first [apply has_char_digits2|apply has_char_digits4]; done || lia)
                | rewrite split_letter_app by (apply has_char_digits2; done || lia) ];
          cbn [mbind option_bind]).
  rewrite parse_digits4, !parse_digits2, parse_day_digits2 by lia. cbn [mbind option_bind].
  replace (mkCivil _ _ _ _ _ _) with c by by destruct c.
  pose proof (civil_of_ok t Ht) as Hok'. fold c in Hok'. by rewrite Hok', Hi.
Qed.

(** A signing timestamp is printed without the fraction of a second, and parses back. *)
Lemma strptime_strftime_whole early_year t :
  in_calendar t → 1000 ≤ cv_year (civil_of t) → whole_second t →
  strptime (strftime early_year t) = Some t.
Proof.
  intros Ht Hy Hw. rewrite strptime_strftime by done. f_equal.
  unfold whole_second, seconds, microseconds_per_second in *. lia.
Qed.

Lemma whole_second_instant_of c : whole_second (instant_of c).
Proof. unfold whole_second, instant_of, seconds, microseconds_per_second. lia. Qed.

Lemma strptime_whole s t : strptime s = Some t → whole_second t.
Proof.
  unfold strptime. intros H.
  repeat match goal with H : _ ≫= _ = Some _ |- _ => apply bind_Some in H as ([??] & _ & H) || apply bind_Some in H as (? & _ & H) end.
  case_match; [|done]. injection H as <-. apply whole_second_instant_of.
Qed.
