(* ===== verification/Hmac.v ===== *)
(** Bytes, [str.encode], and [hashlib.sha256] and [hmac] as far as signing needs them:
    SHA-256 after FIPS 180-4, with its constants computed from the primes they come from,
    and HMAC after RFC 2104. *)
From Stdlib Require Export Strings.Byte.
From S2P Require Import Prelude.

Abbreviation bytes := (list byte) (only parsing).

#[export] Instance byte_eq_decision : EqDecision byte := Byte.byte_eq_dec.

Definition byte_of (n : N) : byte := default x00 (Byte.of_N (n mod 256)).

(** [s.encode()]: UTF-8, of the code points below 256 that an [ascii] holds. *)
Definition encode_char (c : ascii) : bytes :=
  let n := N_of_ascii c in
  if (n <? 128)%N then [byte_of n] else [byte_of (192 + n / 64); byte_of (128 + n mod 64)].

Definition encode (s : string) : bytes := mjoin (encode_char <$> String.list_ascii_of_string s).

(** [b.hex()] *)
Fixpoint hexdigest (b : bytes) : string :=
  match b with [] => "" | c :: b' => hex 2 (Byte.to_N c) +:+ hexdigest b' end.

(** * SHA-256 *)

Section Words.
Local Open Scope N_scope.

Definition word_add (x y : N) : N := (x + y) mod 2 ^ 32.
Definition rotate_right (n x : N) : N := N.lor (N.shiftr x n) (N.shiftl x (32 - n) mod 2 ^ 32).

Definition is_prime (n : N) : bool :=
  forallb (λ d, negb (n mod d =? 0)) (N.of_nat <$> seq 2 (N.to_nat n - 2)).

(** The first 64 primes. *)
Definition primes : list N := filter (λ n, is_prime n = true) (N.of_nat <$> seq 2 310).

(** The integer cube root, bit by bit from the highest. *)
Fixpoint cube_root (bits : nat) (acc n : N) : N :=
  match bits with
  | O => acc
  | S k => let r := acc + 2 ^ N.of_nat k in cube_root k (if r * r * r <=? n then r else acc) n
  end.

(** The first 32 bits of the fractional parts of the cube roots of the first 64 primes, and
    of the square roots of the first eight. *)
Definition round_constants : list N :=
  Eval vm_compute in (λ p, cube_root 36 0 (p * 2 ^ 96) mod 2 ^ 32) <$> primes.
Definition initial_words : list N :=
  Eval vm_compute in (λ p, N.sqrt (p * 2 ^ 64) mod 2 ^ 32) <$> take 8 primes.

Record hash_state := mkHash { ha : N; hb : N; hc : N; hd : N; he : N; hf : N; hg : N; hh : N }.

Definition hash_words (s : hash_state) : list N :=
  [ha s; hb s; hc s; hd s; he s; hf s; hg s; hh s].

Definition initial_hash : hash_state :=
  let w i := nth i initial_words 0 in
  mkHash (w 0%nat) (w 1%nat) (w 2%nat) (w 3%nat) (w 4%nat) (w 5%nat) (w 6%nat) (w 7%nat).

Definition schedule_next (w : list N) : N :=
  let x := nth 14 w 0 in
  let y := nth 1 w 0 in
  let s1 := N.lxor (N.lxor (rotate_right 17 x) (rotate_right 19 x)) (N.shiftr x 10) in
  let s0 := N.lxor (N.lxor (rotate_right 7 y) (rotate_right 18 y)) (N.shiftr y 3) in
  word_add (word_add s1 (nth 9 w 0)) (word_add s0 (nth 0 w 0)).

Definition round (s : hash_state) (k w : N) : hash_state :=
  let s1 := N.lxor (N.lxor (rotate_right 6 (he s)) (rotate_right 11 (he s))) (rotate_right 25 (he s)) in
  let choice := N.lxor (N.land (he s) (hf s)) (N.land (N.lnot (he s) 32) (hg s)) in
  let t1 := word_add (hh s) (word_add s1 (word_add choice (word_add k w))) in
  let s0 := N.lxor (N.lxor (rotate_right 2 (ha s)) (rotate_right 13 (ha s))) (rotate_right 22 (ha s)) in
  let majority := N.lxor (N.lxor (N.land (ha s) (hb s)) (N.land (ha s) (hc s))) (N.land (hb s) (hc s)) in
  mkHash (word_add t1 (word_add s0 majority)) (ha s) (hb s) (hc s)
         (word_add (hd s) t1) (he s) (hf s) (hg s).

(** The rounds, with the next sixteen words of the message schedule. *)
Fixpoint rounds (ks w : list N) (s : hash_state) : hash_state :=
  match ks with
  | [] => s
  | k :: ks' => rounds ks' (tail w ++ [schedule_next w]) (round s k (nth 0 w 0))
  end.

Definition compress (s : hash_state) (block : list N) : hash_state :=
  let t := rounds round_constants block s in
  mkHash (word_add (ha s) (ha t)) (word_add (hb s) (hb t)) (word_add (hc s) (hc t))
         (word_add (hd s) (hd t)) (word_add (he s) (he t)) (word_add (hf s) (hf t))
         (word_add (hg s) (hg t)) (word_add (hh s) (hh t)).

(** Big-endian numbers of [k] bytes. *)
Fixpoint big_endian (k : nat) (n : N) : list byte :=
  match k with O => [] | S k' => big_endian k' (n / 256) ++ [byte_of n] end.

Definition of_big_endian (b : list byte) : N := fold_left (λ n c, n * 256 + Byte.to_N c) b 0.

Fixpoint chunks (count size : nat) (b : list byte) : list (list byte) :=
  match count with O => [] | S k => take size b :: chunks k size (drop size b) end.

Definition padded (message : list byte) : list byte :=
  let n := Z.of_nat (length message) in
  message ++ x80 :: repeat x00 (Z.to_nat ((55 - n) mod 64)) ++ big_endian 8 (Z.to_N (8 * n)).

Definition sha256 (message : list byte) : list byte :=
  let p := padded message in
  let blocks := chunks (length p / 64) 64 p in
  let s := fold_left (λ s block, compress s (of_big_endian <$> chunks 16 4 block)) blocks initial_hash in
  mjoin (big_endian 4 <$> hash_words s).

(** * HMAC *)

Definition xor_byte (mask : N) (b : byte) : byte := byte_of (N.lxor mask (Byte.to_N b)).

Definition hmac_key (key : list byte) : list byte :=
  let k := if (64 <? length key)%nat then sha256 key else key in
  k ++ repeat x00 (64 - length k).

(** [hmac.new(key, message, hashlib.sha256).digest()] *)
Definition hmac_sha256 (key message : list byte) : list byte :=
  let k := hmac_key key in
  sha256 ((xor_byte 92 <$> k) ++ sha256 ((xor_byte 54 <$> k) ++ message)).
End Words.

(** * Properties *)

(** Known answers: FIPS 180-4 and RFC 4231. *)
Example sha256_abc :
  hexdigest (sha256 (encode "abc")) = "ba7816bf8f01cfea414140de5dae2223b00361a396177a9cb410ff61f20015ad".
Proof. vm_compute. reflexivity. Qed.

Example sha256_two_blocks :
  hexdigest (sha256 (encode "abcdbcdecdefdefgefghfghighijhijkijkljklmklmnlmnomnopnopq"))
  = "248d6a61d20638b8e5c026930c3e6039a33ce45964ff2167f6ecedd419db06c1".
Proof. vm_compute. reflexivity. Qed.

Example hmac_rfc4231_2 :
  hexdigest (hmac_sha256 (encode "Jefe") (encode "what do ya want for nothing?"))
  = "5bdcc146bf60754e6a042426089575c75a003f089d2739839dec58b964ec3843".
Proof. vm_compute. reflexivity. Qed.

Lemma sha256_length m : length (sha256 m) = 32%nat.
Proof. unfold sha256. cbv zeta. generalize (fold_left (λ s block, compress s (of_big_endian <$> chunks 16 4 block))
  (chunks (length (padded m) / 64) 64 (padded m)) initial_hash). by intros []. Qed.

Lemma byte_hex_shape b : String.length (hex 2 (Byte.to_N b)) = 2%nat ∧ all_chars is_lower_hex (hex 2 (Byte.to_N b)) = true.
Proof. by destruct b. Qed.

Lemma hexdigest_length b : String.length (hexdigest b) = (2 * length b)%nat.
Proof.
  induction b as [|c b IH]; [done|]. cbn [hexdigest length].
  rewrite append_length, (proj1 (byte_hex_shape c)), IH. lia.
Qed.

Lemma hexdigest_lower b : all_chars is_lower_hex (hexdigest b) = true.
Proof.
  induction b as [|c b IH]; [done|]. cbn [hexdigest]. by rewrite all_chars_app, (proj2 (byte_hex_shape c)), IH.
Qed.

Lemma byte_of_to_N b : byte_of (Byte.to_N b) = b.
Proof. by destruct b. Qed.

Lemma to_N_byte_of n : (n < 256)%N → Byte.to_N (byte_of n) = n.
Proof.
  intros Hn. unfold byte_of. rewrite N.mod_small by done.
  destruct (Byte.of_N n) as [b|] eqn:E; cbn; [by apply Byte.to_of_N|].
  apply Byte.of_N_None_iff in E. lia.
Qed.

Lemma hexdigest_inj a b : hexdigest a = hexdigest b → a = b.
Proof.
  revert b. induction a as [|c a IH]; intros [|d b] H; [done|..].
  - apply (f_equal String.length) in H. rewrite !hexdigest_length in H. cbn in H. lia.
  - apply (f_equal String.length) in H. rewrite !hexdigest_length in H. cbn in H. lia.
  - cbn [hexdigest] in H. apply append_inj_len in H as [Hc Hb];
      [|by rewrite !(proj1 (byte_hex_shape _))].
    rewrite (IH b Hb). f_equal. apply hex_inj in Hc. apply (f_equal byte_of) in Hc.
    revert Hc. change (16 ^ N.of_nat 2)%N with 256%N. pose proof (Byte.to_N_bounded c). pose proof (Byte.to_N_bounded d).
    rewrite !N.mod_small by lia. by rewrite !byte_of_to_N.
Qed.

(** ** UTF-8 *)

Lemma encode_cons c s : encode (String c s) = encode_char c ++ encode s.
Proof. done. Qed.

Lemma encode_app a b : encode (a +:+ b) = encode a ++ encode b.
Proof.
  induction a as [|c a IH]; [done|]. change (String c a +:+ b) with (String c (a +:+ b)).
  by rewrite !encode_cons, IH, app_assoc.
Qed.

(** The first character of an encoded text, and the rest. *)
Definition decode_char (b : bytes) : option (ascii * bytes) :=
  match b with
  | [] => None
  | x :: r =>
      if (Byte.to_N x <? 128)%N then Some (ascii_of_N (Byte.to_N x), r)
      else match r with
           | [] => None
           | y :: r' => Some (ascii_of_N ((Byte.to_N x - 192) * 64 + (Byte.to_N y - 128)), r')
           end
  end.

Lemma decode_encode_char c r : decode_char (encode_char c ++ r) = Some (c, r).
Proof. by destruct c as [[][][][][][][][]]. Qed.

Lemma encode_inj a b : encode a = encode b → a = b.
Proof.
  revert b. induction a as [|c a IH]; intros [|d b] H.
  - done.
  - rewrite encode_cons in H. unfold encode_char in H. by case_match.
  - rewrite encode_cons in H. unfold encode_char in H. by case_match.
  - rewrite !encode_cons in H. apply (f_equal decode_char) in H.
    rewrite !decode_encode_char in H. injection H as -> H. by rewrite (IH b H).
Qed.

Lemma encode_char_bytes d :
  forallb (λ b, (128 <=? Byte.to_N b)%N || (b =? byte_of (N_of_ascii d))%byte && (N_of_ascii d <? 128)%N)
    (encode_char d) = true.
Proof. by destruct d as [[][][][][][][][]]. Qed.

(** An ASCII character stands in the encoding only where it stands in the text. *)
Lemma encode_has_char c s :
  (N_of_ascii c < 128)%N → has_char c s = false → byte_of (N_of_ascii c) ∉ encode s.
Proof.
  intros Hc. induction s as [|d s IH]; cbn [has_char].
  - intros _ H. by apply elem_of_nil in H.
  - intros [Hd Hs]%orb_false_iff. rewrite encode_cons, not_elem_of_app. split; [|by apply IH].
    intros Hin. pose proof (encode_char_bytes d) as Hf. rewrite forallb_forall in Hf.
    specialize (Hf _ (proj1 (list_elem_of_In _ _) Hin)). apply orb_true_iff in Hf as [Hf|[Hf Hl]%andb_true_iff].
    + rewrite to_N_byte_of in Hf by lia. apply N.leb_le in Hf. lia.
    + apply Byte.byte_dec_bl, (f_equal Byte.to_N) in Hf. apply N.ltb_lt in Hl.
      rewrite !to_N_byte_of in Hf by lia. apply (f_equal ascii_of_N) in Hf.
      rewrite !ascii_N_embedding in Hf. subst. by rewrite Ascii.eqb_refl in Hd.
Qed.

(** A separator that does not occur on the left of either list splits them. *)
Lemma list_sep_inj {A} (x : A) a a' b b' :
  x ∉ a → x ∉ a' → a ++ x :: b = a' ++ x :: b' → a = a' ∧ b = b'.
Proof.
  revert a'. induction a as [|y a IH]; intros [|y' a'] Ha Ha'; cbn.
  - naive_solver.
  - intros [= <- _]. by destruct Ha'; left.
  - intros [= -> _]. by destruct Ha; left.
  - intros [= -> H]. rewrite not_elem_of_cons in Ha, Ha'. destruct (IH a') as [-> ->]; naive_solver.
Qed.
