(* ===== verification/Envelope.v ===== *)
(** Provider wire contracts: [integrations/models.py].  The command envelope with its
    builders and validator, and the delivery and processing vocabularies. *)
From S2P Require Import Prelude OperationModels CaseModels.

Inductive ProviderCapability := cap_order_query | cap_inventory_query | cap_order_operation.
Inductive ProviderAggregateType := ag_order_operation | ag_support_case.
Inductive ProviderCommandType :=
  | cmd_cancel_order | cmd_return_order | cmd_exchange_order | cmd_delivery_investigation.
Inductive OutboxDeliveryStatus :=
  | ob_pending | ob_processing | ob_retry_scheduled | ob_published | ob_dead.
Inductive InboxProcessingStatus := ib_received | ib_processing | ib_processed | ib_failed.
Inductive ProviderFailureKind :=
  | fk_network_error | fk_timeout | fk_http_retryable | fk_http_client_error
  | fk_provider_rejection | fk_validation_error.

#[export] Instance ProviderCapability_eq_dec : EqDecision ProviderCapability.
Proof. solve_decision. Defined.
#[export] Instance ProviderAggregateType_eq_dec : EqDecision ProviderAggregateType.
Proof. solve_decision. Defined.
#[export] Instance ProviderCommandType_eq_dec : EqDecision ProviderCommandType.
Proof. solve_decision. Defined.
#[export] Instance OutboxDeliveryStatus_eq_dec : EqDecision OutboxDeliveryStatus.
Proof. solve_decision. Defined.
#[export] Instance InboxProcessingStatus_eq_dec : EqDecision InboxProcessingStatus.
Proof. solve_decision. Defined.
#[export] Instance ProviderFailureKind_eq_dec : EqDecision ProviderFailureKind.
Proof. solve_decision. Defined.

Definition RETRYABLE_FAILURE_KINDS (k : ProviderFailureKind) : bool :=
  match k with fk_network_error | fk_timeout | fk_http_retryable => true | _ => false end.

(** Membership of the target in [OUTBOX_DELIVERY_TRANSITIONS[current]]. *)
Definition outbox_transition_allowed (current target : OutboxDeliveryStatus) : bool :=
  match current, target with
  | ob_pending, (ob_processing | ob_dead) => true
  | ob_processing, (ob_published | ob_retry_scheduled | ob_dead) => true
  | ob_retry_scheduled, (ob_processing | ob_dead) => true
  | _, _ => false
  end.

(** Membership of the target in [INBOX_PROCESSING_TRANSITIONS[current]]. *)
Definition inbox_transition_allowed (current target : InboxProcessingStatus) : bool :=
  match current, target with
  | ib_received, (ib_processing | ib_failed) => true
  | ib_processing, (ib_received | ib_processed | ib_failed) => true
  | _, _ => false
  end.

Definition map_provider_command_status (s : ProviderCommandExecutionStatus) :
    OperationRecordStatus :=
  match s with
  | px_accepted => os_submitted
  | px_processing => os_processing
  | px_completed => os_completed
  | px_rejected => os_rejected
  end.

(** * Payloads *)

Record OrderOperationCommandPayload := mkOrderOperationCommandPayload {
  op_order_id : string;
  op_operation_type : OperationType;
  op_reason : OperationReason;
  op_replacement_variant_id : option string;
}.

Record DeliveryInvestigationCommandPayload := mkDeliveryInvestigationCommandPayload {
  dp_order_id : string;
  dp_issue_type : DeliveryIssueType;
}.

Inductive ProviderCommandPayload :=
  | OrderPayload (p : OrderOperationCommandPayload)
  | DeliveryPayload (p : DeliveryInvestigationCommandPayload).

Definition payload_order_id (p : ProviderCommandPayload) : string :=
  match p with OrderPayload p => op_order_id p | DeliveryPayload p => dp_order_id p end.

Definition ProviderCommandPayload_validate (p : ProviderCommandPayload) :
    res ProviderCommandPayload :=
  match p with
  | OrderPayload p =>
      let p := mkOrderOperationCommandPayload (strip (op_order_id p)) (op_operation_type p)
                 (op_reason p) (strip <$> op_replacement_variant_id p) in
      raise_if (negb (order_id_ok (op_order_id p) && opt_nonempty (op_replacement_variant_id p)))
        (ValidationError "OrderOperationCommandPayload");;;
      Ok (OrderPayload p)
  | DeliveryPayload p =>
      let p := mkDeliveryInvestigationCommandPayload (strip (dp_order_id p)) (dp_issue_type p) in
      raise_if (negb (order_id_ok (dp_order_id p)))
        (ValidationError "DeliveryInvestigationCommandPayload");;;
      Ok (DeliveryPayload p)
  end.

(** * The command envelope *)

Record ProviderCommandEnvelope := mkEnvelope {
  e_schema_version : Z;
  e_command_id : uuid;
  e_idempotency_key : string;
  e_source_message_id : string;
  e_aggregate_type : ProviderAggregateType;
  e_aggregate_id : uuid;
  e_expected_order_version : option Z;
  e_tenant_id : string;
  e_customer_id : string;
  e_connection_id : string;
  e_command_type : ProviderCommandType;
  e_payload : ProviderCommandPayload;
  e_created_at : instant;
}.

Definition COMMAND_TYPE_BY_OPERATION (t : OperationType) : ProviderCommandType :=
  match t with
  | op_cancellation => cmd_cancel_order
  | op_return => cmd_return_order
  | op_exchange => cmd_exchange_order
  end.

(** [_OPERATION_TYPE_BY_COMMAND]; the delivery command has no entry. *)
Definition OPERATION_TYPE_BY_COMMAND (c : ProviderCommandType) : option OperationType :=
  match c with
  | cmd_cancel_order => Some op_cancellation
  | cmd_return_order => Some op_return
  | cmd_exchange_order => Some op_exchange
  | cmd_delivery_investigation => None
  end.

Definition order_operation_key (operation_id : uuid) : string :=
  "order-operation:" +:+ uuid_str operation_id.
Definition delivery_investigation_key (case_id : uuid) : string :=
  "delivery-investigation:" +:+ uuid_str case_id.

(** [ProviderCommandEnvelope.validate_payload_type] *)
Definition validate_payload_type (e : ProviderCommandEnvelope) : res unit :=
  if bool_decide (e_command_type e = cmd_delivery_investigation) then
    raise_if (bool_decide (e_aggregate_type e ≠ ag_support_case))
      (ValueError "delivery_investigation requires aggregate_type 'support_case'");;;
    raise_if (bool_decide (is_Some (e_expected_order_version e)))
      (ValueError "delivery_investigation must not carry expected_order_version");;;
    match e_payload e with
    | DeliveryPayload _ =>
        raise_if (bool_decide (e_idempotency_key e ≠ delivery_investigation_key (e_aggregate_id e)))
          (ValueError "delivery_investigation idempotency_key")
    | OrderPayload _ => Err (ValueError "delivery_investigation requires a delivery payload")
    end
  else
    raise_if (bool_decide (e_aggregate_type e ≠ ag_order_operation))
      (ValueError "requires aggregate_type 'order_operation'");;;
    raise_if (bool_decide (e_expected_order_version e = None))
      (ValueError "requires expected_order_version");;;
    match e_payload e with
    | OrderPayload p =>
        raise_if (bool_decide (Some (op_operation_type p)
                               ≠ OPERATION_TYPE_BY_COMMAND (e_command_type e)))
          (ValueError "command_type requires operation_type");;;
        raise_if (bool_decide (e_idempotency_key e ≠ order_operation_key (e_aggregate_id e)))
          (ValueError "idempotency_key")
    | DeliveryPayload _ => Err (ValueError "requires an order-operation payload")
    end.

Definition ProviderCommandEnvelope_validate (e : ProviderCommandEnvelope) :
    res ProviderCommandEnvelope :=
  let* payload := validating "ProviderCommandEnvelope"
                    (ProviderCommandPayload_validate (e_payload e)) in
  let e := mkEnvelope (e_schema_version e) (e_command_id e) (strip (e_idempotency_key e))
             (strip (e_source_message_id e)) (e_aggregate_type e) (e_aggregate_id e)
             (e_expected_order_version e) (strip (e_tenant_id e)) (strip (e_customer_id e))
             (strip (e_connection_id e)) (e_command_type e) payload (e_created_at e) in
  raise_if (negb ((e_schema_version e =? 1) && nonempty (e_idempotency_key e)
                  && nonempty (e_source_message_id e)
                  && match e_expected_order_version e with Some v => 1 <=? v | None => true end
                  && nonempty (e_tenant_id e) && nonempty (e_customer_id e)
                  && nonempty (e_connection_id e)))
    (ValidationError "ProviderCommandEnvelope");;;
  validating "ProviderCommandEnvelope" (validate_payload_type e);;;
  Ok e.

Definition for_order_operation (operation : OrderOperation) (connection_id : string)
    (command_id : uuid) (created_at : instant) : res ProviderCommandEnvelope :=
  let* payload := ProviderCommandPayload_validate
    (OrderPayload (mkOrderOperationCommandPayload (oo_order_id operation)
       (oo_operation_type operation) (oo_request_reason_code operation)
       (oo_replacement_variant_id operation))) in
  ProviderCommandEnvelope_validate
    (mkEnvelope 1 command_id (order_operation_key (oo_operation_id operation))
       (oo_source_message_id operation) ag_order_operation (oo_operation_id operation)
       (Some (oo_order_version operation)) (oo_tenant_id operation) (oo_customer_id operation)
       connection_id (COMMAND_TYPE_BY_OPERATION (oo_operation_type operation)) payload created_at).

Definition for_delivery_investigation (case : SupportCase) (issue_type : DeliveryIssueType)
    (connection_id : string) (command_id : uuid) (created_at : instant) :
    res ProviderCommandEnvelope :=
  raise_if (bool_decide (c_case_type case ≠ ct_delivery_investigation))
    (ValueError "for_delivery_investigation requires a delivery_investigation case");;;
  match c_order_id case with
  | None => Err (ValueError "a delivery_investigation case must carry an order_id")
  | Some order_id =>
      let* payload := ProviderCommandPayload_validate
        (DeliveryPayload (mkDeliveryInvestigationCommandPayload order_id issue_type)) in
      ProviderCommandEnvelope_validate
        (mkEnvelope 1 command_id (delivery_investigation_key (c_case_id case))
           (c_source_message_id case) ag_support_case (c_case_id case) None
           (c_tenant_id case) (c_customer_id case) connection_id cmd_delivery_investigation
           payload created_at)
  end.

(** * Properties *)

Lemma order_operation_key_inj u v :
  uuid_ok u → uuid_ok v → order_operation_key u = order_operation_key v → u = v.
Proof. intros Hu Hv H%append_inj_l. by apply uuid_str_inj. Qed.

Lemma delivery_investigation_key_inj u v :
  uuid_ok u → uuid_ok v → delivery_investigation_key u = delivery_investigation_key v → u = v.
Proof. intros Hu Hv H%append_inj_l. by apply uuid_str_inj. Qed.

Lemma envelope_validate_ok e e' :
  ProviderCommandEnvelope_validate e = Ok e' →
  e_command_id e' = e_command_id e ∧ e_aggregate_type e' = e_aggregate_type e ∧
  e_aggregate_id e' = e_aggregate_id e ∧ e_expected_order_version e' = e_expected_order_version e ∧
  e_command_type e' = e_command_type e ∧ e_tenant_id e' = strip (e_tenant_id e) ∧
  e_customer_id e' = strip (e_customer_id e) ∧ e_created_at e' = e_created_at e ∧
  e_connection_id e' = strip (e_connection_id e) ∧ validate_payload_type e' = Ok tt.
Proof.
  unfold ProviderCommandEnvelope_validate. intros H. inv_ok. cbn.
  repeat match goal with u : unit |- _ => destruct u end. by split_and!.
Qed.

(** The key of a valid envelope is derived from its aggregate. *)
Lemma envelope_key_shape e :
  validate_payload_type e = Ok tt →
  (e_aggregate_type e = ag_support_case ∧
     e_idempotency_key e = delivery_investigation_key (e_aggregate_id e)) ∨
  (e_aggregate_type e = ag_order_operation ∧
     e_idempotency_key e = order_operation_key (e_aggregate_id e)).
Proof.
  unfold validate_payload_type. case_bool_decide; intros Hg; inv_ok.
  - destruct (e_payload e); inv_ok; left.
    by rewrite !bool_decide_eq_false in *; split; apply dec_stable.
  - destruct (e_payload e); inv_ok; right.
    by rewrite !bool_decide_eq_false in *; split; apply dec_stable.
Qed.

(** The key of a valid envelope is bound to its aggregate: two valid envelopes with the
    same key are commands for the same aggregate. *)
Lemma envelope_key_identifies_aggregate e f :
  validate_payload_type e = Ok tt → validate_payload_type f = Ok tt →
  uuid_ok (e_aggregate_id e) → uuid_ok (e_aggregate_id f) →
  e_idempotency_key e = e_idempotency_key f →
  e_aggregate_type e = e_aggregate_type f ∧ e_aggregate_id e = e_aggregate_id f.
Proof.
  intros [[-> He]|[-> He]]%envelope_key_shape [[-> Hf]|[-> Hf]]%envelope_key_shape Hu Hv HK; rewrite He, Hf in HK;
    try discriminate HK; (split; [done|]).
  - by apply delivery_investigation_key_inj.
  - by apply order_operation_key_inj.
Qed.

Lemma payload_validate_normal p p' :
  ProviderCommandPayload_validate p = Ok p' → ProviderCommandPayload_validate p' = Ok p'.
Proof.
  destruct p as [p|p]; cbn; intros H; inv_ok; bools; cbn; rewrite ?strip_idem;
    [destruct (op_replacement_variant_id p); cbn in *; rewrite ?strip_idem|];
    bools; repeat match goal with H : _ = true |- _ => rewrite H; clear H; cbn end; done.
Qed.

(** A validated envelope passes validation unchanged, so the revalidation before a write
    rejects only envelopes built outside the factories. *)
Lemma envelope_validate_normal e e' :
  ProviderCommandEnvelope_validate e = Ok e' → ProviderCommandEnvelope_validate e' = Ok e'.
Proof.
  unfold ProviderCommandEnvelope_validate. intros H. inv_ok. cbn in *.
  apply payload_validate_normal in H0. rewrite H0. cbn. rewrite !strip_idem.
  rewrite H1. cbn. by rewrite H2.
Qed.
