(* ===== verification/InboxModels.v ===== *)
(** Verified webhook events and the rows of the inbox tables: [ProviderWebhookEventData] of
    [integrations/models.py], and the columns of [integration.inbox_messages] and
    [integration.inbox_processing_attempts]. *)
From S2P Require Import Prelude OperationModels CaseModels Envelope.

(** * The audit of manual redrives

    The audit of manual redrives: the rows of [integration.outbox_redrives] (migration 0007,
    with the reason code of 0008) and of [integration.inbox_redrives] (0008), and what both
    have in common. *)

(** * Rows *)

(** [integration.outbox_redrives]; rows older than the reason codes carry none. *)
Record OutboxRedrive := mkOutboxRedrive {
  ord_redrive_id : uuid;
  ord_command_id : uuid;
  ord_tenant_id : string;
  ord_request_id : string;
  ord_requested_by : string;
  ord_reason : string;
  ord_reason_code : option ProviderRedriveReasonCode;
  ord_previous_cycle : Z;
  ord_new_cycle : Z;
  ord_created_at : instant;
}.

(** [integration.inbox_redrives] *)
Record InboxRedrive := mkInboxRedrive {
  ird_redrive_id : uuid;
  ird_inbox_id : uuid;
  ird_tenant_id : string;
  ird_request_id : string;
  ird_requested_by : string;
  ird_reason_code : ProviderRedriveReasonCode;
  ird_previous_cycle : Z;
  ird_new_cycle : Z;
  ird_created_at : instant;
}.

(** * What the console reads of either *)

Class RedriveRow (A : Type) := {
  redrive_id : A → uuid;
  redrive_target : A → uuid;
  redrive_tenant : A → string;
  redrive_request : A → string;
  redrive_requested_by : A → string;
  redrive_reason_code : A → option ProviderRedriveReasonCode;
  redrive_previous_cycle : A → Z;
  redrive_new_cycle : A → Z;
  redrive_created_at : A → instant;
}.

#[export] Instance OutboxRedrive_row : RedriveRow OutboxRedrive := {|
  redrive_id := ord_redrive_id;
  redrive_target := ord_command_id;
  redrive_tenant := ord_tenant_id;
  redrive_request := ord_request_id;
  redrive_requested_by := ord_requested_by;
  redrive_reason_code := ord_reason_code;
  redrive_previous_cycle := ord_previous_cycle;
  redrive_new_cycle := ord_new_cycle;
  redrive_created_at := ord_created_at;
|}.

#[export] Instance InboxRedrive_row : RedriveRow InboxRedrive := {|
  redrive_id := ird_redrive_id;
  redrive_target := ird_inbox_id;
  redrive_tenant := ird_tenant_id;
  redrive_request := ird_request_id;
  redrive_requested_by := ird_requested_by;
  redrive_reason_code := λ r, Some (ird_reason_code r);
  redrive_previous_cycle := ird_previous_cycle;
  redrive_new_cycle := ird_new_cycle;
  redrive_created_at := ird_created_at;
|}.

Section Keys.
Context {A} `{RedriveRow A}.

(** [UNIQUE (tenant_id, request_id)] *)
Definition redrive_request_key (r : A) : option (string * string) :=
  Some (redrive_tenant r, redrive_request r).

(** What a redrive opened. *)
Definition redrive_cycle_key (r : A) : option (uuid * Z) :=
  Some (redrive_target r, redrive_new_cycle r).
End Keys.

Inductive ProviderWebhookEventType := wh_command_status_changed.

#[export] Instance ProviderWebhookEventType_eq_dec : EqDecision ProviderWebhookEventType.
Proof. solve_decision. Defined.

(** * [ProviderWebhookEventData] *)

Record ProviderWebhookEventData := mkProviderWebhookEventData {
  wd_command_id : uuid;
  wd_aggregate_type : ProviderAggregateType;
  wd_aggregate_id : uuid;
  wd_command_status : ProviderCommandExecutionStatus;
  wd_provider_operation_id : option string;
  wd_provider_reference : option string;
  wd_order_id : option string;
  wd_occurred_at : instant;
}.

#[export] Instance ProviderWebhookEventData_eq_dec : EqDecision ProviderWebhookEventData.
Proof. solve_decision. Defined.

Definition ProviderWebhookEventData_strip (e : ProviderWebhookEventData) : ProviderWebhookEventData :=
  mkProviderWebhookEventData (wd_command_id e) (wd_aggregate_type e) (wd_aggregate_id e)
    (wd_command_status e) (strip <$> wd_provider_operation_id e) (strip <$> wd_provider_reference e)
    (strip <$> wd_order_id e) (wd_occurred_at e).

Definition ProviderWebhookEventData_fields_ok (e : ProviderWebhookEventData) : bool :=
  opt_nonempty (wd_provider_operation_id e) && opt_nonempty (wd_provider_reference e)
  && match wd_order_id e with Some s => order_id_ok s | None => true end.

Definition ProviderWebhookEventData_validate (e : ProviderWebhookEventData) :
    res ProviderWebhookEventData :=
  let e := ProviderWebhookEventData_strip e in
  raise_if (negb (ProviderWebhookEventData_fields_ok e)) (ValidationError "ProviderWebhookEventData");;;
  Ok e.

(** * Rows *)

(** [integration.inbox_messages] *)
Record InboxMessage := mkInboxMessage {
  im_inbox_id : uuid;
  im_connection_id : string;
  im_event_id : string;
  im_tenant_id : string;
  im_schema_version : Z;
  im_event_type : ProviderWebhookEventType;
  im_command_id : uuid;
  im_aggregate_type : ProviderAggregateType;
  im_aggregate_id : uuid;
  im_payload : ProviderWebhookEventData;
  im_raw_body_sha256 : string;
  im_status : InboxProcessingStatus;
  im_processing_attempts : Z;
  im_processing_cycle : Z;
  im_attempts_in_cycle : Z;
  im_available_at : instant;
  im_lease_id : option uuid;
  im_lease_owner : option string;
  im_lease_expires_at : option instant;
  im_last_error_code : option string;
  im_last_error_message : option string;
  im_received_at : instant;
  im_updated_at : instant;
  im_processed_at : option instant;
  im_failed_at : option instant;
}.

Inductive InboxAttemptOutcome := ia_processed | ia_retry_scheduled | ia_terminal_failure | ia_lease_expired.

#[export] Instance InboxAttemptOutcome_eq_dec : EqDecision InboxAttemptOutcome.
Proof. solve_decision. Defined.

(** [integration.inbox_processing_attempts] *)
Record InboxProcessingAttempt := mkInboxProcessingAttempt {
  ia_attempt_id : uuid;
  ia_inbox_id : uuid;
  ia_processing_cycle : Z;
  ia_attempt_number : Z;
  ia_lease_id : uuid;
  ia_worker_id : string;
  ia_started_at : instant;
  ia_finished_at : option instant;
  ia_outcome : option InboxAttemptOutcome;
  ia_safe_error_code : option string;
  ia_safe_error_message : option string;
}.

(** The inbox tables of the database, with the audit of their redrives. *)
Record inbox_tables := mkInboxTables {
  inbox_messages : gmap uuid InboxMessage;
  inbox_attempts : gmap uuid InboxProcessingAttempt;
  inbox_redrives : gmap uuid InboxRedrive;
}.

Definition empty_inbox : inbox_tables := mkInboxTables ∅ ∅ ∅.

(** * Properties *)

Lemma ProviderWebhookEventData_strip_idem e :
  ProviderWebhookEventData_strip (ProviderWebhookEventData_strip e) = ProviderWebhookEventData_strip e.
Proof.
  unfold ProviderWebhookEventData_strip; cbn.
  by destruct (wd_provider_operation_id e), (wd_provider_reference e), (wd_order_id e);
    cbn; rewrite ?strip_idem.
Qed.

Lemma ProviderWebhookEventData_validate_ok e e' :
  ProviderWebhookEventData_validate e = Ok e' ↔
  e' = ProviderWebhookEventData_strip e ∧ ProviderWebhookEventData_fields_ok e' = true.
Proof.
  unfold ProviderWebhookEventData_validate. cbv zeta. split.
  - intros H. inv_ok. by bools.
  - intros [-> ->]. done.
Qed.

(** What construction accepts it leaves alone the second time. *)
Lemma ProviderWebhookEventData_validate_normal e e' :
  ProviderWebhookEventData_validate e = Ok e' → ProviderWebhookEventData_validate e' = Ok e'.
Proof.
  rewrite !ProviderWebhookEventData_validate_ok. intros [-> H].
  by rewrite ProviderWebhookEventData_strip_idem.
Qed.
