(* ===== verification/Retry.v ===== *)
(** Retry classification and backoff: [integrations/retry.py], with [RetryDecision] of
    [integrations/models.py].  Python floats are exact rationals here, or [NotFinite] for
    NaN and the infinities; the delays the worker computes are powers of two, on which
    double arithmetic is exact. *)
From Stdlib Require Import QArith Qpower Lqa.
From S2P Require Import Prelude OperationModels CaseModels Envelope.

Inductive float := Finite (q : Q) | NotFinite.

Definition Qltb (a b : Q) : bool := negb (Qle_bool b a).
(** [min(a, b)] and [max(a, b)] *)
Definition py_min (a b : Q) : Q := if Qltb b a then b else a.
Definition py_max (a b : Q) : Q := if Qltb a b then b else a.

Definition MAX_ATTEMPTS : Z := 8.

(** The keyword arguments the delay depends on; [random_source] is the value the injected
    source returns, if there is one. *)
Record RetryParameters := mkRetryParameters {
  base_delay_seconds : float;
  backoff_multiplier : float;
  jitter_seconds : float;
  max_delay_seconds : option float;
  random_source : option float;
}.

(** [BASE_BACKOFF_SECONDS], [BACKOFF_MULTIPLIER] and the other defaults. *)
Definition default_retry (random_source : option float) : RetryParameters :=
  mkRetryParameters (Finite 1) (Finite 2) (Finite 0) None random_source.

(** [isfinite] and the sign test of one setting; the value when both pass. *)
Definition finite_setting (name : string) (x : float) (ok : Q → bool) (why : string) : res Q :=
  match x with
  | NotFinite => Err (ValueError (name +:+ " must be finite"))
  | Finite q => raise_if (negb (ok q)) (ValueError (name +:+ " " +:+ why));;; Ok q
  end.

Definition optional_setting (name : string) (x : option float) (ok : Q → bool) (why : string) :
    res (option Q) :=
  match x with
  | None => Ok None
  | Some x => let* q := finite_setting name x ok why in Ok (Some q)
  end.

(** [_validate_retry_parameters]: the base delay, multiplier, jitter, cap and minimum as
    finite numbers, or the first rejection. *)
Definition validate_retry_parameters (attempts_so_far : Z) (p : RetryParameters)
    (retry_after_seconds : option float) : res (Q * Q * Q * option Q * option Q) :=
  raise_if (attempts_so_far <? 0) (ValueError "attempts_so_far must not be negative");;;
  let* base := finite_setting "base_delay_seconds" (base_delay_seconds p) (Qltb 0)
                 "must be positive" in
  let* multiplier := finite_setting "backoff_multiplier" (backoff_multiplier p) (Qle_bool 1)
                       "must be at least 1.0" in
  let* jitter := finite_setting "jitter_seconds" (jitter_seconds p) (Qle_bool 0)
                   "must not be negative" in
  let* cap := optional_setting "max_delay_seconds" (max_delay_seconds p) (Qltb 0)
                "must be positive when set" in
  let* floor := optional_setting "retry_after_seconds" retry_after_seconds (Qle_bool 0)
                  "must not be negative" in
  Ok (base, multiplier, jitter, cap, floor).

Definition classify_http_status (status_code : Z) : res ProviderFailureKind :=
  if (status_code =? 408) || (status_code =? 429)
     || (500 <=? status_code) && (status_code <=? 599) then Ok fk_http_retryable
  else if (400 <=? status_code) && (status_code <=? 499) then Ok fk_http_client_error
  else Err (ValueError "unexpected HTTP status code").

Definition classify_failure (error : exn) : res ProviderFailureKind :=
  match error with
  | ProviderRejectionError => Ok fk_provider_rejection
  | ProviderTimeoutError => Ok fk_timeout
  | ProviderConnectionError => Ok fk_network_error
  | HTTPStatusError status_code _ => classify_http_status status_code
  | _ => if is_ValueError error then Ok fk_validation_error
         else Err (ValueError "cannot classify failure type")
  end.

Definition retry_delay_seconds (attempts_so_far : Z) (p : RetryParameters)
    (retry_after_seconds : option float) : res Q :=
  let* '(base, multiplier, jitter, cap, floor) :=
    validate_retry_parameters attempts_so_far p retry_after_seconds in
  let exponent := Z.max (attempts_so_far - 1) 0 in
  let delay := (base * Qpower multiplier exponent)%Q in
  let* delay :=
    match (if Qltb 0 jitter then random_source p else None) with
    | None => Ok delay
    | Some (Finite sample) =>
        raise_if (negb (Qle_bool 0 sample && Qltb sample 1))
          (ValueError "random_source must return values in [0, 1)");;;
        Ok (delay + jitter * sample)%Q
    | Some NotFinite => Err (ValueError "random_source must return values in [0, 1)")
    end in
  let delay := match cap with Some c => py_min delay c | None => delay end in
  Ok (match floor with Some f => py_max delay f | None => delay end).

Record RetryDecision := mkRetryDecision {
  rd_retryable : bool;
  rd_kind : ProviderFailureKind;
  rd_attempts_so_far : Z;
  rd_max_attempts : Z;
  rd_delay_seconds : option Q;
  rd_retry_after_seconds : option Q;
  rd_exhausted : bool;
}.

Definition RetryDecision_validate (r : RetryDecision) : res RetryDecision :=
  raise_if (negb ((0 <=? rd_attempts_so_far r) && (1 <=? rd_max_attempts r)
                  && match rd_delay_seconds r with Some q => Qle_bool 0 q | None => true end
                  && match rd_retry_after_seconds r with Some q => Qle_bool 0 q | None => true end))
    (ValidationError "RetryDecision");;;
  Ok r.

Definition decide_retry (kind : ProviderFailureKind) (attempts_so_far max_attempts : Z)
    (p : RetryParameters) (retry_after_seconds : option float) : res RetryDecision :=
  raise_if (attempts_so_far <? 0) (ValueError "attempts_so_far must not be negative");;;
  raise_if (max_attempts <? 1) (ValueError "max_attempts must be at least 1");;;
  let* '(_, _, _, _, floor) := validate_retry_parameters attempts_so_far p retry_after_seconds in
  let exhausted := max_attempts <=? attempts_so_far in
  let retryable := RETRYABLE_FAILURE_KINDS kind && negb exhausted in
  let* delay :=
    if retryable then
      let* q := retry_delay_seconds attempts_so_far p retry_after_seconds in Ok (Some q)
    else Ok None in
  RetryDecision_validate
    (mkRetryDecision retryable kind attempts_so_far max_attempts delay floor exhausted).

(** * Properties *)

Lemma Qltb_lt a b : Qltb a b = true ↔ (a < b)%Q.
Proof.
  unfold Qltb. rewrite negb_true_iff, <- not_true_iff_false, Qle_bool_iff.
  split; [apply Qnot_le_lt|apply Qlt_not_le].
Qed.

Lemma Qltb_ge a b : Qltb a b = false ↔ (b <= a)%Q.
Proof. unfold Qltb. by rewrite negb_false_iff, Qle_bool_iff. Qed.

Lemma py_min_spec a b : (py_min a b <= a)%Q ∧ (py_min a b <= b)%Q ∧ (py_min a b = a ∨ py_min a b = b).
Proof.
  unfold py_min. destruct (Qltb b a) eqn:E; [apply Qltb_lt in E|apply Qltb_ge in E];
    split_and!; try lra; auto.
Qed.

Lemma py_max_spec a b : (a <= py_max a b)%Q ∧ (b <= py_max a b)%Q ∧ (py_max a b = a ∨ py_max a b = b).
Proof.
  unfold py_max. destruct (Qltb a b) eqn:E; [apply Qltb_lt in E|apply Qltb_ge in E];
    split_and!; try lra; auto.
Qed.

Lemma finite_setting_ok name x ok why q : finite_setting name x ok why = Ok q → ok q = true.
Proof. destruct x; cbn; [|done]. intros H. inv_ok. by bools. Qed.

Lemma optional_setting_ok name x ok why o q :
  optional_setting name x ok why = Ok o → o = Some q → ok q = true.
Proof.
  destruct x; cbn; intros H; inv_ok; [|done]. intros [= <-]. by eapply finite_setting_ok.
Qed.

(** The settings a retry decision is computed from, once they have passed validation. *)
Lemma validate_retry_parameters_ok n p ra base mult jitter cap floor :
  validate_retry_parameters n p ra = Ok (base, mult, jitter, cap, floor) →
  0 ≤ n ∧ (0 < base)%Q ∧ (1 <= mult)%Q ∧ (0 <= jitter)%Q ∧
  (∀ c, cap = Some c → (0 < c)%Q) ∧ (∀ f, floor = Some f → (0 <= f)%Q).
Proof.
  unfold validate_retry_parameters. intros H. inv_ok. bools.
  apply finite_setting_ok in H1, H2, H3. rewrite Qltb_lt in H1. rewrite Qle_bool_iff in H2, H3.
  split_and!; try done.
  - intros c E. eapply optional_setting_ok in H4; [|done]. by apply Qltb_lt.
  - intros f E. eapply optional_setting_ok in H5; [|done]. by apply Qle_bool_iff.
Qed.

(** The injected source, when it is consulted, returns a value in [[0, 1)]. *)
Definition sample_ok (jitter : Q) (p : RetryParameters) : Prop :=
  (0 < jitter)%Q →
  match random_source p with
  | None => True
  | Some (Finite q) => (0 <= q)%Q ∧ (q < 1)%Q
  | Some NotFinite => False
  end.

Lemma backoff_nonneg base mult e : (0 < base)%Q → (1 <= mult)%Q → (0 <= base * Qpower mult e)%Q.
Proof. intros Hb Hm. apply Qmult_le_0_compat; [lra|]. apply Qpower_pos. lra. Qed.

Lemma retry_delay_ok n p ra base mult jitter cap floor :
  validate_retry_parameters n p ra = Ok (base, mult, jitter, cap, floor) → sample_ok jitter p →
  ∃ q, retry_delay_seconds n p ra = Ok q ∧ (0 <= q)%Q ∧
    (∀ f, floor = Some f → (f <= q)%Q) ∧
    (∀ c, cap = Some c → (q <= c)%Q ∨ floor = Some q) ∧
    (cap = None → (base * Qpower mult (Z.max (n - 1) 0) <= q)%Q).
Proof.
  intros Hv Hs. pose proof (validate_retry_parameters_ok _ _ _ _ _ _ _ _ Hv) as (Hn & Hb & Hm & Hj & Hc & Hf).
  unfold retry_delay_seconds. rewrite Hv. cbn [res_bind].
  pose proof (backoff_nonneg base mult (Z.max (n - 1) 0) Hb Hm) as Hd0.
  set (d0 := (base * Qpower mult (Z.max (n - 1) 0))%Q) in *.
  assert (∃ d1, match (if Qltb 0 jitter then random_source p else None) with
    | None => Ok d0
    | Some (Finite sample) =>
        raise_if (negb (Qle_bool 0 sample && Qltb sample 1))
          (ValueError "random_source must return values in [0, 1)");;; Ok (d0 + jitter * sample)%Q
    | Some NotFinite => Err (ValueError "random_source must return values in [0, 1)")
    end = Ok d1 ∧ (d0 <= d1)%Q) as (d1 & -> & H1).
  { unfold sample_ok in Hs. destruct (Qltb 0 jitter) eqn:Ej; [|exists d0; split; [done|lra]].
    apply Qltb_lt in Ej. specialize (Hs Ej).
    destruct (random_source p) as [[s|]|]; [|done|exists d0; split; [done|lra]].
    destruct Hs as [Hs0 Hs1]. exists (d0 + jitter * s)%Q.
    apply Qle_bool_iff in Hs0 as Hb0. apply Qltb_lt in Hs1 as Hb1. rewrite Hb0, Hb1. cbn.
    split; [done|]. pose proof (Qmult_le_0_compat _ _ Hj Hs0). lra. }
  cbn [res_bind].
  set (d2 := match cap with Some c => py_min d1 c | None => d1 end).
  assert ((0 <= d2)%Q ∧ (∀ c, cap = Some c → (d2 <= c)%Q) ∧ (cap = None → (d0 <= d2)%Q)) as (H2 & H3 & H4).
  { subst d2. destruct cap as [c|]; [|split_and!; [lra|done|done]].
    destruct (py_min_spec d1 c) as (Ha & Hb' & [E|E]); specialize (Hc c eq_refl);
      split_and!; try done; [rewrite E; lra|intros c' [= <-]; done|rewrite E; lra|intros c' [= <-]; done]. }
  eexists. split; [reflexivity|]. destruct floor as [f|].
  - destruct (py_max_spec d2 f) as (Ha & Hb' & E).
    split_and!; [lra|intros f' [= <-]; done| |intros Hn'; specialize (H4 Hn'); lra].
    intros c Hcc. destruct E as [->| ->]; [left; by apply H3|by right].
  - split_and!; [done|done|intros c Hcc; left; by apply H3|done].
Qed.

(** For any validated retry configuration, [decide_retry] answers and never raises: it
    retries exactly the retryable failure kinds while attempts remain, reports exhaustion
    exactly when they do not, gives a delay exactly when it retries, and that delay is never
    negative, never shorter than what the provider asked for with Retry-After, and never
    above the cap unless the provider asked for more. *)
Theorem decide_retry_sound kind n max_attempts p ra base mult jitter cap floor :
  validate_retry_parameters n p ra = Ok (base, mult, jitter, cap, floor) →
  1 ≤ max_attempts → sample_ok jitter p →
  ∃ r, decide_retry kind n max_attempts p ra = Ok r ∧
    rd_retryable r = RETRYABLE_FAILURE_KINDS kind && (n <? max_attempts) ∧
    rd_exhausted r = (max_attempts <=? n) ∧
    (rd_retryable r = false → rd_delay_seconds r = None) ∧
    (rd_retryable r = true → ∃ q, rd_delay_seconds r = Some q ∧ (0 <= q)%Q ∧
       (∀ f, floor = Some f → (f <= q)%Q) ∧
       (∀ c, cap = Some c → (q <= c)%Q ∨ floor = Some q)).
Proof.
  intros Hv Hmax Hs. pose proof (validate_retry_parameters_ok _ _ _ _ _ _ _ _ Hv) as (Hn & _ & _ & _ & _ & Hf).
  destruct (retry_delay_ok _ _ _ _ _ _ _ _ Hv Hs) as (q & Hq & H0 & Hfl & Hcap & _).
  unfold decide_retry. replace (n <? 0) with false by lia.
  replace (max_attempts <? 1) with false by lia. cbn [raise_if res_bind]. rewrite Hv. cbn [res_bind].
  rewrite <- Z.ltb_antisym, Hq. cbn [res_bind].
  assert (∀ f, floor = Some f → Qle_bool 0 f = true) as Hfb by (intros f E; apply Qle_bool_iff; auto).
  assert (Qle_bool 0 q = true) as Hqb by (by apply Qle_bool_iff).
  destruct (RETRYABLE_FAILURE_KINDS kind && (n <? max_attempts)) eqn:Er;
    eexists; (split; [unfold RetryDecision_validate; cbn;
      rewrite (proj2 (Z.leb_le 0 n)), (proj2 (Z.leb_le 1 max_attempts)) by lia; cbn;
      rewrite ?Hqb; destruct floor as [f|]; cbn; rewrite ?(Hfb f eq_refl); reflexivity|]);
    cbn; split_and!; try done; by eauto.
Qed.

Lemma decide_retry_sound_witness :
  ∃ r, decide_retry fk_http_retryable 3 MAX_ATTEMPTS
         (mkRetryParameters (Finite 1) (Finite 2) (Finite (1 # 2)) (Some (Finite 3)) (Some (Finite (1 # 4))))
         (Some (Finite 10)) = Ok r ∧
    rd_retryable r = RETRYABLE_FAILURE_KINDS fk_http_retryable && (3 <? MAX_ATTEMPTS) ∧
    rd_exhausted r = (MAX_ATTEMPTS <=? 3) ∧
    (rd_retryable r = false → rd_delay_seconds r = None) ∧
    (rd_retryable r = true → ∃ q, rd_delay_seconds r = Some q ∧ (0 <= q)%Q ∧
       (∀ f, Some 10%Q = Some f → (f <= q)%Q) ∧
       (∀ c, Some 3%Q = Some c → (q <= c)%Q ∨ Some 10%Q = Some q)).
Proof.
  apply (decide_retry_sound fk_http_retryable 3 MAX_ATTEMPTS
    (mkRetryParameters (Finite 1) (Finite 2) (Finite (1 # 2)) (Some (Finite 3)) (Some (Finite (1 # 4))))
    (Some (Finite 10)) 1 2 (1 # 2) (Some 3%Q) (Some 10%Q));
    [reflexivity|unfold MAX_ATTEMPTS; lia|intros _; cbn; lra].
Defined.

(** The settings the outbox worker uses: no jitter, no cap, and what the provider asked
    for as the minimum. *)
Lemma default_retry_valid n src ra :
  0 ≤ n → (∀ q, ra = Some q → (0 <= q)%Q) →
  validate_retry_parameters n (default_retry src) (Finite <$> ra) = Ok (1, 2, 0, None, ra)%Q.
Proof.
  intros Hn Hra. unfold validate_retry_parameters. replace (n <? 0) with false by lia. cbn.
  destruct ra as [q|]; cbn; [|done]. specialize (Hra q eq_refl).
  apply Qle_bool_iff in Hra. by rewrite Hra.
Qed.

Lemma decide_retry_default kind n src ra :
  0 ≤ n → (∀ q, ra = Some q → (0 <= q)%Q) →
  ∃ r, decide_retry kind n MAX_ATTEMPTS (default_retry src) (Finite <$> ra) = Ok r ∧
    rd_retryable r = RETRYABLE_FAILURE_KINDS kind && (n <? MAX_ATTEMPTS) ∧
    rd_retry_after_seconds r = ra ∧
    match rd_delay_seconds r with
    | Some q => rd_retryable r = true ∧ (Qpower 2 (Z.max (n - 1) 0) <= q)%Q ∧
                (∀ f, ra = Some f → (f <= q)%Q) ∧ (0 <= q)%Q ∧
                (q == Qpower 2 (Z.max (n - 1) 0) ∨ ra = Some q)%Q
    | None => rd_retryable r = false
    end.
Proof.
  intros Hn Hra. pose proof (default_retry_valid n src ra Hn Hra) as Hv.
  unfold decide_retry. replace (n <? 0) with false by lia. cbn [raise_if res_bind].
  change (MAX_ATTEMPTS <? 1) with false. cbn [raise_if res_bind]. rewrite Hv. cbn [res_bind].
  unfold retry_delay_seconds. rewrite Hv. cbn [res_bind]. change (Qltb 0 0) with false.
  cbn [res_bind]. rewrite <- Z.ltb_antisym. set (d := (1 * Qpower 2 (Z.max (n - 1) 0))%Q).
  assert (0 <= d)%Q as Hd by (apply backoff_nonneg; lra).
  assert (d == Qpower 2 (Z.max (n - 1) 0))%Q as Ed by (unfold d; ring).
  set (q := match ra with Some f => py_max d f | None => d end).
  assert ((d <= q)%Q ∧ (∀ f, ra = Some f → (f <= q)%Q) ∧ (q = d ∨ ra = Some q)) as (H1 & H2 & H3).
  { subst q. destruct ra as [f|]; [|split_and!; [lra|done|by left]].
    destruct (py_max_spec d f) as (Ha & Hb & [E|E]); split_and!; try done;
      [intros ? [= <-]; done|by left|intros ? [= <-]; done|by right; rewrite E]. }
  assert (Qle_bool 0 q = true) as Hq0 by (apply Qle_bool_iff; lra).
  assert (match ra with Some x => Qle_bool 0 x | None => true end = true) as Hra0.
  { destruct ra as [f|]; [|done]. apply Qle_bool_iff. by apply Hra. }
  destruct (RETRYABLE_FAILURE_KINDS kind && (n <? MAX_ATTEMPTS)) eqn:Er; cbn [res_bind];
    (eexists; split; [unfold RetryDecision_validate;
       cbn [rd_attempts_so_far rd_max_attempts rd_delay_seconds rd_retry_after_seconds];
       rewrite (proj2 (Z.leb_le 0 n) Hn), ?Hq0, Hra0; reflexivity|]); cbn; [|done].
  split_and!; try done; [lra|lra|]. destruct H3 as [->|H3]; [left; lra|by right].
Qed.

(** The same of any decision the worker reached. *)
Lemma decide_retry_reached kind n src ra r :
  decide_retry kind n MAX_ATTEMPTS (default_retry src) (Finite <$> ra) = Ok r →
  rd_retryable r = RETRYABLE_FAILURE_KINDS kind && (n <? MAX_ATTEMPTS) ∧
  rd_retry_after_seconds r = ra ∧
  match rd_delay_seconds r with
  | Some q => rd_retryable r = true ∧ (Qpower 2 (Z.max (n - 1) 0) <= q)%Q ∧
              (∀ f, ra = Some f → (f <= q)%Q)
  | None => rd_retryable r = false
  end.
Proof.
  intros H. assert (0 ≤ n ∧ ∀ q, ra = Some q → (0 <= q)%Q) as [Hn Hra].
  { unfold decide_retry in H. apply res_bind_ok in H as ([] & H1 & H). apply raise_if_ok in H1.
    split; [lia|]. apply res_bind_ok in H as ([] & _ & H).
    apply res_bind_ok in H as ([[[[b m] j] c] f] & Hv & _).
    unfold validate_retry_parameters in Hv. destruct ra as [q|]; [|done]. intros ? [= <-].
    inv_ok. match goal with H : optional_setting "retry_after_seconds" _ _ _ = Ok _ |- _ =>
      unfold optional_setting in H; cbn in H end. inv_ok. by apply Qle_bool_iff, negb_false_iff. }
  destruct (decide_retry_default kind n src ra Hn Hra) as (r' & Hr' & E1 & E2 & E3).
  rewrite H in Hr'. injection Hr' as <-. split_and!; [done..|]. destruct (rd_delay_seconds r); naive_solver.
Qed.
