(* ===== verification/Connections.v ===== *)
(** Provider connections: the connection models of [integrations/models.py] and the two
    resolvers that serve them, [integrations/connection_resolver.py] for outbound commands and
    [integrations/webhook_resolver.py] for inbound webhooks.  What turns the text of an
    environment variable into typed fields ([json.loads], pydantic) is a parameter. *)
From S2P Require Import Prelude OperationModels CaseModels Envelope Retry.

#[export] Instance float_eq_dec : EqDecision float.
Proof. solve_decision. Defined.

(** * Models *)

Inductive AuthScheme := sch_bearer | sch_api_key | sch_none.
#[export] Instance AuthScheme_eq_dec : EqDecision AuthScheme.
Proof. solve_decision. Defined.

(** A [SecretStr] is the string it holds. *)
Record ProviderAuthentication := mkProviderAuthentication {
  pa_scheme : AuthScheme;
  pa_credential : option string;
  pa_api_key_header : option string;
}.

(** [ProviderAuthentication.validate_shape] *)
Definition ProviderAuthentication_validate_shape (a : ProviderAuthentication) : res unit :=
  match pa_scheme a with
  | sch_none =>
      raise_if (bool_decide (is_Some (pa_credential a)) || bool_decide (is_Some (pa_api_key_header a)))
        (ValueError "none auth must not carry credential or header")
  | sch_bearer =>
      match pa_credential a with
      | None => Err (ValueError "bearer auth requires a credential")
      | Some credential =>
          raise_if (negb (nonempty credential)) (ValueError "bearer credential must not be empty");;;
          raise_if (bool_decide (is_Some (pa_api_key_header a)))
            (ValueError "bearer auth must not set api_key_header")
      end
  | sch_api_key =>
      match pa_credential a, pa_api_key_header a with
      | Some credential, Some _ =>
          raise_if (negb (nonempty credential)) (ValueError "api_key credential must not be empty")
      | _, _ => Err (ValueError "api_key auth requires credential and api_key_header")
      end
  end.

Definition ProviderAuthentication_validate (a : ProviderAuthentication) : res ProviderAuthentication :=
  raise_if (negb (opt_nonempty (pa_api_key_header a))) (ValidationError "ProviderAuthentication");;;
  validating "ProviderAuthentication" (ProviderAuthentication_validate_shape a);;;
  Ok a.

(** [gt=0, allow_inf_nan=False] *)
Definition positive_finite (x : float) : bool :=
  match x with Finite q => Qltb 0 q | NotFinite => false end.

Record ProviderWebhookConnection := mkProviderWebhookConnection {
  wc_connection_id : string;
  wc_tenant_id : string;
  wc_signing_secret : string;
  wc_validity_window_seconds : float;
}.

Definition ProviderWebhookConnection_validate (c : ProviderWebhookConnection) :
    res ProviderWebhookConnection :=
  raise_if (negb (nonempty (wc_connection_id c) && nonempty (wc_tenant_id c)
                  && positive_finite (wc_validity_window_seconds c)))
    (ValidationError "ProviderWebhookConnection");;;
  validating "ProviderWebhookConnection"
    (raise_if (negb (nonempty (wc_signing_secret c))) (ValueError "signing_secret must not be empty"));;;
  Ok c.

(** The double nearest to 0.1. *)
Definition tenth : Q := 3602879701896397 # 36028797018963968.

Record ProviderTimeout := mkProviderTimeout {
  to_connect_seconds : float;
  to_read_seconds : float;
  to_write_seconds : float;
}.

(** [ge=0.1, le=300.0, allow_inf_nan=False] *)
Definition timeout_seconds_ok (x : float) : bool :=
  match x with Finite q => Qle_bool tenth q && Qle_bool q 300 | NotFinite => false end.

Definition ProviderTimeout_validate (t : ProviderTimeout) : res ProviderTimeout :=
  raise_if (negb (timeout_seconds_ok (to_connect_seconds t) && timeout_seconds_ok (to_read_seconds t)
                  && timeout_seconds_ok (to_write_seconds t)))
    (ValidationError "ProviderTimeout");;;
  Ok t.

(** pydantic's [AnyHttpUrl]: its scheme and the text [str] gives. *)
Record AnyHttpUrl := mkAnyHttpUrl { url_scheme : string; url_text : string }.

#[export] Instance ProviderTimeout_eq_dec : EqDecision ProviderTimeout.
Proof. solve_decision. Defined.
#[export] Instance AnyHttpUrl_eq_dec : EqDecision AnyHttpUrl.
Proof. solve_decision. Defined.
#[export] Instance ProviderAuthentication_eq_dec : EqDecision ProviderAuthentication.
Proof. solve_decision. Defined.

Record ProviderConnection := mkProviderConnection {
  pc_connection_id : string;
  pc_tenant_id : string;
  pc_capability : ProviderCapability;
  pc_base_url : AnyHttpUrl;
  pc_endpoint : string;
  pc_authentication : ProviderAuthentication;
  pc_timeout : ProviderTimeout;
  pc_max_concurrency : Z;
  pc_requests_per_second : option float;
}.

#[export] Instance ProviderConnection_eq_dec : EqDecision ProviderConnection.
Proof. solve_decision. Defined.

Definition ProviderConnection_validate (c : ProviderConnection) : res ProviderConnection :=
  let* _ := validating "ProviderConnection" (ProviderAuthentication_validate (pc_authentication c)) in
  let* _ := validating "ProviderConnection" (ProviderTimeout_validate (pc_timeout c)) in
  raise_if (negb (nonempty (pc_connection_id c) && nonempty (pc_tenant_id c) && nonempty (pc_endpoint c)
                  && (1 <=? pc_max_concurrency c) && (pc_max_concurrency c <=? 1000)
                  && match pc_requests_per_second c with Some x => positive_finite x | None => true end))
    (ValidationError "ProviderConnection");;;
  validating "ProviderConnection"
    (raise_if (negb (String.prefix "/" (pc_endpoint c)))
       (ValueError "endpoint must start with '/'"));;;
  Ok c.

(** * Outbound: [EnvironmentProviderConnectionResolver] *)

(** A Python dict: keys in order of first insertion. *)
Section Dict.
Context {K V : Type} `{EqDecision K}.

Fixpoint dict_get (k : K) (l : list (K * V)) : option V :=
  match l with
  | [] => None
  | (k', v) :: l' => if decide (k' = k) then Some v else dict_get k l'
  end.

Fixpoint dict_set (k : K) (v : V) (l : list (K * V)) : list (K * V) :=
  match l with
  | [] => [(k, v)]
  | (k', v') :: l' => if decide (k' = k) then (k', v) :: l' else (k', v') :: dict_set k v l'
  end.
End Dict.

(** [_connection_identity] *)
Definition connection_identity (c : ProviderConnection) :
    string * AuthScheme * option string * option string * ProviderTimeout * Z * option float :=
  (url_text (pc_base_url c), pa_scheme (pc_authentication c), pa_credential (pc_authentication c),
   pa_api_key_header (pc_authentication c), pc_timeout c, pc_max_concurrency c,
   pc_requests_per_second c).

Abbreviation connection_index := (list ((string * ProviderCapability) * ProviderConnection)) (only parsing).

Record ConnectionResolver := mkConnectionResolver {
  by_selection : connection_index;
  by_id_and_capability : connection_index;
}.

(** The body of the loop of [__init__]. *)
Definition index_connection (allow_insecure_http : bool) (r : ConnectionResolver)
    (connection : ProviderConnection) : res ConnectionResolver :=
  raise_if (bool_decide (url_scheme (pc_base_url connection) ≠ "https") && negb allow_insecure_http)
    (ValueError "provider connections must use https outside explicit development mode");;;
  let selection := (pc_tenant_id connection, pc_capability connection) in
  raise_if (bool_decide (is_Some (dict_get selection (by_selection r))))
    (ValueError "duplicate provider connection for tenant/capability");;;
  let existing := snd <$> list_find (λ e, e.1.1 = pc_connection_id connection) (by_id_and_capability r) in
  raise_if (match existing with
            | Some (_, existing) => bool_decide (connection_identity existing ≠ connection_identity connection)
            | None => false
            end)
    (ValueError "connections sharing connection_id must have identical transport settings");;;
  Ok (mkConnectionResolver (dict_set selection connection (by_selection r))
        (dict_set (pc_connection_id connection, pc_capability connection) connection
           (by_id_and_capability r))).

Fixpoint index_connections (allow_insecure_http : bool) (connections : list ProviderConnection)
    (r : ConnectionResolver) : res ConnectionResolver :=
  match connections with
  | [] => Ok r
  | c :: connections' =>
      let* r := index_connection allow_insecure_http r c in
      index_connections allow_insecure_http connections' r
  end.

(** [EnvironmentProviderConnectionResolver.__init__] *)
Definition new_resolver (connections : list ProviderConnection) (allow_insecure_http : bool) :
    res ConnectionResolver :=
  index_connections allow_insecure_http connections (mkConnectionResolver [] []).

Definition resolve (r : ConnectionResolver) (tenant_id : string) (capability : ProviderCapability) :
    res ProviderConnection :=
  match dict_get (tenant_id, capability) (by_selection r) with
  | Some c => Ok c
  | None => Err ProviderConnectionNotFoundError
  end.

(** What a delivery looks up: the connection pinned by a persisted command. *)
Definition ConnectionLookup : Type := string → ProviderCapability → res ProviderConnection.

Definition resolve_by_connection_id (r : ConnectionResolver) : ConnectionLookup :=
  λ connection_id capability,
    match dict_get (connection_id, capability) (by_id_and_capability r) with
    | Some c => Ok c
    | None => Err ProviderConnectionNotFoundError
    end.

(** All of a list, or the first failure. *)
Definition all_valid {A} (validate : A → res A) : list A → res (list A) :=
  foldr (λ x rest, let* y := validate x in let* ys := rest in Ok (y :: ys)) (Ok []).

Section FromEnvironment.
(** The typed fields of the configured connections; [None] when the text is not JSON or a
    field has the wrong type. *)
Context (decode : string → option (list ProviderConnection)).

Definition from_environment (environment : string → option string) (allow_insecure_http : bool) :
    res ConnectionResolver :=
  match environment "PROVIDER_CONNECTIONS_JSON" with
  | None => Err (ValueError "PROVIDER_CONNECTIONS_JSON must be configured")
  | Some raw =>
      raise_if (negb (nonempty (strip raw))) (ValueError "PROVIDER_CONNECTIONS_JSON must be configured");;;
      match all_valid ProviderConnection_validate <$> decode raw with
      | Some (Ok connections) =>
          raise_if (bool_decide (connections = []))
            (ValueError "provider connection configuration must not be empty");;;
          new_resolver connections allow_insecure_http
      | _ => Err (ValueError "provider connection configuration is invalid")
      end
  end.
End FromEnvironment.

(** * Inbound: [EnvironmentProviderWebhookConnectionResolver] *)

(** The trusted connections by identifier. *)
Abbreviation webhook_resolver := (gmap string ProviderWebhookConnection) (only parsing).

(** [EnvironmentProviderWebhookConnectionResolver.__init__] *)
Definition new_webhook_resolver (connections : list ProviderWebhookConnection) : res webhook_resolver :=
  let index := fold_left (λ m c, <[wc_connection_id c := c]> m) connections ∅ in
  raise_if (bool_decide (size index ≠ length connections))
    (ValueError "duplicate provider webhook connection");;;
  Ok index.

Section WebhooksFromEnvironment.
Context (decode : string → option (list ProviderWebhookConnection)).

Definition webhooks_from_environment (environment : string → option string) : res webhook_resolver :=
  match environment "PROVIDER_WEBHOOK_CONNECTIONS_JSON" with
  | None => new_webhook_resolver []
  | Some raw =>
      if negb (nonempty (strip raw)) then new_webhook_resolver []
      else match all_valid ProviderWebhookConnection_validate <$> decode raw with
           | Some (Ok connections) => new_webhook_resolver connections
           | _ => Err (ValueError "provider webhook connection configuration is invalid")
           end
  end.
End WebhooksFromEnvironment.

Definition resolve_webhook (r : webhook_resolver) (provider_connection_id : string) :
    res ProviderWebhookConnection :=
  match r !! provider_connection_id with
  | Some c => Ok c
  | None => Err ProviderConnectionNotFoundError
  end.

(** * Properties *)

Section DictFacts.
Context {K V : Type} `{EqDecision K}.
Implicit Types (l : list (K * V)).

Lemma dict_get_set k k' (v : V) l :
  dict_get k' (dict_set k v l) = if decide (k = k') then Some v else dict_get k' l.
Proof.
  induction l as [|[k1 v1] l IH]; cbn; [done|].
  destruct (decide (k1 = k)) as [->|]; cbn; [by destruct (decide (k = k'))|].
  rewrite IH. destruct (decide (k1 = k')), (decide (k = k')); congruence.
Qed.

Lemma elem_of_dict_set k (v : V) l e : e ∈ dict_set k v l → e = (k, v) ∨ e ∈ l.
Proof.
  induction l as [|[k1 v1] l IH]; cbn; [rewrite list_elem_of_singleton; by left|].
  destruct (decide (k1 = k)) as [->|]; rewrite !elem_of_cons; naive_solver.
Qed.

Lemma dict_set_key k (v : V) l k' :
  k' = k ∨ k' ∈ l.*1 → k' ∈ (dict_set k v l).*1.
Proof.
  induction l as [|[k1 v1] l IH]; cbn.
  - intros [->|[]%elem_of_nil]. apply elem_of_cons. by left.
  - destruct (decide (k1 = k)) as [->|]; cbn; rewrite !elem_of_cons; naive_solver.
Qed.
End DictFacts.

Definition selection (c : ProviderConnection) : string * ProviderCapability :=
  (pc_tenant_id c, pc_capability c).

(** Two connections agree on how their provider is reached: the base URL, the credential and
    how it is presented, the three timeouts and the two limits.  The endpoint, the path under
    the base URL, is not among the settings that are compared. *)
Record same_transport (c c' : ProviderConnection) : Prop := {
  st_base_url : url_text (pc_base_url c) = url_text (pc_base_url c');
  st_scheme : pa_scheme (pc_authentication c) = pa_scheme (pc_authentication c');
  st_credential : pa_credential (pc_authentication c) = pa_credential (pc_authentication c');
  st_api_key_header : pa_api_key_header (pc_authentication c) = pa_api_key_header (pc_authentication c');
  st_connect : to_connect_seconds (pc_timeout c) = to_connect_seconds (pc_timeout c');
  st_read : to_read_seconds (pc_timeout c) = to_read_seconds (pc_timeout c');
  st_write : to_write_seconds (pc_timeout c) = to_write_seconds (pc_timeout c');
  st_concurrency : pc_max_concurrency c = pc_max_concurrency c';
  st_rate : pc_requests_per_second c = pc_requests_per_second c';
}.

(** What the resolver compares. *)
Lemma identity_transport c c' : connection_identity c = connection_identity c' ↔ same_transport c c'.
Proof.
  unfold connection_identity. split.
  - intros [= Hu Hs Hc Hh Ht Hm Hr]. split; congruence.
  - intros [Hu Hs Hc Hh H1 H2 H3 Hm Hr]. rewrite Hu, Hs, Hc, Hh, Hm, Hr.
    destruct (pc_timeout c), (pc_timeout c'). cbn in *. by subst.
Qed.

(** What a configuration must satisfy. *)
Record consistent (allow_insecure_http : bool) (cs : list ProviderConnection) : Prop := {
  co_https : Forall (λ c, url_scheme (pc_base_url c) = "https" ∨ allow_insecure_http = true) cs;
  co_selection : NoDup (selection <$> cs);
  co_transport : ∀ c c', c ∈ cs → c' ∈ cs → pc_connection_id c = pc_connection_id c' → same_transport c c';
}.

Lemma co_identity allow cs :
  consistent allow cs → ∀ c c', c ∈ cs → c' ∈ cs → pc_connection_id c = pc_connection_id c' →
  connection_identity c = connection_identity c'.
Proof. intros H c c' ? ? ?. apply identity_transport. by eapply co_transport. Qed.

(** What the resolver has indexed. *)
Record indexed (cs : list ProviderConnection) (r : ConnectionResolver) : Prop := {
  ix_selection : ∀ t k c, dict_get (t, k) (by_selection r) = Some c ↔ c ∈ cs ∧ selection c = (t, k);
  ix_pinned : ∀ i k, dict_get (i, k) (by_id_and_capability r) =
    last (filter (λ c, pc_connection_id c = i ∧ pc_capability c = k) cs);
  ix_entry : ∀ e, e ∈ by_id_and_capability r → e.2 ∈ cs ∧ e.1.1 = pc_connection_id e.2;
  ix_known : ∀ c, c ∈ cs → ∃ e, e ∈ by_id_and_capability r ∧ e.1.1 = pc_connection_id c;
}.

Lemma selection_unused cs r c :
  indexed cs r → dict_get (pc_tenant_id c, pc_capability c) (by_selection r) = None ↔ selection c ∉ selection <$> cs.
Proof.
  intros Hr. rewrite list_elem_of_fmap. split.
  - intros Hn (c' & Hs & Hin). assert (dict_get (selection c) (by_selection r) = Some c') as H
      by (by apply (ix_selection _ _ Hr)).
    unfold selection in H. congruence.
  - intros Hn. destruct (dict_get _ _) as [c'|] eqn:E; [|done]. apply (ix_selection _ _ Hr) in E as [? ?].
    destruct Hn. by exists c'.
Qed.

(** The identity check: it passes exactly when the new connection agrees with all before. *)
Lemma identity_check allow cs r c :
  indexed cs r → consistent allow cs →
  (match snd <$> list_find (λ e, e.1.1 = pc_connection_id c) (by_id_and_capability r) with
   | Some (_, existing) => bool_decide (connection_identity existing ≠ connection_identity c)
   | None => false
   end) = false ↔
  ∀ c', c' ∈ cs → pc_connection_id c' = pc_connection_id c → connection_identity c' = connection_identity c.
Proof.
  intros Hr Hc. destruct (list_find _ _) as [[n [k existing]]|] eqn:E; cbn.
  - apply list_find_Some in E as (Hl & Hk & _). apply list_elem_of_lookup_2, (ix_entry _ _ Hr) in Hl as [Hin He].
    cbn in Hk, He, Hin. rewrite bool_decide_eq_false.
    split; [|intros H Hne; apply Hne, H; congruence]. intros Hid%dec_stable c' Hc' Hi. rewrite <- Hid.
    apply (co_identity _ _ Hc); congruence.
  - split; [|done]. intros _ c' Hc' Hi. apply list_find_None in E.
    destruct (ix_known _ _ Hr c' Hc') as (e & He & Hie). rewrite Forall_forall in E.
    specialize (E e He). cbn in E. congruence.
Qed.

Lemma index_connection_indexed cs r c :
  indexed cs r → selection c ∉ selection <$> cs →
  indexed (cs ++ [c]) (mkConnectionResolver (dict_set (selection c) c (by_selection r))
    (dict_set (pc_connection_id c, pc_capability c) c (by_id_and_capability r))).
Proof.
  intros Hr Hnew. split; cbn.
  - intros t k c'. rewrite dict_get_set, elem_of_app, list_elem_of_singleton. case_decide as Hs.
    + split; [intros [= <-]; split; [by right|done]|]. intros [[Hin| ->] Hc']; [|done].
      destruct Hnew. apply list_elem_of_fmap. exists c'. split; [congruence|done].
    + rewrite (ix_selection _ _ Hr). naive_solver.
  - intros i k. rewrite dict_get_set, filter_app, filter_cons, filter_nil, (ix_pinned _ _ Hr).
    case_decide as Hs; case_decide as Hs'; rewrite ?last_snoc, ?app_nil_r; naive_solver.
  - intros e [->|He]%elem_of_dict_set; cbn; [set_solver|].
    apply (ix_entry _ _ Hr) in He as [? ?]. set_solver.
  - intros c' Hc'. assert ((pc_connection_id c', pc_capability c') = (pc_connection_id c, pc_capability c) ∨ c' ∈ cs) as H
      by set_solver.
    assert (∃ k, (pc_connection_id c', k) ∈ (dict_set (pc_connection_id c, pc_capability c) c (by_id_and_capability r)).*1) as (k & Hk).
    { destruct H as [H|H]; [exists (pc_capability c'); apply dict_set_key; by left|].
      apply (ix_known _ _ Hr) in H as ([[i k] v] & He & Hi). cbn in Hi. subst i. exists k. apply dict_set_key. right.
      apply list_elem_of_fmap. by exists (pc_connection_id c', k, v). }
    apply list_elem_of_fmap in Hk as (e & He & Hin). exists e. by rewrite <- He.
Qed.

Lemma consistent_snoc allow cs c :
  consistent allow (cs ++ [c]) ↔
  consistent allow cs ∧ (url_scheme (pc_base_url c) = "https" ∨ allow = true) ∧ selection c ∉ selection <$> cs ∧
  ∀ c', c' ∈ cs → pc_connection_id c' = pc_connection_id c → connection_identity c' = connection_identity c.
Proof.
  split.
  - intros [H1 H2 H3]. rewrite Forall_app, Forall_singleton in H1. destruct H1 as [? H1].
    rewrite fmap_app in H2. apply NoDup_app in H2 as (? & Hd & _).
    split_and!; [split; [done..|]; set_solver|done| |].
    2: { intros c' Hc' E. apply identity_transport. set_solver. }
    intros Hin. by apply (Hd _ Hin), list_elem_of_singleton.
  - intros ([H1 H2 H3] & Hh & Hs & Hi). split.
    + apply Forall_app. by rewrite Forall_singleton.
    + rewrite fmap_app. apply NoDup_app. split_and!; [done| |by apply NoDup_singleton].
      intros x Hx ->%list_elem_of_singleton. done.
    + intros c1 c2. rewrite <- identity_transport, !elem_of_app, !list_elem_of_singleton. intros [?| ->] [?| ->] E; auto.
      * apply identity_transport. auto.
      * symmetry. auto.
Qed.

Lemma index_connection_spec allow cs r c :
  indexed cs r → consistent allow cs →
  match index_connection allow r c with
  | Ok r' => consistent allow (cs ++ [c]) ∧ indexed (cs ++ [c]) r'
  | Err _ => ¬ consistent allow (cs ++ [c])
  end.
Proof.
  intros Hr Hc. pose proof (consistent_snoc allow cs c) as Hsnoc. unfold index_connection. cbv zeta.
  destruct (bool_decide (url_scheme _ ≠ "https") && negb allow) eqn:Hh; cbn [raise_if res_bind].
  { rewrite Hsnoc. bools. destruct allow; naive_solver. }
  assert (Hhttps : url_scheme (pc_base_url c) = "https" ∨ allow = true).
  { destruct allow; [by right|]. left. rewrite andb_true_r in Hh. bools. by apply dec_stable. }
  destruct (bool_decide (is_Some _)) eqn:Hs; cbn [raise_if res_bind].
  { apply bool_decide_eq_true in Hs as [c' Hs]. rewrite Hsnoc. intros (_ & _ & Hn & _).
    apply (selection_unused _ _ _ Hr) in Hn. congruence. }
  apply bool_decide_eq_false, eq_None_not_Some, (selection_unused _ _ _ Hr) in Hs.
  pose proof (identity_check _ _ _ c Hr Hc) as Hid.
  match type of Hid with ?b = false ↔ _ => destruct b end; cbn [raise_if res_bind].
  - rewrite Hsnoc. intros (_ & _ & _ & H). by apply Hid in H.
  - split; [apply Hsnoc; split_and!; [done..|by apply Hid]|]. by apply index_connection_indexed.
Qed.

Lemma index_connections_spec allow cs pre r :
  indexed pre r → consistent allow pre →
  match index_connections allow cs r with
  | Ok r' => consistent allow (pre ++ cs) ∧ indexed (pre ++ cs) r'
  | Err _ => ¬ consistent allow (pre ++ cs)
  end.
Proof.
  revert pre r. induction cs as [|c cs IH]; intros pre r Hr Hc; cbn; [by rewrite app_nil_r|].
  pose proof (index_connection_spec allow pre r c Hr Hc) as H.
  destruct (index_connection allow r c) as [r'|e]; cbn.
  - destruct H as [Hc' Hr']. specialize (IH (pre ++ [c]) r' Hr' Hc'). by rewrite <- app_assoc in IH.
  - intros Hall. apply H. clear -Hall. replace (pre ++ c :: cs) with ((pre ++ [c]) ++ cs) in Hall by by rewrite <- app_assoc.
    destruct Hall as [H1 H2 H3]. split; [by apply Forall_app in H1 as [? _]|rewrite fmap_app in H2; by apply NoDup_app in H2 as (? & _)|].
    intros c1 c2 Hc1 Hc2. apply H3; by apply elem_of_app; left.
Qed.

Lemma new_resolver_spec allow cs :
  match new_resolver cs allow with
  | Ok r => consistent allow cs ∧ indexed cs r
  | Err _ => ¬ consistent allow cs
  end.
Proof.
  apply (index_connections_spec allow cs []).
  - split; cbn; set_solver.
  - split; [constructor|constructor|set_solver].
Qed.

Lemma resolve_ok cs r t k c :
  indexed cs r → resolve r t k = Ok c ↔ c ∈ cs ∧ selection c = (t, k).
Proof.
  intros Hr. rewrite <- (ix_selection _ _ Hr). unfold resolve. destruct (dict_get _ _); naive_solver.
Qed.

(** The pinned connection of a selected one: its own, or that of another tenant. *)
Lemma pinned_connection allow cs r t k c :
  consistent allow cs → indexed cs r → resolve r t k = Ok c →
  ∃ c', resolve_by_connection_id r (pc_connection_id c) k = Ok c' ∧ c' ∈ cs ∧
    pc_connection_id c' = pc_connection_id c ∧ pc_capability c' = k ∧
    same_transport c' c ∧ (pc_tenant_id c' = t → c' = c).
Proof.
  intros Hc Hr Hres. pose proof Hres as [Hin Hs]%(resolve_ok cs _ _ _ _ Hr). injection Hs as Ht Hk. subst t k.
  unfold resolve_by_connection_id. rewrite (ix_pinned _ _ Hr). set (l := filter _ cs).
  assert (c ∈ l) as Hl by (by apply list_elem_of_filter).
  destruct (last l) as [c'|] eqn:El; [|apply last_None in El; rewrite El in Hl; by apply elem_of_nil in Hl].
  exists c'. split; [done|]. apply last_Some_elem_of, list_elem_of_filter in El as [[Hi Hcap] Hin'].
  split_and!; [done..|by apply (co_transport _ _ Hc)|]. intros E.
  assert (resolve r (pc_tenant_id c) (pc_capability c) = Ok c') as H; [|congruence].
  apply (resolve_ok cs _ _ _ _ Hr). split; [done|]. unfold selection. congruence.
Qed.

(** C25: the configured connections are served exactly.  A configuration is accepted just when
    every connection uses https (or the development mode allows otherwise), no two serve the
    same tenant and capability, and those that share an identifier agree on base URL, credential
    and the way it is sent, timeouts and limits.  Then a tenant and capability resolve to the
    connection configured for them and to no other; and the identifier that a command is pinned
    to resolves to a configured connection with that identifier and capability, which agrees
    with the selected one on all of these, and is that very connection, endpoint included,
    unless it is another tenant's. *)
Theorem resolver_exact (cs : list ProviderConnection) (allow_insecure_http : bool) :
  let accepted :=
    (∀ c, c ∈ cs → url_scheme (pc_base_url c) = "https" ∨ allow_insecure_http = true) ∧
    NoDup ((λ c, (pc_tenant_id c, pc_capability c)) <$> cs) ∧
    (∀ c c', c ∈ cs → c' ∈ cs → pc_connection_id c = pc_connection_id c' → same_transport c c') in
  match new_resolver cs allow_insecure_http with
  | Err _ => ¬ accepted
  | Ok r =>
      accepted ∧
      (∀ t k c, resolve r t k = Ok c ↔ c ∈ cs ∧ pc_tenant_id c = t ∧ pc_capability c = k) ∧
      ∀ t k c, resolve r t k = Ok c →
        ∃ c', resolve_by_connection_id r (pc_connection_id c) k = Ok c' ∧ c' ∈ cs ∧
          pc_connection_id c' = pc_connection_id c ∧ pc_capability c' = k ∧
          same_transport c' c ∧ (pc_tenant_id c' = t → c' = c)
  end.
Proof.
  intros accepted. assert (consistent allow_insecure_http cs ↔ accepted) as Hacc.
  { unfold accepted. rewrite <- Forall_forall. split; [by intros [? ? ?]|by intros (? & ? & ?); split]. }
  pose proof (new_resolver_spec allow_insecure_http cs) as H. destruct (new_resolver _ _) as [r|e]; [|by rewrite Hacc in H].
  destruct H as [Hc Hr]. split; [by apply Hacc|]. split.
  - intros t k c. rewrite (resolve_ok cs) by done. unfold selection. naive_solver.
  - intros t k c. by eapply pinned_connection.
Qed.

(** Two tenants may share a connection and a capability; the commands of the first then meet
    the connection of the second. *)
Example shared_connection_replaced :
  let c tenant := mkProviderConnection "shop-1" tenant cap_order_operation (mkAnyHttpUrl "https" "https://p.example/")
    "/v1/commands" (mkProviderAuthentication sch_bearer (Some "token") None)
    (mkProviderTimeout (Finite 5) (Finite 30) (Finite 30)) 4 None in
  (let* r := new_resolver [c "tenant-a"; c "tenant-b"] false in
   let* selected := resolve r "tenant-a" cap_order_operation in
   let* pinned := resolve_by_connection_id r (pc_connection_id selected) cap_order_operation in
   Ok (pc_tenant_id selected, pc_tenant_id pinned)) = Ok ("tenant-a", "tenant-b").
Proof. reflexivity. Qed.

(** Connections that share an identifier but not a credential are refused; those that differ
    in their endpoint alone are not. *)
Example shared_connection_compared :
  let c capability endpoint token := mkProviderConnection "shop-1" "tenant-a" capability
    (mkAnyHttpUrl "https" "https://p.example/") endpoint (mkProviderAuthentication sch_bearer (Some token) None)
    (mkProviderTimeout (Finite 5) (Finite 30) (Finite 30)) 4 None in
  let orders := c cap_order_operation "/v1/commands" "token" in
  let stock := c cap_inventory_query in
  (∃ e, new_resolver [orders; stock "/v1/commands" "other"] false = Err e) ∧
  ∃ r, new_resolver [orders; stock "/v1/stock" "token"] false = Ok r.
Proof. split; eexists; reflexivity. Qed.
