(* ===== verification/IdentityConfig.v ===== *)
(** The identity trust contract, [auth/config.py]: the environment is read into the
    configuration of the token verifier and of the personnel directory, and production is held
    to its security controls.  Decoding JSON, reading a float from text and validating the
    host between the brackets of a URL are parameters. *)
From S2P Require Import Prelude Auth Retry Connections.

(** * Decoded JSON *)

(** What [json.loads] returns. *)
Inductive pyjson :=
  | PyNone
  | PyBool (b : bool)
  | PyInt (n : Z)
  | PyFloat (x : float)
  | PyStr (s : string)
  | PyList (l : list pyjson)
  | PyDict (fields : list (string * pyjson)).

Abbreviation pydict := (list (string * pyjson)) (only parsing).

(** [value.get(key)] of a dict, [None] where the key is missing. *)
Definition py_get (key : string) (fields : pydict) : pyjson := default PyNone (dict_get key fields).

(** [s in value] for a list [value]. *)
Definition py_mem (s : string) (l : list pyjson) : bool :=
  existsb (λ v, match v with PyStr t => String.eqb t s | _ => false end) l.

(** [os.environ] *)
Abbreviation Environ := (gmap string string) (only parsing).

Record TextLibrary := mkTextLibrary {
  tl_json : string → option pyjson;
  tl_float : string → option float;
  tl_bracketed : string → bool;
}.

(** * Text *)

(** [s.split(c)] *)
Fixpoint split_on (c : ascii) (s : string) : list string :=
  match s with
  | EmptyString => [EmptyString]
  | String d s' =>
      if Ascii.eqb c d then EmptyString :: split_on c s'
      else match split_on c s' with
           | x :: l => String d x :: l
           | [] => [String d EmptyString]
           end
  end.

Definition is_alpha (c : ascii) : bool :=
  let n := N_of_ascii c in ((65 <=? n) && (n <=? 90) || (97 <=? n) && (n <=? 122))%N.
Definition is_decimal (c : ascii) : bool :=
  let n := N_of_ascii c in ((48 <=? n) && (n <=? 57))%N.

(** The blanks [int] skips: those of C and, beyond ASCII, those of Unicode. *)
Definition number_blank (c : ascii) : bool :=
  let n := N_of_ascii c in ((9 <=? n) && (n <=? 13) || (n =? 32) || (n =? 133) || (n =? 160))%N.

Fixpoint drop_blanks (blank : ascii → bool) (s : string) : string :=
  match s with
  | EmptyString => EmptyString
  | String c s' => if blank c then drop_blanks blank s' else s
  end.

Fixpoint drop_last_blanks (blank : ascii → bool) (s : string) : string :=
  match s with
  | EmptyString => EmptyString
  | String c s' =>
      match drop_last_blanks blank s' with
      | EmptyString => if blank c then EmptyString else String c EmptyString
      | r => String c r
      end
  end.

(** Digits with single underscores between them, after the digits that make [n]. *)
Fixpoint digits_from (n : Z) (s : string) : option Z :=
  match s with
  | EmptyString => Some n
  | String c s' =>
      if is_decimal c then digits_from (10 * n + Z.of_N (N_of_ascii c) - 48) s'
      else match s' with
           | String d s'' =>
               if Ascii.eqb c "_" && is_decimal d
               then digits_from (10 * n + Z.of_N (N_of_ascii d) - 48) s'' else None
           | EmptyString => None
           end
  end.

Definition digits_value (s : string) : option Z :=
  match s with
  | String c s' => if is_decimal c then digits_from (Z.of_N (N_of_ascii c) - 48) s' else None
  | EmptyString => None
  end.

(** [int(text)] *)
Definition py_int (text : string) : option Z :=
  match drop_last_blanks number_blank (drop_blanks number_blank text) with
  | String "+" s => digits_value s
  | String "-" s => Z.opp <$> digits_value s
  | s => digits_value s
  end.

(** * [urlsplit] *)

Record SplitResult := mkSplitResult {
  scheme : string;
  netloc : string;
  url_path : string;
  url_query : string;
  fragment : string;
}.

Definition scheme_char (c : ascii) : bool :=
  is_alpha c || is_decimal c || has_char c "+-.".

(** Leading controls and blanks go, then every tab and line break. *)
Definition clean_url (url : string) : string :=
  let url := drop_blanks (λ c, (N_of_ascii c <=? 32)%N) url in
  String.string_of_list_ascii
    (filter (λ c, has_char c (String "009" (String "010" (String "013" ""))) = false)
            (String.list_ascii_of_string url)).

Definition split_scheme (url : string) : string * string :=
  match split_once ":" url with
  | Some (String c a, b) =>
      if is_alpha c && all_chars scheme_char (String c a) then (lower (String c a), b)
      else (EmptyString, url)
  | _ => (EmptyString, url)
  end.

(** [_splitnetloc]: up to the first of slash, question mark and hash. *)
Fixpoint split_netloc (s : string) : string * string :=
  match s with
  | EmptyString => (EmptyString, EmptyString)
  | String c s' =>
      if has_char c "/?#" then (EmptyString, s)
      else let '(a, b) := split_netloc s' in (String c a, b)
  end.

Definition before_first (c : ascii) (s : string) : string * string :=
  match split_once c s with Some (a, b) => (a, b) | None => (s, EmptyString) end.

Definition urlsplit (bracketed : string → bool) (text : string) : res SplitResult :=
  let '(scheme, url) := split_scheme (clean_url text) in
  let* '(netloc, url) :=
    match url with
    | String "/" (String "/" rest) =>
        let '(netloc, url) := split_netloc rest in
        raise_if (negb (Bool.eqb (has_char "[" netloc) (has_char "]" netloc))) (ValueError "Invalid IPv6 URL");;;
        raise_if (has_char "[" netloc && negb (bracketed netloc)) (ValueError "Invalid IPv6 URL");;;
        Ok (netloc, url)
    | _ => Ok (EmptyString, url)
    end in
  let '(url, fragment) := before_first "#" url in
  let '(url, query) := before_first "?" url in
  Ok (mkSplitResult scheme netloc url query fragment).

(** * Configuration models *)

Section Config.
Context (lib : TextLibrary).

Definition validate_absolute_http_url (value field : string) : res unit :=
  let* parsed := urlsplit (tl_bracketed lib) value in
  raise_if (negb (bool_decide (scheme parsed ∈ ["http"; "https"])) || negb (nonempty (netloc parsed)))
    (ValueError (field +:+ " must be an absolute HTTP URL"));;;
  raise_if (has_char "@" (netloc parsed) || nonempty (fragment parsed))
    (ValueError (field +:+ " must not contain credentials or fragments")).

Definition require_https (value field : string) : res unit :=
  let* parsed := urlsplit (tl_bracketed lib) value in
  raise_if (negb (String.eqb (scheme parsed) "https"))
    (ValueError ("production " +:+ field +:+ " must use HTTPS")).

(** The loop both models run over their role mapping: every role has values, none blank, and no
    value is another role's. *)
Fixpoint check_role_values (empty overlap : string) (seen : gset string) (values : list (gset string)) :
    res unit :=
  match values with
  | [] => Ok tt
  | groups :: values' =>
      raise_if (bool_decide (groups = ∅) || existsb (λ g, negb (has_ink g)) (elements groups))
        (ValueError empty);;;
      let normalized : gset string := set_map strip groups in
      raise_if (bool_decide (seen ∩ normalized ≠ ∅)) (ValueError overlap);;;
      check_role_values empty overlap (seen ∪ normalized) values'
  end.

Definition strip_values (m : list (Role * gset string)) : list (Role * gset string) :=
  (λ p, (p.1, set_map strip p.2)) <$> m.

(** [ClaimMappingConfig.validate_claim_name] *)
Definition validate_claim_name (value : string) : res unit :=
  raise_if (negb (all_chars (λ c, negb (is_space c || (N_of_ascii c <? 32)%N)) value))
    (ValueError "claim names must not contain whitespace or controls").

Definition validate_role_groups (m : ClaimMappingConfig) : res unit :=
  raise_if (bool_decide (role_groups m = [])) (ValueError "at least one role group mapping is required");;;
  check_role_values "each configured role requires non-empty groups"
    "an external group cannot map to multiple roles" ∅ (snd <$> role_groups m).

Definition ClaimMappingConfig_validate (m : ClaimMappingConfig) : res ClaimMappingConfig :=
  let m := mkClaimMapping (strip (user_id_claim m)) (strip (tenant_id_claim m)) (strip (groups_claim m))
             (strip_values (role_groups m)) in
  raise_if (negb (nonempty (user_id_claim m) && nonempty (tenant_id_claim m) && nonempty (groups_claim m)))
    (ValidationError "ClaimMappingConfig");;;
  validating "ClaimMappingConfig"
    (validate_claim_name (user_id_claim m);;; validate_claim_name (tenant_id_claim m);;;
     validate_claim_name (groups_claim m);;; validate_role_groups m);;;
  Ok m.

(** [JwtAlgorithm] *)
Definition JwtAlgorithm : gset string :=
  {["RS256"; "RS384"; "RS512"; "PS256"; "PS384"; "PS512"; "ES256"; "ES384"; "ES512"; "EdDSA"]}.

Record OidcVerifierConfig := mkOidcVerifierConfig {
  issuer : string;
  audience : string;
  jwks_url : string;
  algorithms : gset string;
  oidc_claims : ClaimMappingConfig;
  jwks_cache_ttl_seconds : Z;
  jwks_timeout_seconds : float;
  clock_skew_seconds : Z;
}.

(** [gt=0, le=30] *)
Definition timeout_ok (x : float) : bool :=
  match x with Finite q => Qltb 0 q && Qle_bool q 30 | NotFinite => false end.

Definition validate_trust_policy (c : OidcVerifierConfig) : res unit :=
  raise_if (bool_decide (algorithms c = ∅)) (ValueError "at least one JWT algorithm is required");;;
  validate_absolute_http_url (issuer c) "issuer";;;
  validate_absolute_http_url (jwks_url c) "jwks_url".

Definition OidcVerifierConfig_validate (c : OidcVerifierConfig) : res OidcVerifierConfig :=
  let* claims := validating "OidcVerifierConfig" (ClaimMappingConfig_validate (oidc_claims c)) in
  let c := mkOidcVerifierConfig (strip (issuer c)) (strip (audience c)) (strip (jwks_url c)) (algorithms c)
             claims (jwks_cache_ttl_seconds c) (jwks_timeout_seconds c) (clock_skew_seconds c) in
  raise_if (negb (nonempty (issuer c) && nonempty (audience c) && nonempty (jwks_url c)
                  && bool_decide (algorithms c ⊆ JwtAlgorithm)
                  && (1 <=? jwks_cache_ttl_seconds c) && (jwks_cache_ttl_seconds c <=? 86400)
                  && timeout_ok (jwks_timeout_seconds c)
                  && (0 <=? clock_skew_seconds c) && (clock_skew_seconds c <=? 300)))
    (ValidationError "OidcVerifierConfig");;;
  validating "OidcVerifierConfig" (validate_trust_policy c);;;
  Ok c.

Record ScimDirectoryConfig := mkScimDirectoryConfig {
  base_url : string;
  bearer_token : string;
  user_id_attribute : string;
  tenant_id_attribute : string;
  active_attribute : string;
  roles_attribute : string;
  role_mapping : list (Role * gset string);
  timeout_seconds : float;
}.

(** [ScimDirectoryConfig.validate_attribute_path] *)
Definition validate_attribute_path (value : string) : res unit :=
  raise_if (negb (all_chars (λ c, is_alpha c || is_decimal c || has_char c "$-_.:") value))
    (ValueError "SCIM attribute paths contain unsupported characters").

Definition validate_directory_policy (c : ScimDirectoryConfig) : res unit :=
  raise_if (negb (nonempty (strip (bearer_token c)))) (ValueError "SCIM bearer token must not be empty");;;
  validate_absolute_http_url (base_url c) "base_url";;;
  raise_if (bool_decide (role_mapping c = [])) (ValueError "at least one SCIM role mapping is required");;;
  check_role_values "each SCIM role mapping requires non-empty values"
    "a SCIM role cannot map to multiple application roles" ∅ (snd <$> role_mapping c).

Definition ScimDirectoryConfig_validate (c : ScimDirectoryConfig) : res ScimDirectoryConfig :=
  let c := mkScimDirectoryConfig (strip (base_url c)) (bearer_token c) (strip (user_id_attribute c))
             (strip (tenant_id_attribute c)) (strip (active_attribute c)) (strip (roles_attribute c))
             (strip_values (role_mapping c)) (timeout_seconds c) in
  raise_if (negb (nonempty (base_url c) && nonempty (user_id_attribute c) && nonempty (tenant_id_attribute c)
                  && nonempty (active_attribute c) && nonempty (roles_attribute c)
                  && timeout_ok (timeout_seconds c)))
    (ValidationError "ScimDirectoryConfig");;;
  validating "ScimDirectoryConfig"
    (validate_attribute_path (user_id_attribute c);;; validate_attribute_path (tenant_id_attribute c);;;
     validate_attribute_path (active_attribute c);;; validate_attribute_path (roles_attribute c);;;
     validate_directory_policy c);;;
  Ok c.

Inductive ApplicationMode := development | test | production.
Inductive IdentityBackend := ib_demo | ib_oidc.
Inductive DirectoryBackend := db_none | db_scim.

#[export] Instance ApplicationMode_eq_dec : EqDecision ApplicationMode.
Proof. solve_decision. Defined.
#[export] Instance IdentityBackend_eq_dec : EqDecision IdentityBackend.
Proof. solve_decision. Defined.
#[export] Instance DirectoryBackend_eq_dec : EqDecision DirectoryBackend.
Proof. solve_decision. Defined.

Definition application_modes : list (string * ApplicationMode) :=
  [("development", development); ("test", test); ("production", production)].
Definition identity_backends : list (string * IdentityBackend) := [("demo", ib_demo); ("oidc", ib_oidc)].
Definition directory_backends : list (string * DirectoryBackend) := [("none", db_none); ("scim", db_scim)].

(** A field whose type is a [Literal]. *)
Definition literal_value {A} (model : string) (choices : list (string * A)) (s : string) : res A :=
  match dict_get s choices with Some a => Ok a | None => Err (ValidationError model) end.

Record IdentityRuntimeConfig := mkIdentityRuntimeConfig {
  mode : ApplicationMode;
  identity_backend : IdentityBackend;
  directory_backend : DirectoryBackend;
  oidc : option OidcVerifierConfig;
  scim : option ScimDirectoryConfig;
}.

Definition validate_selected_backends (c : IdentityRuntimeConfig) : res unit :=
  raise_if (negb (Bool.eqb (bool_decide (identity_backend c = ib_oidc)) (bool_decide (is_Some (oidc c)))))
    (ValueError "OIDC configuration must match the selected backend");;;
  raise_if (negb (Bool.eqb (bool_decide (directory_backend c = db_scim)) (bool_decide (is_Some (scim c)))))
    (ValueError "SCIM configuration must match the selected backend");;;
  if bool_decide (mode c = production) then
    raise_if (bool_decide (identity_backend c ≠ ib_oidc)) (ValueError "production requires OIDC authentication");;;
    raise_if (bool_decide (directory_backend c ≠ db_scim)) (ValueError "production requires a SCIM directory");;;
    match oidc c, scim c with
    | Some o, Some s =>
        require_https (issuer o) "issuer";;;
        require_https (jwks_url o) "jwks_url";;;
        require_https (base_url s) "SCIM base URL"
    | _, _ => Err AssertionError
    end
  else Ok tt.

(** * Reading the environment *)

(** [_required] *)
Definition required (environment : Environ) (name : string) : res string :=
  match environment !! name with
  | Some value =>
      raise_if (negb (nonempty (strip value))) IdentityConfigurationError;;; Ok (strip value)
  | None => Err IdentityConfigurationError
  end.

Definition load_json (environment : Environ) (name : string) : res pyjson :=
  let* text := required environment name in
  match tl_json lib text with Some v => Ok v | None => Err IdentityConfigurationError end.

(** [_csv] *)
Definition csv (environment : Environ) (name : string) : res (list string) :=
  let* text := required environment name in
  let values := strip <$> split_on "," text in
  raise_if (negb (forallb nonempty values)) IdentityConfigurationError;;; Ok values.

Definition integer (environment : Environ) (name : string) (default : Z) : res Z :=
  match environment !! name with
  | None => Ok default
  | Some text => match py_int text with Some n => Ok n | None => Err IdentityConfigurationError end
  end.

Definition floating (environment : Environ) (name : string) (default : Q) : res float :=
  match environment !! name with
  | None => Ok (Finite default)
  | Some text => match tl_float lib text with Some x => Ok x | None => Err IdentityConfigurationError end
  end.

(** [frozenset[str]] from decoded JSON, and a dict of them keyed by roles. *)
Fixpoint strings_of (l : list pyjson) : option (list string) :=
  match l with
  | [] => Some []
  | PyStr s :: l' => cons s <$> strings_of l'
  | _ :: _ => None
  end.

Fixpoint role_sets (fields : pydict) : option (list (Role * gset string)) :=
  match fields with
  | [] => Some []
  | (key, PyList l) :: fields' =>
      r ← snd <$> list_find (λ r, role_str r = key) [customer; support_agent; supervisor];
      values ← strings_of l;
      rest ← role_sets fields';
      Some ((r, list_to_set values) :: rest)
  | _ :: _ => None
  end.

Definition role_sets_of (model : string) (v : pyjson) : res (list (Role * gset string)) :=
  match v with
  | PyDict fields => match role_sets fields with Some m => Ok m | None => Err (ValidationError model) end
  | _ => Err (ValidationError model)
  end.

(** [_load_oidc_config], and the model its fields make. *)
Definition load_oidc_config (environment : Environ) : res OidcVerifierConfig :=
  let* groups := load_json environment "OIDC_ROLE_GROUPS_JSON" in
  let* issuer := required environment "OIDC_ISSUER" in
  let* audience := required environment "OIDC_AUDIENCE" in
  let* jwks_url := required environment "OIDC_JWKS_URL" in
  let* algorithms := csv environment "OIDC_ALLOWED_ALGORITHMS" in
  let* user := required environment "OIDC_USER_ID_CLAIM" in
  let* tenant := required environment "OIDC_TENANT_ID_CLAIM" in
  let* groups_claim := required environment "OIDC_GROUPS_CLAIM" in
  let* ttl := integer environment "OIDC_JWKS_CACHE_TTL_SECONDS" 300 in
  let* timeout := floating environment "OIDC_JWKS_TIMEOUT_SECONDS" 5 in
  let* skew := integer environment "OIDC_CLOCK_SKEW_SECONDS" 60 in
  let* role_groups := role_sets_of "ClaimMappingConfig" groups in
  OidcVerifierConfig_validate
    (mkOidcVerifierConfig issuer audience jwks_url (list_to_set algorithms)
       (mkClaimMapping user tenant groups_claim role_groups) ttl timeout skew).

Definition load_scim_config (environment : Environ) : res ScimDirectoryConfig :=
  let* base_url := required environment "SCIM_BASE_URL" in
  let* token := required environment "SCIM_BEARER_TOKEN" in
  let* user := required environment "SCIM_USER_ID_ATTRIBUTE" in
  let* tenant := required environment "SCIM_TENANT_ID_ATTRIBUTE" in
  let* active := required environment "SCIM_ACTIVE_ATTRIBUTE" in
  let* roles := required environment "SCIM_ROLES_ATTRIBUTE" in
  let* mapping := load_json environment "SCIM_ROLE_MAPPING_JSON" in
  let* timeout := floating environment "SCIM_TIMEOUT_SECONDS" 5 in
  let* role_mapping := role_sets_of "ScimDirectoryConfig" mapping in
  ScimDirectoryConfig_validate
    (mkScimDirectoryConfig base_url token user tenant active roles role_mapping timeout).

(** The body of the [try] of [from_environment]: a backend is configured when it is selected. *)
Definition read_environment (environment : Environ) : res IdentityRuntimeConfig :=
  let* mode := required environment "APP_ENV" in
  let* identity := required environment "IDENTITY_PROVIDER" in
  let* directory := required environment "IDENTITY_DIRECTORY" in
  let* oidc := if String.eqb identity "oidc"
               then let* c := load_oidc_config environment in Ok (Some c) else Ok None in
  let* scim := if String.eqb directory "scim"
               then let* c := load_scim_config environment in Ok (Some c) else Ok None in
  let* mode := literal_value "IdentityRuntimeConfig" application_modes mode in
  let* identity := literal_value "IdentityRuntimeConfig" identity_backends identity in
  let* directory := literal_value "IdentityRuntimeConfig" directory_backends directory in
  let c := mkIdentityRuntimeConfig mode identity directory oidc scim in
  validating "IdentityRuntimeConfig" (validate_selected_backends c);;;
  Ok c.

(** [IdentityRuntimeConfig.from_environment] *)
Definition identity_from_environment (environment : Environ) : res IdentityRuntimeConfig :=
  match read_environment environment with
  | Ok c => Ok c
  | Err e =>
      if bool_decide (e = IdentityConfigurationError) || is_ValueError e
      then Err IdentityConfigurationError else Err e
  end.
End Config.

Definition redacted_summary (c : IdentityRuntimeConfig) : pydict :=
  [("mode", PyStr (match mode c with development => "development" | test => "test" | production => "production" end));
   ("identity_backend", PyStr (match identity_backend c with ib_demo => "demo" | ib_oidc => "oidc" end));
   ("directory_backend", PyStr (match directory_backend c with db_none => "none" | db_scim => "scim" end));
   ("oidc_configured", PyBool (bool_decide (is_Some (oidc c))));
   ("scim_configured", PyBool (bool_decide (is_Some (scim c))))].

(** * Production controls *)

Record ProductionSecurityControls := mkProductionSecurityControls {
  demo_tokens_configured : bool;
  studio_auth_disabled : bool;
  provider_allow_insecure_http : bool;
}.

Definition validate_production_security_controls (config : IdentityRuntimeConfig)
    (controls : ProductionSecurityControls) : res unit :=
  if bool_decide (mode config ≠ production) then Ok tt
  else
    raise_if (demo_tokens_configured controls) IdentityConfigurationError;;;
    raise_if (negb (studio_auth_disabled controls)) IdentityConfigurationError;;;
    raise_if (provider_allow_insecure_http controls) IdentityConfigurationError.

(** * What a validated configuration establishes *)

(** No value belongs to two roles. *)
Definition values_disjoint (values : list (gset string)) : Prop :=
  ∀ i j g h, values !! i = Some g → values !! j = Some h → i ≠ j → g ## h.

Lemma strip_map_idem (g : gset string) : set_map strip (set_map strip g : gset string) = (set_map strip g : gset string).
Proof.
  apply leibniz_equiv. intros x. rewrite !elem_of_map. split.
  - intros (y & -> & (z & -> & Hz)%elem_of_map). exists z. by rewrite strip_idem.
  - intros (y & -> & Hy). exists (strip y). rewrite strip_idem. split; [done|]. apply elem_of_map. eauto.
Qed.

Lemma check_role_values_ok empty overlap values : ∀ seen,
  Forall (λ g : gset string, set_map strip g = g) values →
  check_role_values empty overlap seen values = Ok tt →
  values_disjoint values ∧ Forall (λ g, g ## seen ∧ g ≠ ∅ ∧ ∀ x, x ∈ g → has_ink x = true) values.
Proof.
  induction values as [|g values IH]; intros seen Hst H; [split; [done|constructor]|].
  inversion Hst as [|? ? Hg Hst']; subst. cbn in H.
  apply res_bind_ok in H as (? & Hne%raise_if_ok & H). apply res_bind_ok in H as (? & Hd%raise_if_ok & H). bools.
  rewrite Hg in H, Hd. apply dec_stable in Hd.
  destruct (IH _ Hst' H) as [Hdis Hall]. split.
  - assert (∀ k h, values !! k = Some h → g ## h) as Hgh.
    { intros k h Hh. rewrite Forall_lookup in Hall. destruct (Hall k h Hh) as [Hx _]. set_solver. }
    intros [|i] [|j] g1 g2 Hg1 Hg2 Hij; cbn in *; simplify_eq; [by eapply Hgh|symmetry; by eapply Hgh|].
    eapply Hdis; [done..|]. intros ->. done.
  - constructor.
    + split; [set_solver|]. split; [done|]. intros y Hy. destruct (has_ink y) eqn:E; [done|]. exfalso.
      assert (existsb (λ g, negb (has_ink g)) (elements g) = true) as Hex; [|congruence].
      apply existsb_exists. exists y. rewrite E. split; [|done]. by apply list_elem_of_In, elem_of_elements.
    + eapply Forall_impl; [exact Hall|]. cbn. intros h (Hh & Hrest). split; [set_solver|done].
Qed.

Lemma strip_values_stripped m : Forall (λ g : gset string, set_map strip g = g) (snd <$> strip_values m).
Proof.
  apply Forall_forall. intros g Hg. apply list_elem_of_fmap in Hg as (p & -> & Hp).
  apply list_elem_of_fmap in Hp as (q & -> & _). cbn. apply strip_map_idem.
Qed.

(** A mapping in which an external group belongs to one role at most. *)
Definition mapping_ok (m : list (Role * gset string)) : Prop :=
  m ≠ [] ∧ values_disjoint m.*2 ∧ Forall (λ g, g ≠ ∅ ∧ ∀ x, x ∈ g → has_ink x = true) m.*2.

Lemma checked_mapping_ok empty overlap m u :
  strip_values m ≠ [] → check_role_values empty overlap ∅ (strip_values m).*2 = Ok u →
  mapping_ok (strip_values m).
Proof.
  destruct u. intros Hne H. apply check_role_values_ok in H as [Hd Ha]; [|apply strip_values_stripped].
  split; [done|]. split; [done|]. eapply Forall_impl; [exact Ha|]. cbn. tauto.
Qed.

Lemma mapping_ok_unique m i j p q x :
  mapping_ok m → m !! i = Some p → m !! j = Some q → x ∈ p.2 → x ∈ q.2 → i = j.
Proof.
  intros (_ & Hd & _) Hi Hj Hp Hq. destruct (decide (i = j)) as [|Hne]; [done|]. exfalso.
  assert (p.2 ## q.2) as Hdis; [|set_solver].
  apply (Hd i j); [by rewrite list_lookup_fmap, Hi|by rewrite list_lookup_fmap, Hj|done].
Qed.

Section ConfigFacts.
Context (lib : TextLibrary).

Lemma ClaimMappingConfig_validate_ok m m' :
  ClaimMappingConfig_validate m = Ok m' → mapping_ok (role_groups m').
Proof.
  unfold ClaimMappingConfig_validate. intros H. apply res_bind_ok in H as (? & _ & H).
  apply res_bind_ok in H as (u & Hv%validating_ok & [= <-]). cbn.
  do 3 apply res_bind_ok in Hv as (? & _ & Hv). unfold validate_role_groups in Hv. cbn in Hv.
  apply res_bind_ok in Hv as (? & Hne%raise_if_ok & Hv). bools. by eapply checked_mapping_ok.
Qed.

(** The scheme and host of a configured endpoint. *)
Definition absolute_url (value : string) : Prop :=
  ∃ p, urlsplit (tl_bracketed lib) value = Ok p ∧ (scheme p = "http" ∨ scheme p = "https") ∧
    netloc p ≠ "" ∧ has_char "@" (netloc p) = false ∧ fragment p = "".

Definition https_url (value : string) : Prop :=
  ∃ p, urlsplit (tl_bracketed lib) value = Ok p ∧ scheme p = "https".

Lemma validate_absolute_http_url_ok value field u :
  validate_absolute_http_url lib value field = Ok u → absolute_url value.
Proof.
  unfold validate_absolute_http_url. intros H. apply res_bind_ok in H as (p & Hp & H). exists p.
  apply res_bind_ok in H as (? & Ha%raise_if_ok & Hb%raise_if_ok). bools.
  destruct (netloc p) eqn:En; [done|]. destruct (fragment p); [|done]. split; [done|]. split; [|done]. set_solver.
Qed.

Lemma require_https_ok value field u : require_https lib value field = Ok u → https_url value.
Proof.
  unfold require_https. intros H. apply res_bind_ok in H as (p & Hp & H). exists p.
  apply raise_if_ok in H. bools. by apply String.eqb_eq in H.
Qed.

(** A token verifier or a directory as it is configured. *)
Definition oidc_ok (c : OidcVerifierConfig) : Prop :=
  algorithms c ≠ ∅ ∧ algorithms c ⊆ JwtAlgorithm ∧ mapping_ok (role_groups (oidc_claims c)) ∧
  absolute_url (issuer c) ∧ absolute_url (jwks_url c) ∧
  1 ≤ jwks_cache_ttl_seconds c ≤ 86400 ∧ 0 ≤ clock_skew_seconds c ≤ 300.

Definition scim_ok (c : ScimDirectoryConfig) : Prop :=
  has_ink (bearer_token c) = true ∧ mapping_ok (role_mapping c) ∧ absolute_url (base_url c).

Lemma OidcVerifierConfig_validate_ok c c' : OidcVerifierConfig_validate lib c = Ok c' → oidc_ok c'.
Proof.
  unfold OidcVerifierConfig_validate. intros H. apply res_bind_ok in H as (m & Hm%validating_ok & H).
  apply res_bind_ok in H as (? & Hf%raise_if_ok & H). cbn in Hf. bools.
  apply res_bind_ok in H as (? & Hv%validating_ok & [= <-]). unfold validate_trust_policy in Hv. cbn in Hv.
  apply res_bind_ok in Hv as (? & Ha%raise_if_ok & Hv). bools. apply res_bind_ok in Hv as (? & Hi & Hv).
  apply ClaimMappingConfig_validate_ok in Hm. apply validate_absolute_http_url_ok in Hi, Hv.
  split_and!; try done; cbn; lia.
Qed.

Lemma ScimDirectoryConfig_validate_ok c c' : ScimDirectoryConfig_validate lib c = Ok c' → scim_ok c'.
Proof.
  unfold ScimDirectoryConfig_validate. intros H. apply res_bind_ok in H as (? & _ & H).
  apply res_bind_ok in H as (? & Hv%validating_ok & [= <-]). do 4 apply res_bind_ok in Hv as (? & _ & Hv).
  unfold validate_directory_policy in Hv. cbn in Hv.
  apply res_bind_ok in Hv as (? & Ht%raise_if_ok & Hv). apply res_bind_ok in Hv as (? & Hu & Hv).
  apply res_bind_ok in Hv as (? & Hne%raise_if_ok & Hv). bools. rewrite nonempty_strip in Ht.
  apply validate_absolute_http_url_ok in Hu. split_and!; [done| |done]. by eapply checked_mapping_ok.
Qed.

(** A configuration the environment yields: each backend is configured exactly when it is
    selected, and production selects both, over HTTPS. *)
Definition config_ok (c : IdentityRuntimeConfig) : Prop :=
  (identity_backend c = ib_oidc ↔ is_Some (oidc c)) ∧ (directory_backend c = db_scim ↔ is_Some (scim c)) ∧
  (∀ o, oidc c = Some o → oidc_ok o) ∧ (∀ s, scim c = Some s → scim_ok s) ∧
  (mode c = production →
   ∃ o s, oidc c = Some o ∧ scim c = Some s ∧ https_url (issuer o) ∧ https_url (jwks_url o) ∧ https_url (base_url s)).

Lemma eqb_bool_decide (P Q : Prop) `{Decision P, Decision Q} :
  negb (Bool.eqb (bool_decide P) (bool_decide Q)) = false → (P ↔ Q).
Proof. do 2 case_bool_decide; naive_solver. Qed.

Lemma read_environment_ok env c : read_environment lib env = Ok c → config_ok c.
Proof.
  unfold read_environment. intros H. do 3 apply res_bind_ok in H as (? & _ & H).
  apply res_bind_ok in H as (o & Ho & H). apply res_bind_ok in H as (s & Hs & H).
  do 3 apply res_bind_ok in H as (? & _ & H). apply res_bind_ok in H as (? & Hv%validating_ok & [= <-]).
  unfold validate_selected_backends in Hv. cbn in Hv.
  apply res_bind_ok in Hv as (? & H1%raise_if_ok & Hv). apply res_bind_ok in Hv as (? & H2%raise_if_ok & Hv).
  apply eqb_bool_decide in H1, H2. split; [done|]. split; [done|]. split; [|split].
  - cbn. intros c ->. destruct (String.eqb _ "oidc"); [|done]. apply res_bind_ok in Ho as (c' & Hc & [= ->]).
    unfold load_oidc_config in Hc. do 12 apply res_bind_ok in Hc as (? & _ & Hc).
    exact (OidcVerifierConfig_validate_ok _ _ Hc).
  - cbn. intros c ->. destruct (String.eqb _ "scim"); [|done]. apply res_bind_ok in Hs as (c' & Hc & [= ->]).
    unfold load_scim_config in Hc. do 9 apply res_bind_ok in Hc as (? & _ & Hc).
    exact (ScimDirectoryConfig_validate_ok _ _ Hc).
  - cbn. intros ->. rewrite bool_decide_true in Hv by done. do 2 apply res_bind_ok in Hv as (? & _ & Hv).
    destruct o as [o|]; [|done]. destruct s as [s|]; [|done]. exists o, s. split; [done|]. split; [done|].
    apply res_bind_ok in Hv as (? & Hi%require_https_ok & Hv). apply res_bind_ok in Hv as (? & Hj%require_https_ok & Hv).
    by apply require_https_ok in Hv.
Qed.

(** Whatever is wrong with the environment, one error says so. *)
Definition config_error (e : exn) : Prop := e = IdentityConfigurationError ∨ is_ValueError e = true.

Lemma config_error_ICE : config_error IdentityConfigurationError. Proof. by left. Qed.
Lemma config_error_model model : config_error (ValidationError model). Proof. by right. Qed.
#[local] Hint Resolve config_error_ICE config_error_model : raising.

Lemma required_raises env name : only_raises config_error (required env name).
Proof. unfold required. raising. Qed.
Lemma integer_raises env name d : only_raises config_error (integer env name d).
Proof. unfold integer. raising. Qed.
Lemma floating_raises env name d : only_raises config_error (floating lib env name d).
Proof. unfold floating. raising. Qed.
#[local] Hint Resolve required_raises integer_raises floating_raises : raising.
Lemma load_json_raises env name : only_raises config_error (load_json lib env name).
Proof. unfold load_json. raising. Qed.
Lemma csv_raises env name : only_raises config_error (csv env name).
Proof. unfold csv. raising. Qed.
Lemma role_sets_of_raises model v : only_raises config_error (role_sets_of model v).
Proof. unfold role_sets_of. raising. Qed.
Lemma literal_value_raises {A} model (choices : list (string * A)) s : only_raises config_error (literal_value model choices s).
Proof. unfold literal_value. raising. Qed.
#[local] Hint Resolve load_json_raises csv_raises role_sets_of_raises literal_value_raises : raising.
Lemma OidcVerifierConfig_validate_raises c : only_raises config_error (OidcVerifierConfig_validate lib c).
Proof. unfold OidcVerifierConfig_validate. raising. Qed.
Lemma ScimDirectoryConfig_validate_raises c : only_raises config_error (ScimDirectoryConfig_validate lib c).
Proof. unfold ScimDirectoryConfig_validate. raising. Qed.
#[local] Hint Resolve OidcVerifierConfig_validate_raises ScimDirectoryConfig_validate_raises : raising.
Lemma load_oidc_config_raises env : only_raises config_error (load_oidc_config lib env).
Proof. unfold load_oidc_config. raising. Qed.
Lemma load_scim_config_raises env : only_raises config_error (load_scim_config lib env).
Proof. unfold load_scim_config. raising. Qed.
#[local] Hint Resolve load_oidc_config_raises load_scim_config_raises : raising.

Lemma identity_from_environment_ok env c : identity_from_environment lib env = Ok c → config_ok c.
Proof.
  unfold identity_from_environment. destruct (read_environment lib env) eqn:E; [|by case_match].
  intros [= ->]. by eapply read_environment_ok.
Qed.

Lemma identity_from_environment_raises env :
  only_raises (λ e, e = IdentityConfigurationError) (identity_from_environment lib env).
Proof.
  intros e. unfold identity_from_environment. destruct (read_environment lib env) as [|x] eqn:E; [done|].
  assert (only_raises config_error (read_environment lib env)) as Hr by (unfold read_environment; raising).
  destruct (Hr _ E) as [->|Hv].
  - by intros [= <-].
  - rewrite Hv, orb_true_r. by intros [= <-].
Qed.
End ConfigFacts.
