(* ===== verification/Jwks.v ===== *)
(** The cache of an issuer's signing keys, [auth/jwks.py].  What asyncio may do between two
    awaits is one event; the lock may be handed to any of its waiters.  [Key] is a parsed key
    ([PyJWK]); parsing one, decoding JSON and rounding a sum of floats are parameters. *)
From Stdlib Require Import QArith.
From S2P Require Import Prelude Auth Hmac Retry Connections IdentityConfig.

(** [_MAX_JWKS_BYTES], [_MAX_SIGNING_KEYS], [_MAX_KID_LENGTH] *)
Definition MAX_JWKS_BYTES : Z := 1048576.
Definition MAX_SIGNING_KEYS : Z := 32.
Definition MAX_KID_LENGTH : Z := 256.

(** * Fetching *)

(** What a GET comes to: no response, or one whose body arrives in chunks and may break off. *)
Record GetResponse := mkGetResponse {
  gr_status_code : Z;
  gr_content_length : option string;
  gr_chunks : list bytes;
  gr_complete : bool;
}.
Definition get_exchange : Type := option GetResponse.

(** The chunks of a body up to [limit] bytes. *)
Fixpoint read_bounded (limit : Z) (unavailable : exn) (chunks : list bytes) (complete : bool)
    (body : bytes) : res bytes :=
  match chunks with
  | [] => if complete then Ok body else Err unavailable
  | chunk :: chunks' =>
      let body := body ++ chunk in
      raise_if (limit <? Z.of_nat (length body)) unavailable;;;
      read_bounded limit unavailable chunks' complete body
  end.

Record JwksLibrary (Key : Type) := mkJwksLibrary {
  jl_json : bytes → option pyjson;
  jl_from_dict : pydict → option Key;
  jl_algorithm_name : Key → string;
}.
Arguments mkJwksLibrary {Key}.
Arguments jl_json {Key}.
Arguments jl_from_dict {Key}.
Arguments jl_algorithm_name {Key}.

Section Jwks.
Context {Key : Type} (lib : JwksLibrary Key).

Definition fetch_payload (answer : get_exchange) : res pyjson :=
  match answer with
  | None => Err IdentityInfrastructureUnavailableError
  | Some response =>
      raise_if ((gr_status_code response <? 200) || (300 <=? gr_status_code response))
        IdentityInfrastructureUnavailableError;;;
      match gr_content_length response with
      | None => Ok tt
      | Some text =>
          match py_int text with
          | None => Err IdentityInfrastructureUnavailableError
          | Some n => raise_if (MAX_JWKS_BYTES <? n) IdentityInfrastructureUnavailableError
          end
      end;;;
      let* body := read_bounded MAX_JWKS_BYTES IdentityInfrastructureUnavailableError
                     (gr_chunks response) (gr_complete response) [] in
      match jl_json lib body with
      | Some payload => Ok payload
      | None => Err IdentityInfrastructureUnavailableError
      end
  end.

(** * Parsing *)

Definition kid_ok (kid : string) : bool := nonempty (strip kid) && (str_len kid <=? MAX_KID_LENGTH).

(** Whether the declared uses of a key let it verify signatures: [use], [key_ops]. *)
Definition verifies (raw_key : pydict) : bool :=
  match default (PyStr "sig") (dict_get "use" raw_key) with PyStr s => String.eqb s "sig" | _ => false end
  && match py_get "key_ops" raw_key with
     | PyNone => true
     | PyList l => py_mem "verify" l
     | _ => false
     end.

(** The declared algorithm against the allowed ones: a list or a dict cannot be looked up in a
    set. *)
Definition declared_algorithm_ok (allowed_algorithms : gset string) (raw_key : pydict) : res bool :=
  match py_get "alg" raw_key with
  | PyNone => Ok true
  | PyStr s => Ok (bool_decide (s ∈ allowed_algorithms))
  | PyList _ | PyDict _ => Err (TypeError "unhashable type")
  | _ => Ok false
  end.

(** One round of the loop. *)
Definition parse_signing_key (allowed_algorithms : gset string) (raw_key : pyjson)
    (parsed : gmap string Key) : res (gmap string Key) :=
  match raw_key with
  | PyDict raw_key =>
      match py_get "kid" raw_key with
      | PyStr kid =>
          raise_if (negb (kid_ok kid)) IdentityInfrastructureUnavailableError;;;
          raise_if (bool_decide (is_Some (parsed !! strip kid))) IdentityInfrastructureUnavailableError;;;
          if negb (verifies raw_key) then Ok parsed
          else
            let* declared := declared_algorithm_ok allowed_algorithms raw_key in
            if negb declared then Ok parsed
            else
              match jl_from_dict lib raw_key with
              | None => Err IdentityInfrastructureUnavailableError
              | Some key =>
                  if bool_decide (jl_algorithm_name lib key ∈ allowed_algorithms)
                  then Ok (<[strip kid := key]> parsed) else Ok parsed
              end
      | _ => Err IdentityInfrastructureUnavailableError
      end
  | _ => Err IdentityInfrastructureUnavailableError
  end.

Fixpoint parse_each (allowed_algorithms : gset string) (raw_keys : list pyjson)
    (parsed : gmap string Key) : res (gmap string Key) :=
  match raw_keys with
  | [] => Ok parsed
  | raw_key :: raw_keys' =>
      let* parsed := parse_signing_key allowed_algorithms raw_key parsed in
      parse_each allowed_algorithms raw_keys' parsed
  end.

Definition parse_signing_keys (payload : pyjson) (allowed_algorithms : gset string) :
    res (gmap string Key) :=
  match payload with
  | PyDict fields =>
      match py_get "keys" fields with
      | PyList raw_keys =>
          raise_if (bool_decide (raw_keys = []) || (MAX_SIGNING_KEYS <? Z.of_nat (length raw_keys)))
            IdentityInfrastructureUnavailableError;;;
          let* parsed := parse_each allowed_algorithms raw_keys ∅ in
          raise_if (bool_decide (parsed = ∅)) IdentityInfrastructureUnavailableError;;;
          Ok parsed
      | _ => Err IdentityInfrastructureUnavailableError
      end
  | _ => Err IdentityInfrastructureUnavailableError
  end.

(** * [AsyncJwksCache] *)

Record JwksCache := mkJwksCache {
  jc_keys : gmap string Key;
  jc_expires_at : Q;
  jc_generation : Z;
  jc_last_refresh_failed : bool;
}.

Definition new_cache : JwksCache := mkJwksCache ∅ 0 0 false.

(** The policy of a cache, and how a float sum is rounded. *)
Context (allowed_algorithms : gset string) (ttl_seconds : Z) (rnd : Q → Q).

(** A cached key that has not expired at the clock reading [now]. *)
Definition cached_key (kid : string) (now : Q) (c : JwksCache) : option Key :=
  if Qltb now (jc_expires_at c) then jc_keys c !! kid else None.

(** What a caller that holds the lock finds without a refresh of its own. *)
Definition after_refresh (kid : string) (checked : Q) (c : JwksCache) : res Key :=
  match jc_keys c !! kid with
  | None => Err UnknownSigningKeyError
  | Some key =>
      raise_if (Qle_bool (jc_expires_at c) checked) IdentityInfrastructureUnavailableError;;; Ok key
  end.

(** The keys a response publishes; whatever goes wrong, the infrastructure is unavailable. *)
Definition published_keys (answer : get_exchange) : res (gmap string Key) :=
  match (let* payload := fetch_payload answer in parse_signing_keys payload allowed_algorithms) with
  | Ok keys => Ok keys
  | Err _ => Err IdentityInfrastructureUnavailableError
  end.

(** [_refresh_locked], once the response is there; [now] is the clock after it is parsed. *)
Definition refresh_locked (answer : get_exchange) (now : Q) (c : JwksCache) : JwksCache * res unit :=
  match published_keys answer with
  | Err e => (mkJwksCache (jc_keys c) (jc_expires_at c) (jc_generation c + 1) true, Err e)
  | Ok keys => (mkJwksCache keys (rnd (now + inject_Z ttl_seconds)%Q) (jc_generation c + 1) false, Ok tt)
  end.

(** ** Concurrent callers *)

(** What a caller wants of the lock: a key, with the generation it saw before, or the forced
    refresh of [refresh]. *)
Inductive want := WantKey (kid : string) (observed : Z) | WantRefresh.

Inductive phase := Waiting (w : want) | Fetching (w : want).

(** The cache in use: its callers, those that have been answered, and the refreshes that have
    completed, latest first. *)
Record cache_state := mkCacheState {
  cs_cache : JwksCache;
  cs_callers : gmap nat phase;
  cs_answers : list (string * Q * res Key);
  cs_refreshes : list (nat * want);
  cs_published : list (get_exchange * Q);
}.

Definition fresh_cache : cache_state := mkCacheState new_cache ∅ [] [] [].

Inductive cache_event :=
  | Ask (i : nat) (kid : string) (now : Q)
  | AskRefresh (i : nat)
  | Acquire (i : nat) (now checked : Q)
  | Fetched (i : nat) (answer : get_exchange) (now checked : Q)
  | CancelCaller (i : nat).

Definition is_fetching (p : phase) : bool := match p with Fetching _ => true | Waiting _ => false end.
Definition locked (callers : gmap nat phase) : bool :=
  existsb (λ p, is_fetching p.2) (map_to_list callers).

Definition answer_with (i : nat) (kid : string) (at_ : Q) (r : res Key) (c : JwksCache)
    (s : cache_state) : cache_state :=
  mkCacheState c (delete i (cs_callers s)) ((kid, at_, r) :: cs_answers s) (cs_refreshes s) (cs_published s).

Definition enter_phase (i : nat) (p : phase) (s : cache_state) : cache_state :=
  mkCacheState (cs_cache s) (<[i := p]> (cs_callers s)) (cs_answers s) (cs_refreshes s) (cs_published s).

(** [get_signing_key] and [refresh], from await to await; [None] where the event cannot happen. *)
Definition cache_step (e : cache_event) (s : cache_state) : option cache_state :=
  let c := cs_cache s in
  match e with
  | Ask i kid now =>
      match cs_callers s !! i with
      | Some _ => None
      | None =>
          if negb (kid_ok kid) then Some (answer_with i kid now (Err UnknownSigningKeyError) c s)
          else match cached_key (strip kid) now c with
               | Some key => Some (answer_with i kid now (Ok key) c s)
               | None => Some (enter_phase i (Waiting (WantKey kid (jc_generation c))) s)
               end
      end
  | AskRefresh i =>
      match cs_callers s !! i with
      | Some _ => None
      | None => Some (enter_phase i (Waiting WantRefresh) s)
      end
  | Acquire i now checked =>
      if locked (cs_callers s) then None
      else match cs_callers s !! i with
           | Some (Waiting WantRefresh) => Some (enter_phase i (Fetching WantRefresh) s)
           | Some (Waiting (WantKey kid observed)) =>
               match cached_key (strip kid) now c with
               | Some key => Some (answer_with i kid now (Ok key) c s)
               | None =>
                   if jc_generation c =? observed
                   then Some (enter_phase i (Fetching (WantKey kid observed)) s)
                   else if jc_last_refresh_failed c
                   then Some (answer_with i kid now (Err IdentityInfrastructureUnavailableError) c s)
                   else Some (answer_with i kid checked (after_refresh (strip kid) checked c) c s)
               end
           | _ => None
           end
  | Fetched i answer now checked =>
      match cs_callers s !! i with
      | Some (Fetching w) =>
          let '(c', r) := refresh_locked answer now c in
          let s := mkCacheState c' (cs_callers s) (cs_answers s) ((i, w) :: cs_refreshes s)
                     ((answer, now) :: cs_published s) in
          match w with
          | WantRefresh => Some (mkCacheState c' (delete i (cs_callers s)) (cs_answers s) (cs_refreshes s) (cs_published s))
          | WantKey kid observed =>
              match r with
              | Err e => Some (answer_with i kid now (Err e) c' s)
              | Ok _ => Some (answer_with i kid checked (after_refresh (strip kid) checked c') c' s)
              end
          end
      | _ => None
      end
  | CancelCaller i =>
      match cs_callers s !! i with
      | None => None
      | Some _ => Some (mkCacheState c (delete i (cs_callers s)) (cs_answers s) (cs_refreshes s) (cs_published s))
      end
  end.

Definition cache_run (events : list cache_event) (s : cache_state) : option cache_state :=
  foldl (λ s e, s ≫= cache_step e) (Some s) events.

(** * What a document publishes *)

(** [key] is published under [k]: an entry whose key identifier it is, that may verify
    signatures, and whose algorithm is allowed. *)
Definition published_under (raw_keys : list pyjson) (k : string) (key : Key) : Prop :=
  ∃ fields kid, PyDict fields ∈ raw_keys ∧ py_get "kid" fields = PyStr kid ∧ kid_ok kid = true ∧
    strip kid = k ∧ verifies fields = true ∧ jl_from_dict lib fields = Some key ∧
    jl_algorithm_name lib key ∈ allowed_algorithms.

Lemma parse_signing_key_ok raw parsed parsed' :
  parse_signing_key allowed_algorithms raw parsed = Ok parsed' →
  parsed' = parsed ∨
  ∃ k key, parsed !! k = None ∧ parsed' = <[k := key]> parsed ∧ published_under [raw] k key.
Proof.
  destruct raw as [| | | | | |fields]; try done. cbn [parse_signing_key].
  destruct (py_get "kid" fields) as [| | | |kid| |] eqn:Hkid; try done. intros H.
  apply res_bind_ok in H as (? & Hk%raise_if_ok & H). apply res_bind_ok in H as (? & Hn%raise_if_ok & H).
  destruct (verifies fields) eqn:Hv; cbn in H; [|left; by inv_ok].
  apply res_bind_ok in H as (b & _ & H). destruct b; cbn in H; [|left; by inv_ok].
  destruct (jl_from_dict lib fields) as [key|] eqn:Hf; [|done].
  case_bool_decide as Ha; [|left; by inv_ok]. injection H as <-. right.
  apply bool_decide_eq_false, eq_None_not_Some in Hn. apply negb_false_iff in Hk.
  exists (strip kid), key. split; [done|]. split; [done|]. exists fields, kid.
  rewrite list_elem_of_singleton. done.
Qed.

Lemma published_under_mono l l' k key : l ⊆ l' → published_under l k key → published_under l' k key.
Proof. intros Hl (f & kid & Hf & H). exists f, kid. split; [by apply Hl|done]. Qed.

Lemma parse_each_ok raw_keys : ∀ parsed parsed',
  parse_each allowed_algorithms raw_keys parsed = Ok parsed' →
  (∀ k key, parsed' !! k = Some key → parsed !! k = Some key ∨ published_under raw_keys k key) ∧
  (size parsed' ≤ size parsed + length raw_keys)%nat.
Proof.
  induction raw_keys as [|raw raw_keys IH]; intros parsed parsed' H; cbn in H.
  { injection H as <-. split; [by left|cbn; lia]. }
  apply res_bind_ok in H as (p & Hp & H). apply IH in H as [Hk Hs].
  assert (size p ≤ S (size parsed))%nat as Hsp.
  { apply parse_signing_key_ok in Hp as [->|(k & key & Hn & -> & _)]; [lia|by rewrite map_size_insert_None]. }
  split; [|cbn; lia]. intros k key [Hl|Hl]%Hk; [|right; by eapply published_under_mono; [apply list_subseteq_cons|]].
  apply parse_signing_key_ok in Hp as [->|(k' & key' & _ & -> & Hp)]; [by left|].
  apply lookup_insert_Some in Hl as [[-> ->]|[_ Hl]]; [|by left]. right.
  eapply published_under_mono; [|exact Hp]. set_solver.
Qed.

(** The document a response carries. *)
Definition carries (answer : get_exchange) (raw_keys : list pyjson) : Prop :=
  ∃ fields, fetch_payload answer = Ok (PyDict fields) ∧ py_get "keys" fields = PyList raw_keys ∧
    Z.of_nat (length raw_keys) ≤ MAX_SIGNING_KEYS.

Lemma published_keys_ok answer keys :
  published_keys answer = Ok keys →
  ∃ raw_keys, carries answer raw_keys ∧ (∀ k key, keys !! k = Some key → published_under raw_keys k key) ∧
    Z.of_nat (size keys) ≤ MAX_SIGNING_KEYS ∧ keys ≠ ∅.
Proof.
  unfold published_keys. destruct (let* payload := _ in _) as [k|] eqn:E; [|done]. intros [= ->].
  apply res_bind_ok in E as (payload & Hp & H). destruct payload as [| | | | | |fields]; try done.
  cbn [parse_signing_keys] in H. destruct (py_get "keys" fields) as [| | | | |raw_keys|] eqn:Hr; try done.
  apply res_bind_ok in H as (? & Hg%raise_if_ok & H). bools.
  apply res_bind_ok in H as (parsed & Hparse & H). apply res_bind_ok in H as (? & Hne%raise_if_ok & H).
  injection H as ->. bools. apply parse_each_ok in Hparse as [Hk Hs]. rewrite map_size_empty in Hs.
  exists raw_keys. split; [by exists fields; split_and!; [..|lia]|].
  split; [|split; [lia|done]]. intros k key [H|H]%Hk; [by rewrite lookup_empty in H|done].
Qed.

(** * The invariant of the cache *)

(** [key] may be used for [kid] at the reading [at_]: some response published it under that
    identifier, and has not outlived its time. *)
Definition trusted_key (published : list (get_exchange * Q)) (kid : string) (at_ : Q) (key : Key) : Prop :=
  ∃ answer fetched raw_keys, (answer, fetched) ∈ published ∧ carries answer raw_keys ∧
    published_under raw_keys (strip kid) key ∧ (at_ < rnd (fetched + inject_Z ttl_seconds))%Q.

Definition observed_by (p : phase) : option Z :=
  match p with Waiting (WantKey _ o) | Fetching (WantKey _ o) => Some o | _ => None end.

Definition refreshed_at (r : nat * want) : list Z :=
  match r.2 with WantKey _ o => [o] | WantRefresh => [] end.

Record cache_ok (s : cache_state) : Prop := {
  co_keys : jc_keys (cs_cache s) = ∅ ∨
    ∃ answer fetched, (answer, fetched) ∈ cs_published s ∧
      published_keys answer = Ok (jc_keys (cs_cache s)) ∧
      jc_expires_at (cs_cache s) = rnd (fetched + inject_Z ttl_seconds)%Q;
  co_answers : ∀ kid at_ key, (kid, at_, Ok key) ∈ cs_answers s → trusted_key (cs_published s) kid at_ key;
  co_single : ∀ i j p q, cs_callers s !! i = Some (Fetching p) → cs_callers s !! j = Some (Fetching q) → i = j;
  co_observed : ∀ i p o, cs_callers s !! i = Some p → observed_by p = Some o → o ≤ jc_generation (cs_cache s);
  co_fetching : ∀ i kid o, cs_callers s !! i = Some (Fetching (WantKey kid o)) → o = jc_generation (cs_cache s);
  co_generation : jc_generation (cs_cache s) = Z.of_nat (length (cs_refreshes s));
  co_refreshes : NoDup (cs_refreshes s ≫= refreshed_at) ∧
    ∀ o, o ∈ cs_refreshes s ≫= refreshed_at → o < jc_generation (cs_cache s);
}.

Lemma cache_ok_fresh : cache_ok fresh_cache.
Proof.
  split; cbn; try done.
  - by left.
  - intros ??? H. by apply not_elem_of_nil in H.
  - split; [constructor|]. intros o H. by apply not_elem_of_nil in H.
Qed.

(** A key the cache holds is trusted until it expires. *)
Lemma held_key_trusted s kid at_ key :
  cache_ok s → jc_keys (cs_cache s) !! strip kid = Some key → (at_ < jc_expires_at (cs_cache s))%Q →
  trusted_key (cs_published s) kid at_ key.
Proof.
  intros Hs Hk Hat. destruct (co_keys s Hs) as [He|(answer & fetched & Hin & Hp & Hx)]; [by rewrite He in Hk|].
  apply published_keys_ok in Hp as (raw_keys & Hc & Hu & _). exists answer, fetched, raw_keys.
  rewrite Hx in Hat. auto.
Qed.

Lemma cached_key_trusted s kid at_ key :
  cache_ok s → cached_key (strip kid) at_ (cs_cache s) = Some key → trusted_key (cs_published s) kid at_ key.
Proof.
  unfold cached_key. intros Hs H. destruct (Qltb _ _) eqn:E; [|done]. apply Qltb_lt in E. by apply held_key_trusted.
Qed.

Lemma after_refresh_trusted s kid at_ key :
  cache_ok s → after_refresh (strip kid) at_ (cs_cache s) = Ok key → trusted_key (cs_published s) kid at_ key.
Proof.
  unfold after_refresh. intros Hs H. destruct (jc_keys (cs_cache s) !! strip kid) as [k|] eqn:E; [|done].
  apply res_bind_ok in H as (? & Hq%raise_if_ok & [= ->]). apply held_key_trusted; [done..|].
  apply Qnot_le_lt. intros Hle%Qle_bool_iff. congruence.
Qed.

(** A caller leaves with an answer. *)
Lemma answer_with_ok s i kid at_ r :
  cache_ok s → (∀ key, r = Ok key → trusted_key (cs_published s) kid at_ key) →
  cache_ok (answer_with i kid at_ r (cs_cache s) s).
Proof.
  intros [H1 H2 H3 H4 H5 H6 H7] Hr. split; cbn; try done.
  - intros kid' at' key [H|H]%elem_of_cons; [|by apply H2]. injection H as -> -> Hk. by apply Hr.
  - intros j k p q [_ Hj]%lookup_delete_Some [_ Hk]%lookup_delete_Some. by eapply H3.
  - intros j p o [_ Hj]%lookup_delete_Some. by eapply H4.
  - intros j k o [_ Hj]%lookup_delete_Some. by eapply H5.
Qed.

Lemma leave_ok s i : cache_ok s →
  cache_ok (mkCacheState (cs_cache s) (delete i (cs_callers s)) (cs_answers s) (cs_refreshes s) (cs_published s)).
Proof.
  intros [H1 H2 H3 H4 H5 H6 H7]. split; cbn; try done.
  - intros j k p q [_ Hj]%lookup_delete_Some [_ Hk]%lookup_delete_Some. by eapply H3.
  - intros j p o [_ Hj]%lookup_delete_Some. by eapply H4.
  - intros j k o [_ Hj]%lookup_delete_Some. by eapply H5.
Qed.

Lemma locked_spec callers : locked callers = true ↔ ∃ i w, callers !! i = Some (Fetching w).
Proof.
  unfold locked. rewrite existsb_exists. split.
  - intros ([i p] & Hin & Hp). apply list_elem_of_In, elem_of_map_to_list in Hin. destruct p as [|w]; [done|]. eauto.
  - intros (i & w & H). exists (i, Fetching w). split; [|done]. by apply list_elem_of_In, elem_of_map_to_list.
Qed.

(** A caller starts waiting, or takes the free lock. *)
Lemma enter_ok s i p :
  cache_ok s → (∀ o, observed_by p = Some o → o ≤ jc_generation (cs_cache s)) →
  (∀ w, p = Fetching w → locked (cs_callers s) = false) →
  (∀ kid o, p = Fetching (WantKey kid o) → o = jc_generation (cs_cache s)) →
  cache_ok (enter_phase i p s).
Proof.
  intros [H1 H2 H3 H4 H5 H6 H7] Ho Hl Hg. split; cbn; try done.
  - assert (∀ j q w, cs_callers s !! j = Some (Fetching q) → p = Fetching w → False) as Hno.
    { intros j q w Hj Hp. specialize (Hl _ Hp).
      assert (locked (cs_callers s) = true) as Hlk by (apply locked_spec; eauto). congruence. }
    intros j k q r [[-> Hj]|[_ Hj]]%lookup_insert_Some [[-> Hk]|[_ Hk]]%lookup_insert_Some; [done| | |by eapply H3].
    + by destruct (Hno _ _ _ Hk Hj).
    + by destruct (Hno _ _ _ Hj Hk).
  - intros j q o [[-> <-]|[_ Hj]]%lookup_insert_Some; [apply Ho|by eapply H4].
  - intros j kid o [[-> Hj]|[_ Hj]]%lookup_insert_Some; [by eapply Hg|by eapply H5].
Qed.

(** The holder of the lock completes its refresh. *)
Lemma refresh_ok s i w answer now :
  cache_ok s → cs_callers s !! i = Some (Fetching w) →
  cache_ok (mkCacheState (refresh_locked answer now (cs_cache s)).1 (delete i (cs_callers s)) (cs_answers s)
              ((i, w) :: cs_refreshes s) ((answer, now) :: cs_published s)).
Proof.
  intros [H1 H2 H3 H4 H5 H6 [H7 H8]] Hi.
  assert (jc_generation (refresh_locked answer now (cs_cache s)).1 = jc_generation (cs_cache s) + 1) as Hg
    by (unfold refresh_locked; by destruct (published_keys answer)).
  assert (∀ kid at_ key, trusted_key (cs_published s) kid at_ key →
          trusted_key ((answer, now) :: cs_published s) kid at_ key) as Ht.
  { intros kid at_ key (a & f & raw & Hin & H). exists a, f, raw. split; [by right|done]. }
  split; cbn; rewrite ?Hg; try done; try (by auto).
  - unfold refresh_locked. destruct (published_keys answer) as [keys|] eqn:E; cbn.
    + right. exists answer, now. split; [by left|done].
    + destruct H1 as [->|(a & f & Hin & H)]; [by left|]. right. exists a, f. split; [by right|done].
  - intros j k p q [_ Hj]%lookup_delete_Some [_ Hk]%lookup_delete_Some. by eapply H3.
  - intros j p o [_ Hj]%lookup_delete_Some Ho. specialize (H4 _ _ _ Hj Ho). lia.
  - intros j kid o [Hne Hj]%lookup_delete_Some. destruct (Hne (H3 _ _ _ _ Hi Hj)).
  - rewrite H6. lia.
  - destruct w as [kid o|]; cbn; [|split; [done|]; intros o Ho; specialize (H8 o Ho); lia].
    assert (o = jc_generation (cs_cache s)) as -> by (by eapply H5). split.
    + constructor; [|done]. intros Hin%H8. lia.
    + intros x [->|Hx]%elem_of_cons; [lia|]. specialize (H8 x Hx). lia.
Qed.

Lemma cache_step_ok e s s' : cache_ok s → cache_step e s = Some s' → cache_ok s'.
Proof.
  intros Hs H. destruct e as [i kid now|i|i now checked|i answer now checked|i]; cbn in H.
  - destruct (cs_callers s !! i); [done|]. destruct (kid_ok kid); cbn in H; [|injection H as <-; by apply answer_with_ok].
    destruct (cached_key _ _ _) eqn:E; injection H as <-.
    + apply answer_with_ok; [done|]. intros key [= <-]. by apply cached_key_trusted.
    + apply enter_ok; [done| |done|done]. cbn. intros o [= <-]. lia.
  - destruct (cs_callers s !! i); [done|]. injection H as <-. by apply enter_ok.
  - destruct (locked _) eqn:El; [done|]. destruct (cs_callers s !! i) as [[[kid o|]|]|] eqn:Ei; try done.
    2:{ injection H as <-. by apply enter_ok. }
    destruct (cached_key _ _ _) as [key|] eqn:E.
    { injection H as <-. apply answer_with_ok; [done|]. intros ? [= <-]. by apply cached_key_trusted. }
    destruct (Z.eqb_spec (jc_generation (cs_cache s)) o) as [Hgen|].
    { injection H as <-. apply enter_ok; [done| |done|]; cbn; [intros ? [= <-]; lia|intros ?? [= -> <-]; done]. }
    destruct (jc_last_refresh_failed _); injection H as <-; apply answer_with_ok; try done.
    intros key Hk. by apply after_refresh_trusted.
  - destruct (cs_callers s !! i) as [[|w]|] eqn:Ei; try done.
    pose proof (refresh_ok s i w answer now Hs Ei) as Hr.
    destruct (refresh_locked answer now (cs_cache s)) as [c' r] eqn:E. cbn in Hr.
    destruct w as [kid o|]; [|by injection H as <-].
    assert (∀ at_ r', (∀ key, r' = Ok key → trusted_key ((answer, now) :: cs_published s) kid at_ key) →
      cache_ok (answer_with i kid at_ r' c' (mkCacheState c' (cs_callers s) (cs_answers s)
        ((i, WantKey kid o) :: cs_refreshes s) ((answer, now) :: cs_published s)))) as Ha.
    { intros at_ r' Hr'. pose proof (answer_with_ok _ i kid at_ r' Hr Hr') as HH. cbn in HH.
      unfold answer_with in *. cbn in *. by rewrite delete_delete_eq in HH. }
    destruct r as [u|x]; injection H as <-; apply Ha; intros key Hk; [|discriminate Hk].
    exact (after_refresh_trusted _ _ _ _ Hr Hk).
  - destruct (cs_callers s !! i); [|done]. injection H as <-. by apply leave_ok.
Qed.

(** The two ways a caller can be refused. *)
Definition key_failure (e : exn) : Prop :=
  e = UnknownSigningKeyError ∨ e = IdentityInfrastructureUnavailableError.
Definition refusals_known (s : cache_state) : Prop :=
  ∀ kid at_ e, (kid, at_, Err e) ∈ cs_answers s → key_failure e.

Lemma after_refresh_raises kid at_ c : only_raises key_failure (after_refresh kid at_ c).
Proof. unfold after_refresh, key_failure. raising; auto. Qed.

Lemma refresh_raises answer now c : only_raises key_failure (refresh_locked answer now c).2.
Proof.
  intros e. unfold refresh_locked, published_keys. destruct (let* p := _ in _); cbn; [done|]. intros [= <-]. by right.
Qed.

Lemma answer_refusals s i kid at_ r c :
  refusals_known s → only_raises key_failure r → refusals_known (answer_with i kid at_ r c s).
Proof. intros Hs Hr k t e [H|H]%elem_of_cons; [injection H as -> -> He; by apply Hr|by eapply Hs]. Qed.

Lemma cache_step_refusals e s s' : refusals_known s → cache_step e s = Some s' → refusals_known s'.
Proof.
  intros Hs H. destruct e as [i kid now|i|i now checked|i answer now checked|i]; cbn in H.
  - destruct (cs_callers s !! i); [done|].
    destruct (kid_ok kid); [destruct (cached_key _ _ _)|]; injection H as <-; try done;
      apply answer_refusals; [done|by apply only_raises_ok|done|]. intros e [= <-]. by left.
  - destruct (cs_callers s !! i); [done|]. by injection H as <-.
  - destruct (locked _); [done|]. destruct (cs_callers s !! i) as [[[kid o|]|]|]; try done; [|by injection H as <-].
    destruct (cached_key _ _ _); [injection H as <-; by apply answer_refusals, only_raises_ok|].
    destruct (_ =? _); [by injection H as <-|].
    destruct (jc_last_refresh_failed _); injection H as <-; (apply answer_refusals; [done|]).
    + intros e [= <-]. by right.
    + apply after_refresh_raises.
  - destruct (cs_callers s !! i) as [[|w]|]; try done. pose proof (refresh_raises answer now (cs_cache s)) as Hr.
    destruct (refresh_locked answer now (cs_cache s)) as [c' r]. cbn in Hr.
    destruct w as [kid o|]; [|by injection H as <-].
    destruct r; injection H as <-; (apply answer_refusals; [done|]); [apply after_refresh_raises|].
    intros x [= <-]. by apply Hr.
  - destruct (cs_callers s !! i); [|done]. by injection H as <-.
Qed.

Lemma cache_run_refusals events : ∀ s s', refusals_known s → cache_run events s = Some s' → refusals_known s'.
Proof.
  unfold cache_run. induction events as [|e events IH]; intros s s' Hs; cbn; [by intros [= <-]|].
  destruct (cache_step e s) as [s1|] eqn:E.
  - intros H. eapply IH; [by eapply cache_step_refusals|exact H].
  - clear. intros H. exfalso. induction events; cbn in H; [done|auto].
Qed.

Lemma cache_run_ok events : ∀ s s', cache_ok s → cache_run events s = Some s' → cache_ok s'.
Proof.
  unfold cache_run. induction events as [|e events IH]; intros s s' Hs; cbn; [by intros [= <-]|].
  destruct (cache_step e s) as [s1|] eqn:E.
  - intros H. eapply IH; [by eapply cache_step_ok|exact H].
  - clear. intros H. exfalso. induction events; cbn in H; [done|auto].
Qed.
End Jwks.

Arguments cache_run {Key}.
Arguments fresh_cache {Key}.
Arguments trusted_key {Key}.

(** C21: the key cache hands out trusted keys only, and spares the issuer: in whatever order
    concurrent callers ask, get the lock, see their fetch come back or fail and are cancelled,
    every key returned for an identifier was published under it, for verifying signatures with
    an allowed algorithm, by a response whose time to live had not run out when the key was
    returned; at most one fetch is under way; the cache never holds more keys than a document
    may carry; and no two completed refreshes served callers that had seen the same generation
    of the cache, so callers that ask together cause one refresh between them. *)
Theorem signing_keys_trusted {Key} (lib : JwksLibrary Key) (allowed_algorithms : gset string)
    (ttl_seconds : Z) (rnd : Q → Q) (events : list cache_event) (s : cache_state) :
  cache_run lib allowed_algorithms ttl_seconds rnd events fresh_cache = Some s →
  (∀ kid at_ key, (kid, at_, Ok key) ∈ cs_answers s →
     trusted_key lib allowed_algorithms ttl_seconds rnd (cs_published s) kid at_ key) ∧
  (∀ i j p q, cs_callers s !! i = Some (Fetching p) → cs_callers s !! j = Some (Fetching q) → i = j) ∧
  Z.of_nat (size (jc_keys (cs_cache s))) ≤ MAX_SIGNING_KEYS ∧
  NoDup (cs_refreshes s ≫= refreshed_at).
Proof.
  intros H. apply cache_run_ok in H; [|apply cache_ok_fresh].
  split; [apply H|]. split; [apply H|]. split; [|apply H].
  destruct (co_keys _ _ _ _ _ H) as [->|(answer & fetched & _ & Hp & _)]; [by rewrite map_size_empty|].
  apply published_keys_ok in Hp as (? & _ & _ & Hs & _). done.
Qed.

(** Two callers ask for a new key together: one fetch answers both; a third finds it cached. *)
Definition demo_jwks_library : JwksLibrary string :=
  mkJwksLibrary
    (λ body, Some (PyDict [("keys", PyList [
       PyDict [("kid", PyStr "old"); ("use", PyStr "enc")];
       PyDict [("kid", PyStr " k1 "); ("alg", PyStr "RS256"); ("n", PyStr "key-1")]])]))
    (λ fields, match py_get "n" fields with PyStr n => Some n | _ => None end)
    (λ _, "RS256").
Definition demo_get : get_exchange := Some (mkGetResponse 200 (Some " 11 ") [[]] true).
Definition demo_cache_events : list cache_event :=
  [Ask 1 "k1" 10; Ask 2 "k1" 10; Acquire 1 11 11; Fetched 1 demo_get 12 12; Acquire 2 13 13; Ask 3 "k1" 14;
   Ask 4 "k2" 15; Acquire 4 15 15; CancelCaller 4].

Lemma signing_keys_trusted_witness :
  match cache_run demo_jwks_library {["RS256"]} 300 id demo_cache_events fresh_cache with
  | None => False
  | Some s =>
      cs_answers s = [("k1", 14, Ok "key-1"); ("k1", 13, Ok "key-1"); ("k1", 12, Ok "key-1")]%Q ∧
      cs_refreshes s = [(1%nat, WantKey "k1" 0)] ∧
      (∀ kid at_ key, (kid, at_, Ok key) ∈ cs_answers s →
         trusted_key demo_jwks_library {["RS256"]} 300 id (cs_published s) kid at_ key)
  end.
Proof.
  destruct (cache_run demo_jwks_library {["RS256"]} 300 id demo_cache_events fresh_cache) as [s|] eqn:E;
    [|vm_compute in E; discriminate E].
  assert (Hs : Some s = cache_run demo_jwks_library {["RS256"]} 300 id demo_cache_events fresh_cache) by done.
  split; [vm_compute in Hs; injection Hs as ->; reflexivity|].
  split; [vm_compute in Hs; injection Hs as ->; reflexivity|].
  exact (proj1 (signing_keys_trusted demo_jwks_library {["RS256"]} 300 id demo_cache_events s E)).
Defined.
