(* ===== verification/Authentication.v ===== *)
(** How a request is authenticated: the token verifier of [auth/oidc_provider.py] over the key
    cache of [auth/jwks.py], the demo provider of [auth/demo_provider.py], the boundary they
    share ([auth/provider.py]) with its two HTTP surfaces, [auth/dependencies.py] and
    [auth/langgraph_auth.py].  Reading and verifying a JWT is a parameter. *)
From Stdlib Require Import QArith.
From S2P Require Import Prelude Auth Hmac Retry Connections IdentityConfig Jwks.

(** * The boundary: [IdentityProvider] *)

Class IdentityProvider (P : Type) :=
  resolve_identity : P → option string → res AuthenticatedIdentity.

(** What a provider may raise: nobody, or nobody can tell. *)
Definition provider_failure (e : exn) : Prop :=
  (∃ msg, e = UnauthenticatedError msg) ∨ e = IdentityInfrastructureUnavailableError.

(** An identity as construction leaves it, with the permissions of its role. *)
Definition trusted_identity (i : AuthenticatedIdentity) : Prop :=
  AuthenticatedIdentity_validate i = Ok i ∧ ai_permissions i = role_permissions (ai_role i).

(** What the surfaces may rely on. *)
Class LawfulProvider {P} `{IdentityProvider P} (p : P) : Prop := {
  lp_trusted : ∀ header i, resolve_identity p header = Ok i → trusted_identity i;
  lp_raises : ∀ header, only_raises provider_failure (resolve_identity p header);
}.

Lemma AuthenticatedIdentity_validate_idem i i' :
  AuthenticatedIdentity_validate i = Ok i' → AuthenticatedIdentity_validate i' = Ok i'.
Proof.
  intros (Ht & Hu & Hnt & Hnu & Pt & Pu & _)%AuthenticatedIdentity_validate_ok.
  unfold AuthenticatedIdentity_validate. rewrite Ht, Hu. cbn.
  apply nonempty_true in Hnt as ->, Hnu as ->. cbn. unfold identity_part_ok in *. rewrite Pt, Pu. by destruct i'.
Qed.

(** [authorization_header.partition(" ")] of a header that may be missing *)
Definition partition_header (authorization_header : option string) : string * bool * string :=
  let header := default "" authorization_header in
  match split_once " " header with
  | Some (scheme, token) => (scheme, true, token)
  | None => (header, false, "")
  end.

(** * [OidcJwtIdentityProvider] *)

(** [_MAX_ACCESS_TOKEN_LENGTH] *)
Definition MAX_ACCESS_TOKEN_LENGTH : Z := 16384.

(** [jwt.get_unverified_header], and [jwt.decode] with every check of the options on: the
    claims of a token that the key signed with one of the algorithms, issued for this audience
    by this issuer, and within its time up to the leeway. *)
Record JwtLibrary (Key : Type) := mkJwtLibrary {
  jwt_header : string → option pydict;
  jwt_decode : string → Key → list string → string → string → Z → option pydict;
}.
Arguments mkJwtLibrary {Key}.
Arguments jwt_header {Key}.
Arguments jwt_decode {Key}.

(** A claim as the mapping looks at it. *)
Fixpoint claim_of (v : pyjson) : claim :=
  match v with
  | PyStr s => ClaimStr s
  | PyList l => ClaimSeq (claim_of <$> l)
  | _ => ClaimOther
  end.

Definition claims_of (claims : pydict) : gmap string claim :=
  list_to_map ((λ p, (p.1, claim_of p.2)) <$> claims).

Definition invalid_credentials : exn := UnauthenticatedError "invalid bearer credentials".

Definition extract_bearer_token (authorization_header : option string) : res string :=
  let '(scheme, separated, token) := partition_header authorization_header in
  let normalized := strip token in
  raise_if (negb separated || negb (String.eqb (lower scheme) "bearer") || negb (nonempty normalized)
            || (MAX_ACCESS_TOKEN_LENGTH <? str_len normalized)
            || negb (all_chars (λ c, negb (is_space c)) normalized))
    invalid_credentials;;;
  Ok normalized.

Section Oidc.
Context {Key : Type} (jwt : JwtLibrary Key) (config : OidcVerifierConfig).
(** What the key cache answers this call. *)
Context (get_signing_key : string → res Key).

(** The key identifier and the algorithm a token's header declares. *)
Definition declared_header (header : pydict) : res (string * string) :=
  match py_get "kid" header, py_get "alg" header with
  | PyStr kid, PyStr algorithm =>
      raise_if (negb (kid_ok kid) || negb (bool_decide (algorithm ∈ algorithms config))) invalid_credentials;;;
      Ok (kid, algorithm)
  | _, _ => Err invalid_credentials
  end.

Definition oidc_resolve (authorization_header : option string) : res AuthenticatedIdentity :=
  let* token := extract_bearer_token authorization_header in
  match jwt_header jwt token with
  | None => Err invalid_credentials
  | Some header =>
      let* '(kid, _) := declared_header header in
      let* signing_key :=
        match get_signing_key kid with
        | Ok key => Ok key
        | Err e => if bool_decide (e = UnknownSigningKeyError) then Err invalid_credentials else Err e
        end in
      match jwt_decode jwt token signing_key (sorted_strings (elements (algorithms config)))
              (audience config) (issuer config) (clock_skew_seconds config) with
      | None => Err invalid_credentials
      | Some claims => identity_from_verified_claims (claims_of claims) (oidc_claims config)
      end
  end.
End Oidc.

Record OidcJwtIdentityProvider (Key : Type) := mkOidcProvider {
  op_config : OidcVerifierConfig;
  op_jwt : JwtLibrary Key;
  op_keys : string → res Key;
}.
Arguments mkOidcProvider {Key}.
Arguments op_config {Key}.
Arguments op_jwt {Key}.
Arguments op_keys {Key}.

#[export] Instance oidc_provider {Key} : IdentityProvider (OidcJwtIdentityProvider Key) :=
  λ p, oidc_resolve (op_jwt p) (op_config p) (op_keys p).

(** * [DemoIdentityProvider] *)

Definition valid_roles : list (string * Role) :=
  [("customer", customer); ("support_agent", support_agent); ("supervisor", supervisor)].

Definition string_field (name message : string) (entry : pydict) : res string :=
  match py_get name entry with
  | PyStr s => raise_if (negb (nonempty (strip s))) (ValueError message);;; Ok s
  | _ => Err (ValueError message)
  end.

(** [_build_identity] *)
Definition build_identity (entry : pyjson) : res AuthenticatedIdentity :=
  match entry with
  | PyDict entry =>
      let* user_id := string_field "user_id" "demo identity entry requires a non-empty user_id" entry in
      let* tenant_id := string_field "tenant_id" "demo identity entry requires a non-empty tenant_id" entry in
      match py_get "role" entry with
      | PyStr role =>
          match dict_get role valid_roles with
          | Some role => AuthenticatedIdentity_validate (mkAuthenticatedIdentity user_id tenant_id role (role_permissions role))
          | None => Err (ValueError "demo identity entry has an unsupported role")
          end
      | _ => Err (ValueError "demo identity entry has an unsupported role")
      end
  | _ => Err (ValueError "demo identity entry must be a JSON object")
  end.

Record DemoIdentityProvider := mkDemoProvider { dp_identities : list (string * AuthenticatedIdentity) }.

(** [DemoIdentityProvider.__init__] *)
Fixpoint demo_identities (tokens : pydict) (identities : list (string * AuthenticatedIdentity)) :
    res (list (string * AuthenticatedIdentity)) :=
  match tokens with
  | [] => Ok identities
  | (token, entry) :: tokens' =>
      raise_if (negb (nonempty (strip token))) (ValueError "demo identity token must be a non-empty string");;;
      let* i := build_identity entry in
      demo_identities tokens' (dict_set token i identities)
  end.

Definition new_demo_provider (tokens : pydict) : res DemoIdentityProvider :=
  let* identities := demo_identities tokens [] in Ok (mkDemoProvider identities).

Definition demo_variable : string := "DEMO_IDENTITY_TOKENS".

(** [DemoIdentityProvider.from_environment] *)
Definition demo_from_environment (lib : TextLibrary) (environment : Environ) : res DemoIdentityProvider :=
  let raw := default "" (environment !! demo_variable) in
  if negb (nonempty (strip raw)) then new_demo_provider []
  else match tl_json lib raw with
       | None => Err (RuntimeError (demo_variable +:+ " is not valid JSON"))
       | Some (PyDict tokens) => new_demo_provider tokens
       | Some _ => Err (RuntimeError (demo_variable +:+ " must be a JSON object"))
       end.

(** [DemoIdentityProvider._extract_bearer] *)
Definition extract_bearer (authorization_header : option string) : option string :=
  let '(scheme, _, token) := partition_header authorization_header in
  if negb (String.eqb (lower scheme) "bearer") || negb (nonempty (strip token)) then None
  else Some (strip token).

Definition demo_resolve (p : DemoIdentityProvider) (authorization_header : option string) :
    res AuthenticatedIdentity :=
  match (token ← extract_bearer authorization_header; dict_get token (dp_identities p)) with
  | Some i => Ok i
  | None => Err (UnauthenticatedError "Unknown or missing demo token")
  end.

#[export] Instance demo_identity_provider : IdentityProvider DemoIdentityProvider := demo_resolve.

(** * FastAPI: [auth/dependencies.py] *)

(** What a handler ends with: its value, an [HTTPException], or an exception nobody expects. *)
Inductive handled (A : Type) :=
  | Returned (a : A)
  | HTTPException (status_code : Z) (detail : string) (headers : list (string * string))
  | Unhandled (e : exn).
Arguments Returned {A} a.
Arguments HTTPException {A} status_code detail headers.
Arguments Unhandled {A} e.

(** The [except] clauses both surfaces have. *)
Definition answer_provider {A} (r : res A) : handled A :=
  match r with
  | Ok a => Returned a
  | Err (UnauthenticatedError _) => HTTPException 401 "Unauthorized" [("WWW-Authenticate", "Bearer")]
  | Err IdentityInfrastructureUnavailableError | Err DirectoryInfrastructureUnavailableError =>
      HTTPException 503 "Identity service unavailable" []
  | Err e => Unhandled e
  end.

Section Surfaces.
Context {P} `{IdentityProvider P} (provider : P).

Definition parse_access_scope (authorization_header : option string) : res AccessScope :=
  let* identity := resolve_identity provider authorization_header in
  identity_scope identity.

Definition require_access_scope (authorization : option string) : handled AccessScope :=
  answer_provider (parse_access_scope authorization).

(** * LangGraph: [auth/langgraph_auth.py] *)

(** [AuthenticatedIdentity.identity_key] *)
Definition identity_key (i : AuthenticatedIdentity) : res string :=
  encode_identity_key (ai_tenant_id i) (ai_user_id i).

Record AuthUser := mkAuthUser {
  au_identity : string;
  au_display_name : string;
  au_is_authenticated : bool;
  au_permissions : list string;
  au_user_id : string;
  au_tenant_id : string;
  au_role_name : string;
}.

Definition auth_user (i : AuthenticatedIdentity) : res AuthUser :=
  let* key := identity_key i in
  Ok (mkAuthUser key (role_str (ai_role i) +:+ ":" +:+ ai_user_id i) true
        (sorted_strings (permission_str <$> elements (ai_permissions i)))
        (ai_user_id i) (ai_tenant_id i) (role_str (ai_role i))).

(** What escapes [resolve] is answered; the claims are built after the [try]. *)
Definition authenticate (authorization : option string) : handled AuthUser :=
  match answer_provider (resolve_identity provider authorization) with
  | Returned identity => match auth_user identity with Ok u => Returned u | Err e => Unhandled e end
  | HTTPException status_code detail headers => HTTPException status_code detail headers
  | Unhandled e => Unhandled e
  end.
End Surfaces.

(** The fields [identity_from_user_payload] reads. *)
Definition user_payload (u : AuthUser) : UserPayload :=
  mkUserPayload (Some (au_identity u)) (Some (au_permissions u)) (Some (au_role_name u)).

(** ** Threads and assistants *)

(** [owner_filter] of [auth/context.py]. *)
Definition owner_filter (i : AuthenticatedIdentity) : list (string * string) :=
  [("owner_user_id", ai_user_id i); ("tenant_id", ai_tenant_id i)].

Definition owner_metadata (i : AuthenticatedIdentity) : list (string * string) :=
  [("owner_user_id", ai_user_id i); ("tenant_id", ai_tenant_id i); ("owner_role", role_str (ai_role i))].

(** [d.update(...)] *)
Definition dict_update (updates : list (string * string)) (d : pydict) : pydict :=
  foldl (λ d p, dict_set p.1 (PyStr p.2) d) d updates.

(** [on_threads_create]: the request with its owner stamped on; [None] where its metadata is
    not a dict and has no [update]. *)
Definition on_threads_create (i : AuthenticatedIdentity) (value : pydict) : option pydict :=
  match default (PyDict []) (dict_get "metadata" value) with
  | PyDict metadata => Some (dict_set "metadata" (PyDict (dict_update (owner_metadata i) metadata)) value)
  | _ => None
  end.

(** What a handler decides: [True], [False], or a filter the platform applies. *)
Inductive auth_decision := Allow | Deny | Restrict (filter : list (string * string)).

(** The handler the platform picks for a resource and an action, the most specific one first. *)
Definition resource_decision (i : AuthenticatedIdentity) (resource action : string) : auth_decision :=
  if String.eqb resource "threads" then
    if String.eqb action "create" then Allow
    else if bool_decide (action ∈ ["read"; "search"; "create_run"]) then Restrict (owner_filter i)
    else Deny
  else if String.eqb resource "assistants" && bool_decide (action ∈ ["read"; "search"]) then Allow
  else Deny.

(** A filter holds of a resource whose metadata has each of its values. *)
Definition filter_matches (filter : list (string * string)) (metadata : pydict) : bool :=
  forallb (λ p, match dict_get p.1 metadata with Some (PyStr s) => String.eqb s p.2 | _ => false end) filter.

Definition thread_metadata (value : pydict) : pydict :=
  match dict_get "metadata" value with Some (PyDict m) => m | _ => [] end.

(** * Lawful providers *)

Lemma AuthenticatedIdentity_validate_raises i :
  only_raises (λ e, e = ValidationError "AuthenticatedIdentity") (AuthenticatedIdentity_validate i).
Proof. unfold AuthenticatedIdentity_validate. raising. Qed.

Lemma AuthenticatedIdentity_validate_trusted i i' :
  ai_permissions i = role_permissions (ai_role i) → AuthenticatedIdentity_validate i = Ok i' → trusted_identity i'.
Proof.
  intros Hp H. split; [by eapply AuthenticatedIdentity_validate_idem|].
  apply AuthenticatedIdentity_validate_ok in H as (_ & _ & _ & _ & _ & _ & -> & ->). done.
Qed.

(** A demo provider holds built identities only. *)
Lemma demo_identities_trusted tokens : ∀ ids ids',
  Forall (λ p, trusted_identity p.2) ids → demo_identities tokens ids = Ok ids' →
  Forall (λ p, trusted_identity p.2) ids'.
Proof.
  induction tokens as [|[token entry] tokens IH]; intros ids ids' Hids H; cbn in H; [by injection H as <-|].
  apply res_bind_ok in H as (? & _ & H). apply res_bind_ok in H as (i & Hi & H). eapply IH; [|exact H].
  apply Forall_forall. intros p [->|Hp]%elem_of_dict_set; [|by apply (proj1 (Forall_forall _ _) Hids)]. cbn.
  destruct entry as [| | | | | |entry]; try done. unfold build_identity in Hi.
  do 2 apply res_bind_ok in Hi as (? & _ & Hi). destruct (py_get "role" entry); try done.
  destruct (dict_get _ _); [|done]. by eapply AuthenticatedIdentity_validate_trusted; [|exact Hi].
Qed.

Lemma dict_get_elem {V} k (l : list (string * V)) v : dict_get k l = Some v → (k, v) ∈ l.
Proof. induction l as [|[k' v'] l IH]; cbn; [done|]. case_decide; [intros [= ->]; subst; by left|intros Hl; right; auto]. Qed.

Lemma demo_provider_lawful tokens p : new_demo_provider tokens = Ok p → LawfulProvider p.
Proof.
  intros H. unfold new_demo_provider in H. apply res_bind_ok in H as (ids & Hids & [= <-]).
  apply demo_identities_trusted in Hids; [|constructor]. split.
  - intros header i. unfold resolve_identity, demo_identity_provider, demo_resolve. cbn.
    destruct (extract_bearer header) as [token|]; cbn; [|done]. destruct (dict_get token ids) as [j|] eqn:E; [|done].
    intros [= <-]. apply dict_get_elem in E. exact (proj1 (Forall_forall _ _) Hids _ E).
  - intros header e. unfold resolve_identity, demo_identity_provider, demo_resolve.
    case_match; [done|]. intros [= <-]. left. eauto.
Qed.

Lemma unauthenticated_fails msg : provider_failure (UnauthenticatedError msg).
Proof. left. eauto. Qed.
Lemma invalid_credentials_fails : provider_failure invalid_credentials.
Proof. apply unauthenticated_fails. Qed.
#[local] Hint Resolve unauthenticated_fails invalid_credentials_fails : raising.

Lemma claims_raise claims m : only_raises provider_failure (identity_from_verified_claims claims m).
Proof.
  unfold identity_from_verified_claims, required_string_claim, required_string_sequence_claim. raising.
  match goal with HE : AuthenticatedIdentity_validate _ = Err _ |- _ =>
    by apply AuthenticatedIdentity_validate_raises in HE as -> end.
Qed.

#[local] Hint Resolve claims_raise : raising.

Lemma oidc_provider_lawful {Key} (p : OidcJwtIdentityProvider Key) :
  (∀ kid, only_raises key_failure (op_keys p kid)) → LawfulProvider p.
Proof.
  intros Hk. split; intros header.
  - intros i. unfold resolve_identity, oidc_provider, oidc_resolve. intros H.
    apply res_bind_ok in H as (token & _ & H). destruct (jwt_header _ token); [|done].
    apply res_bind_ok in H as ([kid alg] & _ & H). apply res_bind_ok in H as (key & _ & H).
    destruct (jwt_decode _ _ _ _ _ _ _); [|done]. unfold identity_from_verified_claims in H.
    do 4 apply res_bind_ok in H as (? & _ & H). destruct (elements _) as [|role [|]]; try done.
    destruct (AuthenticatedIdentity_validate _) eqn:E; [|by case_match]. injection H as <-.
    by eapply AuthenticatedIdentity_validate_trusted; [|exact E].
  - unfold resolve_identity, oidc_provider, oidc_resolve, extract_bearer_token, declared_header. raising.
    match goal with HE : op_keys p _ = Err ?x, Hu : bool_decide (?x = _) = false |- _ =>
      destruct (Hk _ _ HE) as [->| ->]; [done|by right] end.
Qed.

(** * Both surfaces *)

Lemma trusted_identity_facts i :
  trusted_identity i →
  identity_scope i = Ok (mkAccessScope (ai_tenant_id i) (ai_user_id i) (ai_role i) (ai_permissions i)) ∧
  ∃ key, identity_key i = Ok key ∧ decode_identity_key key = Ok (ai_tenant_id i, ai_user_id i) ∧ has_ink key = true.
Proof.
  intros [Hv _]. split; [by apply (identity_scope_ok i)|].
  apply AuthenticatedIdentity_validate_ok in Hv as (Hst & _ & Hnt & _ & Ht & Hu & _).
  exists (ai_tenant_id i +:+ String separator (ai_user_id i)).
  assert (encode_identity_key (ai_tenant_id i) (ai_user_id i) = Ok (ai_tenant_id i +:+ String separator (ai_user_id i)))
    as He by (by apply encode_identity_key_ok).
  split; [done|]. split; [by apply identity_key_roundtrip|].
  rewrite has_ink_app, <- nonempty_strip, Hst. by apply nonempty_true in Hnt as ->.
Qed.

(** The permissions of a role survive the trip through the platform. *)
Lemma role_permissions_roundtrip r :
  validated_permissions (sorted_strings (permission_str <$> elements (role_permissions r))) = Ok (role_permissions r).
Proof. destruct r; vm_compute; reflexivity. Qed.

Lemma auth_user_roundtrip i u :
  trusted_identity i → auth_user i = Ok u → identity_from_user_payload (Some (user_payload u)) = Ok i.
Proof.
  intros Hi. pose proof Hi as [Hv Hp]. apply trusted_identity_facts in Hi as (_ & key & Hk & Hd & Hink).
  unfold auth_user. rewrite Hk. cbn [res_bind]. intros [= <-].
  unfold identity_from_user_payload, user_payload. cbn [up_identity au_identity up_permissions au_permissions up_role au_role_name].
  rewrite nonempty_strip, Hink, Hd. cbn [negb raise_if res_bind unauthenticated_on_value_error].
  rewrite Hp, role_permissions_roundtrip. cbn [res_bind].
  rewrite (proj2 (derive_role_ok _ _) eq_refl). cbn [unauthenticated_on_value_error res_bind fst snd].
  assert (snd <$> list_find (λ r, role_str r = role_str (ai_role i)) [customer; support_agent; supervisor] = Some (ai_role i))
    as -> by (by destruct (ai_role i)).
  rewrite bool_decide_false by (by intros []). cbn [raise_if res_bind]. rewrite <- Hp.
  by destruct i.
Qed.

Lemma trusted_scope_valid i :
  trusted_identity i →
  let s := mkAccessScope (ai_tenant_id i) (ai_user_id i) (ai_role i) (ai_permissions i) in
  AccessScope_validate s = Ok s.
Proof.
  intros [Hv _].
  apply AuthenticatedIdentity_validate_ok in Hv as (St & Su & Nt & Nu & Ht & Hu & _).
  unfold AccessScope_validate. cbn. rewrite St, Su.
  apply nonempty_true in Nt as ->, Nu as ->. cbn. unfold identity_part_ok in *. by rewrite Ht, Hu.
Qed.

(** Both HTTP surfaces authenticate alike, and fail closed: with any lawful provider a
    request is either granted, and then the API and the conversation run under the same valid
    scope, of the resolved tenant and user, with exactly the permissions of one role, or both
    refuse it with the same response: 401 and a challenge, or 503.  No other exception and no
    other response leaves either. *)
Theorem surfaces_authenticate_alike {P} `{IdentityProvider P} (p : P) (authorization : option string) :
  LawfulProvider p →
  (∃ i s u, resolve_identity p authorization = Ok i ∧
     require_access_scope p authorization = Returned s ∧ authenticate p authorization = Returned u ∧
     require_scope (Some (user_payload u)) = Ok s ∧
     sc_tenant_id s = ai_tenant_id i ∧ sc_user_id s = ai_user_id i ∧ canonical s ∧ AccessScope_validate s = Ok s) ∨
  (∃ status_code detail headers,
     require_access_scope p authorization = HTTPException status_code detail headers ∧
     authenticate p authorization = HTTPException status_code detail headers ∧
     (status_code = 401 ∧ headers = [("WWW-Authenticate", "Bearer")] ∨ status_code = 503)).
Proof.
  intros Hp. unfold require_access_scope, parse_access_scope, authenticate.
  destruct (resolve_identity p authorization) as [i|e] eqn:E.
  - left. apply Hp in E as Hi. pose proof (trusted_identity_facts i Hi) as (Hs & key & Hk & _).
    set (s := mkAccessScope (ai_tenant_id i) (ai_user_id i) (ai_role i) (ai_permissions i)) in Hs.
    destruct (auth_user i) as [u|x] eqn:Eu; [|unfold auth_user in Eu; by rewrite Hk in Eu].
    exists i, s, u. cbn [res_bind answer_provider]. rewrite Hs, Eu. cbn [answer_provider].
    split; [done|]. split; [done|]. split; [done|].
    split; [unfold require_scope, require_identity; by rewrite (auth_user_roundtrip i u Hi Eu)|].
    split; [done|]. split; [done|]. split; [by apply Hi|]. by apply trusted_scope_valid.
  - right. apply Hp in E as [(msg & ->)| ->]; cbn; do 3 eexists; split_and!; [reflexivity|reflexivity|by left|reflexivity|reflexivity|by right].
Qed.

Definition demo_tokens : pydict :=
  [("token-a", PyDict [("user_id", PyStr "ann"); ("tenant_id", PyStr "tenant-a"); ("role", PyStr "supervisor")])].
Definition demo_auth_provider : DemoIdentityProvider :=
  match new_demo_provider demo_tokens with Ok p => p | Err _ => mkDemoProvider [] end.

Lemma demo_auth_provider_lawful : LawfulProvider demo_auth_provider.
Proof. apply (demo_provider_lawful demo_tokens). vm_compute. reflexivity. Qed.

Lemma surfaces_authenticate_alike_witness :
  require_access_scope demo_auth_provider (Some "bearer  token-a ") =
    Returned (mkAccessScope "tenant-a" "ann" supervisor (role_permissions supervisor)) ∧
  require_access_scope demo_auth_provider (Some "Bearer token-b") =
    HTTPException 401 "Unauthorized" [("WWW-Authenticate", "Bearer")] ∧
  ((∃ i s u, resolve_identity demo_auth_provider (Some "bearer  token-a ") = Ok i ∧
     require_access_scope demo_auth_provider (Some "bearer  token-a ") = Returned s ∧
     authenticate demo_auth_provider (Some "bearer  token-a ") = Returned u ∧
     require_scope (Some (user_payload u)) = Ok s ∧
     sc_tenant_id s = ai_tenant_id i ∧ sc_user_id s = ai_user_id i ∧ canonical s ∧ AccessScope_validate s = Ok s) ∨
   (∃ status_code detail headers,
     require_access_scope demo_auth_provider (Some "bearer  token-a ") = HTTPException status_code detail headers ∧
     authenticate demo_auth_provider (Some "bearer  token-a ") = HTTPException status_code detail headers ∧
     (status_code = 401 ∧ headers = [("WWW-Authenticate", "Bearer")] ∨ status_code = 503))).
Proof.
  do 2 (split; [vm_compute; reflexivity|]).
  exact (surfaces_authenticate_alike demo_auth_provider (Some "bearer  token-a ") demo_auth_provider_lawful).
Defined.

(** * The token verifier over the key cache *)

Lemma elem_of_matched_roles groups rg r :
  r ∈ matched_roles groups rg ↔ ∃ allowed, (r, allowed) ∈ rg ∧ groups ∩ allowed ≠ ∅.
Proof.
  unfold matched_roles. rewrite elem_of_list_to_set, list_elem_of_fmap. split.
  - intros ([r' g] & -> & [Hg Hin]%list_elem_of_filter). eauto.
  - intros (g & Hin & Hg). exists (r, g). split; [done|]. by apply list_elem_of_filter.
Qed.

(** C20: only a verified token authenticates: when the verifier, over the key cache and in
    whatever order its callers run, resolves a request to an identity, the request carried a
    bearer token whose header declares an allowed algorithm and a key identifier; the key the
    cache answered was published under it and had not expired; and with that key the decoder
    accepted the token for the configured issuer and audience, within the configured leeway.
    The token brought no permissions of its own, its groups match the groups of the identity's
    role and of no other role, and the identity holds exactly that role's permissions. *)
Theorem only_verified_tokens_authenticate {Key} (jwks : JwksLibrary Key) (jwt : JwtLibrary Key)
    (config : OidcVerifierConfig) (rnd : Q → Q) (events : list cache_event) (s : cache_state)
    (keys : string → res Key) (authorization : option string) (i : AuthenticatedIdentity) :
  cache_run jwks (algorithms config) (jwks_cache_ttl_seconds config) rnd events fresh_cache = Some s →
  (∀ kid key, keys kid = Ok key → ∃ at_, (kid, at_, Ok key) ∈ cs_answers s) →
  oidc_resolve jwt config keys authorization = Ok i →
  ∃ token header kid algorithm key at_ claims groups,
    extract_bearer_token authorization = Ok token ∧ jwt_header jwt token = Some header ∧
    py_get "kid" header = PyStr kid ∧ py_get "alg" header = PyStr algorithm ∧ algorithm ∈ algorithms config ∧
    trusted_key jwks (algorithms config) (jwks_cache_ttl_seconds config) rnd (cs_published s) kid at_ key ∧
    jwt_decode jwt token key (sorted_strings (elements (algorithms config))) (audience config) (issuer config)
      (clock_skew_seconds config) = Some claims ∧
    claims_of claims !! "permissions" = None ∧
    required_string_sequence_claim (claims_of claims) (groups_claim (oidc_claims config)) = Ok groups ∧
    (∀ r, (∃ allowed, (r, allowed) ∈ role_groups (oidc_claims config) ∧ groups ∩ allowed ≠ ∅) ↔ r = ai_role i) ∧
    ai_permissions i = role_permissions (ai_role i).
Proof.
  intros Hrun Hkeys H. unfold oidc_resolve in H. apply res_bind_ok in H as (token & Ht & H).
  destruct (jwt_header jwt token) as [header|] eqn:Hh; [|done].
  apply res_bind_ok in H as ([kid algorithm] & Hd & H). unfold declared_header in Hd.
  destruct (py_get "kid" header) as [| | | |kid'| |] eqn:Hkid; try done.
  destruct (py_get "alg" header) as [| | | |alg'| |] eqn:Halg; try done.
  apply res_bind_ok in Hd as (? & Hc%raise_if_ok & [= -> ->]). bools.
  apply res_bind_ok in H as (key & Hk & H).
  destruct (keys kid) as [k|] eqn:Ek; [|by case_bool_decide]. injection Hk as ->.
  destruct (Hkeys _ _ Ek) as (at_ & Hin).
  destruct (jwt_decode _ _ _ _ _ _ _) as [claims|] eqn:Hdec; [|done].
  apply claims_grant_exactly_one_role in H as (Hperm & (groups & Hg & Hm) & Hp & _).
  exists token, header, kid, algorithm, key, at_, claims, groups.
  pose proof (cache_run_ok _ _ _ _ _ _ _ (cache_ok_fresh _ _ _ _) Hrun) as Hok.
  split_and!; try done; [by eapply co_answers|]. intros r.
  rewrite <- elem_of_matched_roles, Hm. apply elem_of_singleton.
Qed.

Definition demo_oidc_config : OidcVerifierConfig :=
  mkOidcVerifierConfig "https://idp.example" "shop" "https://idp.example/keys" {["RS256"]} demo_mapping 300 (Finite 5) 60.
Definition demo_jwt_library : JwtLibrary string :=
  mkJwtLibrary
    (λ token, if String.eqb token "token-1" then Some [("alg", PyStr "RS256"); ("kid", PyStr "k1")] else None)
    (λ token key _ _ _ _,
       if String.eqb key "key-1"
       then Some [("sub", PyStr "ann"); ("tid", PyStr "tenant-a"); ("groups", PyList [PyStr "agents"])] else None).

Definition demo_keys (kid : string) : res string :=
  if String.eqb kid "k1" then Ok "key-1" else Err UnknownSigningKeyError.

Lemma only_verified_tokens_authenticate_witness :
  match cache_run demo_jwks_library {["RS256"]} 300 id demo_cache_events fresh_cache with
  | None => False
  | Some s =>
      oidc_resolve demo_jwt_library demo_oidc_config demo_keys (Some "Bearer token-1") = Ok demo_identity ∧
      ∃ token header kid algorithm key at_ claims groups,
        extract_bearer_token (Some "Bearer token-1") = Ok token ∧ jwt_header demo_jwt_library token = Some header ∧
        py_get "kid" header = PyStr kid ∧ py_get "alg" header = PyStr algorithm ∧
        algorithm ∈ algorithms demo_oidc_config ∧
        trusted_key demo_jwks_library (algorithms demo_oidc_config) 300 id (cs_published s) kid at_ key ∧
        jwt_decode demo_jwt_library token key (sorted_strings (elements (algorithms demo_oidc_config)))
          (audience demo_oidc_config) (issuer demo_oidc_config) 60 = Some claims ∧
        claims_of claims !! "permissions" = None ∧
        required_string_sequence_claim (claims_of claims) (groups_claim (oidc_claims demo_oidc_config)) = Ok groups ∧
        (∀ r, (∃ allowed, (r, allowed) ∈ role_groups (oidc_claims demo_oidc_config) ∧ groups ∩ allowed ≠ ∅) ↔
              r = ai_role demo_identity) ∧
        ai_permissions demo_identity = role_permissions (ai_role demo_identity)
  end.
Proof.
  destruct (cache_run demo_jwks_library {["RS256"]} 300 id demo_cache_events fresh_cache) as [s|] eqn:E;
    [|vm_compute in E; discriminate E].
  assert (Hr : oidc_resolve demo_jwt_library demo_oidc_config demo_keys (Some "Bearer token-1") = Ok demo_identity)
    by (vm_compute; reflexivity).
  split; [exact Hr|].
  refine (only_verified_tokens_authenticate demo_jwks_library demo_jwt_library demo_oidc_config id demo_cache_events s
            demo_keys (Some "Bearer token-1") demo_identity E _ Hr).
  intros kid key Hk. unfold demo_keys in Hk. destruct (String.eqb_spec kid "k1") as [->|]; [|discriminate Hk].
  injection Hk as <-. exists 12%Q.
  assert (Hs : Some s = cache_run demo_jwks_library {["RS256"]} 300 id demo_cache_events fresh_cache) by (symmetry; exact E).
  vm_compute in Hs. injection Hs as ->. right. right. left.
Defined.

(** * Threads *)

(** A thread is its owner's: whatever metadata the request to create one brings, the owner
    it is stamped with is the caller; a caller reads, searches and runs only threads stamped
    with its own tenant and user, and nobody updates or deletes a thread; assistants may only be
    read; and every other request to the platform is denied. *)
Theorem threads_belong_to_their_owner (i j : AuthenticatedIdentity) (value created : pydict) (resource action : string) :
  on_threads_create i value = Some created →
  (filter_matches (owner_filter j) (thread_metadata created) = true ↔
     ai_tenant_id i = ai_tenant_id j ∧ ai_user_id i = ai_user_id j) ∧
  match resource_decision j resource action with
  | Allow => resource = "threads" ∧ action = "create" ∨ resource = "assistants" ∧ action ∈ ["read"; "search"]
  | Restrict f => resource = "threads" ∧ action ∈ ["read"; "search"; "create_run"] ∧ f = owner_filter j
  | Deny => ¬ (resource = "threads" ∧ action ∈ ["create"; "read"; "search"; "create_run"]) ∧
            ¬ (resource = "assistants" ∧ action ∈ ["read"; "search"])
  end.
Proof.
  intros Hc. split.
  - unfold on_threads_create in Hc. destruct (default (PyDict []) _) as [| | | | | |metadata]; try done.
    injection Hc as <-. unfold thread_metadata. rewrite dict_get_set, decide_True by done.
    unfold filter_matches, owner_filter, dict_update, owner_metadata. cbn [forallb foldl fst snd].
    rewrite !dict_get_set.
    repeat match goal with |- context [decide (?a = ?b)] =>
      first [rewrite (decide_True (P := a = b)) by reflexivity | rewrite (decide_False (P := a = b)) by discriminate] end.
    rewrite andb_true_r, andb_true_iff, !String.eqb_eq. tauto.
  - unfold resource_decision. destruct (String.eqb_spec resource "threads") as [->|Hr]; cbn.
    + destruct (String.eqb_spec action "create") as [->|Ha]; [by left|].
      case_bool_decide; [done|]. split; [|by intros [? _]]. intros [_ [?|?]%elem_of_cons]; done.
    + destruct (String.eqb_spec resource "assistants") as [->|Ha]; cbn; [|by split; intros [? _]].
      case_bool_decide; [by right|]. split; [by intros [? _]|by intros [_ ?]].
Qed.

Lemma threads_belong_to_their_owner_witness :
  match on_threads_create demo_identity [("metadata", PyDict [("tenant_id", PyStr "tenant-b")])] with
  | None => False
  | Some created =>
      (filter_matches (owner_filter demo_identity) (thread_metadata created) = true ↔
         ai_tenant_id demo_identity = ai_tenant_id demo_identity ∧ ai_user_id demo_identity = ai_user_id demo_identity) ∧
      match resource_decision demo_identity "threads" "delete" with
      | Allow => False
      | Restrict _ => False
      | Deny => True
      end
  end.
Proof.
  destruct (on_threads_create demo_identity [("metadata", PyDict [("tenant_id", PyStr "tenant-b")])]) as [created|] eqn:E;
    [|vm_compute in E; discriminate E].
  split; [|exact I].
  exact (proj1 (threads_belong_to_their_owner demo_identity demo_identity _ created "threads" "delete" E)).
Defined.

(** A demo token with blanks around it is accepted and can never be presented: the header's
    token is stripped before it is looked up. *)
Example padded_demo_token_never_matches :
  match new_demo_provider [(" token-a", PyDict [("user_id", PyStr "ann"); ("tenant_id", PyStr "tenant-a"); ("role", PyStr "customer")])] with
  | Ok p => resolve_identity p (Some "Bearer  token-a") = Err (UnauthenticatedError "Unknown or missing demo token")
  | Err _ => False
  end.
Proof. vm_compute. reflexivity. Qed.
