(* ===== verification/IdentityRuntime.v ===== *)
(** The personnel directory and the runtime that owns it: [auth/scim_directory.py], the
    directory half of [auth/demo_provider.py], [auth/preflight.py] and [auth/runtime.py].  The
    HTTP client and the JSON decoder are parameters. *)
From Stdlib Require Import QArith.
From S2P Require Import Prelude Auth Hmac Retry Connections IdentityConfig Jwks Authentication.

(** * [DirectoryUser] *)

Definition DirectoryUser_validate (u : DirectoryUser) : res DirectoryUser :=
  let u := mkDirectoryUser (strip (du_user_id u)) (strip (du_tenant_id u)) (du_active u) (du_roles u) in
  raise_if (negb (nonempty (du_user_id u)) || negb (nonempty (du_tenant_id u))) (ValidationError "DirectoryUser");;;
  let* _ := validating "DirectoryUser" (encode_identity_key (du_tenant_id u) (du_user_id u)) in
  Ok u.

(** * [ScimIdentityDirectory] *)

Definition LIST_RESPONSE_SCHEMA : string := "urn:ietf:params:scim:api:messages:2.0:ListResponse".
Definition USER_SCHEMA : string := "urn:ietf:params:scim:schemas:core:2.0:User".
Definition SERVICE_PROVIDER_SCHEMA : string := "urn:ietf:params:scim:schemas:core:2.0:ServiceProviderConfig".
Definition MAX_SCIM_RESPONSE_BYTES : Z := 1048576.

(** [json.dumps] of a string, in ASCII. *)
Definition quote : ascii := "034"%char.
Definition backslash : ascii := "092"%char.

Definition escaped_char (c : ascii) : string :=
  let n := N_of_ascii c in
  if Ascii.eqb c quote then String backslash (String quote "")
  else if Ascii.eqb c backslash then String backslash (String backslash "")
  else if (n =? 8)%N then String backslash "b"
  else if (n =? 9)%N then String backslash "t"
  else if (n =? 10)%N then String backslash "n"
  else if (n =? 12)%N then String backslash "f"
  else if (n =? 13)%N then String backslash "r"
  else if ((n <? 32) || (126 <? n))%N then String backslash "u" +:+ hex 4 n
  else String c "".

Fixpoint escaped (s : string) : string :=
  match s with EmptyString => EmptyString | String c s' => escaped_char c +:+ escaped s' end.

Definition scim_string (value : string) : string := String quote (escaped value +:+ String quote "").

(** A GET request: its URL, its query and the token in its header. *)
Record ScimRequest := mkScimRequest {
  sr_url : string;
  sr_params : list (string * string);
  sr_headers : list (string * string);
  sr_timeout : float;
}.

Record ScimDirectory := mkScimDirectory {
  sd_config : ScimDirectoryConfig;
  sd_client : ScimRequest → get_exchange;
  sd_json : bytes → option pyjson;
}.

Definition directory_unavailable : exn := DirectoryInfrastructureUnavailableError.

Section Scim.
Context (d : ScimDirectory).

Definition users_url : string := rstrip_slash (base_url (sd_config d)) +:+ "/Users".
Definition preflight_url : string := rstrip_slash (base_url (sd_config d)) +:+ "/ServiceProviderConfig".

Definition scim_request (url : string) (params : list (string * string)) : ScimRequest :=
  mkScimRequest url params
    [("Accept", "application/scim+json"); ("Authorization", "Bearer " +:+ bearer_token (sd_config d))]
    (timeout_seconds (sd_config d)).

(** [_get_json] *)
Definition get_json (url : string) (params : list (string * string)) : res pyjson :=
  match sd_client d (scim_request url params) with
  | None => Err directory_unavailable
  | Some response =>
      raise_if ((gr_status_code response <? 200) || (300 <=? gr_status_code response)) directory_unavailable;;;
      let* body := read_bounded MAX_SCIM_RESPONSE_BYTES directory_unavailable
                     (gr_chunks response) (gr_complete response) [] in
      match sd_json d body with Some v => Ok v | None => Err directory_unavailable end
  end.

(** [s.startswith(prefix)], and what follows it. *)
Fixpoint after_prefix (prefix s : string) : option string :=
  match prefix, s with
  | EmptyString, _ => Some s
  | String c p, String c' s' => if Ascii.eqb c c' then after_prefix p s' else None
  | _, EmptyString => None
  end.

Definition longer_first (a b : string) : Prop := (String.length b ≤ String.length a)%nat.
#[local] Instance longer_first_dec : RelDecision longer_first.
Proof. intros a b. unfold longer_first. apply _. Defined.

(** The keys of the resource that are a schema prefix of the path, longest first; the first
    of equal length stays first. *)
Definition schema_keys (resource : pydict) (path : string) : list string :=
  merge_sort longer_first
    (filter (λ key, is_Some (after_prefix (key +:+ ":") path)) resource.*1).

(** The loop over the parts of a path. *)
Fixpoint follow_path (current : pyjson) (parts : list string) : pyjson :=
  match parts with
  | [] => current
  | part :: parts' =>
      match current with
      | PyDict fields => match dict_get part fields with Some v => follow_path v parts' | None => PyNone end
      | _ => PyNone
      end
  end.

Definition read_attribute (resource : pydict) (path : string) : pyjson :=
  match dict_get path resource with
  | Some v => v
  | None =>
      match schema_keys resource path with
      | key :: _ =>
          follow_path (py_get key resource) (split_on "." (default "" (after_prefix (key +:+ ":") path)))
      | [] => follow_path (PyDict resource) (split_on "." path)
      end
  end.

Definition external_role (item : pyjson) : option string :=
  let usable v := match v with PyStr s => if nonempty (strip s) then Some (strip s) else None | _ => None end in
  match item with
  | PyDict fields => usable (py_get "value" fields)
  | v => usable v
  end.

Fixpoint external_roles (items : list pyjson) : option (list string) :=
  match items with
  | [] => Some []
  | item :: items' => r ← external_role item; rs ← external_roles items'; Some (r :: rs)
  end.

Definition parse_external_roles (value : pyjson) : res (gset string) :=
  match value with
  | PyList items =>
      match external_roles items with Some rs => Ok (list_to_set rs) | None => Err directory_unavailable end
  | _ => Err directory_unavailable
  end.

(** [isinstance(value, list) and schema in value] *)
Definition has_schema (schema : string) (value : pyjson) : bool :=
  match value with PyList l => py_mem schema l | _ => false end.

(** The one resource of a response. *)
Definition parse_resource (resource : pyjson) (expected_tenant_id expected_user_id : string) :
    res (option DirectoryUser) :=
  match resource with
  | PyDict resource =>
      raise_if (negb (has_schema USER_SCHEMA (py_get "schemas" resource))) directory_unavailable;;;
      let raw_roles := read_attribute resource (roles_attribute (sd_config d)) in
      match read_attribute resource (user_id_attribute (sd_config d)),
            read_attribute resource (tenant_id_attribute (sd_config d)),
            read_attribute resource (active_attribute (sd_config d)) with
      | PyStr user_id, PyStr tenant_id, PyBool active =>
          if bool_decide (user_id ≠ expected_user_id) || bool_decide (tenant_id ≠ expected_tenant_id) then Ok None
          else
            let* external := parse_external_roles raw_roles in
            let roles := matched_roles external (role_mapping (sd_config d)) in
            match DirectoryUser_validate (mkDirectoryUser user_id tenant_id active roles) with
            | Ok u => Ok (Some u)
            | Err _ => Err directory_unavailable
            end
      | _, _, _ => Err directory_unavailable
      end
  | _ => Err directory_unavailable
  end.

Definition parse_user_response (payload : pyjson) (expected_tenant_id expected_user_id : string) :
    res (option DirectoryUser) :=
  match payload with
  | PyDict fields =>
      match py_get "Resources" fields, py_get "totalResults" fields with
      | PyList resources, PyInt total_results =>
          raise_if (negb (has_schema LIST_RESPONSE_SCHEMA (py_get "schemas" fields)) || (total_results <? 0))
            directory_unavailable;;;
          if total_results =? 0 then raise_if (negb (bool_decide (resources = []))) directory_unavailable;;; Ok None
          else
            raise_if (negb (total_results =? 1)) directory_unavailable;;;
            match resources with
            | [resource] => parse_resource resource expected_tenant_id expected_user_id
            | _ => Err directory_unavailable
            end
      | _, _ => Err directory_unavailable
      end
  | _ => Err directory_unavailable
  end.

Definition join_comma (l : list string) : string := String.concat "," l.

Definition scim_filter (tenant_id user_id : string) : string :=
  user_id_attribute (sd_config d) +:+ " eq " +:+ scim_string user_id +:+ " and "
  +:+ tenant_id_attribute (sd_config d) +:+ " eq " +:+ scim_string tenant_id.

Definition user_query (tenant_id user_id : string) : list (string * string) :=
  let attributes := join_comma (dict_fromkeys
    [user_id_attribute (sd_config d); tenant_id_attribute (sd_config d);
     active_attribute (sd_config d); roles_attribute (sd_config d)]) in
  [("filter", scim_filter tenant_id user_id); ("attributes", attributes); ("startIndex", "1"); ("count", "2")].

(** [ScimIdentityDirectory.find_user] *)
Definition scim_find_user : IdentityDirectory := λ tenant_id user_id,
  let* payload := get_json users_url (user_query tenant_id user_id) in
  parse_user_response payload tenant_id user_id.

(** [ScimIdentityDirectory.preflight] *)
Definition scim_preflight : res unit :=
  let* payload := get_json preflight_url [] in
  match payload with
  | PyDict fields =>
      raise_if (negb (has_schema SERVICE_PROVIDER_SCHEMA (py_get "schemas" fields))) directory_unavailable
  | _ => Err directory_unavailable
  end.
End Scim.

(** [DemoIdentityProvider.find_user] *)
Definition demo_find_user (p : DemoIdentityProvider) : IdentityDirectory := λ tenant_id user_id,
  let matches := filter (λ i, ai_tenant_id i = tenant_id ∧ ai_user_id i = user_id) (dp_identities p).*2 in
  match matches with
  | [] => Ok None
  | _ => let* u := DirectoryUser_validate (mkDirectoryUser user_id tenant_id true (list_to_set (ai_role <$> matches))) in
         Ok (Some u)
  end.

(** * Preflight *)

Definition OIDC_JWKS_COMPONENT : string := "oidc_jwks".
Definition SCIM_DIRECTORY_COMPONENT : string := "scim_directory".

(** [_required_components], sorted. *)
Definition required_components (c : IdentityRuntimeConfig) : list string :=
  if bool_decide (mode c ≠ production) then [] else [OIDC_JWKS_COMPONENT; SCIM_DIRECTORY_COMPONENT].

(** The loop of [require_identity_preflight]: every failure of a probe is the same failure. *)
Fixpoint run_probes (probes : list (string * res unit)) (components : list string) : res (list string) :=
  match components with
  | [] => Ok []
  | component :: components' =>
      match dict_get component probes with
      | Some (Ok _) => let* checked := run_probes probes components' in Ok (component :: checked)
      | Some (Err _) => Err IdentityInfrastructureUnavailableError
      | None => Err (KeyError component)
      end
  end.

(** [probes]: what each probe that is there does when it is called. *)
Definition require_identity_preflight (config : IdentityRuntimeConfig) (probes : list (string * res unit)) :
    res (list string) :=
  let required := required_components config in
  raise_if (negb (forallb (λ c, bool_decide (is_Some (dict_get c probes))) required)) IdentityConfigurationError;;;
  run_probes probes required.

(** * The runtime *)

(** The provider and the directory a configuration selects. *)
Inductive ProviderChoice := UseDemo (p : DemoIdentityProvider) | UseOidc (c : OidcVerifierConfig).
Inductive DirectoryChoice := UseScim (c : ScimDirectoryConfig) | UseDemoDirectory (p : DemoIdentityProvider).

Record IdentityRuntime := mkIdentityRuntime {
  rt_config : IdentityRuntimeConfig;
  rt_provider : ProviderChoice;
  rt_directory : option DirectoryChoice;
  rt_owned_http_client : option nat;
}.

(** The process: the published runtime, and the HTTP clients created so far and still open. *)
Record Process := mkProcess {
  ps_runtime : option IdentityRuntime;
  ps_next_client : nat;
  ps_open_clients : gset nat;
}.

Definition start_process : Process := mkProcess None 0 ∅.

Section Runtime.
Context (lib : TextLibrary) (environment : Environ) (studio_auth_disabled : bool).
(** The client handed in, if one is. *)
Context (http_client : option nat).

Definition controls_of : ProductionSecurityControls :=
  mkProductionSecurityControls
    (nonempty (strip (default "" (environment !! demo_variable))))
    studio_auth_disabled
    (String.eqb (lower (default "" (environment !! "PROVIDER_ALLOW_INSECURE_HTTP"))) "true").

(** A client of its own, when a backend needs one and none was handed in. *)
Definition own_client (config : IdentityRuntimeConfig) (s : Process) : option nat * Process :=
  if bool_decide (http_client = None)
     && (bool_decide (identity_backend config = ib_oidc) || bool_decide (directory_backend config = db_scim))
  then (Some (ps_next_client s),
        mkProcess (ps_runtime s) (S (ps_next_client s)) ({[ps_next_client s]} ∪ ps_open_clients s))
  else (None, s).

Definition choose_provider (config : IdentityRuntimeConfig) (client : option nat) : res ProviderChoice :=
  match identity_backend config with
  | ib_demo => let* p := demo_from_environment lib environment in Ok (UseDemo p)
  | ib_oidc =>
      match oidc config, client with
      | Some c, Some _ => Ok (UseOidc c)
      | _, _ => Err AssertionError
      end
  end.

Definition choose_directory (config : IdentityRuntimeConfig) (client : option nat) (provider : ProviderChoice) :
    res (option DirectoryChoice) :=
  match directory_backend config with
  | db_scim =>
      match scim config, client with
      | Some c, Some _ => Ok (Some (UseScim c))
      | _, _ => Err AssertionError
      end
  | db_none => Ok (match provider with UseDemo p => Some (UseDemoDirectory p) | UseOidc _ => None end)
  end.

(** [create_identity_runtime]: a client it creates stays open when a later step raises. *)
Definition create_identity_runtime (s : Process) : res IdentityRuntime * Process :=
  match (let* config := identity_from_environment lib environment in
         validate_production_security_controls config controls_of;;; Ok config) with
  | Err e => (Err e, s)
  | Ok config =>
      let '(owned, s) := own_client config s in
      let client := match http_client with Some c => Some c | None => owned end in
      ((let* provider := choose_provider config client in
        let* directory := choose_directory config client provider in
        Ok (mkIdentityRuntime config provider directory owned)), s)
  end.

(** [IdentityRuntime.close] *)
Definition close_runtime (r : IdentityRuntime) (s : Process) : Process :=
  match rt_owned_http_client r with
  | Some c => mkProcess (ps_runtime s) (ps_next_client s) (ps_open_clients s ∖ {[c]})
  | None => s
  end.

(** What the preflights of the two backends do now. *)
Context (oidc_preflight : OidcVerifierConfig → res unit) (scim_preflight_of : ScimDirectoryConfig → res unit).
Context (additional_probes : list (string * res unit)).

(** [IdentityRuntime.preflight] *)
Definition runtime_preflight (r : IdentityRuntime) : res (list string) :=
  let probes := match rt_provider r with
                | UseOidc c => dict_set OIDC_JWKS_COMPONENT (oidc_preflight c) additional_probes
                | UseDemo _ => additional_probes
                end in
  let probes := match rt_directory r with
                | Some (UseScim c) => dict_set SCIM_DIRECTORY_COMPONENT (scim_preflight_of c) probes
                | _ => probes
                end in
  require_identity_preflight (rt_config r) probes.

Definition configure_identity_runtime (r : IdentityRuntime) (s : Process) : res unit * Process :=
  match ps_runtime s with
  | Some _ => (Err (RuntimeError "Identity runtime has already been configured"), s)
  | None => (Ok tt, mkProcess (Some r) (ps_next_client s) (ps_open_clients s))
  end.

Definition initialize_identity_runtime (s : Process) : res IdentityRuntime * Process :=
  match create_identity_runtime s with
  | (Err e, s) => (Err e, s)
  | (Ok r, s) =>
      match runtime_preflight r with
      | Err e => (Err e, close_runtime r s)
      | Ok _ =>
          match configure_identity_runtime r s with
          | (Ok _, s) => (Ok r, s)
          | (Err e, s) => (Err e, close_runtime r s)
          end
      end
  end.
End Runtime.

Definition get_identity_runtime (s : Process) : res IdentityRuntime :=
  match ps_runtime s with
  | Some r => Ok r
  | None => Err (RuntimeError "Identity runtime is unavailable because application startup has not completed")
  end.

Definition shutdown_identity_runtime (s : Process) : Process :=
  match ps_runtime s with
  | Some r => close_runtime r (mkProcess None (ps_next_client s) (ps_open_clients s))
  | None => s
  end.

(** * The filter of a directory query *)

(** A reader of JSON strings, as the grammar has them: the value before the closing quote, and
    the text after it. *)
Definition hex_value (c : ascii) : option N :=
  let n := N_of_ascii c in
  if ((48 <=? n) && (n <=? 57))%N then Some (n - 48)%N
  else if ((97 <=? n) && (n <=? 102))%N then Some (n - 87)%N else None.

Definition simple_escape (c : ascii) : option ascii :=
  if Ascii.eqb c quote then Some quote
  else if Ascii.eqb c backslash then Some backslash
  else if Ascii.eqb c "b" then Some "008"%char
  else if Ascii.eqb c "t" then Some "009"%char
  else if Ascii.eqb c "n" then Some "010"%char
  else if Ascii.eqb c "f" then Some "012"%char
  else if Ascii.eqb c "r" then Some "013"%char else None.

Definition prepend (c : ascii) (r : option (string * string)) : option (string * string) :=
  '(s, rest) ← r; Some (String c s, rest).

Fixpoint read_string (s : string) : option (string * string) :=
  match s with
  | EmptyString => None
  | String c s' =>
      if Ascii.eqb c quote then Some (EmptyString, s')
      else if Ascii.eqb c backslash then
        match s' with
        | EmptyString => None
        | String e s'' =>
            if Ascii.eqb e "u" then
              match s'' with
              | String a (String b (String x (String y rest))) =>
                  match hex_value a, hex_value b, hex_value x, hex_value y with
                  | Some a, Some b, Some x, Some y =>
                      prepend (ascii_of_N (((a * 16 + b) * 16 + x) * 16 + y)%N) (read_string rest)
                  | _, _, _, _ => None
                  end
              | _ => None
              end
            else match simple_escape e with Some c => prepend c (read_string s'') | None => None end
        end
      else prepend c (read_string s')
  end.

Lemma read_escaped_char c rest : read_string (escaped_char c +:+ rest) = prepend c (read_string rest).
Proof. destruct c as [[] [] [] [] [] [] [] []]; reflexivity. Qed.

Lemma read_escaped s rest : read_string (escaped s +:+ String quote rest) = Some (s, rest).
Proof.
  induction s as [|c s IH]; [done|]. cbn [escaped]. rewrite append_assoc, read_escaped_char, IH. done.
Qed.

(** The quoted text reads back as the value, wherever it ends. *)
Lemma scim_string_read value rest :
  ∃ text, scim_string value +:+ rest = String quote text ∧ read_string text = Some (value, rest).
Proof.
  exists (escaped value +:+ String quote rest). unfold scim_string. split; [|apply read_escaped].
  change (String quote ((escaped value +:+ String quote "") +:+ rest) = String quote (escaped value +:+ String quote rest)).
  by rewrite append_assoc.
Qed.

Lemma scim_string_inj v w x y : scim_string v +:+ x = scim_string w +:+ y → v = w ∧ x = y.
Proof.
  intros H. destruct (scim_string_read v x) as (t & Ht & Hr). destruct (scim_string_read w y) as (t' & Ht' & Hr').
  rewrite Ht, Ht' in H. injection H as ->. naive_solver.
Qed.

(** * What the directories answer *)

Section Directory.
Context (d : ScimDirectory).

Definition is_unavailable (e : exn) : Prop := e = DirectoryInfrastructureUnavailableError.
Lemma is_unavailable_refl : is_unavailable directory_unavailable. Proof. done. Qed.
#[local] Hint Resolve is_unavailable_refl : raising.

Lemma read_bounded_raises limit chunks complete body :
  only_raises is_unavailable (read_bounded limit directory_unavailable chunks complete body).
Proof.
  revert body. induction chunks as [|chunk chunks IH]; intros body; cbn; [raising|].
  apply only_raises_bind; [by apply only_raises_if|]. intros _. apply IH.
Qed.
#[local] Hint Resolve read_bounded_raises : raising.

Lemma get_json_raises url params : only_raises is_unavailable (get_json d url params).
Proof. unfold get_json. raising. Qed.

Lemma parse_external_roles_raises v : only_raises is_unavailable (parse_external_roles v).
Proof. unfold parse_external_roles. raising. Qed.
#[local] Hint Resolve parse_external_roles_raises get_json_raises : raising.

Lemma parse_user_response_raises payload t u : only_raises is_unavailable (parse_user_response d payload t u).
Proof. unfold parse_user_response, parse_resource. raising. Qed.
#[local] Hint Resolve parse_user_response_raises : raising.

Lemma scim_find_user_raises t u : only_raises is_unavailable (scim_find_user d t u).
Proof. unfold scim_find_user. raising. Qed.

Lemma scim_preflight_raises : only_raises is_unavailable (scim_preflight d).
Proof. unfold scim_preflight. raising. Qed.

End Directory.

(** A directory that answers with one supervisor. *)
Definition demo_scim_config : ScimDirectoryConfig :=
  mkScimDirectoryConfig "https://dir.example/scim/" "secret" "userName" "urn:shop:tenant" "active" "roles"
    [(support_agent, {["agent"]}); (supervisor, {["lead"]})] (Finite 5).
Definition demo_scim : ScimDirectory :=
  mkScimDirectory demo_scim_config (λ _, Some (mkGetResponse 200 None [[]] true))
    (λ _, Some (PyDict [("schemas", PyList [PyStr LIST_RESPONSE_SCHEMA]); ("totalResults", PyInt 1);
      ("Resources", PyList [PyDict [("schemas", PyList [PyStr USER_SCHEMA]); ("userName", PyStr "ann");
        ("urn:shop", PyDict [("tenant", PyStr "tenant-a")]); ("active", PyBool true);
        ("roles", PyList [PyStr " lead "; PyDict [("value", PyStr "guest")]])]])])).

Example demo_scim_answers :
  scim_find_user demo_scim "tenant-a" "ann" = Ok (Some (mkDirectoryUser "ann" "tenant-a" true {[supervisor]})) ∧
  scim_find_user demo_scim "tenant-b" "ann" = Ok None.
Proof. split; vm_compute; reflexivity. Qed.

(** A demo directory never fails, and knows the configured identities. *)
Lemma demo_find_user_ok tokens p t u r :
  new_demo_provider tokens = Ok p → demo_find_user p t u = r →
  r = Ok None ∨ ∃ x, r = Ok (Some x) ∧ du_tenant_id x = t ∧ du_user_id x = u ∧ du_active x = true ∧
    ∀ role, role ∈ du_roles x ↔ ∃ i, i ∈ (dp_identities p).*2 ∧ ai_tenant_id i = t ∧ ai_user_id i = u ∧ ai_role i = role.
Proof.
  intros Hp <-. unfold new_demo_provider in Hp. apply res_bind_ok in Hp as (ids & Hids & [= <-]).
  apply demo_identities_trusted in Hids; [|constructor]. unfold demo_find_user. cbn [dp_identities].
  remember (filter _ ids.*2) as l eqn:El.
  assert (∀ i, i ∈ l ↔ (ai_tenant_id i = t ∧ ai_user_id i = u) ∧ i ∈ ids.*2) as Hl
    by (intros i; subst l; by rewrite list_elem_of_filter).
  destruct l as [|j l']; [by left|]. right.
  assert (j ∈ j :: l') as Hj by left. apply Hl in Hj as [[Ht Hu] Hj].
  apply list_elem_of_fmap in Hj as (q & -> & Hq). rewrite Forall_forall in Hids. apply Hids in Hq as [Hv _].
  apply AuthenticatedIdentity_validate_ok in Hv as (St & Su & Nt & Nu & Kt & Ku & _).
  rewrite Ht in *. rewrite Hu in *. eexists. split.
  - unfold DirectoryUser_validate. cbn [du_user_id du_tenant_id du_active du_roles]. rewrite St, Su.
    apply nonempty_true in Nt as ->, Nu as ->. cbn [negb orb raise_if res_bind].
    rewrite (proj2 (encode_identity_key_ok t u _) (conj Kt (conj Ku eq_refl))). reflexivity.
  - cbn [du_user_id du_tenant_id du_active du_roles]. split_and!; [done..|]. intros role.
    rewrite elem_of_list_to_set, list_elem_of_fmap. split.
    + intros (i & -> & [[? ?] ?]%Hl). eauto.
    + intros (i & Hi & Hti & Hui & <-). exists i. split; [done|]. by apply Hl.
Qed.

(** * Startup *)

Section Startup.
Context (lib : TextLibrary) (environment : Environ) (studio_auth_disabled : bool).

(** What production is held to, besides its configuration. *)
Definition locked_down : Prop :=
  has_ink (default "" (environment !! demo_variable)) = false ∧
  studio_auth_disabled = true ∧ lower (default "" (environment !! "PROVIDER_ALLOW_INSECURE_HTTP")) ≠ "true".

(** The step that can leave a client open: reading the demo tokens beside a SCIM directory. *)
Definition demo_tokens_rejected (e : exn) : Prop :=
  ∃ config, identity_from_environment lib environment = Ok config ∧
    identity_backend config = ib_demo ∧ directory_backend config = db_scim ∧
    demo_from_environment lib environment = Err e.

Lemma controls_locked_down config u :
  validate_production_security_controls config (controls_of environment studio_auth_disabled) = Ok u →
  mode config = production → locked_down.
Proof.
  intros H Hm. unfold validate_production_security_controls in H. rewrite bool_decide_false in H by (by intros []).
  apply res_bind_ok in H as (? & H1%raise_if_ok & H). apply res_bind_ok in H as (? & H2%raise_if_ok & H3%raise_if_ok).
  unfold locked_down, controls_of in *. cbn in *. rewrite nonempty_strip in H1. apply negb_false_iff in H2.
  split; [done|]. split; [done|]. intros He. by rewrite He in H3.
Qed.

(** A runtime a configuration describes. *)
Definition describes_runtime (owned : option nat) (r : IdentityRuntime) : Prop :=
  config_ok lib (rt_config r) ∧ rt_owned_http_client r = owned ∧
  (mode (rt_config r) = production → locked_down) ∧
  (∀ o, oidc (rt_config r) = Some o → rt_provider r = UseOidc o) ∧
  (∀ c, scim (rt_config r) = Some c → rt_directory r = Some (UseScim c)).

Lemma own_client_open config s owned s' :
  ps_next_client s ∉ ps_open_clients s → own_client None config s = (owned, s') →
  ps_runtime s' = ps_runtime s ∧
  ((owned = None ∧ s' = s ∧ identity_backend config ≠ ib_oidc ∧ directory_backend config ≠ db_scim) ∨
   (owned = Some (ps_next_client s) ∧ ps_open_clients s' ∖ {[ps_next_client s]} = ps_open_clients s ∧
    (identity_backend config = ib_oidc ∨ directory_backend config = db_scim))).
Proof.
  unfold own_client. intros Hf. rewrite bool_decide_true by done. cbn [andb].
  destruct (bool_decide (identity_backend config = ib_oidc)) eqn:E1, (bool_decide (directory_backend config = db_scim)) eqn:E2;
    cbn [orb]; intros [= <- <-]; (split; [done|]); bools;
    first [left; done | right; split; [done|]; split; [cbn; set_solver|auto]].
Qed.

Lemma choose_provider_ok config client p :
  config_ok lib config → choose_provider lib environment config client = Ok p →
  ∀ o, oidc config = Some o → p = UseOidc o.
Proof.
  intros (Hi & _) H o Ho. unfold choose_provider in H.
  rewrite (proj2 Hi) in H by (rewrite Ho; eauto). rewrite Ho in H. destruct client; [|done]. by injection H.
Qed.

Lemma choose_directory_ok config client p dir :
  config_ok lib config → choose_directory config client p = Ok dir →
  ∀ c, scim config = Some c → dir = Some (UseScim c).
Proof.
  intros (_ & Hs & _) H c Hc. unfold choose_directory in H.
  rewrite (proj2 Hs) in H by (rewrite Hc; eauto). rewrite Hc in H. destruct client; [|done]. by injection H.
Qed.

(** Choosing fails only on the demo tokens, when every selected backend has its client. *)
Lemma choosing_fails config client e :
  config_ok lib config → (identity_backend config = ib_oidc ∨ directory_backend config = db_scim → is_Some client) →
  (let* provider := choose_provider lib environment config client in
   let* directory := choose_directory config client provider in
   Ok (mkIdentityRuntime config provider directory client)) = Err e →
  identity_backend config = ib_demo ∧ demo_from_environment lib environment = Err e.
Proof.
  intros (Hi & Hs & _) Hc. unfold choose_provider, choose_directory.
  assert (∀ p, (∃ dir, choose_directory config client p = Ok dir)) as Hdir.
  { intros p. unfold choose_directory. destruct (directory_backend config) eqn:Ed; [eauto|].
    destruct (proj1 Hs eq_refl) as [c ->]. destruct Hc as [x ->]; [by right|]. eauto. }
  unfold choose_directory in Hdir. destruct (identity_backend config) eqn:Ei.
  - destruct (demo_from_environment lib environment) as [p|x] eqn:Ed; cbn; [|by intros [= ->]].
    destruct (Hdir (UseDemo p)) as [dir ->]. done.
  - destruct (proj1 Hi eq_refl) as [o ->]. destruct Hc as [x ->]; [by left|]. cbn.
    destruct (Hdir (UseOidc o)) as [dir ->]. done.
Qed.

Lemma create_identity_runtime_spec s r s' :
  ps_next_client s ∉ ps_open_clients s →
  create_identity_runtime lib environment studio_auth_disabled None s = (r, s') →
  ps_runtime s' = ps_runtime s ∧
  match r with
  | Err e => ps_open_clients s' = ps_open_clients s ∨ demo_tokens_rejected e
  | Ok rt => ∃ owned, describes_runtime owned rt ∧ ps_open_clients (close_runtime rt s') = ps_open_clients s
  end.
Proof.
  intros Hf. unfold create_identity_runtime.
  destruct (identity_from_environment lib environment) as [config|e] eqn:Ec; cbn [res_bind]; [|intros [= <- <-]; auto].
  destruct (validate_production_security_controls _ _) as [u|e] eqn:Ev; cbn [res_bind]; [|intros [= <- <-]; auto].
  destruct (own_client None config s) as [owned s1] eqn:Eo. intros [= <- <-].
  apply own_client_open in Eo as [Hrt Hopen]; [|done]. split; [done|].
  apply identity_from_environment_ok in Ec as Hok.
  destruct (let* provider := _ in _) as [rt|e] eqn:Er.
  - exists owned. apply res_bind_ok in Er as (p & Hp & Er). apply res_bind_ok in Er as (dir & Hd & [= <-]).
    split.
    + split; [done|]. split; [done|]. split; [by eapply controls_locked_down|].
      split; cbn; intros x Hx; [by eapply choose_provider_ok|f_equal; by eapply choose_directory_ok].
    + unfold close_runtime. cbn. destruct Hopen as [(-> & -> & _)|(-> & Ho & _)]; done.
  - destruct Hopen as [(-> & -> & _)|(-> & Ho & Hsel)]; [by left|]. right. exists config. split; [done|].
    apply choosing_fails in Er as [Hi Hd]; [|done|eauto]. split; [done|]. split; [|done].
    destruct Hsel as [Hsel|]; [congruence|done].
Qed.
End Startup.

(** C22: startup publishes a runtime only when its configuration is valid and none is published
    yet, and a production runtime is locked down: it verifies tokens of the configured issuer and asks the
    configured directory, all over HTTPS, with an allowlist of asymmetric algorithms and a
    mapping that gives an external group to one role at most; no demo tokens are configured,
    the studio cannot bypass authentication, plain HTTP to providers is off, and the preflight
    of both services succeeded before anything was published.  A failed startup publishes
    nothing and leaves no HTTP client open, unless demo tokens that cannot be read stand beside
    a SCIM directory; and shutting down what was started restores the process. *)
Theorem startup_fails_closed (lib : TextLibrary) (environment : Environ) (studio_auth_disabled : bool)
    (oidc_preflight : OidcVerifierConfig → res unit) (scim_preflight_of : ScimDirectoryConfig → res unit)
    (additional_probes : list (string * res unit)) (s s' : Process) (r : res IdentityRuntime) :
  ps_next_client s ∉ ps_open_clients s →
  initialize_identity_runtime lib environment studio_auth_disabled None oidc_preflight scim_preflight_of
    additional_probes s = (r, s') →
  match r with
  | Ok rt =>
      get_identity_runtime s' = Ok rt ∧ ps_runtime s = None ∧ config_ok lib (rt_config rt) ∧
      ps_runtime (shutdown_identity_runtime s') = None ∧
      ps_open_clients (shutdown_identity_runtime s') = ps_open_clients s ∧
      (mode (rt_config rt) = production →
       locked_down environment studio_auth_disabled ∧
       ∃ o c, rt_provider rt = UseOidc o ∧ rt_directory rt = Some (UseScim c) ∧ oidc_ok lib o ∧ scim_ok lib c ∧
         https_url lib (issuer o) ∧ https_url lib (jwks_url o) ∧ https_url lib (base_url c) ∧
         oidc_preflight o = Ok tt ∧ scim_preflight_of c = Ok tt)
  | Err e =>
      ps_runtime s' = ps_runtime s ∧
      (ps_open_clients s' = ps_open_clients s ∨ demo_tokens_rejected lib environment e)
  end.
Proof.
  intros Hf. unfold initialize_identity_runtime.
  destruct (create_identity_runtime _ _ _ _ s) as [[rt|e] s1] eqn:Ec;
    (apply create_identity_runtime_spec in Ec as [Hrt Hc]; [|done]); [|by intros [= <- <-]].
  destruct Hc as (owned & (Hok & Hown & Hlock & Ho & Hs) & Hclose).
  assert (ps_runtime (close_runtime rt s1) = ps_runtime s) as Hcr
    by (unfold close_runtime; by destruct (rt_owned_http_client rt)).
  destruct (runtime_preflight _ _ _ rt) as [checked|e] eqn:Ep; [|intros [= <- <-]; auto].
  unfold configure_identity_runtime. destruct (ps_runtime s1) eqn:Eps; intros [= <- <-]; [auto|].
  split; [done|]. split; [congruence|]. split; [done|].
  unfold shutdown_identity_runtime. cbn [ps_runtime ps_next_client ps_open_clients].
  unfold close_runtime in *. split; [by destruct (rt_owned_http_client rt)|].
  split; [by destruct (rt_owned_http_client rt)|]. intros Hm. split; [auto|].
  destruct Hok as (_ & _ & Hoidc & Hscim & Hprod). destruct (Hprod Hm) as (o & c & Eo & Es & H1 & H2 & H3).
  exists o, c. unfold runtime_preflight, require_identity_preflight, required_components in Ep.
  rewrite (Ho _ Eo), (Hs _ Es) in *. rewrite bool_decide_false in Ep by (by intros []).
  apply res_bind_ok in Ep as (? & _ & Ep). cbn [run_probes] in Ep. rewrite !dict_get_set in Ep.
  rewrite (decide_False (P := SCIM_DIRECTORY_COMPONENT = OIDC_JWKS_COMPONENT)) in Ep by done.
  rewrite !decide_True in Ep by done. split_and!; auto.
  - by destruct (oidc_preflight o) as [[]|].
  - destruct (oidc_preflight o); [|done]. by destruct (scim_preflight_of c) as [[]|].
Qed.

Definition demo_text_library : TextLibrary :=
  mkTextLibrary
    (λ text, if String.eqb text "role groups"
             then Some (PyDict [("customer", PyList [PyStr "shoppers"]); ("supervisor", PyList [PyStr " leads "])])
             else if String.eqb text "role mapping" then Some (PyDict [("supervisor", PyList [PyStr "lead"])]) else None)
    (λ _, None) (λ _, true).

Definition demo_scim_settings : list (string * string) :=
  [("IDENTITY_DIRECTORY", "scim"); ("SCIM_BASE_URL", "https://dir.example/scim"); ("SCIM_BEARER_TOKEN", "secret");
   ("SCIM_USER_ID_ATTRIBUTE", "userName"); ("SCIM_TENANT_ID_ATTRIBUTE", "tenant"); ("SCIM_ACTIVE_ATTRIBUTE", "active");
   ("SCIM_ROLES_ATTRIBUTE", "roles"); ("SCIM_ROLE_MAPPING_JSON", "role mapping")].

Definition demo_production : Environ :=
  list_to_map ([("APP_ENV", "production"); ("IDENTITY_PROVIDER", " oidc "); ("OIDC_ISSUER", "https://idp.example");
    ("OIDC_AUDIENCE", "shop"); ("OIDC_JWKS_URL", "HTTPS://idp.example/keys"); ("OIDC_ALLOWED_ALGORITHMS", "RS256, ES256");
    ("OIDC_USER_ID_CLAIM", "sub"); ("OIDC_TENANT_ID_CLAIM", "tid"); ("OIDC_GROUPS_CLAIM", "groups");
    ("OIDC_ROLE_GROUPS_JSON", "role groups"); ("OIDC_CLOCK_SKEW_SECONDS", " 30 ")] ++ demo_scim_settings).

Definition demo_startup (environment : Environ) : res IdentityRuntime * Process :=
  initialize_identity_runtime demo_text_library environment true None (λ _, Ok tt) (λ _, Ok tt) [] start_process.

Lemma startup_fails_closed_witness :
  ps_open_clients (demo_startup demo_production).2 = {[0%nat]} ∧
  match (demo_startup demo_production).1 with
  | Ok rt =>
      get_identity_runtime (demo_startup demo_production).2 = Ok rt ∧ ps_runtime start_process = None ∧
      config_ok demo_text_library (rt_config rt) ∧
      ps_runtime (shutdown_identity_runtime (demo_startup demo_production).2) = None ∧
      ps_open_clients (shutdown_identity_runtime (demo_startup demo_production).2) = ps_open_clients start_process ∧
      (mode (rt_config rt) = production →
       locked_down demo_production true ∧
       ∃ o c, rt_provider rt = UseOidc o ∧ rt_directory rt = Some (UseScim c) ∧
         oidc_ok demo_text_library o ∧ scim_ok demo_text_library c ∧
         https_url demo_text_library (issuer o) ∧ https_url demo_text_library (jwks_url o) ∧
         https_url demo_text_library (base_url c) ∧ Ok tt = Ok tt ∧ Ok tt = Ok tt)
  | Err _ => False
  end.
Proof.
  split; [vm_compute; reflexivity|].
  destruct (demo_startup demo_production) as [r s'] eqn:E.
  assert (Hf : ps_next_client start_process ∉ ps_open_clients start_process) by (intros []%elem_of_empty).
  pose proof (startup_fails_closed demo_text_library demo_production true (λ _, Ok tt) (λ _, Ok tt) [] start_process s' r Hf E) as H.
  destruct r as [rt|e]; [exact H|].
  assert (Hr : (demo_startup demo_production).1 = Err e) by (rewrite E; reflexivity).
  vm_compute in Hr. discriminate Hr.
Defined.

(** Demo tokens that are not JSON, beside a SCIM directory: startup fails and the client it
    created for the directory stays open. *)
Definition demo_leaking : Environ :=
  list_to_map ([("APP_ENV", "development"); ("IDENTITY_PROVIDER", "demo"); (demo_variable, "not json")] ++ demo_scim_settings).

Example rejected_demo_tokens_leak_a_client :
  demo_startup demo_leaking = (Err (RuntimeError "DEMO_IDENTITY_TOKENS is not valid JSON"), mkProcess None 1 {[0%nat]}).
Proof. vm_compute. reflexivity. Qed.
