(* ===== verification/RateLimit.v ===== *)
(** The per-process gates of provider connections: [integrations/rate_limit.py].  A gate is
    shared by concurrent requests; its events are what asyncio may do between two awaits.
    Times are the readings of the monotonic clock; [rnd] rounds a result to a double. *)
From Stdlib Require Import QArith Lqa.
From S2P Require Import Prelude Envelope Retry Connections.

(** * [ConnectionExecutionGate] *)

Record ConnectionExecutionGate := mkGate {
  gt_max_concurrency : Z;
  gt_permits : Z;
  gt_requests_per_second : option Q;
  gt_next_request_at : Q;
}.

Definition new_gate (max_concurrency : Z) (requests_per_second : option Q) : ConnectionExecutionGate :=
  mkGate max_concurrency max_concurrency requests_per_second 0.

Definition with_permits (g : ConnectionExecutionGate) (n : Z) : ConnectionExecutionGate :=
  mkGate (gt_max_concurrency g) n (gt_requests_per_second g) (gt_next_request_at g).

Section Gate.
Context (rnd : Q → Q).

Definition gate_interval (requests_per_second : Q) : Q := rnd (1 / requests_per_second)%Q.

(** Under [_rate_lock]: the start reserved for a request at the clock reading [now]. *)
Definition reserve (now : Q) (g : ConnectionExecutionGate) : ConnectionExecutionGate * option Q :=
  match gt_requests_per_second g with
  | None => (g, None)
  | Some rps =>
      let scheduled := py_max now (gt_next_request_at g) in
      (mkGate (gt_max_concurrency g) (gt_permits g) (Some rps) (rnd (scheduled + gate_interval rps)%Q),
       Some scheduled)
  end.

(** [_wait_for_rate_slot]: the delay slept, for the readings before and after the lock. *)
Definition wait_for_rate_slot (now later : Q) (g : ConnectionExecutionGate) :
    ConnectionExecutionGate * Q :=
  match reserve now g with
  | (g, None) => (g, 0%Q)
  | (g, Some scheduled) =>
      let delay := rnd (scheduled - later)%Q in
      (g, if Qltb 0 delay then delay else 0%Q)
  end.

(** A gate in use: requests that hold a permit and wait for a start, requests under way, and
    the starts reserved so far, latest first. *)
Record gate_state := mkGateState {
  gs_gate : ConnectionExecutionGate;
  gs_waiting : Z;
  gs_running : Z;
  gs_starts : list Q;
}.

(** What a request does: it gets a permit, reserves its start, ends, or is cancelled while it
    waits. *)
Inductive gate_event := Enter | Reserve (now : Q) | Finish | Cancel.

(** [acquire]; [None] where the semaphore blocks or there is no such request. *)
Definition gate_step (e : gate_event) (s : gate_state) : option gate_state :=
  let g := gs_gate s in
  match e with
  | Enter =>
      if 0 <? gt_permits g
      then Some (mkGateState (with_permits g (gt_permits g - 1)) (gs_waiting s + 1) (gs_running s) (gs_starts s))
      else None
  | Reserve now =>
      if 0 <? gs_waiting s then
        let '(g, scheduled) := reserve now g in
        Some (mkGateState g (gs_waiting s - 1) (gs_running s + 1) (option_list scheduled ++ gs_starts s))
      else None
  | Finish =>
      if 0 <? gs_running s
      then Some (mkGateState (with_permits g (gt_permits g + 1)) (gs_waiting s) (gs_running s - 1) (gs_starts s))
      else None
  | Cancel =>
      if 0 <? gs_waiting s
      then Some (mkGateState (with_permits g (gt_permits g + 1)) (gs_waiting s - 1) (gs_running s) (gs_starts s))
      else None
  end.

(** A gate after a sequence of events, if they can happen in that order. *)
Definition gate_run (events : list gate_event) (s : gate_state) : option gate_state :=
  foldl (λ s e, s ≫= gate_step e) (Some s) events.

Definition fresh_gate (max_concurrency : Z) (requests_per_second : option Q) : gate_state :=
  mkGateState (new_gate max_concurrency requests_per_second) 0 0 [].

(** ** Properties *)

(** Every start leaves the interval to the ones before it. *)
Definition spaced (rps : Q) (later earlier : Q) : Prop := (rnd (earlier + gate_interval rps) <= later)%Q.

Fixpoint consecutive (R : Q → Q → Prop) (l : list Q) : Prop :=
  match l with
  | x :: ((y :: _) as l') => R x y ∧ consecutive R l'
  | _ => True
  end.

Record gate_ok (max_concurrency : Z) (requests_per_second : option Q) (s : gate_state) : Prop := {
  go_max : gt_max_concurrency (gs_gate s) = max_concurrency;
  go_rps : gt_requests_per_second (gs_gate s) = requests_per_second;
  go_permits : 0 ≤ gt_permits (gs_gate s);
  go_waiting : 0 ≤ gs_waiting s;
  go_running : 0 ≤ gs_running s;
  go_total : gt_permits (gs_gate s) + gs_waiting s + gs_running s = max_concurrency;
  go_starts : match requests_per_second with
              | None => gs_starts s = []
              | Some rps => consecutive (spaced rps) (gs_starts s) ∧
                  match gs_starts s with
                  | [] => True
                  | x :: _ => gt_next_request_at (gs_gate s) = rnd (x + gate_interval rps)%Q
                  end
              end;
}.

Lemma fresh_gate_ok m rps : 0 ≤ m → gate_ok m rps (fresh_gate m rps).
Proof. intros Hm. split; cbn; try lia; [done|by destruct rps]. Qed.

Lemma gate_step_ok m rps e s s' : gate_ok m rps s → gate_step e s = Some s' → gate_ok m rps s'.
Proof.
  intros [H1 H2 H3 H4 H5 H6 H7] Hs. destruct e as [|now| |]; cbn in Hs.
  2:{ destruct (Z.ltb_spec 0 (gs_waiting s)); [|done].
      unfold reserve in Hs. rewrite H2 in Hs. destruct rps as [q|]; injection Hs as <-; split; cbn; try lia; try done.
      destruct H7 as [Hc Hn]. split; [|done]. destruct (gs_starts s) as [|x l]; [done|]. split; [|done].
      unfold spaced. rewrite <- Hn. apply py_max_spec. }
  all: match type of Hs with context [0 <? ?z] => destruct (Z.ltb_spec 0 z) as [Hlt|]; [|done] end; injection Hs as <-; split; cbn; try lia; done.
Qed.

Lemma gate_run_ok m rps events s s' : gate_ok m rps s → gate_run events s = Some s' → gate_ok m rps s'.
Proof.
  unfold gate_run. revert s. induction events as [|e events IH]; intros s Hs; cbn; [by intros [= <-]|].
  destruct (gate_step e s) as [s1|] eqn:E.
  - intros H. eapply IH, H. by eapply gate_step_ok.
  - intros H. exfalso. clear -H. induction events as [|e' events IH]; [done|]. by apply IH.
Qed.
End Gate.

(** Starts at least [i] apart: a window of length [w] holds at most [w / i + 1] of them. *)
Lemma window_count (i t w : Q) (l : list Q) :
  (0 < i)%Q → consecutive (λ x y, y + i <= x)%Q l →
  Forall (λ x, t <= x ∧ x <= t + w)%Q l → l ≠ [] →
  (inject_Z (Z.of_nat (length l) - 1) * i <= w)%Q.
Proof.
  intros Hi Hc Hall Hne.
  assert (H : ∀ x l, consecutive (λ x y, y + i <= x)%Q (x :: l) → Forall (λ x, t <= x ∧ x <= t + w)%Q (x :: l) →
    (t + inject_Z (Z.of_nat (length l)) * i <= x)%Q).
  { clear -Hi. intros x l. revert x. induction l as [|y l IH]; intros x Hc Hall.
    - apply Forall_cons in Hall as [[Hx _] _]. cbn beta in Hx. change (inject_Z (Z.of_nat (length []))) with 0%Q. lra.
    - destruct Hc as [Hxy Hc]. cbn beta in Hxy. apply Forall_cons in Hall as [_ Hall]. specialize (IH y Hc Hall).
      cbn [length]. rewrite Nat2Z.inj_succ, <- Z.add_1_r, inject_Z_plus. change (inject_Z 1) with 1%Q. lra. }
  destruct l as [|x l]; [done|]. specialize (H x l Hc Hall). apply Forall_cons in Hall as [[_ Hx] _].
  cbn beta in Hx. cbn [length]. replace (Z.of_nat (S (length l)) - 1) with (Z.of_nat (length l)) by lia. lra.
Qed.

Lemma consecutive_impl (R R' : Q → Q → Prop) l :
  (∀ x y, R x y → R' x y) → consecutive R l → consecutive R' l.
Proof.
  intros HR. induction l as [|x l IH]; [done|]. destruct l as [|y l]; [done|]. intros [Hxy Hc]. split; [by apply HR|by apply IH].
Qed.

Lemma consecutive_middle (R : Q → Q → Prop) pre l post : consecutive R (pre ++ l ++ post) → consecutive R l.
Proof.
  induction pre as [|x pre IH]; cbn [app].
  - induction l as [|x l IH]; [done|]. cbn [app]. destruct l as [|y l]; [done|]. intros [Hxy Hc]. split; [done|by apply IH].
  - intros H. apply IH. destruct (pre ++ l ++ post); [done|]. by destruct H.
Qed.

(** C29: a gate holds its connection to its limits: whatever order concurrent requests enter,
    reserve their start, finish and are cancelled in, no more than the configured number hold a
    permit at once and none is ever lost; when a rate is configured, every start reserved
    leaves the interval to the one before it, and, rounding apart, any run of consecutive
    starts that fits in a window of [w] seconds has at most [w] times the rate, plus one, of
    them. *)
Theorem gate_limits_load (rnd : Q → Q) (max_concurrency : Z) (requests_per_second : option Q)
    (events : list gate_event) (s : gate_state) :
  0 ≤ max_concurrency → gate_run rnd events (fresh_gate max_concurrency requests_per_second) = Some s →
  0 ≤ gs_running s ≤ max_concurrency ∧
  gt_permits (gs_gate s) + gs_waiting s + gs_running s = max_concurrency ∧
  match requests_per_second with
  | None => gs_starts s = []
  | Some rps => consecutive (spaced rnd rps) (gs_starts s) ∧
      ((∀ x, rnd x == x)%Q → (0 < rps)%Q → ∀ t w pre l post,
       (0 <= w)%Q → gs_starts s = pre ++ l ++ post → Forall (λ x, t <= x ∧ x <= t + w)%Q l →
       (inject_Z (Z.of_nat (length l)) <= w * rps + 1)%Q)
  end.
Proof.
  intros Hm Hrun. destruct (gate_run_ok rnd _ _ _ _ _ (fresh_gate_ok rnd _ requests_per_second Hm) Hrun) as [_ _ H3 H4 H5 H6 H7].
  split; [lia|]. split; [done|]. destruct requests_per_second as [rps|]; [|done]. destruct H7 as [Hc _]. split; [done|].
  intros Hrnd Hpos t w pre l post Hw Hl Hall. rewrite Hl in Hc. apply consecutive_middle in Hc.
  destruct (decide (l = [])) as [->|Hne].
  { cbn. apply Qle_trans with 1%Q; [done|]. pose proof (Qmult_le_0_compat w rps Hw (Qlt_le_weak _ _ Hpos)). lra. }
  assert (Hi : (0 < 1 / rps)%Q) by (apply Qlt_shift_div_l; lra).
  apply (consecutive_impl _ (λ x y, y + 1 / rps <= x)%Q) in Hc.
  2:{ intros x y. unfold spaced, gate_interval. intros H. rewrite Hrnd in H. pose proof (Hrnd (1 / rps)%Q). lra. }
  pose proof (window_count _ t w l Hi Hc Hall Hne) as H.
  apply (Qmult_le_compat_r _ _ rps) in H; [|lra].
  assert (E : (inject_Z (Z.of_nat (length l) - 1) * (1 / rps) * rps == inject_Z (Z.of_nat (length l)) - 1)%Q).
  { unfold Z.sub. rewrite inject_Z_plus. change (inject_Z (- (1))) with (-1)%Q. field. lra. }
  lra.
Qed.

Definition demo_gate_events : list gate_event :=
  [Enter; Enter; Reserve 0%Q; Reserve 0%Q; Finish; Enter; Cancel; Enter; Reserve (1 # 10)%Q].

Lemma gate_limits_load_witness :
  gate_run id (demo_gate_events ++ [Enter]) (fresh_gate 2 (Some 2%Q)) = None ∧
  option_map (λ s, Qred <$> gs_starts s) (gate_run id demo_gate_events (fresh_gate 2 (Some 2%Q))) = Some [1; 1 # 2; 0]%Q ∧
  match gate_run id demo_gate_events (fresh_gate 2 (Some 2%Q)) with
  | None => False
  | Some s =>
      0 ≤ gs_running s ≤ 2 ∧ gt_permits (gs_gate s) + gs_waiting s + gs_running s = 2 ∧
      consecutive (spaced id 2) (gs_starts s) ∧
      ((∀ x, id x == x)%Q → (0 < 2)%Q → ∀ t w pre l post,
       (0 <= w)%Q → gs_starts s = pre ++ l ++ post → Forall (λ x, t <= x ∧ x <= t + w)%Q l →
       (inject_Z (Z.of_nat (length l)) <= w * 2 + 1)%Q)
  end.
Proof.
  split; [vm_compute; reflexivity|]. split; [vm_compute; reflexivity|].
  destruct (gate_run id demo_gate_events (fresh_gate 2 (Some 2%Q))) as [s|] eqn:E; [|vm_compute in E; discriminate E].
  exact (gate_limits_load id 2 (Some 2%Q) demo_gate_events s (ltac:(lia)) E).
Defined.

(** * [ConnectionGateRegistry] *)

(** The rate of a validated connection. *)
Definition configured_rate (c : ProviderConnection) : option Q :=
  match pc_requests_per_second c with Some (Finite q) => Some q | _ => None end.

(** [for_connection]: the gates afterwards, and the gate of the connection. *)
Definition for_connection (gates : gmap string ConnectionExecutionGate) (c : ProviderConnection) :
    gmap string ConnectionExecutionGate * ConnectionExecutionGate :=
  match gates !! pc_connection_id c with
  | Some gate => (gates, gate)
  | None =>
      let gate := new_gate (pc_max_concurrency c) (configured_rate c) in
      (<[pc_connection_id c := gate]> gates, gate)
  end.

Definition gates_after (used : list ProviderConnection) : gmap string ConnectionExecutionGate :=
  foldl (λ gates c, (for_connection gates c).1) ∅ used.

(** Among the connections of an accepted configuration, the shared gate of an identifier has
    the limits of whichever connection asks for it. *)
Lemma shared_gate_limits allow cs used c :
  consistent allow cs → Forall (λ x, x ∈ cs) used → c ∈ cs →
  let g := (for_connection (gates_after used) c).2 in
  gt_max_concurrency g = pc_max_concurrency c ∧ gt_requests_per_second g = configured_rate c.
Proof.
  intros Hcs Hused Hc. assert (H : ∀ i g, gates_after used !! i = Some g →
    ∃ x, x ∈ cs ∧ pc_connection_id x = i ∧ gt_max_concurrency g = pc_max_concurrency x ∧
         gt_requests_per_second g = configured_rate x).
  { clear Hc. unfold gates_after. induction used as [|x used IH] using rev_ind; intros i g.
    - cbn. intros Hg. by rewrite lookup_empty in Hg.
    - rewrite Forall_app, Forall_singleton in Hused. destruct Hused as [Hused Hx]. rewrite foldl_app. cbn. unfold for_connection.
      set (gates := foldl _ _ _) in *. destruct (gates !! pc_connection_id x) as [g'|] eqn:E; cbn; [by apply IH|].
      intros [[<- <-]|[_ ?]]%lookup_insert_Some; [by exists x|by apply IH]. }
  cbv zeta. unfold for_connection. destruct (gates_after used !! pc_connection_id c) as [g|] eqn:E; cbn; [|done].
  apply H in E as (x & Hx & Hi & -> & ->). pose proof (co_identity _ _ Hcs x c Hx Hc Hi) as Hid.
  unfold connection_identity in Hid. injection Hid as _ _ _ _ _ Hm Hr. unfold configured_rate. by rewrite Hm, Hr.
Qed.
