(* ===== verification/Migrations.v ===== *)
(** The migration runner of [migrations.py]: reading the directory, and applying what is
    pending under the advisory lock that makes runs follow each other.  What a script does to
    the schema is a parameter; a script runs in one transaction with the row that records it,
    and the connection may break before or after any of these commits. *)
From S2P Require Import Prelude Effects OperationModels Hmac.

(** * Files *)

(** [raw.decode], UTF-8, to code points. *)
Definition continuation (b : byte) : option N :=
  let n := Byte.to_N b in if ((128 <=? n) && (n <? 192))%N then Some (n - 128)%N else None.

Fixpoint utf8_decode (b : bytes) : option (list N) :=
  match b with
  | [] => Some []
  | x :: r =>
      let n := Byte.to_N x in
      if (n <? 128)%N then cons n <$> utf8_decode r
      else if (n <? 194)%N then None
      else if (n <? 224)%N then
        match r with
        | y :: r =>
            y ← continuation y; cons ((n - 192) * 64 + y)%N <$> utf8_decode r
        | _ => None
        end
      else if (n <? 240)%N then
        match r with
        | y :: z :: r =>
            y ← continuation y; z ← continuation z;
            let c := (((n - 224) * 64 + y) * 64 + z)%N in
            if ((2048 <=? c) && negb ((55296 <=? c) && (c <=? 57343)))%N then cons c <$> utf8_decode r else None
        | _ => None
        end
      else
        match r with
        | y :: z :: w :: r =>
            y ← continuation y; z ← continuation z; w ← continuation w;
            let c := ((((n - 240) * 64 + y) * 64 + z) * 64 + w)%N in
            if ((65536 <=? c) && (c <=? 1114111))%N then cons c <$> utf8_decode r else None
        | _ => None
        end
  end.

Record Migration := mkMigration {
  mg_version : string;
  mg_filename : string;
  mg_checksum : string;
  mg_sql : list N;
}.

(** [[a-z0-9_]] *)
Definition name_char (c : ascii) : bool :=
  let n := N_of_ascii c in ((97 <=? n) && (n <=? 122) || (48 <=? n) && (n <=? 57) || (n =? 95))%N.

(** [MIGRATION_NAME_PATTERN.fullmatch]: the version of a file name. *)
Definition name_version (name : string) : option string :=
  match name with
  | String a (String b (String c (String d (String "_" rest)))) =>
      if is_digit a && is_digit b && is_digit c && is_digit d then
        match split_once "." rest with
        | Some (words, "sql") =>
            if nonempty words && all_chars name_char words
            then Some (String a (String b (String c (String d "")))) else None
        | _ => None
        end
      else None
  | _ => None
  end.

Fixpoint ends_with (suffix s : string) : bool :=
  String.eqb s suffix || match s with String _ s' => ends_with suffix s' | EmptyString => false end.

(** A directory: its file names with what the files hold. *)
Abbreviation Directory := (list (string * bytes)) (only parsing).

Definition name_le (a b : string * bytes) : Prop := String.le a.1 b.1.
#[export] Instance name_le_dec : RelDecision name_le.
Proof. intros a b. apply String.le_dec. Defined.
#[export] Instance name_le_trans : Transitive name_le.
Proof. intros a b c. unfold name_le. apply transitivity. Qed.
#[export] Instance name_le_total : Total name_le.
Proof. intros a b. apply String.le_total. Qed.

(** [sorted(directory.glob('*.sql'))] *)
Definition sql_files (directory : Directory) : Directory :=
  merge_sort name_le (filter (λ f, ends_with ".sql" f.1 = true) directory).

(** The loop of [discover_migrations]. *)
Fixpoint read_migrations (files : Directory) (versions : gset string) : res (list Migration) :=
  match files with
  | [] => Ok []
  | (name, raw_sql) :: files' =>
      match name_version name with
      | None => Err (MigrationError "Invalid migration filename")
      | Some version =>
          raise_if (bool_decide (version ∈ versions)) (MigrationError "Duplicate migration version");;;
          match utf8_decode raw_sql with
          | None => Err (ValueError "invalid utf-8")
          | Some sql =>
              let* rest := read_migrations files' ({[version]} ∪ versions) in
              Ok (mkMigration version name (hexdigest (sha256 raw_sql)) sql :: rest)
          end
      end
  end.

Definition discover_migrations (directory : Directory) : res (list Migration) :=
  let* migrations := read_migrations (sql_files directory) ∅ in
  raise_if (bool_decide (migrations = [])) (MigrationError "No migrations found");;;
  Ok migrations.

(** * The server *)

(** A row of [case_management.schema_migrations]. *)
Record schema_migration := mkSchemaMigration { sm_version : string; sm_filename : string; sm_checksum : string }.

Section Runner.
(** The rest of the database, and what a script does to it. *)
Context {Schema : Type} (run_script : list N → Schema → option Schema).

(** [None] before [_BOOTSTRAP_SQL] has run. *)
Record server := mkServer { sv_schema : Schema; sv_history : option (list schema_migration) }.

Definition history (s : server) : list schema_migration := default [] (sv_history s).

Definition bootstrap (s : server) : server := mkServer (sv_schema s) (Some (history s)).

(** The dict [applied]. *)
Definition applied_files (rows : list schema_migration) : list (string * (string * string)) :=
  (λ r, (sm_version r, (sm_filename r, sm_checksum r))) <$> rows.
Fixpoint file_of (version : string) (applied : list (string * (string * string))) : option (string * string) :=
  match applied with
  | [] => None
  | (v, f) :: applied' => match file_of version applied' with Some f' => Some f' | None => if String.eqb v version then Some f else None end
  end.

(** The transaction of one migration: the script, then the row, which may break the primary key
    or the unique file name. *)
Definition apply_one (m : Migration) (s : server) : option server :=
  schema ← run_script (mg_sql m) (sv_schema s);
  if existsb (λ r, String.eqb (sm_version r) (mg_version m) || String.eqb (sm_filename r) (mg_filename m)) (history s)
  then None
  else Some (mkServer schema (Some (history s ++ [mkSchemaMigration (mg_version m) (mg_filename m) (mg_checksum m)]))).

(** The loop over the local files; [faults i] is what befalls the [i]-th transaction. *)
Fixpoint apply_pending (faults : nat → fault) (i : nat) (applied : list (string * (string * string)))
    (migrations : list Migration) (s : server) : res (list string) * server :=
  match migrations with
  | [] => (Ok [], s)
  | m :: migrations' =>
      match file_of (mg_version m) applied with
      | Some previous =>
          if bool_decide (previous = (mg_filename m, mg_checksum m))
          then apply_pending faults i applied migrations' s
          else (Err (MigrationError "Applied migration does not match the local file"), s)
      | None =>
          match faults i, apply_one m s with
          | FailBefore, _ | _, None => (Err OperationalError, s)
          | FailAfter, Some s' => (Err OperationalError, s')
          | NoFault, Some s' =>
              match apply_pending faults (S i) applied migrations' s' with
              | (Ok applied_now, s'') => (Ok (mg_version m :: applied_now), s'')
              | (Err e, s'') => (Err e, s'')
              end
          end
      end
  end.

(** [apply_migrations]; [connected] is how far the connection gets before the loop. *)
Definition apply_migrations (connected : fault) (faults : nat → fault) (directory : Directory) (s : server) :
    res (list string) * server :=
  match discover_migrations directory with
  | Err e => (Err e, s)
  | Ok migrations =>
      match connected with
      | FailBefore => (Err OperationalError, s)
      | FailAfter => (Err OperationalError, bootstrap s)
      | NoFault =>
          let s := bootstrap s in
          apply_pending faults 0 (applied_files (history s)) migrations s
      end
  end.

(** Runs of several processes, one after the other. *)
Definition deploy (runs : list (fault * (nat → fault) * Directory)) (s : server) : server :=
  foldl (λ s r, (apply_migrations r.1.1 r.1.2 r.2 s).2) s runs.
End Runner.

(** * What the history says *)

Definition row_of (m : Migration) : schema_migration := mkSchemaMigration (mg_version m) (mg_filename m) (mg_checksum m).

(** A migration as it was read from a file. *)
Definition read_from (m : Migration) (raw_sql : bytes) : Prop :=
  name_version (mg_filename m) = Some (mg_version m) ∧ hexdigest (sha256 raw_sql) = mg_checksum m ∧
  utf8_decode raw_sql = Some (mg_sql m).

(** Migrations that have no row yet. *)
Definition pending (rows : list schema_migration) (ms : list Migration) : list Migration :=
  filter (λ m, mg_version m ∉ sm_version <$> rows) ms.

Lemma pending_cons rows m ms :
  pending rows (m :: ms) = if decide (mg_version m ∈ sm_version <$> rows) then pending rows ms else m :: pending rows ms.
Proof.
  unfold pending. case_decide; [by rewrite filter_cons_False by (intros ?; done)|by rewrite filter_cons_True].
Qed.

Lemma read_migrations_ok files versions ms :
  read_migrations files versions = Ok ms →
  Forall2 (λ f m, mg_filename m = f.1 ∧ read_from m f.2) files ms ∧ NoDup (mg_version <$> ms) ∧
  ∀ m, m ∈ ms → mg_version m ∉ versions.
Proof.
  revert versions ms. induction files as [|[name raw] files IH]; intros versions ms H.
  - injection H as <-. split; [constructor|]. split; [constructor|]. intros m Hm. by apply not_elem_of_nil in Hm.
  - cbn in H. destruct (name_version name) as [version|] eqn:Hv; [|done].
    apply res_bind_ok in H as (? & Hnew%raise_if_ok%bool_decide_eq_false & H).
    destruct (utf8_decode raw) as [sql|] eqn:Hs; [|done]. apply res_bind_ok in H as (rest & Hr & [= <-]).
    apply IH in Hr as (Hf & Hn & Hnot). split_and!.
    + by constructor.
    + cbn. constructor; [|done]. intros (m & Hm & Hin)%list_elem_of_fmap. apply Hnot in Hin. set_solver.
    + intros m [->|Hm]%elem_of_cons; [done|]. apply Hnot in Hm. set_solver.
Qed.

(** Equally long prefixes of strings in order are in order. *)
Lemma le_prefix a b r r' : String.length a = String.length b → String.le (a +:+ r) (b +:+ r') → String.le a b.
Proof.
  revert b. induction a as [|c a IH]; intros [|d b] Hl H; try done.
  change (String c a +:+ r) with (String c (a +:+ r)) in H. change (String d b +:+ r') with (String d (b +:+ r')) in H.
  unfold String.le, String.leb in *. cbn [String.compare] in *. destruct (Ascii.compare c d); [|done|done].
  apply IH; [by injection Hl|done].
Qed.

Lemma name_version_prefix name version :
  name_version name = Some version → ∃ rest, name = version +:+ rest ∧ String.length version = 4%nat.
Proof.
  intros H. unfold name_version in H.
  repeat (match type of H with context [match ?x with _ => _ end] => destruct x; try discriminate H end).
  all: injection H as <-; eexists; split; reflexivity.
Qed.

Lemma discover_ok directory ms :
  discover_migrations directory = Ok ms →
  ms ≠ [] ∧ NoDup (mg_version <$> ms) ∧ StronglySorted String.le (mg_version <$> ms) ∧
  (∀ m, m ∈ ms → ∃ raw, (mg_filename m, raw) ∈ directory ∧ read_from m raw) ∧
  ∀ name raw, (name, raw) ∈ directory → ends_with ".sql" name = true → ∃ m, m ∈ ms ∧ mg_filename m = name.
Proof.
  intros H. unfold discover_migrations in H. apply res_bind_ok in H as (ms' & Hr & H).
  apply res_bind_ok in H as (? & Hne%raise_if_ok%bool_decide_eq_false & [= <-]).
  apply read_migrations_ok in Hr as (Hf & Hn & _). split; [done|]. split; [done|].
  assert (∀ f, f ∈ sql_files directory ↔ ends_with ".sql" f.1 = true ∧ f ∈ directory) as Hin.
  { intros f. unfold sql_files. rewrite merge_sort_Permutation. rewrite list_elem_of_filter. done. }
  split_and!.
  - assert (StronglySorted name_le (sql_files directory)) as Hs by apply (StronglySorted_merge_sort name_le).
    clear Hin Hn Hne. induction Hf as [|[name raw] m files ms [Hname Hm] Hf IH]; [constructor|].
    apply StronglySorted_inv in Hs as [Hs Hall]. constructor; [by apply IH|].
    apply Forall_forall. intros v (m' & -> & Hm'in)%list_elem_of_fmap. apply list_elem_of_lookup in Hm'in as (i & Hi).
    destruct (Forall2_lookup_r _ _ _ _ _ Hf Hi) as ([name' raw'] & Hl & Hname' & Hm').
    rewrite Forall_forall in Hall. apply list_elem_of_lookup_2, Hall in Hl. unfold name_le in Hl. cbn in *.
    destruct Hm as (Hv & _), Hm' as (Hv' & _). rewrite Hname in Hv. rewrite Hname' in Hv'.
    apply name_version_prefix in Hv as (r & -> & H4), Hv' as (r' & -> & H4'). eapply le_prefix; [congruence|done].
  - intros m (i & Hi)%list_elem_of_lookup. destruct (Forall2_lookup_r _ _ _ _ _ Hf Hi) as ([name raw] & Hl & Hname & Hm).
    exists raw. cbn in *. rewrite Hname. split; [|done]. apply list_elem_of_lookup_2, Hin in Hl. apply Hl.
  - intros name raw Hd Hends. assert ((name, raw) ∈ sql_files directory) as (i & Hi)%list_elem_of_lookup by by apply Hin.
    destruct (Forall2_lookup_l _ _ _ _ _ Hf Hi) as (m & Hl & Hname & _). exists m. split; [|done].
    by apply list_elem_of_lookup_2 in Hl.
Qed.

Section History.
Context {Schema : Type} (run_script : list N → Schema → option Schema).

(** The schema that the recorded files, executed in the order of their rows, make of [from]. *)
Inductive built (from : Schema) : list schema_migration → Schema → Prop :=
  | built_nil : built from [] from
  | built_snoc rows schema m raw_sql schema' :
      built from rows schema → read_from m raw_sql → run_script (mg_sql m) schema = Some schema' →
      built from (rows ++ [row_of m]) schema'.

Record server_ok (from : Schema) (s : server (Schema := Schema)) : Prop := {
  so_built : built from (history s) (sv_schema s);
  so_versions : NoDup (sm_version <$> history s);
}.

Lemma built_named from rows schema :
  built from rows schema → Forall (λ r, name_version (sm_filename r) = Some (sm_version r)) rows.
Proof.
  induction 1 as [|rows schema m raw schema' _ IH [Hn _] _]; [constructor|]. apply Forall_app. split; [done|by repeat constructor].
Qed.

Lemma file_of_spec rows v :
  NoDup (sm_version <$> rows) →
  match file_of v (applied_files rows) with
  | Some f => ∃ r, r ∈ rows ∧ sm_version r = v ∧ f = (sm_filename r, sm_checksum r)
  | None => v ∉ sm_version <$> rows
  end.
Proof.
  induction rows as [|r rows IH]; intros Hn; [apply not_elem_of_nil|]. cbn in *. apply NoDup_cons in Hn as [Hr Hn].
  specialize (IH Hn). destruct (file_of v (applied_files rows)) as [f|] eqn:E; unfold applied_files in E; rewrite E.
  - destruct IH as (r' & Hin & Hv & Hf). exists r'. split; [by right|done].
  - destruct (String.eqb_spec (sm_version r) v) as [Hv|Hv]; [exists r; split_and!; [by left|done..]|].
    rewrite not_elem_of_cons. done.
Qed.

(** A new migration breaks neither constraint. *)
Lemma apply_one_ok from s m raw :
  server_ok from s → read_from m raw → mg_version m ∉ sm_version <$> history s →
  match apply_one run_script m s with
  | Some s' => server_ok from s' ∧ history s' = history s ++ [row_of m]
  | None => run_script (mg_sql m) (sv_schema s) = None
  end.
Proof.
  intros [Hb Hn] Hm Hnew. unfold apply_one. destruct (run_script (mg_sql m) (sv_schema s)) as [schema|] eqn:Hs; [|done]. cbn.
  assert (existsb (λ r, String.eqb (sm_version r) (mg_version m) || String.eqb (sm_filename r) (mg_filename m)) (history s) = false) as ->.
  { apply not_true_is_false. intros (r & Hr & Hor)%existsb_exists. apply list_elem_of_In in Hr.
    apply orb_true_iff in Hor as [Hv%String.eqb_eq|Hf%String.eqb_eq].
    - apply Hnew, list_elem_of_fmap. by exists r.
    - pose proof (built_named _ _ _ Hb) as Hnamed. rewrite Forall_forall in Hnamed. apply Hnamed in Hr as Hname.
      rewrite Hf in Hname. destruct Hm as (Hmv & _). apply Hnew, list_elem_of_fmap. exists r. split; [congruence|done]. }
  split; [|done]. split; cbn.
  - change (built from (history s ++ [row_of m]) schema). by econstructor.
  - change (NoDup (sm_version <$> (history s ++ [row_of m]))). rewrite fmap_app. apply NoDup_app. split_and!; [done| |apply NoDup_singleton].
    intros v Hv ->%list_elem_of_singleton. done.
Qed.

(** How a run may fail in the loop. *)
Definition run_failure (faults : nat → fault) (ms : list Migration) (rows : list schema_migration) (e : exn) : Prop :=
  e = MigrationError "Applied migration does not match the local file" ∧
    (∃ m r, m ∈ ms ∧ r ∈ rows ∧ sm_version r = mg_version m ∧ r ≠ row_of m) ∨
  e = OperationalError ∧
    ((∃ i, faults i ≠ NoFault) ∨ ∃ m schema, m ∈ ms ∧ run_script (mg_sql m) schema = None).

Lemma apply_pending_spec from faults rows ms : ∀ i s done r s',
  server_ok from s → history s = rows ++ (row_of <$> done) →
  NoDup (mg_version <$> ms) → (∀ m, m ∈ ms → ∃ raw, read_from m raw) →
  (∀ m, m ∈ ms → mg_version m ∉ mg_version <$> done) →
  apply_pending run_script faults i (applied_files rows) ms s = (r, s') →
  server_ok from s' ∧
  ∃ now, now `prefix_of` pending rows ms ∧ history s' = history s ++ (row_of <$> now) ∧
    match r with
    | Ok applied => now = pending rows ms ∧ applied = mg_version <$> now ∧
        ∀ m, m ∈ ms → mg_version m ∈ sm_version <$> rows → row_of m ∈ rows
    | Err e => run_failure faults ms rows e
    end.
Proof.
  induction ms as [|m ms IH]; intros i s dn r s' Hok Hh Hn Hread Hdone H.
  { injection H as <- <-. split; [done|]. exists []. rewrite app_nil_r. split_and!; try done. intros m Hm. by apply not_elem_of_nil in Hm. }
  apply NoDup_cons in Hn as [Hnew Hn]. rewrite pending_cons. cbn [apply_pending] in H.
  pose proof (so_versions _ _ Hok) as Hv. rewrite Hh, fmap_app in Hv. apply NoDup_app in Hv as (Hvr & _).
  pose proof (file_of_spec rows (mg_version m) Hvr) as Hfile.
  assert (∀ e, run_failure faults ms rows e → run_failure faults (m :: ms) rows e) as Hweak.
  { intros e [[-> (m' & r' & Hin & ?)]|[-> [?|(m' & sc & Hin & ?)]]]; [left|right; split; [done|by left]|right; split; [done|right]].
    - split; [done|]. exists m', r'. split; [by right|done].
    - exists m', sc. split; [by right|done]. }
  destruct (file_of (mg_version m) (applied_files rows)) as [previous|].
  - destruct Hfile as (r0 & Hr0 & Hrv & ->). case_bool_decide as Hsame.
    + eapply IH in H as (Hok' & now & Hp & Hh' & Hr); [|done|done|done|by intros; apply Hread; right|by intros; apply Hdone; right].
      rewrite decide_True by (apply list_elem_of_fmap; by exists r0). split; [done|]. exists now. split; [done|]. split; [done|].
      destruct r as [applied|e]; [|by apply Hweak]. destruct Hr as (-> & -> & Hrow). split_and!; [done..|].
      intros m' [->|Hm']%elem_of_cons Hin; [|by apply Hrow]. destruct r0; cbn in *. unfold row_of. congruence.
    + injection H as <- <-. split; [done|]. exists []. rewrite app_nil_r. split; [apply prefix_nil|]. split; [done|]. left.
      split; [done|]. exists m, r0. split; [by left|]. split_and!; [done..|]. intros ->. by apply Hsame.
  - rewrite decide_False by done. destruct (Hread m) as [raw Hraw]; [by left|].
    assert (mg_version m ∉ sm_version <$> history s) as Hnot.
    { rewrite Hh, fmap_app, <- list_fmap_compose, not_elem_of_app. split; [done|]. apply (Hdone m). by left. }
    pose proof (apply_one_ok from s m raw Hok Hraw Hnot) as Hone.
    assert (∀ e, e = OperationalError → (∃ i, faults i ≠ NoFault) ∨ (∃ schema, run_script (mg_sql m) schema = None) →
              run_failure faults (m :: ms) rows e) as Hfail.
    { intros e -> [Hf|[sc Hf]]; right; (split; [done|]); [by left|right]. exists m, sc. split; [by left|done]. }
    assert ((∃ i, faults i ≠ NoFault) ∨ (∃ schema, run_script (mg_sql m) schema = None) →
            server_ok from s ∧ ∃ now, now `prefix_of` m :: pending rows ms ∧ history s = history s ++ (row_of <$> now) ∧
              run_failure faults (m :: ms) rows OperationalError) as Hstop.
    { intros Hf. split; [done|]. exists []. rewrite app_nil_r. split; [apply prefix_nil|]. split; [done|]. by apply Hfail. }
    destruct (apply_one run_script m s) as [s1|] eqn:E1.
    + destruct Hone as [Hok1 Hh1]. destruct (faults i) eqn:Ef.
      * destruct (apply_pending run_script faults (S i) (applied_files rows) ms s1) as [r2 s2] eqn:E2.
        eapply (IH _ _ (dn ++ [m])) in E2 as (Hok' & now & Hp & Hh' & Hr); [|done| |done|by intros; apply Hread; right|].
        -- assert (s' = s2) as -> by (destruct r2; by injection H as _ <-). split; [done|]. exists (m :: now).
           split; [by apply prefix_cons|]. split; [by rewrite Hh', Hh1, <- app_assoc|].
           destruct r2 as [applied|e]; injection H as <-; [|by apply Hweak].
           destruct Hr as (-> & -> & Hrow). split_and!; [done..|]. intros m' [->|Hm']%elem_of_cons Hin; [done|by apply Hrow].
        -- by rewrite Hh1, Hh, fmap_app, <- app_assoc.
        -- intros m' Hm'. rewrite fmap_app, not_elem_of_app. split; [apply Hdone; by right|]. cbn.
           rewrite list_elem_of_singleton. intros Heq. apply Hnew. rewrite <- Heq. apply list_elem_of_fmap. by exists m'.
      * injection H as <- <-. apply Hstop. left. exists i. by rewrite Ef.
      * injection H as <- <-. split; [done|]. exists [m]. split; [by apply prefix_cons, prefix_nil|]. split; [done|].
        apply Hfail; [done|]. left. exists i. by rewrite Ef.
    + assert (r = Err OperationalError ∧ s' = s) as [-> ->] by (destruct (faults i); by injection H as <- <-).
      apply Hstop. right. eauto.
Qed.
End History.

Lemma pending_sorted rows ms :
  StronglySorted String.le (mg_version <$> ms) → StronglySorted String.le (mg_version <$> pending rows ms).
Proof.
  induction ms as [|m ms IH]; intros H; [done|]. apply StronglySorted_inv in H as [H Hall]. rewrite pending_cons.
  case_decide; [by apply IH|]. cbn. constructor; [by apply IH|]. rewrite Forall_forall in Hall |- *.
  intros v (m' & -> & Hm')%list_elem_of_fmap. apply Hall, list_elem_of_fmap. exists m'. split; [done|].
  by apply list_elem_of_filter in Hm' as [_ ?].
Qed.

Section Deployments.
Context {Schema : Type} (run_script : list N → Schema → option Schema).

Lemma bootstrap_ok from s : server_ok run_script from s → server_ok run_script from (bootstrap s).
Proof. by intros []. Qed.

(** Files that are all recorded leave nothing to do. *)
Lemma apply_recorded rows ms faults i s :
  NoDup (sm_version <$> rows) → (∀ m, m ∈ ms → row_of m ∈ rows) →
  apply_pending run_script faults i (applied_files rows) ms s = (Ok [], s).
Proof.
  intros Hn. induction ms as [|m ms IH]; intros Hall; [done|]. cbn [apply_pending].
  pose proof (file_of_spec rows (mg_version m) Hn) as Hf. assert (row_of m ∈ rows) as Hm by (apply Hall; by left).
  destruct (file_of _ _) as [previous|].
  - destruct Hf as (r & Hr & Hv & ->).
    assert (r = row_of m) as ->.
    { apply list_elem_of_lookup in Hr as [j Hj], Hm as [k Hk].
      assert (j = k) as ->; [|congruence]. eapply (NoDup_lookup _ j k (mg_version m) Hn); rewrite list_lookup_fmap.
      - by rewrite Hj; cbn; rewrite Hv.
      - by rewrite Hk. }
    rewrite bool_decide_true by done. apply IH. intros m' Hm'. apply Hall. by right.
  - exfalso. apply Hf, list_elem_of_fmap. by exists (row_of m).
Qed.

Lemma apply_migrations_spec from connected faults directory s r s' :
  server_ok run_script from s → apply_migrations run_script connected faults directory s = (r, s') →
  server_ok run_script from s' ∧
  ∃ now, history s' = history s ++ (row_of <$> now) ∧
    match r with
    | Ok applied =>
        ∃ ms, discover_migrations directory = Ok ms ∧ now = pending (history s) ms ∧ applied = mg_version <$> now ∧
          StronglySorted String.le applied ∧ ∀ m, m ∈ ms → row_of m ∈ history s'
    | Err e =>
        discover_migrations directory = Err e ∧ s' = s ∨
        ∃ ms, discover_migrations directory = Ok ms ∧ now `prefix_of` pending (history s) ms ∧
          (e = OperationalError ∧ connected ≠ NoFault ∨ run_failure run_script faults ms (history s) e)
    end.
Proof.
  intros Hok H. unfold apply_migrations in H. destruct (discover_migrations directory) as [ms|e] eqn:Hd.
  2:{ injection H as <- <-. split; [done|]. exists []. rewrite app_nil_r. split; [done|by left]. }
  apply discover_ok in Hd as Hms. destruct Hms as (_ & Hn & Hsorted & Hread & _).
  assert (∀ s1, history s1 = history s → connected ≠ NoFault →
    ∃ now, history s1 = history s ++ (row_of <$> now) ∧
      (Ok ms = Err OperationalError ∧ s1 = s ∨
       ∃ ms', Ok ms = Ok ms' ∧ now `prefix_of` pending (history s) ms' ∧
         (OperationalError = OperationalError ∧ connected ≠ NoFault ∨ run_failure run_script faults ms' (history s) OperationalError)))
    as Hcut.
  { intros s1 Hs1 Hc. exists []. rewrite Hs1, app_nil_r. split; [done|]. right. exists ms. split; [done|].
    split; [apply prefix_nil|by left]. }
  destruct connected; [|injection H as <- <-; split; [done|by apply Hcut]
                       |injection H as <- <-; split; [by apply bootstrap_ok|by apply Hcut]].
  eapply (apply_pending_spec run_script from faults (history s) ms 0 (bootstrap s) []) in H as (Hok' & now & Hp & Hh & Hr);
    [|by apply bootstrap_ok|by rewrite app_nil_r|done| |by intros; apply not_elem_of_nil].
  2:{ intros m (raw & _ & Hm)%Hread. by exists raw. }
  split; [done|]. exists now. split; [done|]. destruct r as [applied|e]; [|by right; exists ms; auto].
  destruct Hr as (-> & -> & Hrow). exists ms. split_and!; [done..|by apply pending_sorted|].
  intros m Hm. rewrite Hh. apply elem_of_app. destruct (decide (mg_version m ∈ sm_version <$> history s)) as [Hv|Hv].
  - left. by apply Hrow.
  - right. apply list_elem_of_fmap. exists m. split; [done|]. by apply list_elem_of_filter.
Qed.

Lemma deploy_ok from runs s : server_ok run_script from s → server_ok run_script from (deploy run_script runs s).
Proof.
  induction runs as [|[[c f] d] runs IH] using rev_ind; intros Hs; [done|]. unfold deploy in *. rewrite foldl_app. cbn.
  destruct (apply_migrations run_script c f d _) as [r s'] eqn:E. eapply apply_migrations_spec in E as [H _]; [done|by apply IH].
Qed.
End Deployments.

(** C27: migrations are applied once and in order: after any earlier runs of the program, each
    over its own directory and each perhaps cut short before or after any of its commits, the
    schema is what the recorded files, executed in the order of their rows, make of the first
    one, and no version is recorded twice.  One more run adds rows for a prefix of what is
    pending; if it returns, it has executed exactly the pending files, in version order, every
    local file is recorded under its name and checksum, and running again does nothing.  It
    fails before it touches the server when the directory is invalid, and otherwise only
    because the connection broke, a script failed, or a local file differs from the one that
    was applied. *)
Theorem migrations_applied_once {Schema : Type} (run_script : list N → Schema → option Schema) (from : Schema)
    (runs : list (fault * (nat → fault) * Directory)) (connected : fault) (faults : nat → fault) (directory : Directory) :
  let s := deploy run_script runs (mkServer from None) in
  let '(r, s') := apply_migrations run_script connected faults directory s in
  built run_script from (history s') (sv_schema s') ∧ NoDup (sm_version <$> history s') ∧
  ∃ now, history s' = history s ++ (row_of <$> now) ∧
    match r with
    | Ok applied =>
        ∃ ms, discover_migrations directory = Ok ms ∧ now = pending (history s) ms ∧ applied = mg_version <$> now ∧
          StronglySorted String.le applied ∧ (∀ m, m ∈ ms → row_of m ∈ history s') ∧
          apply_migrations run_script NoFault (λ _, NoFault) directory s' = (Ok [], bootstrap s')
    | Err e =>
        discover_migrations directory = Err e ∧ s' = s ∨
        ∃ ms, discover_migrations directory = Ok ms ∧ now `prefix_of` pending (history s) ms ∧
          (e = OperationalError ∧ connected ≠ NoFault ∨ run_failure run_script faults ms (history s) e)
    end.
Proof.
  intros s. assert (server_ok run_script from s) as Hok.
  { apply deploy_ok. split; [constructor|apply NoDup_nil_2]. }
  destruct (apply_migrations run_script connected faults directory s) as [r s'] eqn:E.
  destruct (apply_migrations_spec run_script from connected faults directory s r s' Hok E) as ([Hb Hn] & now & Hh & Hr).
  split; [done|]. split; [done|]. exists now. split; [done|]. destruct r as [applied|e]; [|done].
  destruct Hr as (ms & Hd & Hnow & Happ & Hs & Hall). exists ms. split_and!; try done.
  unfold apply_migrations. rewrite Hd. by apply apply_recorded.
Qed.

(** A run that is cut short after its first commit, and the one that completes it; and a file
    that was edited after it had been applied. *)
Definition demo_directory_files : Directory :=
  [("0002_more.sql", encode "b"); ("0001_first.sql", encode "a"); ("README.md", encode "c")].
Definition demo_script (script : list N) (schema : list (list N)) : option (list (list N)) := Some (schema ++ [script]).
Definition lost_after (i j : nat) : fault := if Nat.eqb i j then FailAfter else NoFault.

Example demo_runs :
  let run faults d s := apply_migrations demo_script NoFault faults d s in
  let '(r1, s1) := run (lost_after 0) demo_directory_files (mkServer [] None) in
  let '(r2, s2) := run (λ _, NoFault) demo_directory_files s1 in
  let '(r3, s3) := run (λ _, NoFault) [("0001_first.sql", encode "x"); ("0003_third.sql", encode "y")] s2 in
  r1 = Err OperationalError ∧ sv_schema s1 = [[97%N]] ∧ r2 = Ok ["0002"] ∧ sv_schema s2 = [[97%N]; [98%N]] ∧
  r3 = Err (MigrationError "Applied migration does not match the local file") ∧ sv_schema s3 = sv_schema s2.
Proof. vm_compute. split_and!; reflexivity. Qed.
