(* ===== verification/Database.v ===== *)
(** The PostgreSQL schema the repositories write: tables with their primary keys,
    unique indexes, foreign keys and CHECK constraints, as the migrations under
    [sql/migrations] leave them.  Row tables are maps from primary key to row; the
    event tables are append-only and kept as lists in insertion order. *)
From S2P Require Import Prelude OperationModels CaseModels Envelope InboxModels.

(** * Refund requests

    Refund requests: the model of [refunds/models.py] and its table, in the state
    migrations 0001 and 0005 leave it. *)

Inductive RefundStatus := rf_pending | rf_approved | rf_rejected.

Record RefundRequest := mkRefundRequest {
  rfq_refund_id : uuid;
  rfq_order_id : string;
  rfq_status : RefundStatus;
  rfq_customer_id : string;
  rfq_tenant_id : string;
  rfq_created_by : string;
  rfq_created_at : instant;
}.

#[export] Instance RefundStatus_eq_dec : EqDecision RefundStatus.
Proof. solve_decision. Defined.
#[export] Instance RefundRequest_eq_dec : EqDecision RefundRequest.
Proof. solve_decision. Defined.

Definition RefundRequest_validate (r : RefundRequest) : res RefundRequest :=
  let r := mkRefundRequest (rfq_refund_id r) (strip (rfq_order_id r)) (rfq_status r)
             (strip (rfq_customer_id r)) (strip (rfq_tenant_id r)) (strip (rfq_created_by r))
             (rfq_created_at r) in
  raise_if (negb (order_id_ok (rfq_order_id r) && nonempty (rfq_customer_id r)
                  && nonempty (rfq_tenant_id r) && nonempty (rfq_created_by r)))
    (ValidationError "RefundRequest");;;
  Ok r.

(** What a statement can raise: a violated unique constraint, by name, or any
    other [psycopg.Error]. *)
Inductive pg_error :=
  | UniqueViolation (constraint_name : string)
  | OtherDatabaseError.

Inductive pg (A : Type) := PgOk (a : A) | PgErr (e : pg_error).
Arguments PgOk {A} a.
Arguments PgErr {A} e.

Definition pg_bind {A B} (r : pg A) (f : A → pg B) : pg B :=
  match r with PgOk a => f a | PgErr e => PgErr e end.
Definition pg_check (ok : bool) (e : pg_error) : pg unit := if ok then PgOk tt else PgErr e.

Lemma pg_bind_ok {A B} (r : pg A) (f : A → pg B) b :
  pg_bind r f = PgOk b ↔ ∃ a, r = PgOk a ∧ f a = PgOk b.
Proof. destruct r; naive_solver. Qed.
Lemma pg_check_ok ok e u : pg_check ok e = PgOk u ↔ ok = true.
Proof. destruct ok, u; naive_solver. Qed.

Ltac inv_pg :=
  repeat match goal with
    | H : pg_bind _ _ = PgOk _ |- _ => apply pg_bind_ok in H; destruct H as (? & ? & H)
    | H : pg_check _ _ = PgOk _ |- _ => apply pg_check_ok in H
    | H : PgOk _ = PgOk _ |- _ => injection H as H; subst
    | H : PgErr _ = PgOk _ |- _ => discriminate H
    end.

(** * Rows of the messaging tables *)

(** [integration.outbox_messages] *)
Record OutboxMessage := mkOutboxMessage {
  om_command_id : uuid;
  om_schema_version : Z;
  om_idempotency_key : string;
  om_tenant_id : string;
  om_customer_id : string;
  om_source_message_id : string;
  om_connection_id : string;
  om_capability : ProviderCapability;
  om_command_type : ProviderCommandType;
  om_aggregate_type : ProviderAggregateType;
  om_aggregate_id : uuid;
  om_expected_order_version : option Z;
  om_payload : ProviderCommandPayload;
  om_status : OutboxDeliveryStatus;
  om_delivery_cycle : Z;
  om_attempts_in_cycle : Z;
  om_available_at : instant;
  om_lease_id : option uuid;
  om_lease_owner : option string;
  om_lease_expires_at : option instant;
  om_last_failure_kind : option ProviderFailureKind;
  om_last_error_code : option string;
  om_last_error_message : option string;
  om_created_at : instant;
  om_updated_at : instant;
  om_published_at : option instant;
  om_dead_at : option instant;
}.

Inductive DeliveryAttemptOutcome :=
  | da_accepted | da_provider_rejected | da_retry_scheduled | da_terminal_failure
  | da_lease_expired.

#[export] Instance DeliveryAttemptOutcome_eq_dec : EqDecision DeliveryAttemptOutcome.
Proof. solve_decision. Defined.

(** [integration.outbox_delivery_attempts] *)
Record OutboxDeliveryAttempt := mkOutboxDeliveryAttempt {
  da_attempt_id : uuid;
  da_command_id : uuid;
  da_delivery_cycle : Z;
  da_attempt_number : Z;
  da_lease_id : uuid;
  da_worker_id : string;
  da_started_at : instant;
  da_finished_at : option instant;
  da_outcome : option DeliveryAttemptOutcome;
  da_failure_kind : option ProviderFailureKind;
  da_http_status : option Z;
  da_provider_operation_id : option string;
  da_provider_reference : option string;
  da_safe_error_code : option string;
  da_safe_error_message : option string;
  da_retry_after_seconds : option Q;
  da_next_available_at : option instant;
}.

(** A command received by the external order provider, with its idempotency key. *)
Record ProviderSubmission := mkProviderSubmission {
  ps_request : OrderOperationRequest;
  ps_expected_order_version : Z;
  ps_idempotency_key : string;
}.

(** The tables, and beside them the commands the order provider has received, directly
    and through the outbox, which the application never reads back. *)
Record database := mkDatabase {
  support_cases : gmap uuid SupportCase;
  support_case_events : list SupportCaseEvent;
  order_operations : gmap uuid OrderOperation;
  order_operation_events : list OrderOperationEvent;
  outbox_messages : gmap uuid OutboxMessage;
  outbox_delivery_attempts : gmap uuid OutboxDeliveryAttempt;
  provider_submissions : list ProviderSubmission;
  provider_deliveries : list ProviderCommandEnvelope;
  outbox_redrives : gmap uuid OutboxRedrive;
  inbox : inbox_tables;
  refund_requests : gmap uuid RefundRequest;
}.

Definition empty_db : database := mkDatabase ∅ [] ∅ [] ∅ ∅ [] [] ∅ empty_inbox ∅.

Definition set_support_cases (m : gmap uuid SupportCase) (d : database) : database :=
  mkDatabase m (support_case_events d) (order_operations d) (order_operation_events d)
    (outbox_messages d) (outbox_delivery_attempts d) (provider_submissions d)
    (provider_deliveries d) (outbox_redrives d) (inbox d)
    (refund_requests d).
Definition set_support_case_events (l : list SupportCaseEvent) (d : database) : database :=
  mkDatabase (support_cases d) l (order_operations d) (order_operation_events d)
    (outbox_messages d) (outbox_delivery_attempts d) (provider_submissions d)
    (provider_deliveries d) (outbox_redrives d) (inbox d)
    (refund_requests d).
Definition set_order_operations (m : gmap uuid OrderOperation) (d : database) : database :=
  mkDatabase (support_cases d) (support_case_events d) m (order_operation_events d)
    (outbox_messages d) (outbox_delivery_attempts d) (provider_submissions d)
    (provider_deliveries d) (outbox_redrives d) (inbox d)
    (refund_requests d).
Definition set_order_operation_events (l : list OrderOperationEvent) (d : database) : database :=
  mkDatabase (support_cases d) (support_case_events d) (order_operations d) l
    (outbox_messages d) (outbox_delivery_attempts d) (provider_submissions d)
    (provider_deliveries d) (outbox_redrives d) (inbox d)
    (refund_requests d).
Definition set_outbox_messages (m : gmap uuid OutboxMessage) (d : database) : database :=
  mkDatabase (support_cases d) (support_case_events d) (order_operations d)
    (order_operation_events d) m (outbox_delivery_attempts d) (provider_submissions d)
    (provider_deliveries d) (outbox_redrives d) (inbox d)
    (refund_requests d).
Definition set_outbox_delivery_attempts (m : gmap uuid OutboxDeliveryAttempt) (d : database) : database :=
  mkDatabase (support_cases d) (support_case_events d) (order_operations d)
    (order_operation_events d) (outbox_messages d) m (provider_submissions d)
    (provider_deliveries d) (outbox_redrives d) (inbox d)
    (refund_requests d).
Definition add_provider_submission (p : ProviderSubmission) (d : database) : database :=
  mkDatabase (support_cases d) (support_case_events d) (order_operations d)
    (order_operation_events d) (outbox_messages d) (outbox_delivery_attempts d)
    (provider_submissions d ++ [p]) (provider_deliveries d) (outbox_redrives d) (inbox d)
    (refund_requests d).
Definition add_provider_delivery (c : ProviderCommandEnvelope) (d : database) : database :=
  mkDatabase (support_cases d) (support_case_events d) (order_operations d)
    (order_operation_events d) (outbox_messages d) (outbox_delivery_attempts d)
    (provider_submissions d) (provider_deliveries d ++ [c]) (outbox_redrives d) (inbox d)
    (refund_requests d).
Definition set_outbox_redrives (m : gmap uuid OutboxRedrive) (d : database) : database :=
  mkDatabase (support_cases d) (support_case_events d) (order_operations d)
    (order_operation_events d) (outbox_messages d) (outbox_delivery_attempts d)
    (provider_submissions d) (provider_deliveries d) m (inbox d)
    (refund_requests d).
Definition set_inbox (t : inbox_tables) (d : database) : database :=
  mkDatabase (support_cases d) (support_case_events d) (order_operations d)
    (order_operation_events d) (outbox_messages d) (outbox_delivery_attempts d)
    (provider_submissions d) (provider_deliveries d) (outbox_redrives d) t
    (refund_requests d).

Definition set_refund_requests (m : gmap uuid RefundRequest) (d : database) : database :=
  mkDatabase (support_cases d) (support_case_events d) (order_operations d)
    (order_operation_events d) (outbox_messages d) (outbox_delivery_attempts d)
    (provider_submissions d) (provider_deliveries d) (outbox_redrives d) (inbox d) m.

(** * Unique indexes over row tables *)

Section UniqueIndex.
Context {A K : Type} `{EqDecision K} (key : A → option K).

(** Does storing [a] under [id] collide with another row?  [None] is a row outside
    the (partial) index. *)
Definition collides (m : gmap uuid A) (id : uuid) (a : A) : bool :=
  match key a with
  | None => false
  | Some k => existsb (λ '(i, b), negb (N.eqb i id) && bool_decide (key b = Some k))
                (map_to_list m)
  end.

Definition index_unique (m : gmap uuid A) : Prop :=
  ∀ i j a b k, m !! i = Some a → m !! j = Some b → key a = Some k → key b = Some k → i = j.

Lemma collides_false m id a :
  collides m id a = false ↔
  ∀ k i b, key a = Some k → m !! i = Some b → key b = Some k → i = id.
Proof.
  unfold collides. destruct (key a) as [k|]; [|naive_solver].
  rewrite <- not_true_iff_false, existsb_exists. split.
  - intros H k' i b [= <-] Hi Hb. destruct (decide (i = id)) as [|Hne]; [done|].
    destruct H. exists (i, b). rewrite <- list_elem_of_In, elem_of_map_to_list. split; [done|].
    apply N.eqb_neq in Hne. by rewrite Hne, bool_decide_eq_true_2.
  - intros H [[i b] [Hi Hb]]. rewrite <- list_elem_of_In, elem_of_map_to_list in Hi.
    apply andb_true_iff in Hb as [Hne Hb]. bools. apply N.eqb_neq in Hne. naive_solver.
Qed.

Lemma index_unique_insert m id a :
  index_unique m → collides m id a = false → index_unique (<[id := a]> m).
Proof.
  intros Hm Hc i j x y k. rewrite collides_false in Hc.
  rewrite !lookup_insert. repeat case_decide; subst; intros; simplify_eq; eauto.
  - symmetry. eauto.
Qed.

Lemma index_unique_empty : index_unique ∅.
Proof. intros i j a b k Hi. by rewrite lookup_empty in Hi. Qed.
End UniqueIndex.

(** * [support_cases] *)

(** Both partial unique indexes on unresolved cases: per tenant, thread and type, and per
    order for delivery investigations. *)
Definition active_case_key (c : SupportCase) :
    option (string * string * CaseType * option string) :=
  if bool_decide (c_status c = cs_resolved) then None
  else if bool_decide (c_case_type c = ct_delivery_investigation) then
    match c_order_id c with
    | Some o => Some (c_tenant_id c, c_thread_id c, c_case_type c, Some o)
    | None => None
    end
  else Some (c_tenant_id c, c_thread_id c, c_case_type c, None).

(** Which of the two indexes a case belongs to. *)
Definition active_case_constraint (c : SupportCase) : string :=
  if bool_decide (c_case_type c = ct_delivery_investigation)
  then "uq_support_cases_active_delivery_order" else "uq_support_cases_active_thread_type".

Definition int4_ok (n : Z) : bool := (1 <=? n) && (n <? 2 ^ 31).

(** [btrim(s) <> '']: PostgreSQL trims spaces only. *)
Fixpoint all_blank (s : string) : bool :=
  match s with EmptyString => true | String c s' => Ascii.eqb c " " && all_blank s' end.
Definition btrim_nonempty (s : string) : bool := negb (all_blank s).

Definition order_column_ok (o : option string) : bool :=
  match o with Some s => str_len s <=? 50 | None => true end.

(** The CHECK and type constraints of the table. *)
Definition support_cases_check (c : SupportCase) : bool :=
  btrim_nonempty (c_thread_id c) && btrim_nonempty (c_source_message_id c)
  && order_column_ok (c_order_id c) && bool_decide (c_reason_codes c ≠ [])
  && btrim_nonempty (c_display_reason c)
  && btrim_nonempty (c_excerpt c) && (str_len (c_excerpt c) <=? 500)
  && int4_ok (c_version c) && (c_created_at c <=? c_updated_at c)
  && Bool.eqb (bool_decide (c_status c = cs_on_hold)) (bool_decide (is_Some (c_on_hold_reason c)))
  && btrim_nonempty (c_customer_id c) && btrim_nonempty (c_tenant_id c)
  && btrim_nonempty (c_created_by c)
  && (bool_decide (c_case_type c ≠ ct_delivery_investigation)
      || match c_order_id c with Some o => btrim_nonempty o | None => false end).

Definition insert_support_case (c : SupportCase) (d : database) : pg database :=
  pg_bind (pg_check (support_cases_check c) OtherDatabaseError) (λ _,
  pg_bind (pg_check (bool_decide (support_cases d !! c_case_id c = None))
             (UniqueViolation "support_cases_pkey")) (λ _,
  pg_bind (pg_check (negb (collides active_case_key (support_cases d) (c_case_id c) c))
             (UniqueViolation (active_case_constraint c))) (λ _,
  PgOk (set_support_cases (<[c_case_id c := c]> (support_cases d)) d)))).

(** The columns an [UPDATE] of a case writes: identity, ownership, source and creation
    columns keep the stored value. *)
Definition updated_case_row (old new : SupportCase) : SupportCase :=
  mkSupportCase (c_case_id old) (c_thread_id old) (c_source_message_id old) (c_order_id new)
    (c_case_type old) (c_priority new) (c_status new) (c_risk_level new)
    (c_risk_categories new) (c_reason_codes new) (c_display_reason new) (c_excerpt old)
    (c_on_hold_reason new) (c_created_at old) (c_updated_at new) (c_version new)
    (c_customer_id old) (c_tenant_id old) (c_created_by old) (c_assigned_agent_id new).

(** Store a new version of an existing row. *)
Definition put_support_case (row : SupportCase) (d : database) : pg database :=
  pg_bind (pg_check (support_cases_check row) OtherDatabaseError) (λ _,
  pg_bind (pg_check (negb (collides active_case_key (support_cases d) (c_case_id row) row))
             (UniqueViolation (active_case_constraint row))) (λ _,
  PgOk (set_support_cases (<[c_case_id row := row]> (support_cases d)) d))).

(** * [support_case_events] *)

Definition opt_btrim_nonempty (o : option string) : bool :=
  match o with Some s => btrim_nonempty s | None => false end.

(** [ck_support_case_events_by_type] and the on-hold, ownership and width checks. *)
Definition support_case_events_check (e : SupportCaseEvent) : bool :=
  let no_redrive := bool_decide (ev_provider_redrive_reason_code e = None) in
  let actor := opt_btrim_nonempty (ev_actor e) in
  let has_command := bool_decide (is_Some (ev_provider_command_id e)) in
  btrim_nonempty (ev_idempotency_key e) && order_column_ok (ev_order_id e)
  && (str_len (ev_excerpt e) <=? 500)
  && btrim_nonempty (ev_customer_id e) && btrim_nonempty (ev_tenant_id e)
  && match ev_event_type e with
     | ev_case_created | ev_trigger_appended =>
         opt_btrim_nonempty (ev_source_message_id e) && bool_decide (ev_reason_codes e ≠ [])
         && btrim_nonempty (ev_excerpt e) && bool_decide (is_Some (ev_current_priority e))
         && bool_decide (is_Some (ev_current_status e)) && no_redrive
     | ev_status_changed =>
         bool_decide (is_Some (ev_previous_status e)) && bool_decide (is_Some (ev_current_status e))
         && actor && no_redrive
         && Bool.eqb (bool_decide (ev_current_status e = Some cs_on_hold))
              (bool_decide (is_Some (ev_on_hold_reason e)))
     | ev_assigned => opt_btrim_nonempty (ev_current_assigned_agent_id e) && actor && no_redrive
     | ev_provider_update =>
         has_command && bool_decide (is_Some (ev_provider_command_status e)) && actor && no_redrive
     | ev_provider_redrive =>
         has_command && negb no_redrive && bool_decide (ev_provider_command_status e = None)
         && bool_decide (ev_provider_reference e = None)
         && bool_decide (ev_previous_status e = None) && bool_decide (ev_current_status e = None)
         && actor
     end.

Definition insert_case_event (e : SupportCaseEvent) (d : database) : pg database :=
  pg_bind (pg_check (support_case_events_check e) OtherDatabaseError) (λ _,
  pg_bind (pg_check (bool_decide (ev_event_id e ∉ ev_event_id <$> support_case_events d))
             (UniqueViolation "support_case_events_pkey")) (λ _,
  pg_bind (pg_check (bool_decide
             (ev_idempotency_key e ∉ ev_idempotency_key <$> support_case_events d))
             (UniqueViolation "uq_support_case_events_idempotency")) (λ _,
  pg_bind (pg_check (bool_decide (is_Some (support_cases d !! ev_case_id e))) OtherDatabaseError) (λ _,
  PgOk (set_support_case_events (support_case_events d ++ [e]) d))))).

(** * [order_operations] *)

Definition active_operation (s : OperationRecordStatus) : bool :=
  match s with
  | os_pending_confirmation | os_queued | os_submitted | os_processing | os_manual_review => true
  | os_completed | os_rejected | os_cancelled_by_customer => false
  end.

(** [uq_order_operations_active_order]: one active operation per tenant and order. *)
Definition active_operation_key (o : OrderOperation) : option (string * string) :=
  if active_operation (oo_status o) then Some (oo_tenant_id o, oo_order_id o) else None.

Definition operation_message_key (o : OrderOperation) : option (string * string) :=
  Some (oo_thread_id o, oo_source_message_id o).

Definition operation_idempotency_index (o : OrderOperation) : option string :=
  Some (oo_idempotency_key o).

Definition order_operations_check (o : OrderOperation) : bool :=
  btrim_nonempty (oo_idempotency_key o) && btrim_nonempty (oo_thread_id o)
  && btrim_nonempty (oo_source_message_id o) && btrim_nonempty (oo_order_id o)
  && (str_len (oo_order_id o) <=? 50) && bool_decide (oo_policy_reason_codes o ≠ [])
  && btrim_nonempty (oo_display_reason o)
  && btrim_nonempty (oo_request_excerpt o) && (str_len (oo_request_excerpt o) <=? 500)
  && int4_ok (oo_order_version o) && amount_ok (oo_amount o) && currency_ok (oo_currency o)
  && Bool.eqb (bool_decide (oo_operation_type o = op_exchange))
       (bool_decide (is_Some (oo_replacement_variant_id o)))
  && (if oo_requires_manual_review o
      then bool_decide (oo_review_case_type o = Some rec_order_operation_review)
           && bool_decide (oo_review_priority o ∈ [Some p1; Some p2])
      else bool_decide (oo_review_case_type o = None) && bool_decide (oo_review_priority o = None))
  && (bool_decide (oo_support_case_id o = None) || oo_requires_manual_review o)
  && (oo_created_at o <=? oo_updated_at o) && int4_ok (oo_version o)
  && btrim_nonempty (oo_customer_id o) && btrim_nonempty (oo_tenant_id o)
  && btrim_nonempty (oo_created_by o).

(** [fk_order_operations_support_case] *)
Definition linked_case_exists (d : database) (c : option uuid) : bool :=
  match c with Some i => bool_decide (is_Some (support_cases d !! i)) | None => true end.

(** Store a row after the CHECK, unique and foreign-key constraints. *)
Definition put_order_operation (o : OrderOperation) (d : database) : pg database :=
  let m := order_operations d in
  let id := oo_operation_id o in
  pg_bind (pg_check (order_operations_check o) OtherDatabaseError) (λ _,
  pg_bind (pg_check (negb (collides operation_idempotency_index m id o))
             (UniqueViolation "order_operations_idempotency_key_key")) (λ _,
  pg_bind (pg_check (negb (collides operation_message_key m id o))
             (UniqueViolation "uq_order_operations_source_message")) (λ _,
  pg_bind (pg_check (negb (collides active_operation_key m id o))
             (UniqueViolation "uq_order_operations_active_order")) (λ _,
  pg_bind (pg_check (linked_case_exists d (oo_support_case_id o)) OtherDatabaseError) (λ _,
  PgOk (set_order_operations (<[id := o]> m) d)))))).

Definition insert_order_operation (o : OrderOperation) (d : database) : pg database :=
  pg_bind (pg_check (bool_decide (order_operations d !! oo_operation_id o = None))
             (UniqueViolation "order_operations_pkey")) (λ _,
  put_order_operation o d).

(** The columns an [UPDATE] of an operation writes. *)
Definition updated_operation_row (old new : OrderOperation) : OrderOperation :=
  mkOrderOperation (oo_operation_id old) (oo_idempotency_key old) (oo_thread_id old)
    (oo_source_message_id old) (oo_order_id old) (oo_operation_type old)
    (oo_request_reason_code old) (oo_policy_reason_codes new) (oo_display_reason new)
    (oo_replacement_variant_id old) (oo_request_excerpt old) (oo_order_version old)
    (oo_amount old) (oo_currency old) (oo_requires_manual_review old)
    (oo_review_case_type new) (oo_review_priority new) (oo_support_case_id new)
    (oo_provider_reference new) (oo_status new) (oo_created_at old) (oo_updated_at new)
    (oo_version new) (oo_customer_id old) (oo_tenant_id old) (oo_created_by old).

(** * [order_operation_events] *)

Definition order_operation_events_check (e : OrderOperationEvent) : bool :=
  btrim_nonempty (oev_idempotency_key e) && btrim_nonempty (oev_actor e)
  && btrim_nonempty (oev_customer_id e) && btrim_nonempty (oev_tenant_id e)
  && (if bool_decide (oev_event_type e = oe_status_changed)
      then bool_decide (is_Some (oev_previous_status e)) && bool_decide (is_Some (oev_current_status e))
      else bool_decide (oev_previous_status e = None) && bool_decide (oev_current_status e = None)).

Definition insert_operation_event (e : OrderOperationEvent) (d : database) : pg database :=
  let l := order_operation_events d in
  pg_bind (pg_check (order_operation_events_check e) OtherDatabaseError) (λ _,
  pg_bind (pg_check (bool_decide (oev_event_id e ∉ oev_event_id <$> l))
             (UniqueViolation "order_operation_events_pkey")) (λ _,
  pg_bind (pg_check (bool_decide (oev_idempotency_key e ∉ oev_idempotency_key <$> l))
             (UniqueViolation "order_operation_events_idempotency_key_key")) (λ _,
  pg_bind (pg_check (bool_decide (is_Some (order_operations d !! oev_operation_id e))
                     && linked_case_exists d (oev_support_case_id e)) OtherDatabaseError) (λ _,
  PgOk (set_order_operation_events (l ++ [e]) d))))).

(** [for event in events: cursor.execute(event_sql, ...)] *)
Fixpoint insert_operation_events (es : list OrderOperationEvent) (d : database) : pg database :=
  match es with
  | [] => PgOk d
  | e :: es' => pg_bind (insert_operation_event e d) (insert_operation_events es')
  end.

(** * [refund_requests] *)

(** [refund_requests_order_id_key]: one request per order number, whoever owns the order. *)
Definition refund_order_key (r : RefundRequest) : option string := Some (rfq_order_id r).

Definition refund_requests_check (r : RefundRequest) : bool :=
  (str_len (rfq_order_id r) <=? 50) && btrim_nonempty (rfq_customer_id r)
  && btrim_nonempty (rfq_tenant_id r) && btrim_nonempty (rfq_created_by r).

(** [INSERT ... ON CONFLICT (order_id) DO NOTHING RETURNING refund_id]: whether a row came back. *)
Definition insert_refund (r : RefundRequest) (d : database) : pg (bool * database) :=
  pg_bind (pg_check (refund_requests_check r) OtherDatabaseError) (λ _,
  if collides refund_order_key (refund_requests d) (rfq_refund_id r) r then PgOk (false, d)
  else match refund_requests d !! rfq_refund_id r with
       | Some old => if bool_decide (rfq_order_id old = rfq_order_id r) then PgOk (false, d)
                     else PgErr (UniqueViolation "refund_requests_pkey")
       | None => PgOk (true, set_refund_requests (<[rfq_refund_id r := r]> (refund_requests d)) d)
       end).

(** * [outbox_messages] *)

Definition outbox_idempotency_key (m : OutboxMessage) : option (string * string) :=
  Some (om_tenant_id m, om_idempotency_key m).

(** [VARCHAR(500)], not blank when present. *)
Definition error_column_ok (o : option string) : bool :=
  match o with Some s => btrim_nonempty s && (str_len s <=? 500) | None => true end.

(** A text column that is not blank when present. *)
Definition text_column_ok (o : option string) : bool :=
  match o with Some s => btrim_nonempty s | None => true end.

Definition outbox_messages_check (m : OutboxMessage) : bool :=
  (om_schema_version m =? 1) && btrim_nonempty (om_idempotency_key m)
  && btrim_nonempty (om_tenant_id m) && btrim_nonempty (om_customer_id m)
  && btrim_nonempty (om_source_message_id m) && btrim_nonempty (om_connection_id m)
  && match om_expected_order_version m with Some v => int4_ok v | None => true end
  && int4_ok (om_delivery_cycle m)
  && (0 <=? om_attempts_in_cycle m) && (om_attempts_in_cycle m <=? 8)
  && text_column_ok (om_lease_owner m) && error_column_ok (om_last_error_code m)
  && error_column_ok (om_last_error_message m)
  && (om_created_at m <=? om_updated_at m)
  && (if bool_decide (om_status m = ob_processing)
      then bool_decide (is_Some (om_lease_id m)) && bool_decide (is_Some (om_lease_owner m))
           && bool_decide (is_Some (om_lease_expires_at m))
      else bool_decide (om_lease_id m = None) && bool_decide (om_lease_owner m = None)
           && bool_decide (om_lease_expires_at m = None))
  && Bool.eqb (bool_decide (om_status m = ob_published)) (bool_decide (is_Some (om_published_at m)))
  && Bool.eqb (bool_decide (om_status m = ob_dead)) (bool_decide (is_Some (om_dead_at m)))
  && Bool.eqb (bool_decide (om_aggregate_type m = ag_order_operation))
       (bool_decide (is_Some (om_expected_order_version m)))
  && Bool.eqb (bool_decide (om_command_type m = cmd_delivery_investigation))
       (bool_decide (om_aggregate_type m = ag_support_case)).

(** The row [insert_outbox_message] writes for an envelope. *)
Definition outbox_row (command : ProviderCommandEnvelope) (status : OutboxDeliveryStatus)
    (available_at now : instant) (capability : ProviderCapability) : OutboxMessage :=
  mkOutboxMessage (e_command_id command) (e_schema_version command) (e_idempotency_key command)
    (e_tenant_id command) (e_customer_id command) (e_source_message_id command)
    (e_connection_id command) capability (e_command_type command) (e_aggregate_type command)
    (e_aggregate_id command) (e_expected_order_version command) (e_payload command) status 1 0
    available_at None None None None None None now now None None.

(** [insert_outbox_message] of [integrations/postgres_writes.py], with its default
    capability. *)
Definition insert_outbox_message (command : ProviderCommandEnvelope)
    (status : OutboxDeliveryStatus) (available_at now : instant) (d : database) : pg database :=
  let row := outbox_row command status available_at now cap_order_operation in
  pg_bind (pg_check (outbox_messages_check row) OtherDatabaseError) (λ _,
  pg_bind (pg_check (bool_decide (outbox_messages d !! om_command_id row = None))
             (UniqueViolation "outbox_messages_pkey")) (λ _,
  pg_bind (pg_check (negb (collides outbox_idempotency_key (outbox_messages d)
                             (om_command_id row) row))
             (UniqueViolation "uq_outbox_messages_tenant_idempotency")) (λ _,
  PgOk (set_outbox_messages (<[om_command_id row := row]> (outbox_messages d)) d)))).

(** Store a new version of an outbox row; no statement rewrites its idempotency columns. *)
Definition put_outbox_message (row : OutboxMessage) (d : database) : pg database :=
  pg_bind (pg_check (outbox_messages_check row) OtherDatabaseError) (λ _,
  pg_bind (pg_check (negb (collides outbox_idempotency_key (outbox_messages d)
                             (om_command_id row) row))
             (UniqueViolation "uq_outbox_messages_tenant_idempotency")) (λ _,
  PgOk (set_outbox_messages (<[om_command_id row := row]> (outbox_messages d)) d))).

(** * [outbox_delivery_attempts] *)

Definition attempt_number_key (a : OutboxDeliveryAttempt) : option (uuid * Z * Z) :=
  Some (da_command_id a, da_delivery_cycle a, da_attempt_number a).

Definition delivery_attempts_check (a : OutboxDeliveryAttempt) : bool :=
  int4_ok (da_delivery_cycle a) && int4_ok (da_attempt_number a)
  && btrim_nonempty (da_worker_id a)
  && match da_http_status a with Some s => (100 <=? s) && (s <? 2 ^ 31) | None => true end
  && text_column_ok (da_provider_operation_id a) && text_column_ok (da_provider_reference a)
  && error_column_ok (da_safe_error_code a) && error_column_ok (da_safe_error_message a)
  && match da_retry_after_seconds a with Some q => Qle_bool 0 q | None => true end
  && Bool.eqb (bool_decide (is_Some (da_outcome a))) (bool_decide (is_Some (da_finished_at a))).

(** Store an attempt after the CHECK, unique and foreign-key constraints. *)
Definition put_delivery_attempt (a : OutboxDeliveryAttempt) (d : database) : pg database :=
  let m := outbox_delivery_attempts d in
  pg_bind (pg_check (delivery_attempts_check a) OtherDatabaseError) (λ _,
  pg_bind (pg_check (negb (collides attempt_number_key m (da_attempt_id a) a))
             (UniqueViolation "uq_outbox_delivery_attempts_cycle_number")) (λ _,
  pg_bind (pg_check (bool_decide (is_Some (outbox_messages d !! da_command_id a)))
             OtherDatabaseError) (λ _,
  PgOk (set_outbox_delivery_attempts (<[da_attempt_id a := a]> m) d)))).

Definition insert_delivery_attempt (a : OutboxDeliveryAttempt) (d : database) : pg database :=
  pg_bind (pg_check (bool_decide (outbox_delivery_attempts d !! da_attempt_id a = None))
             (UniqueViolation "outbox_delivery_attempts_pkey")) (λ _,
  put_delivery_attempt a d).

(** * The schema invariant *)

(** What the constraints keep true of every reachable database. *)
Record schema_ok (d : database) : Prop := {
  so_case_id : ∀ i c, support_cases d !! i = Some c → c_case_id c = i;
  so_case_check : ∀ i c, support_cases d !! i = Some c → support_cases_check c = true;
  so_active_case : index_unique active_case_key (support_cases d);
  so_case_event_key : NoDup (ev_idempotency_key <$> support_case_events d);
  so_case_event_case : ∀ e, e ∈ support_case_events d →
                         is_Some (support_cases d !! ev_case_id e);
  so_op_id : ∀ i o, order_operations d !! i = Some o → oo_operation_id o = i;
  so_op_check : ∀ i o, order_operations d !! i = Some o → order_operations_check o = true;
  so_active_op : index_unique active_operation_key (order_operations d);
  so_op_message : index_unique operation_message_key (order_operations d);
  so_op_case : ∀ i o c, order_operations d !! i = Some o → oo_support_case_id o = Some c →
                 is_Some (support_cases d !! c);
  so_op_event_key : NoDup (oev_idempotency_key <$> order_operation_events d);
  so_op_event_op : ∀ e, e ∈ order_operation_events d →
                     is_Some (order_operations d !! oev_operation_id e);
  so_outbox_id : ∀ i m, outbox_messages d !! i = Some m → om_command_id m = i;
  so_outbox_check : ∀ i m, outbox_messages d !! i = Some m → outbox_messages_check m = true;
  so_outbox_key : index_unique outbox_idempotency_key (outbox_messages d);
  so_attempt_id : ∀ i a, outbox_delivery_attempts d !! i = Some a → da_attempt_id a = i;
  so_attempt_check : ∀ i a, outbox_delivery_attempts d !! i = Some a →
                       delivery_attempts_check a = true;
  so_attempt_number : index_unique attempt_number_key (outbox_delivery_attempts d);
  so_attempt_command : ∀ i a, outbox_delivery_attempts d !! i = Some a →
                         is_Some (outbox_messages d !! da_command_id a);
}.

Lemma schema_ok_empty : schema_ok empty_db.
Proof.
  split; cbn; try apply index_unique_empty; try constructor; intros; set_solver.
Qed.

Lemma insert_rows {A} (P : uuid → A → Prop) (m : gmap uuid A) id a :
  (∀ i x, m !! i = Some x → P i x) → P id a →
  ∀ i x, <[id := a]> m !! i = Some x → P i x.
Proof. intros Hm Ha i x. rewrite lookup_insert. case_decide; naive_solver. Qed.

Lemma insert_keeps_rows {A} (m : gmap uuid A) id a i :
  is_Some (m !! i) → is_Some (<[id := a]> m !! i).
Proof. intros ?. rewrite lookup_insert. case_decide; eauto. Qed.

Lemma NoDup_snoc {A B} (f : A → B) l x :
  NoDup (f <$> l) → f x ∉ f <$> l → NoDup (f <$> (l ++ [x])).
Proof.
  intros Hl Hx. rewrite fmap_app. apply NoDup_app. split_and!; [done| |apply NoDup_singleton].
  intros y Hy Hy'. apply list_elem_of_singleton in Hy' as ->. done.
Qed.

Ltac schema_split :=
  match goal with H : schema_ok _ |- schema_ok _ => destruct H end; split;
  cbn [support_cases support_case_events order_operations order_operation_events
       outbox_messages outbox_delivery_attempts set_support_cases set_support_case_events
       set_order_operations set_order_operation_events set_outbox_messages
       set_outbox_delivery_attempts];
  try assumption;
  try (intros; apply insert_keeps_rows; by eauto).

Lemma put_support_case_ok c d d' :
  schema_ok d → put_support_case c d = PgOk d' → schema_ok d'.
Proof.
  intros Hd H. unfold put_support_case in H. inv_pg. bools. schema_split.
  - by apply insert_rows.
  - by apply insert_rows.
  - by apply index_unique_insert.
Qed.

Lemma insert_support_case_ok c d d' :
  schema_ok d → insert_support_case c d = PgOk d' → schema_ok d'.
Proof.
  intros Hd H. apply (put_support_case_ok c d); [done|].
  unfold insert_support_case, put_support_case in *. inv_pg.
  by repeat match goal with H : _ = true |- _ => rewrite H; clear H; cbn end.
Qed.

Lemma insert_case_event_ok e d d' :
  schema_ok d → insert_case_event e d = PgOk d' → schema_ok d'.
Proof.
  intros Hd H. unfold insert_case_event in H. inv_pg. bools. schema_split.
  - by apply NoDup_snoc.
  - intros e' [He|He]%elem_of_app; [auto|]. apply list_elem_of_singleton in He as ->. done.
Qed.

Lemma put_order_operation_ok o d d' :
  schema_ok d → put_order_operation o d = PgOk d' → schema_ok d'.
Proof.
  intros Hd H. unfold put_order_operation in H. inv_pg. bools. schema_split.
  - by apply insert_rows.
  - by apply insert_rows.
  - by apply index_unique_insert.
  - by apply index_unique_insert.
  - intros i y c. rewrite lookup_insert. case_decide; [|by eauto]. intros [= <-] E.
    match goal with H : linked_case_exists _ _ = true |- _ => rewrite E in H; cbn in H; by bools end.
Qed.

Lemma insert_order_operation_ok o d d' :
  schema_ok d → insert_order_operation o d = PgOk d' → schema_ok d'.
Proof. intros Hd H. unfold insert_order_operation in H. inv_pg. by eapply put_order_operation_ok. Qed.

Lemma insert_operation_event_ok e d d' :
  schema_ok d → insert_operation_event e d = PgOk d' → schema_ok d'.
Proof.
  intros Hd H. unfold insert_operation_event in H. inv_pg. bools. schema_split.
  - by apply NoDup_snoc.
  - intros e' [He|He]%elem_of_app; [auto|]. apply list_elem_of_singleton in He as ->. done.
Qed.

Lemma insert_operation_events_ok es d d' :
  schema_ok d → insert_operation_events es d = PgOk d' → schema_ok d'.
Proof.
  revert d. induction es as [|e es IH]; intros d Hd H; cbn in H; inv_pg; [done|].
  eapply IH; [|done]. by eapply insert_operation_event_ok.
Qed.

Lemma insert_outbox_message_ok command status at_ now d d' :
  schema_ok d → insert_outbox_message command status at_ now d = PgOk d' → schema_ok d'.
Proof.
  intros Hd H. unfold insert_outbox_message in H. inv_pg. bools. schema_split.
  - by apply insert_rows.
  - by apply insert_rows.
  - by apply index_unique_insert.
Qed.

Lemma put_outbox_message_ok m d d' :
  schema_ok d → put_outbox_message m d = PgOk d' → schema_ok d'.
Proof.
  intros Hd H. unfold put_outbox_message in H. inv_pg. bools. schema_split.
  - by apply insert_rows.
  - by apply insert_rows.
  - by apply index_unique_insert.
Qed.

Lemma put_delivery_attempt_ok a d d' :
  schema_ok d → put_delivery_attempt a d = PgOk d' → schema_ok d'.
Proof.
  intros Hd H. unfold put_delivery_attempt in H. inv_pg. bools. schema_split.
  - by apply insert_rows.
  - by apply insert_rows.
  - by apply index_unique_insert.
  - by apply (insert_rows (λ _ x, is_Some (outbox_messages d !! da_command_id x))).
Qed.

Lemma insert_delivery_attempt_ok a d d' :
  schema_ok d → insert_delivery_attempt a d = PgOk d' → schema_ok d'.
Proof.
  intros Hd H. unfold insert_delivery_attempt in H. inv_pg. by eapply put_delivery_attempt_ok.
Qed.

Create HintDb schema.

(** The invariant of a state reached by a statement, from the one before it. *)
Ltac schema_step :=
  match goal with
  | H : _ = PgOk ?d |- schema_ok ?d =>
      first [ refine (put_support_case_ok _ _ _ _ H) | refine (insert_support_case_ok _ _ _ _ H)
            | refine (insert_case_event_ok _ _ _ _ H) | refine (put_order_operation_ok _ _ _ _ H)
            | refine (insert_order_operation_ok _ _ _ _ H)
            | refine (insert_operation_event_ok _ _ _ _ H)
            | refine (insert_operation_events_ok _ _ _ _ H)
            | refine (insert_outbox_message_ok _ _ _ _ _ _ _ H)
            | refine (put_outbox_message_ok _ _ _ _ H)
            | refine (put_delivery_attempt_ok _ _ _ _ H)
            | refine (insert_delivery_attempt_ok _ _ _ _ H) ]
  end.
#[export] Hint Extern 1 (schema_ok _) => schema_step : schema.
