(* ===== verification/RedrivePolicy.v ===== *)
(** When a message may be redriven by hand: [integrations/provider_operations_policy.py]. *)
From S2P Require Import Prelude OperationModels CaseModels Envelope InboxModels Retry Database.

(** * The redrive audit

    What the audit of redrives keeps true of either queue: every cycle a message has had
    after its first was opened by exactly one recorded redrive, and a request opened one
    cycle. *)

Section Audit.
Context {A} `{RedriveRow A}.

(** [cycles]: the tenant and the current cycle of every message of the queue. *)
Record audit_ok (cycles : gmap uuid (string * Z)) (rows : gmap uuid A) : Prop := {
  au_id : ∀ i r, rows !! i = Some r → redrive_id r = i;
  au_actor : ∀ i r, rows !! i = Some r → has_ink (redrive_requested_by r) = true;
  au_request : index_unique redrive_request_key rows;
  au_cycle : index_unique redrive_cycle_key rows;
  au_opened : ∀ i r, rows !! i = Some r →
    1 ≤ redrive_previous_cycle r ∧ redrive_new_cycle r = redrive_previous_cycle r + 1 ∧
    ∃ c, cycles !! redrive_target r = Some (redrive_tenant r, c) ∧ redrive_new_cycle r ≤ c;
  au_explained : ∀ k t c, cycles !! k = Some (t, c) →
    1 ≤ c ∧ ∀ n, 1 < n ≤ c →
      ∃ i r, rows !! i = Some r ∧ redrive_target r = k ∧ redrive_new_cycle r = n;
}.

Lemma audit_ok_empty : audit_ok ∅ ∅.
Proof. split; try apply index_unique_empty; intros *; set_solver. Qed.

(** A new message starts in its first cycle. *)
Lemma audit_ok_start cycles rows k t :
  audit_ok cycles rows → cycles !! k = None → audit_ok (<[k := (t, 1)]> cycles) rows.
Proof.
  intros [H1 H0 H2 H3 H4 H5] Hk. split; [done..| |].
  - intros i r Hr. destruct (H4 i r Hr) as (? & ? & c & Hc & ?). split_and!; [done..|].
    exists c. rewrite lookup_insert_ne; [done|congruence].
  - intros j u c. rewrite lookup_insert. case_decide; [|by apply H5].
    intros [= <- <-]. split; [done|]. lia.
Qed.

(** A redrive moves a message to its next cycle and records it. *)
Lemma audit_ok_redrive cycles rows r c :
  audit_ok cycles rows → cycles !! redrive_target r = Some (redrive_tenant r, c) →
  rows !! redrive_id r = None → collides redrive_request_key rows (redrive_id r) r = false →
  redrive_previous_cycle r = c → redrive_new_cycle r = c + 1 →
  has_ink (redrive_requested_by r) = true →
  audit_ok (<[redrive_target r := (redrive_tenant r, c + 1)]> cycles) (<[redrive_id r := r]> rows).
Proof.
  intros [H1 H0 H2 H3 H4 H5] Hc Hnew Hu Hp Hn Hact. destruct (H5 _ _ _ Hc) as [Hc1 Hex]. split.
  - by apply (insert_rows (λ i x, redrive_id x = i)).
  - by apply (insert_rows (λ _ x, has_ink (redrive_requested_by x) = true)).
  - by apply index_unique_insert.
  - apply index_unique_insert; [done|]. apply collides_false. intros k i b [= <-] Hb [= Et En].
    destruct (H4 i b Hb) as (_ & _ & c' & Hc' & Hle). rewrite Et, Hc in Hc'. injection Hc' as Hten <-. lia.
  - assert (∀ k t n, cycles !! k = Some (t, n) → ∃ n', <[redrive_target r := (redrive_tenant r, c + 1)]> cycles !! k
      = Some (t, n') ∧ n ≤ n') as Hkeep.
    { intros k t n Hk. rewrite lookup_insert. case_decide as E; [|by exists n]. subst k.
      rewrite Hc in Hk. injection Hk as <- <-. exists (c + 1). split; [done|lia]. }
    intros i b. rewrite lookup_insert. case_decide as E.
    + intros [= <-]. split_and!; [lia..|]. exists (c + 1). rewrite lookup_insert_eq. split; [done|lia].
    + intros Hb. destruct (H4 i b Hb) as (? & ? & c' & Hc' & ?). split_and!; [done..|].
      destruct (Hkeep _ _ _ Hc') as (n' & -> & ?). exists n'. split; [done|lia].
  - assert (∀ k n, (∃ i b, rows !! i = Some b ∧ redrive_target b = k ∧ redrive_new_cycle b = n) →
      ∃ i b, <[redrive_id r := r]> rows !! i = Some b ∧ redrive_target b = k ∧ redrive_new_cycle b = n) as Hkeep.
    { intros k n (i & b & Hb & ?). exists i, b. rewrite lookup_insert_ne; [done|]. intros <-. congruence. }
    intros k t n. rewrite lookup_insert. case_decide as E.
    + intros [= <- <-]. subst k. split; [lia|]. intros m Hm. destruct (decide (m = c + 1)) as [->|].
      * exists (redrive_id r), r. by rewrite lookup_insert_eq.
      * apply Hkeep, Hex. lia.
    + intros Hk. destruct (H5 k t n Hk) as [? Hex']. split; [done|]. intros m Hm. by apply Hkeep, Hex'.
Qed.

(** The redrives that opened the cycles of a message, and no others, name it. *)
Lemma audit_opened_once cycles rows i j r r' :
  audit_ok cycles rows → rows !! i = Some r → rows !! j = Some r' →
  redrive_target r = redrive_target r' → redrive_new_cycle r = redrive_new_cycle r' → i = j.
Proof.
  intros Hok Hr Hr' E1 E2. eapply (au_cycle _ _ Hok); [exact Hr|exact Hr'|done|].
  unfold redrive_cycle_key. congruence.
Qed.
End Audit.

(** Where the messages of the two queues are. *)
Definition delivery_cycles (d : database) : gmap uuid (string * Z) :=
  (λ m, (om_tenant_id m, om_delivery_cycle m)) <$> outbox_messages d.
Definition processing_cycles (t : inbox_tables) : gmap uuid (string * Z) :=
  (λ m, (im_tenant_id m, im_processing_cycle m)) <$> inbox_messages t.

(** Rewriting a message without its tenant and cycle moves nothing. *)
Lemma delivery_cycles_same d d' k m m' :
  outbox_messages d !! k = Some m → outbox_messages d' = <[k := m']> (outbox_messages d) →
  om_tenant_id m' = om_tenant_id m → om_delivery_cycle m' = om_delivery_cycle m →
  delivery_cycles d' = delivery_cycles d.
Proof.
  intros Hm E Et Ec. unfold delivery_cycles. rewrite E, fmap_insert, Et, Ec.
  apply insert_id. by rewrite lookup_fmap, Hm.
Qed.

Lemma processing_cycles_same t t' k m m' :
  inbox_messages t !! k = Some m → inbox_messages t' = <[k := m']> (inbox_messages t) →
  im_tenant_id m' = im_tenant_id m → im_processing_cycle m' = im_processing_cycle m →
  processing_cycles t' = processing_cycles t.
Proof.
  intros Hm E Et Ec. unfold processing_cycles. rewrite E, fmap_insert, Et, Ec.
  apply insert_id. by rewrite lookup_fmap, Hm.
Qed.

Lemma delivery_cycles_lookup d k m :
  outbox_messages d !! k = Some m → delivery_cycles d !! k = Some (om_tenant_id m, om_delivery_cycle m).
Proof. intros Hm. unfold delivery_cycles. by rewrite lookup_fmap, Hm. Qed.
Lemma processing_cycles_lookup t k m :
  inbox_messages t !! k = Some m → processing_cycles t !! k = Some (im_tenant_id m, im_processing_cycle m).
Proof. intros Hm. unfold processing_cycles. by rewrite lookup_fmap, Hm. Qed.

Inductive RedriveEligibilityCode :=
  | ELIGIBLE | STATUS_NOT_REDRIVABLE | ACTIVE_LEASE | PROVIDER_REJECTION
  | CURRENT_CYCLE_TERMINAL_EVIDENCE_REQUIRED | TECHNICAL_TERMINAL_FAILURE_REQUIRED
  | LEASE_EXPIRY_NOT_ATTEMPT_EXHAUSTING.

#[export] Instance RedriveEligibilityCode_eq_dec : EqDecision RedriveEligibilityCode.
Proof. solve_decision. Defined.

(** [RedriveEligibilityCode.value] *)
Definition eligibility_value (c : RedriveEligibilityCode) : string :=
  match c with
  | ELIGIBLE => "eligible"
  | STATUS_NOT_REDRIVABLE => "status_not_redrivable"
  | ACTIVE_LEASE => "active_lease"
  | PROVIDER_REJECTION => "provider_rejection"
  | CURRENT_CYCLE_TERMINAL_EVIDENCE_REQUIRED => "current_cycle_terminal_evidence_required"
  | TECHNICAL_TERMINAL_FAILURE_REQUIRED => "technical_terminal_failure_required"
  | LEASE_EXPIRY_NOT_ATTEMPT_EXHAUSTING => "lease_expiry_not_attempt_exhausting"
  end.

Record RedriveEligibilityResult := mkEligibility {
  el_eligible : bool;
  el_reason_code : RedriveEligibilityCode;
}.

(** [RedriveEligibilityResult.__post_init__] *)
Definition RedriveEligibilityResult_init (eligible : bool) (reason_code : RedriveEligibilityCode) :
    res RedriveEligibilityResult :=
  raise_if (negb (Bool.eqb eligible (bool_decide (reason_code = ELIGIBLE))))
    (ValueError "eligible must match the eligibility reason code");;;
  Ok (mkEligibility eligible reason_code).

Record OutboxRedriveState := mkOutboxRedriveState {
  os_delivery_status : OutboxDeliveryStatus;
  os_delivery_cycle : Z;
  os_attempts_in_cycle : Z;
  os_has_active_lease : bool;
  os_last_failure_kind : option ProviderFailureKind;
  os_terminal_attempt_cycle : option Z;
  os_terminal_attempt_number : option Z;
  os_terminal_attempt_outcome : option DeliveryAttemptOutcome;
  os_terminal_attempt_failure_kind : option ProviderFailureKind;
}.

Record InboxRedriveState := mkInboxRedriveState {
  is_processing_status : InboxProcessingStatus;
  is_has_active_lease : bool;
}.

(** [_TECHNICAL_FAILURE_KINDS] *)
Definition technical_failure_kinds : list ProviderFailureKind :=
  [fk_network_error; fk_timeout; fk_http_retryable; fk_http_client_error; fk_validation_error].

Definition eligible_result : res RedriveEligibilityResult := RedriveEligibilityResult_init true ELIGIBLE.
Definition ineligible (reason_code : RedriveEligibilityCode) : res RedriveEligibilityResult :=
  RedriveEligibilityResult_init false reason_code.

(** [failure_kind not in _TECHNICAL_FAILURE_KINDS], [None] included. *)
Definition is_technical (kind : option ProviderFailureKind) : bool :=
  match kind with Some k => bool_decide (k ∈ technical_failure_kinds) | None => false end.

Definition decide_outbox_redrive_eligibility (state : OutboxRedriveState) (max_attempts : Z) :
    res RedriveEligibilityResult :=
  if max_attempts <? 1 then Err (ValueError "max_attempts must be positive")
  else if bool_decide (os_delivery_status state ≠ ob_dead) then ineligible STATUS_NOT_REDRIVABLE
  else if os_has_active_lease state then ineligible ACTIVE_LEASE
  else if bool_decide (os_last_failure_kind state = Some fk_provider_rejection)
          || bool_decide (os_terminal_attempt_outcome state = Some da_provider_rejected)
          || bool_decide (os_terminal_attempt_failure_kind state = Some fk_provider_rejection)
  then ineligible PROVIDER_REJECTION
  else if (os_delivery_cycle state <? 1) || (os_attempts_in_cycle state <? 1)
          || bool_decide (os_terminal_attempt_cycle state ≠ Some (os_delivery_cycle state))
          || bool_decide (os_terminal_attempt_number state ≠ Some (os_attempts_in_cycle state))
  then ineligible CURRENT_CYCLE_TERMINAL_EVIDENCE_REQUIRED
  else if bool_decide (os_terminal_attempt_outcome state = Some da_terminal_failure) then
    if negb (is_technical (os_terminal_attempt_failure_kind state))
    then ineligible TECHNICAL_TERMINAL_FAILURE_REQUIRED
    else eligible_result
  else if bool_decide (os_terminal_attempt_outcome state = Some da_lease_expired) then
    if bool_decide (os_terminal_attempt_failure_kind state ≠ None)
    then ineligible TECHNICAL_TERMINAL_FAILURE_REQUIRED
    else if negb (os_attempts_in_cycle state =? max_attempts)
    then ineligible LEASE_EXPIRY_NOT_ATTEMPT_EXHAUSTING
    else eligible_result
  else ineligible TECHNICAL_TERMINAL_FAILURE_REQUIRED.

Definition decide_inbox_redrive_eligibility (state : InboxRedriveState) :
    res RedriveEligibilityResult :=
  if bool_decide (is_processing_status state ≠ ib_failed) then ineligible STATUS_NOT_REDRIVABLE
  else if is_has_active_lease state then ineligible ACTIVE_LEASE
  else eligible_result.

(** * What the policy allows *)

(** The attempt that closed the current cycle ended for a technical reason: a failure that is
    not a verdict of the provider, or a lease that ran out on the last attempt allowed. *)
Definition technically_exhausted (s : OutboxRedriveState) (max_attempts : Z) : Prop :=
  os_delivery_status s = ob_dead ∧ os_has_active_lease s = false ∧
  os_last_failure_kind s ≠ Some fk_provider_rejection ∧
  1 ≤ os_delivery_cycle s ∧ 1 ≤ os_attempts_in_cycle s ∧
  os_terminal_attempt_cycle s = Some (os_delivery_cycle s) ∧
  os_terminal_attempt_number s = Some (os_attempts_in_cycle s) ∧
  (os_terminal_attempt_outcome s = Some da_terminal_failure ∧
     (∃ k, os_terminal_attempt_failure_kind s = Some k ∧ k ≠ fk_provider_rejection) ∨
   os_terminal_attempt_outcome s = Some da_lease_expired ∧
     os_terminal_attempt_failure_kind s = None ∧ os_attempts_in_cycle s = max_attempts).

Lemma is_technical_iff kind :
  is_technical kind = true ↔ ∃ k, kind = Some k ∧ k ≠ fk_provider_rejection.
Proof.
  destruct kind as [k|]; cbn; [|naive_solver]. rewrite bool_decide_eq_true.
  unfold technical_failure_kinds. rewrite !elem_of_cons, elem_of_nil. split.
  - intros H. exists k. split; [done|]. naive_solver.
  - intros (? & [= <-] & Hk). destruct k; naive_solver.
Qed.

Lemma ineligible_ok code r : ineligible code = Ok r → code ≠ ELIGIBLE ∧ r = mkEligibility false code.
Proof. by destruct code; intros [= <-]. Qed.

Lemma decide_outbox_redrive (state : OutboxRedriveState) (max_attempts : Z) :
  1 ≤ max_attempts →
  ∃ r, decide_outbox_redrive_eligibility state max_attempts = Ok r ∧
    (el_eligible r = true ↔ technically_exhausted state max_attempts) ∧
    (el_eligible r = true ↔ el_reason_code r = ELIGIBLE).
Proof.
  intros Hmax. unfold decide_outbox_redrive_eligibility, technically_exhausted.
  replace (max_attempts <? 1) with false by lia.
  assert (∀ code P, code ≠ ELIGIBLE → ¬ P → ∃ r, ineligible code = Ok r ∧
    (el_eligible r = true ↔ P) ∧ (el_eligible r = true ↔ el_reason_code r = ELIGIBLE)) as Hno.
  { intros code P Hc HP. exists (mkEligibility false code). by destruct code. }
  assert (∀ P : Prop, P → ∃ r, eligible_result = Ok r ∧
    (el_eligible r = true ↔ P) ∧ (el_eligible r = true ↔ el_reason_code r = ELIGIBLE)) as Hyes.
  { intros P HP. by exists (mkEligibility true ELIGIBLE). }
  destruct state as [st cy n lease lk tc tn to tk]; cbn.
  case_bool_decide as H1; [apply Hno; [done|naive_solver]|].
  destruct lease; [apply Hno; [done|naive_solver]|].
  destruct (_ || _ || _) eqn:H2.
  { apply Hno; [done|]. rewrite !orb_true_iff, !bool_decide_eq_true in H2. naive_solver. }
  rewrite !orb_false_iff, !bool_decide_eq_false in H2. destruct H2 as [[H2 H3] H4].
  destruct (_ || _ || _ || _) eqn:H5.
  { apply Hno; [done|]. rewrite !orb_true_iff, !bool_decide_eq_true in H5. intros ?. destruct_and!.
    destruct H5 as [[[?|?]|?]|?]; [lia|lia|done|done]. }
  rewrite !orb_false_iff, !bool_decide_eq_false in H5. destruct H5 as [[[H5 H6] H7] H8].
  apply dec_stable in H7, H8. apply Z.ltb_ge in H5, H6.
  case_bool_decide as H9.
  - destruct (is_technical tk) eqn:H10; cbn.
    + apply Hyes. apply is_technical_iff in H10. split_and!; try done. by left.
    + apply Hno; [done|]. intros ?. destruct_and!. destruct_or!; destruct_and?; [|congruence].
      assert (is_technical tk = true) by (by apply is_technical_iff). congruence.
  - case_bool_decide as H10; [|apply Hno; [done|]; naive_solver].
    case_bool_decide as H11; [apply Hno; [done|]; naive_solver|].
    destruct (n =? max_attempts) eqn:H12; cbn.
    + apply Hyes. apply Z.eqb_eq in H12. split_and!; try done. by right.
    + apply Hno; [done|]. apply Z.eqb_neq in H12. naive_solver.
Qed.

Lemma outbox_redrive_policy state n r :
  1 ≤ n → decide_outbox_redrive_eligibility state n = Ok r → el_eligible r = true → technically_exhausted state n.
Proof. intros Hn Hr He. destruct (decide_outbox_redrive state n Hn) as (r' & Hr' & [H _] & _). apply H. congruence. Qed.

(** The redrive policy fails closed and never raises: with a positive attempt limit it
    always answers, the answer is eligible exactly for a dead, unleased message whose current
    cycle was closed by its last counted attempt for a technical reason (never a rejection by
    the provider), and an ineligible answer carries a reason code other than the eligible
    one. *)
Theorem outbox_redrive_policy_exact (state : OutboxRedriveState) (max_attempts : Z) :
  1 ≤ max_attempts →
  ∃ r, decide_outbox_redrive_eligibility state max_attempts = Ok r ∧
    (el_eligible r = true ↔ technically_exhausted state max_attempts) ∧
    (el_eligible r = true ↔ el_reason_code r = ELIGIBLE).
Proof. by apply decide_outbox_redrive. Qed.

Definition demo_dead_state (outcome : DeliveryAttemptOutcome) (kind : option ProviderFailureKind) :
    OutboxRedriveState :=
  mkOutboxRedriveState ob_dead 1 8 false kind (Some 1) (Some 8) (Some outcome) kind.

Lemma outbox_redrive_policy_exact_witness :
  decide_outbox_redrive_eligibility (demo_dead_state da_terminal_failure (Some fk_timeout)) 8
    = Ok (mkEligibility true ELIGIBLE) ∧
  decide_outbox_redrive_eligibility (demo_dead_state da_provider_rejected (Some fk_provider_rejection)) 8
    = Ok (mkEligibility false PROVIDER_REJECTION) ∧
  ∃ r, decide_outbox_redrive_eligibility (demo_dead_state da_lease_expired None) 8 = Ok r ∧
    (el_eligible r = true ↔ technically_exhausted (demo_dead_state da_lease_expired None) 8) ∧
    (el_eligible r = true ↔ el_reason_code r = ELIGIBLE).
Proof.
  split_and!; [reflexivity..|].
  exact (outbox_redrive_policy_exact (demo_dead_state da_lease_expired None) 8 ltac:(lia)).
Defined.

Lemma inbox_redrive_policy (state : InboxRedriveState) :
  ∃ r, decide_inbox_redrive_eligibility state = Ok r ∧
    (el_eligible r = true ↔ is_processing_status state = ib_failed ∧ is_has_active_lease state = false) ∧
    (el_eligible r = true ↔ el_reason_code r = ELIGIBLE).
Proof.
  destruct state as [[] []]; eexists; (split; [reflexivity|]); split; split; cbn; try done; intros []; done.
Qed.

(** The answer the policy gives, by its reason. *)
Lemma outbox_redrive_result state n r :
  decide_outbox_redrive_eligibility state n = Ok r →
  r = mkEligibility (bool_decide (el_reason_code r = ELIGIBLE)) (el_reason_code r).
Proof.
  assert (∀ code, ineligible code = Ok r → r = mkEligibility (bool_decide (el_reason_code r = ELIGIBLE)) (el_reason_code r))
    as Hno by (intros code [? ->]%ineligible_ok; cbn; by rewrite bool_decide_eq_false_2).
  assert (eligible_result = Ok r → r = mkEligibility (bool_decide (el_reason_code r = ELIGIBLE)) (el_reason_code r))
    as Hyes by (by intros [= <-]).
  unfold decide_outbox_redrive_eligibility. repeat case_match; eauto. done.
Qed.
