(* ===== verification/Transactions.v ===== *)
(** Transactions of several statements: between them the application reads the server
    clock, draws identifiers and decides in Python, and an exception rolls everything
    back.  Row locks ([FOR UPDATE]) and the version conditions make each transaction
    atomic, so other workers commit before or after it, never in the middle. *)
From S2P Require Import Prelude Effects OperationModels CaseModels Envelope Database.

(** * Sessions

    Calls made one after the other by a single worker, to evaluate the services on concrete
    inputs. *)

(** Calls of a session follow each other: the tick moves on with what is recorded, so
    that fresh identifiers are fresh. *)
Definition start (d : database) : World database :=
  mkWorld d (50 * (length (support_case_events d) + length (order_operation_events d))) [].
Definition after {A} (m : M database A) (d : database) : database :=
  w_db (m idle_ambient (start d)).2.
Definition outcome {A} (m : M database A) (d : database) : res A := (m idle_ambient (start d)).1.
Definition commits {A} (m : M database A) (d : database) : list (database * database) :=
  w_log (m idle_ambient (start d)).2.

(** A run from a database satisfies what [runs] promises. *)
Lemma runs_from {A} amb I (m : M database A) Q d :
  runs amb I m Q → I d → Q (m amb (start d)).1 (w_log (m amb (start d)).2).
Proof.
  intros Hr Hd. destruct (m amb (start d)) as [r w] eqn:E.
  destruct (Hr (start d) r w Hd E) as (HI & cs & Hcs & HQ). cbn in *. by subst.
Qed.

(** A quiet run satisfies what [runs] promises. *)
Lemma runs_after {A} I (m : M database A) Q d :
  runs idle_ambient I m Q → I d → Q (outcome m d) (commits m d) ∧ I (after m d).
Proof.
  intros Hr Hd. unfold outcome, commits, after.
  destruct (m idle_ambient (start d)) as [r w] eqn:E.
  destruct (Hr (start d) r w Hd E) as (HI & cs & Hcs & HQ). cbn in *. by subst.
Qed.

Lemma runs_outcome {A} I (m : M database A) Q d :
  runs idle_ambient I m Q → I d → Q (outcome m d) (commits m d).
Proof. apply runs_after. Qed.

(** What leaves a transaction block: a [psycopg] error, or any other exception. *)
Inductive tx_error := DbError (e : pg_error) | Raised (e : exn).

Inductive tx_result (A : Type) :=
  | Committed (a : A) (d : database)
  | Aborted (e : tx_error).
Arguments Committed {A} a d.
Arguments Aborted {A} e.

Definition Tx (A : Type) : Type :=
  Ambient database → database → nat → tx_result A * nat.

Definition tx_ret {A} (a : A) : Tx A := λ _ d n, (Committed a d, n).
Definition tx_raise {A} (e : exn) : Tx A := λ _ _ n, (Aborted (Raised e), n).
Definition tx_bind {A B} (t : Tx A) (f : A → Tx B) : Tx B := λ amb d n,
  match t amb d n with
  | (Committed a d', n') => f a amb d' n'
  | (Aborted e, n') => (Aborted e, n')
  end.

(** Python between two statements. *)
Definition tx_lift {A} (r : res A) : Tx A :=
  match r with Ok a => tx_ret a | Err e => tx_raise e end.
(** [if cond: raise e] *)
Definition tx_raise_if (c : bool) (e : exn) : Tx unit := tx_lift (raise_if c e).

(** [SELECT clock_timestamp()], or the same call inside a statement. *)
Definition clock_timestamp : Tx instant := λ amb d n, (Committed (clock amb n) d, S n).
(** [uuid4()] *)
Definition uuid4 : Tx uuid := λ amb d n, (Committed (fresh_id amb n) d, S n).
(** A [SELECT]. *)
Definition select {A} (f : database → A) : Tx A := λ _ d n, (Committed (f d) d, n).
(** A statement that writes. *)
Definition execute (f : database → pg database) : Tx unit := λ _ d n,
  match f d with
  | PgOk d' => (Committed tt d', n)
  | PgErr e => (Aborted (DbError e), n)
  end.

Declare Scope tx_scope.
Delimit Scope tx_scope with tx.
Notation "x '<~' t ';' k" := (tx_bind t (λ x, k))
  (at level 100, t at next level, k at level 200, right associativity) : tx_scope.
Notation "t ';~' k" := (tx_bind t (λ _, k))
  (at level 100, k at level 200, right associativity) : tx_scope.
Open Scope tx_scope.

(** [for row in rows: body(row)], collecting the results. *)
Fixpoint tx_for {A B} (body : A → Tx B) (l : list A) : Tx (list B) :=
  match l with
  | [] => tx_ret []
  | x :: l' => b <~ body x; bs <~ tx_for body l'; tx_ret (b :: bs)
  end.

(** [async with pool.connection(), connection.transaction()]: [handler] translates what
    leaves the block, [pe] is the translation of a lost connection or a pool timeout. *)
Definition in_transaction {A} (pe : exn) (handler : tx_error → exn) (t : Tx A) :
    M database A := λ amb w,
  let d := interfere amb (w_tick w) (w_db w) in
  let '(r, n) := t amb d (S (w_tick w)) in
  let aborted := mkWorld d n (w_log w) in
  match fault_at amb (w_tick w), r with
  | FailBefore, _ => (Err pe, aborted)
  | _, Aborted e => (Err (handler e), aborted)
  | NoFault, Committed a d' => (Ok a, mkWorld d' n (w_log w ++ [(d, d')]))
  | FailAfter, Committed a d' => (Err pe, mkWorld d' n (w_log w ++ [(d, d')]))
  end.

(** * Reasoning *)

(** [t] started on [d] can commit [d'] with the answer [a]. *)
Definition commits_to {A} (t : Tx A) (d : database) (a : A) (d' : database) : Prop :=
  ∃ amb n n', t amb d n = (Committed a d', n').

(** The same with the reading of the clock in sight. *)
Lemma tx_bind_committed {A B} (t : Tx A) (f : A → Tx B) amb d n b d' n' :
  tx_bind t f amb d n = (Committed b d', n') →
  ∃ a d1 n1, t amb d n = (Committed a d1, n1) ∧ f a amb d1 n1 = (Committed b d', n').
Proof. unfold tx_bind. destruct (t amb d n) as [[a d1|e] n1]; [|done]. intros H. by exists a, d1, n1. Qed.

Lemma tx_raise_if_committed c e amb d n u d' n' :
  tx_raise_if c e amb d n = (Committed u d', n') → c = false ∧ d' = d ∧ n' = n.
Proof. unfold tx_raise_if. by destruct c; intros [= _ <- <-]. Qed.

Lemma commits_to_ret {A} (a b : A) d d' : commits_to (tx_ret a) d b d' ↔ b = a ∧ d' = d.
Proof.
  split; [by intros (? & ? & ? & [= -> -> ->])|]. intros [-> ->].
  exists (mkAmbient _ (λ _ d, d) (λ _, 0) (λ _, 0%N) (λ _, NoFault)), 0%nat, 0%nat. done.
Qed.

Lemma commits_to_raise {A} e d (a : A) d' : ¬ commits_to (tx_raise e) d a d'.
Proof. by intros (? & ? & ? & ?). Qed.

Lemma commits_to_bind {A B} (t : Tx A) (f : A → Tx B) d b d' :
  commits_to (tx_bind t f) d b d' → ∃ a d1, commits_to t d a d1 ∧ commits_to (f a) d1 b d'.
Proof.
  intros (amb & n & n' & H). unfold tx_bind in H.
  destruct (t amb d n) as [[a d1|e] n1] eqn:E; [|done]. exists a, d1.
  split; by do 3 eexists.
Qed.

Lemma commits_to_lift {A} (r : res A) d a d' : commits_to (tx_lift r) d a d' → r = Ok a ∧ d' = d.
Proof.
  destruct r; cbn; [by intros [-> ->]%commits_to_ret|]. by intros ?%commits_to_raise.
Qed.

Lemma commits_to_raise_if c e d u d' :
  commits_to (tx_raise_if c e) d u d' → c = false ∧ d' = d.
Proof. intros [H ->]%commits_to_lift. by apply raise_if_ok in H. Qed.

Lemma commits_to_clock d t d' : commits_to clock_timestamp d t d' → d' = d.
Proof. by intros (? & ? & ? & [= _ <- _]). Qed.

Lemma commits_to_uuid4 d u d' : commits_to uuid4 d u d' → d' = d.
Proof. by intros (? & ? & ? & [= _ <- _]). Qed.

Lemma commits_to_select {A} (f : database → A) d a d' :
  commits_to (select f) d a d' → a = f d ∧ d' = d.
Proof. by intros (? & ? & ? & [= <- <- _]). Qed.

Lemma commits_to_execute f d u d' : commits_to (execute f) d u d' → f d = PgOk d'.
Proof.
  intros (? & ? & ? & H). unfold execute in H. by destruct (f d); simplify_eq.
Qed.

(** Open a committed transaction into the facts its statements establish. *)
Ltac inv_tx :=
  repeat match goal with
    | H : commits_to (tx_bind _ _) _ _ _ |- _ =>
        apply commits_to_bind in H; destruct H as (? & ? & ? & H)
    | H : commits_to (tx_ret _) _ _ _ |- _ => apply commits_to_ret in H as [??]; subst
    | H : commits_to (tx_raise _) _ _ _ |- _ => by apply commits_to_raise in H
    | H : commits_to (tx_raise_if _ _) _ _ _ |- _ => apply commits_to_raise_if in H as [??]; subst
    | H : commits_to (tx_lift _) _ _ _ |- _ => apply commits_to_lift in H as [??]; subst
    | H : commits_to clock_timestamp _ _ _ |- _ => apply commits_to_clock in H; subst
    | H : commits_to uuid4 _ _ _ |- _ => apply commits_to_uuid4 in H; subst
    | H : commits_to (select _) _ _ _ |- _ => apply commits_to_select in H as [??]; subst
    | H : commits_to (execute _) _ _ _ |- _ => apply commits_to_execute in H
    end.

(** A loop that keeps an invariant which relates it to the rows it has handled. *)
Lemma commits_to_for {A B} (body : A → Tx B) (I : list A → list B → database → Prop) l d bs d' :
  (∀ before after out x b d1 d2, l = before ++ x :: after → I before out d1 →
     commits_to (body x) d1 b d2 → I (before ++ [x]) (out ++ [b]) d2) →
  I [] [] d → commits_to (tx_for body l) d bs d' → I l bs d'.
Proof.
  intros Hstep. enough (∀ rest before out bs d, l = before ++ rest → I before out d →
    commits_to (tx_for body rest) d bs d' → I l (out ++ bs) d') as H.
  { intros H0 Hc. by apply (H l [] [] bs d). }
  clear d bs. induction rest as [|x rest IH]; intros before out bs d Hl Hd H; cbn in H; inv_tx.
  - by rewrite !app_nil_r in *; subst.
  - pose proof (Hstep _ _ _ _ _ _ _ eq_refl Hd H0) as Hx.
    match goal with |- I _ (out ++ ?b :: ?bs) _ => change (b :: bs) with ([b] ++ bs) end. rewrite (app_assoc out). refine (IH (before ++ [x]) _ _ _ _ Hx _); [by rewrite <- app_assoc|done].
Qed.

Section Runs.
Context (amb : Ambient database).

Lemma runs_in_transaction {A} I pe handler (t : Tx A) (Q : res A → list (database * database) → Prop) :
  rely amb I →
  (∀ d a d', I d → commits_to t d a d' → I d' ∧ Q (Ok a) [(d, d')] ∧ Q (Err pe) [(d, d')]) →
  (∀ e, Q (Err (handler e)) []) →
  Q (Err pe) [] →
  runs amb I (in_transaction pe handler t) Q.
Proof.
  intros Hrely Hok Herr Hpe w r w' HI. unfold in_transaction.
  pose proof (Hrely (w_tick w) _ HI) as HId.
  set (d := interfere amb (w_tick w) (w_db w)) in *.
  destruct (t amb d (S (w_tick w))) as [[a d'|e] n] eqn:E.
  - assert (commits_to t d a d') as Hc by by do 3 eexists.
    destruct (Hok d a d' HId Hc) as (HI' & HQ & HQe).
    destruct (fault_at amb (w_tick w)); intros [= <- <-]; cbn; (split; [done|]);
      first [by exists [(d, d')]|exists []; by rewrite app_nil_r].
  - destruct (fault_at amb (w_tick w)); intros [= <- <-]; cbn; (split; [done|]);
      exists []; rewrite app_nil_r; auto.
Qed.
End Runs.

(** * How a transaction fails

    How a transaction can fail: [aborts_with E I t] says that, started on a database that
    satisfies [I], [t] either commits or raises something in [E].  Facts about the database
    are gathered by the reads that come before the first write. *)

Section Aborts.
Context (E : tx_error → Prop).

Definition aborts_with {A} (I : database → Prop) (t : Tx A) : Prop :=
  ∀ amb d n e n', I d → t amb d n = (Aborted e, n') → E e.

Lemma aborts_ret {A} I (a : A) : aborts_with I (tx_ret a).
Proof. by intros amb d n e n' _ [=]. Qed.
Lemma aborts_raise {A} I e : E (Raised e) → aborts_with I (tx_raise (A := A) e).
Proof. by intros He amb d n e' n' _ [= <- _]. Qed.
Lemma aborts_lift {A} I (r : res A) : (∀ e, r = Err e → E (Raised e)) → aborts_with I (tx_lift r).
Proof. destruct r; cbn; intros H; [apply aborts_ret|by apply aborts_raise, H]. Qed.
Lemma aborts_lift_ok {A} I (a : A) r : r = Ok a → aborts_with I (tx_lift r).
Proof. intros ->. apply aborts_ret. Qed.
Lemma aborts_raise_if I c e : (c = true → E (Raised e)) → aborts_with I (tx_raise_if c e).
Proof. intros He. apply aborts_lift. intros x Hx. destruct c; [|done]. injection Hx as <-. auto. Qed.
Lemma aborts_clock I : aborts_with I clock_timestamp.
Proof. by intros amb d n e n' _ [=]. Qed.
Lemma aborts_uuid4 I : aborts_with I uuid4.
Proof. by intros amb d n e n' _ [=]. Qed.
Lemma aborts_select {A} I (f : database → A) : aborts_with I (select f).
Proof. by intros amb d n e n' _ [=]. Qed.
Lemma aborts_execute I f : (∀ e, E (DbError e)) → aborts_with I (execute f).
Proof. intros He amb d n e n' _ H. unfold execute in H. destruct (f d); [done|]. injection H as <- _. auto. Qed.

Lemma aborts_weaken {A} I (I' : database → Prop) (t : Tx A) :
  (∀ d, I d → I' d) → aborts_with I' t → aborts_with I t.
Proof. intros HI Ht amb d n e n' Hd. eapply Ht. by apply HI. Qed.

(** Past a write nothing is known of the database. *)
Lemma aborts_bind {A B} I (t : Tx A) (f : A → Tx B) :
  aborts_with I t → (∀ a, aborts_with (λ _, True) (f a)) → aborts_with I (tx_bind t f).
Proof.
  intros Ht Hf amb d n e n' Hd. unfold tx_bind. destruct (t amb d n) as [[a d1|e1] n1] eqn:Et.
  - intros H. by eapply Hf.
  - intros [= <- <-]. by eapply Ht.
Qed.

(** A step that leaves the database as it is. *)
Lemma aborts_bind_pure {A B} I (t : Tx A) (f : A → Tx B) :
  aborts_with I t → (∀ d a d', commits_to t d a d' → d' = d) →
  (∀ a, aborts_with I (f a)) → aborts_with I (tx_bind t f).
Proof.
  intros Ht Hp Hf amb d n e n' Hd. unfold tx_bind. destruct (t amb d n) as [[a d1|e1] n1] eqn:Et.
  - intros H. assert (d1 = d) as -> by (eapply Hp; by do 3 eexists). by eapply Hf.
  - intros [= <- <-]. by eapply Ht.
Qed.

Lemma aborts_bind_lift {A B} I (r : res A) (f : A → Tx B) :
  (∀ e, r = Err e → E (Raised e)) → (∀ a, r = Ok a → aborts_with I (f a)) →
  aborts_with I (tx_bind (tx_lift r) f).
Proof.
  intros He Hf amb d n e n' Hd. destruct r as [a|x]; cbn.
  - by apply (Hf a).
  - intros [= <- _]. by apply He.
Qed.
Lemma aborts_bind_raise_if {B} I c e (f : unit → Tx B) :
  (c = true → E (Raised e)) → (c = false → aborts_with I (f tt)) → aborts_with I (tx_bind (tx_raise_if c e) f).
Proof.
  intros He Hf. unfold tx_raise_if. apply aborts_bind_lift.
  - intros x Hx. destruct c; [|done]. injection Hx as <-. auto.
  - intros [] Hx. apply Hf. by destruct c.
Qed.

(** What a read returns is a fact about a database that satisfies [I]. *)
Lemma aborts_bind_select {A B} I (g : database → A) (f : A → Tx B) :
  (∀ d, I d → aborts_with I (f (g d))) → aborts_with I (tx_bind (select g) f).
Proof. intros Hf amb d n e n' Hd H. exact (Hf d Hd amb d n e n' Hd H). Qed.
Lemma aborts_bind_clock {B} I (f : instant → Tx B) :
  (∀ t, aborts_with I (f t)) → aborts_with I (tx_bind clock_timestamp f).
Proof.
  intros Hf. apply aborts_bind_pure; [apply aborts_clock| |done]. intros d a d'. apply commits_to_clock.
Qed.
Lemma aborts_bind_uuid4 {B} I (f : uuid → Tx B) :
  (∀ u, aborts_with I (f u)) → aborts_with I (tx_bind uuid4 f).
Proof.
  intros Hf. apply aborts_bind_pure; [apply aborts_uuid4| |done]. intros d a d'. apply commits_to_uuid4.
Qed.
End Aborts.

(** What leaves the block is what the handler makes of these errors. *)
Lemma in_transaction_errors {A} E I amb pe handler (t : Tx A) w e w' :
  aborts_with E I t → rely amb I → I (w_db w) → in_transaction pe handler t amb w = (Err e, w') →
  e = pe ∨ ∃ x, E x ∧ e = handler x.
Proof.
  intros Ht Hrely Hw. unfold in_transaction. pose proof (Hrely (w_tick w) _ Hw) as Hd.
  destruct (t amb _ (S (w_tick w))) as [[a d'|x] n] eqn:Et.
  - destruct (fault_at amb (w_tick w)); intros [=]; auto.
  - specialize (Ht _ _ _ _ _ Hd Et). destruct (fault_at amb (w_tick w)); intros [= <- _]; eauto.
Qed.

(** Walk down a transaction, leaving what the application itself raises. *)
Ltac abort_walk :=
  repeat first
    [ progress intros
    | progress cbv zeta
    | apply aborts_ret | apply aborts_clock | apply aborts_uuid4 | apply aborts_select
    | apply aborts_execute
    | apply aborts_bind_clock | apply aborts_bind_uuid4 | apply aborts_bind_select
    | apply aborts_bind_raise_if | apply aborts_bind_lift
    | apply aborts_raise | apply aborts_raise_if | apply aborts_lift
    | apply aborts_bind
    | match goal with |- aborts_with _ _ (match ?x with _ => _ end) => destruct x eqn:? end ].
