(* ===== verification/Messaging.v ===== *)
(** Outbox persistence models: [integrations/persistence_models.py].  The rows themselves
    ([OutboxMessage], [OutboxDeliveryAttempt]) are declared with the tables. *)
From S2P Require Import Prelude OperationModels CaseModels Envelope Database.

Definition max_500 (o : option string) : bool :=
  match o with Some s => str_len s <=? 500 | None => true end.

(** * [OutboxMessage] *)

Definition OutboxMessage_strip (m : OutboxMessage) : OutboxMessage :=
  mkOutboxMessage (om_command_id m) (om_schema_version m) (strip (om_idempotency_key m))
    (strip (om_tenant_id m)) (strip (om_customer_id m)) (strip (om_source_message_id m))
    (strip (om_connection_id m)) (om_capability m) (om_command_type m) (om_aggregate_type m)
    (om_aggregate_id m) (om_expected_order_version m) (om_payload m) (om_status m)
    (om_delivery_cycle m) (om_attempts_in_cycle m) (om_available_at m) (om_lease_id m)
    (strip <$> om_lease_owner m) (om_lease_expires_at m) (om_last_failure_kind m)
    (strip <$> om_last_error_code m) (strip <$> om_last_error_message m) (om_created_at m)
    (om_updated_at m) (om_published_at m) (om_dead_at m).

Definition OutboxMessage_fields_ok (m : OutboxMessage) : bool :=
  (om_schema_version m =? 1) && nonempty (om_idempotency_key m) && nonempty (om_tenant_id m)
  && nonempty (om_customer_id m) && nonempty (om_source_message_id m)
  && nonempty (om_connection_id m)
  && match om_expected_order_version m with Some v => 1 <=? v | None => true end
  && (1 <=? om_delivery_cycle m) && (0 <=? om_attempts_in_cycle m)
  && opt_nonempty (om_lease_owner m) && max_500 (om_last_error_code m)
  && max_500 (om_last_error_message m).

(** [OutboxMessage.validate_state] *)
Definition validate_outbox_state (m : OutboxMessage) : res unit :=
  raise_if (om_updated_at m <? om_created_at m)
    (ValueError "updated_at must not be earlier than created_at");;;
  (if bool_decide (om_status m = ob_processing) then
     raise_if (bool_decide (om_lease_id m = None) || bool_decide (om_lease_owner m = None))
       (ValueError "processing requires lease_id and lease_owner");;;
     raise_if (bool_decide (om_lease_expires_at m = None))
       (ValueError "processing requires lease_expires_at")
   else
     raise_if (bool_decide (is_Some (om_lease_id m)) || bool_decide (is_Some (om_lease_owner m))
               || bool_decide (is_Some (om_lease_expires_at m)))
       (ValueError "non-processing status must not carry a lease"));;;
  raise_if (bool_decide (om_status m = ob_published) && bool_decide (om_published_at m = None))
    (ValueError "published requires published_at");;;
  raise_if (bool_decide (om_status m ≠ ob_published) && bool_decide (is_Some (om_published_at m)))
    (ValueError "only published may carry published_at");;;
  raise_if (bool_decide (om_status m = ob_dead) && bool_decide (om_dead_at m = None))
    (ValueError "dead requires dead_at");;;
  raise_if (bool_decide (om_status m ≠ ob_dead) && bool_decide (is_Some (om_dead_at m)))
    (ValueError "only dead may carry dead_at");;;
  match om_aggregate_type m with
  | ag_order_operation =>
      raise_if (bool_decide (om_expected_order_version m = None))
        (ValueError "order_operation requires expected_order_version");;;
      raise_if (bool_decide (om_command_type m = cmd_delivery_investigation))
        (ValueError "order_operation aggregate cannot carry a delivery command")
  | ag_support_case =>
      raise_if (bool_decide (is_Some (om_expected_order_version m)))
        (ValueError "support_case must not carry expected_order_version");;;
      raise_if (bool_decide (om_command_type m ≠ cmd_delivery_investigation))
        (ValueError "support_case aggregate requires a delivery_investigation command")
  end.

Definition OutboxMessage_validate (m : OutboxMessage) : res OutboxMessage :=
  let m := OutboxMessage_strip m in
  raise_if (negb (OutboxMessage_fields_ok m)) (ValidationError "OutboxMessage");;;
  validating "OutboxMessage" (validate_outbox_state m);;;
  Ok m.

(** [OutboxMessage.to_envelope] *)
Definition to_envelope (m : OutboxMessage) : res ProviderCommandEnvelope :=
  ProviderCommandEnvelope_validate
    (mkEnvelope (om_schema_version m) (om_command_id m) (om_idempotency_key m)
       (om_source_message_id m) (om_aggregate_type m) (om_aggregate_id m)
       (om_expected_order_version m) (om_tenant_id m) (om_customer_id m) (om_connection_id m)
       (om_command_type m) (om_payload m) (om_created_at m)).

(** [_parse_payload]: the class is chosen by the command type. *)
Definition parse_payload (command_type : ProviderCommandType) (raw : ProviderCommandPayload) :
    res ProviderCommandPayload :=
  match command_type, raw with
  | cmd_delivery_investigation, DeliveryPayload _ => ProviderCommandPayload_validate raw
  | cmd_delivery_investigation, OrderPayload _ =>
      Err (ValidationError "DeliveryInvestigationCommandPayload")
  | _, OrderPayload _ => ProviderCommandPayload_validate raw
  | _, DeliveryPayload _ => Err (ValidationError "OrderOperationCommandPayload")
  end.

Definition with_payload (m : OutboxMessage) (payload : ProviderCommandPayload) : OutboxMessage :=
  mkOutboxMessage (om_command_id m) (om_schema_version m) (om_idempotency_key m)
    (om_tenant_id m) (om_customer_id m) (om_source_message_id m) (om_connection_id m)
    (om_capability m) (om_command_type m) (om_aggregate_type m) (om_aggregate_id m)
    (om_expected_order_version m) payload (om_status m) (om_delivery_cycle m)
    (om_attempts_in_cycle m) (om_available_at m) (om_lease_id m) (om_lease_owner m)
    (om_lease_expires_at m) (om_last_failure_kind m) (om_last_error_code m)
    (om_last_error_message m) (om_created_at m) (om_updated_at m) (om_published_at m)
    (om_dead_at m).

(** [_outbox_from_row] *)
Definition outbox_from_row (row : OutboxMessage) : res OutboxMessage :=
  let* payload := parse_payload (om_command_type row) (om_payload row) in
  OutboxMessage_validate (with_payload row payload).

(** * [OutboxDeliveryAttempt] *)

Definition OutboxDeliveryAttempt_strip (a : OutboxDeliveryAttempt) : OutboxDeliveryAttempt :=
  mkOutboxDeliveryAttempt (da_attempt_id a) (da_command_id a) (da_delivery_cycle a)
    (da_attempt_number a) (da_lease_id a) (strip (da_worker_id a)) (da_started_at a)
    (da_finished_at a) (da_outcome a) (da_failure_kind a) (da_http_status a)
    (strip <$> da_provider_operation_id a) (strip <$> da_provider_reference a)
    (strip <$> da_safe_error_code a) (strip <$> da_safe_error_message a)
    (da_retry_after_seconds a) (da_next_available_at a).

Definition OutboxDeliveryAttempt_fields_ok (a : OutboxDeliveryAttempt) : bool :=
  (1 <=? da_delivery_cycle a) && (1 <=? da_attempt_number a) && nonempty (da_worker_id a)
  && match da_http_status a with Some s => 100 <=? s | None => true end
  && opt_nonempty (da_provider_operation_id a) && opt_nonempty (da_provider_reference a)
  && max_500 (da_safe_error_code a) && max_500 (da_safe_error_message a)
  && match da_retry_after_seconds a with Some q => Qle_bool 0 q | None => true end.

(** [OutboxDeliveryAttempt.validate_state] *)
Definition validate_attempt_state (a : OutboxDeliveryAttempt) : res unit :=
  raise_if match da_finished_at a with Some f => f <? da_started_at a | None => false end
    (ValueError "finished_at must not be earlier than started_at");;;
  raise_if (negb (Bool.eqb (bool_decide (da_outcome a = None)) (bool_decide (da_finished_at a = None))))
    (ValueError "outcome and finished_at must be present together");;;
  if bool_decide (da_outcome a ∈ [Some da_provider_rejected; Some da_retry_scheduled;
                                  Some da_terminal_failure]) then
    raise_if (bool_decide (da_failure_kind a = None)) (ValueError "requires failure_kind")
  else
    raise_if (bool_decide (is_Some (da_failure_kind a)))
      (ValueError "accepted and lease_expired must not carry failure_kind").

Definition OutboxDeliveryAttempt_validate (a : OutboxDeliveryAttempt) : res OutboxDeliveryAttempt :=
  let a := OutboxDeliveryAttempt_strip a in
  raise_if (negb (OutboxDeliveryAttempt_fields_ok a)) (ValidationError "OutboxDeliveryAttempt");;;
  validating "OutboxDeliveryAttempt" (validate_attempt_state a);;;
  Ok a.

(** * [ClaimedOutboxMessage] *)

Record ClaimedOutboxMessage := mkClaimed {
  cl_message : OutboxMessage;
  cl_attempt : OutboxDeliveryAttempt;
}.

(** [ClaimedOutboxMessage.validate_claim] *)
Definition validate_claim (m : OutboxMessage) (a : OutboxDeliveryAttempt) : res unit :=
  raise_if (bool_decide (om_status m ≠ ob_processing))
    (ValueError "a claimed message must be processing");;;
  raise_if (bool_decide (da_command_id a ≠ om_command_id m))
    (ValueError "attempt command_id must match the message");;;
  raise_if (bool_decide (Some (da_lease_id a) ≠ om_lease_id m))
    (ValueError "attempt lease_id must match the message lease");;;
  raise_if (bool_decide (Some (da_worker_id a) ≠ om_lease_owner m))
    (ValueError "attempt worker_id must match the lease owner").

(** [ClaimedOutboxMessage.model_validate({**row, "payload": payload, "attempt": attempt})] *)
Definition ClaimedOutboxMessage_validate (row : OutboxMessage) (attempt : OutboxDeliveryAttempt) :
    res ClaimedOutboxMessage :=
  let m := OutboxMessage_strip row in
  raise_if (negb (OutboxMessage_fields_ok m)) (ValidationError "ClaimedOutboxMessage");;;
  validating "ClaimedOutboxMessage" (validate_outbox_state m);;;
  validating "ClaimedOutboxMessage" (validate_claim m attempt);;;
  Ok (mkClaimed m attempt).

(** * The immediate answer of a provider *)

Inductive ProviderCommandAcceptanceStatus := acc_accepted | acc_rejected.

#[export] Instance ProviderCommandAcceptanceStatus_eq_dec :
  EqDecision ProviderCommandAcceptanceStatus.
Proof. solve_decision. Defined.

(** [ProviderCommandResult] of [integrations/models.py]: its strings are not stripped. *)
Record ProviderCommandResult := mkProviderCommandResult {
  pr_schema_version : Z;
  pr_command_id : uuid;
  pr_provider_operation_id : option string;
  pr_provider_reference : option string;
  pr_status : ProviderCommandAcceptanceStatus;
  pr_received_at : instant;
}.

Definition ProviderCommandResult_validate (r : ProviderCommandResult) : res ProviderCommandResult :=
  raise_if (negb ((pr_schema_version r =? 1) && opt_nonempty (pr_provider_operation_id r)
                  && opt_nonempty (pr_provider_reference r)))
    (ValidationError "ProviderCommandResult");;;
  Ok r.

(** * Properties *)

Lemma OutboxMessage_strip_idem m : OutboxMessage_strip (OutboxMessage_strip m) = OutboxMessage_strip m.
Proof.
  unfold OutboxMessage_strip; cbn. rewrite !strip_idem.
  by destruct (om_lease_owner m), (om_last_error_code m), (om_last_error_message m);
    cbn; rewrite ?strip_idem.
Qed.

Lemma OutboxMessage_validate_ok m m' :
  OutboxMessage_validate m = Ok m' ↔
  m' = OutboxMessage_strip m ∧ OutboxMessage_fields_ok m' = true ∧ validate_outbox_state m' = Ok tt.
Proof.
  unfold OutboxMessage_validate. cbv zeta. split.
  - intros H. inv_ok. bools. by destruct x0.
  - intros (-> & Hf & Hl). by rewrite Hf; cbn [negb raise_if res_bind]; rewrite Hl.
Qed.

(** A claim is the stripped row, leased, with the attempt that carries its lease. *)
Lemma ClaimedOutboxMessage_validate_ok row attempt c :
  ClaimedOutboxMessage_validate row attempt = Ok c →
  c = mkClaimed (OutboxMessage_strip row) attempt ∧ om_status row = ob_processing ∧
  da_command_id attempt = om_command_id row ∧ om_lease_id row = Some (da_lease_id attempt) ∧
  strip <$> om_lease_owner row = Some (da_worker_id attempt).
Proof.
  unfold ClaimedOutboxMessage_validate, validate_claim. cbv zeta. intros H. inv_ok. bools. cbn in *.
  repeat match goal with H : ¬ (_ ≠ _) |- _ => apply dec_stable in H end. by split_and!.
Qed.

(** A row that the persistence models read back unchanged. *)
Definition outbox_normal (m : OutboxMessage) : Prop :=
  outbox_from_row m = Ok m ∧ is_Some (match to_envelope m with Ok e => Some e | Err _ => None end).

Lemma parse_payload_envelope e e' :
  ProviderCommandEnvelope_validate e = Ok e' →
  parse_payload (e_command_type e') (e_payload e') = Ok (e_payload e').
Proof.
  intros H. pose proof (envelope_validate_ok _ _ H) as (_ & _ & _ & _ & _ & _ & _ & _ & _ & Hp).
  assert (ProviderCommandPayload_validate (e_payload e') = Ok (e_payload e')) as Hn.
  { unfold ProviderCommandEnvelope_validate in H. inv_ok. cbn. by eapply payload_validate_normal. }
  unfold validate_payload_type in Hp. unfold parse_payload. case_bool_decide as Hc.
  - rewrite Hc. destruct (e_payload e'); inv_ok; done.
  - destruct (e_payload e'); inv_ok; destruct (e_command_type e'); done.
Qed.

Lemma envelope_normal_fields e :
  ProviderCommandEnvelope_validate e = Ok e →
  strip (e_idempotency_key e) = e_idempotency_key e ∧ strip (e_source_message_id e) = e_source_message_id e ∧
  strip (e_tenant_id e) = e_tenant_id e ∧ strip (e_customer_id e) = e_customer_id e ∧
  strip (e_connection_id e) = e_connection_id e ∧ e_schema_version e = 1 ∧
  nonempty (e_idempotency_key e) = true ∧ nonempty (e_source_message_id e) = true ∧
  nonempty (e_tenant_id e) = true ∧ nonempty (e_customer_id e) = true ∧
  nonempty (e_connection_id e) = true ∧
  match e_expected_order_version e with Some v => 1 <=? v | None => true end = true.
Proof.
  unfold ProviderCommandEnvelope_validate. intros H. inv_ok. bools. destruct e; cbn in *.
  match goal with H : mkEnvelope _ _ _ _ _ _ _ _ _ _ _ _ _ = _ |- _ => injection H as ?????? end.
  repeat match goal with H : strip _ = _ |- _ => rewrite H in * end.
  split_and!; first [done|by apply Z.eqb_eq].
Qed.

(** A queued command survives storage: the row reads back as it was written, and the
    envelope rebuilt from it for delivery is the one that was queued. *)
Lemma outbox_row_roundtrip e at_ :
  ProviderCommandEnvelope_validate e = Ok e →
  let row := outbox_row e ob_pending at_ (e_created_at e) cap_order_operation in
  outbox_from_row row = Ok row ∧ to_envelope row = Ok e.
Proof.
  intros He row. split; [|unfold to_envelope, row; by destruct e].
  pose proof (parse_payload_envelope e e He) as Hpay. unfold outbox_from_row, row. cbn.
  rewrite Hpay. cbn [res_bind]. apply OutboxMessage_validate_ok.
  pose proof (envelope_normal_fields e He) as (H1 & H2 & H3 & H4 & H5 & H6 & H7 & H8 & H9 & H10 & H11 & H12).
  split_and!.
  - unfold OutboxMessage_strip. cbn. by rewrite H1, H2, H3, H4, H5.
  - unfold OutboxMessage_fields_ok. cbn. by rewrite H6, H7, H8, H9, H10, H11, H12.
  - pose proof (envelope_validate_ok _ _ He) as (_ & _ & _ & _ & _ & _ & _ & _ & _ & Hp).
    unfold validate_outbox_state. cbn. rewrite Z.ltb_irrefl.
    unfold validate_payload_type in Hp.
    by destruct (e_command_type e), (e_aggregate_type e), (e_expected_order_version e).
Qed.
