(* ===== verification/CaseRepository.v ===== *)
(** Support-case persistence: the association checks of [cases/repository.py] and the
    transactions of [cases/postgres_repository.py]. *)
From S2P Require Import Prelude Effects Auth OperationModels CaseModels CasePolicy Envelope Database.

Definition case_owner (c : SupportCase) : row_owner :=
  mkRowOwner (c_tenant_id c) (c_customer_id c) (c_assigned_agent_id c).

(** * Row conversion and error translation *)

(** [_case_from_row] on an optional row. *)
Definition case_from_row (o : option SupportCase) : res (option SupportCase) :=
  match o with
  | None => Ok None
  | Some row => let* c := SupportCase_validate row in Ok (Some c)
  end.

(** [_event_from_row] on an optional row. *)
Definition event_from_row (o : option SupportCaseEvent) : res (option SupportCaseEvent) :=
  match o with
  | None => Ok None
  | Some row => let* e := SupportCaseEvent_validate row in Ok (Some e)
  end.

Definition raise_unique_violation (constraint : string) (event : SupportCaseEvent) : exn :=
  if bool_decide (constraint ∈ ["uq_support_cases_active_thread_type";
                                "uq_support_cases_active_delivery_order"])
  then ActiveCaseConflictError
  else if String.eqb constraint "uq_support_case_events_idempotency" then
    match ev_source_message_id event with
    | Some _ => DuplicateSourceMessageError
    | None => DuplicateIdempotencyKeyError
    end
  else CasePersistenceError.

(** The [except] clauses around a case transaction. *)
Definition case_errors {A} (event : SupportCaseEvent) (r : pg A) : res A :=
  match r with
  | PgOk a => Ok a
  | PgErr (UniqueViolation k) => Err (raise_unique_violation k event)
  | PgErr OtherDatabaseError => Err CasePersistenceError
  end.

Definition validate_case_ownership (s : AccessScope) (c : SupportCase) : res unit :=
  raise_if (bool_decide (c_tenant_id c ≠ sc_tenant_id s))
    (ValueError "case tenant_id must match the access scope");;;
  raise_if (bool_decide (sc_role s = customer) && bool_decide (Some (c_customer_id c) ≠ customer_id s))
    (ValueError "case customer_id must match the access scope").

Definition validate_event_ownership (s : AccessScope) (e : SupportCaseEvent) : res unit :=
  raise_if (bool_decide (ev_tenant_id e ≠ sc_tenant_id s))
    (ValueError "event tenant_id must match the access scope").

(** [_revalidate_command_envelope] *)
Definition revalidate_command_envelope (command : ProviderCommandEnvelope) :
    res ProviderCommandEnvelope :=
  match ProviderCommandEnvelope_validate command with
  | Ok e => Ok e
  | Err _ => Err (ValueError "command envelope is invalid")
  end.

Definition validate_case_command_association (case : SupportCase) (event : SupportCaseEvent)
    (command : ProviderCommandEnvelope) : res unit :=
  let* command := revalidate_command_envelope command in
  raise_if (bool_decide (c_case_type case ≠ ct_delivery_investigation))
    (ValueError "case command writes require a delivery_investigation case");;;
  raise_if (bool_decide (c_order_id case = None))
    (ValueError "delivery_investigation cases require an order_id");;;
  raise_if (bool_decide (e_command_type command ≠ cmd_delivery_investigation))
    (ValueError "command.command_type must be 'delivery_investigation'");;;
  raise_if (bool_decide (e_aggregate_type command ≠ ag_support_case))
    (ValueError "command.aggregate_type must be 'support_case'");;;
  raise_if (bool_decide (e_aggregate_id command ≠ c_case_id case))
    (ValueError "command.aggregate_id must match the case_id");;;
  raise_if (bool_decide (e_tenant_id command ≠ c_tenant_id case))
    (ValueError "command.tenant_id must match the case tenant_id");;;
  raise_if (bool_decide (e_customer_id command ≠ c_customer_id case))
    (ValueError "command.customer_id must match the case customer_id");;;
  raise_if (bool_decide (e_source_message_id command ≠ c_source_message_id case))
    (ValueError "command.source_message_id must match the case source_message_id");;;
  raise_if (bool_decide (is_Some (e_expected_order_version command)))
    (ValueError "delivery commands must not carry expected_order_version");;;
  raise_if (bool_decide (Some (payload_order_id (e_payload command)) ≠ c_order_id case))
    (ValueError "command payload order_id must match the case order_id");;;
  raise_if (bool_decide (ev_case_id event ≠ c_case_id case))
    (ValueError "event.case_id must match the case_id");;;
  raise_if (bool_decide (ev_tenant_id event ≠ c_tenant_id case))
    (ValueError "event.tenant_id must match the case tenant_id");;;
  raise_if (bool_decide (ev_customer_id event ≠ c_customer_id case))
    (ValueError "event.customer_id must match the case customer_id").

(** * Queries *)

(** [WHERE case_id = %s AND visibility] *)
Definition visible_case (visible : row_owner → bool) (d : database) (case_id : uuid) :
    option SupportCase :=
  match support_cases d !! case_id with
  | Some c => if visible (case_owner c) then Some c else None
  | None => None
  end.

Definition get_case (s : AccessScope) (case_id : uuid) : M database (option SupportCase) :=
  visible <- lift (case_visibility s);
  query CasePersistenceError (λ d, case_from_row (visible_case visible d case_id)).

(** The case an event joins to, when it carries the message and the case is visible. *)
Definition message_case (visible : row_owner → bool) (d : database)
    (thread_id source_message_id : string) (e : SupportCaseEvent) : option SupportCase :=
  match visible_case visible d (ev_case_id e) with
  | Some c => if bool_decide (c_thread_id c = thread_id)
                 && bool_decide (ev_source_message_id e = Some source_message_id)
              then Some c else None
  | None => None
  end.

Definition event_order (e : SupportCaseEvent) : instant * uuid := (ev_created_at e, ev_event_id e).
Definition case_order (c : SupportCase) : instant * uuid := (c_created_at c, c_case_id c).

(** [ORDER BY events.created_at, events.event_id LIMIT 1] over the join. *)
Definition case_by_message (visible : row_owner → bool) (d : database)
    (thread_id source_message_id : string) : option SupportCase :=
  match first_row event_order
          (filter (λ e, is_Some (message_case visible d thread_id source_message_id e))
             (support_case_events d)) with
  | Some e => message_case visible d thread_id source_message_id e
  | None => None
  end.

Definition find_by_source_message (s : AccessScope) (thread_id source_message_id : string) :
    M database (option SupportCase) :=
  visible <- lift (case_visibility s);
  query CasePersistenceError
    (λ d, case_from_row (case_by_message visible d thread_id source_message_id)).

Definition event_by_key (d : database) (tenant_id key : string) : option SupportCaseEvent :=
  snd <$> list_find (λ e, ev_tenant_id e = tenant_id ∧ ev_idempotency_key e = key)
            (support_case_events d).

Definition find_event_by_idempotency_key (s : AccessScope) (key : string) :
    M database (option SupportCaseEvent) :=
  query CasePersistenceError (λ d, event_from_row (event_by_key d (sc_tenant_id s) key)).

(** The rows of a table, in primary-key order of the underlying map. *)
Definition rows {A} (m : gmap uuid A) : list A := snd <$> map_to_list m.

Lemma elem_of_rows {A} (m : gmap uuid A) x : x ∈ rows m ↔ ∃ i, m !! i = Some x.
Proof.
  unfold rows. rewrite list_elem_of_fmap. split.
  - intros ([i y] & -> & Hi%elem_of_map_to_list). by exists i.
  - intros [i Hi]. exists (i, x). by rewrite elem_of_map_to_list.
Qed.

Lemma rows_keys_NoDup {A} (key : A → uuid) (m : gmap uuid A) :
  (∀ i a, m !! i = Some a → key a = i) → NoDup (key <$> rows m).
Proof.
  intros Hk. unfold rows. rewrite <- list_fmap_compose.
  replace ((key ∘ snd) <$> map_to_list m) with (map_to_list m).*1; [apply NoDup_fst_map_to_list|].
  apply list_fmap_ext. intros i [k a] Hi. cbn. symmetry. apply Hk.
  apply elem_of_map_to_list. by eapply list_elem_of_lookup_2.
Qed.

Definition unresolved_matches (visible : row_owner → bool) (thread_id : string)
    (case_type : CaseType) (order_id : option string) (c : SupportCase) : bool :=
  bool_decide (c_thread_id c = thread_id) && bool_decide (c_case_type c = case_type)
  && match order_id with Some o => bool_decide (c_order_id c = Some o) | None => true end
  && unresolved (c_status c) && visible (case_owner c).

Definition find_unresolved_case (s : AccessScope) (thread_id : string) (case_type : CaseType)
    (order_id : option string) : M database (option SupportCase) :=
  visible <- lift (case_visibility s);
  if bool_decide (case_type = ct_delivery_investigation) then
    match order_id with
    | None => raise (ValueError "delivery_investigation lookup requires an order_id")
    | Some o =>
        query CasePersistenceError (λ d, case_from_row (first_row case_order
          (filter (λ c, unresolved_matches visible thread_id case_type (Some o) c = true)
             (rows (support_cases d)))))
    end
  else
    query CasePersistenceError (λ d, case_from_row (first_row case_order
      (filter (λ c, unresolved_matches visible thread_id case_type None c = true)
         (rows (support_cases d))))).

(** * Transactions *)

(** [UPDATE ... WHERE case_id = %s AND version = %s AND visibility]; [None] when the row
    count is not one. *)
Definition update_case_row (visible : row_owner → bool) (case : SupportCase)
    (expected_version : Z) (d : database) : option (pg database) :=
  match visible_case visible d (c_case_id case) with
  | Some old =>
      if bool_decide (c_version old = expected_version)
      then Some (put_support_case (updated_case_row old case) d) else None
  | None => None
  end.

Definition create_case_with_event (s : AccessScope) (case : SupportCase)
    (event : SupportCaseEvent) : M database unit :=
  lift (validate_case_ownership s case);,
  lift (validate_event_ownership s event);,
  transact CasePersistenceError (λ d,
    let* d' := case_errors event (pg_bind (insert_support_case case d) (insert_case_event event)) in
    Ok (tt, d')).

Definition update_case_with_event (s : AccessScope) (case : SupportCase)
    (event : SupportCaseEvent) (expected_version : Z) : M database unit :=
  lift (raise_if (negb (c_version case =? expected_version + 1))
          (ValueError "case.version must equal expected_version + 1"));,
  lift (validate_case_ownership s case);,
  lift (validate_event_ownership s event);,
  visible <- lift (case_visibility s);
  transact CasePersistenceError (λ d,
    match update_case_row visible case expected_version d with
    | None => Err ConcurrentCaseUpdateError
    | Some updated =>
        let* d' := case_errors event (pg_bind updated (insert_case_event event)) in
        Ok (tt, d')
    end).

Definition create_case_with_event_and_command (s : AccessScope) (case : SupportCase)
    (event : SupportCaseEvent) (command : ProviderCommandEnvelope) : M database unit :=
  lift (validate_case_command_association case event command);,
  lift (validate_case_ownership s case);,
  lift (validate_event_ownership s event);,
  transact CasePersistenceError (λ d,
    let* d' := case_errors event
      (pg_bind (pg_bind (insert_support_case case d) (insert_case_event event))
         (insert_outbox_message command ob_pending (c_updated_at case) (c_updated_at case))) in
    Ok (tt, d')).

Definition update_case_with_event_and_command (s : AccessScope) (case : SupportCase)
    (event : SupportCaseEvent) (command : ProviderCommandEnvelope) (expected_version : Z) :
    M database unit :=
  lift (raise_if (negb (c_version case =? expected_version + 1))
          (ValueError "case.version must equal expected_version + 1"));,
  lift (validate_case_command_association case event command);,
  lift (validate_case_ownership s case);,
  lift (validate_event_ownership s event);,
  visible <- lift (case_visibility s);
  transact CasePersistenceError (λ d,
    match update_case_row visible case expected_version d with
    | None => Err ConcurrentCaseUpdateError
    | Some updated =>
        let* d' := case_errors event
          (pg_bind (pg_bind updated (insert_case_event event))
             (insert_outbox_message command ob_pending (c_updated_at case) (c_updated_at case))) in
        Ok (tt, d')
    end).

(** [SELECT 1 FROM outbox_messages WHERE aggregate_type = 'support_case' AND ...] *)
Definition has_case_command (d : database) (case_id : uuid) : bool :=
  existsb (λ m, bool_decide (om_aggregate_type m = ag_support_case)
                && N.eqb (om_aggregate_id m) case_id) (rows (outbox_messages d)).

Definition append_delivery_trigger_and_ensure_command (s : AccessScope) (case : SupportCase)
    (event : SupportCaseEvent) (command : ProviderCommandEnvelope) (expected_version : Z) :
    M database bool :=
  lift (raise_if (negb (c_version case =? expected_version + 1))
          (ValueError "case.version must equal expected_version + 1"));,
  lift (validate_case_command_association case event command);,
  lift (validate_case_ownership s case);,
  lift (validate_event_ownership s event);,
  visible <- lift (case_visibility s);
  transact CasePersistenceError (λ d,
    match update_case_row visible case expected_version d with
    | None => Err ConcurrentCaseUpdateError
    | Some updated =>
        let* d1 := case_errors event (pg_bind updated (insert_case_event event)) in
        if has_case_command d1 (c_case_id case) then Ok (false, d1)
        else
          let* d2 := case_errors event
            (insert_outbox_message command ob_pending (c_updated_at case) (c_updated_at case) d1) in
          Ok (true, d2)
    end).

(** * Listing *)

Record SupportCasePage := mkSupportCasePage {
  pg_items : list SupportCase; pg_total : Z; pg_limit : Z; pg_offset : Z;
}.
Record SupportCaseEventPage := mkSupportCaseEventPage {
  epg_items : list SupportCaseEvent; epg_total : Z; epg_limit : Z; epg_offset : Z;
}.

(** [WHERE visibility AND filters], from [_case_filter_sql]. *)
Definition matches_opt {A} `{EqDecision A} (o : option A) (a : A) : bool :=
  match o with Some x => bool_decide (a = x) | None => true end.

Definition case_filter (visible : row_owner → bool) (q : CaseListQuery) (c : SupportCase) : bool :=
  visible (case_owner c) && matches_opt (lq_status q) (c_status c)
  && matches_opt (lq_priority q) (c_priority c) && matches_opt (lq_case_type q) (c_case_type c)
  && matches_opt (lq_thread_id q) (c_thread_id c)
  && match lq_order_id q with Some o => bool_decide (c_order_id c = Some o) | None => true end.

(** [ORDER BY CASE priority ..., created_at, case_id] *)
Definition queue_before (a b : SupportCase) : bool :=
  (priority_rank (c_priority a) <? priority_rank (c_priority b))
  || ((priority_rank (c_priority a) =? priority_rank (c_priority b))
      && negb (row_key_lt (case_order b) (case_order a))).

(** [ORDER BY created_at, event_id] *)
Definition timeline_before (a b : SupportCaseEvent) : bool :=
  negb (row_key_lt (event_order b) (event_order a)).

Definition queue_le (a b : SupportCase) : Prop := queue_before a b = true.
Definition timeline_le (a b : SupportCaseEvent) : Prop := timeline_before a b = true.
#[export] Instance queue_le_dec : RelDecision queue_le.
Proof. intros a b. unfold queue_le. apply _. Defined.
#[export] Instance timeline_le_dec : RelDecision timeline_le.
Proof. intros a b. unfold timeline_le. apply _. Defined.

(** [LIMIT n OFFSET k] *)
Definition page {A} (limit offset : Z) (l : list A) : list A :=
  take (Z.to_nat limit) (drop (Z.to_nat offset) l).

Fixpoint traverse {A B} (f : A → res B) (l : list A) : res (list B) :=
  match l with
  | [] => Ok []
  | x :: l' => let* y := f x in let* ys := traverse f l' in Ok (y :: ys)
  end.

Definition matching_cases (visible : row_owner → bool) (q : CaseListQuery) (d : database) :
    list SupportCase :=
  merge_sort queue_le
    (filter (λ c, case_filter visible q c = true) (rows (support_cases d))).

(** The count and the page are two statements of one READ COMMITTED connection; the
    table can change between them. *)
Definition list_cases (s : AccessScope) (q : CaseListQuery) : M database SupportCasePage :=
  visible <- lift (case_visibility s);
  total <- query CasePersistenceError (λ d, Ok (Z.of_nat (length (matching_cases visible q d))));
  items <- query CasePersistenceError (λ d,
    traverse SupportCase_validate (page (lq_limit q) (lq_offset q) (matching_cases visible q d)));
  ret (mkSupportCasePage items total (lq_limit q) (lq_offset q)).

Definition case_timeline (tenant_id : string) (case_id : uuid) (d : database) :
    list SupportCaseEvent :=
  merge_sort timeline_le
    (filter (λ e, ev_tenant_id e = tenant_id ∧ ev_case_id e = case_id) (support_case_events d)).

Definition list_case_events (s : AccessScope) (case_id : uuid) (limit offset : Z) :
    M database SupportCaseEventPage :=
  total <- query CasePersistenceError (λ d,
    Ok (Z.of_nat (length (case_timeline (sc_tenant_id s) case_id d))));
  items <- query CasePersistenceError (λ d,
    traverse SupportCaseEvent_validate (page limit offset (case_timeline (sc_tenant_id s) case_id d)));
  ret (mkSupportCaseEventPage items total limit offset).
