(* ===== verification/Refunds.v ===== *)
(** Refund requests: [refunds/service.py], [refunds/postgres_repository.py] and the refund
    policy of [tools/check_refund_policy.py]. *)
From S2P Require Import Prelude Effects Auth OperationModels CaseModels Database CaseRepository.

(** * The repository *)

Definition refund_owner (r : RefundRequest) : row_owner :=
  mkRowOwner (rfq_tenant_id r) (rfq_customer_id r) None.

Definition visible_refund (visible : row_owner → bool) (order_id : string) (d : database) : option RefundRequest :=
  head (filter (λ r, rfq_order_id r = order_id ∧ visible (refund_owner r) = true) (rows (refund_requests d))).

(** [_refund_from_row] on an optional row, outside the [try]. *)
Definition repo_get_refund (s : AccessScope) (order_id : string) : M database (option RefundRequest) :=
  visible <- lift (customer_owned_visibility s);
  row <- query RefundPersistenceError (λ d, Ok (visible_refund visible order_id d));
  match row with
  | None => ret None
  | Some row => refund <- lift (RefundRequest_validate row); ret (Some refund)
  end.

Definition repo_create_refund (s : AccessScope) (refund : RefundRequest) : M database bool :=
  lift (let* _ := customer_owned_visibility s in Ok tt);,
  lift (raise_if (bool_decide (Some (rfq_customer_id refund) ≠ customer_id s)
                  || bool_decide (rfq_tenant_id refund ≠ sc_tenant_id s))
          (ValueError "refund ownership must match the access scope"));,
  transact RefundPersistenceError (λ d,
    match insert_refund refund d with
    | PgOk (created, d') => Ok (created, d')
    | PgErr _ => Err RefundPersistenceError
    end).

(** * The service *)

Definition create_refund (s : AccessScope) (order_id : string) : M database bool :=
  match customer_id s with
  | None => raise (ValueError "only customers may create refund requests")
  | Some owner =>
      refund_id <- new_id;
      created_by <- lift (identity s);
      created_at <- now;
      refund <- lift (RefundRequest_validate (mkRefundRequest refund_id order_id rf_pending owner
                        (sc_tenant_id s) created_by created_at));
      repo_create_refund s refund
  end.

Definition get_refund_by_order_id (s : AccessScope) (order_id : string) : M database (option RefundRequest) :=
  repo_get_refund s order_id.

(** * The policy *)

(** The fields of [OrderInfo]; dates are days, the amount a finite non-negative float. *)
Record OrderInfo := mkOrderInfo {
  oi_order_id : string;
  oi_delivery_date : Z;
  oi_status : string;
  oi_refunded : bool;
  oi_amount : Q;
}.

Record RefundPolicyResult := mkRefundPolicyResult {
  rpr_eligible : bool;
  rpr_reason : string;
  rpr_requires_manual_review : bool;
  rpr_order_id : option string;
}.

Definition refused (reason : string) : RefundPolicyResult := mkRefundPolicyResult false reason false None.

Definition OrderInfo_ok (o : OrderInfo) : bool := order_id_ok (oi_order_id o) && Qle_bool 0 (oi_amount o).

(** [check_refund_policy]; [None] is order data that does not parse as an [OrderInfo]. *)
Definition check_refund_policy (order_info : option OrderInfo) (today : Z) : RefundPolicyResult :=
  match order_info with
  | None => refused "The order data is incomplete or invalid."
  | Some order =>
      if negb (OrderInfo_ok order) then refused "The order data is incomplete or invalid."
      else
        let duration := today - oi_delivery_date order in
        if duration <? 0 then refused "The delivery date is invalid."
        else if 7 <? duration then refused "This order is past the refund deadline."
        else if negb (String.eqb (oi_status order) "delivered") then
          refused "This order is not in a refundable status."
        else if oi_refunded order then refused "This order has already been refunded."
        else if Qle_bool 100 (oi_amount order) then
          mkRefundPolicyResult true
            ("This order is eligible for a refund, but the amount exceeds " +:+
             "the automatic processing limit.") true None
        else mkRefundPolicyResult true "The order is eligible for a refund." false (Some (oi_order_id order))
  end.
