(* ===== verification/CaseService.v ===== *)
(** Case creation, merging, status changes and assignment: [cases/service.py]. *)
From S2P Require Import Prelude Effects Auth OperationModels CaseModels CasePolicy Envelope Database CaseRepository.

Definition risk_level_rank (l : SemanticRiskLevel) : Z :=
  match l with rl_none => 0 | rl_low => 1 | rl_medium => 2 | rl_high => 3 | rl_critical => 4 end.

Definition merge_unique {A} `{EqDecision A} (current incoming : list A) : list A :=
  dict_fromkeys (current ++ incoming).

Definition select_higher_risk_level (current incoming : option SemanticRiskLevel) :
    option SemanticRiskLevel :=
  match current, incoming with
  | None, _ => incoming
  | _, None => current
  | Some c, Some i => if risk_level_rank c <? risk_level_rank i then Some i else Some c
  end.

(** [existing.order_id or trigger.order_id]: an empty string is falsy. *)
Definition order_or (existing incoming : option string) : option string :=
  match existing with
  | Some o => if nonempty o then Some o else incoming
  | None => incoming
  end.

Definition message_idempotency_key (t : CaseTrigger) : string :=
  "message:" +:+ tr_thread_id t +:+ ":" +:+ tr_source_message_id t.
Definition status_idempotency_key (case_id : uuid) (request_id : string) : string :=
  "status:" +:+ uuid_str case_id +:+ ":" +:+ request_id.
Definition assign_idempotency_key (case_id : uuid) (request_id : string) : string :=
  "assign:" +:+ uuid_str case_id +:+ ":" +:+ request_id.

Definition validate_on_hold_request (target : CaseStatus) (reason : option OnHoldReason) : res unit :=
  raise_if (bool_decide (target = cs_on_hold) && bool_decide (reason = None))
    (ValueError "on_hold_reason is required when putting a case on hold");;;
  raise_if (bool_decide (target ≠ cs_on_hold) && bool_decide (is_Some reason))
    (ValueError "on_hold_reason is only valid for the on_hold status").

Definition require_case_read (s : AccessScope) : res unit :=
  raise_if (negb (has_any_permission s [cases_read_own; cases_read_assigned; cases_read_all]))
    (ForbiddenError "the caller cannot read support cases").

Definition require_case_update (s : AccessScope) : res unit :=
  raise_if (negb (has_any_permission s [cases_update_assigned; cases_update_all]))
    (ForbiddenError "the caller cannot update support cases").

(** [RESERVED_AGENT_IDS] *)
Definition RESERVED_AGENT_IDS : list string := ["system"; "legacy"].

Definition validate_agent_id (agent_id : string) : res string :=
  let normalized := strip agent_id in
  raise_if (negb (nonempty normalized)) (ValueError "agent_id must not be empty");;;
  raise_if (128 <? str_len normalized) (ValueError "agent_id must not exceed 128 characters");;;
  raise_if (has_char ":" normalized) (ValueError "agent_id must not contain ':'");;;
  raise_if (bool_decide (normalized ∈ RESERVED_AGENT_IDS))
    (ValueError ("agent_id is reserved: " +:+ normalized));;;
  Ok normalized.

(** * Building rows *)

(** The event columns a trigger carries. *)
Definition trigger_event (event_id case_id : uuid) (event_type : CaseEventType)
    (t : CaseTrigger) (d : HandoffDecision) (previous_priority : option CasePriority)
    (current_priority : CasePriority) (current_status : CaseStatus)
    (customer_id tenant_id : string) (now : instant) : SupportCaseEvent :=
  mkSupportCaseEvent event_id (message_idempotency_key t) case_id event_type
    (Some (tr_source_message_id t)) (tr_order_id t) (tr_risk_level t) (tr_risk_categories t)
    (hd_reason_codes d) (tr_excerpt t) previous_priority (Some current_priority) None
    (Some current_status) None None None None None None None (Some "system")
    customer_id tenant_id now.

Definition new_case (s_identity customer tenant : string) (case_id : uuid) (t : CaseTrigger)
    (d : HandoffDecision) (case_type : CaseType) (priority : CasePriority) (now : instant) :
    SupportCase :=
  mkSupportCase case_id (tr_thread_id t) (tr_source_message_id t) (tr_order_id t) case_type
    priority cs_open (tr_risk_level t) (tr_risk_categories t) (hd_reason_codes d)
    (hd_display_reason d) (tr_excerpt t) None now now 1 customer tenant s_identity None.

Definition with_status (c : SupportCase) (target : CaseStatus) (reason : option OnHoldReason)
    (now : instant) : SupportCase :=
  mkSupportCase (c_case_id c) (c_thread_id c) (c_source_message_id c) (c_order_id c)
    (c_case_type c) (c_priority c) target (c_risk_level c) (c_risk_categories c)
    (c_reason_codes c) (c_display_reason c) (c_excerpt c) reason (c_created_at c) now
    (c_version c + 1) (c_customer_id c) (c_tenant_id c) (c_created_by c) (c_assigned_agent_id c).

Definition with_agent (c : SupportCase) (agent_id : string) (now : instant) : SupportCase :=
  mkSupportCase (c_case_id c) (c_thread_id c) (c_source_message_id c) (c_order_id c)
    (c_case_type c) (c_priority c) (c_status c) (c_risk_level c) (c_risk_categories c)
    (c_reason_codes c) (c_display_reason c) (c_excerpt c) (c_on_hold_reason c)
    (c_created_at c) now (c_version c + 1) (c_customer_id c) (c_tenant_id c) (c_created_by c)
    (Some agent_id).

(** The merged summary of [_append_trigger]. *)
Definition with_trigger (c : SupportCase) (t : CaseTrigger) (d : HandoffDecision)
    (priority : CasePriority) (now : instant) : SupportCase :=
  let merged_reasons := merge_unique (c_reason_codes c) (hd_reason_codes d) in
  mkSupportCase (c_case_id c) (c_thread_id c) (c_source_message_id c)
    (order_or (c_order_id c) (tr_order_id t)) (c_case_type c)
    (select_higher_priority (c_priority c) priority) (c_status c)
    (select_higher_risk_level (c_risk_level c) (tr_risk_level t))
    (merge_unique (c_risk_categories c) (tr_risk_categories t)) merged_reasons
    (build_display_reason merged_reasons) (c_excerpt c) (c_on_hold_reason c)
    (c_created_at c) now (c_version c + 1) (c_customer_id c) (c_tenant_id c) (c_created_by c)
    (c_assigned_agent_id c).

Definition status_event (event_id : uuid) (key : string) (c : SupportCase) (target : CaseStatus)
    (reason : option OnHoldReason) (actor : string) (now : instant) : SupportCaseEvent :=
  mkSupportCaseEvent event_id key (c_case_id c) ev_status_changed None None None [] [] ""
    (Some (c_priority c)) (Some (c_priority c)) (Some (c_status c)) (Some target) reason
    None None None None None None (Some actor) (c_customer_id c) (c_tenant_id c) now.

Definition assigned_event (event_id : uuid) (key : string) (c : SupportCase) (agent_id : string)
    (actor : string) (now : instant) : SupportCaseEvent :=
  mkSupportCaseEvent event_id key (c_case_id c) ev_assigned None None None [] [] ""
    None None None None None (c_assigned_agent_id c) (Some agent_id) None None None None
    (Some actor) (c_customer_id c) (c_tenant_id c) now.

Definition service_result (a : CaseServiceAction) (c : option SupportCase)
    (e : option SupportCaseEvent) : M database CaseServiceResult :=
  lift (CaseServiceResult_validate (mkCaseServiceResult a c e)).

(** [assert o is not None] *)
Definition assert_some {A} (o : option A) : M database A :=
  match o with Some a => ret a | None => raise AssertionError end.

(** * The service *)

Section Service.
(** The constructor's configuration: the retry bound (at least one) and the optional
    personnel directory. *)
Context (max_write_attempts : nat) (identity_directory : option IdentityDirectory).

Definition service_get_case (s : AccessScope) (case_id : uuid) : M database SupportCase :=
  lift (require_case_read s);,
  c <- get_case s case_id;
  match c with
  | None => raise CaseNotFoundError
  | Some c => ret c
  end.

Definition service_list_cases (s : AccessScope) (q : CaseListQuery) : M database SupportCasePage :=
  lift (require_case_read s);,
  list_cases s q.

Definition service_list_case_events (s : AccessScope) (case_id : uuid) (limit offset : Z) :
    M database SupportCaseEventPage :=
  lift (require_case_read s);,
  lift (raise_if ((limit <? 1) || (200 <? limit)) (ValueError "limit must be between 1 and 200"));,
  lift (raise_if (offset <? 0) (ValueError "offset must not be negative"));,
  c <- get_case s case_id;
  match c with
  | None => raise CaseNotFoundError
  | Some _ => list_case_events s case_id limit offset
  end.

Definition create_case (s : AccessScope) (t : CaseTrigger) (d : HandoffDecision) :
    M database CaseServiceResult :=
  case_type <- assert_some (hd_case_type d);
  priority <- assert_some (hd_priority d);
  cust <- assert_some (customer_id s);
  at_ <- now;
  case_id <- new_id;
  who <- lift (identity s);
  case <- lift (SupportCase_validate
            (new_case who cust (sc_tenant_id s) case_id t d case_type priority at_));
  event_id <- new_id;
  event <- lift (SupportCaseEvent_validate
            (trigger_event event_id case_id ev_case_created t d None priority cs_open
               cust (sc_tenant_id s) at_));
  create_case_with_event s case event;,
  service_result ca_created (Some case) (Some event).

Definition create_delivery_case_with_command (s : AccessScope) (t : CaseTrigger)
    (d : HandoffDecision) (issue_type : DeliveryIssueType) (connection_id : string) :
    M database CaseServiceResult :=
  priority <- assert_some (hd_priority d);
  cust <- assert_some (customer_id s);
  lift (raise_if (bool_decide (tr_order_id t = None))
          (ValueError "delivery investigation requires an order_id"));,
  at_ <- now;
  case_id <- new_id;
  who <- lift (identity s);
  case <- lift (SupportCase_validate
            (new_case who cust (sc_tenant_id s) case_id t d ct_delivery_investigation
               priority at_));
  event_id <- new_id;
  event <- lift (SupportCaseEvent_validate
            (trigger_event event_id (c_case_id case) ev_case_created t d None (c_priority case)
               (c_status case) (c_customer_id case) (c_tenant_id case) at_));
  command_id <- new_id;
  command <- lift (for_delivery_investigation case issue_type connection_id command_id at_);
  create_case_with_event_and_command s case event command;,
  service_result ca_created (Some case) (Some event).

Definition append_trigger (s : AccessScope) (existing : SupportCase) (t : CaseTrigger)
    (d : HandoffDecision) (queueing : option (DeliveryIssueType * string)) :
    M database CaseServiceResult :=
  priority <- assert_some (hd_priority d);
  at_ <- now;
  updated <- lift (SupportCase_validate (with_trigger existing t d priority at_));
  event_id <- new_id;
  event <- lift (SupportCaseEvent_validate
            (trigger_event event_id (c_case_id existing) ev_trigger_appended t d
               (Some (c_priority existing))
               (select_higher_priority (c_priority existing) priority) (c_status existing)
               (c_customer_id existing) (c_tenant_id existing) at_));
  (if bool_decide (c_case_type existing = ct_delivery_investigation) then
     match queueing with
     | None => update_case_with_event s updated event (c_version existing)
     | Some (issue_type, connection_id) =>
         command_id <- new_id;
         command <- lift (for_delivery_investigation updated issue_type connection_id
                            command_id at_);
         append_delivery_trigger_and_ensure_command s updated event command
           (c_version existing);,
         ret tt
     end
   else update_case_with_event s updated event (c_version existing));,
  service_result ca_event_appended (Some updated) (Some event).

(** The conflicts a handoff retries. *)
Definition handoff_conflict {A} (e : exn) : option (M database (option A)) :=
  match e with
  | ActiveCaseConflictError | ConcurrentCaseUpdateError
  | DuplicateIdempotencyKeyError | DuplicateSourceMessageError => Some (ret None)
  | _ => None
  end.

Definition returning {A} (m : M database A) : M database (option A) := a <- m; ret (Some a).

Definition record_handoff (s : AccessScope) (t : CaseTrigger) (d : HandoffDecision) :
    M database CaseServiceResult :=
  lift (raise_if (bool_decide (customer_id s = None))
          (ValueError "only customers may create support cases"));,
  if negb (hd_should_create_case d) then service_result ca_not_created None None
  else match hd_case_type d, hd_priority d with
  | Some case_type, Some _ =>
      for_attempts max_write_attempts
        (duplicate <- find_by_source_message s (tr_thread_id t) (tr_source_message_id t);
         match duplicate with
         | Some c => returning (service_result ca_duplicate_ignored (Some c) None)
         | None =>
             existing <- find_unresolved_case s (tr_thread_id t) case_type (tr_order_id t);
             try_except
               (returning (match existing with
                           | None => create_case s t d
                           | Some c => append_trigger s c t d None
                           end))
               handoff_conflict
         end)
        (raise ConcurrentCaseUpdateError)
  | _, _ => raise (ValueError "A positive handoff decision must be complete")
  end.

Definition record_delivery_investigation (s : AccessScope) (t : CaseTrigger)
    (d : HandoffDecision) (issue_type : DeliveryIssueType) (connection_id : string) :
    M database CaseServiceResult :=
  lift (raise_if (bool_decide (customer_id s = None))
          (ValueError "only customers may create support cases"));,
  lift (raise_if (negb (hd_should_create_case d)
                  || bool_decide (hd_case_type d ≠ Some ct_delivery_investigation)
                  || bool_decide (hd_priority d = None))
          (ValueError "a delivery-investigation handoff decision is required"));,
  let normalized_connection_id := strip connection_id in
  lift (raise_if (negb (nonempty normalized_connection_id))
          (ValueError "connection_id must not be empty"));,
  for_attempts max_write_attempts
    (duplicate <- find_by_source_message s (tr_thread_id t) (tr_source_message_id t);
     match duplicate with
     | Some c => returning (service_result ca_duplicate_ignored (Some c) None)
     | None =>
         existing <- find_unresolved_case s (tr_thread_id t) ct_delivery_investigation
                       (tr_order_id t);
         try_except
           (returning (match existing with
                       | Some c => append_trigger s c t d
                                     (Some (issue_type, normalized_connection_id))
                       | None => create_delivery_case_with_command s t d issue_type
                                   normalized_connection_id
                       end))
           handoff_conflict
     end)
    (raise ConcurrentCaseUpdateError).

(** The handler shared by [change_status] and [assign_case]: a duplicate key is answered
    from the recorded event when it can be read, a version conflict is retried. *)
Definition replay_conflict (s : AccessScope) (key : string) (e : exn) :
    option (M database (option CaseServiceResult)) :=
  match e with
  | DuplicateIdempotencyKeyError => Some (
      duplicate_event <- find_event_by_idempotency_key s key;
      match duplicate_event with
      | None => ret None
      | Some ev =>
          duplicate_case <- get_case s (ev_case_id ev);
          match duplicate_case with
          | None => ret None
          | Some c => returning (service_result ca_status_unchanged (Some c) None)
          end
      end)
  | ConcurrentCaseUpdateError => Some (ret None)
  | _ => None
  end.

(** [previous_event is not None]: answer from the recorded event. *)
Definition replay_previous (s : AccessScope) (ev : SupportCaseEvent) : M database CaseServiceResult :=
  previous_case <- get_case s (ev_case_id ev);
  match previous_case with
  | None => raise CaseNotFoundError
  | Some c => service_result ca_status_unchanged (Some c) None
  end.

Definition change_status (s : AccessScope) (case_id : uuid) (target_status : CaseStatus)
    (request_id : string) (on_hold_reason : option OnHoldReason) : M database CaseServiceResult :=
  lift (require_case_update s);,
  let request_id := strip request_id in
  lift (raise_if (negb (nonempty request_id)) (ValueError "request_id must not be empty"));,
  actor <- lift (identity s);
  let key := status_idempotency_key case_id request_id in
  previous_event <- find_event_by_idempotency_key s key;
  match previous_event with
  | Some ev => replay_previous s ev
  | None =>
      for_attempts max_write_attempts
        (current <- get_case s case_id;
         match current with
         | None => raise CaseNotFoundError
         | Some current =>
             lift (validate_case_status_transition (c_status current) target_status);,
             if bool_decide (c_status current = target_status) then
               returning (service_result ca_status_unchanged (Some current) None)
             else
               lift (validate_on_hold_request target_status on_hold_reason);,
               at_ <- now;
               updated <- lift (SupportCase_validate
                            (with_status current target_status on_hold_reason at_));
               event_id <- new_id;
               event <- lift (SupportCaseEvent_validate
                          (status_event event_id key current target_status on_hold_reason
                             actor at_));
               try_except
                 (update_case_with_event s updated event (c_version current);,
                  returning (service_result ca_status_changed (Some updated) (Some event)))
                 (replay_conflict s key)
         end)
        (raise ConcurrentCaseUpdateError)
  end.

(** [_require_assignment_target] *)
Definition require_assignment_target (tenant_id agent_id : string) : res unit :=
  match identity_directory with
  | None => Err DirectoryInfrastructureUnavailableError
  | Some find_user =>
      let* user := find_user tenant_id agent_id in
      match user with
      | None => Err AssignmentTargetUnavailableError
      | Some u =>
          raise_if (bool_decide (du_tenant_id u ≠ tenant_id) || bool_decide (du_user_id u ≠ agent_id)
                    || negb (du_active u)
                    || bool_decide (du_roles u ∩ {[support_agent; supervisor]} = ∅))
            AssignmentTargetUnavailableError
      end
  end.

Definition assign_case (s : AccessScope) (case_id : uuid) (agent_id request_id : string) :
    M database CaseServiceResult :=
  lift (raise_if (negb (has_permission s cases_assign))
          (ForbiddenError "the caller cannot assign support cases"));,
  agent_id <- lift (validate_agent_id agent_id);
  let request_id := strip request_id in
  lift (raise_if (negb (nonempty request_id)) (ValueError "request_id must not be empty"));,
  actor <- lift (identity s);
  let key := assign_idempotency_key case_id request_id in
  previous_event <- find_event_by_idempotency_key s key;
  match previous_event with
  | Some ev => replay_previous s ev
  | None =>
      present <- get_case s case_id;
      match present with
      | None => raise CaseNotFoundError
      | Some _ =>
          lift (require_assignment_target (sc_tenant_id s) agent_id);,
          for_attempts max_write_attempts
            (current <- get_case s case_id;
             match current with
             | None => raise CaseNotFoundError
             | Some current =>
                 if bool_decide (c_assigned_agent_id current = Some agent_id) then
                   returning (service_result ca_status_unchanged (Some current) None)
                 else
                   at_ <- now;
                   updated <- lift (SupportCase_validate (with_agent current agent_id at_));
                   event_id <- new_id;
                   event <- lift (SupportCaseEvent_validate
                              (assigned_event event_id key current agent_id actor at_));
                   try_except
                     (update_case_with_event s updated event (c_version current);,
                      returning (service_result ca_assigned (Some updated) (Some event)))
                     (replay_conflict s key)
             end)
            (raise ConcurrentCaseUpdateError)
      end
  end.
End Service.
