(* ===== verification/CaseSafety.v ===== *)
(** What the case service guarantees while other workers commit between any two of its
    database round trips: the shape of every commit it makes, the truth of its audit
    events, optimistic locking without lost updates, tenant isolation. *)
From S2P Require Import Prelude Effects Auth OperationModels CaseModels CasePolicy Envelope Database CaseRepository CaseService.

(** * Rows as the application reads them *)

(** A row the model classes accept unchanged. *)
Definition case_normal (c : SupportCase) : Prop := SupportCase_validate c = Ok c.
Definition event_normal (e : SupportCaseEvent) : Prop := SupportCaseEvent_validate e = Ok e.

Record case_db_ok (d : database) : Prop := {
  cdb_schema : schema_ok d;
  cdb_cases : ∀ i c, support_cases d !! i = Some c → case_normal c;
  cdb_events : ∀ e, e ∈ support_case_events d → event_normal e;
}.

Lemma SupportCase_strip_idem c : SupportCase_strip (SupportCase_strip c) = SupportCase_strip c.
Proof.
  unfold SupportCase_strip; cbn. rewrite !strip_idem.
  by destruct (c_order_id c), (c_assigned_agent_id c); cbn; rewrite ?strip_idem.
Qed.

Lemma SupportCase_validate_ok c c' :
  SupportCase_validate c = Ok c' ↔
  c' = SupportCase_strip c ∧ SupportCase_fields_ok c' = true ∧
  validate_lifecycle_fields c' = Ok tt.
Proof.
  unfold SupportCase_validate. cbv zeta. split.
  - intros H. inv_ok. bools. by destruct x0.
  - intros (-> & Hf & Hl). by rewrite Hf; cbn [negb raise_if res_bind]; rewrite Hl.
Qed.

Lemma SupportCase_validate_normal c c' : SupportCase_validate c = Ok c' → case_normal c'.
Proof.
  unfold case_normal. rewrite !SupportCase_validate_ok. intros (-> & ? & ?).
  by rewrite SupportCase_strip_idem.
Qed.

Lemma case_normal_strip c : case_normal c → SupportCase_strip c = c.
Proof. unfold case_normal. rewrite SupportCase_validate_ok. naive_solver. Qed.

Lemma SupportCaseEvent_strip_idem e :
  SupportCaseEvent_strip (SupportCaseEvent_strip e) = SupportCaseEvent_strip e.
Proof.
  unfold SupportCaseEvent_strip; cbn. rewrite !strip_idem.
  f_equal; repeat match goal with |- context [strip <$> (strip <$> ?o)] =>
    rewrite <- option_fmap_compose; destruct o; cbn; rewrite ?strip_idem end; done.
Qed.

Lemma SupportCaseEvent_validate_ok e e' :
  SupportCaseEvent_validate e = Ok e' ↔
  e' = SupportCaseEvent_strip e ∧ SupportCaseEvent_fields_ok e' = true ∧
  validate_event_fields e' = Ok tt.
Proof.
  unfold SupportCaseEvent_validate. cbv zeta. split.
  - intros H. inv_ok. bools. by destruct x0.
  - intros (-> & Hf & Hl). by rewrite Hf; cbn [negb raise_if res_bind]; rewrite Hl.
Qed.

Lemma SupportCaseEvent_validate_normal e e' : SupportCaseEvent_validate e = Ok e' → event_normal e'.
Proof.
  unfold event_normal. rewrite !SupportCaseEvent_validate_ok. intros (-> & ? & ?).
  by rewrite SupportCaseEvent_strip_idem.
Qed.

(** * How a case row may evolve *)

(** The columns no statement rewrites. *)
Definition same_identity (o c : SupportCase) : Prop :=
  c_case_id o = c_case_id c ∧ c_thread_id o = c_thread_id c ∧
  c_source_message_id o = c_source_message_id c ∧ c_case_type o = c_case_type c ∧
  c_excerpt o = c_excerpt c ∧ c_created_at o = c_created_at c ∧
  c_customer_id o = c_customer_id c ∧ c_tenant_id o = c_tenant_id c ∧
  c_created_by o = c_created_by c.

#[export] Instance same_identity_preorder : PreOrder same_identity.
Proof. split; unfold same_identity; [done|]. intros x y z ? ?. destruct_and!. split_and!; congruence. Qed.

Lemma updated_case_row_same o c : same_identity o c → updated_case_row o c = c.
Proof.
  unfold updated_case_row. intros (-> & -> & -> & -> & -> & -> & -> & -> & ->). by destruct c.
Qed.

(** Rows are never deleted, keep their identity, and any rewrite raises the version:
    the discipline that makes the optimistic lock sound. *)
Definition cases_evolve : database → database → Prop :=
  evolve support_cases c_version same_identity.

(** The commits of the other workers. *)
Definition others_ok (amb : Ambient database) : Prop :=
  ∀ n d, case_db_ok d → case_db_ok (interfere amb n d) ∧ cases_evolve d (interfere amb n d).

(** A case that has been read: its row is still that one, or has moved on. *)
Definition case_seen : SupportCase → database → Prop :=
  seen support_cases c_case_id c_version same_identity case_db_ok.

Lemma rely_case_db amb : others_ok amb → rely amb case_db_ok.
Proof. intros H n d Hd. by apply H. Qed.

Lemma rely_case_seen amb c : others_ok amb → rely amb (case_seen c).
Proof. apply rely_seen, _. Qed.

Lemma case_seen_read d i c : case_db_ok d → support_cases d !! i = Some c → case_seen c d.
Proof.
  intros Hd Hc. apply seen_read; [apply _|done|].
  by rewrite (so_case_id d (cdb_schema d Hd) i c Hc).
Qed.

(** The row is still the one read when the version is. *)
Lemma case_seen_same_version c d o :
  case_seen c d → support_cases d !! c_case_id c = Some o → c_version o = c_version c → o = c.
Proof. apply seen_same_version. Qed.

(** * The commits of the case service *)

(** The outbox either stays as it is or gains one pending command for the case. *)
Definition outbox_unchanged_or_command (c : SupportCase) (d d' : database) : Prop :=
  outbox_messages d' = outbox_messages d ∨
  ∃ m, outbox_messages d !! om_command_id m = None ∧
       outbox_messages d' = <[om_command_id m := m]> (outbox_messages d) ∧
       om_status m = ob_pending ∧ om_aggregate_type m = ag_support_case ∧
       om_aggregate_id m = c_case_id c ∧ om_tenant_id m = c_tenant_id c.

(** One commit: the case [c] replaces the row [old] (none for a creation), and the
    event [e] about it is appended. *)
Record case_committed (s : AccessScope) (old : option SupportCase) (c : SupportCase)
    (e : SupportCaseEvent) (d d' : database) : Prop := {
  cc_before : support_cases d !! c_case_id c = old;
  cc_rows : support_cases d' = <[c_case_id c := c]> (support_cases d);
  cc_events : support_case_events d' = support_case_events d ++ [e];
  cc_event : ev_case_id e = c_case_id c ∧ ev_tenant_id e = c_tenant_id c;
  cc_tenant : c_tenant_id c = sc_tenant_id s;
  cc_version : c_version c = match old with Some o => c_version o + 1 | None => 1 end;
  cc_identity : ∀ o, old = Some o → same_identity o c;
  cc_operations : order_operations d' = order_operations d ∧
                  order_operation_events d' = order_operation_events d;
  cc_outbox : outbox_unchanged_or_command c d d';
  cc_ok : case_db_ok d';
}.

Lemma case_committed_evolves s old c e d d' : case_committed s old c e d d' → cases_evolve d d'.
Proof.
  intros [Hb Hr _ _ _ Hv Hid _ _ _]. eapply evolve_insert; [apply _|done..|].
  intros o ->. split; [by apply Hid|lia].
Qed.

(** Only the caller's tenant is touched. *)
Lemma case_committed_tenant s old c e d d' i x :
  case_committed s old c e d d' → support_cases d !! i = Some x →
  c_tenant_id x ≠ sc_tenant_id s → support_cases d' !! i = Some x.
Proof.
  intros [Hb Hr _ _ Ht _ Hid _ _ _] Hx Hne. rewrite Hr, lookup_insert_ne; [done|].
  intros <-. rewrite Hx in Hb. subst old.
  destruct (Hid x eq_refl) as (_ & _ & _ & _ & _ & _ & _ & Htx & _). congruence.
Qed.

(** * Reads *)

(** The caller's scope shows it the row. *)
Definition may_see (s : AccessScope) (c : SupportCase) : Prop :=
  ∃ visible, case_visibility s = Ok visible ∧ visible (case_owner c) = true.

Lemma may_see_tenant s c : may_see s c → c_tenant_id c = sc_tenant_id s.
Proof. intros (p & Hp & Hc). by apply (case_visibility_tenant s p (case_owner c)). Qed.

Lemma may_see_canonical s c : canonical s → may_see s c → sees_case s (case_owner c).
Proof.
  intros Hs (p & Hp & Hc). destruct (case_visibility_canonical s Hs) as (q & Hq & Hqo).
  rewrite Hp in Hq. injection Hq as <-. by apply Hqo.
Qed.

(** A read returns rows as stored and commits nothing. *)
Lemma case_from_row_normal d visible i r :
  case_db_ok d → case_from_row (visible_case visible d i) = Ok r →
  r = visible_case visible d i.
Proof.
  intros Hd. unfold visible_case. destruct (support_cases d !! i) as [c|] eqn:E; cbn; [|congruence].
  destruct (visible (case_owner c)); cbn; [|congruence].
  pose proof (cdb_cases d Hd i c E) as Hc. unfold case_normal in Hc. rewrite Hc. cbn. congruence.
Qed.

(** Selecting one case: what follows runs knowing that the row can only move on. *)
Lemma runs_select_case_bind {B} amb (sel : database → option SupportCase)
    (P : SupportCase → Prop) (k : option SupportCase → M database B) Q :
  others_ok amb →
  (∀ e, Q (Err e) []) →
  (∀ d c, case_db_ok d → sel d = Some c → (∃ i, support_cases d !! i = Some c) ∧ P c) →
  runs amb case_db_ok (k None) Q →
  (∀ c, case_normal c → P c → runs amb (case_seen c) (k (Some c)) Q) →
  runs amb case_db_ok
    (bind (query CasePersistenceError (λ d, case_from_row (sel d))) k) Q.
Proof.
  intros Hamb He Hsel Hn Hs.
  eapply runs_query_bind with (J := λ o d, match o with
      | None => case_db_ok d
      | Some c => case_seen c d ∧ case_normal c ∧ P c
      end); [by apply rely_case_db|done|done|..].
  - intros d a Hd. destruct (sel d) as [c|] eqn:E; cbn; [|by intros [= <-]].
    destruct (Hsel d c Hd E) as [[i Hi] HP]. pose proof (cdb_cases d Hd i c Hi) as Hc.
    unfold case_normal in Hc. rewrite Hc. cbn. intros [= <-].
    split_and!; [by eapply case_seen_read|done..].
  - intros [c|] d; [by intros [[? _] _]|done].
  - intros [c|] [d Hd]; [|done]. destruct Hd as (_ & Hc & HP).
    intros w r w' (Hw & _) Hr. by destruct (Hs c Hc HP w r w' Hw Hr) as (? & ?).
Qed.

(** A successful [lift] disappears from a sequence. *)
Lemma runs_bind_lift_bind {A B C} amb (I : database → Prop) (x : res A) (m : A → M database B)
    (k : B → M database C) Q :
  (∀ e, x = Err e → Q (Err e) []) → (∀ a, x = Ok a → runs amb I (bind (m a) k) Q) →
  runs amb I (bind (bind (lift x) m) k) Q.
Proof.
  intros He Hk. destruct x as [a|e].
  - by apply (Hk a).
  - intros w r w' Hw [= <- <-]. split; [done|]. exists []. rewrite app_nil_r. auto.
Qed.

Lemma runs_get_case_bind {B} amb s i (k : option SupportCase → M database B) Q :
  others_ok amb →
  (∀ e, Q (Err e) []) →
  runs amb case_db_ok (k None) Q →
  (∀ c, c_case_id c = i → case_normal c → may_see s c →
        runs amb (case_seen c) (k (Some c)) Q) →
  runs amb case_db_ok (bind (get_case s i) k) Q.
Proof.
  intros Hamb He Hn Hs. unfold get_case. apply runs_bind_lift_bind; [auto|]. intros visible Hv.
  eapply runs_select_case_bind with (P := λ c, c_case_id c = i ∧ may_see s c); [done..| |done|].
  - intros d c Hd. unfold visible_case. destruct (support_cases d !! i) as [c'|] eqn:E; [|done].
    destruct (visible (case_owner c')) eqn:Hvis; [|done]. intros [= <-].
    split_and!; [by exists i| |by exists visible]. by eapply so_case_id, E; apply cdb_schema.
  - intros c Hc [Hi Hsee]. by apply Hs.
Qed.

(** * Writes *)

Lemma case_errors_ok {A} e (r : pg A) a : case_errors e r = Ok a ↔ r = PgOk a.
Proof. destruct r as [|[]]; cbn; naive_solver. Qed.

Lemma case_errors_err {A} e (r : pg A) x :
  case_errors e r = Err x →
  x ∈ [ActiveCaseConflictError; DuplicateSourceMessageError; DuplicateIdempotencyKeyError;
       CasePersistenceError].
Proof.
  destruct r as [|[k|]]; cbn; [done|..]; [|intros [= <-]; set_solver].
  unfold raise_unique_violation. intros [= <-]. repeat case_match; set_solver.
Qed.

(** The effect of inserting an event, on the rows the theorems speak about. *)
Lemma insert_case_event_effect e d d' :
  insert_case_event e d = PgOk d' → d' = set_support_case_events (support_case_events d ++ [e]) d.
Proof. unfold insert_case_event. intros H. by inv_pg. Qed.

Lemma put_support_case_effect c d d' :
  put_support_case c d = PgOk d' →
  d' = set_support_cases (<[c_case_id c := c]> (support_cases d)) d.
Proof. unfold put_support_case. intros H. by inv_pg. Qed.

Lemma insert_support_case_effect c d d' :
  insert_support_case c d = PgOk d' →
  support_cases d !! c_case_id c = None ∧
  d' = set_support_cases (<[c_case_id c := c]> (support_cases d)) d.
Proof. unfold insert_support_case. intros H. inv_pg. by bools. Qed.

(** Storing rows the model classes accept keeps the table readable. *)
Lemma case_db_ok_commit d c e d' :
  case_db_ok d → schema_ok d' → case_normal c → event_normal e →
  support_cases d' = <[c_case_id c := c]> (support_cases d) →
  support_case_events d' = support_case_events d ++ [e] →
  case_db_ok d'.
Proof.
  intros [_ Hc He] Hs Hn Hen Hrows Hev. split; [done|..].
  - rewrite Hrows. by apply (insert_rows (λ _ x, case_normal x)).
  - rewrite Hev. intros x [Hx|Hx]%elem_of_app; [auto|].
    apply list_elem_of_singleton in Hx as ->. done.
Qed.

(** What an optimistic update of the row [old] may end with: one commit that replaces
    it, no commit, or a lost acknowledgement (the only ambiguous ending). *)
Definition commit_ending {A} (P : database → database → Prop) (r : res A)
    (cs : list (database * database)) : Prop :=
  match r with
  | Ok _ => ∃ d d', cs = [(d, d')] ∧ P d d'
  | Err e => cs = [] ∨ e = CasePersistenceError ∧ ∃ d d', cs = [(d, d')] ∧ P d d'
  end.

Lemma update_case_row_seen s visible old new d r :
  case_visibility s = Ok visible → case_seen old d → same_identity old new →
  update_case_row visible new (c_version old) d = Some r →
  support_cases d !! c_case_id new = Some old ∧ may_see s old ∧ r = put_support_case new d.
Proof.
  intros Hv Hseen Hid. unfold update_case_row, visible_case.
  assert (c_case_id old = c_case_id new) as Hi by apply Hid. rewrite <- Hi.
  destruct (support_cases d !! c_case_id old) as [o|] eqn:E; [|done].
  destruct (visible (case_owner o)) eqn:Hvis; [|done].
  case_bool_decide as Hver; [|done]. intros [= <-].
  rewrite (case_seen_same_version _ _ _ Hseen E Hver) in *.
  rewrite updated_case_row_same by done. split_and!; [done|by exists visible|done].
Qed.

(** The facts an update of [old] to [new] with audit event [e] needs. *)
Record update_of (old new : SupportCase) (e : SupportCaseEvent) : Prop := {
  uo_identity : same_identity old new;
  uo_version : c_version new = c_version old + 1;
  uo_new : case_normal new;
  uo_event : event_normal e;
  uo_about : ev_case_id e = c_case_id new ∧ ev_tenant_id e = c_tenant_id new;
}.

Definition update_committed (s : AccessScope) (old new : SupportCase) (e : SupportCaseEvent)
    (d d' : database) : Prop :=
  case_committed s (Some old) new e d d' ∧ may_see s old.

Lemma validate_case_ownership_tenant s c u :
  validate_case_ownership s c = Ok u → c_tenant_id c = sc_tenant_id s.
Proof. unfold validate_case_ownership. intros H. inv_ok. bools. by apply dec_stable. Qed.

Lemma case_seen_committed s old new e d d' :
  case_committed s (Some old) new e d d' → case_seen old d'.
Proof.
  intros [_ Hr _ _ _ Hv Hid _ _ Hd']. specialize (Hid old eq_refl).
  assert (c_case_id old = c_case_id new) as Hi by apply Hid. rewrite <- Hi in Hr.
  eapply seen_insert; [done..|lia].
Qed.

(** The case and event statements of a transaction that replaces [old]. *)
Lemma update_statements s old new e d d1 :
  update_of old new e → case_seen old d → support_cases d !! c_case_id new = Some old →
  c_tenant_id new = sc_tenant_id s →
  pg_bind (put_support_case new d) (insert_case_event e) = PgOk d1 →
  case_committed s (Some old) new e d d1 ∧ outbox_messages d1 = outbox_messages d.
Proof.
  intros [Hid Hver Hn He Habout] Hd Hold Ht H. inv_pg.
  pose proof (put_support_case_effect _ _ _ H0) as E1.
  pose proof (insert_case_event_effect _ _ _ H) as E2.
  assert (schema_ok d1) as Hs by (destruct Hd as [[] _]; eauto with schema).
  assert (case_db_ok d1) by (eapply case_db_ok_commit; [apply Hd|..]; try done; by subst).
  split; [|by subst]. subst. split; cbn; try done; [naive_solver|by left].
Qed.

Lemma commit_ending_intro {A} (P : database → database → Prop) (a : A) d d' :
  P d d' → commit_ending P (Ok a) [(d, d')] ∧
           commit_ending (A := A) P (Err CasePersistenceError) [(d, d')].
Proof. cbn. eauto 10. Qed.

Lemma update_case_with_event_runs amb s old new e :
  others_ok amb → update_of old new e →
  runs amb (case_seen old) (update_case_with_event s new e (c_version old))
    (commit_ending (update_committed s old new e)).
Proof.
  intros Hamb Hup. unfold update_case_with_event.
  apply runs_lift_bind; [by left|]. intros _ _.
  apply runs_lift_bind; [by left|]. intros u Hown. apply validate_case_ownership_tenant in Hown.
  apply runs_lift_bind; [by left|]. intros _ _.
  apply runs_lift_bind; [by left|]. intros visible Hv.
  apply runs_transact; [by apply rely_case_seen| |by left|by left].
  intros d [] d' Hd Hf.
  destruct (update_case_row visible new (c_version old) d) as [r|] eqn:Hu; [|done].
  eapply update_case_row_seen in Hu as (Hold & Hmay & ->); [|done..|apply Hup].
  inv_ok. apply case_errors_ok in H.
  eapply update_statements in H as [Hc _]; [|done..].
  split; [by eapply case_seen_committed|]. by apply commit_ending_intro.
Qed.

(** A command for the case, as the service builds it. *)
Definition command_for (c : SupportCase) (command : ProviderCommandEnvelope) : Prop :=
  ProviderCommandEnvelope_validate command = Ok command ∧
  e_aggregate_type command = ag_support_case ∧ e_aggregate_id command = c_case_id c ∧
  e_tenant_id command = c_tenant_id c.

Lemma association_command_for c e command u :
  ProviderCommandEnvelope_validate command = Ok command →
  validate_case_command_association c e command = Ok u → command_for c command.
Proof.
  intros Hn. unfold validate_case_command_association, revalidate_command_envelope.
  rewrite Hn. cbn [res_bind]. intros H. inv_ok. bools.
  by split_and!; try apply dec_stable.
Qed.

Lemma insert_outbox_message_effect command status at_ now d d' :
  insert_outbox_message command status at_ now d = PgOk d' →
  let row := outbox_row command status at_ now cap_order_operation in
  outbox_messages d !! e_command_id command = None ∧
  d' = set_outbox_messages (<[e_command_id command := row]> (outbox_messages d)) d.
Proof. unfold insert_outbox_message. intros H. inv_pg. by bools. Qed.

Definition command_stored (command : ProviderCommandEnvelope) (d : database) : Prop :=
  ∃ at_, outbox_messages d !! e_command_id command =
           Some (outbox_row command ob_pending at_ at_ cap_order_operation).

(** Queueing the command in the same transaction keeps the commit's shape. *)
Lemma queue_statement s old c e command at_ d d1 d2 :
  command_for c command → case_committed s old c e d d1 → outbox_messages d1 = outbox_messages d →
  insert_outbox_message command ob_pending at_ at_ d1 = PgOk d2 →
  case_committed s old c e d d2.
Proof.
  intros (Hn & Hty & Hag & Hten) [] Hsame H.
  assert (schema_ok d2) as Hs by (eapply insert_outbox_message_ok, H; apply cc_ok0).
  apply insert_outbox_message_effect in H as [Hfree ->]. rewrite Hsame in Hfree.
  split; cbn; try done.
  - right. exists (outbox_row command ob_pending at_ at_ cap_order_operation).
    split_and!; [done|by rewrite <- Hsame|done..].
  - destruct cc_ok0. by split.
Qed.

(** The facts a creation of [new] with audit event [e] needs. *)
Record creation_of (new : SupportCase) (e : SupportCaseEvent) : Prop := {
  co_version : c_version new = 1;
  co_new : case_normal new;
  co_event : event_normal e;
  co_about : ev_case_id e = c_case_id new ∧ ev_tenant_id e = c_tenant_id new;
}.

Lemma create_statements s new e d d1 :
  creation_of new e → case_db_ok d → c_tenant_id new = sc_tenant_id s →
  pg_bind (insert_support_case new d) (insert_case_event e) = PgOk d1 →
  case_committed s None new e d d1 ∧ outbox_messages d1 = outbox_messages d.
Proof.
  intros [Hver Hn He Habout] Hd Ht H. inv_pg.
  pose proof (insert_support_case_effect _ _ _ H0) as [Hnew E1].
  pose proof (insert_case_event_effect _ _ _ H) as E2.
  assert (schema_ok d1) as Hs by (destruct Hd; eauto with schema).
  assert (case_db_ok d1) by (eapply case_db_ok_commit; [apply Hd|..]; try done; by subst).
  split; [|by subst]. subst. split; cbn; try done. by left.
Qed.

Lemma create_case_with_event_runs amb s new e :
  others_ok amb → creation_of new e →
  runs amb case_db_ok (create_case_with_event s new e)
    (commit_ending (case_committed s None new e)).
Proof.
  intros Hamb Hcr. unfold create_case_with_event.
  apply runs_lift_bind; [by left|]. intros u Hown. apply validate_case_ownership_tenant in Hown.
  apply runs_lift_bind; [by left|]. intros _ _.
  apply runs_transact; [by apply rely_case_db| |by left|by left].
  intros d [] d' Hd Hf. inv_ok. apply case_errors_ok in H.
  eapply create_statements in H as [Hc _]; [|done..].
  split; [apply Hc|]. by apply commit_ending_intro.
Qed.

Lemma create_case_with_event_and_command_runs amb s new e command :
  others_ok amb → creation_of new e → ProviderCommandEnvelope_validate command = Ok command →
  runs amb case_db_ok (create_case_with_event_and_command s new e command)
    (commit_ending (λ d d', case_committed s None new e d d' ∧ command_stored command d')).
Proof.
  intros Hamb Hcr Hcmd. unfold create_case_with_event_and_command.
  apply runs_lift_bind; [by left|]. intros ? Has.
  apply runs_lift_bind; [by left|]. intros u Hown. apply validate_case_ownership_tenant in Hown.
  apply runs_lift_bind; [by left|]. intros _ _.
  apply runs_transact; [by apply rely_case_db| |by left|by left].
  intros d [] d' Hd Hf. inv_ok. apply case_errors_ok, pg_bind_ok in H as (d1 & H1 & H).
  apply association_command_for in Has; [|done].
  eapply create_statements in H1 as [Hc Hsame]; [|done..].
  pose proof (insert_outbox_message_effect _ _ _ _ _ _ H) as [_ Hq].
  eapply queue_statement in H as Hc'; [|done..].
  split; [apply Hc'|]. apply commit_ending_intro. split; [done|].
  eexists. subst. apply lookup_insert_eq.
Qed.

(** After an ensured command, the outbox holds a command for the case. *)
Definition case_has_command (c : SupportCase) (d : database) : Prop :=
  ∃ i m, outbox_messages d !! i = Some m ∧ om_aggregate_type m = ag_support_case ∧
         om_aggregate_id m = c_case_id c.

Lemma has_case_command_true d i :
  has_case_command d i = true ↔
  ∃ k m, outbox_messages d !! k = Some m ∧ om_aggregate_type m = ag_support_case ∧
         om_aggregate_id m = i.
Proof.
  unfold has_case_command, rows. rewrite existsb_exists. split.
  - intros (m & Hm & Hb). bools. apply N.eqb_eq in H0. rewrite <- list_elem_of_In, list_elem_of_fmap in Hm.
    destruct Hm as ([k m'] & -> & Hk%elem_of_map_to_list). eauto.
  - intros (k & m & Hk & Hty & <-). exists m. rewrite <- list_elem_of_In, list_elem_of_fmap. split.
    + exists (k, m). split; [done|]. by apply elem_of_map_to_list.
    + by rewrite bool_decide_eq_true_2, N.eqb_refl.
Qed.

Lemma append_delivery_trigger_runs amb s old new e command :
  others_ok amb → update_of old new e → ProviderCommandEnvelope_validate command = Ok command →
  runs amb (case_seen old)
    (append_delivery_trigger_and_ensure_command s new e command (c_version old))
    (commit_ending (λ d d', update_committed s old new e d d' ∧ case_has_command new d')).
Proof.
  intros Hamb Hup Hcmd. unfold append_delivery_trigger_and_ensure_command.
  apply runs_lift_bind; [by left|]. intros _ _.
  apply runs_lift_bind; [by left|]. intros ? Has. apply association_command_for in Has; [|done].
  apply runs_lift_bind; [by left|]. intros u Hown. apply validate_case_ownership_tenant in Hown.
  apply runs_lift_bind; [by left|]. intros _ _.
  apply runs_lift_bind; [by left|]. intros visible Hv.
  apply runs_transact; [by apply rely_case_seen| |by left|by left].
  intros d b d' Hd Hf.
  destruct (update_case_row visible new (c_version old) d) as [r|] eqn:Hu; [|done].
  eapply update_case_row_seen in Hu as (Hold & Hmay & ->); [|done..|apply Hup].
  apply res_bind_ok in Hf as (d1 & H%case_errors_ok & Hf).
  eapply update_statements in H as [Hc Hsame]; [|done..].
  assert (case_committed s (Some old) new e d d' ∧ case_has_command new d') as [Hc' Hcom].
  { destruct (has_case_command d1 (c_case_id new)) eqn:Hhas; inv_ok.
    - split; [done|]. by apply has_case_command_true.
    - apply case_errors_ok in H. pose proof (insert_outbox_message_effect _ _ _ _ _ _ H) as [_ Hq].
      eapply queue_statement in H; [|done..]. split; [done|].
      destruct Has as (_ & ? & ? & _). eexists _, _. subst. split; [apply lookup_insert_eq|done]. }
  split; [by eapply case_seen_committed|]. by apply commit_ending_intro.
Qed.
