(* ===== verification/CaseTheorems.v ===== *)
(** The guarantees of the case service: every status change, assignment and handoff is
    one audited commit on the row that was read, whatever other workers commit in
    between. *)
From S2P Require Import Prelude Effects Auth OperationModels CaseModels CasePolicy Envelope Database CaseRepository CaseService CaseSafety.

(** * Endings of a service call *)

(** A call that answers from what is stored. *)
Definition answered (s : AccessScope) (action : CaseServiceAction) (r : CaseServiceResult) : Prop :=
  cres_action r = action ∧ cres_event r = None ∧ ∃ c, cres_case r = Some c ∧ may_see s c.

(** A call that replaces one row: exactly one commit, of a row the caller may see, with
    its audit event, both of which are returned; or an answer without a commit; or an
    error without a commit, except for a lost acknowledgement. *)
Definition audited (s : AccessScope) (step : SupportCase → SupportCase → SupportCaseEvent → Prop)
    (action : CaseServiceAction) (r : res CaseServiceResult) (cs : list (database * database)) :
    Prop :=
  match r with
  | Ok res =>
      (cres_action res = action ∧ ∃ old new ev d d', cs = [(d, d')] ∧
         cres_case res = Some new ∧ cres_event res = Some ev ∧
         update_committed s old new ev d d' ∧ step old new ev)
      ∨ (answered s ca_status_unchanged res ∧ cs = [])
  | Err e =>
      cs = [] ∨ (e = CasePersistenceError ∧ ∃ old new ev d d', cs = [(d, d')] ∧
                   update_committed s old new ev d d' ∧ step old new ev)
  end.

(** One round of the retry loop: [None] goes round again, with nothing committed. *)
Definition round {A} (Q : res A → list (database * database) → Prop) (r : res (option A))
    (cs : list (database * database)) : Prop :=
  match r with
  | Ok (Some a) => Q (Ok a) cs
  | Ok None => cs = []
  | Err e => Q (Err e) cs
  end.

(** * Reads *)

Section Reads.
Context (amb : Ambient database) (I : database → Prop).
Context (Hrely : rely amb I) (HI : ∀ d, I d → case_db_ok d).

Lemma runs_get_case s i :
  runs amb I (get_case s i) (λ r cs, cs = [] ∧
    ∀ c, r = Ok (Some c) → may_see s c ∧ c_case_id c = i ∧ case_normal c).
Proof.
  unfold get_case. apply runs_lift_bind; [done|]. intros visible Hv.
  apply runs_query; [done| |done]. intros d Hd. split; [done|]. intros c Hc.
  apply case_from_row_normal in Hc; [|auto]. unfold visible_case in Hc.
  destruct (support_cases d !! i) as [c'|] eqn:E; [|done].
  destruct (visible (case_owner c')) eqn:Hvis; [|done]. injection Hc as <-. split_and!.
  - by exists visible.
  - by eapply so_case_id, E; apply cdb_schema, HI.
  - by eapply cdb_cases; [apply HI|].
Qed.

Lemma runs_find_event s key :
  runs amb I (find_event_by_idempotency_key s key) (λ r cs, cs = []).
Proof. by apply runs_query. Qed.

Lemma runs_answer s action c :
  action ∈ [ca_duplicate_ignored; ca_status_unchanged] → may_see s c →
  runs amb I (service_result action (Some c) None)
    (λ r cs, cs = [] ∧ ∃ res, r = Ok res ∧ answered s action res).
Proof.
  intros Ha Hc. apply runs_lift. split; [done|]. unfold CaseServiceResult_validate, validate_result.
  apply elem_of_cons in Ha as [->|Ha]; [|apply list_elem_of_singleton in Ha as ->]; cbn;
    (eexists; split; [reflexivity|]; split_and!; [done..|by exists c]).
Qed.

Lemma runs_answer_round s action c (Q : res CaseServiceResult → _ → Prop) :
  action ∈ [ca_duplicate_ignored; ca_status_unchanged] → may_see s c →
  (∀ res, answered s action res → Q (Ok res) []) →
  runs amb I (returning (service_result action (Some c) None)) (round Q).
Proof.
  intros Ha Hc HQ. unfold returning. eapply runs_bind_pure with (Qa := answered s action).
  - eapply runs_weaken; [by apply runs_answer|]. cbn. naive_solver.
  - intros res Hr. apply runs_ret. cbn. auto.
Qed.

Lemma replay_previous_runs s ev :
  runs amb I (replay_previous s ev) (λ r cs, cs = [] ∧
    match r with Ok res => answered s ca_status_unchanged res | Err _ => True end).
Proof.
  unfold replay_previous.
  eapply runs_bind_pure with (Qa := λ o, ∀ c, o = Some c → may_see s c).
  - eapply runs_weaken; [apply runs_get_case|]. intros [o|e] cs [-> Ho]; split; try done.
    intros c ->. by apply Ho.
  - intros [c|] Hc; [|by apply runs_raise].
    eapply runs_weaken; [apply runs_answer; [set_solver|by apply Hc]|]. naive_solver.
Qed.

Lemma replay_conflict_runs s key e k (step : _ → _ → _ → Prop) action :
  replay_conflict s key e = Some k → runs amb I k (round (audited s step action)).
Proof.
  unfold replay_conflict. destruct e; intros [= <-]; [by apply runs_ret|].
  eapply runs_bind_pure with (Qa := λ _, True).
  - eapply runs_weaken; [apply runs_find_event|]. intros [?|?] cs ->; cbn; auto.
  - intros [ev|] _; [|by apply runs_ret].
    eapply runs_bind_pure with (Qa := λ o, ∀ c, o = Some c → may_see s c).
    + eapply runs_weaken; [apply runs_get_case|]. intros [o|x] cs [-> Ho]; split; try done.
      * intros c ->. by apply Ho.
      * by left.
    + intros [c|] Hc; [|by apply runs_ret].
      apply (runs_answer_round s ca_status_unchanged c); [set_solver|by apply Hc|].
      intros res Hres. by right.
Qed.
End Reads.

(** * The optimistic write *)

Lemma service_result_written action c e :
  action ∈ [ca_created; ca_event_appended; ca_status_changed; ca_assigned] →
  CaseServiceResult_validate (mkCaseServiceResult action (Some c) (Some e)) =
    Ok (mkCaseServiceResult action (Some c) (Some e)).
Proof. by destruct action; intros H; try (exfalso; revert H; compute_done). Qed.

(** [try: update; return result; except ...], shared by status changes and assignments. *)
Lemma audited_write_runs amb s key old new ev action (step : _ → _ → _ → Prop) :
  others_ok amb → update_of old new ev → step old new ev →
  action ∈ [ca_created; ca_event_appended; ca_status_changed; ca_assigned] →
  runs amb (case_seen old)
    (try_except (update_case_with_event s new ev (c_version old);,
                 returning (service_result action (Some new) (Some ev)))
       (replay_conflict s key))
    (round (audited s step action)).
Proof.
  intros Hamb Hup Hstep Hact.
  eapply runs_try_except with (Q1 := λ r cs, match r with
    | Ok o => round (audited s step action) (Ok o) cs
    | Err e => cs = [] ∨ e = CasePersistenceError ∧ audited s step action (Err e) cs end).
  - eapply runs_bind; [by apply update_case_with_event_runs|..].
    + intros [] cs1 (d & d' & -> & Hc). unfold returning, service_result.
      rewrite service_result_written by done.
      apply runs_lift_bind; [done|]. intros res [= <-]. apply runs_ret. cbn. left.
      split; [done|]. by exists old, new, ev, d, d'.
    + intros e cs1 [->|(-> & d & d' & -> & Hc)]; [by left|]. right. split; [done|]. right.
      split; [done|]. by exists old, new, ev, d, d'.
  - done.
  - intros e cs He. destruct (replay_conflict s key e) as [k|] eqn:Hk.
    + assert (cs = []) as -> by (destruct He as [->|(-> & _)]; [done|discriminate Hk]).
      eapply replay_conflict_runs; [by apply rely_case_seen|by intros d []|done].
    + destruct He as [->|[_ He]]; [by left|done].
Qed.

(** * Status changes *)

(** Request keys are stored as built. *)
Lemma strip_status_key i r : nonempty (strip r) = true →
  strip (status_idempotency_key i (strip r)) = status_idempotency_key i (strip r).
Proof.
  intros Hr. unfold status_idempotency_key. rewrite <- !append_assoc.
  apply strip_app; [reflexivity|apply strip_idem|by apply nonempty_true].
Qed.

Lemma strip_assign_key i r : nonempty (strip r) = true →
  strip (assign_idempotency_key i (strip r)) = assign_idempotency_key i (strip r).
Proof.
  intros Hr. unfold assign_idempotency_key. rewrite <- !append_assoc.
  apply strip_app; [reflexivity|apply strip_idem|by apply nonempty_true].
Qed.

Lemma with_status_validate c target reason t c' :
  case_normal c → SupportCase_validate (with_status c target reason t) = Ok c' →
  c' = with_status c target reason t.
Proof.
  intros Hc%case_normal_strip (-> & _)%SupportCase_validate_ok. rewrite <- Hc at 2. reflexivity.
Qed.

(** The step of the lifecycle, with its audit event. *)
Record status_changed (s : AccessScope) (case_id : uuid) (target : CaseStatus)
    (reason : option OnHoldReason) (key : string) (old new : SupportCase)
    (ev : SupportCaseEvent) : Prop := {
  sch_case : c_case_id old = case_id;
  sch_allowed : case_transition_allowed (c_status old) target = true;
  sch_row : new = with_status old target reason (c_updated_at new);
  sch_audit : ev_event_type ev = ev_status_changed ∧ ev_previous_status ev = Some (c_status old)
              ∧ ev_current_status ev = Some target ∧ ev_on_hold_reason ev = reason
              ∧ ev_created_at ev = c_updated_at new ∧ ev_idempotency_key ev = key;
  sch_actor : ∃ actor, identity s = Ok actor ∧ ev_actor ev = Some (strip actor);
}.

Lemma change_status_runs amb n s case_id target request reason :
  others_ok amb →
  runs amb case_db_ok (change_status n s case_id target request reason)
    (audited s (status_changed s case_id target reason
                  (status_idempotency_key case_id (strip request))) ca_status_changed).
Proof.
  intros Hamb. pose proof (rely_case_db amb Hamb) as Hrely. unfold change_status.
  apply runs_lift_bind; [by left|]. intros _ _.
  apply runs_lift_bind; [by left|]. intros ? Hreq%raise_if_ok%negb_false_iff.
  apply runs_lift_bind; [by left|]. intros actor Hactor.
  set (key := status_idempotency_key case_id (strip request)).
  eapply runs_bind_pure with (Qa := λ _, True).
  { eapply runs_weaken; [by apply runs_find_event|]. intros [?|?] cs ->; split; auto. by left. }
  intros [ev|] _.
  { eapply runs_weaken; [by apply replay_previous_runs|].
    intros [res|e] cs [-> Hr]; [by right|by left]. }
  apply runs_for_attempts; [|apply runs_raise; by left].
  apply runs_get_case_bind; [done|by left|apply runs_raise; by left|].
  intros old Hid Hn Hsee.
  apply runs_lift_bind; [by left|]. intros ? Htr%validate_case_status_transition_ok.
  case_bool_decide as Hsame.
  { apply (runs_answer_round amb (case_seen old) s ca_status_unchanged old); [set_solver|done|].
    intros res Hres. by right. }
  destruct Htr as [|Htr]; [done|].
  apply runs_lift_bind; [by left|]. intros _ _.
  eapply runs_bind_pure with (Qa := λ _, True); [by apply runs_now|]. intros t _.
  apply runs_lift_bind; [by left|]. intros new Hnew.
  pose proof (SupportCase_validate_normal _ _ Hnew) as Hnn.
  apply with_status_validate in Hnew as ->; [|done].
  eapply runs_bind_pure with (Qa := λ _, True); [by apply runs_new_id|]. intros u _.
  apply runs_lift_bind; [by left|]. intros ev Hev.
  pose proof (SupportCaseEvent_validate_normal _ _ Hev) as Hen.
  apply SupportCaseEvent_validate_ok in Hev as (-> & _).
  apply audited_write_runs; [done| | |set_solver].
  - split; try done. split; [done|]. cbn. by rewrite <- (case_normal_strip old Hn) at 2.
  - split; try done; [|by exists actor]. split_and!; try done. by apply strip_status_key.
Qed.

(** * Assignments *)

Lemma with_agent_validate c agent t c' :
  case_normal c → strip agent = agent → SupportCase_validate (with_agent c agent t) = Ok c' →
  c' = with_agent c agent t.
Proof.
  intros Hc%case_normal_strip Ha (-> & _)%SupportCase_validate_ok.
  rewrite <- Hc at 2. rewrite <- Ha at 2. reflexivity.
Qed.

(** The directory knows the agent as an active member of the tenant who may handle cases. *)
Definition eligible_agent (directory : option IdentityDirectory) (tenant_id agent_id : string) : Prop :=
  ∃ find_user u, directory = Some find_user ∧ find_user tenant_id agent_id = Ok (Some u) ∧
    du_tenant_id u = tenant_id ∧ du_user_id u = agent_id ∧ du_active u = true ∧
    (support_agent ∈ du_roles u ∨ supervisor ∈ du_roles u).

Lemma require_assignment_target_ok directory tenant_id agent_id u :
  require_assignment_target directory tenant_id agent_id = Ok u →
  eligible_agent directory tenant_id agent_id.
Proof.
  unfold require_assignment_target. destruct directory as [find|]; [|done].
  intros H. apply res_bind_ok in H as ([user|] & Hf & H); [|done].
  inv_ok. bools. exists find, user.
  repeat match goal with H : ¬ (_ ≠ _) |- _ => apply dec_stable in H end.
  split_and!; try done. apply set_choose_L in H0 as [r Hr]. set_solver.
Qed.

Lemma validate_agent_id_ok raw agent :
  validate_agent_id raw = Ok agent →
  agent = strip raw ∧ strip agent = agent ∧ agent ≠ "" ∧ str_len agent ≤ 128 ∧
  has_char ":" agent = false ∧ agent ∉ RESERVED_AGENT_IDS.
Proof.
  unfold validate_agent_id. intros H. inv_ok. bools. rewrite strip_idem.
  apply nonempty_true in H0. by split_and!.
Qed.

Record assigned (s : AccessScope) (directory : option IdentityDirectory) (case_id : uuid)
    (agent key : string) (old new : SupportCase) (ev : SupportCaseEvent) : Prop := {
  asg_case : c_case_id old = case_id;
  asg_target : eligible_agent directory (sc_tenant_id s) agent;
  asg_row : new = with_agent old agent (c_updated_at new);
  asg_changed : c_assigned_agent_id old ≠ Some agent;
  asg_audit : ev_event_type ev = ev_assigned
              ∧ ev_previous_assigned_agent_id ev = c_assigned_agent_id old
              ∧ ev_current_assigned_agent_id ev = Some agent
              ∧ ev_created_at ev = c_updated_at new ∧ ev_idempotency_key ev = key;
  asg_actor : has_permission s cases_assign = true ∧
              ∃ actor, identity s = Ok actor ∧ ev_actor ev = Some (strip actor);
}.

Lemma assign_case_runs amb n directory s case_id agent request :
  others_ok amb →
  runs amb case_db_ok (assign_case n directory s case_id agent request)
    (audited s (assigned s directory case_id (strip agent)
                  (assign_idempotency_key case_id (strip request))) ca_assigned).
Proof.
  intros Hamb. pose proof (rely_case_db amb Hamb) as Hrely. unfold assign_case.
  apply runs_lift_bind; [by left|]. intros ? Hperm%raise_if_ok%negb_false_iff.
  apply runs_lift_bind; [by left|]. intros agent' (-> & Hidem & _)%validate_agent_id_ok.
  apply runs_lift_bind; [by left|]. intros ? Hreq%raise_if_ok%negb_false_iff.
  apply runs_lift_bind; [by left|]. intros actor Hactor.
  set (key := assign_idempotency_key case_id (strip request)).
  eapply runs_bind_pure with (Qa := λ _, True).
  { eapply runs_weaken; [by apply runs_find_event|]. intros [?|?] cs ->; split; auto. by left. }
  intros [ev|] _.
  { eapply runs_weaken; [by apply replay_previous_runs|].
    intros [res|e] cs [-> Hr]; [by right|by left]. }
  eapply runs_bind_pure with (Qa := λ _, True).
  { eapply runs_weaken; [by apply runs_get_case|]. intros [?|?] cs [-> _]; split; auto. by left. }
  intros [present|] _; [|apply runs_raise; by left].
  apply runs_lift_bind; [by left|]. intros ? Htarget%require_assignment_target_ok.
  apply runs_for_attempts; [|apply runs_raise; by left].
  apply runs_get_case_bind; [done|by left|apply runs_raise; by left|].
  intros old Hid Hn Hsee. case_bool_decide as Hsame.
  { apply (runs_answer_round amb (case_seen old) s ca_status_unchanged old); [set_solver|done|].
    intros res Hres. by right. }
  eapply runs_bind_pure with (Qa := λ _, True); [by apply runs_now|]. intros t _.
  apply runs_lift_bind; [by left|]. intros new Hnew.
  pose proof (SupportCase_validate_normal _ _ Hnew) as Hnn.
  apply with_agent_validate in Hnew as ->; [|done..].
  eapply runs_bind_pure with (Qa := λ _, True); [by apply runs_new_id|]. intros u _.
  apply runs_lift_bind; [by left|]. intros ev Hev.
  pose proof (SupportCaseEvent_validate_normal _ _ Hev) as Hen.
  apply SupportCaseEvent_validate_ok in Hev as (-> & _).
  pose proof (case_normal_strip old Hn) as Hold.
  apply audited_write_runs; [done| | |set_solver].
  - split; try done. split; [done|]. cbn. by rewrite <- Hold at 2.
  - split; try done.
    + cbn. split_and!; try done; [by rewrite <- Hold at 2|by rewrite Hidem|by apply strip_assign_key].
    + split; [done|]. by exists actor.
Qed.
