(* ===== verification/HandoffTheorems.v ===== *)
(** The guarantees of handoffs: a trigger opens one case, or is merged into the unresolved
    case of its thread and type, or is recognised as already recorded. *)
From S2P Require Import Prelude Effects Auth OperationModels CaseModels CasePolicy Envelope Database CaseRepository CaseService CaseSafety CaseTheorems.

(** * What a handoff commits *)

(** A new case for the caller, as decided. *)
Record case_opened (s : AccessScope) (t : CaseTrigger) (d : HandoffDecision)
    (new : SupportCase) (ev : SupportCaseEvent) : Prop := {
  opn_decision : hd_case_type d = Some (c_case_type new) ∧ hd_priority d = Some (c_priority new)
                 ∧ c_reason_codes new = hd_reason_codes d;
  opn_status : c_status new = cs_open ∧ c_assigned_agent_id new = None;
  opn_thread : c_thread_id new = strip (tr_thread_id t);
  opn_customer : ∃ cust, customer_id s = Some cust ∧ c_customer_id new = strip cust;
  opn_audit : ev_event_type ev = ev_case_created
              ∧ ev_source_message_id ev = Some (strip (tr_source_message_id t))
              ∧ ev_idempotency_key ev = strip (message_idempotency_key t);
}.

(** A trigger merged into an unresolved case of the same thread and type: the lifecycle
    and the assignment stay, the priority is not lowered, no reason is lost. *)
Record trigger_appended (s : AccessScope) (t : CaseTrigger) (d : HandoffDecision)
    (old new : SupportCase) (ev : SupportCaseEvent) : Prop := {
  app_target : c_thread_id old = tr_thread_id t ∧ hd_case_type d = Some (c_case_type old)
               ∧ unresolved (c_status old) = true;
  app_lifecycle : c_status new = c_status old ∧ c_on_hold_reason new = c_on_hold_reason old
                  ∧ c_assigned_agent_id new = c_assigned_agent_id old;
  app_priority : ∃ p, hd_priority d = Some p
                 ∧ priority_rank (c_priority new) ≤ priority_rank (c_priority old)
                 ∧ priority_rank (c_priority new) ≤ priority_rank p
                 ∧ (c_priority new = c_priority old ∨ c_priority new = p);
  app_reasons : ∀ r, r ∈ c_reason_codes new ↔ r ∈ c_reason_codes old ∨ r ∈ hd_reason_codes d;
  app_audit : ev_event_type ev = ev_trigger_appended
              ∧ ev_previous_priority ev = Some (c_priority old)
              ∧ ev_current_priority ev = Some (c_priority new)
              ∧ ev_current_status ev = Some (c_status old)
              ∧ ev_source_message_id ev = Some (strip (tr_source_message_id t))
              ∧ ev_idempotency_key ev = strip (message_idempotency_key t);
}.

Definition handoff_step (s : AccessScope) (t : CaseTrigger) (d : HandoffDecision)
    (old : option SupportCase) (new : SupportCase) (ev : SupportCaseEvent) : Prop :=
  match old with
  | None => case_opened s t d new ev
  | Some o => may_see s o ∧ trigger_appended s t d o new ev
  end.

Definition step_action (old : option SupportCase) : CaseServiceAction :=
  match old with None => ca_created | Some _ => ca_event_appended end.

(** One commit of a handoff; [queued] is what it also leaves in the outbox. *)
Definition handed_off (s : AccessScope) (t : CaseTrigger) (d : HandoffDecision)
    (queued : SupportCase → database → Prop) (cs : list (database * database))
    (old : option SupportCase) (new : SupportCase) (ev : SupportCaseEvent) : Prop :=
  ∃ before after, cs = [(before, after)] ∧ case_committed s old new ev before after
    ∧ handoff_step s t d old new ev ∧ queued new after.

(** The endings of a write: a result that reports the commit, or an error without a
    commit unless the acknowledgement was lost. *)
Definition handoff_written (s : AccessScope) (t : CaseTrigger) (d : HandoffDecision)
    (queued : SupportCase → database → Prop) (r : res CaseServiceResult)
    (cs : list (database * database)) : Prop :=
  match r with
  | Ok res => ∃ old new ev, res = mkCaseServiceResult (step_action old) (Some new) (Some ev)
                            ∧ handed_off s t d queued cs old new ev
  | Err e => cs = [] ∨ e = CasePersistenceError ∧ ∃ old new ev, handed_off s t d queued cs old new ev
  end.

Definition handoff_ending (s : AccessScope) (t : CaseTrigger) (d : HandoffDecision)
    (queued : SupportCase → database → Prop) (r : res CaseServiceResult)
    (cs : list (database * database)) : Prop :=
  handoff_written s t d queued r cs
  ∨ ∃ res, r = Ok res ∧ cs = [] ∧
      (answered s ca_duplicate_ignored res
       ∨ hd_should_create_case d = false ∧ res = mkCaseServiceResult ca_not_created None None).

(** * Creation *)

Lemma written_result {A} s t d queued old new ev (P : database → database → Prop) (m : M database A) amb I :
  runs amb I m (commit_ending P) →
  (∀ before after, P before after → case_committed s old new ev before after
     ∧ handoff_step s t d old new ev ∧ queued new after) →
  runs amb I (m;, service_result (step_action old) (Some new) (Some ev))
    (handoff_written s t d queued).
Proof.
  intros Hm HP. eapply runs_bind; [exact Hm|..].
  - intros a cs (d1 & d2 & -> & H). apply runs_lift.
    rewrite service_result_written by (destruct old; set_solver).
    exists old, new, ev. split; [done|]. exists d1, d2. split; [done|]. by apply HP.
  - intros e cs [->|(-> & d1 & d2 & -> & H)]; [by left|]. right. split; [done|].
    exists old, new, ev, d1, d2. split; [done|]. by apply HP.
Qed.

Lemma assert_some_bind {A B} amb (I : database → Prop) (o : option A) (k : A → M database B) Q :
  (∀ e, Q (Err e) []) → (∀ a, o = Some a → runs amb I (k a) Q) →
  runs amb I (bind (assert_some o) k) Q.
Proof.
  intros He Hk. apply runs_bind_pure with (Qa := λ a, o = Some a); [|done].
  destruct o; [by apply runs_ret|by apply runs_raise].
Qed.

Lemma new_case_opened s t d cust who case_id case_type priority at_ new ev event_id :
  hd_case_type d = Some case_type → hd_priority d = Some priority → customer_id s = Some cust →
  SupportCase_validate (new_case who cust (sc_tenant_id s) case_id t d case_type priority at_)
    = Ok new →
  SupportCaseEvent_validate (trigger_event event_id case_id ev_case_created t d None priority
    cs_open cust (sc_tenant_id s) at_) = Ok ev →
  creation_of new ev ∧ case_opened s t d new ev.
Proof.
  intros Hty Hp Hcust Hnew Hev.
  pose proof (SupportCase_validate_normal _ _ Hnew). pose proof (SupportCaseEvent_validate_normal _ _ Hev).
  apply SupportCase_validate_ok in Hnew as (-> & _). apply SupportCaseEvent_validate_ok in Hev as (-> & _).
  split; split; try done. by exists cust.
Qed.

Lemma create_case_runs amb s t d :
  others_ok amb →
  runs amb case_db_ok (create_case s t d) (handoff_written s t d (λ _ _, True)).
Proof.
  intros Hamb. unfold create_case.
  apply assert_some_bind; [by left|]. intros ty Hty.
  apply assert_some_bind; [by left|]. intros p Hp.
  apply assert_some_bind; [by left|]. intros cust Hcust.
  eapply runs_bind_pure with (Qa := λ _, True); [by apply runs_now|]. intros at_ _.
  eapply runs_bind_pure with (Qa := λ _, True); [by apply runs_new_id|]. intros case_id _.
  apply runs_lift_bind; [by left|]. intros who _.
  apply runs_lift_bind; [by left|]. intros new Hnew.
  eapply runs_bind_pure with (Qa := λ _, True); [by apply runs_new_id|]. intros event_id _.
  apply runs_lift_bind; [by left|]. intros ev Hev.
  destruct (new_case_opened _ _ _ _ _ _ _ _ _ _ _ _ Hty Hp Hcust Hnew Hev) as [Hc Ho].
  eapply (written_result s t d _ None); [by apply create_case_with_event_runs|]. done.
Qed.

Lemma for_delivery_investigation_normal c issue conn command_id at_ command :
  for_delivery_investigation c issue conn command_id at_ = Ok command →
  ProviderCommandEnvelope_validate command = Ok command.
Proof.
  unfold for_delivery_investigation. intros H. inv_ok. destruct (c_order_id c); [|done]. inv_ok.
  by eapply envelope_validate_normal.
Qed.

(** What [command_stored] says of the case the command is for. *)
Lemma create_with_command_has_command amb s new e command :
  others_ok amb → creation_of new e → ProviderCommandEnvelope_validate command = Ok command →
  runs amb case_db_ok (create_case_with_event_and_command s new e command)
    (commit_ending (λ d d', case_committed s None new e d d' ∧ case_has_command new d')).
Proof.
  intros Hamb Hc Hn.
  destruct (validate_case_command_association new e command) as [u|x] eqn:Has.
  - apply association_command_for in Has as (_ & Hty & Hid & _); [|done].
    eapply runs_weaken; [by apply create_case_with_event_and_command_runs|].
    assert (∀ d d', case_committed s None new e d d' ∧ command_stored command d' →
              case_committed s None new e d d' ∧ case_has_command new d') as H.
    { intros d d' [Hcc [at_ Hst]]. split; [done|]. by eexists _, _. }
    intros [[]|x] cs; cbn; naive_solver.
  - unfold create_case_with_event_and_command. rewrite Has.
    apply runs_lift_bind; [by left|done].
Qed.

Lemma create_delivery_case_runs amb s t d issue conn :
  others_ok amb → hd_case_type d = Some ct_delivery_investigation →
  runs amb case_db_ok (create_delivery_case_with_command s t d issue conn)
    (handoff_written s t d case_has_command).
Proof.
  intros Hamb Hty. unfold create_delivery_case_with_command.
  apply assert_some_bind; [by left|]. intros p Hp.
  apply assert_some_bind; [by left|]. intros cust Hcust.
  apply runs_lift_bind; [by left|]. intros _ _.
  eapply runs_bind_pure with (Qa := λ _, True); [by apply runs_now|]. intros at_ _.
  eapply runs_bind_pure with (Qa := λ _, True); [by apply runs_new_id|]. intros case_id _.
  apply runs_lift_bind; [by left|]. intros who _.
  apply runs_lift_bind; [by left|]. intros new Hnew.
  pose proof (SupportCase_validate_normal _ _ Hnew) as Hnn.
  eapply runs_bind_pure with (Qa := λ _, True); [by apply runs_new_id|]. intros event_id _.
  apply runs_lift_bind; [by left|]. intros ev Hev.
  pose proof (SupportCaseEvent_validate_normal _ _ Hev) as Hen.
  eapply runs_bind_pure with (Qa := λ _, True); [by apply runs_new_id|]. intros command_id _.
  apply runs_lift_bind; [by left|]. intros command Hcmd%for_delivery_investigation_normal.
  apply SupportCase_validate_ok in Hnew as (-> & _).
  apply SupportCaseEvent_validate_ok in Hev as (-> & _).
  set (new := SupportCase_strip _) in *. set (ev := SupportCaseEvent_strip _) in *.
  assert (creation_of new ev) as Hc.
  { split; try done. split; [done|]. cbn. by rewrite strip_idem. }
  assert (case_opened s t d new ev) as Ho by (split; try done; by exists cust).
  eapply (written_result s t d _ None); [by apply create_with_command_has_command|]. naive_solver.
Qed.

(** * Merging into an unresolved case *)

Lemma with_trigger_appended s old t d p at_ new ev event_id :
  case_normal old → c_thread_id old = tr_thread_id t → hd_case_type d = Some (c_case_type old) →
  unresolved (c_status old) = true → hd_priority d = Some p →
  SupportCase_validate (with_trigger old t d p at_) = Ok new →
  SupportCaseEvent_validate (trigger_event event_id (c_case_id old) ev_trigger_appended t d
    (Some (c_priority old)) (select_higher_priority (c_priority old) p) (c_status old)
    (c_customer_id old) (c_tenant_id old) at_) = Ok ev →
  update_of old new ev ∧ trigger_appended s t d old new ev.
Proof.
  intros Hn Hth Hty Hun Hp Hnew Hev.
  pose proof (SupportCase_validate_normal _ _ Hnew). pose proof (SupportCaseEvent_validate_normal _ _ Hev).
  apply SupportCase_validate_ok in Hnew as (-> & _). apply SupportCaseEvent_validate_ok in Hev as (-> & _).
  pose proof (case_normal_strip old Hn) as Hold. split.
  - split; try done. unfold same_identity. rewrite <- Hold at 1 3 5 7 9 11 13 15 17. done.
  - split; try done.
    + cbn. split_and!; [done..|]. by rewrite <- Hold at 2.
    + exists p. destruct (select_higher_priority_spec (c_priority old) p) as (? & ? & ?).
      change (c_priority (SupportCase_strip _)) with (select_higher_priority (c_priority old) p).
      split_and!; [done|done|done|tauto].
    + intros r. cbn. unfold merge_unique. rewrite elem_of_dict_fromkeys, elem_of_app. done.
Qed.

Lemma append_trigger_runs amb s old t d queueing :
  others_ok amb → case_normal old → may_see s old → c_thread_id old = tr_thread_id t →
  hd_case_type d = Some (c_case_type old) → unresolved (c_status old) = true →
  (is_Some queueing → c_case_type old = ct_delivery_investigation) →
  runs amb (case_seen old) (append_trigger s old t d queueing)
    (handoff_written s t d (λ c after, is_Some queueing → case_has_command c after)).
Proof.
  intros Hamb Hn Hsee Hth Hty Hun Hq. unfold append_trigger.
  apply assert_some_bind; [by left|]. intros p Hp.
  eapply runs_bind_pure with (Qa := λ _, True); [by apply runs_now|]. intros at_ _.
  apply runs_lift_bind; [by left|]. intros new Hnew.
  eapply runs_bind_pure with (Qa := λ _, True); [by apply runs_new_id|]. intros event_id _.
  apply runs_lift_bind; [by left|]. intros ev Hev.
  destruct (with_trigger_appended s _ _ _ _ _ _ _ _ Hn Hth Hty Hun Hp Hnew Hev) as [Hup Happ].
  eapply (written_result s t d _ (Some old)) with (P := λ before after,
    update_committed s old new ev before after ∧ (is_Some queueing → case_has_command new after)).
  2: { intros before after [[? ?] ?]. naive_solver. }
  assert (queueing = None → runs amb (case_seen old) (update_case_with_event s new ev (c_version old))
    (commit_ending (λ before after, update_committed s old new ev before after
       ∧ (is_Some queueing → case_has_command new after)))) as Hplain.
  { intros ->. eapply runs_weaken; [by apply update_case_with_event_runs|].
    intros [[]|x] cs; cbn; [intros (?&?&?&?); do 2 eexists; naive_solver|].
    intros [?|(?&?&?&?&?)]; [by left|right]. split; [done|]. do 2 eexists. split; [done|].
    split; [done|]. by intros [? ?]. }
  case_bool_decide as Hdel.
  - destruct queueing as [[issue conn]|]; [|by apply Hplain].
    eapply runs_bind_pure with (Qa := λ _, True); [by apply runs_new_id|]. intros command_id _.
    apply runs_lift_bind; [by left|]. intros command Hcmd%for_delivery_investigation_normal.
    eapply runs_bind; [by apply append_delivery_trigger_runs|..].
    + intros b cs (d1 & d2 & -> & Hc & Hh). apply runs_ret. exists d1, d2. naive_solver.
    + intros e cs [->|(-> & d1 & d2 & -> & Hc & Hh)]; [by left|]. right. split; [done|].
      exists d1, d2. naive_solver.
  - apply Hplain. destruct queueing; [|done]. by destruct Hdel, Hq.
Qed.

(** * Lookups *)

Lemma message_case_visible s visible d th msg e c :
  case_visibility s = Ok visible → message_case visible d th msg e = Some c →
  support_cases d !! ev_case_id e = Some c ∧ may_see s c ∧ c_thread_id c = th
  ∧ ev_source_message_id e = Some msg.
Proof.
  intros Hv. unfold message_case, visible_case.
  destruct (support_cases d !! ev_case_id e) as [c'|]; [|done].
  destruct (visible (case_owner c')) eqn:Hvis; [|done].
  destruct (_ && _) eqn:Hb; [|done]. intros [= ->]. bools. by split_and!; [|exists visible|..].
Qed.

Lemma case_by_message_found s visible d th msg c :
  case_visibility s = Ok visible → case_by_message visible d th msg = Some c →
  ∃ e, e ∈ support_case_events d ∧ support_cases d !! ev_case_id e = Some c ∧ may_see s c
       ∧ c_thread_id c = th ∧ ev_source_message_id e = Some msg.
Proof.
  intros Hv. unfold case_by_message.
  destruct (first_row event_order _) as [e|] eqn:Hf; [|done].
  apply first_row_elem, list_elem_of_filter in Hf as [_ He].
  intros Hm. exists e. split; [done|]. by eapply message_case_visible.
Qed.

Lemma runs_find_by_source_message amb (I : database → Prop) s th msg :
  rely amb I → (∀ d, I d → case_db_ok d) →
  runs amb I (find_by_source_message s th msg)
    (λ r cs, cs = [] ∧ ∀ c, r = Ok (Some c) → may_see s c ∧ c_thread_id c = th).
Proof.
  intros Hrely HI. unfold find_by_source_message. apply runs_lift_bind; [done|].
  intros visible Hv. apply runs_query; [done| |done]. intros d Hd. split; [done|]. intros c.
  destruct (case_by_message visible d th msg) as [c'|] eqn:E; cbn; [|done].
  eapply case_by_message_found in E as (e & _ & Hc & Hsee & Hth & _); [|done].
  pose proof (cdb_cases d (HI d Hd) _ _ Hc) as Hn. unfold case_normal in Hn. rewrite Hn. cbn.
  by intros [= <-].
Qed.

Definition joinable (s : AccessScope) (th : string) (ty : CaseType) (c : SupportCase) : Prop :=
  may_see s c ∧ c_thread_id c = th ∧ c_case_type c = ty ∧ unresolved (c_status c) = true.

Lemma runs_find_unresolved_bind {B} amb s th ty o (k : option SupportCase → M database B) Q :
  others_ok amb → (∀ e, Q (Err e) []) →
  runs amb case_db_ok (k None) Q →
  (∀ c, case_normal c → joinable s th ty c → runs amb (case_seen c) (k (Some c)) Q) →
  runs amb case_db_ok (bind (find_unresolved_case s th ty o) k) Q.
Proof.
  intros Hamb He Hn Hs. unfold find_unresolved_case.
  apply runs_bind_lift_bind; [auto|]. intros visible Hv.
  assert (∀ o', runs amb case_db_ok (bind (query CasePersistenceError (λ d,
      case_from_row (first_row case_order (filter (λ c,
        unresolved_matches visible th ty o' c = true) (rows (support_cases d)))))) k) Q) as Hq.
  { intros o'. eapply runs_select_case_bind with (P := joinable s th ty); [done..| |done|done].
    intros d c _ Hf%first_row_elem. apply list_elem_of_filter in Hf as [Hm Hr%elem_of_rows].
    split; [done|]. unfold unresolved_matches in Hm. bools. by split; [exists visible|]. }
  case_bool_decide as Hty; [|apply Hq]. destruct o as [o|]; [apply Hq|].
  intros w r w' Hw [= <- <-]. split; [done|]. exists []. by rewrite app_nil_r.
Qed.

(** * The retry loop *)

Lemma handoff_write_runs amb s t d queued ty (create : M database CaseServiceResult) append :
  others_ok amb →
  runs amb case_db_ok create (handoff_written s t d queued) →
  (∀ c, case_normal c → joinable s (tr_thread_id t) ty c →
        runs amb (case_seen c) (append c) (handoff_written s t d queued)) →
  runs amb case_db_ok
    (existing <- find_unresolved_case s (tr_thread_id t) ty (tr_order_id t);
     try_except (returning (match existing with None => create | Some c => append c end))
       handoff_conflict)
    (round (handoff_written s t d queued)).
Proof.
  intros Hamb Hcreate Happend.
  assert (∀ I m, runs amb I m (handoff_written s t d queued) →
    runs amb I (try_except (returning m) handoff_conflict)
      (round (handoff_written s t d queued))) as Htry.
  { intros I m Hm. eapply runs_try_except with (Q1 := round (handoff_written s t d queued)).
    - unfold returning. eapply runs_bind; [exact Hm|..].
      + intros a cs Ha. apply runs_ret. rewrite app_nil_r. done.
      + done.
    - by intros [a|] cs Ha.
    - intros e cs He. destruct (handoff_conflict e) eqn:Hh; [|done].
      destruct He as [->|[-> _]]; [|discriminate Hh].
      destruct e; try discriminate Hh; injection Hh as <-; by apply runs_ret. }
  apply runs_find_unresolved_bind; [done|by left|by apply Htry|].
  intros c Hn Hj. apply Htry. by apply Happend.
Qed.

Lemma handoff_round_runs amb s t d queued (write : M database (option CaseServiceResult)) :
  others_ok amb → runs amb case_db_ok write (round (handoff_written s t d queued)) →
  runs amb case_db_ok
    (duplicate <- find_by_source_message s (tr_thread_id t) (tr_source_message_id t);
     match duplicate with
     | Some c => returning (service_result ca_duplicate_ignored (Some c) None)
     | None => write
     end)
    (round (handoff_ending s t d queued)).
Proof.
  intros Hamb Hwrite. pose proof (rely_case_db amb Hamb) as Hrely.
  eapply runs_bind_pure with (Qa := λ o, ∀ c, o = Some c → may_see s c).
  { eapply runs_weaken; [by apply runs_find_by_source_message|].
    intros [o|e] cs [-> Ho]; split; try done; [|left; by left]. intros c ->. by apply Ho. }
  intros [c|] Hdup.
  { apply (runs_answer_round amb case_db_ok s ca_duplicate_ignored c); [set_solver|by apply Hdup|].
    intros res Hres. right. exists res. auto. }
  eapply runs_weaken; [exact Hwrite|]. intros [[res|]|e] cs; cbn; [by left|done|by left].
Qed.

(** * What a duplicate repeats *)

(** The database holds the message of the trigger: an event of a case of the same thread,
    which the caller may see, was recorded for it.  That case is the answer. *)
Definition message_recorded (s : AccessScope) (t : CaseTrigger) (res : CaseServiceResult) (d : database) : Prop :=
  ∃ c e, cres_case res = Some c ∧ cres_event res = None ∧ may_see s c
    ∧ c_thread_id c = tr_thread_id t ∧ e ∈ support_case_events d
    ∧ ev_source_message_id e = Some (tr_source_message_id t) ∧ support_cases d !! ev_case_id e = Some c.

(** A result that says [duplicate_ignored] is one. *)
Definition duplicate_truthful (s : AccessScope) (t : CaseTrigger) (res : CaseServiceResult) (d : database) : Prop :=
  cres_action res = ca_duplicate_ignored → message_recorded s t res d.

Lemma handoff_round_returns amb s t d queued (write : M database (option CaseServiceResult)) :
  others_ok amb → runs amb case_db_ok write (round (handoff_written s t d queued)) →
  returns amb case_db_ok
    (duplicate <- find_by_source_message s (tr_thread_id t) (tr_source_message_id t);
     match duplicate with
     | Some c => returning (service_result ca_duplicate_ignored (Some c) None)
     | None => write
     end)
    (λ o db, match o with Some res => duplicate_truthful s t res db | None => case_db_ok db end).
Proof.
  intros Hamb Hwrite.
  eapply returns_bind with (P1 := λ o db, case_db_ok db ∧ ∀ c, o = Some c →
    message_recorded s t (mkCaseServiceResult ca_duplicate_ignored (Some c) None) db).
  - unfold find_by_source_message. eapply returns_bind with (P1 := λ v db, case_db_ok db ∧ case_visibility s = Ok v).
    { by apply returns_lift. }
    intros visible. apply returns_query.
    { intros n db [Hdb Hv]. split; [by apply Hamb|done]. }
    intros db o [Hdb Hv] Ho. split; [done|]. intros c ->.
    destruct (case_by_message visible db _ _) as [c'|] eqn:E; [|done].
    eapply case_by_message_found in E as (e & He & Hc & Hsee & Hth & Hm); [|exact Hv].
    pose proof (cdb_cases db Hdb _ _ Hc) as Hn. cbn in Ho. unfold case_normal in Hn. rewrite Hn in Ho.
    injection Ho as <-. by exists c', e.
  - intros [c|].
    + unfold returning. intros w [res|] w' [_ Hc].
      * unfold bind, service_result, lift, ret, CaseServiceResult_validate. destruct (validate_result _); [|done].
        intros [= <- <-] _. by apply Hc.
      * by unfold bind, service_result, lift; destruct (CaseServiceResult_validate _).
    + intros w o w' [Hw _] Hr. destruct (Hwrite _ _ _ Hw Hr) as (Hw' & cs & _ & HQ).
      destruct o as [res|]; [|done]. destruct HQ as (old & new & ev & -> & _). by destruct old.
Qed.

Lemma record_handoff_writes amb s t d ty :
  others_ok amb → hd_case_type d = Some ty →
  runs amb case_db_ok
    (existing <- find_unresolved_case s (tr_thread_id t) ty (tr_order_id t);
     try_except (returning (match existing with None => create_case s t d | Some c => append_trigger s c t d None end))
       handoff_conflict)
    (round (handoff_written s t d (λ _ _, True))).
Proof.
  intros Hamb Hty. apply handoff_write_runs; [done|by apply create_case_runs|].
  intros c Hn (Hsee & Hth & Hct & Hun).
  eapply runs_weaken; [apply append_trigger_runs; first [done|congruence|by intros [? ?]]|].
  intros [res|e] cs; cbn; unfold handed_off; [|intros [?|(?&?)]; [by left|right]; split; [done|]];
    destruct_exs; naive_solver.
Qed.

Lemma record_handoff_runs amb n s t d :
  others_ok amb →
  runs amb case_db_ok (record_handoff n s t d) (handoff_ending s t d (λ _ _, True)).
Proof.
  intros Hamb. assert (∀ e, handoff_ending s t d (λ _ _, True) (Err e) []) as Hnil
    by (intros e; left; by left).
  unfold record_handoff. apply runs_lift_bind; [done|]. intros _ _.
  destruct (hd_should_create_case d) eqn:Hsh; cbn [negb].
  2: { apply runs_lift. right. eexists. split; [reflexivity|]. split; [done|]. by right. }
  destruct (hd_case_type d) as [ty|] eqn:Hty; [|by apply runs_raise].
  destruct (hd_priority d) as [p|] eqn:Hp; [|by apply runs_raise].
  apply runs_for_attempts; [|by apply runs_raise].
  by apply handoff_round_runs, record_handoff_writes.
Qed.

Lemma record_handoff_returns amb n s t d :
  others_ok amb → returns amb case_db_ok (record_handoff n s t d) (duplicate_truthful s t).
Proof.
  intros Hamb. unfold record_handoff.
  apply returns_bind with (P1 := λ _, case_db_ok); [by apply returns_lift|]. intros _.
  destruct (hd_should_create_case d); cbn [negb]; [|by intros w a w' _ [= <- _]].
  destruct (hd_case_type d) as [ty|] eqn:Hty; [|by intros ? ? ? ?].
  destruct (hd_priority d); [|by intros ? ? ? ?].
  apply returns_for_attempts; [|by intros ? ? ? ?].
  by apply (handoff_round_returns amb s t d (λ _ _, True)), record_handoff_writes.
Qed.

Lemma record_delivery_investigation_writes amb s t d issue conn :
  others_ok amb → hd_case_type d = Some ct_delivery_investigation →
  runs amb case_db_ok
    (existing <- find_unresolved_case s (tr_thread_id t) ct_delivery_investigation (tr_order_id t);
     try_except (returning (match existing with
                            | Some c => append_trigger s c t d (Some (issue, conn))
                            | None => create_delivery_case_with_command s t d issue conn
                            end)) handoff_conflict)
    (round (handoff_written s t d case_has_command)).
Proof.
  intros Hamb Hty.
  apply (handoff_write_runs amb s t d case_has_command ct_delivery_investigation
    (create_delivery_case_with_command s t d issue conn)
    (λ c, append_trigger s c t d (Some (issue, conn))) Hamb).
  - by apply create_delivery_case_runs.
  - intros c Hn (Hsee & Hth & Hct & Hun).
    eapply runs_weaken; [apply append_trigger_runs; first [done|congruence]|].
    intros [res|e] cs; cbn; unfold handed_off; [|intros [?|(?&?)]; [by left|right]; split; [done|]];
      destruct_exs; naive_solver.
Qed.

Lemma record_delivery_investigation_runs amb n s t d issue conn :
  others_ok amb →
  runs amb case_db_ok (record_delivery_investigation n s t d issue conn)
    (handoff_ending s t d case_has_command).
Proof.
  intros Hamb. assert (∀ e, handoff_ending s t d case_has_command (Err e) []) as Hnil
    by (intros e; left; by left).
  unfold record_delivery_investigation. apply runs_lift_bind; [done|]. intros _ _.
  apply runs_lift_bind; [done|]. intros u Hdec%raise_if_ok. bools.
  assert (hd_case_type d = Some ct_delivery_investigation) as Hty by (by apply dec_stable).
  apply runs_lift_bind; [done|]. intros _ _.
  apply runs_for_attempts; [|by apply runs_raise].
  by apply handoff_round_runs, record_delivery_investigation_writes.
Qed.
