(* ===== verification/CaseGuarantees.v ===== *)
(** What callers of the case service rely on, stated for each entry point, and the
    closure of the interference assumption: workers that run the case service satisfy
    what each of them assumes of the others. *)
From S2P Require Import Prelude Effects Auth OperationModels CaseModels CasePolicy Envelope Database Transactions CaseRepository CaseService CaseSafety CaseTheorems HandoffTheorems.

(** * A worked example *)

Lemma others_ok_idle : others_ok idle_ambient.
Proof.
  intros n d Hd. split; [done|]. unfold cases_evolve. reflexivity.
Qed.

Lemma case_db_ok_empty : case_db_ok empty_db.
Proof. split; [apply schema_ok_empty|..]; intros *; cbn; set_solver. Qed.

Definition demo_trigger : CaseTrigger :=
  mkCaseTrigger "thread-1" "message-1" (Some "ORD-10001") (Some rl_high) [rc_legal]
    "I will call my lawyer".
Definition demo_decision : HandoffDecision :=
  mkHandoffDecision true (Some ct_business_escalation) (Some p1) [hr_semantic_high_legal] "legal".

Definition demo_handoff : M database CaseServiceResult :=
  record_handoff 3 (demo_scope customer) demo_trigger demo_decision.
Definition demo_db : database := after demo_handoff empty_db.
Definition demo_case_id : uuid := 103%N.

Lemma case_db_ok_demo : case_db_ok demo_db.
Proof.
  apply (runs_after _ _ _ empty_db
    (record_handoff_runs _ 3 (demo_scope customer) demo_trigger demo_decision others_ok_idle)),
    case_db_ok_empty.
Qed.

Example demo_case_open :
  c_status <$> support_cases demo_db !! demo_case_id = Some cs_open.
Proof. vm_compute. reflexivity. Qed.

(** * Entry points *)

(** C7: a status change, run while other workers commit between any two of its database
    round trips, ends in one of three ways: exactly one commit, which moves a case the
    caller may see along an allowed transition, raises its version by one, leaves every
    other column and row alone and appends a truthful audit event, both returned to the
    caller; or the stored case unchanged and nothing committed; or an error, with nothing
    committed unless the acknowledgement of that one commit was lost. *)
Theorem change_status_audited (amb : Ambient database) (n : nat) (s : AccessScope)
    (case_id : uuid) (target : CaseStatus) (request : string) (reason : option OnHoldReason) :
  others_ok amb →
  runs amb case_db_ok (change_status n s case_id target request reason)
    (audited s (status_changed s case_id target reason
                  (status_idempotency_key case_id (strip request))) ca_status_changed).
Proof. apply change_status_runs. Qed.

Definition action_of (r : res CaseServiceResult) : option CaseServiceAction :=
  match r with Ok r => Some (cres_action r) | Err _ => None end.

Definition demo_change : M database CaseServiceResult :=
  change_status 3 (demo_scope supervisor) demo_case_id cs_in_progress "r1" None.

Lemma change_status_audited_witness :
  action_of (outcome demo_change demo_db) = Some ca_status_changed ∧
  audited (demo_scope supervisor)
    (status_changed (demo_scope supervisor) demo_case_id cs_in_progress None
       (status_idempotency_key demo_case_id (strip "r1"))) ca_status_changed
    (outcome demo_change demo_db) (commits demo_change demo_db).
Proof.
  split; [vm_compute; reflexivity|].
  exact (runs_outcome _ _ _ demo_db (change_status_audited idle_ambient 3 (demo_scope supervisor)
    demo_case_id cs_in_progress "r1" None others_ok_idle) case_db_ok_demo).
Defined.

(** An assignment, run under the same interference, commits at most once; when it
    does, the case was visible to a caller holding the assignment permission, the target
    is an active agent or supervisor of the caller's tenant in the personnel directory,
    only the assignee, the version and the update time of the row change, and the audit
    event records the previous and the new assignee. *)
Theorem assign_case_audited (amb : Ambient database) (n : nat)
    (directory : option IdentityDirectory) (s : AccessScope) (case_id : uuid)
    (agent request : string) :
  others_ok amb →
  runs amb case_db_ok (assign_case n directory s case_id agent request)
    (audited s (assigned s directory case_id (strip agent)
                  (assign_idempotency_key case_id (strip request))) ca_assigned).
Proof. apply assign_case_runs. Qed.

Definition demo_directory : option IdentityDirectory :=
  Some (λ tenant user, Ok (Some (mkDirectoryUser user tenant true {[support_agent]}))).
Definition demo_assign : M database CaseServiceResult :=
  assign_case 3 demo_directory (demo_scope supervisor) demo_case_id "agent-9" "r2".

Lemma assign_case_audited_witness :
  action_of (outcome demo_assign demo_db) = Some ca_assigned ∧
  audited (demo_scope supervisor)
    (assigned (demo_scope supervisor) demo_directory demo_case_id (strip "agent-9")
       (assign_idempotency_key demo_case_id (strip "r2"))) ca_assigned
    (outcome demo_assign demo_db) (commits demo_assign demo_db).
Proof.
  split; [vm_compute; reflexivity|].
  exact (runs_outcome _ _ _ demo_db (assign_case_audited idle_ambient 3 demo_directory
    (demo_scope supervisor) demo_case_id "agent-9" "r2" others_ok_idle) case_db_ok_demo).
Defined.

(** C9: recording a handoff commits at most once: it opens one case in state [open] as
    the policy decided, or merges the trigger into the unresolved case of the same thread
    and type (never lowering its priority, never dropping a reason, leaving status and
    assignee alone), or recognises the message as already recorded, or writes nothing for
    a no-case decision; an error leaves nothing behind unless an acknowledgement was
    lost.  A message is only taken for already recorded when it is: the database holds an
    event with its identifier, in a case of its own thread that the caller may see, and
    that case as it is stored is the answer. *)
Theorem record_handoff_outcome (amb : Ambient database) (n : nat) (s : AccessScope)
    (t : CaseTrigger) (d : HandoffDecision) :
  others_ok amb →
  runs amb case_db_ok (record_handoff n s t d) (handoff_ending s t d (λ _ _, True))
  ∧ (∀ w res w', case_db_ok (w_db w) → record_handoff n s t d amb w = (Ok res, w') →
       cres_action res = ca_duplicate_ignored →
       ∃ c e, cres_case res = Some c ∧ cres_event res = None ∧ may_see s c
         ∧ c_thread_id c = tr_thread_id t ∧ e ∈ support_case_events (w_db w')
         ∧ ev_source_message_id e = Some (tr_source_message_id t)
         ∧ support_cases (w_db w') !! ev_case_id e = Some c).
Proof. intros Hamb. split; [by apply record_handoff_runs|by apply record_handoff_returns]. Qed.

Definition demo_followup : M database CaseServiceResult :=
  record_handoff 3 (demo_scope customer)
    (mkCaseTrigger "thread-1" "message-2" None (Some rl_critical) [rc_legal] "again")
    (mkHandoffDecision true (Some ct_business_escalation) (Some p0)
       [hr_semantic_critical_legal] "legal").

(** The same message identifier in another conversation is another message. *)
Definition demo_other_thread : M database CaseServiceResult :=
  record_handoff 3 (demo_scope customer)
    (mkCaseTrigger "thread-2" "message-1" (Some "ORD-10001") (Some rl_high) [rc_legal]
       "I will call my lawyer") demo_decision.

Lemma record_handoff_outcome_witness :
  action_of (outcome demo_handoff empty_db) = Some ca_created ∧
  action_of (outcome demo_other_thread demo_db) = Some ca_created ∧
  action_of (outcome demo_handoff demo_db) = Some ca_duplicate_ignored ∧
  action_of (outcome demo_followup demo_db) = Some ca_event_appended ∧
  handoff_ending (demo_scope customer) demo_trigger demo_decision (λ _ _, True)
    (outcome demo_handoff empty_db) (commits demo_handoff empty_db).
Proof.
  do 4 (split; [vm_compute; reflexivity|]).
  exact (runs_outcome _ _ _ empty_db (proj1 (record_handoff_outcome idle_ambient 3 (demo_scope customer)
    demo_trigger demo_decision others_ok_idle)) case_db_ok_empty).
Defined.

(** Recording a delivery investigation has the endings of a handoff, and whenever it
    commits the same transaction leaves the outbox holding a provider command for that
    case: no investigation is opened or extended without its command. *)
Theorem record_delivery_investigation_outcome (amb : Ambient database) (n : nat)
    (s : AccessScope) (t : CaseTrigger) (d : HandoffDecision) (issue : DeliveryIssueType)
    (connection_id : string) :
  others_ok amb →
  runs amb case_db_ok (record_delivery_investigation n s t d issue connection_id)
    (handoff_ending s t d case_has_command).
Proof. apply record_delivery_investigation_runs. Qed.

Definition demo_delivery_decision : HandoffDecision :=
  mkHandoffDecision true (Some ct_delivery_investigation) (Some p1) [hr_delivery_failed] "late".
Definition demo_investigation : M database CaseServiceResult :=
  record_delivery_investigation 3 (demo_scope customer) demo_trigger demo_delivery_decision
    di_other_delivery_issue "carrier-1".

Lemma record_delivery_investigation_outcome_witness :
  action_of (outcome demo_investigation empty_db) = Some ca_created ∧
  size (outbox_messages (after demo_investigation empty_db)) = 1%nat ∧
  handoff_ending (demo_scope customer) demo_trigger demo_delivery_decision case_has_command
    (outcome demo_investigation empty_db) (commits demo_investigation empty_db).
Proof.
  do 2 (split; [vm_compute; reflexivity|]).
  exact (runs_outcome _ _ _ empty_db (record_delivery_investigation_outcome idle_ambient 3
    (demo_scope customer) demo_trigger demo_delivery_decision di_other_delivery_issue "carrier-1" others_ok_idle) case_db_ok_empty).
Defined.

(** * Workers that run the case service *)

(** The operations of [CaseService] that write. *)
Inductive case_call :=
  | CallHandoff (t : CaseTrigger) (d : HandoffDecision)
  | CallInvestigation (t : CaseTrigger) (d : HandoffDecision) (issue : DeliveryIssueType)
      (connection_id : string)
  | CallStatus (case_id : uuid) (target : CaseStatus) (request : string)
      (reason : option OnHoldReason)
  | CallAssign (case_id : uuid) (agent request : string).

Definition run_case_call (n : nat) (directory : option IdentityDirectory) (s : AccessScope)
    (call : case_call) : M database CaseServiceResult :=
  match call with
  | CallHandoff t d => record_handoff n s t d
  | CallInvestigation t d issue conn => record_delivery_investigation n s t d issue conn
  | CallStatus i target request reason => change_status n s i target request reason
  | CallAssign i agent request => assign_case n directory s i agent request
  end.

(** What a commit of a caller in tenant [tenant] leaves alone: every row of another
    tenant, every recorded event, the order operations. *)
Definition confined (tenant : string) (d d' : database) : Prop :=
  (∀ i c, support_cases d !! i = Some c → c_tenant_id c ≠ tenant → support_cases d' !! i = Some c)
  ∧ (∀ i c, support_cases d' !! i = Some c → c_tenant_id c ≠ tenant → support_cases d !! i = Some c)
  ∧ (∃ e, support_case_events d' = support_case_events d ++ [e] ∧ ev_tenant_id e = tenant)
  ∧ order_operations d' = order_operations d
  ∧ order_operation_events d' = order_operation_events d.

Lemma case_committed_confined s old c e d d' :
  case_committed s old c e d d' → confined (sc_tenant_id s) d d'.
Proof.
  intros H. split; [intros; by eapply case_committed_tenant|]. destruct H as [_ Hr He [_ Hte] Ht _ _ [Ho Hoe] _ _]. split_and!; [| |done|done].
  - intros i x. rewrite Hr, lookup_insert. case_decide; [|done]. naive_solver.
  - exists e. split; [done|]. congruence.
Qed.

(** The commits an ending allows. *)
Definition at_most_one (P : database → database → Prop) (cs : list (database * database)) : Prop :=
  cs = [] ∨ ∃ d d', cs = [(d, d')] ∧ P d d'.

Lemma audited_at_most_one s step action r cs (P : database → database → Prop) :
  (∀ old c e d d', case_committed s old c e d d' → P d d') →
  audited s step action r cs → at_most_one P cs.
Proof.
  intros HP. unfold at_most_one, update_committed. destruct r as [res|e]; cbn.
  - intros [(_ & old & new & ev & d & d' & -> & _ & _ & (Hc & _) & _)|[_ ->]]; [|by left]. eauto 10.
  - intros [->|(_ & old & new & ev & d & d' & -> & (Hc & _) & _)]; [by left|]. eauto 10.
Qed.

Lemma handoff_at_most_one s t d queued r cs (P : database → database → Prop) :
  (∀ old c e d d', case_committed s old c e d d' → P d d') →
  handoff_ending s t d queued r cs → at_most_one P cs.
Proof.
  intros HP [Hw|(res & _ & -> & _)]; [|by left]. unfold at_most_one, handed_off in *.
  destruct r as [res|e]; cbn in Hw; unfold handed_off in Hw.
  - destruct Hw as (old & new & ev & _ & d1 & d2 & -> & Hc & _). eauto 10.
  - destruct Hw as [->|(_ & old & new & ev & d1 & d2 & -> & Hc & _)]; [by left|]. eauto 10.
Qed.

Lemma case_call_commits amb n directory s call (P : database → database → Prop) :
  others_ok amb → (∀ old c e d d', case_committed s old c e d d' → P d d') →
  runs amb case_db_ok (run_case_call n directory s call) (λ _, at_most_one P).
Proof.
  intros Hamb HP. destruct call; cbn [run_case_call]; eapply runs_weaken.
  - by apply record_handoff_runs.
  - intros. by eapply handoff_at_most_one.
  - by apply record_delivery_investigation_runs.
  - intros. by eapply handoff_at_most_one.
  - by apply change_status_runs.
  - intros. by eapply audited_at_most_one.
  - by apply assign_case_runs.
  - intros. by eapply audited_at_most_one.
Qed.

(** C6: whatever a caller asks of the case service and whatever the other workers do in
    the meantime, the call commits at most once, and the commit keeps every stored row
    and event readable, never deletes a case or rewrites its identity, raises the version
    of any row it changes, and is confined to the caller's tenant.  This is exactly what
    the call assumes of the other workers, so any number of them can run together. *)
Theorem case_service_closed (amb : Ambient database) (n : nat)
    (directory : option IdentityDirectory) (s : AccessScope) (call : case_call) :
  others_ok amb →
  runs amb case_db_ok (run_case_call n directory s call)
    (λ _, at_most_one (λ d d', case_db_ok d' ∧ cases_evolve d d' ∧ confined (sc_tenant_id s) d d')).
Proof.
  intros Hamb. apply case_call_commits; [done|]. intros old c e d d' H.
  split_and!; [apply H|by eapply case_committed_evolves|by eapply case_committed_confined].
Qed.

Lemma case_service_closed_witness :
  action_of (outcome (run_case_call 3 None (demo_scope supervisor)
    (CallStatus demo_case_id cs_resolved "r3" None)) demo_db) = None ∧
  length (commits (run_case_call 3 None (demo_scope supervisor)
    (CallStatus demo_case_id cs_in_progress "r3" None)) demo_db) = 1%nat ∧
  at_most_one (λ d d', case_db_ok d' ∧ cases_evolve d d'
                       ∧ confined (sc_tenant_id (demo_scope supervisor)) d d')
    (commits (run_case_call 3 None (demo_scope supervisor)
       (CallStatus demo_case_id cs_in_progress "r3" None)) demo_db).
Proof.
  do 2 (split; [vm_compute; reflexivity|]).
  exact (runs_outcome _ _ _ demo_db (case_service_closed idle_ambient 3 None (demo_scope supervisor)
    (CallStatus demo_case_id cs_in_progress "r3" None) others_ok_idle) case_db_ok_demo).
Defined.

(** * Retried requests *)

(** The tenant's timeline holds an event under the key. *)
Definition recorded (tenant key : string) (d : database) : Prop :=
  ∃ e, e ∈ support_case_events d ∧ ev_tenant_id e = tenant ∧ ev_idempotency_key e = key.

(** Events are never removed. *)
Definition events_kept (amb : Ambient database) : Prop :=
  ∀ n d e, e ∈ support_case_events d → e ∈ support_case_events (interfere amb n d).

Lemma rely_recorded amb tenant key :
  others_ok amb → events_kept amb → rely amb (λ d, case_db_ok d ∧ recorded tenant key d).
Proof.
  intros Hamb Hk n d [Hd (e & He & ? & ?)]. split; [by apply Hamb|]. exists e. auto.
Qed.

Lemma event_by_key_recorded tenant key d :
  recorded tenant key d → ∃ e, event_by_key d tenant key = Some e.
Proof.
  intros (e & He & Ht & Hk). unfold event_by_key.
  destruct (list_find _ _) as [[i x]|] eqn:E; [by exists x|].
  apply list_find_None in E. rewrite Forall_forall in E. by destruct (E e He).
Qed.

Definition answered_or_failed (s : AccessScope) (r : res CaseServiceResult) : Prop :=
  match r with Ok res => answered s ca_status_unchanged res | Err _ => True end.

Section Replay.
Context (amb : Ambient database) (Hamb : others_ok amb) (Hkept : events_kept amb).

(** Looking up a recorded key finds the event or fails. *)
Lemma runs_find_recorded {A} s key (k : option SupportCaseEvent → M database A) Q :
  (∀ e, Q (Err e) []) →
  (∀ ev, runs amb (λ d, case_db_ok d ∧ recorded (sc_tenant_id s) key d) (k (Some ev)) Q) →
  runs amb (λ d, case_db_ok d ∧ recorded (sc_tenant_id s) key d)
    (bind (find_event_by_idempotency_key s key) k) Q.
Proof.
  intros He Hk. eapply runs_bind_pure with (Qa := λ o, ∃ ev, o = Some ev).
  - apply runs_query; [by apply rely_recorded| |done]. intros d [Hd Hr]. split; [done|].
    destruct (event_by_key_recorded _ _ _ Hr) as [ev Hev]. rewrite Hev. cbn.
    destruct (SupportCaseEvent_validate ev); cbn; eauto.
  - intros o [ev ->]. apply Hk.
Qed.

Lemma runs_replay_recorded s key ev :
  runs amb (λ d, case_db_ok d ∧ recorded (sc_tenant_id s) key d) (replay_previous s ev)
    (λ r cs, cs = [] ∧ answered_or_failed s r).
Proof.
  eapply runs_weaken; [apply replay_previous_runs|].
  - by apply rely_recorded.
  - by intros d [].
  - by intros [res|e] cs.
Qed.

Lemma change_status_recorded n s i target request reason :
  runs amb (λ d, case_db_ok d ∧
              recorded (sc_tenant_id s) (status_idempotency_key i (strip request)) d)
    (change_status n s i target request reason) (λ r cs, cs = [] ∧ answered_or_failed s r).
Proof.
  unfold change_status. do 2 (apply runs_lift_bind; [done|]; intros _ _).
  apply runs_lift_bind; [done|]. intros actor _.
  apply runs_find_recorded; [done|]. intros ev. apply runs_replay_recorded.
Qed.

Lemma assign_case_recorded n directory s i agent request :
  runs amb (λ d, case_db_ok d ∧
              recorded (sc_tenant_id s) (assign_idempotency_key i (strip request)) d)
    (assign_case n directory s i agent request) (λ r cs, cs = [] ∧ answered_or_failed s r).
Proof.
  unfold assign_case. apply runs_lift_bind; [done|]. intros _ _.
  apply runs_lift_bind; [done|]. intros agent' _.
  apply runs_lift_bind; [done|]. intros _ _.
  apply runs_lift_bind; [done|]. intros actor _.
  apply runs_find_recorded; [done|]. intros ev. apply runs_replay_recorded.
Qed.
End Replay.

(** The commit of a call leaves its key recorded. *)
Lemma audited_recorded s (step : _ → _ → _ → Prop) action key r cs d d' :
  (∀ old new ev, step old new ev → ev_idempotency_key ev = key) →
  audited s step action r cs → (d, d') ∈ cs → recorded (sc_tenant_id s) key d'.
Proof.
  intros Hkey Ha Hin.
  assert (∃ old new ev, update_committed s old new ev d d' ∧ step old new ev)
    as (old & new & ev & [Hc _] & Hs).
  { destruct r as [res|e]; cbn in Ha; destruct_or!; destruct_exs; subst;
      try (by apply elem_of_nil in Hin); apply list_elem_of_singleton in Hin; simplify_eq; eauto. }
  exists ev. destruct Hc as [_ _ Hev [_ Hte] Ht _ _ _ _ _]. rewrite Hev.
  split_and!; [set_solver|congruence|by eapply Hkey].
Qed.

(** C8: a status change or an assignment takes effect at most once per case and request
    identifier: a call that commits leaves its key recorded, and from any database in
    which the key is recorded every later call with the same case and request, from any
    caller of the tenant and with any other arguments, commits nothing and answers with
    the stored case or an error, while other workers keep committing. *)
Theorem requests_take_effect_once (amb : Ambient database) (n : nat)
    (directory : option IdentityDirectory) (s : AccessScope) (i : uuid) (request : string) :
  others_ok amb → events_kept amb →
  let status_key := status_idempotency_key i (strip request) in
  let assign_key := assign_idempotency_key i (strip request) in
  (∀ target reason, runs amb case_db_ok (change_status n s i target request reason)
     (λ _ cs, ∀ d d', (d, d') ∈ cs → recorded (sc_tenant_id s) status_key d'))
  ∧ (∀ agent, runs amb case_db_ok (assign_case n directory s i agent request)
     (λ _ cs, ∀ d d', (d, d') ∈ cs → recorded (sc_tenant_id s) assign_key d'))
  ∧ (∀ target reason,
     runs amb (λ d, case_db_ok d ∧ recorded (sc_tenant_id s) status_key d)
       (change_status n s i target request reason) (λ r cs, cs = [] ∧ answered_or_failed s r))
  ∧ (∀ agent,
     runs amb (λ d, case_db_ok d ∧ recorded (sc_tenant_id s) assign_key d)
       (assign_case n directory s i agent request) (λ r cs, cs = [] ∧ answered_or_failed s r)).
Proof.
  intros Hamb Hk. cbv zeta. split_and!; intros.
  - eapply runs_weaken; [by apply change_status_runs|]. intros r cs Ha d d' Hin.
    eapply audited_recorded; [|exact Ha|exact Hin]. intros old new ev []. tauto.
  - eapply runs_weaken; [by apply assign_case_runs|]. intros r cs Ha d d' Hin.
    eapply audited_recorded; [|exact Ha|exact Hin]. intros old new ev []. tauto.
  - by apply change_status_recorded.
  - by apply assign_case_recorded.
Qed.

Lemma requests_take_effect_once_witness :
  length (commits demo_change demo_db) = 1%nat ∧
  commits demo_change (after demo_change demo_db) = [] ∧
  runs idle_ambient (λ d, case_db_ok d ∧
      recorded "tenant-a" (status_idempotency_key demo_case_id (strip "r1")) d)
    demo_change (λ r cs, cs = [] ∧ answered_or_failed (demo_scope supervisor) r).
Proof.
  do 2 (split; [vm_compute; reflexivity|]).
  exact (proj1 (proj2 (proj2 (requests_take_effect_once idle_ambient 3 None (demo_scope supervisor)
    demo_case_id "r1" others_ok_idle (λ n d e H, H)))) cs_in_progress None).
Defined.

(** * Reopening *)

(** A second case of the thread, opened after the first was resolved. *)
Definition demo_resolved : database :=
  after (change_status 3 (demo_scope supervisor) demo_case_id cs_resolved "r9" None)
    (after demo_change demo_db).
Definition demo_second : database := after demo_followup demo_resolved.

(** A resolved case can be reopened only while its thread has no other unresolved case
    of the type; otherwise the transition, although allowed by the lifecycle, ends in the
    uniqueness conflict of the index, which the service does not translate. *)
Theorem reopening_conflict_escapes :
  c_status <$> support_cases demo_second !! demo_case_id = Some cs_resolved ∧
  case_transition_allowed cs_resolved cs_open = true ∧
  outcome (change_status 3 (demo_scope supervisor) demo_case_id cs_open "r10" None) demo_second
    = Err ActiveCaseConflictError ∧
  action_of (outcome (change_status 3 (demo_scope supervisor) demo_case_id cs_open "r10" None)
    demo_resolved) = Some ca_status_changed.
Proof. vm_compute. auto. Qed.
