(* ===== verification/DirectoryGuarantees.v ===== *)
(** The answers of the personnel directory, and what the case service makes of them: where an
    attribute stands in a SCIM resource, what a returned user stands for, and that nobody is
    assigned a case on the word of a directory that did not answer. *)
From S2P Require Import Prelude Effects Auth Hmac Retry Connections IdentityConfig Jwks Authentication IdentityRuntime OperationModels CaseModels CasePolicy Envelope Database Transactions CaseRepository CaseService CaseSafety CaseTheorems HandoffTheorems CaseGuarantees.

(** * Where an attribute stands *)

(** The value at a list of keys, one dict inside the other. *)
Inductive reaches : pyjson → list string → pyjson → Prop :=
  | reaches_here v : reaches v [] v
  | reaches_inside fields part w parts v :
      dict_get part fields = Some w → reaches w parts v → reaches (PyDict fields) (part :: parts) v.

(** The parts of a dotted path. *)
Definition dotted (path : string) (parts : list string) : Prop :=
  parts ≠ [] ∧ String.concat "." parts = path ∧ Forall (λ p, has_char "." p = false) parts.

(** The value of an attribute path in a resource: the member of that very name; or else, inside
    the member whose name and a colon begin the path (the longest such name), the value at what
    remains of the path; or else the value at the whole path. *)
Inductive attribute (resource : pydict) (path : string) (v : pyjson) : Prop :=
  | attribute_whole :
      dict_get path resource = Some v → attribute resource path v
  | attribute_of_schema key rest inner parts :
      dict_get path resource = None → path = key +:+ ":" +:+ rest → dict_get key resource = Some inner →
      (∀ key' rest', key' ∈ resource.*1 → path = key' +:+ ":" +:+ rest' → (String.length key' ≤ String.length key)%nat) →
      dotted rest parts → reaches inner parts v → attribute resource path v
  | attribute_at_path parts :
      dict_get path resource = None →
      (∀ key rest, key ∈ resource.*1 → path ≠ key +:+ ":" +:+ rest) →
      dotted path parts → reaches (PyDict resource) parts v → attribute resource path v.

Lemma after_prefix_some p s r : after_prefix p s = Some r ↔ s = p +:+ r.
Proof.
  revert s. induction p as [|c p IH]; intros s; cbn; [by split; [intros [= ->]|intros ->]|].
  destruct s as [|c' s]; [done|]. destruct (Ascii.eqb_spec c c') as [->|Hne].
  - rewrite IH. by split; [intros ->|intros [= ->]].
  - by split; [|intros [= ? _]].
Qed.

Lemma split_on_dotted c s :
  split_on c s ≠ [] ∧ String.concat (String c "") (split_on c s) = s ∧
  Forall (λ p, has_char c p = false) (split_on c s).
Proof.
  induction s as [|d s (Hne & Hc & Hf)]; cbn; [by repeat constructor|].
  destruct (Ascii.eqb_spec c d) as [->|Hd].
  - split; [done|]. split; [|by constructor]. destruct (split_on d s) as [|x l]; [done|]. by rewrite <- Hc.
  - destruct (split_on c s) as [|x l]; [done|]. split; [done|]. inversion_clear Hf.
    split; [by rewrite <- Hc; destruct l|]. constructor; [|done]. cbn.
    destruct (Ascii.eqb_spec c d); [done|]. done.
Qed.

Lemma follow_path_reaches v parts w : follow_path v parts = w → w ≠ PyNone → reaches v parts w.
Proof.
  revert v. induction parts as [|part parts IH]; intros v; cbn; [intros -> _; constructor|].
  destruct v as [| | | | | |fields]; try (by intros <-). destruct (dict_get part fields) as [x|] eqn:E; [|by intros <-].
  intros H Hw. econstructor; [exact E|by apply IH].
Qed.

Lemma dict_get_key {V} k (l : list (string * V)) : k ∈ l.*1 → is_Some (dict_get k l).
Proof.
  induction l as [|[k' v] l IH]; cbn; [by intros ?%not_elem_of_nil|]. case_decide as Hk; [by eexists|].
  intros [->|Hl]%elem_of_cons; [done|auto].
Qed.

#[local] Existing Instance longer_first_dec.

(** The key the adapter chooses is a longest one. *)
Lemma schema_keys_spec resource path :
  match schema_keys resource path with
  | [] => ∀ key rest, key ∈ resource.*1 → path ≠ key +:+ ":" +:+ rest
  | key :: _ => key ∈ resource.*1 ∧ (∃ rest, after_prefix (key +:+ ":") path = Some rest) ∧
      ∀ key' rest', key' ∈ resource.*1 → path = key' +:+ ":" +:+ rest' → (String.length key' ≤ String.length key)%nat
  end.
Proof.
  unfold schema_keys. set (l := filter _ _).
  assert (∀ key, key ∈ l ↔ (∃ rest, path = key +:+ ":" +:+ rest) ∧ key ∈ resource.*1) as Hl.
  { intros key. unfold l. rewrite list_elem_of_filter. unfold is_Some. setoid_rewrite after_prefix_some.
    by setoid_rewrite append_assoc. }
  assert (Total longer_first) as Ht by (intros a b; unfold longer_first; lia).
  assert (Transitive longer_first) as Htr by (intros a b c; unfold longer_first; lia).
  pose proof (StronglySorted_merge_sort longer_first l) as Hs. pose proof (merge_sort_Permutation longer_first l) as Hp.
  destruct (merge_sort longer_first l) as [|key keys] eqn:E.
  - apply Permutation_nil in Hp. intros key rest Hk ->. apply (not_elem_of_nil key). rewrite <- Hp. apply Hl. eauto.
  - assert (key ∈ l) as [[rest Hr] Hk]%Hl by (rewrite <- Hp; left). split; [done|]. split.
    { exists rest. apply after_prefix_some. by rewrite append_assoc. }
    intros key' rest' Hk' Hr'. assert (key' ∈ key :: keys) as Hin by (rewrite Hp; apply Hl; eauto).
    apply elem_of_cons in Hin as [->|Hin]; [done|]. inversion_clear Hs as [|? ? _ Hall].
    rewrite Forall_forall in Hall. exact (Hall _ Hin).
Qed.

Lemma read_attribute_found resource path v : read_attribute resource path = v → v ≠ PyNone → attribute resource path v.
Proof.
  unfold read_attribute. destruct (dict_get path resource) as [w|] eqn:Ew; [intros -> _; by constructor|].
  pose proof (schema_keys_spec resource path) as Hs. destruct (schema_keys resource path) as [|key keys].
  - intros H Hv. by eapply attribute_at_path; [|exact Hs|apply split_on_dotted|apply follow_path_reaches].
  - destruct Hs as (Hk & [rest Hr] & Hmax). rewrite Hr. cbn. unfold py_get.
    destruct (dict_get_key _ _ Hk) as [inner Hi]. rewrite Hi. cbn. intros H Hv.
    apply after_prefix_some in Hr. rewrite append_assoc in Hr.
    by eapply attribute_of_schema; [| |exact Hi|exact Hmax|apply split_on_dotted|apply follow_path_reaches].
Qed.

(** * What a returned user stands for *)

Definition lists_schema (schema : string) (fields : pydict) : Prop :=
  ∃ l, dict_get "schemas" fields = Some (PyList l) ∧ PyStr schema ∈ l.

(** An item of the role attribute names a role: a string, or an object with a value. *)
Definition names_role (item : pyjson) (x : string) : Prop :=
  x ≠ "" ∧ ∃ raw, x = strip raw ∧
    (item = PyStr raw ∨ ∃ fields, item = PyDict fields ∧ dict_get "value" fields = Some (PyStr raw)).

Section Directory.
Context (d : ScimDirectory).
Let config := sd_config d.

(** The service answered the query for this user with this object: the response to the
    authorised request was a success, complete, within the size limit, and decoded. *)
Definition service_answers (tenant_id user_id : string) (fields : pydict) : Prop :=
  ∃ r params, sd_client d (mkScimRequest (rstrip_slash (base_url config) +:+ "/Users") params
                 [("Accept", "application/scim+json"); ("Authorization", "Bearer " +:+ bearer_token config)]
                 (timeout_seconds config)) = Some r ∧
    ("filter", scim_filter d tenant_id user_id) ∈ params ∧
    200 ≤ gr_status_code r < 300 ∧ gr_complete r = true ∧
    Z.of_nat (length (concat (gr_chunks r))) ≤ 1048576 ∧
    sd_json d (concat (gr_chunks r)) = Some (PyDict fields).

(** The resource says it is this user, and who it is. *)
Definition describes (resource : pydict) (tenant_id user_id : string) (u : DirectoryUser) : Prop :=
  lists_schema USER_SCHEMA resource ∧
  attribute resource (user_id_attribute config) (PyStr user_id) ∧
  attribute resource (tenant_id_attribute config) (PyStr tenant_id) ∧
  attribute resource (active_attribute config) (PyBool (du_active u)) ∧
  du_user_id u = strip user_id ∧ du_tenant_id u = strip tenant_id ∧
  ∃ items external, attribute resource (roles_attribute config) (PyList items) ∧
    Forall2 names_role items external ∧
    ∀ r, r ∈ du_roles u ↔ ∃ allowed x, (r, allowed) ∈ role_mapping config ∧ x ∈ external ∧ x ∈ allowed.

(** The resource is somebody else's. *)
Definition names_another (resource : pydict) (tenant_id user_id : string) : Prop :=
  ∃ tenant user, attribute resource (user_id_attribute config) (PyStr user) ∧
    attribute resource (tenant_id_attribute config) (PyStr tenant) ∧ (tenant ≠ tenant_id ∨ user ≠ user_id).

Lemma read_bounded_ok limit e chunks complete body x :
  read_bounded limit e chunks complete body = Ok x → Z.of_nat (length body) ≤ limit →
  x = body ++ concat chunks ∧ complete = true ∧ Z.of_nat (length x) ≤ limit.
Proof.
  revert body. induction chunks as [|chunk chunks IH]; intros body; cbn.
  - destruct complete; intros [= <-] Hl. by rewrite app_nil_r.
  - intros (? & Hb%raise_if_ok & H)%res_bind_ok _. apply IH in H as (-> & ? & ?); [|lia]. by rewrite <- app_assoc in *.
Qed.

Lemma get_json_ok t u fields :
  get_json d (users_url d) (user_query d t u) = Ok (PyDict fields) → service_answers t u fields.
Proof.
  unfold get_json, service_answers. destruct (sd_client d _) as [r|] eqn:E; [|done].
  intros (? & Hs%raise_if_ok & (body & Hb & H)%res_bind_ok)%res_bind_ok. apply read_bounded_ok in Hb as (-> & Hc & Hl); [|done].
  exists r, (user_query d t u). split; [exact E|]. split; [by left|]. split; [lia|]. split; [done|]. split; [exact Hl|].
  cbn in H. by destruct (sd_json d (concat (gr_chunks r))); simplify_eq.
Qed.

Lemma has_schema_lists schema fields : has_schema schema (py_get "schemas" fields) = true → lists_schema schema fields.
Proof.
  unfold has_schema, py_get, lists_schema. destruct (dict_get "schemas" fields) as [[| | | | |l|]|]; try done. cbn.
  intros (v & Hv & Hs)%existsb_exists. exists l. split; [done|]. destruct v; try done.
  apply String.eqb_eq in Hs as ->. by apply list_elem_of_In.
Qed.

Lemma external_roles_named items l : external_roles items = Some l → Forall2 names_role items l.
Proof.
  revert l. induction items as [|item items IH]; intros l; cbn; [intros [= <-]; constructor|].
  destruct (external_role item) as [x|] eqn:Ex; [|done]. cbn.
  destruct (external_roles items) as [rs|]; [|done]. intros [= <-]. constructor; [|by apply IH].
  unfold external_role, py_get in Ex. unfold names_role.
  destruct item as [| | | |raw| |fields]; try done; [|destruct (dict_get "value" fields) as [[| | | |raw| |]|] eqn:Ev; try done];
    cbn in Ex; destruct (nonempty (strip raw)) eqn:En; try done; injection Ex as <-; apply nonempty_true in En; eauto 10.
Qed.

Lemma DirectoryUser_validate_ok u u' :
  DirectoryUser_validate u = Ok u' →
  u' = mkDirectoryUser (strip (du_user_id u)) (strip (du_tenant_id u)) (du_active u) (du_roles u) ∧
  ∃ key, encode_identity_key (du_tenant_id u') (du_user_id u') = Ok key.
Proof.
  unfold DirectoryUser_validate. intros H. apply res_bind_ok in H as (? & _ & H).
  apply res_bind_ok in H as (key & Hk%validating_ok & [= <-]). eauto.
Qed.

Lemma parse_resource_ok resource t u o :
  parse_resource d resource t u = Ok o →
  ∃ fields, resource = PyDict fields ∧
    match o with
    | Some x => describes fields t u x ∧ ∃ key, encode_identity_key (du_tenant_id x) (du_user_id x) = Ok key
    | None => names_another fields t u
    end.
Proof.
  destruct resource as [| | | | | |fields]; try done. unfold parse_resource. intros H.
  apply res_bind_ok in H as (? & Hs%raise_if_ok & H). apply negb_false_iff, has_schema_lists in Hs.
  exists fields. split; [done|].
  destruct (read_attribute fields (user_id_attribute _)) as [| | | |user| |] eqn:Hu; try done.
  destruct (read_attribute fields (tenant_id_attribute _)) as [| | | |tenant| |] eqn:Ht; try done.
  destruct (read_attribute fields (active_attribute _)) as [|active| | | | |] eqn:Ha; try done.
  apply read_attribute_found in Hu, Ht, Ha; try done. destruct (_ || _) eqn:Hsame.
  { injection H as <-. exists tenant, user. split_and!; [done..|]. apply orb_true_iff in Hsame as [Hx|Hx]; apply bool_decide_eq_true in Hx; auto. }
  bools. repeat match goal with H : ¬ (_ ≠ _) |- _ => apply dec_stable in H end. subst.
  apply res_bind_ok in H as (external & He & H).
  destruct (DirectoryUser_validate _) as [x'|] eqn:E; [|done]. injection H as <-.
  apply DirectoryUser_validate_ok in E as (-> & Hk). split; [|done].
  unfold parse_external_roles in He. destruct (read_attribute fields (roles_attribute _)) as [| | | | |items|] eqn:Hr; try done.
  apply read_attribute_found in Hr; [|done].
  destruct (external_roles items) as [rs|] eqn:Hrs; [|done]. injection He as <-. apply external_roles_named in Hrs.
  split_and!; try done. exists items, rs. split_and!; [done..|]. intros r. cbn. rewrite elem_of_matched_roles.
  split.
  - intros (allowed & Hin & Hne). apply set_choose_L in Hne as (y & Hx). apply elem_of_intersection in Hx as [Hx Hxa].
    rewrite elem_of_list_to_set in Hx. eauto.
  - intros (allowed & y & Hin & Hx & Hxa). exists allowed. split; [done|]. intros Hemp.
    assert (y ∈ (list_to_set rs : gset string) ∩ allowed) as Hin'; [|rewrite Hemp in Hin'; set_solver].
    rewrite elem_of_intersection, elem_of_list_to_set. done.
Qed.

Lemma py_get_some key fields v : py_get key fields = v → v ≠ PyNone → dict_get key fields = Some v.
Proof. unfold py_get. destruct (dict_get key fields); cbn; naive_solver. Qed.

Lemma scim_find_user_ok t u o :
  scim_find_user d t u = Ok o →
  ∃ fields resources n, service_answers t u fields ∧ lists_schema LIST_RESPONSE_SCHEMA fields ∧
    dict_get "Resources" fields = Some (PyList resources) ∧ dict_get "totalResults" fields = Some (PyInt n) ∧
    match o with
    | Some x => n = 1 ∧ ∃ resource, resources = [PyDict resource] ∧ describes resource t u x ∧
                  ∃ key, encode_identity_key (du_tenant_id x) (du_user_id x) = Ok key
    | None => n = 0 ∧ resources = [] ∨ n = 1 ∧ ∃ resource, resources = [PyDict resource] ∧ names_another resource t u
    end.
Proof.
  unfold scim_find_user. intros H. apply res_bind_ok in H as (payload & Hp & H).
  destruct payload as [| | | | | |fields]; try done. apply get_json_ok in Hp. unfold parse_user_response in H.
  destruct (py_get "Resources" fields) as [| | | | |resources|] eqn:Hr; try done.
  destruct (py_get "totalResults" fields) as [| |n| | | |] eqn:Hn; try done.
  apply py_get_some in Hr, Hn; [|done..].
  apply res_bind_ok in H as (? & Hs%raise_if_ok & H). apply orb_false_iff in Hs as [Hs _]. apply negb_false_iff, has_schema_lists in Hs.
  exists fields, resources, n. do 4 (split; [done|]).
  destruct (Z.eqb_spec n 0) as [->|].
  { apply res_bind_ok in H as (? & Hnil%raise_if_ok & [= <-]). apply negb_false_iff, bool_decide_eq_true in Hnil. auto. }
  apply res_bind_ok in H as (? & H1%raise_if_ok & H). apply negb_false_iff, Z.eqb_eq in H1 as ->.
  destruct resources as [|resource [|]]; try done. apply parse_resource_ok in H as (f & -> & Hd).
  destruct o; [|right]; (split; [done|]); by exists f.
Qed.
End Directory.

(** * What an assignment rests on *)

Lemma assignment_needs_agent amb n find s case_id agent request :
  others_ok amb →
  runs amb case_db_ok (assign_case n (Some find) s case_id agent request)
    (λ _ cs, cs ≠ [] → ∃ u, find (sc_tenant_id s) (strip agent) = Ok (Some u) ∧
       du_tenant_id u = sc_tenant_id s ∧ du_user_id u = strip agent ∧ du_active u = true ∧
       (support_agent ∈ du_roles u ∨ supervisor ∈ du_roles u)).
Proof.
  intros Hamb. eapply runs_weaken; [by apply assign_case_runs|]. intros r cs Ha Hne.
  assert (∃ old new ev, assigned s (Some find) case_id (strip agent) (assign_idempotency_key case_id (strip request)) old new ev)
    as (old & new & ev & [_ (f & u & [= <-] & Hu) _ _]).
  { destruct r as [res|e]; cbn in Ha; destruct_or!; destruct_exs; subst; try done; eauto. }
  by exists u.
Qed.

(** C23: the directory answers for exactly the person it is asked about, or not at all.  The
    query's filter is one that no other tenant or user would have produced.  Every answer comes
    from a complete and successful response to the authorised query: when a user comes back, it
    held exactly one resource, which names the tenant and the user asked for, says whether the
    user is active, and gives the user precisely the roles that its external roles are mapped to,
    each attribute read where its path says it stands; when nobody comes back, it held no
    resource, or one that names somebody else; and the only failure is that the directory is
    unavailable.  A case is assigned only on the first of these: an assignment commits nothing
    unless the directory returned the assignee, active and with a role that handles cases, so
    that no assignment is made on a failure. *)
Theorem scim_directory_exact (d : ScimDirectory) (tenant_id user_id : string) :
  (∀ tenant_id' user_id', scim_filter d tenant_id user_id = scim_filter d tenant_id' user_id' →
     tenant_id = tenant_id' ∧ user_id = user_id') ∧
  match scim_find_user d tenant_id user_id with
  | Ok o =>
      ∃ fields resources n, service_answers d tenant_id user_id fields ∧ lists_schema LIST_RESPONSE_SCHEMA fields ∧
        dict_get "Resources" fields = Some (PyList resources) ∧ dict_get "totalResults" fields = Some (PyInt n) ∧
        match o with
        | Some u => n = 1 ∧ ∃ resource, resources = [PyDict resource] ∧ describes d resource tenant_id user_id u ∧
                      ∃ key, encode_identity_key (du_tenant_id u) (du_user_id u) = Ok key
        | None => n = 0 ∧ resources = [] ∨
                  n = 1 ∧ ∃ resource, resources = [PyDict resource] ∧ names_another d resource tenant_id user_id
        end
  | Err e => e = DirectoryInfrastructureUnavailableError
  end ∧
  (∀ amb n s case_id agent request, others_ok amb → sc_tenant_id s = tenant_id → strip agent = user_id →
     runs amb case_db_ok (assign_case n (Some (scim_find_user d)) s case_id agent request)
       (λ _ cs, cs ≠ [] → ∃ u, scim_find_user d tenant_id user_id = Ok (Some u) ∧
          du_tenant_id u = tenant_id ∧ du_user_id u = user_id ∧ du_active u = true ∧
          (support_agent ∈ du_roles u ∨ supervisor ∈ du_roles u))).
Proof.
  split_and!.
  - intros t u H. unfold scim_filter in H. apply append_inj_l, append_inj_l in H.
    apply scim_string_inj in H as [-> H]. apply append_inj_l, append_inj_l, append_inj_l in H.
    apply (f_equal (λ s, s +:+ "")) in H. by apply scim_string_inj in H as [-> _].
  - destruct (scim_find_user d tenant_id user_id) as [o|e] eqn:E; [by apply scim_find_user_ok|by apply scim_find_user_raises in E].
  - intros amb n s case_id agent request Hamb <- <-. by apply assignment_needs_agent.
Qed.

Definition demo_scim_assign (d : ScimDirectory) (agent : string) : M database CaseServiceResult :=
  assign_case 3 (Some (scim_find_user d)) (demo_scope supervisor) demo_case_id agent "r2".

(** The service is down. *)
Definition demo_scim_down : ScimDirectory := mkScimDirectory demo_scim_config (λ _, None) (sd_json demo_scim).

Lemma scim_directory_exact_witness :
  action_of (outcome (demo_scim_assign demo_scim "ann") demo_db) = Some ca_assigned ∧
  outcome (demo_scim_assign demo_scim_down "ann") demo_db = Err DirectoryInfrastructureUnavailableError ∧
  (commits (demo_scim_assign demo_scim "ann") demo_db ≠ [] →
   ∃ u, scim_find_user demo_scim "tenant-a" "ann" = Ok (Some u) ∧
     du_tenant_id u = "tenant-a" ∧ du_user_id u = "ann" ∧ du_active u = true ∧
     (support_agent ∈ du_roles u ∨ supervisor ∈ du_roles u)).
Proof.
  do 2 (split; [vm_compute; reflexivity|]).
  exact (runs_outcome _ _ _ demo_db (proj2 (proj2 (scim_directory_exact demo_scim "tenant-a" "ann"))
    idle_ambient 3%nat (demo_scope supervisor) demo_case_id "ann" "r2" others_ok_idle eq_refl eq_refl) case_db_ok_demo).
Defined.
