(* ===== verification/OperationRepository.v ===== *)
(** Order-operation persistence: the association checks of [operations/repository.py] and
    the transactions of [operations/postgres_repository.py]. *)
From S2P Require Import Prelude Effects Auth OperationModels CaseModels Envelope Database CaseRepository.

Definition operation_owner (o : OrderOperation) : row_owner :=
  mkRowOwner (oo_tenant_id o) (oo_customer_id o) None.
Definition operation_event_owner (e : OrderOperationEvent) : row_owner :=
  mkRowOwner (oev_tenant_id e) (oev_customer_id e) None.

(** * Row conversion and error translation *)

(** [_operation_from_row] on an optional row. *)
Definition operation_from_row (o : option OrderOperation) : res (option OrderOperation) :=
  match o with
  | None => Ok None
  | Some row => let* x := OrderOperation_validate row in Ok (Some x)
  end.

Definition operation_event_from_row (o : option OrderOperationEvent) :
    res (option OrderOperationEvent) :=
  match o with
  | None => Ok None
  | Some row => let* x := OrderOperationEvent_validate row in Ok (Some x)
  end.

Definition raise_operation_unique_violation (constraint : string) : exn :=
  if String.eqb constraint "uq_order_operations_active_order" then
    ActiveOrderOperationConflictError
  else if String.eqb constraint "uq_order_operations_source_message" then
    DuplicateOperationSourceMessageError
  else if bool_decide (constraint ∈ ["order_operations_idempotency_key_key";
                                     "order_operation_events_idempotency_key_key"]) then
    DuplicateOperationIdempotencyError
  else OperationPersistenceError.

(** The [except] clauses around an operation transaction. *)
Definition operation_errors {A} (r : pg A) : res A :=
  match r with
  | PgOk a => Ok a
  | PgErr (UniqueViolation k) => Err (raise_operation_unique_violation k)
  | PgErr OtherDatabaseError => Err OperationPersistenceError
  end.

Definition validate_operation_ownership (s : AccessScope) (o : OrderOperation) : res unit :=
  raise_if (bool_decide (oo_tenant_id o ≠ sc_tenant_id s))
    (ValueError "operation tenant_id must match the access scope");;;
  raise_if (bool_decide (Some (oo_customer_id o) ≠ customer_id s))
    (ValueError "operation customer_id must match the access scope").

Definition validate_operation_event_ownership (s : AccessScope) (e : OrderOperationEvent) :
    res unit :=
  raise_if (bool_decide (oev_tenant_id e ≠ sc_tenant_id s))
    (ValueError "event tenant_id must match the access scope");;;
  raise_if (bool_decide (Some (oev_customer_id e) ≠ customer_id s))
    (ValueError "event customer_id must match the access scope").

(** [for event in events: check(event)] *)
Fixpoint for_events (check : OrderOperationEvent → res unit) (es : list OrderOperationEvent) :
    res unit :=
  match es with
  | [] => Ok tt
  | e :: es' => check e;;; for_events check es'
  end.

Definition validate_operation_command_association (operation : OrderOperation)
    (events : list OrderOperationEvent) (command : ProviderCommandEnvelope)
    (expected_version : Z) : res unit :=
  let* command := revalidate_command_envelope command in
  raise_if (bool_decide (oo_status operation ≠ os_queued))
    (ValueError "queue_operation requires a queued operation");;;
  raise_if (negb (oo_version operation =? expected_version + 1))
    (ValueError "operation.version must equal expected_version + 1");;;
  raise_if (bool_decide (e_aggregate_type command ≠ ag_order_operation))
    (ValueError "command.aggregate_type must be 'order_operation'");;;
  raise_if (bool_decide (e_aggregate_id command ≠ oo_operation_id operation))
    (ValueError "command.aggregate_id must match the operation_id");;;
  raise_if (bool_decide (e_tenant_id command ≠ oo_tenant_id operation))
    (ValueError "command.tenant_id must match the operation tenant_id");;;
  raise_if (bool_decide (e_customer_id command ≠ oo_customer_id operation))
    (ValueError "command.customer_id must match the operation customer_id");;;
  raise_if (bool_decide (e_source_message_id command ≠ oo_source_message_id operation))
    (ValueError "command.source_message_id must match the operation source_message_id");;;
  raise_if (bool_decide (e_expected_order_version command ≠ Some (oo_order_version operation)))
    (ValueError "command.expected_order_version must match the operation order_version");;;
  match e_payload command with
  | DeliveryPayload _ => Err (ValueError "command payload must be an order-operation payload")
  | OrderPayload p =>
      raise_if (bool_decide (op_order_id p ≠ oo_order_id operation))
        (ValueError "command payload order_id must match the operation order_id");;;
      raise_if (bool_decide (op_operation_type p ≠ oo_operation_type operation))
        (ValueError "command payload operation_type must match the operation operation_type")
  end;;;
  for_events (λ event,
    raise_if (bool_decide (oev_operation_id event ≠ oo_operation_id operation))
      (ValueError "event.operation_id must match the operation_id");;;
    raise_if (bool_decide (oev_tenant_id event ≠ oo_tenant_id operation))
      (ValueError "event.tenant_id must match the operation tenant_id");;;
    raise_if (bool_decide (oev_customer_id event ≠ oo_customer_id operation))
      (ValueError "event.customer_id must match the operation customer_id")) events.

(** * Queries *)

(** [WHERE operation_id = %s AND visibility] *)
Definition visible_operation (visible : row_owner → bool) (d : database) (operation_id : uuid) :
    option OrderOperation :=
  match order_operations d !! operation_id with
  | Some o => if visible (operation_owner o) then Some o else None
  | None => None
  end.

Definition repo_get_operation (s : AccessScope) (operation_id : uuid) :
    M database (option OrderOperation) :=
  visible <- lift (customer_owned_visibility s);
  query OperationPersistenceError
    (λ d, operation_from_row (visible_operation visible d operation_id)).

(** [cursor.fetchone()]: at most one row carries the message, by
    [uq_order_operations_source_message]. *)
Definition operation_by_message (visible : row_owner → bool) (thread_id source_message_id : string)
    (d : database) : option OrderOperation :=
  head (filter (λ o, oo_thread_id o = thread_id ∧ oo_source_message_id o = source_message_id
                     ∧ visible (operation_owner o) = true) (rows (order_operations d))).

Definition find_operation_by_source_message (s : AccessScope)
    (thread_id source_message_id : string) : M database (option OrderOperation) :=
  visible <- lift (customer_owned_visibility s);
  query OperationPersistenceError
    (λ d, operation_from_row (operation_by_message visible thread_id source_message_id d)).

Definition operation_event_by_key (visible : row_owner → bool) (key : string) (d : database) :
    option OrderOperationEvent :=
  snd <$> list_find (λ e, oev_idempotency_key e = key ∧ visible (operation_event_owner e) = true)
            (order_operation_events d).

Definition find_operation_event_by_idempotency_key (s : AccessScope) (key : string) :
    M database (option OrderOperationEvent) :=
  visible <- lift (customer_owned_visibility s);
  query OperationPersistenceError
    (λ d, operation_event_from_row (operation_event_by_key visible key d)).

Definition operation_order (o : OrderOperation) : instant * uuid :=
  (oo_created_at o, oo_operation_id o).

Definition active_by_order (visible : row_owner → bool) (order_id : string) (d : database) :
    option OrderOperation :=
  first_row operation_order
    (filter (λ o, oo_order_id o = order_id ∧ active_operation (oo_status o) = true
                  ∧ visible (operation_owner o) = true) (rows (order_operations d))).

Definition find_active_by_order_id (s : AccessScope) (order_id : string) :
    M database (option OrderOperation) :=
  visible <- lift (customer_owned_visibility s);
  query OperationPersistenceError (λ d, operation_from_row (active_by_order visible order_id d)).

(** * Transactions *)

Definition create_operation_with_events (s : AccessScope) (operation : OrderOperation)
    (events : list OrderOperationEvent) : M database unit :=
  lift (validate_operation_ownership s operation);,
  lift (for_events (validate_operation_event_ownership s) events);,
  transact OperationPersistenceError (λ d,
    let* d' := operation_errors
      (pg_bind (insert_order_operation operation d) (insert_operation_events events)) in
    Ok (tt, d')).

(** [UPDATE ... WHERE operation_id = %s AND version = %s AND visibility]; [None] when the
    row count is not one. *)
Definition update_operation_row (visible : row_owner → bool) (operation : OrderOperation)
    (expected_version : Z) (d : database) : option (pg database) :=
  match visible_operation visible d (oo_operation_id operation) with
  | Some old =>
      if bool_decide (oo_version old = expected_version)
      then Some (put_order_operation (updated_operation_row old operation) d) else None
  | None => None
  end.

Definition update_operation_with_events (s : AccessScope) (operation : OrderOperation)
    (events : list OrderOperationEvent) (expected_version : Z) : M database unit :=
  lift (validate_operation_ownership s operation);,
  lift (for_events (validate_operation_event_ownership s) events);,
  visible <- lift (customer_owned_visibility s);
  transact OperationPersistenceError (λ d,
    match update_operation_row visible operation expected_version d with
    | None => Err ConcurrentOperationUpdateError
    | Some updated =>
        let* d' := operation_errors (pg_bind updated (insert_operation_events events)) in
        Ok (tt, d')
    end).

Definition queue_operation_with_events_and_command (s : AccessScope) (operation : OrderOperation)
    (events : list OrderOperationEvent) (command : ProviderCommandEnvelope)
    (expected_version : Z) : M database unit :=
  lift (validate_operation_command_association operation events command expected_version);,
  lift (validate_operation_ownership s operation);,
  lift (for_events (validate_operation_event_ownership s) events);,
  visible <- lift (customer_owned_visibility s);
  transact OperationPersistenceError (λ d,
    match update_operation_row visible operation expected_version d with
    | None => Err ConcurrentOperationUpdateError
    | Some updated =>
        let* d' := operation_errors
          (pg_bind (pg_bind updated (insert_operation_events events))
             (insert_outbox_message command ob_pending (oo_updated_at operation)
                (oo_updated_at operation))) in
        Ok (tt, d')
    end).
