(* ===== verification/OperationService.v ===== *)
(** The confirmation-gated lifecycle of order operations: [operations/service.py]. *)
From S2P Require Import Prelude Effects Auth OperationModels CaseModels Envelope Database CaseRepository OperationRepository.

(** [_ALLOWED_STATUS_TRANSITIONS] *)
Definition operation_transition_allowed (current target : OperationRecordStatus) : bool :=
  match current, target with
  | os_pending_confirmation,
      (os_queued | os_submitted | os_manual_review | os_rejected | os_cancelled_by_customer)
  | os_queued, (os_submitted | os_manual_review | os_rejected)
  | os_submitted, (os_processing | os_completed | os_rejected)
  | os_processing, (os_completed | os_rejected)
  | os_manual_review, (os_processing | os_completed | os_rejected) => true
  | _, _ => false
  end.

Definition validate_operation_status_transition (current target : OperationRecordStatus) : res unit :=
  raise_if (negb (operation_transition_allowed current target)) InvalidOperationStatusTransition.

Definition validate_request_metadata (request_id actor : string) : res (string * string) :=
  let normalized_request_id := strip request_id in
  let normalized_actor := strip actor in
  raise_if (negb (nonempty normalized_request_id)) (ValueError "request_id must not be empty");;;
  raise_if (negb (nonempty normalized_actor)) (ValueError "actor must not be empty");;;
  Ok (normalized_request_id, normalized_actor).

(** [a or b] on optional strings: the empty string is falsy. *)
Definition ref_or (a b : option string) : option string :=
  match a with Some r => if nonempty r then a else b | None => b end.

(** * Keys *)

(** [f"operation:{operation_id}:{label}:{request_id}"] *)
Definition operation_key (operation_id : uuid) (label request_id : string) : string :=
  "operation:" +:+ uuid_str operation_id +:+ ":" +:+ label +:+ ":" +:+ request_id.
Definition created_key (thread_id source_message_id : string) : string :=
  "operation:" +:+ thread_id +:+ ":" +:+ source_message_id +:+ ":created".
Definition provider_key (operation_id : uuid) : string :=
  "provider:operation:" +:+ uuid_str operation_id.

(** * Building rows *)

(** [current.model_copy(update=...)]: a copy, not a validation. *)
Definition with_operation_status (c : OrderOperation) (target : OperationRecordStatus)
    (provider_reference : option string) (now : instant) : OrderOperation :=
  mkOrderOperation (oo_operation_id c) (oo_idempotency_key c) (oo_thread_id c)
    (oo_source_message_id c) (oo_order_id c) (oo_operation_type c) (oo_request_reason_code c)
    (oo_policy_reason_codes c) (oo_display_reason c) (oo_replacement_variant_id c)
    (oo_request_excerpt c) (oo_order_version c) (oo_amount c) (oo_currency c)
    (oo_requires_manual_review c) (oo_review_case_type c) (oo_review_priority c)
    (oo_support_case_id c) (ref_or provider_reference (oo_provider_reference c)) target
    (oo_created_at c) now (oo_version c + 1) (oo_customer_id c) (oo_tenant_id c)
    (oo_created_by c).

Definition with_support_case (c : OrderOperation) (case_id : uuid) (now : instant) : OrderOperation :=
  mkOrderOperation (oo_operation_id c) (oo_idempotency_key c) (oo_thread_id c)
    (oo_source_message_id c) (oo_order_id c) (oo_operation_type c) (oo_request_reason_code c)
    (oo_policy_reason_codes c) (oo_display_reason c) (oo_replacement_variant_id c)
    (oo_request_excerpt c) (oo_order_version c) (oo_amount c) (oo_currency c)
    (oo_requires_manual_review c) (oo_review_case_type c) (oo_review_priority c)
    (Some case_id) (oo_provider_reference c) (oo_status c) (oo_created_at c) now
    (oo_version c + 1) (oo_customer_id c) (oo_tenant_id c) (oo_created_by c).

(** An event about [c] that carries no status. *)
Definition plain_event (event_id : uuid) (key : string) (c : OrderOperation)
    (event_type : OperationEventType) (case_id : option uuid) (actor : string) (now : instant) :
    OrderOperationEvent :=
  mkOrderOperationEvent event_id key (oo_operation_id c) event_type None None None case_id actor
    (oo_customer_id c) (oo_tenant_id c) now.

Definition status_change_event (event_id : uuid) (key : string) (c updated : OrderOperation)
    (actor : string) (now : instant) : OrderOperationEvent :=
  mkOrderOperationEvent event_id key (oo_operation_id c) oe_status_changed (Some (oo_status c))
    (Some (oo_status updated)) (oo_provider_reference updated) None actor
    (oo_customer_id c) (oo_tenant_id c) now.

(** [status_event.model_copy(update={"idempotency_key": key})] *)
Definition with_event_key (e : OrderOperationEvent) (key : string) : OrderOperationEvent :=
  mkOrderOperationEvent (oev_event_id e) key (oev_operation_id e) (oev_event_type e)
    (oev_previous_status e) (oev_current_status e) (oev_provider_reference e)
    (oev_support_case_id e) (oev_actor e) (oev_customer_id e) (oev_tenant_id e) (oev_created_at e).

Definition pending_operation (who cust tenant : string) (operation_id : uuid)
    (request : OrderOperationRequest) (snapshot : OrderSnapshot) (decision : OperationDecision)
    (excerpt : string) (now : instant) : OrderOperation :=
  mkOrderOperation operation_id (created_key (rq_thread_id request) (rq_source_message_id request))
    (rq_thread_id request) (rq_source_message_id request) (rq_order_id request)
    (rq_operation_type request) (rq_reason request) (od_reason_codes decision)
    (od_display_reason decision) (rq_replacement_variant_id request) excerpt
    (sn_version snapshot) (sn_amount snapshot) (sn_currency snapshot)
    (bool_decide (od_outcome decision = out_manual_review))
    (cr_case_type <$> od_case_recommendation decision)
    (cr_priority <$> od_case_recommendation decision)
    None None os_pending_confirmation now now 1 cust tenant who.

(** * The external order system *)

(** [OrderCommandAdapter.submit_operation]: what the provider answers may depend on every
    command it received before. *)
Definition OrderProvider : Type :=
  list ProviderSubmission → ProviderSubmission → res ExistingOperation.

(** One call over the network: it can fail before the provider receives the command, or
    after, when the answer is lost. *)
Definition submit_operation (provider : OrderProvider) (p : ProviderSubmission) :
    M database ExistingOperation :=
  transact (ProviderError "transport") (λ d,
    let* x := provider (provider_submissions d) p in Ok (x, add_provider_submission p d)).

(** * The service *)

Section Service.
Context (max_write_attempts : nat).

Definition get_operation (s : AccessScope) (operation_id : uuid) : M database OrderOperation :=
  operation <- repo_get_operation s operation_id;
  match operation with
  | None => raise OperationNotFoundError
  | Some o => ret o
  end.

Definition op_result (a : OperationServiceAction) (o : OrderOperation)
    (es : list OrderOperationEvent) : OperationServiceResult :=
  mkOperationServiceResult a o es.

Definition build_pending_operation (s : AccessScope) (request : OrderOperationRequest)
    (snapshot : OrderSnapshot) (decision : OperationDecision) (excerpt : string) :
    M database (OrderOperation * OrderOperationEvent) :=
  match customer_id s with
  | None => raise AssertionError
  | Some cust =>
      at_ <- now;
      operation_id <- new_id;
      who <- lift (identity s);
      operation <- lift (OrderOperation_validate
        (pending_operation who cust (sc_tenant_id s) operation_id request snapshot decision
           excerpt at_));
      event_id <- new_id;
      event <- lift (OrderOperationEvent_validate
        (mkOrderOperationEvent event_id (oo_idempotency_key operation) operation_id
           oe_operation_created None None None None "system" cust (sc_tenant_id s) at_));
      ret (operation, event)
  end.

(** The lookups that answer a repeated request, before and after the write attempts. *)
Definition existing_for_request (s : AccessScope) (request : OrderOperationRequest) :
    M database (option OperationServiceResult) :=
  duplicate <- find_operation_by_source_message s (rq_thread_id request)
                 (rq_source_message_id request);
  match duplicate with
  | Some o => ret (Some (op_result oa_duplicate_ignored o []))
  | None =>
      active <- find_active_by_order_id s (rq_order_id request);
      match active with
      | Some o => ret (Some (op_result oa_duplicate_ignored o []))
      | None => ret None
      end
  end.

Definition creation_conflict {A} (e : exn) : option (M database (option A)) :=
  match e with
  | ActiveOrderOperationConflictError | DuplicateOperationIdempotencyError
  | DuplicateOperationSourceMessageError => Some (ret None)
  | _ => None
  end.

Definition create_pending_operation (s : AccessScope) (request : OrderOperationRequest)
    (snapshot : OrderSnapshot) (decision : OperationDecision) (request_excerpt : string) :
    M database OperationServiceResult :=
  lift (raise_if (bool_decide (customer_id s = None))
          (ValueError "only customers may create order operations"));,
  let excerpt := strip request_excerpt in
  lift (raise_if (negb (nonempty excerpt)) (ValueError "request_excerpt must not be empty"));,
  lift (raise_if (bool_decide (rq_order_id request ≠ sn_order_id snapshot))
          (ValueError "request and snapshot must have the same order_id"));,
  lift (raise_if (bool_decide (od_operation_type decision ≠ rq_operation_type request))
          (ValueError "decision and request must have the same operation_type"));,
  lift (raise_if (negb (bool_decide (od_outcome decision ∈ [out_eligible; out_manual_review])))
          (ValueError "only eligible or manual_review decisions can be persisted"));,
  lift (raise_if (negb (od_requires_confirmation decision))
          (ValueError "persisted operations must require confirmation"));,
  for_attempts max_write_attempts
    (found <- existing_for_request s request;
     match found with
     | Some r => ret (Some r)
     | None =>
         built <- build_pending_operation s request snapshot decision excerpt;
         let '(operation, event) := built in
         try_except
           (create_operation_with_events s operation [event];,
            ret (Some (op_result oa_created operation [event])))
           creation_conflict
     end)
    (found <- existing_for_request s request;
     match found with
     | Some r => ret r
     | None => raise ConcurrentOperationUpdateError
     end).

Definition build_status_update (current : OrderOperation) (target : OperationRecordStatus)
    (key actor : string) (provider_reference : option string) :
    M database (OrderOperation * OrderOperationEvent) :=
  at_ <- now;
  let updated := with_operation_status current target provider_reference at_ in
  event_id <- new_id;
  event <- lift (OrderOperationEvent_validate
             (status_change_event event_id key current updated actor at_));
  ret (updated, event).

Definition unchanged_result (s : AccessScope) (operation_id : uuid) :
    M database OperationServiceResult :=
  o <- get_operation s operation_id;
  ret (op_result oa_status_unchanged o []).

(** [prior = ...; if prior is not None: return unchanged] *)
Definition prior_result (s : AccessScope) (key : string) :
    M database (option OperationServiceResult) :=
  prior <- find_operation_event_by_idempotency_key s key;
  match prior with
  | Some e => r <- unchanged_result s (oev_operation_id e); ret (Some r)
  | None => ret None
  end.

(** The conflicts that are answered from the recorded event, or retried. *)
Definition write_conflict (s : AccessScope) (key : string) (e : exn) :
    option (M database (option OperationServiceResult)) :=
  match e with
  | ConcurrentOperationUpdateError | DuplicateOperationIdempotencyError => Some (prior_result s key)
  | _ => None
  end.

(** [prior; for _attempt in range(...): ...; raise ConcurrentOperationUpdateError] *)
Definition once_per_key (s : AccessScope) (key : string)
    (attempt : M database (option OperationServiceResult)) : M database OperationServiceResult :=
  prior <- prior_result s key;
  match prior with
  | Some r => ret r
  | None => for_attempts max_write_attempts attempt (raise ConcurrentOperationUpdateError)
  end.

(** [try: update; return result; except conflicts] *)
Definition try_update (s : AccessScope) (key : string) (action : OperationServiceAction)
    (current updated : OrderOperation) (events : list OrderOperationEvent) :
    M database (option OperationServiceResult) :=
  try_except
    (update_operation_with_events s updated events (oo_version current);,
     ret (Some (op_result action updated events)))
    (write_conflict s key).

Definition action_label (confirmed : bool) : string := if confirmed then "confirmed" else "cancelled".

(** [_change_from_pending], for its two callers: a confirmation ([target_status=None]) and a
    cancellation. *)
Definition change_from_pending (s : AccessScope) (operation_id : uuid) (request_id : string)
    (target_status : option OperationRecordStatus) (confirmed : bool) :
    M database OperationServiceResult :=
  let request_id := strip request_id in
  actor <- lift (identity s);
  lift (raise_if (negb (nonempty request_id)) (ValueError "request_id must not be empty"));,
  let key := operation_key operation_id (action_label confirmed) request_id in
  once_per_key s key
    (current <- get_operation s operation_id;
     if bool_decide (oo_status current ≠ os_pending_confirmation) then
       if (confirmed && active_operation (oo_status current))
          || (negb confirmed && bool_decide (oo_status current = os_cancelled_by_customer))
       then ret (Some (op_result oa_status_unchanged current []))
       else raise InvalidOperationStatusTransition
     else
       let next_status := match target_status with
                          | Some t => t
                          | None => if oo_requires_manual_review current
                                    then os_manual_review else os_submitted
                          end in
       built <- build_status_update current next_status (key +:+ ":status") actor None;
       let '(updated, status_event) := built in
       if confirmed then
         event_id <- new_id;
         decision_event <- lift (OrderOperationEvent_validate
           (plain_event event_id key current oe_confirmation_recorded None actor
              (oo_updated_at updated)));
         try_update s key oa_confirmed current updated [decision_event; status_event]
       else
         try_update s key oa_cancelled current updated [with_event_key status_event key]).

Definition confirm_operation (s : AccessScope) (operation_id : uuid) (request_id : string) :
    M database OperationServiceResult :=
  operation <- get_operation s operation_id;
  lift (raise_if (negb (oo_requires_manual_review operation))
          (ValueError "automatic operations must use submit_confirmed_operation"));,
  change_from_pending s operation_id request_id None true.

Definition cancel_pending_operation (s : AccessScope) (operation_id : uuid) (request_id : string) :
    M database OperationServiceResult :=
  change_from_pending s operation_id request_id (Some os_cancelled_by_customer) false.

Definition submit_confirmed_operation (s : AccessScope) (operation_id : uuid)
    (request_id : string) (provider : OrderProvider) : M database OperationServiceResult :=
  let request_id := strip request_id in
  actor <- lift (identity s);
  lift (raise_if (negb (nonempty request_id)) (ValueError "request_id must not be empty"));,
  let key := operation_key operation_id "submitted" request_id in
  once_per_key s key
    (current <- get_operation s operation_id;
     lift (raise_if (oo_requires_manual_review current)
             (ValueError "manual-review operations must not be submitted to a provider"));,
     if bool_decide (oo_status current = os_submitted)
        && bool_decide (is_Some (oo_provider_reference current))
     then ret (Some (op_result oa_status_unchanged current []))
     else
       lift (raise_if (bool_decide (oo_status current ≠ os_pending_confirmation))
               InvalidOperationStatusTransition);,
       request <- lift (OrderOperationRequest_validate (operation_request current));
       provider_operation <- submit_operation provider
         (mkProviderSubmission request (oo_order_version current) (provider_key operation_id));
       built <- build_status_update current os_submitted (key +:+ ":status") actor
                  (ref_or (xop_provider_reference provider_operation)
                     (Some (xop_operation_id provider_operation)));
       let '(updated, status_event) := built in
       event_id <- new_id;
       confirmation_event <- lift (OrderOperationEvent_validate
         (plain_event event_id key current oe_confirmation_recorded None actor
            (oo_updated_at updated)));
       try_update s key oa_submitted current updated [confirmation_event; status_event]).

Definition queue_confirmed_operation (s : AccessScope) (operation_id : uuid)
    (request_id connection_id : string) : M database OperationServiceResult :=
  who <- lift (identity s);
  meta <- lift (validate_request_metadata request_id who);
  let request_id := meta.1 in
  let normalized_connection_id := strip connection_id in
  lift (raise_if (negb (nonempty normalized_connection_id))
          (ValueError "connection_id must not be empty"));,
  current <- get_operation s operation_id;
  lift (raise_if (oo_requires_manual_review current)
          (ValueError "manual-review operations must not enter the provider outbox"));,
  if bool_decide (oo_status current = os_queued) then
    ret (op_result oa_status_unchanged current [])
  else
    lift (raise_if (bool_decide (oo_status current ≠ os_pending_confirmation))
            InvalidOperationStatusTransition);,
    at_ <- now;
    built <- build_status_update current os_queued (operation_key operation_id "queued" request_id)
               who None;
    let '(queued, status_event) := built in
    event_id <- new_id;
    confirmation_event <- lift (OrderOperationEvent_validate
      (plain_event event_id (operation_key operation_id "confirmed" request_id) current
         oe_confirmation_recorded None who at_));
    command_id <- new_id;
    command <- lift (for_order_operation queued normalized_connection_id command_id at_);
    queue_operation_with_events_and_command s queued [confirmation_event; status_event] command
      (oo_version current);,
    ret (op_result oa_queued queued [confirmation_event; status_event]).

Definition update_operation_status (s : AccessScope) (operation_id : uuid)
    (target_status : OperationRecordStatus) (request_id actor : string)
    (provider_reference : option string) : M database OperationServiceResult :=
  meta <- lift (validate_request_metadata request_id actor);
  let '(request_id, actor) := meta in
  lift (raise_if (bool_decide (target_status = os_pending_confirmation))
          InvalidOperationStatusTransition);,
  let key := operation_key operation_id "status" request_id in
  once_per_key s key
    (current <- get_operation s operation_id;
     if bool_decide (oo_status current = target_status)
     then ret (Some (op_result oa_status_unchanged current []))
     else
       lift (validate_operation_status_transition (oo_status current) target_status);,
       built <- build_status_update current target_status key actor provider_reference;
       let '(updated, event) := built in
       try_update s key oa_status_changed current updated [event]).

Definition attach_support_case (s : AccessScope) (operation_id support_case_id : uuid)
    (request_id : string) : M database OperationServiceResult :=
  let request_id := strip request_id in
  lift (raise_if (negb (nonempty request_id)) (ValueError "request_id must not be empty"));,
  let key := operation_key operation_id "support-case" request_id in
  once_per_key s key
    (current <- get_operation s operation_id;
     lift (raise_if (negb (oo_requires_manual_review current)
                     || bool_decide (oo_status current ≠ os_manual_review))
             (ValueError "only a manual-review operation may receive a support case"));,
     match oo_support_case_id current with
     | Some c =>
         if N.eqb c support_case_id
         then ret (Some (op_result oa_status_unchanged current []))
         else raise (ValueError "a manual-review operation already has a support case")
     | None =>
         at_ <- now;
         let updated := with_support_case current support_case_id at_ in
         event_id <- new_id;
         event <- lift (OrderOperationEvent_validate
           (plain_event event_id key current oe_support_case_attached (Some support_case_id)
              "system" at_));
         try_update s key oa_support_case_attached current updated [event]
     end).
End Service.
