(* ===== verification/OperationSafety.v ===== *)
(** What the operation service guarantees while other workers commit between any two of
    its round trips: the shape of its commits and the invariants they keep. *)
From S2P Require Import Prelude Effects Auth OperationModels CaseModels Envelope Database CaseRepository CaseSafety OperationRepository OperationService.

(** * Rows as the application reads them *)

(** The provider reference is the one column written without validation: it is stripped
    when the row is read. *)
Definition with_reference (o : OrderOperation) (reference : option string) : OrderOperation :=
  mkOrderOperation (oo_operation_id o) (oo_idempotency_key o) (oo_thread_id o)
    (oo_source_message_id o) (oo_order_id o) (oo_operation_type o) (oo_request_reason_code o)
    (oo_policy_reason_codes o) (oo_display_reason o) (oo_replacement_variant_id o)
    (oo_request_excerpt o) (oo_order_version o) (oo_amount o) (oo_currency o)
    (oo_requires_manual_review o) (oo_review_case_type o) (oo_review_priority o)
    (oo_support_case_id o) reference (oo_status o) (oo_created_at o) (oo_updated_at o)
    (oo_version o) (oo_customer_id o) (oo_tenant_id o) (oo_created_by o).

Definition read_view (o : OrderOperation) : OrderOperation :=
  with_reference o (strip <$> oo_provider_reference o).

Definition op_readable (o : OrderOperation) : Prop := OrderOperation_validate o = Ok (read_view o).
Definition op_event_normal (e : OrderOperationEvent) : Prop :=
  OrderOperationEvent_validate e = Ok e.

Lemma OrderOperation_validate_ok o o' :
  OrderOperation_validate o = Ok o' ↔
  o' = OrderOperation_strip o ∧ OrderOperation_fields_ok o' = true ∧
  validate_persisted_operation o' = Ok tt.
Proof.
  unfold OrderOperation_validate. cbv zeta. split.
  - intros H. inv_ok. bools. by destruct x0.
  - intros (-> & Hf & Hl). by rewrite Hf; cbn [negb raise_if res_bind]; rewrite Hl.
Qed.

Lemma OrderOperationEvent_validate_ok e e' :
  OrderOperationEvent_validate e = Ok e' ↔
  e' = OrderOperationEvent_strip e ∧ OrderOperationEvent_fields_ok e' = true ∧
  validate_event_shape e' = Ok tt.
Proof.
  unfold OrderOperationEvent_validate. cbv zeta. split.
  - intros H. inv_ok. bools. by destruct x0.
  - intros (-> & Hf & Hl). by rewrite Hf; cbn [negb raise_if res_bind]; rewrite Hl.
Qed.

Lemma strip_opt_idem (o : option string) : strip <$> (strip <$> o) = strip <$> o.
Proof. destruct o; cbn; by rewrite ?strip_idem. Qed.
Lemma strip_list_idem (l : list string) : strip <$> (strip <$> l) = strip <$> l.
Proof. rewrite <- list_fmap_compose. apply list_fmap_ext. intros. cbn. apply strip_idem. Qed.

Lemma OrderOperation_strip_idem o :
  OrderOperation_strip (OrderOperation_strip o) = OrderOperation_strip o.
Proof. unfold OrderOperation_strip; cbn. by rewrite !strip_idem, !strip_opt_idem, strip_list_idem. Qed.

Lemma OrderOperationEvent_strip_idem e :
  OrderOperationEvent_strip (OrderOperationEvent_strip e) = OrderOperationEvent_strip e.
Proof. unfold OrderOperationEvent_strip; cbn. by rewrite !strip_idem, strip_opt_idem. Qed.

Lemma OrderOperationEvent_validate_normal e e' :
  OrderOperationEvent_validate e = Ok e' → op_event_normal e'.
Proof.
  unfold op_event_normal. rewrite !OrderOperationEvent_validate_ok. intros (-> & ? & ?).
  by rewrite OrderOperationEvent_strip_idem.
Qed.

(** A row built by the model class reads back as it is. *)
Lemma OrderOperation_validate_readable o o' :
  OrderOperation_validate o = Ok o' → op_readable o' ∧ read_view o' = o'.
Proof.
  unfold op_readable. rewrite !OrderOperation_validate_ok. intros (-> & ? & ?).
  assert (read_view (OrderOperation_strip o) = OrderOperation_strip o) as E.
  { unfold read_view, with_reference, OrderOperation_strip; cbn. by rewrite strip_opt_idem. }
  rewrite E. by rewrite OrderOperation_strip_idem.
Qed.

Lemma op_readable_facts o :
  op_readable o ↔
  OrderOperation_strip o = read_view o ∧ OrderOperation_fields_ok (read_view o) = true ∧
  validate_persisted_operation (read_view o) = Ok tt.
Proof. unfold op_readable. rewrite OrderOperation_validate_ok. naive_solver. Qed.

(** * How an operation may evolve *)

(** The steps any worker takes: those of the service, and the supervisor's redrive, which
    puts an operation under review back into the queue
    ([integrations/provider_operations_postgres.py]). *)
Definition lifecycle_step (a b : OperationRecordStatus) : bool :=
  operation_transition_allowed a b
  || (bool_decide (a = os_manual_review) && bool_decide (b = os_queued)).

Inductive reaches : OperationRecordStatus → OperationRecordStatus → Prop :=
  | reaches_refl a : reaches a a
  | reaches_step a b c : lifecycle_step a b = true → reaches b c → reaches a c.

#[export] Instance reaches_preorder : PreOrder reaches.
Proof.
  split; [constructor|]. intros a b c Hab Hbc. induction Hab; [done|]. econstructor; eauto.
Qed.

Lemma reaches_one a b : operation_transition_allowed a b = true → reaches a b.
Proof. intros H. eapply reaches_step; [|constructor]. unfold lifecycle_step. by rewrite H. Qed.

Definition terminal (a : OperationRecordStatus) : bool :=
  match a with os_completed | os_rejected | os_cancelled_by_customer => true | _ => false end.

(** Terminal states absorb, and nothing returns to the state before confirmation. *)
Lemma reaches_terminal a b : terminal a = true → reaches a b → b = a.
Proof. intros Ht H. destruct H as [|a b c Hs _]; [done|]. by destruct a, b. Qed.

Lemma reaches_pending a : reaches a os_pending_confirmation → a = os_pending_confirmation.
Proof.
  intros H. remember os_pending_confirmation as p eqn:Hp. induction H as [|a b c Hs _ IH]; [done|].
  rewrite (IH Hp), Hp in Hs. by destruct a.
Qed.

(** The columns no statement rewrites; the lifecycle; and the review flag, which changes
    only when the operation leaves the state before confirmation, or later. *)
Definition op_same (o c : OrderOperation) : Prop :=
  oo_operation_id o = oo_operation_id c ∧ oo_idempotency_key o = oo_idempotency_key c ∧
  oo_thread_id o = oo_thread_id c ∧ oo_source_message_id o = oo_source_message_id c ∧
  oo_order_id o = oo_order_id c ∧ oo_operation_type o = oo_operation_type c ∧
  oo_request_reason_code o = oo_request_reason_code c ∧
  oo_replacement_variant_id o = oo_replacement_variant_id c ∧
  oo_request_excerpt o = oo_request_excerpt c ∧ oo_order_version o = oo_order_version c ∧
  oo_amount o = oo_amount c ∧ oo_currency o = oo_currency c ∧
  oo_created_at o = oo_created_at c ∧ oo_customer_id o = oo_customer_id c ∧
  oo_tenant_id o = oo_tenant_id c ∧ oo_created_by o = oo_created_by c ∧
  (oo_status c = os_pending_confirmation →
     oo_requires_manual_review o = oo_requires_manual_review c) ∧
  reaches (oo_status o) (oo_status c).

#[export] Instance op_same_preorder : PreOrder op_same.
Proof.
  split; unfold op_same.
  - intros x. by split_and!.
  - intros x y z ? ?. destruct_and!. split_and!; try congruence; [|by etrans].
    intros Hz. assert (oo_status y = os_pending_confirmation) as Hy.
    { apply reaches_pending. by rewrite <- Hz. }
    etrans; eauto.
Qed.

(** The service's UPDATE also keeps the review flag. *)
Lemma updated_operation_row_same o c :
  op_same o c → oo_requires_manual_review o = oo_requires_manual_review c →
  updated_operation_row o c = c.
Proof.
  unfold op_same, updated_operation_row. intros H Hm. destruct_and!.
  repeat match goal with H : _ o = _ c |- _ => rewrite H; clear H end. by destruct c.
Qed.

Definition operations_evolve : database → database → Prop :=
  evolve order_operations oo_version op_same.

(** * The invariant *)

(** An outbound command belongs to an operation the customer has confirmed. *)
Definition command_justified (d : database) (m : OutboxMessage) : Prop :=
  om_aggregate_type m = ag_order_operation →
  ∃ o, order_operations d !! om_aggregate_id m = Some o ∧
       oo_status o ≠ os_pending_confirmation ∧ om_tenant_id m = oo_tenant_id o ∧
       om_expected_order_version m = Some (oo_order_version o).

(** A command received by the provider describes a stored operation. *)
Definition submission_justified (d : database) (p : ProviderSubmission) : Prop :=
  ∃ i o, order_operations d !! i = Some o ∧
    ps_idempotency_key p = provider_key i ∧ ps_expected_order_version p = oo_order_version o ∧
    OrderOperationRequest_validate (operation_request o) = Ok (ps_request p).

Record op_db_ok (d : database) : Prop := {
  odb_schema : schema_ok d;
  odb_rows : ∀ i o, order_operations d !! i = Some o → op_readable o;
  odb_events : ∀ e, e ∈ order_operation_events d → op_event_normal e;
  odb_commands : ∀ k m, outbox_messages d !! k = Some m → command_justified d m;
  odb_submissions : ∀ p, p ∈ provider_submissions d → submission_justified d p;
}.

(** The commits of the other workers. *)
Definition op_others_ok (amb : Ambient database) : Prop :=
  ∀ n d, op_db_ok d → op_db_ok (interfere amb n d) ∧ operations_evolve d (interfere amb n d).

Definition op_seen : OrderOperation → database → Prop :=
  seen order_operations oo_operation_id oo_version op_same op_db_ok.

Lemma rely_op_db amb : op_others_ok amb → rely amb op_db_ok.
Proof. intros H n d Hd. by apply H. Qed.

Lemma rely_op_seen amb o : op_others_ok amb → rely amb (op_seen o).
Proof. apply rely_seen, _. Qed.

Lemma operation_request_same o o' : op_same o o' → operation_request o = operation_request o'.
Proof. intros H. unfold op_same in H. unfold operation_request. destruct_and!. congruence. Qed.

(** Evolution keeps commands and submissions justified: identity columns stay, and the
    lifecycle does not return to the pending state. *)
Lemma command_justified_evolves d d' m :
  operations_evolve d d' → command_justified d m → command_justified d' m.
Proof.
  intros Hev Hj Hty. destruct (Hj Hty) as (o & Ho & Hst & Hten & Hver).
  destruct (Hev _ o Ho) as (o' & Ho' & Hs & _). unfold op_same in Hs. destruct_and!.
  exists o'. split_and!; try congruence. intros E. destruct Hst. apply reaches_pending. congruence.
Qed.

Lemma submission_justified_evolves d d' p :
  operations_evolve d d' → submission_justified d p → submission_justified d' p.
Proof.
  intros Hev (i & o & Ho & Hk & Hv & Hr). destruct (Hev i o Ho) as (o' & Ho' & Hs & _).
  exists i, o'. rewrite <- (operation_request_same o o' Hs). unfold op_same in Hs. destruct_and!.
  split_and!; first [done|congruence].
Qed.

(** * Copies of a read row stay readable *)

Lemma strip_read_view o :
  op_readable o → OrderOperation_strip (read_view o) = read_view o.
Proof.
  intros (Hs & _)%op_readable_facts. rewrite <- Hs at 1. rewrite OrderOperation_strip_idem. done.
Qed.

(** The checks across fields survive a copy that keeps the request and review columns. *)
Lemma validate_persisted_copy o n :
  operation_request n = operation_request o →
  oo_requires_manual_review n = oo_requires_manual_review o →
  oo_review_case_type n = oo_review_case_type o → oo_review_priority n = oo_review_priority o →
  (oo_support_case_id n = oo_support_case_id o ∨ oo_requires_manual_review o = true) →
  oo_created_at n ≤ oo_updated_at n →
  validate_persisted_operation o = Ok tt → validate_persisted_operation n = Ok tt.
Proof.
  intros Hr Hm Ht Hp Hc Hu H. unfold validate_persisted_operation in *.
  rewrite Hr, Hm, Ht, Hp. apply res_bind_ok in H as ([] & H1 & H). rewrite H1. cbn [res_bind].
  apply res_bind_ok in H as ([] & H2 & H). rewrite H2. cbn [res_bind].
  apply res_bind_ok in H as (u & H3 & _).
  assert (bool_decide (is_Some (oo_support_case_id n)) && negb (oo_requires_manual_review o)
          = false) as ->.
  { destruct Hc as [->| ->]; [by apply raise_if_ok in H3|]. apply andb_false_r. }
  cbn. by replace (oo_updated_at n <? oo_created_at n) with false by lia.
Qed.

Definition set_progress (o : OrderOperation) (case_id : option uuid) (reference : option string)
    (status : OperationRecordStatus) (updated_at : instant) (version : Z) : OrderOperation :=
  mkOrderOperation (oo_operation_id o) (oo_idempotency_key o) (oo_thread_id o)
    (oo_source_message_id o) (oo_order_id o) (oo_operation_type o) (oo_request_reason_code o)
    (oo_policy_reason_codes o) (oo_display_reason o) (oo_replacement_variant_id o)
    (oo_request_excerpt o) (oo_order_version o) (oo_amount o) (oo_currency o)
    (oo_requires_manual_review o) (oo_review_case_type o) (oo_review_priority o)
    case_id reference status (oo_created_at o) updated_at version
    (oo_customer_id o) (oo_tenant_id o) (oo_created_by o).

(** The columns the service moves: the copy is readable when its reference is not blank. *)
Lemma set_progress_readable r case_id reference status at_ version :
  op_readable r →
  (case_id = oo_support_case_id r ∨ oo_requires_manual_review r = true) →
  opt_nonempty (strip <$> reference) = true → oo_created_at r ≤ at_ → 1 ≤ version →
  op_readable (set_progress (read_view r) case_id reference status at_ version).
Proof.
  intros Hr Hc Href Hat Hver. pose proof (strip_read_view r Hr) as Hs.
  apply op_readable_facts in Hr as (_ & Hf & Hp). apply op_readable_facts. split_and!.
  - transitivity (read_view (set_progress (OrderOperation_strip (read_view r)) case_id reference
      status at_ version)); [reflexivity|by rewrite Hs].
  - unfold OrderOperation_fields_ok in *. cbn in *. bools.
    repeat match goal with H : _ = true |- _ => rewrite H; clear H end. cbn.
    rewrite bool_decide_eq_true_2 by done. rewrite !andb_true_r, !andb_true_iff.
    split_and!; lia.
  - eapply validate_persisted_copy, Hp; try done.
Qed.

(** * The commits of the operation service *)

Definition about_operation (o : OrderOperation) (e : OrderOperationEvent) : Prop :=
  oev_operation_id e = oo_operation_id o ∧ oev_tenant_id e = oo_tenant_id o ∧
  oev_customer_id e = oo_customer_id o.

(** The caller is the customer that owns the operation. *)
Definition owns (s : AccessScope) (o : OrderOperation) : Prop :=
  oo_tenant_id o = sc_tenant_id s ∧ customer_id s = Some (oo_customer_id o).

(** A pending command for the operation, new in the outbox. *)
Definition command_queued (o : OrderOperation) (d d' : database) : Prop :=
  ∃ m, outbox_messages d !! om_command_id m = None ∧
       outbox_messages d' = <[om_command_id m := m]> (outbox_messages d) ∧
       om_status m = ob_pending ∧ om_aggregate_type m = ag_order_operation ∧
       om_aggregate_id m = oo_operation_id o ∧ om_tenant_id m = oo_tenant_id o ∧
       om_expected_order_version m = Some (oo_order_version o) ∧
       om_idempotency_key m = order_operation_key (oo_operation_id o).

(** One commit: the operation [o] replaces the row [old] (none for a creation), and the
    events [es] about it are appended. *)
Record op_committed (s : AccessScope) (old : option OrderOperation) (o : OrderOperation)
    (es : list OrderOperationEvent) (d d' : database) : Prop := {
  oc_before : order_operations d !! oo_operation_id o = old;
  oc_rows : order_operations d' = <[oo_operation_id o := o]> (order_operations d);
  oc_events : order_operation_events d' = order_operation_events d ++ es;
  oc_about : Forall (about_operation o) es;
  oc_owner : owns s o;
  oc_version : oo_version o = match old with Some x => oo_version x + 1 | None => 1 end;
  oc_same : ∀ x, old = Some x → op_same x o;
  oc_review : ∀ x, old = Some x → oo_requires_manual_review x = oo_requires_manual_review o;
  oc_cases : support_cases d' = support_cases d ∧ support_case_events d' = support_case_events d;
  oc_provider : provider_submissions d' = provider_submissions d;
  oc_outbox : outbox_messages d' = outbox_messages d ∨
              oo_status o = os_queued ∧ command_queued o d d';
  oc_ok : op_db_ok d';
}.

Lemma op_committed_evolves s old o es d d' : op_committed s old o es d d' → operations_evolve d d'.
Proof.
  intros [Hb Hr _ _ _ Hv Hs _ _ _ _ _]. eapply evolve_insert; [apply _|done..|].
  intros x ->. split; [by apply Hs|lia].
Qed.

Lemma op_seen_committed s r o es d d' : op_committed s (Some r) o es d d' → op_seen r d'.
Proof.
  intros [_ Hr _ _ _ Hv Hs _ _ _ _ Hd']. specialize (Hs r eq_refl).
  assert (oo_operation_id r = oo_operation_id o) as Hi by apply Hs. rewrite <- Hi in Hr.
  eapply seen_insert; [done..|lia].
Qed.

Lemma put_order_operation_effect o d d' :
  put_order_operation o d = PgOk d' →
  d' = set_order_operations (<[oo_operation_id o := o]> (order_operations d)) d
  ∧ oo_created_at o ≤ oo_updated_at o.
Proof.
  unfold put_order_operation. intros H. inv_pg. split; [done|].
  unfold order_operations_check in *. bools. lia.
Qed.

Lemma insert_operation_events_effect es d d' :
  insert_operation_events es d = PgOk d' →
  d' = set_order_operation_events (order_operation_events d ++ es) d.
Proof.
  revert d. induction es as [|e es IH]; intros d H; cbn in H; inv_pg.
  - rewrite app_nil_r. by destruct d'.
  - unfold insert_operation_event in H0. inv_pg. apply IH in H. subst. cbn.
    by rewrite <- app_assoc.
Qed.

Lemma op_db_ok_commit d d' o es :
  op_db_ok d → schema_ok d' → operations_evolve d d' →
  order_operations d' = <[oo_operation_id o := o]> (order_operations d) → op_readable o →
  order_operation_events d' = order_operation_events d ++ es → Forall op_event_normal es →
  outbox_messages d' = outbox_messages d → provider_submissions d' = provider_submissions d →
  op_db_ok d'.
Proof.
  intros [_ Hrows Hev Hcmd Hsub] Hs Hevo Hr Ho He Hes Hout Hprov. split; [done|..].
  - rewrite Hr. by apply (insert_rows (λ _ x, op_readable x)).
  - rewrite He. intros e [H|H]%elem_of_app; [auto|]. by eapply Forall_forall in H.
  - rewrite Hout. intros. eapply command_justified_evolves; eauto.
  - rewrite Hprov. intros. eapply submission_justified_evolves; eauto.
Qed.

(** The facts an update of [r] to [o] with the events [es] needs. *)
Record op_update_of (r o : OrderOperation) (es : list OrderOperationEvent) : Prop := {
  ou_same : op_same r o;
  ou_review : oo_requires_manual_review r = oo_requires_manual_review o;
  ou_version : oo_version o = oo_version r + 1;
  ou_read : oo_created_at o ≤ oo_updated_at o → op_readable o;
  ou_events : Forall op_event_normal es;
  ou_about : Forall (about_operation o) es;
}.

Lemma op_update_statements s r o es d d1 :
  op_update_of r o es → op_seen r d → order_operations d !! oo_operation_id o = Some r → owns s o →
  pg_bind (put_order_operation o d) (insert_operation_events es) = PgOk d1 →
  op_committed s (Some r) o es d d1 ∧ outbox_messages d1 = outbox_messages d.
Proof.
  intros [Hs Hm Hv Hrd He Ha] Hd Hold Hown H. inv_pg.
  pose proof (put_order_operation_effect _ _ _ H0) as [E1 Ht].
  pose proof (insert_operation_events_effect _ _ _ H) as E2.
  assert (schema_ok d1) as Hsch.
  { eapply insert_operation_events_ok, H. eapply put_order_operation_ok, H0. apply Hd. }
  assert (operations_evolve d d1) as Hevo.
  { eapply evolve_insert; [apply _|exact Hold|by subst|]. intros y [= <-]. split; [done|lia]. }
  assert (op_db_ok d1) by (eapply op_db_ok_commit; [apply Hd|done|done|..]; subst; auto).
  split; [|by subst]. subst. split; cbn; try done; [naive_solver..|by left].
Qed.

Lemma validate_operation_ownership_owns s o u : validate_operation_ownership s o = Ok u → owns s o.
Proof.
  unfold validate_operation_ownership. intros H. inv_ok. bools.
  split; [by apply dec_stable|]. symmetry. by apply dec_stable.
Qed.

Lemma update_operation_row_seen visible r o d x :
  op_seen r d → op_same r o → oo_requires_manual_review r = oo_requires_manual_review o →
  update_operation_row visible o (oo_version r) d = Some x →
  order_operations d !! oo_operation_id o = Some r ∧ x = put_order_operation o d.
Proof.
  intros Hseen Hs Hm. unfold update_operation_row, visible_operation.
  assert (oo_operation_id r = oo_operation_id o) as Hi by apply Hs. rewrite <- Hi.
  destruct (order_operations d !! oo_operation_id r) as [q|] eqn:E; [|done].
  destruct (visible (operation_owner q)); [|done].
  case_bool_decide as Hver; [|done]. intros [= <-].
  assert (q = r) as -> by (eapply seen_same_version; [exact Hseen|done|done]).
  by rewrite updated_operation_row_same.
Qed.

(** The endings of a write: one commit, none, or a lost acknowledgement. *)
Definition op_commit_ending {A} (P : database → database → Prop) (r : res A)
    (cs : list (database * database)) : Prop :=
  match r with
  | Ok _ => ∃ d d', cs = [(d, d')] ∧ P d d'
  | Err e => cs = [] ∨ e = OperationPersistenceError ∧ ∃ d d', cs = [(d, d')] ∧ P d d'
  end.

Lemma op_commit_ending_intro {A} (P : database → database → Prop) (a : A) d d' :
  P d d' → op_commit_ending P (Ok a) [(d, d')] ∧
           op_commit_ending (A := A) P (Err OperationPersistenceError) [(d, d')].
Proof. cbn. eauto 10. Qed.

Lemma operation_errors_ok {A} (r : pg A) a : operation_errors r = Ok a ↔ r = PgOk a.
Proof. destruct r as [|[]]; cbn; naive_solver. Qed.

Lemma update_operation_with_events_runs amb s r o es :
  op_others_ok amb → op_update_of r o es →
  runs amb (op_seen r) (update_operation_with_events s o es (oo_version r))
    (op_commit_ending (op_committed s (Some r) o es)).
Proof.
  intros Hamb Hup. unfold update_operation_with_events.
  apply runs_lift_bind; [by left|]. intros u Hown%validate_operation_ownership_owns.
  apply runs_lift_bind; [by left|]. intros _ _.
  apply runs_lift_bind; [by left|]. intros visible _.
  apply runs_transact; [by apply rely_op_seen| |by left|by left].
  intros d [] d' Hd Hf.
  destruct (update_operation_row visible o (oo_version r) d) as [x|] eqn:Hu; [|done].
  eapply update_operation_row_seen in Hu as [Hold ->]; [|done|exact (ou_same _ _ _ Hup)|exact (ou_review _ _ _ Hup)].
  inv_ok. apply operation_errors_ok in H.
  eapply op_update_statements in H as [Hc _]; [|done..].
  split; [by eapply op_seen_committed|]. by apply op_commit_ending_intro.
Qed.

(** A command for the operation, as the service builds it. *)
Definition op_command_for (o : OrderOperation) (c : ProviderCommandEnvelope) : Prop :=
  ProviderCommandEnvelope_validate c = Ok c ∧ e_aggregate_type c = ag_order_operation ∧
  e_aggregate_id c = oo_operation_id o ∧ e_tenant_id c = oo_tenant_id o ∧
  e_expected_order_version c = Some (oo_order_version o) ∧
  e_idempotency_key c = order_operation_key (oo_operation_id o).

Lemma op_association_command_for o es c v u :
  ProviderCommandEnvelope_validate c = Ok c →
  validate_operation_command_association o es c v = Ok u → op_command_for o c.
Proof.
  intros Hn. unfold validate_operation_command_association, revalidate_command_envelope.
  rewrite Hn. cbn [res_bind]. intros H.
  repeat match goal with H : res_bind (raise_if _ _) _ = Ok _ |- _ =>
    apply res_bind_ok in H; destruct H as (? & ?%raise_if_ok & H) end.
  bools. repeat match goal with H : ¬ (_ ≠ _) |- _ => apply dec_stable in H end.
  split_and!; try done.
  pose proof (envelope_validate_ok c c Hn) as (_ & _ & _ & _ & _ & _ & _ & _ & _ & Hp).
  apply envelope_key_shape in Hp as [[E _]|[_ ->]]; congruence.
Qed.

Lemma op_queue_statement s r o es c at_ d d1 d2 :
  op_command_for o c → oo_status o = os_queued →
  op_committed s (Some r) o es d d1 → outbox_messages d1 = outbox_messages d →
  insert_outbox_message c ob_pending at_ at_ d1 = PgOk d2 →
  op_committed s (Some r) o es d d2 ∧ command_queued o d d2.
Proof.
  intros (Hn & Hty & Hag & Hten & Hver & Hkey) Hst Hc Hsame H.
  assert (schema_ok d2) as Hs by (eapply insert_outbox_message_ok, H; apply Hc).
  apply insert_outbox_message_effect in H as [Hfree ->]. rewrite Hsame in Hfree.
  set (row := outbox_row c ob_pending at_ at_ cap_order_operation) in *.
  assert (command_queued o d (set_outbox_messages
    (<[e_command_id c := row]> (outbox_messages d1)) d1)) as Hq.
  { exists row. cbn. rewrite Hsame. by split_and!. }
  destruct Hc as [? Hrows ? ? ? ? ? ? ? ? ? Hok]. split; [|done]. split; cbn; try done.
  - by right.
  - destruct Hok as [? Hr He Hcmd Hsub]. split; cbn; try done.
    intros k m. rewrite lookup_insert. case_decide; [|by apply (Hcmd k)]. intros [= <-] _.
    exists o. cbn. rewrite Hag, Hrows, lookup_insert_eq, Hst. by split_and!.
Qed.

Lemma queue_operation_runs amb s r o es c :
  op_others_ok amb → op_update_of r o es → oo_status o = os_queued →
  ProviderCommandEnvelope_validate c = Ok c →
  runs amb (op_seen r) (queue_operation_with_events_and_command s o es c (oo_version r))
    (op_commit_ending (λ d d', op_committed s (Some r) o es d d' ∧ command_queued o d d')).
Proof.
  intros Hamb Hup Hst Hn. unfold queue_operation_with_events_and_command.
  apply runs_lift_bind; [by left|]. intros u0 Has.
  apply op_association_command_for in Has; [|done].
  apply runs_lift_bind; [by left|]. intros u Hown%validate_operation_ownership_owns.
  apply runs_lift_bind; [by left|]. intros _ _.
  apply runs_lift_bind; [by left|]. intros visible _.
  apply runs_transact; [by apply rely_op_seen| |by left|by left].
  intros d [] d' Hd Hf.
  destruct (update_operation_row visible o (oo_version r) d) as [x|] eqn:Hu; [|done].
  eapply update_operation_row_seen in Hu as [Hold ->]; [|done|exact (ou_same _ _ _ Hup)|exact (ou_review _ _ _ Hup)].
  inv_ok. apply operation_errors_ok, pg_bind_ok in H as (d1 & H1 & H).
  eapply op_update_statements in H1 as [Hc Hsame]; [|done..].
  eapply op_queue_statement in H as [Hc' Hq]; [|done..].
  split; [by eapply op_seen_committed|]. by apply op_commit_ending_intro.
Qed.

(** * Creation *)

Record op_creation_of (o : OrderOperation) (es : list OrderOperationEvent) : Prop := {
  oo_first_version : oo_version o = 1;
  oo_pending : oo_status o = os_pending_confirmation;
  oo_fresh_readable : op_readable o;
  oo_fresh_events : Forall op_event_normal es;
  oo_fresh_about : Forall (about_operation o) es;
}.

Lemma create_operation_runs amb s o es :
  op_others_ok amb → op_creation_of o es →
  runs amb op_db_ok (create_operation_with_events s o es)
    (op_commit_ending (op_committed s None o es)).
Proof.
  intros Hamb [Hv Hp Hr He Ha]. unfold create_operation_with_events.
  apply runs_lift_bind; [by left|]. intros u Hown%validate_operation_ownership_owns.
  apply runs_lift_bind; [by left|]. intros _ _.
  apply runs_transact; [by apply rely_op_db| |by left|by left].
  intros d [] d' Hd Hf. inv_ok. apply operation_errors_ok, pg_bind_ok in H as (d1 & H1 & H).
  unfold insert_order_operation in H1. apply pg_bind_ok in H1 as (u' & Hnew & H1).
  apply pg_check_ok, bool_decide_eq_true in Hnew.
  pose proof (put_order_operation_effect _ _ _ H1) as [E1 _].
  pose proof (insert_operation_events_effect _ _ _ H) as E2.
  assert (schema_ok d') as Hs.
  { eapply insert_operation_events_ok, H. eapply put_order_operation_ok, H1. apply Hd. }
  assert (operations_evolve d d') as Hevo.
  { eapply evolve_insert; [apply _|exact Hnew|by subst|]. naive_solver. }
  assert (op_db_ok d') by (eapply op_db_ok_commit; [exact Hd|done|done|..]; by subst).
  split; [done|]. apply op_commit_ending_intro. subst. split; cbn; try done. by left.
Qed.

(** * Reads *)

Lemma visible_operation_owns s visible d i o :
  customer_owned_visibility s = Ok visible → visible_operation visible d i = Some o →
  order_operations d !! i = Some o ∧ owns s o.
Proof.
  intros Hv. unfold visible_operation. destruct (order_operations d !! i) as [x|]; [|done].
  destruct (visible (operation_owner x)) eqn:Hvis; [|done]. intros [= <-]. split; [done|].
  apply (customer_owned_visibility_ok s visible _ Hv) in Hvis. done.
Qed.

(** What is known of the operation [i] before it is read again: [I] holds of the database,
    and any row read then is related to the earlier one by [Rel]. *)
Record op_frame (amb : Ambient database) (i : uuid) (I : database → Prop)
    (Rel : OrderOperation → Prop) : Prop := {
  fr_rely : rely amb I;
  fr_ok : ∀ d, I d → op_db_ok d;
  fr_rel : ∀ d r, I d → order_operations d !! i = Some r → Rel r;
  fr_back : ∀ d r, Rel r → op_seen r d → I d;
}.

Lemma op_frame_db amb i : op_others_ok amb → op_frame amb i op_db_ok (λ _, True).
Proof. intros Hamb. split; [by apply rely_op_db|done|done|]. by intros d r _ [? _]. Qed.

Lemma op_frame_seen amb r0 :
  op_others_ok amb →
  op_frame amb (oo_operation_id r0) (op_seen r0) (moved_on oo_version op_same r0).
Proof.
  intros Hamb. split; [by apply rely_op_seen|by intros d []|..].
  - intros d r [_ (r' & Hr' & Hm)] Hr. by simplify_eq.
  - intros d r Hm [Hd (r' & Hr' & Hm')]. split; [done|].
    assert (oo_operation_id r0 = oo_operation_id r) as -> by apply Hm.
    exists r'. split; [done|]. by etrans.
Qed.

(** Reading an operation: what follows works on the readable view of a stored row that can
    only move on. *)
Lemma runs_get_operation_bind {B} amb s i I Rel (k : OrderOperation → M database B) Q :
  op_frame amb i I Rel → (∀ e, Q (Err e) []) →
  (∀ r, Rel r → oo_operation_id r = i → op_readable r → owns s r →
        runs amb (op_seen r) (k (read_view r)) Q) →
  runs amb I (bind (get_operation s i) k) Q.
Proof.
  intros [Hrely Hok Hrel Hback] He Hk.
  assert (runs amb I (bind (repo_get_operation s i) (λ o,
    match o with None => raise OperationNotFoundError | Some x => k x end)) Q) as H.
  { unfold repo_get_operation. apply runs_bind_lift_bind; [auto|]. intros visible Hv.
    eapply runs_query_bind with (J := λ o d, match o with
      | None => I d
      | Some x => ∃ r, x = read_view r ∧ op_seen r d ∧ Rel r ∧ oo_operation_id r = i ∧
                       op_readable r ∧ owns s r
      end); [done|done|done|..].
    - intros d a Hd. destruct (visible_operation visible d i) as [r|] eqn:E; cbn;
        [|by intros [= <-]].
      eapply visible_operation_owns in E as [Hr Hown]; [|done].
      pose proof (odb_rows d (Hok d Hd) i r Hr) as Hrd. rewrite Hrd. cbn. intros [= <-].
      assert (oo_operation_id r = i) as Hi by (by eapply so_op_id, Hr; apply odb_schema, Hok).
      exists r. split_and!; try done; [|by eapply Hrel].
      apply seen_read; [apply _|by apply Hok|by rewrite Hi].
    - intros [x|] d; [|done]. intros (r & _ & Hseen & Hr & _). by eapply Hback.
    - intros [x|] [d Hd]; [|by apply runs_raise].
      intros w res w' (r & -> & Hseen & Hr & Hi & Hrd & Hown) Hrun.
      destruct (Hk r Hr Hi Hrd Hown w res w' Hseen Hrun) as [Hseen' Hcs].
      split; [|done]. exists r. done. }
  intros w r w' Hw Hrun. apply (H w r w' Hw). rewrite <- Hrun. unfold get_operation, bind.
  by destruct (repo_get_operation s i amb w) as [[[o|]|e] w1].
Qed.

Lemma runs_get_operation amb (I : database → Prop) s i :
  rely amb I → (∀ d, I d → op_db_ok d) →
  runs amb I (get_operation s i) (λ r cs, cs = [] ∧ ∀ o, r = Ok o → owns s o).
Proof.
  intros Hrely HI. unfold get_operation, repo_get_operation.
  eapply runs_bind_pure with (Qa := λ o, ∀ x, o = Some x → owns s x).
  - apply runs_lift_bind; [done|]. intros visible Hv. apply runs_query; [done| |done].
    intros d Hd. split; [done|].
    destruct (visible_operation visible d i) as [r|] eqn:E; cbn; [|done].
    eapply visible_operation_owns in E as [Hr Hown]; [|done].
    rewrite (odb_rows d (HI d Hd) i r Hr). cbn. by intros x [= <-].
  - intros [x|] Hx; [apply runs_ret|apply runs_raise]; split; try done.
    intros o [= <-]. by apply Hx.
Qed.
