(* ===== verification/OperationTheorems.v ===== *)
(** The guarantees of the operation service: every lifecycle step is one audited commit of
    the owner's row along an allowed transition, and only confirmed automatic operations
    reach the order provider. *)
From S2P Require Import Prelude Effects Auth OperationModels CaseModels Envelope Database CaseRepository CaseSafety OperationRepository OperationService OperationSafety.

(** Prove a fact of every event of a literal list. *)
Ltac each_event := repeat first [apply Forall_nil_2 | apply Forall_cons_2]; auto.

(** * Endings *)

Definition op_step : Type := OrderOperation → OrderOperation → list OrderOperationEvent → Prop.

(** One commit that replaces a row by a step of the lifecycle. *)
Definition op_stepped (s : AccessScope) (step : op_step) (old new : OrderOperation)
    (es : list OrderOperationEvent) (d d' : database) : Prop :=
  op_committed s (Some old) new es d d' ∧ step old new es.

(** A call that replaces one row: exactly one commit, of a row the caller owns, returned
    with its events; or an answer without a commit; or an error without a commit, except for
    a lost acknowledgement. *)
Definition op_audited (s : AccessScope) (step : op_step) (action : OperationServiceAction)
    (r : res OperationServiceResult) (cs : list (database * database)) : Prop :=
  match r with
  | Ok res =>
      (∃ old new es d d', cs = [(d, d')] ∧ res = op_result action new es ∧
         op_stepped s step old new es d d')
      ∨ (cs = [] ∧ ∃ o, res = op_result oa_status_unchanged o [] ∧ owns s o)
  | Err e =>
      cs = [] ∨ (e = OperationPersistenceError ∧
                 ∃ old new es d d', cs = [(d, d')] ∧ op_stepped s step old new es d d')
  end.

(** One round of the retry loop. *)
Definition op_round (Q : res OperationServiceResult → list (database * database) → Prop)
    (r : res (option OperationServiceResult)) (cs : list (database * database)) : Prop :=
  match r with
  | Ok (Some a) => Q (Ok a) cs
  | Ok None => cs = []
  | Err e => Q (Err e) cs
  end.

Lemma op_audited_err s step action e : op_audited s step action (Err e) [].
Proof. by left. Qed.
Lemma op_audited_answer s step action o :
  owns s o → op_audited s step action (Ok (op_result oa_status_unchanged o [])) [].
Proof. intros Ho. right. eauto. Qed.

Lemma op_audited_mono s (P Q : op_step) action r cs :
  (∀ old new es, P old new es → Q old new es) →
  op_audited s P action r cs → op_audited s Q action r cs.
Proof.
  intros H. unfold op_audited, op_stepped. destruct r as [res|e].
  - intros [(old & new & es & d & d' & ? & ? & ? & ?)|?]; [left|by right].
    exists old, new, es, d, d'. auto.
  - intros [?|(? & old & new & es & d & d' & ? & ? & ?)]; [by left|right]. split; [done|].
    exists old, new, es, d, d'. auto.
Qed.

Create HintDb ending.
#[export] Hint Resolve op_audited_err op_audited_answer : ending.

(** * Replays and conflicts *)

Section Replay.
Context (amb : Ambient database) (I : database → Prop).
Context (Hrely : rely amb I) (HI : ∀ d, I d → op_db_ok d).

Lemma unchanged_result_runs s i :
  runs amb I (unchanged_result s i) (λ r cs, cs = [] ∧
    ∀ res, r = Ok res → ∃ o, res = op_result oa_status_unchanged o [] ∧ owns s o).
Proof.
  unfold unchanged_result. eapply runs_bind_pure with (Qa := owns s).
  - eapply runs_weaken; [by apply runs_get_operation|].
    intros [o|e] cs [-> Ho]; split; try done. by apply Ho.
  - intros o Ho. apply runs_ret. split; [done|]. intros res [= <-]. eauto.
Qed.

Lemma prior_result_runs s key :
  runs amb I (prior_result s key) (λ r cs, cs = [] ∧
    ∀ res, r = Ok (Some res) → ∃ o, res = op_result oa_status_unchanged o [] ∧ owns s o).
Proof.
  unfold prior_result, find_operation_event_by_idempotency_key.
  eapply runs_bind_pure with (Qa := λ _, True).
  - apply runs_lift_bind; [done|]. intros visible _. apply runs_query; [done| |done].
    intros d Hd. split; [done|]. by destruct (operation_event_from_row _).
  - intros [e|] _; [|by apply runs_ret].
    eapply runs_bind_pure with (Qa := λ res, ∃ o, res = op_result oa_status_unchanged o [] ∧ owns s o).
    + eapply runs_weaken; [apply unchanged_result_runs|].
      intros [res|x] cs [-> Hr]; split; try done. by apply Hr.
    + intros res Hres. apply runs_ret. split; [done|]. by intros ? [= <-].
Qed.

Lemma write_conflict_runs s key e k step action :
  write_conflict s key e = Some k → runs amb I k (op_round (op_audited s step action)).
Proof.
  assert (runs amb I (prior_result s key) (op_round (op_audited s step action))) as H.
  { eapply runs_weaken; [apply prior_result_runs|].
    intros [[res|]|x] cs [-> Hr]; cbn; eauto with ending. }
  destruct e; intros [= <-]; exact H.
Qed.

Lemma once_per_key_runs n s key attempt (S : list (database * database) → Prop) Q :
  (∀ e, Q (Err e) []) →
  (∀ o, owns s o → Q (Ok (op_result oa_status_unchanged o [])) []) →
  (∀ cs0 r cs, S cs0 → Q r cs → Q r (cs0 ++ cs)) →
  runs amb I attempt (λ r cs, match r with
    | Ok (Some a) => Q (Ok a) cs | Ok None => S cs | Err e => Q (Err e) cs end) →
  runs amb I (once_per_key n s key attempt) Q.
Proof.
  intros He Ha HS Hatt. unfold once_per_key.
  eapply runs_bind_pure with (Qa := λ o, ∀ res, o = Some res → Q (Ok res) []).
  - eapply runs_weaken; [apply prior_result_runs|]. intros [o|x] cs [-> Hr]; split; try done.
    intros res ->. destruct (Hr res eq_refl) as (x & -> & Hx). auto.
  - intros [res|] Hres; [apply runs_ret; by apply Hres|].
    eapply runs_for_attempts_acc; [exact HS|exact Hatt|]. by apply runs_raise.
Qed.
End Replay.

(** * The optimistic write *)

Lemma try_update_runs amb s key action r o es (step : op_step) :
  op_others_ok amb → op_update_of r o es → step r o es →
  runs amb (op_seen r) (try_update s key action (read_view r) o es)
    (op_round (op_audited s step action)).
Proof.
  intros Hamb Hup Hstep. unfold try_update.
  eapply runs_try_except with (Q1 := λ x cs, match x with
    | Ok a => op_round (op_audited s step action) (Ok a) cs
    | Err e => cs = [] ∨ e = OperationPersistenceError ∧ op_audited s step action (Err e) cs end).
  - eapply runs_bind; [by apply (update_operation_with_events_runs amb s r)|..].
    + intros [] cs (d & d' & -> & Hc). apply runs_ret. left. by exists r, o, es, d, d'.
    + intros e cs [->|(-> & d & d' & -> & Hc)]; [by left|]. right. split; [done|]. right.
      split; [done|]. by exists r, o, es, d, d'.
  - done.
  - intros e cs He. destruct (write_conflict s key e) as [k|] eqn:Hk.
    + assert (cs = []) as -> by (destruct He as [->|(-> & _)]; [done|discriminate Hk]).
      eapply write_conflict_runs; [by apply rely_op_seen|by intros d []|done].
    + destruct He as [->|[_ He]]; [by left|done].
Qed.

(** * Events and updates *)

Lemma plain_event_about key r t c actor u at_ e :
  op_readable r → OrderOperationEvent_validate (plain_event u key (read_view r) t c actor at_) = Ok e →
  op_event_normal e ∧ ∀ o, op_same r o → about_operation o e.
Proof.
  intros Hr He. split; [by eapply OrderOperationEvent_validate_normal|].
  apply OrderOperationEvent_validate_ok in He as (-> & _). intros o Hs.
  pose proof (strip_read_view r Hr) as Hv. unfold op_same in Hs. destruct_and!.
  split_and!; cbn; try congruence.
  - transitivity (oo_tenant_id (OrderOperation_strip (read_view r))); [done|]. by rewrite Hv.
  - transitivity (oo_customer_id (OrderOperation_strip (read_view r))); [done|]. by rewrite Hv.
Qed.

Lemma op_readable_version r : op_readable r → 1 ≤ oo_version r.
Proof.
  intros (_ & Hf & _)%op_readable_facts. unfold OrderOperation_fields_ok in Hf. cbn in Hf. bools. lia.
Qed.

(** What a status update records about the row it replaces. *)
Definition status_audit (actor : string) (old new : OrderOperation) (e : OrderOperationEvent) : Prop :=
  oev_event_type e = oe_status_changed ∧ oev_previous_status e = Some (oo_status old) ∧
  oev_current_status e = Some (oo_status new) ∧ oev_actor e = strip actor ∧
  oev_created_at e = oo_updated_at new.

(** A status step: the status, the provider reference, the version and the update time
    change, nothing else. *)
Definition moved (target : OperationRecordStatus) (old new : OrderOperation) : Prop :=
  operation_transition_allowed (oo_status old) target = true ∧
  ∃ reference, new = with_operation_status (read_view old) target reference (oo_updated_at new).

Lemma same_status r o target reference at_ :
  o = with_operation_status (read_view r) target reference at_ →
  operation_transition_allowed (oo_status r) target = true → op_same r o.
Proof. intros -> Ht. unfold op_same. cbn. split_and!; try done. by apply reaches_one. Qed.

Lemma status_update_facts r target reference u key actor at_ e :
  op_readable r → operation_transition_allowed (oo_status r) target = true →
  let o := with_operation_status (read_view r) target reference at_ in
  OrderOperationEvent_validate (status_change_event u key (read_view r) o actor at_) = Ok e →
  (∀ es, Forall op_event_normal es → Forall (about_operation o) es → op_update_of r o es) ∧
  moved target r o ∧ op_event_normal e ∧ about_operation o e ∧ status_audit actor r o e ∧
  oev_idempotency_key e = strip key.
Proof.
  intros Hr Ht o He. pose proof (OrderOperationEvent_validate_normal _ _ He) as Hen.
  apply OrderOperationEvent_validate_ok in He as (-> & Hf & _).
  pose proof (strip_read_view r Hr) as Hv.
  assert (op_same r o) as Hs by (by eapply same_status).
  split_and!; try done.
  - intros es Hes Hab. split; try done. intros Hat. cbn in Hat.
    change o with (set_progress (read_view r) (oo_support_case_id r)
      (ref_or reference (oo_provider_reference (read_view r))) target at_ (oo_version r + 1)).
    unfold OrderOperationEvent_fields_ok in Hf. cbn in Hf. bools.
    apply set_progress_readable; try done; [by left|].
    pose proof (op_readable_version r Hr). lia.
  - split; [done|by exists reference].
  - split_and!; [done| |].
    + transitivity (oo_tenant_id (OrderOperation_strip (read_view r))); [done|]. by rewrite Hv.
    + transitivity (oo_customer_id (OrderOperation_strip (read_view r))); [done|]. by rewrite Hv.
Qed.

Lemma build_status_update_bind {B} amb I r target key actor reference
    (k : OrderOperation * OrderOperationEvent → M database B) Q :
  op_readable r → operation_transition_allowed (oo_status r) target = true →
  (∀ x, Q (Err x) []) →
  (∀ o e, (∀ es, Forall op_event_normal es → Forall (about_operation o) es → op_update_of r o es) →
     o = with_operation_status (read_view r) target reference (oo_updated_at o) →
     op_event_normal e → about_operation o e → status_audit actor r o e →
     oev_idempotency_key e = strip key → runs amb I (k (o, e)) Q) →
  runs amb I (bind (build_status_update (read_view r) target key actor reference) k) Q.
Proof.
  intros Hr Ht Hx Hk. unfold build_status_update.
  eapply runs_bind_pure with (Qa := λ p, ∃ u at_,
    p.1 = with_operation_status (read_view r) target reference at_ ∧
    OrderOperationEvent_validate (status_change_event u key (read_view r) p.1 actor at_) = Ok p.2).
  - eapply runs_bind_pure with (Qa := λ _, True); [by apply runs_now|]. intros at_ _.
    eapply runs_bind_pure with (Qa := λ _, True); [by apply runs_new_id|]. intros u _.
    apply runs_lift_bind; [done|]. intros e He. apply runs_ret. split; [done|]. by exists u, at_.
  - intros [o e] (u & at_ & Ho & He). cbn in Ho, He. subst o.
    destruct (status_update_facts r target reference u key actor at_ e Hr Ht He)
      as (? & ? & ? & ? & ? & ?). by apply Hk.
Qed.

(** * Customer decisions *)

Lemma strip_operation_key i label r : nonempty (strip r) = true →
  strip (operation_key i label (strip r)) = operation_key i label (strip r).
Proof.
  intros Hr. unfold operation_key. rewrite <- !append_assoc.
  apply strip_app; [reflexivity|apply strip_idem|by apply nonempty_true].
Qed.

Lemma with_event_key_normal e key :
  op_event_normal e → strip key = key → nonempty key = true → op_event_normal (with_event_key e key).
Proof.
  unfold op_event_normal. rewrite !OrderOperationEvent_validate_ok. intros (He & Hf & Hs) Hk Hne.
  split_and!.
  - transitivity (with_event_key (OrderOperationEvent_strip e) (strip key)); [|done].
    by rewrite <- He, Hk.
  - unfold OrderOperationEvent_fields_ok in *. cbn in *. bools.
    repeat match goal with H : _ = true |- _ => rewrite H; clear H end. done.
  - exact Hs.
Qed.

(** The customer's decision on a pending operation, with its audit trail. *)
Record decided (s : AccessScope) (confirmed : bool) (key : string)
    (target : OrderOperation → OperationRecordStatus)
    (old new : OrderOperation) (es : list OrderOperationEvent) : Prop := {
  dec_pending : oo_status old = os_pending_confirmation;
  dec_moved : moved (target old) old new;
  dec_actor : ∃ actor, identity s = Ok actor ∧ ∃ e, e ∈ es ∧ status_audit actor old new e;
  dec_key : ∃ e, e ∈ es ∧ oev_idempotency_key e = key;
  dec_confirmation : (∃ e, e ∈ es ∧ oev_event_type e = oe_confirmation_recorded) ↔ confirmed = true;
}.

Definition decision_target (target : option OperationRecordStatus) (o : OrderOperation) :
    OperationRecordStatus :=
  match target with
  | Some t => t
  | None => if oo_requires_manual_review o then os_manual_review else os_submitted
  end.

Lemma change_from_pending_runs amb n s i request target confirmed I Rel :
  op_others_ok amb → op_frame amb i I Rel →
  (∀ t, target = Some t → operation_transition_allowed os_pending_confirmation t = true) →
  let key := operation_key i (action_label confirmed) (strip request) in
  runs amb I (change_from_pending n s i request target confirmed)
    (op_audited s (λ old new es, (Rel old ∧ oo_operation_id old = i) ∧
                     decided s confirmed key (decision_target target) old new es)
       (if confirmed then oa_confirmed else oa_cancelled)).
Proof.
  intros Hamb Hfr Htarget key. unfold change_from_pending. cbv zeta. fold key.
  apply runs_lift_bind; [by left|]. intros actor Hactor.
  apply runs_lift_bind; [by left|]. intros u Hreq%raise_if_ok%negb_false_iff.
  assert (strip key = key) as Hkey by (by apply strip_operation_key).
  eapply (once_per_key_runs amb I) with (S := λ cs, cs = []);
    [apply Hfr|apply Hfr|auto with ending..|by intros ? ? ? ->|].
  eapply runs_get_operation_bind; [exact Hfr|by left|]. intros r Hrel Hi Hr Hown.
  case_bool_decide as Hst; cbn in Hst.
  { destruct (_ || _); [apply runs_ret; by apply op_audited_answer|apply runs_raise; by left]. }
  assert (operation_transition_allowed (oo_status r) (decision_target target r) = true) as Hal.
  { rewrite Hst. unfold decision_target. destruct target as [t|]; [by apply Htarget|].
    by destruct (oo_requires_manual_review r). }
  apply (build_status_update_bind amb (op_seen r) r (decision_target target r)); [done..|by left|].
  intros o e Hup Ho Hen Hab Haud Hek.
  assert (moved (decision_target target r) r o) as Hmv by (split; [done|eauto]).
  destruct confirmed.
  - eapply runs_bind_pure with (Qa := λ _, True); [by apply runs_new_id|]. intros v _.
    apply runs_lift_bind; [by left|]. intros c Hc.
    destruct (plain_event_about _ _ _ _ _ _ _ _ Hr Hc) as [Hcn Hca].
    apply OrderOperationEvent_validate_ok in Hc as (Hc & _).
    assert (op_same r o) as Hs by (by eapply same_status).
    apply try_update_runs; [done|apply Hup; each_event|].
    split; [done|]. split; [done|done| | |].
    + exists actor. split; [done|]. exists e. split; [set_solver|done].
    + exists c. split; [set_solver|]. by subst c.
    + split; [done|]. intros _. exists c. split; [set_solver|]. by subst c.
  - apply try_update_runs; [done| |].
    { apply Hup; each_event. by apply with_event_key_normal. }
    split; [done|]. split; [done|done| | |].
    + exists actor. split; [done|]. eexists. split; [by apply list_elem_of_singleton|done].
    + eexists. split; [by apply list_elem_of_singleton|done].
    + split; [|done]. intros (x & Hx & Hty). apply list_elem_of_singleton in Hx as ->.
      destruct Haud as [Haud _]. cbn in Hty. congruence.
Qed.

(** A confirmation moves a manual-review operation to review, and only such an operation. *)
Definition confirmed_for_review (s : AccessScope) (i : uuid) (key : string) (old new : OrderOperation)
    (es : list OrderOperationEvent) : Prop :=
  oo_operation_id old = i ∧ oo_requires_manual_review old = true ∧
  decided s true key (λ _, os_manual_review) old new es.

Lemma confirm_operation_runs amb n s i request :
  op_others_ok amb →
  runs amb op_db_ok (confirm_operation n s i request)
    (op_audited s (confirmed_for_review s i (operation_key i "confirmed" (strip request)))
       oa_confirmed).
Proof.
  intros Hamb. unfold confirm_operation.
  eapply runs_get_operation_bind; [by apply op_frame_db|by left|]. intros r _ Hi Hr Hown.
  apply runs_lift_bind; [by left|]. intros u Hman%raise_if_ok%negb_false_iff. cbn in Hman.
  rewrite <- Hi.
  eapply runs_weaken; [apply (change_from_pending_runs amb n s _ request None true);
    [done|by apply op_frame_seen|done]|].
  assert (∀ old new es, (moved_on oo_version op_same r old ∧ oo_operation_id old = oo_operation_id r)
    ∧ decided s true (operation_key (oo_operation_id r) "confirmed" (strip request))
        (decision_target None) old new es →
    confirmed_for_review s (oo_operation_id r)
      (operation_key (oo_operation_id r) "confirmed" (strip request)) old new es) as Himp.
  { intros old new es [[[Hs _] Hid] Hd].
    destruct Hd as [Hp Hm ? ? ?].
    assert (oo_requires_manual_review old = true) as Ho.
    { unfold op_same in Hs. destruct_and!. rewrite <- Hman. symmetry. auto. }
    split_and!; [done|done|].
    unfold decision_target in Hm. rewrite Ho in Hm. by split. }
  intros x cs. apply op_audited_mono. exact Himp.
Qed.

Lemma cancel_pending_operation_runs amb n s i request :
  op_others_ok amb →
  runs amb op_db_ok (cancel_pending_operation n s i request)
    (op_audited s (λ old new es, oo_operation_id old = i ∧
         decided s false (operation_key i "cancelled" (strip request))
           (λ _, os_cancelled_by_customer) old new es) oa_cancelled).
Proof.
  intros Hamb. unfold cancel_pending_operation.
  eapply runs_weaken; [apply (change_from_pending_runs amb n s i request
    (Some os_cancelled_by_customer) false); [done|by apply op_frame_db|naive_solver]|].
  intros x cs. apply op_audited_mono. intros old new es [[_ Hi] [? Hm ? ? ?]].
  split; [done|]. by split.
Qed.

(** * Submission to the order provider *)

(** The provider received one command for the stored operation [i], which when it was read
    was the caller's, automatic and waiting for confirmation. *)
Definition provider_call (s : AccessScope) (i : uuid) (c : database * database) : Prop :=
  ∃ p r o, c.2 = add_provider_submission p c.1 ∧ order_operations c.1 !! i = Some o ∧
    owns s r ∧ oo_requires_manual_review r = false ∧ oo_status r = os_pending_confirmation ∧
    moved_on oo_version op_same r o ∧ ps_idempotency_key p = provider_key i ∧
    ps_expected_order_version p = oo_order_version o ∧
    OrderOperationRequest_validate (operation_request o) = Ok (ps_request p) ∧ op_db_ok c.2.

Lemma op_db_ok_submission p d :
  op_db_ok d → submission_justified d p → op_db_ok (add_provider_submission p d).
Proof.
  intros [[] Hr He Hc Hs] Hp. split; try done.
  intros q [Hq|Hq]%elem_of_app; [by apply Hs|]. apply list_elem_of_singleton in Hq as ->. done.
Qed.

Lemma submit_operation_runs amb s r p provider :
  op_others_ok amb → owns s r → oo_requires_manual_review r = false →
  oo_status r = os_pending_confirmation →
  ps_idempotency_key p = provider_key (oo_operation_id r) →
  ps_expected_order_version p = oo_order_version r →
  OrderOperationRequest_validate (operation_request r) = Ok (ps_request p) →
  runs amb (op_seen r) (submit_operation provider p)
    (λ x cs, Forall (provider_call s (oo_operation_id r)) cs ∧
             ∀ y, x = Ok y → ∃ past, provider past p = Ok y).
Proof.
  intros Hamb Hown Hman Hst Hk Hv Hreq. unfold submit_operation.
  apply runs_transact; [by apply rely_op_seen| |by intros; split; [constructor|]|by split; [constructor|]].
  intros d x d' [Hd (o & Ho & Hm)] Hf. inv_ok. pose proof Hm as [Hs _].
  assert (submission_justified d p) as Hj.
  { exists (oo_operation_id r), o. rewrite <- (operation_request_same r o Hs).
    unfold op_same in Hs. destruct_and!. split_and!; first [done|congruence]. }
  pose proof (op_db_ok_submission p d Hd Hj) as Hd'.
  assert (provider_call s (oo_operation_id r) (d, add_provider_submission p d)).
  { exists p, r, o. rewrite <- (operation_request_same r o Hs). unfold op_same in Hs.
    destruct_and!. split_and!; first [done|congruence]. }
  split; [split; [done|]; by exists o|]. split; (split; [by apply Forall_singleton|]).
  - intros y [= <-]. eauto.
  - done.
Qed.

(** A submission: any number of calls to the provider, all under the operation's own
    idempotency key, then the ending of a write. *)
Definition submitted_ending (s : AccessScope) (i : uuid) (step : op_step)
    (r : res OperationServiceResult) (cs : list (database * database)) : Prop :=
  ∃ calls rest, cs = calls ++ rest ∧ Forall (provider_call s i) calls ∧
    op_audited s step oa_submitted r rest.

Lemma submitted_ending_calls s i step r cs0 cs :
  Forall (provider_call s i) cs0 → submitted_ending s i step r cs →
  submitted_ending s i step r (cs0 ++ cs).
Proof.
  intros H0 (calls & rest & -> & Hc & Ha). exists (cs0 ++ calls), rest.
  rewrite app_assoc. split_and!; [done|by apply Forall_app|done].
Qed.

Lemma submitted_ending_none s i step r cs :
  op_audited s step oa_submitted r cs → submitted_ending s i step r cs.
Proof. intros Ha. exists [], cs. auto. Qed.

Definition submitted_step (s : AccessScope) (i : uuid) (key : string) (old new : OrderOperation)
    (es : list OrderOperationEvent) : Prop :=
  oo_operation_id old = i ∧ oo_requires_manual_review old = false ∧
  is_Some (oo_provider_reference new) ∧
  decided s true key (λ _, os_submitted) old new es.

(** The hypothesis the code makes about the provider: an accepted command is answered with
    a non-empty operation identifier. *)
Definition provider_identifies (provider : OrderProvider) : Prop :=
  ∀ past p x, provider past p = Ok x → xop_operation_id x ≠ "".

Lemma submit_confirmed_operation_runs amb n s i request provider :
  op_others_ok amb → provider_identifies provider →
  runs amb op_db_ok (submit_confirmed_operation n s i request provider)
    (submitted_ending s i (submitted_step s i (operation_key i "submitted" (strip request)))).
Proof.
  intros Hamb Hprov. unfold submit_confirmed_operation. cbv zeta.
  set (key := operation_key i "submitted" (strip request)).
  assert (∀ e, submitted_ending s i (submitted_step s i key) (Err e) []) as Herr
    by (intros; apply submitted_ending_none; auto with ending).
  apply runs_lift_bind; [done|]. intros actor Hactor.
  apply runs_lift_bind; [done|]. intros u Hreq%raise_if_ok%negb_false_iff.
  assert (strip key = key) as Hkey by (by apply strip_operation_key).
  eapply (once_per_key_runs amb op_db_ok) with (S := Forall (provider_call s i));
    [by apply rely_op_db|done|done| |intros; by apply submitted_ending_calls|].
  { intros. apply submitted_ending_none. auto with ending. }
  eapply runs_get_operation_bind; [by apply op_frame_db|done|]. intros r _ Hi Hr Hown.
  apply runs_lift_bind; [done|]. intros v Hman%raise_if_ok. cbn in Hman.
  destruct (_ && _).
  { apply runs_ret. apply submitted_ending_none. by apply op_audited_answer. }
  apply runs_lift_bind; [done|]. intros w Hst%raise_if_ok%bool_decide_eq_false%dec_stable. cbn in Hst.
  apply runs_lift_bind; [done|]. intros req Hq.
  eapply runs_bind; [apply (submit_operation_runs amb s r); try done; by rewrite Hi|..].
  2: { intros e cs [Hcs _]. exists cs, []. rewrite app_nil_r, <- Hi.
       split_and!; [done|done|auto with ending]. }
  intros x cs [Hcs Hx]. rewrite Hi in Hcs. destruct (Hx x eq_refl) as [past Hpast].
  apply Hprov in Hpast.
  eapply runs_weaken with (Q := op_round (op_audited s (submitted_step s i key) oa_submitted)).
  2: { intros [[res|]|e] cs' Ha; cbn in *.
       - by exists cs, cs'.
       - subst cs'. by rewrite app_nil_r.
       - by exists cs, cs'. }
  apply (build_status_update_bind amb (op_seen r) r os_submitted); [done|by rewrite Hst|by left|].
  intros o e Hup Ho Hen Hab Haud Hek.
  eapply runs_bind_pure with (Qa := λ _, True); [by apply runs_new_id|]. intros z _.
  apply runs_lift_bind; [by left|]. intros c Hc.
  destruct (plain_event_about _ _ _ _ _ _ _ _ Hr Hc) as [Hcn Hca].
  apply OrderOperationEvent_validate_ok in Hc as (Hc & _).
  assert (op_same r o) as Hs by (eapply same_status; [exact Ho|by rewrite Hst]).
  apply try_update_runs; [done|apply Hup; each_event|].
  split_and!; [done|done| |].
  - rewrite Ho. cbn. unfold ref_or. apply nonempty_true in Hpast.
    destruct (xop_provider_reference x) as [q|]; [destruct (nonempty q) eqn:Eq|];
      rewrite ?Eq, ?Hpast; eauto.
  - split; [done|split; [by rewrite Hst|eauto]| | |].
    + exists actor. split; [done|]. exists e. split; [set_solver|done].
    + exists c. split; [set_solver|]. by subst c.
    + split; [done|]. intros _. exists c. split; [set_solver|]. by subst c.
Qed.

(** * Queueing for the outbox *)

Lemma for_order_operation_normal o conn command_id at_ c :
  for_order_operation o conn command_id at_ = Ok c → ProviderCommandEnvelope_validate c = Ok c.
Proof. unfold for_order_operation. intros H. inv_ok. by eapply envelope_validate_normal. Qed.

(** The confirmation of an automatic operation and its outbound command. *)
Definition queued_step (s : AccessScope) (i : uuid) (key : string) (old new : OrderOperation)
    (es : list OrderOperationEvent) (d d' : database) : Prop :=
  oo_operation_id old = i ∧ oo_requires_manual_review old = false ∧
  decided s true key (λ _, os_queued) old new es ∧ command_queued new d d'.

Definition queued_ending (s : AccessScope) (i : uuid) (key : string)
    (r : res OperationServiceResult) (cs : list (database * database)) : Prop :=
  match r with
  | Ok res =>
      (∃ old new es d d', cs = [(d, d')] ∧ res = op_result oa_queued new es ∧
         op_committed s (Some old) new es d d' ∧ queued_step s i key old new es d d')
      ∨ (cs = [] ∧ ∃ o, res = op_result oa_status_unchanged o [] ∧ owns s o)
  | Err e =>
      cs = [] ∨ (e = OperationPersistenceError ∧
                 ∃ old new es d d', cs = [(d, d')] ∧
                   op_committed s (Some old) new es d d' ∧ queued_step s i key old new es d d')
  end.

Lemma validate_request_metadata_ok request actor p :
  validate_request_metadata request actor = Ok p →
  p = (strip request, strip actor) ∧ nonempty (strip request) = true.
Proof. unfold validate_request_metadata. intros H. inv_ok. by bools. Qed.

Lemma queue_confirmed_operation_runs amb s i request conn :
  op_others_ok amb →
  runs amb op_db_ok (queue_confirmed_operation s i request conn)
    (queued_ending s i (operation_key i "confirmed" (strip request))).
Proof.
  intros Hamb. unfold queue_confirmed_operation.
  apply runs_lift_bind; [by left|]. intros who Hwho.
  apply runs_lift_bind; [by left|]. intros meta [-> Hreq]%validate_request_metadata_ok. cbn [fst].
  set (key := operation_key i "confirmed" (strip request)).
  apply runs_lift_bind; [by left|]. intros _ _.
  eapply runs_get_operation_bind; [by apply op_frame_db|by left|]. intros r _ Hi Hr Hown.
  apply runs_lift_bind; [by left|]. intros v Hman%raise_if_ok. cbn in Hman.
  case_bool_decide as Hq; [apply runs_ret; right; eauto|].
  apply runs_lift_bind; [by left|]. intros w Hst%raise_if_ok%bool_decide_eq_false%dec_stable. cbn in Hst.
  eapply runs_bind_pure with (Qa := λ _, True); [by apply runs_now|]. intros at_ _.
  apply (build_status_update_bind amb (op_seen r) r os_queued); [done|by rewrite Hst|by left|].
  intros o e Hup Ho Hen Hab Haud Hek.
  eapply runs_bind_pure with (Qa := λ _, True); [by apply runs_new_id|]. intros z _.
  apply runs_lift_bind; [by left|]. intros c Hc.
  destruct (plain_event_about _ _ _ _ _ _ _ _ Hr Hc) as [Hcn Hca].
  apply OrderOperationEvent_validate_ok in Hc as (Hc & _).
  eapply runs_bind_pure with (Qa := λ _, True); [by apply runs_new_id|]. intros command_id _.
  apply runs_lift_bind; [by left|]. intros command Hcmd%for_order_operation_normal.
  assert (op_same r o) as Hs by (eapply same_status; [exact Ho|by rewrite Hst]).
  assert (oo_status o = os_queued) as Hos by (by rewrite Ho).
  assert (decided s true key (λ _, os_queued) r o [c; e]) as Hdec.
  { split; [done|split; [by rewrite Hst|eauto]| | |].
    - exists who. split; [done|]. exists e. split; [set_solver|done].
    - exists c. split; [set_solver|]. subst c. cbn. by apply strip_operation_key.
    - split; [done|]. intros _. exists c. split; [set_solver|]. by subst c. }
  eapply runs_bind; [apply (queue_operation_runs amb s r o [c; e] command); try done;
    apply Hup; each_event|..].
  - intros [] cs (d & d' & -> & Hcm & Hqd). apply runs_ret. left.
    exists r, o, [c; e], d, d'. by split_and!.
  - intros x cs [->|(-> & d & d' & -> & Hcm & Hqd)]; [by left|]. right. split; [done|].
    exists r, o, [c; e], d, d'. by split_and!.
Qed.

(** * Status reports *)

Definition status_reported (i : uuid) (target : OperationRecordStatus) (actor key : string)
    (old new : OrderOperation) (es : list OrderOperationEvent) : Prop :=
  oo_operation_id old = i ∧ moved target old new ∧
  ∃ e, es = [e] ∧ status_audit actor old new e ∧ oev_idempotency_key e = key.

Lemma update_operation_status_runs amb n s i target request actor reference :
  op_others_ok amb →
  runs amb op_db_ok (update_operation_status n s i target request actor reference)
    (op_audited s (status_reported i target (strip actor) (operation_key i "status" (strip request)))
       oa_status_changed).
Proof.
  intros Hamb. unfold update_operation_status.
  apply runs_lift_bind; [by left|]. intros meta [-> Hreq]%validate_request_metadata_ok.
  apply runs_lift_bind; [by left|]. intros _ _.
  set (key := operation_key i "status" (strip request)). cbv zeta.
  eapply (once_per_key_runs amb op_db_ok) with (S := λ cs, cs = []);
    [by apply rely_op_db|done|auto with ending..|by intros ? ? ? ->|].
  eapply runs_get_operation_bind; [by apply op_frame_db|by left|]. intros r _ Hi Hr Hown.
  case_bool_decide as Hsame; [apply runs_ret; by apply op_audited_answer|].
  apply runs_lift_bind; [by left|]. intros u Hal%raise_if_ok%negb_false_iff. cbn in Hal.
  apply (build_status_update_bind amb (op_seen r) r target); [done..|by left|].
  intros o e Hup Ho Hen Hab Haud Hek.
  apply try_update_runs; [done|apply Hup; each_event|].
  split_and!; [done|split; [done|eauto]|]. exists e. split_and!; try done.
  rewrite Hek. by apply strip_operation_key.
Qed.

(** * Linking the review case *)

Definition case_attached (i case_id : uuid) (key : string) (old new : OrderOperation)
    (es : list OrderOperationEvent) : Prop :=
  oo_operation_id old = i ∧ oo_requires_manual_review old = true ∧
  oo_status old = os_manual_review ∧ oo_support_case_id old = None ∧
  new = with_support_case (read_view old) case_id (oo_updated_at new) ∧
  ∃ e, es = [e] ∧ oev_event_type e = oe_support_case_attached ∧
       oev_support_case_id e = Some case_id ∧ oev_idempotency_key e = key.

Lemma with_support_case_update r case_id at_ e :
  op_readable r → oo_requires_manual_review r = true →
  op_event_normal e → (∀ o, op_same r o → about_operation o e) →
  op_update_of r (with_support_case (read_view r) case_id at_) [e].
Proof.
  intros Hr Hman Hen Hab.
  assert (op_same r (with_support_case (read_view r) case_id at_)) as Hs.
  { unfold op_same. cbn. by split_and!. }
  split; try done; [|each_event..]. intros Hat. cbn in Hat.
  change (with_support_case (read_view r) case_id at_) with
    (set_progress (read_view r) (Some case_id) (strip <$> oo_provider_reference r) (oo_status r)
       at_ (oo_version r + 1)).
  pose proof (op_readable_version r Hr).
  apply set_progress_readable; [done|by right| |done|lia].
  apply op_readable_facts in Hr as (_ & Hf & _). unfold OrderOperation_fields_ok in Hf.
  cbn in Hf. bools. by rewrite strip_opt_idem.
Qed.

Lemma attach_support_case_runs amb n s i case_id request :
  op_others_ok amb →
  runs amb op_db_ok (attach_support_case n s i case_id request)
    (op_audited s (case_attached i case_id (operation_key i "support-case" (strip request)))
       oa_support_case_attached).
Proof.
  intros Hamb. unfold attach_support_case. cbv zeta.
  apply runs_lift_bind; [by left|]. intros u Hreq%raise_if_ok%negb_false_iff.
  set (key := operation_key i "support-case" (strip request)).
  eapply (once_per_key_runs amb op_db_ok) with (S := λ cs, cs = []);
    [by apply rely_op_db|done|auto with ending..|by intros ? ? ? ->|].
  eapply runs_get_operation_bind; [by apply op_frame_db|by left|]. intros r _ Hi Hr Hown.
  apply runs_lift_bind; [by left|]. intros v Hg%raise_if_ok. cbn in Hg. bools.
  apply dec_stable in H0.
  change (oo_support_case_id (read_view r)) with (oo_support_case_id r).
  destruct (oo_support_case_id r) as [c|] eqn:Hc.
  { destruct (N.eqb c case_id); [apply runs_ret; by apply op_audited_answer|apply runs_raise; by left]. }
  eapply runs_bind_pure with (Qa := λ _, True); [by apply runs_now|]. intros at_ _.
  eapply runs_bind_pure with (Qa := λ _, True); [by apply runs_new_id|]. intros z _.
  apply runs_lift_bind; [by left|]. intros e He.
  destruct (plain_event_about _ _ _ _ _ _ _ _ Hr He) as [Hen Hea].
  apply OrderOperationEvent_validate_ok in He as (He & _).
  apply try_update_runs; [done|by apply with_support_case_update|].
  split_and!; try done. exists e. subst e. split_and!; try done. by apply strip_operation_key.
Qed.

(** * Creation *)

(** A new operation, as requested and decided, waiting for the customer. *)
Record operation_opened (s : AccessScope) (request : OrderOperationRequest)
    (snapshot : OrderSnapshot) (decision : OperationDecision) (o : OrderOperation)
    (es : list OrderOperationEvent) : Prop := {
  opd_status : oo_status o = os_pending_confirmation;
  opd_order : oo_order_id o = strip (rq_order_id request) ∧ rq_order_id request = sn_order_id snapshot
              ∧ oo_order_version o = sn_version snapshot ∧ oo_amount o = sn_amount snapshot;
  opd_type : oo_operation_type o = rq_operation_type request
             ∧ rq_operation_type request = od_operation_type decision;
  opd_review : (oo_requires_manual_review o = true ↔ od_outcome decision = out_manual_review)
               ∧ (oo_requires_manual_review o = false ↔ od_outcome decision = out_eligible);
  opd_confirmation : od_requires_confirmation decision = true;
  opd_message : oo_thread_id o = strip (rq_thread_id request)
                ∧ oo_source_message_id o = strip (rq_source_message_id request);
  opd_event : ∃ e, es = [e] ∧ oev_event_type e = oe_operation_created
                   ∧ oev_idempotency_key e = oo_idempotency_key o;
}.

Definition creation_ending (s : AccessScope) (request : OrderOperationRequest)
    (snapshot : OrderSnapshot) (decision : OperationDecision)
    (r : res OperationServiceResult) (cs : list (database * database)) : Prop :=
  match r with
  | Ok res =>
      (∃ o es d d', cs = [(d, d')] ∧ res = op_result oa_created o es ∧
         op_committed s None o es d d' ∧ operation_opened s request snapshot decision o es)
      ∨ (cs = [] ∧ ∃ o, res = op_result oa_duplicate_ignored o [] ∧ owns s o)
  | Err e =>
      cs = [] ∨ (e = OperationPersistenceError ∧
                 ∃ o es d d', cs = [(d, d')] ∧ op_committed s None o es d d' ∧
                   operation_opened s request snapshot decision o es)
  end.

(** A lookup of one row by a selection returns an owned operation and commits nothing. *)
Lemma runs_select_operation amb s (sel : (row_owner → bool) → database → option OrderOperation) :
  op_others_ok amb →
  (∀ visible d o, sel visible d = Some o →
     o ∈ rows (order_operations d) ∧ visible (operation_owner o) = true) →
  runs amb op_db_ok
    (visible <- lift (customer_owned_visibility s);
     query OperationPersistenceError (λ d, operation_from_row (sel visible d)))
    (λ r cs, cs = [] ∧ ∀ o, r = Ok (Some o) → owns s o).
Proof.
  intros Hamb Hsel. apply runs_lift_bind; [done|]. intros visible Hv.
  apply runs_query; [by apply rely_op_db| |done]. intros d Hd. split; [done|].
  destruct (sel visible d) as [o|] eqn:E; cbn; [|done].
  apply Hsel in E as [Hrow Hvis]. apply (customer_owned_visibility_ok s visible _ Hv) in Hvis.
  unfold rows in Hrow. apply list_elem_of_fmap in Hrow as ([i x] & -> & Hi%elem_of_map_to_list).
  cbn in *. rewrite (odb_rows d Hd i x Hi). cbn. by intros y [= <-].
Qed.

Lemma existing_for_request_runs amb s request :
  op_others_ok amb →
  runs amb op_db_ok (existing_for_request s request) (λ r cs, cs = [] ∧
    ∀ res, r = Ok (Some res) → ∃ o, res = op_result oa_duplicate_ignored o [] ∧ owns s o).
Proof.
  intros Hamb. unfold existing_for_request.
  assert (∀ m : M database (option OrderOperation), ∀ k,
    runs amb op_db_ok m (λ r cs, cs = [] ∧ ∀ o, r = Ok (Some o) → owns s o) →
    runs amb op_db_ok (k None) (λ r cs, cs = [] ∧
      ∀ res, r = Ok (Some res) → ∃ o, res = op_result oa_duplicate_ignored o [] ∧ owns s o) →
    (∀ o, k (Some o) = ret (Some (op_result oa_duplicate_ignored o []))) →
    runs amb op_db_ok (bind m k) (λ r cs, cs = [] ∧
      ∀ res, r = Ok (Some res) → ∃ o, res = op_result oa_duplicate_ignored o [] ∧ owns s o)) as Hone.
  { intros m k Hm Hn Hs. eapply runs_bind_pure with (Qa := λ o, ∀ x, o = Some x → owns s x).
    - eapply runs_weaken; [exact Hm|]. intros [o|e] cs [-> Ho]; split; try done.
      intros x ->. by apply Ho.
    - intros [o|] Ho; [|done]. rewrite Hs. apply runs_ret. split; [done|].
      intros res [= <-]. eauto. }
  apply Hone; [| |done].
  - apply (runs_select_operation amb s (λ visible, operation_by_message visible
      (rq_thread_id request) (rq_source_message_id request))); [done|].
    intros visible d o. unfold operation_by_message. intros Ho.
    apply head_Some_elem_of, list_elem_of_filter in Ho. tauto.
  - apply Hone; [|by apply runs_ret|done].
    apply (runs_select_operation amb s (λ visible, active_by_order visible (rq_order_id request)));
      [done|].
    intros visible d o Ho%first_row_elem. apply list_elem_of_filter in Ho. tauto.
Qed.

Lemma pending_operation_opened s request snapshot decision who cust i at_ o u e excerpt :
  customer_id s = Some cust → rq_order_id request = sn_order_id snapshot →
  od_operation_type decision = rq_operation_type request →
  od_outcome decision ∈ [out_eligible; out_manual_review] → od_requires_confirmation decision = true →
  OrderOperation_validate (pending_operation who cust (sc_tenant_id s) i request snapshot decision
    excerpt at_) = Ok o →
  OrderOperationEvent_validate (mkOrderOperationEvent u (oo_idempotency_key o) i
    oe_operation_created None None None None "system" cust (sc_tenant_id s) at_) = Ok e →
  op_creation_of o [e] ∧ operation_opened s request snapshot decision o [e].
Proof.
  intros Hcust Hord Hty Hout Hconf Ho He.
  pose proof (OrderOperation_validate_readable _ _ Ho) as [Hr _].
  pose proof (OrderOperationEvent_validate_normal _ _ He) as Hen.
  apply OrderOperation_validate_ok in Ho as (-> & _). apply OrderOperationEvent_validate_ok in He as (-> & _).
  split.
  - split; try done; each_event. by split_and!.
  - split; try done.
    + assert (od_outcome decision = out_eligible ∨ od_outcome decision = out_manual_review)
        as Ho by set_solver. cbn. rewrite bool_decide_eq_true, bool_decide_eq_false.
      destruct Ho as [-> | ->]; naive_solver.
    + eexists. split_and!; [done..|]. cbn. by rewrite strip_idem.
Qed.

Lemma create_pending_operation_runs amb n s request snapshot decision excerpt :
  op_others_ok amb →
  runs amb op_db_ok (create_pending_operation n s request snapshot decision excerpt)
    (creation_ending s request snapshot decision).
Proof.
  intros Hamb. unfold create_pending_operation.
  apply runs_lift_bind; [by left|]. intros _ _.
  apply runs_lift_bind; [by left|]. intros _ _.
  apply runs_lift_bind; [by left|]. intros ? Hord%raise_if_ok%bool_decide_eq_false%dec_stable.
  apply runs_lift_bind; [by left|]. intros ? Hty%raise_if_ok%bool_decide_eq_false%dec_stable.
  apply runs_lift_bind; [by left|]. intros ? Hout%raise_if_ok%negb_false_iff%bool_decide_eq_true.
  apply runs_lift_bind; [by left|]. intros ? Hconf%raise_if_ok%negb_false_iff.
  assert (∀ o, owns s o → creation_ending s request snapshot decision
    (Ok (op_result oa_duplicate_ignored o [])) []) as Hans by (right; eauto).
  apply runs_for_attempts.
  - eapply runs_bind_pure with (Qa := λ f, ∀ res, f = Some res →
      ∃ o, res = op_result oa_duplicate_ignored o [] ∧ owns s o).
    { eapply runs_weaken; [by apply existing_for_request_runs|].
      intros [f|e] cs [-> Hf]; split; try done; [|by left]. intros res ->. by apply Hf. }
    intros [res|] Hf. { destruct (Hf res eq_refl) as (o & -> & Ho). apply runs_ret. auto. }
    unfold build_pending_operation. destruct (customer_id s) as [cust|] eqn:Hcust;
      [|intros w r w' Hw [= <- <-]; split; [done|]; exists []; rewrite app_nil_r; split; [done|by left]].
    eapply runs_bind_pure with (Qa := λ p, op_creation_of p.1 [p.2] ∧
      operation_opened s request snapshot decision p.1 [p.2]).
    { eapply runs_bind_pure with (Qa := λ _, True); [by apply runs_now|]. intros at_ _.
      eapply runs_bind_pure with (Qa := λ _, True); [by apply runs_new_id|]. intros i _.
      apply runs_lift_bind; [by split; [|left]|]. intros who _.
      apply runs_lift_bind; [by split; [|left]|]. intros o Ho.
      eapply runs_bind_pure with (Qa := λ _, True); [by apply runs_new_id|]. intros u _.
      apply runs_lift_bind; [by split; [|left]|]. intros e He. apply runs_ret. split; [done|].
      by eapply pending_operation_opened. }
    intros [o e] [Hcr Hop]. cbn in Hcr, Hop.
    eapply runs_try_except with (Q1 := λ r cs, match r with
      | Ok (Some a) => creation_ending s request snapshot decision (Ok a) cs
      | Ok None => cs = []
      | Err x => cs = [] ∨ x = OperationPersistenceError ∧
                 creation_ending s request snapshot decision (Err x) cs end).
    + eapply runs_bind; [by apply (create_operation_runs amb s o [e])|..].
      * intros [] cs (d & d' & -> & Hc). apply runs_ret. left. by exists o, [e], d, d'.
      * intros x cs [->|(-> & d & d' & -> & Hc)]; [by left|]. right. split; [done|]. right.
        split; [done|]. by exists o, [e], d, d'.
    + by intros [y|] cs.
    + intros x cs Hx. destruct (creation_conflict x) as [k|] eqn:Hk.
      * assert (cs = []) as -> by (destruct Hx as [->|[-> _]]; [done|discriminate Hk]).
        destruct x; try discriminate Hk; injection Hk as <-; by apply runs_ret.
      * destruct Hx as [->|[_ Hx]]; [by left|done].
  - eapply runs_bind_pure with (Qa := λ f, ∀ res, f = Some res →
      ∃ o, res = op_result oa_duplicate_ignored o [] ∧ owns s o).
    { eapply runs_weaken; [by apply existing_for_request_runs|].
      intros [f|e] cs [-> Hf]; split; try done; [|by left]. intros res ->. by apply Hf. }
    intros [res|] Hf; [|apply runs_raise; by left].
    destruct (Hf res eq_refl) as (o & -> & Ho). apply runs_ret. auto.
Qed.
