(* ===== verification/OperationGuarantees.v ===== *)
(** What callers of the operation service rely on, stated for each entry point, and the
    closure of the interference assumption. *)
From S2P Require Import Prelude Effects Auth OperationModels OperationPolicy CaseModels Envelope Database Transactions CaseRepository CaseSafety OperationRepository OperationService OperationSafety OperationTheorems.

(** * A worked example *)

Lemma op_others_ok_idle : op_others_ok idle_ambient.
Proof. intros n d Hd. split; [done|]. unfold operations_evolve. reflexivity. Qed.

Lemma op_db_ok_empty : op_db_ok empty_db.
Proof. split; [apply schema_ok_empty|..]; intros *; cbn; set_solver. Qed.

(** A return of a delivered order, decided automatic by the policy. *)
Definition demo_return_decision : OperationDecision :=
  mkOperationDecision out_eligible op_return true ["return_eligible"]
    "This order is eligible for return." None None.

Example demo_return_decided :
  evaluate_operation demo_request demo_snapshot (Aware (days 10)) demo_thresholds None
    = Ok demo_return_decision.
Proof. vm_compute. reflexivity. Qed.

Definition demo_create : M database OperationServiceResult :=
  create_pending_operation 3 (demo_scope customer) demo_request demo_snapshot
    demo_return_decision "please take it back".
Definition demo_op_db : database := after demo_create empty_db.
Definition demo_op_id : uuid := 103%N.

Lemma op_db_ok_demo : op_db_ok demo_op_db.
Proof.
  apply (runs_after _ _ _ empty_db (create_pending_operation_runs _ 3 (demo_scope customer)
    demo_request demo_snapshot demo_return_decision "please take it back" op_others_ok_idle)),
    op_db_ok_empty.
Qed.

Definition op_action_of (r : res OperationServiceResult) : option OperationServiceAction :=
  match r with Ok r => Some (or_action r) | Err _ => None end.
Definition op_status_in (i : uuid) (d : database) : option OperationRecordStatus :=
  oo_status <$> order_operations d !! i.

Definition demo_provider : OrderProvider :=
  λ _ p, Ok (mkExistingOperation "R-1" xo_return xs_submitted (Some "ref-1")).
Lemma demo_provider_identifies : provider_identifies demo_provider.
Proof. intros past p x [= <-]. done. Qed.

(** * Entry points *)

(** Creating an operation commits at most once, and only from an eligible or
    manual-review decision that requires confirmation, for the snapshot's order and
    version: the new row waits for confirmation and is marked for manual review exactly when
    the policy said so.  A repeated message, or an order with an active operation, is
    answered with the stored operation and nothing is written; an error leaves nothing
    behind unless an acknowledgement was lost. *)
Theorem create_pending_operation_outcome (amb : Ambient database) (n : nat) (s : AccessScope)
    (request : OrderOperationRequest) (snapshot : OrderSnapshot) (decision : OperationDecision)
    (excerpt : string) :
  op_others_ok amb →
  runs amb op_db_ok (create_pending_operation n s request snapshot decision excerpt)
    (creation_ending s request snapshot decision).
Proof. apply create_pending_operation_runs. Qed.

Lemma create_pending_operation_outcome_witness :
  op_action_of (outcome demo_create empty_db) = Some oa_created ∧
  op_action_of (outcome demo_create demo_op_db) = Some oa_duplicate_ignored ∧
  op_status_in demo_op_id demo_op_db = Some os_pending_confirmation ∧
  creation_ending (demo_scope customer) demo_request demo_snapshot demo_return_decision
    (outcome demo_create empty_db) (commits demo_create empty_db).
Proof.
  do 3 (split; [vm_compute; reflexivity|]).
  exact (runs_outcome _ _ _ empty_db (create_pending_operation_outcome idle_ambient 3
    (demo_scope customer) demo_request demo_snapshot demo_return_decision "please take it back"
    op_others_ok_idle) op_db_ok_empty).
Defined.

(** C11: queueing a confirmed operation commits at most once, and then the operation of the
    calling customer, automatic and waiting for confirmation when read and unchanged since,
    becomes queued, its confirmation and status change are recorded, and one pending
    command for that operation and order version, under the operation's own idempotency
    key, enters the outbox in the same transaction.  An operation marked for manual review
    is never queued. *)
Theorem queue_confirmed_operation_atomic (amb : Ambient database) (s : AccessScope) (i : uuid)
    (request connection_id : string) :
  op_others_ok amb →
  runs amb op_db_ok (queue_confirmed_operation s i request connection_id)
    (queued_ending s i (operation_key i "confirmed" (strip request))).
Proof. apply queue_confirmed_operation_runs. Qed.

Definition demo_queue : M database OperationServiceResult :=
  queue_confirmed_operation (demo_scope customer) demo_op_id "r1" "shop-1".

Lemma queue_confirmed_operation_atomic_witness :
  op_action_of (outcome demo_queue demo_op_db) = Some oa_queued ∧
  op_status_in demo_op_id (after demo_queue demo_op_db) = Some os_queued ∧
  size (outbox_messages (after demo_queue demo_op_db)) = 1%nat ∧
  queued_ending (demo_scope customer) demo_op_id (operation_key demo_op_id "confirmed" (strip "r1"))
    (outcome demo_queue demo_op_db) (commits demo_queue demo_op_db).
Proof.
  do 3 (split; [vm_compute; reflexivity|]).
  exact (runs_outcome _ _ _ demo_op_db (queue_confirmed_operation_atomic idle_ambient
    (demo_scope customer) demo_op_id "r1" "shop-1" op_others_ok_idle) op_db_ok_demo).
Defined.

(** Submitting a confirmed operation sends the provider only commands for the caller's
    own operation, read as automatic and waiting for confirmation, each with the stored
    request and order version and always under the same provider key, so that a provider
    that deduplicates by key acts at most once; it then commits at most once, moving the
    operation to submitted with the provider's reference and recording the confirmation. *)
Theorem submit_confirmed_operation_outcome (amb : Ambient database) (n : nat) (s : AccessScope)
    (i : uuid) (request : string) (provider : OrderProvider) :
  op_others_ok amb → provider_identifies provider →
  runs amb op_db_ok (submit_confirmed_operation n s i request provider)
    (submitted_ending s i (submitted_step s i (operation_key i "submitted" (strip request)))).
Proof. apply submit_confirmed_operation_runs. Qed.

Definition demo_submit : M database OperationServiceResult :=
  submit_confirmed_operation 3 (demo_scope customer) demo_op_id "r1" demo_provider.

Lemma submit_confirmed_operation_outcome_witness :
  op_action_of (outcome demo_submit demo_op_db) = Some oa_submitted ∧
  op_status_in demo_op_id (after demo_submit demo_op_db) = Some os_submitted ∧
  ps_idempotency_key <$> provider_submissions (after demo_submit demo_op_db)
    = [provider_key demo_op_id] ∧
  submitted_ending (demo_scope customer) demo_op_id
    (submitted_step (demo_scope customer) demo_op_id
       (operation_key demo_op_id "submitted" (strip "r1")))
    (outcome demo_submit demo_op_db) (commits demo_submit demo_op_db).
Proof.
  do 3 (split; [vm_compute; reflexivity|]).
  exact (runs_outcome _ _ _ demo_op_db (submit_confirmed_operation_outcome idle_ambient 3
    (demo_scope customer) demo_op_id "r1" demo_provider op_others_ok_idle
    demo_provider_identifies) op_db_ok_demo).
Defined.

(** A confirmation commits at most once, and only moves an operation marked for manual
    review from waiting for confirmation to manual review, recording the confirmation and
    the status change by the calling customer; a cancellation commits at most once, and
    only moves an operation waiting for confirmation to cancelled, recording no
    confirmation. *)
Theorem customer_decisions_audited (amb : Ambient database) (n : nat) (s : AccessScope) (i : uuid)
    (request : string) :
  op_others_ok amb →
  runs amb op_db_ok (confirm_operation n s i request)
    (op_audited s (confirmed_for_review s i (operation_key i "confirmed" (strip request)))
       oa_confirmed)
  ∧ runs amb op_db_ok (cancel_pending_operation n s i request)
    (op_audited s (λ old new es, oo_operation_id old = i ∧
         decided s false (operation_key i "cancelled" (strip request))
           (λ _, os_cancelled_by_customer) old new es) oa_cancelled).
Proof.
  intros Hamb. split; [by apply confirm_operation_runs|by apply cancel_pending_operation_runs].
Qed.

Lemma customer_decisions_audited_witness :
  outcome (confirm_operation 3 (demo_scope customer) demo_op_id "r1") demo_op_db
    = Err (ValueError "automatic operations must use submit_confirmed_operation") ∧
  op_action_of (outcome (cancel_pending_operation 3 (demo_scope customer) demo_op_id "r1") demo_op_db)
    = Some oa_cancelled ∧
  op_audited (demo_scope customer) (λ old new es, oo_operation_id old = demo_op_id ∧
      decided (demo_scope customer) false (operation_key demo_op_id "cancelled" (strip "r1"))
        (λ _, os_cancelled_by_customer) old new es) oa_cancelled
    (outcome (cancel_pending_operation 3 (demo_scope customer) demo_op_id "r1") demo_op_db)
    (commits (cancel_pending_operation 3 (demo_scope customer) demo_op_id "r1") demo_op_db).
Proof.
  do 2 (split; [vm_compute; reflexivity|]).
  exact (runs_outcome _ _ _ demo_op_db (proj2 (customer_decisions_audited idle_ambient 3
    (demo_scope customer) demo_op_id "r1" op_others_ok_idle)) op_db_ok_demo).
Defined.

(** A status report commits at most once, only along an allowed transition from the
    stored status, changing the status, provider reference, version and update time alone,
    with one audit event naming the previous and the new status; a review case is linked at
    most once, only to an operation under manual review that has none. *)
Theorem status_reports_audited (amb : Ambient database) (n : nat) (s : AccessScope) (i case_id : uuid)
    (target : OperationRecordStatus) (request actor : string) (reference : option string) :
  op_others_ok amb →
  runs amb op_db_ok (update_operation_status n s i target request actor reference)
    (op_audited s (status_reported i target (strip actor) (operation_key i "status" (strip request)))
       oa_status_changed)
  ∧ runs amb op_db_ok (attach_support_case n s i case_id request)
    (op_audited s (case_attached i case_id (operation_key i "support-case" (strip request)))
       oa_support_case_attached).
Proof.
  intros Hamb. split; [by apply update_operation_status_runs|by apply attach_support_case_runs].
Qed.

Definition demo_report : M database OperationServiceResult :=
  update_operation_status 3 (demo_scope customer) demo_op_id os_processing "r2" "provider" None.

Lemma status_reports_audited_witness :
  outcome demo_report demo_op_db = Err InvalidOperationStatusTransition ∧
  op_action_of (outcome demo_report (after demo_submit demo_op_db)) = Some oa_status_changed ∧
  op_audited (demo_scope customer) (status_reported demo_op_id os_processing (strip "provider")
      (operation_key demo_op_id "status" (strip "r2"))) oa_status_changed
    (outcome demo_report demo_op_db) (commits demo_report demo_op_db).
Proof.
  do 2 (split; [vm_compute; reflexivity|]).
  exact (runs_outcome _ _ _ demo_op_db (proj1 (status_reports_audited idle_ambient 3
    (demo_scope customer) demo_op_id 0%N os_processing "r2" "provider" None op_others_ok_idle))
    op_db_ok_demo).
Defined.

(** * Workers that run the operation service *)

(** The operations of [OperationService] that write. *)
Inductive operation_call :=
  | CallCreate (request : OrderOperationRequest) (snapshot : OrderSnapshot)
      (decision : OperationDecision) (excerpt : string)
  | CallConfirm (i : uuid) (request : string)
  | CallCancel (i : uuid) (request : string)
  | CallSubmit (i : uuid) (request : string)
  | CallQueue (i : uuid) (request connection_id : string)
  | CallReport (i : uuid) (target : OperationRecordStatus) (request actor : string)
      (reference : option string)
  | CallAttach (i case_id : uuid) (request : string).

Definition run_operation_call (n : nat) (provider : OrderProvider) (s : AccessScope)
    (call : operation_call) : M database OperationServiceResult :=
  match call with
  | CallCreate request snapshot decision excerpt =>
      create_pending_operation n s request snapshot decision excerpt
  | CallConfirm i request => confirm_operation n s i request
  | CallCancel i request => cancel_pending_operation n s i request
  | CallSubmit i request => submit_confirmed_operation n s i request provider
  | CallQueue i request conn => queue_confirmed_operation s i request conn
  | CallReport i target request actor reference =>
      update_operation_status n s i target request actor reference
  | CallAttach i case_id request => attach_support_case n s i case_id request
  end.

(** What a commit of the customer in scope [s] leaves alone: the operations of everybody
    else, the status of a finished operation, recorded events, and the support cases. *)
Definition op_confined (s : AccessScope) (d d' : database) : Prop :=
  (∀ i o, order_operations d !! i = Some o →
     (¬ owns s o → order_operations d' !! i = Some o) ∧
     (terminal (oo_status o) = true →
        ∃ o', order_operations d' !! i = Some o' ∧ oo_status o' = oo_status o))
  ∧ (∃ es, order_operation_events d' = order_operation_events d ++ es)
  ∧ support_cases d' = support_cases d ∧ support_case_events d' = support_case_events d.

Definition op_kept (s : AccessScope) (d d' : database) : Prop :=
  op_db_ok d' ∧ operations_evolve d d' ∧ op_confined s d d'.

Lemma evolve_terminal d d' i o :
  operations_evolve d d' → order_operations d !! i = Some o → terminal (oo_status o) = true →
  ∃ o', order_operations d' !! i = Some o' ∧ oo_status o' = oo_status o.
Proof.
  intros Hev Ho Ht. destruct (Hev i o Ho) as (o' & Ho' & Hs & _). exists o'. split; [done|].
  unfold op_same in Hs. destruct_and!. by apply reaches_terminal.
Qed.

Lemma op_committed_kept s old o es d d' : op_committed s old o es d d' → op_kept s d d'.
Proof.
  intros Hc. pose proof (op_committed_evolves _ _ _ _ _ _ Hc) as Hev.
  destruct Hc as [Hb Hr He _ [Hten Hcus] _ Hs _ [Hca Hce] _ _ Hok].
  split_and!; [done|done|]. split_and!; [|by eexists|done|done].
  intros i x Hx. split; [|by eapply evolve_terminal].
  intros Hno. rewrite Hr, lookup_insert. case_decide as Hi; [|done]. subst i.
  rewrite Hx in Hb. subst old. specialize (Hs x eq_refl). destruct Hno.
  unfold op_same in Hs. destruct_and!. split; congruence.
Qed.

Lemma provider_call_kept s i d d' : provider_call s i (d, d') → op_kept s d d'.
Proof.
  intros (p & r & o & E & _ & _ & _ & _ & _ & _ & _ & _ & Hok). cbn in *. subst d'.
  assert (operations_evolve d (add_provider_submission p d)) as Hev
    by (intros j x Hx; exists x; split; [done|reflexivity]).
  split_and!; [done|done|]. split_and!; try done.
  - intros j x Hx. split; [done|]. by eapply evolve_terminal.
  - exists []. by rewrite app_nil_r.
Qed.

(** The calls to the provider, then at most one commit. *)
Definition calls_then_commit (s : AccessScope) (cs : list (database * database)) : Prop :=
  ∃ i calls rest, cs = calls ++ rest ∧ Forall (provider_call s i) calls ∧ (length rest ≤ 1)%nat ∧
    Forall (λ c, op_kept s c.1 c.2) cs.

Lemma op_audited_commits s step action r cs :
  op_audited s step action r cs →
  cs = [] ∨ ∃ old o es d d', cs = [(d, d')] ∧ op_committed s old o es d d'.
Proof.
  unfold op_audited, op_stepped. destruct r; intros H; destruct_or!; destruct_exs; eauto 10.
Qed.

(** Every commit of a call is a provider call or a commit on one operation. *)
Definition call_step (s : AccessScope) (c : database * database) : Prop :=
  (∃ i, provider_call s i c) ∨ ∃ old o es, op_committed s old o es c.1 c.2.

Definition calls_then_one (s : AccessScope) (cs : list (database * database)) : Prop :=
  ∃ i calls rest, cs = calls ++ rest ∧ Forall (provider_call s i) calls ∧
    (rest = [] ∨ ∃ old o es d d', rest = [(d, d')] ∧ op_committed s old o es d d').

Lemma one_commit s cs :
  (cs = [] ∨ ∃ old o es d d', cs = [(d, d')] ∧ op_committed s old o es d d') → calls_then_one s cs.
Proof. intros H. by exists 0%N, [], cs. Qed.

Lemma operation_call_commits amb n provider s call :
  op_others_ok amb → provider_identifies provider →
  runs amb op_db_ok (run_operation_call n provider s call) (λ _, calls_then_one s).
Proof.
  intros Hamb Hprov. destruct call; cbn [run_operation_call]; eapply runs_weaken.
  - by apply create_pending_operation_runs.
  - intros r cs Hc. apply one_commit. unfold creation_ending in Hc.
    destruct r; destruct_or!; destruct_exs; eauto 10.
  - by apply confirm_operation_runs.
  - intros r cs Hc. by eapply one_commit, op_audited_commits.
  - by apply cancel_pending_operation_runs.
  - intros r cs Hc. by eapply one_commit, op_audited_commits.
  - by apply submit_confirmed_operation_runs.
  - intros r cs (calls & rest & -> & Hcalls & Hrest). exists i, calls, rest.
    split_and!; [done..|]. by eapply op_audited_commits.
  - by apply queue_confirmed_operation_runs.
  - intros r cs Hc. apply one_commit. unfold queued_ending in Hc.
    destruct r; destruct_or!; destruct_exs; eauto 10.
  - by apply update_operation_status_runs.
  - intros r cs Hc. by eapply one_commit, op_audited_commits.
  - by apply attach_support_case_runs.
  - intros r cs Hc. by eapply one_commit, op_audited_commits.
Qed.

Lemma calls_then_one_kept s cs : calls_then_one s cs → calls_then_commit s cs.
Proof.
  intros (i & calls & rest & -> & Hcalls & Hrest). exists i, calls, rest.
  assert (Forall (λ c : database * database, op_kept s c.1 c.2) calls) as Hkc.
  { eapply Forall_impl; [exact Hcalls|]. intros [d d'] Hpc. by eapply provider_call_kept. }
  destruct Hrest as [->|(old & o & es & d & d' & -> & Hc)]; cbn.
  - rewrite app_nil_r. split_and!; try done; lia.
  - split_and!; try done. apply Forall_app. split; [done|]. apply Forall_singleton.
    by eapply op_committed_kept.
Qed.

Lemma calls_then_one_steps s cs : calls_then_one s cs → Forall (call_step s) cs.
Proof.
  intros (i & calls & rest & -> & Hcalls & Hrest). apply Forall_app. split.
  - eapply Forall_impl; [exact Hcalls|]. intros c Hc. left. by exists i.
  - destruct Hrest as [->|(old & o & es & d & d' & -> & Hc)]; [done|]. apply Forall_singleton.
    right. eauto.
Qed.

(** C10: whatever a customer asks of the operation service and whatever the other workers do
    in the meantime, the call sends the provider only justified commands and commits at most
    once; every write keeps every stored operation and event readable, every outbound
    command and provider submission tied to its operation, follows the lifecycle from the
    stored row at a higher version, never touches another customer's operation or a support
    case, and never changes the status of a finished operation.  This is what the call
    assumes of the other workers. *)
Theorem operation_service_closed (amb : Ambient database) (n : nat) (provider : OrderProvider)
    (s : AccessScope) (call : operation_call) :
  op_others_ok amb → provider_identifies provider →
  runs amb op_db_ok (run_operation_call n provider s call) (λ _, calls_then_commit s).
Proof.
  intros Hamb Hprov. eapply runs_weaken; [by apply operation_call_commits|].
  intros r cs. apply calls_then_one_kept.
Qed.

Lemma operation_service_closed_witness :
  length (commits (run_operation_call 3 demo_provider (demo_scope customer)
    (CallSubmit demo_op_id "r1")) demo_op_db) = 2%nat ∧
  calls_then_commit (demo_scope customer) (commits (run_operation_call 3 demo_provider
    (demo_scope customer) (CallSubmit demo_op_id "r1")) demo_op_db).
Proof.
  split; [vm_compute; reflexivity|].
  exact (runs_outcome _ _ _ demo_op_db (operation_service_closed idle_ambient 3 demo_provider
    (demo_scope customer) (CallSubmit demo_op_id "r1") op_others_ok_idle demo_provider_identifies)
    op_db_ok_demo).
Defined.

(** * Retried requests *)

(** The customer's timeline holds an event under the key. *)
Definition op_recorded (s : AccessScope) (key : string) (d : database) : Prop :=
  ∃ e, e ∈ order_operation_events d ∧ oev_tenant_id e = sc_tenant_id s ∧
       customer_id s = Some (oev_customer_id e) ∧ oev_idempotency_key e = key.

Definition op_events_kept (amb : Ambient database) : Prop :=
  ∀ n d e, e ∈ order_operation_events d → e ∈ order_operation_events (interfere amb n d).

Lemma rely_op_recorded amb s key :
  op_others_ok amb → op_events_kept amb → rely amb (λ d, op_db_ok d ∧ op_recorded s key d).
Proof.
  intros Hamb Hk n d [Hd (e & He & ? & ? & ?)]. split; [by apply Hamb|]. exists e. auto.
Qed.

Lemma once_per_key_recorded amb n s key attempt :
  op_others_ok amb → op_events_kept amb →
  runs amb (λ d, op_db_ok d ∧ op_recorded s key d) (once_per_key n s key attempt)
    (λ r cs, cs = [] ∧
       match r with Ok res => or_action res = oa_status_unchanged ∧ owns s (or_operation res)
                  | Err _ => True end).
Proof.
  intros Hamb Hk. pose proof (rely_op_recorded amb s key Hamb Hk) as Hrely.
  unfold once_per_key, prior_result, find_operation_event_by_idempotency_key.
  eapply runs_bind_pure with (Qa := λ o, ∃ x, o = Some (op_result oa_status_unchanged x []) ∧ owns s x).
  - eapply runs_bind_pure with (Qa := λ o, ∃ e, o = Some e).
    + apply runs_lift_bind; [done|]. intros visible Hv. apply runs_query; [done| |done].
      intros d [Hd (e & He & Hten & Hcus & Hkey)]. split; [done|].
      unfold operation_event_by_key.
      destruct (list_find _ _) as [[j x]|] eqn:E; cbn.
      * apply list_find_Some in E as (Hx & _). apply list_elem_of_lookup_2 in Hx.
        pose proof (odb_events d Hd x Hx) as Hxn. rewrite Hxn. cbn. eauto.
      * apply list_find_None in E. rewrite Forall_forall in E. destruct (E e He).
        split; [done|]. by apply (customer_owned_visibility_ok s visible _ Hv).
    + intros o [e ->]. eapply runs_bind_pure with
        (Qa := λ res, ∃ x, res = op_result oa_status_unchanged x [] ∧ owns s x).
      * eapply runs_weaken; [apply unchanged_result_runs; [done|by intros d []]|].
        intros [res|x] cs [-> Hr]; split; try done. by apply Hr.
      * intros res (x & -> & Hx). apply runs_ret. split; [done|]. eauto.
  - intros o (x & -> & Hx). by apply runs_ret.
Qed.

(** A cancellation, submission, status report or case link takes effect at most once per
    operation and request identifier: from any database in which the customer's timeline
    holds an event under the request's key, the call commits nothing, sends the provider
    nothing, and answers with the stored operation or an error, while other workers keep
    committing. *)
Theorem operation_requests_take_effect_once (amb : Ambient database) (n : nat) (s : AccessScope)
    (i : uuid) (request : string) :
  op_others_ok amb → op_events_kept amb →
  let quiet := λ r cs, cs = [] ∧
    match r with Ok res => or_action res = oa_status_unchanged ∧ owns s (or_operation res)
               | Err _ => True end in
  let after_key label d := op_db_ok d ∧ op_recorded s (operation_key i label (strip request)) d in
  runs amb (after_key "cancelled") (cancel_pending_operation n s i request) quiet
  ∧ (∀ provider, runs amb (after_key "submitted")
       (submit_confirmed_operation n s i request provider) quiet)
  ∧ (∀ target actor reference, runs amb (after_key "status")
       (update_operation_status n s i target request actor reference) quiet)
  ∧ (∀ case_id, runs amb (after_key "support-case") (attach_support_case n s i case_id request) quiet).
Proof.
  intros Hamb Hk. cbv zeta. split_and!; intros.
  - apply runs_lift_bind; [done|]. intros actor _. apply runs_lift_bind; [done|]. intros _ _.
    by apply once_per_key_recorded.
  - apply runs_lift_bind; [done|]. intros actor _. apply runs_lift_bind; [done|]. intros _ _.
    by apply once_per_key_recorded.
  - apply runs_lift_bind; [done|]. intros meta [-> _]%validate_request_metadata_ok.
    apply runs_lift_bind; [done|]. intros _ _. by apply once_per_key_recorded.
  - apply runs_lift_bind; [done|]. intros _ _. by apply once_per_key_recorded.
Qed.

Lemma operation_requests_take_effect_once_witness :
  length (commits demo_submit demo_op_db) = 2%nat ∧
  commits demo_submit (after demo_submit demo_op_db) = [] ∧
  runs idle_ambient (λ d, op_db_ok d ∧
      op_recorded (demo_scope customer) (operation_key demo_op_id "submitted" (strip "r1")) d)
    demo_submit (λ r cs, cs = [] ∧
      match r with Ok res => or_action res = oa_status_unchanged ∧ owns (demo_scope customer) (or_operation res)
                 | Err _ => True end).
Proof.
  do 2 (split; [vm_compute; reflexivity|]).
  exact (proj1 (proj2 (operation_requests_take_effect_once idle_ambient 3 (demo_scope customer)
    demo_op_id "r1" op_others_ok_idle (λ n d e H, H))) demo_provider).
Defined.

(** * The direct submission path and a concurrent cancellation *)

(** Another session of the same customer cancels the operation at tick [k]. *)
Definition cancelling_at (k : nat) : Ambient database :=
  mkAmbient database
    (λ n d, if Nat.eqb n k
            then after (cancel_pending_operation 3 (demo_scope customer) demo_op_id "r7") d else d)
    (clock (DB := database) idle_ambient) (fresh_id (DB := database) idle_ambient) (λ _, NoFault).

(** The direct submission path calls the provider before it writes: when the customer
    cancels between the read and that call, the provider receives the command although the
    operation ends cancelled and the submission reports an error. *)
Theorem cancelled_operation_can_reach_provider :
  let run := demo_submit (cancelling_at 52) (start demo_op_db) in
  run.1 = Err InvalidOperationStatusTransition ∧
  op_status_in demo_op_id (w_db run.2) = Some os_cancelled_by_customer ∧
  ps_idempotency_key <$> provider_submissions (w_db run.2) = [provider_key demo_op_id].
Proof. vm_compute. auto. Qed.
