(* ===== verification/OutboxWrites.v ===== *)
(** Cursor-scoped outbox statements: the outbox part of [integrations/postgres_writes.py],
    and the UPDATE statements the messaging transactions share. *)
From Stdlib Require Import QArith_base.
From S2P Require Import Prelude Effects OperationModels CaseModels Envelope Database Transactions Messaging CaseRepository.

(** [GREATEST(a, b, c)] *)
Definition greatest3 (a b c : instant) : instant := Z.max a (Z.max b c).

(** * UPDATE statements *)

(** [UPDATE integration.outbox_messages SET ... WHERE command_id = %s AND ...]: the row the
    statement leaves, or [None] when no row matches. *)
Definition update_outbox (command_id : uuid) (where_ : OutboxMessage → bool)
    (set : OutboxMessage → OutboxMessage) : Tx (option OutboxMessage) :=
  row <~ select (λ d, outbox_messages d !! command_id);
  match row with
  | Some m =>
      if where_ m then execute (put_outbox_message (set m));~ tx_ret (Some (set m))
      else tx_ret None
  | None => tx_ret None
  end.

(** [UPDATE integration.outbox_delivery_attempts SET ... WHERE attempt_id = %s AND ...] *)
Definition update_attempt (attempt_id : uuid) (where_ : OutboxDeliveryAttempt → bool)
    (set : OutboxDeliveryAttempt → OutboxDeliveryAttempt) : Tx (option OutboxDeliveryAttempt) :=
  row <~ select (λ d, outbox_delivery_attempts d !! attempt_id);
  match row with
  | Some a =>
      if where_ a then execute (put_delivery_attempt (set a));~ tx_ret (Some (set a))
      else tx_ret None
  | None => tx_ret None
  end.

(** [result.rowcount], for a statement on a primary key. *)
Definition rowcount {A} (o : option A) : Z := match o with Some _ => 1 | None => 0 end.

(** The columns delivery rewrites. *)
Definition with_progress (m : OutboxMessage) (status : OutboxDeliveryStatus) (attempts : Z)
    (available_at : instant) (lease_id : option uuid) (lease_owner : option string)
    (lease_expires_at : option instant) (failure_kind : option ProviderFailureKind)
    (error_code error_message : option string) (updated_at : instant)
    (published_at dead_at : option instant) : OutboxMessage :=
  mkOutboxMessage (om_command_id m) (om_schema_version m) (om_idempotency_key m)
    (om_tenant_id m) (om_customer_id m) (om_source_message_id m) (om_connection_id m)
    (om_capability m) (om_command_type m) (om_aggregate_type m) (om_aggregate_id m)
    (om_expected_order_version m) (om_payload m) status (om_delivery_cycle m) attempts
    available_at lease_id lease_owner lease_expires_at failure_kind error_code error_message
    (om_created_at m) updated_at published_at dead_at.

(** [sets.append("column = %s")] only when the argument is given. *)
Definition or_keep {A} (given kept : option A) : option A :=
  match given with Some _ => given | None => kept end.

(** * [postgres_writes.py] *)

Definition validate_error_field (name : string) (value : option string) : res unit :=
  match value with
  | None => Ok tt
  | Some v =>
      raise_if (negb (nonempty (strip v))) (ValueError (name +:+ " must not be blank"));;;
      raise_if (500 <? str_len v) (ValueError (name +:+ " must not exceed 500 characters"))
  end.

(** [_validate_error_fields] *)
Definition validate_error_fields (error_code error_message : option string) : res unit :=
  validate_error_field "error_code" error_code;;;
  validate_error_field "error_message" error_message.

(** [update_outbox_transition]; the callers never pass [attempts_in_cycle]. *)
Definition update_outbox_transition (command_id : uuid) (expected_status : OutboxDeliveryStatus)
    (expected_lease_id : option uuid) (expected_lease_owner : option string)
    (target_status : OutboxDeliveryStatus) (updated_at : instant)
    (available_at published_at dead_at : option instant)
    (last_failure_kind : option ProviderFailureKind)
    (last_error_code last_error_message : option string) : Tx Z :=
  tx_lift (validate_error_fields last_error_code last_error_message);~
  updated <~ update_outbox command_id
    (λ m, bool_decide (om_status m = expected_status)
          && match expected_lease_id with
             | Some l => bool_decide (om_lease_id m = Some l) | None => true end
          && match expected_lease_owner with
             | Some o => bool_decide (om_lease_owner m = Some o) | None => true end)
    (λ m, let not_before t := greatest3 t (om_updated_at m) (om_created_at m) in
          with_progress m target_status (om_attempts_in_cycle m)
            (default (om_available_at m) available_at) None None None
            (or_keep last_failure_kind (om_last_failure_kind m))
            (or_keep last_error_code (om_last_error_code m))
            (or_keep last_error_message (om_last_error_message m))
            (not_before updated_at)
            (or_keep (not_before <$> published_at) (om_published_at m))
            (or_keep (not_before <$> dead_at) (om_dead_at m)));
  tx_ret (rowcount updated).

(** The finished attempt. *)
Definition finished_attempt (a : OutboxDeliveryAttempt) (finished_at : instant)
    (outcome : DeliveryAttemptOutcome) (failure_kind : option ProviderFailureKind)
    (http_status : option Z) (provider_operation_id provider_reference : option string)
    (safe_error_code safe_error_message : option string) (retry_after_seconds : option Q)
    (next_available_at : option instant) : OutboxDeliveryAttempt :=
  mkOutboxDeliveryAttempt (da_attempt_id a) (da_command_id a) (da_delivery_cycle a)
    (da_attempt_number a) (da_lease_id a) (da_worker_id a) (da_started_at a)
    (Some (Z.max finished_at (da_started_at a))) (Some outcome) failure_kind http_status
    provider_operation_id provider_reference safe_error_code safe_error_message
    retry_after_seconds next_available_at.

(** The fencing identity of an open attempt. *)
Definition attempt_fence (command_id lease_id : uuid) (worker_id : string)
    (a : OutboxDeliveryAttempt) : bool :=
  bool_decide (da_command_id a = command_id) && bool_decide (da_lease_id a = lease_id)
  && bool_decide (da_worker_id a = worker_id) && bool_decide (da_finished_at a = None).

Definition finish_delivery_attempt (attempt_id command_id lease_id : uuid) (worker_id : string)
    (finished_at : instant) (outcome : DeliveryAttemptOutcome)
    (failure_kind : option ProviderFailureKind) (http_status : option Z)
    (provider_operation_id provider_reference : option string)
    (safe_error_code safe_error_message : option string) (retry_after_seconds : option Q)
    (next_available_at : option instant) : Tx Z :=
  tx_lift (validate_error_fields safe_error_code safe_error_message);~
  tx_raise_if match retry_after_seconds with Some q => negb (Qle_bool 0 q) | None => false end
    (ValueError "retry_after_seconds must not be negative");~
  updated <~ update_attempt attempt_id (attempt_fence command_id lease_id worker_id)
    (λ a, finished_attempt a finished_at outcome failure_kind http_status
            provider_operation_id provider_reference safe_error_code safe_error_message
            retry_after_seconds next_available_at);
  tx_ret (rowcount updated).

(** * What the statements do *)

Lemma update_outbox_commits command_id where_ set d r d' :
  commits_to (update_outbox command_id where_ set) d r d' →
  (r = None ∧ d' = d) ∨
  ∃ m, r = Some (set m) ∧ outbox_messages d !! command_id = Some m ∧ where_ m = true ∧
       put_outbox_message (set m) d = PgOk d'.
Proof.
  unfold update_outbox. intros H. inv_tx.
  destruct (outbox_messages d !! command_id) as [m|] eqn:E; [|inv_tx; by left].
  destruct (where_ m) eqn:Ew; inv_tx; [|by left]. right. by exists m.
Qed.

Lemma update_outbox_matches command_id where_ set d r d' m :
  outbox_messages d !! command_id = Some m → where_ m = true →
  commits_to (update_outbox command_id where_ set) d r d' → put_outbox_message (set m) d = PgOk d'.
Proof.
  intros Hm Hw H. unfold update_outbox in H.
  apply commits_to_bind in H as (o & ? & [-> ->]%commits_to_select & H). rewrite Hm, Hw in H. by inv_tx.
Qed.

Lemma update_attempt_commits attempt_id where_ set d r d' :
  commits_to (update_attempt attempt_id where_ set) d r d' →
  (r = None ∧ d' = d) ∨
  ∃ a, r = Some (set a) ∧ outbox_delivery_attempts d !! attempt_id = Some a ∧ where_ a = true ∧
       put_delivery_attempt (set a) d = PgOk d'.
Proof.
  unfold update_attempt. intros H. inv_tx.
  destruct (outbox_delivery_attempts d !! attempt_id) as [a|] eqn:E; [|inv_tx; by left].
  destruct (where_ a) eqn:Ew; inv_tx; [|by left]. right. by exists a.
Qed.

Lemma put_outbox_message_effect m d d' :
  put_outbox_message m d = PgOk d' →
  d' = set_outbox_messages (<[om_command_id m := m]> (outbox_messages d)) d
  ∧ outbox_messages_check m = true.
Proof. unfold put_outbox_message. intros H. by inv_pg. Qed.

Lemma put_delivery_attempt_effect a d d' :
  put_delivery_attempt a d = PgOk d' →
  d' = set_outbox_delivery_attempts (<[da_attempt_id a := a]> (outbox_delivery_attempts d)) d.
Proof. unfold put_delivery_attempt. intros H. by inv_pg. Qed.

Lemma finish_delivery_attempt_commits i k l w at_ outc fk hs poi pr ec em ra na d n d' :
  commits_to (finish_delivery_attempt i k l w at_ outc fk hs poi pr ec em ra na) d n d' →
  (n = 0 ∧ d' = d) ∨
  n = 1 ∧ ∃ a, outbox_delivery_attempts d !! i = Some a ∧ attempt_fence k l w a = true ∧
    put_delivery_attempt (finished_attempt a at_ outc fk hs poi pr ec em ra na) d = PgOk d'.
Proof.
  unfold finish_delivery_attempt. intros H. inv_tx.
  match goal with H : commits_to (update_attempt _ _ _) _ _ _ |- _ =>
    apply update_attempt_commits in H as [[-> ->]|(a & -> & Ha & Hw & Hput)] end; [by left|].
  right. split; [done|]. by exists a.
Qed.

Lemma update_outbox_transition_commits k st l w target t av pub dead fk ec em d n d' :
  commits_to (update_outbox_transition k st (Some l) (Some w) target t av pub dead fk ec em) d n d' →
  (n = 0 ∧ d' = d) ∨
  n = 1 ∧ ∃ m, outbox_messages d !! k = Some m ∧
    (om_status m = st ∧ om_lease_id m = Some l ∧ om_lease_owner m = Some w) ∧
    put_outbox_message
      (with_progress m target (om_attempts_in_cycle m) (default (om_available_at m) av) None None None
         (or_keep fk (om_last_failure_kind m)) (or_keep ec (om_last_error_code m))
         (or_keep em (om_last_error_message m)) (greatest3 t (om_updated_at m) (om_created_at m))
         (or_keep ((λ x, greatest3 x (om_updated_at m) (om_created_at m)) <$> pub) (om_published_at m))
         (or_keep ((λ x, greatest3 x (om_updated_at m) (om_created_at m)) <$> dead) (om_dead_at m))) d
      = PgOk d'.
Proof.
  unfold update_outbox_transition. intros H. inv_tx.
  match goal with H : commits_to (update_outbox _ _ _) _ _ _ |- _ =>
    apply update_outbox_commits in H as [[-> ->]|(m & -> & Hm & Hw & Hput)] end; [by left|].
  right. split; [done|]. exists m. bools. by split_and!.
Qed.
