(* ===== verification/Finalization.v ===== *)
(** Atomic finalization of a dispatched provider command: [integrations/finalization.py].
    One transaction moves the domain aggregate, finishes the delivery attempt and closes
    the outbox message. *)
From stdpp Require Import pretty.
From S2P Require Import Prelude Effects OperationModels CaseModels CasePolicy Envelope Database Transactions Messaging CaseRepository OperationRepository OperationService OutboxWrites.

(** * Keys *)

(** [f"provider-command:{command_id}:cycle:{delivery_cycle}:{label}"] *)
Definition command_cycle_key (claimed : ClaimedOutboxMessage) (label : string) : string :=
  "provider-command:" +:+ uuid_str (om_command_id (cl_message claimed)) +:+ ":cycle:"
  +:+ pretty (om_delivery_cycle (cl_message claimed)) +:+ ":" +:+ label.

(** * The fence *)

(** [_lock_claimed_command]: lock the message and its attempt, refuse a claim that is not the
    current one, and return a time not before any of theirs. *)
Definition lock_claimed_command (claimed : ClaimedOutboxMessage) : Tx instant :=
  let c := cl_message claimed in
  let a := cl_attempt claimed in
  message <~ select (λ d, outbox_messages d !! om_command_id c);
  database_now <~ clock_timestamp;
  match message with
  | None => tx_raise LeaseConflictError
  | Some m =>
      tx_raise_if
        (bool_decide (om_status m ≠ ob_processing)
         || bool_decide (om_delivery_cycle m ≠ om_delivery_cycle c)
         || bool_decide (om_attempts_in_cycle m ≠ om_attempts_in_cycle c)
         || bool_decide (om_lease_id m ≠ om_lease_id c)
         || bool_decide (om_lease_owner m ≠ om_lease_owner c)
         || match om_lease_expires_at m with Some t => t <=? database_now | None => true end)
        LeaseConflictError;~
      row <~ select (λ d, outbox_delivery_attempts d !! da_attempt_id a);
      match row with
      | None => tx_raise LeaseConflictError
      | Some r =>
          tx_raise_if
            (bool_decide (da_command_id r ≠ om_command_id c)
             || bool_decide (is_Some (da_finished_at r))
             || bool_decide (da_delivery_cycle r ≠ om_delivery_cycle c)
             || bool_decide (da_delivery_cycle r ≠ da_delivery_cycle a)
             || bool_decide (da_attempt_number r ≠ om_attempts_in_cycle c)
             || bool_decide (da_attempt_number r ≠ da_attempt_number a)
             || bool_decide (Some (da_lease_id r) ≠ om_lease_id c)
             || bool_decide (Some (da_worker_id r) ≠ om_lease_owner c))
            LeaseConflictError;~
          tx_ret (Z.max (Z.max database_now (om_created_at m))
                    (Z.max (om_updated_at m) (da_started_at r)))
      end
  end.

(** * The review case of an undeliverable operation *)

(** The unresolved review case of the thread: [FOR UPDATE], [fetchone]. *)
Definition active_review_case (tenant_id thread_id : string) (d : database) : option SupportCase :=
  head (filter (λ c, c_tenant_id c = tenant_id ∧ c_thread_id c = thread_id ∧
                     c_case_type c = ct_order_operation_review ∧ c_status c ≠ cs_resolved)
          (rows (support_cases d))).

(** [UPDATE support_cases SET priority = ..., reason_codes = %s, updated_at = ...,
    version = %s WHERE case_id = %s AND version = %s] *)
Definition case_with_reasons (c : SupportCase) (priority : CasePriority)
    (reasons : list HandoffReason) (updated_at : instant) (version : Z) : SupportCase :=
  mkSupportCase (c_case_id c) (c_thread_id c) (c_source_message_id c) (c_order_id c)
    (c_case_type c) priority (c_status c) (c_risk_level c) (c_risk_categories c) reasons
    (c_display_reason c) (c_excerpt c) (c_on_hold_reason c) (c_created_at c) updated_at version
    (c_customer_id c) (c_tenant_id c) (c_created_by c) (c_assigned_agent_id c).

(** [GREATEST(%s, updated_at, created_at)] *)
Definition case_touched_at (now : instant) (c : SupportCase) : instant :=
  greatest3 now (c_updated_at c) (c_created_at c).

(** The same on the stored row; [None] when the row count is not one. *)
Definition update_case_reasons (case_id : uuid) (version : Z) (set : SupportCase → SupportCase) :
    Tx (option SupportCase) :=
  row <~ select (λ d, support_cases d !! case_id);
  match row with
  | Some c =>
      if bool_decide (c_version c = version)
      then execute (put_support_case (set c));~ tx_ret (Some (set c))
      else tx_ret None
  | None => tx_ret None
  end.

(** [INSERT ... ON CONFLICT (idempotency_key) DO NOTHING] *)
Definition insert_case_event_once (e : SupportCaseEvent) (d : database) : pg database :=
  pg_bind (pg_check (support_case_events_check e) OtherDatabaseError) (λ _,
  if bool_decide (ev_idempotency_key e ∈ ev_idempotency_key <$> support_case_events d)
  then PgOk d else insert_case_event e d).

(** The columns of a review event: the failure of the operation's command. *)
Definition review_event (event_id : uuid) (key : string) (case_id : uuid)
    (event_type : CaseEventType) (operation : OrderOperation)
    (previous_priority : option CasePriority) (status : CaseStatus) (actor : option string)
    (customer_id tenant_id : string) (now : instant) : SupportCaseEvent :=
  mkSupportCaseEvent event_id key case_id event_type (Some (oo_source_message_id operation))
    (Some (oo_order_id operation)) None [] [hr_provider_delivery_failed]
    (oo_request_excerpt operation) previous_priority (Some p1) None (Some status) None None None
    None None None None actor customer_id tenant_id now.

Definition technical_review_case (case_id : uuid) (operation : OrderOperation) (now : instant) :
    SupportCase :=
  mkSupportCase case_id (oo_thread_id operation) (oo_source_message_id operation)
    (Some (oo_order_id operation)) ct_order_operation_review p1 cs_open None []
    [hr_provider_delivery_failed] "Provider delivery failed and requires human review."
    (oo_request_excerpt operation) None now now 1 (oo_customer_id operation)
    (oo_tenant_id operation) "system" None.

(** Reuse or open the review case, as two transactions spell it out: they differ in the key of
    the case event, how it is inserted, the new [updated_at] and the exception for a lost
    race.  The flag says whether the case was there. *)
Definition escalate_review_case (key : string) (stamp : SupportCase → instant)
    (insert : SupportCaseEvent → database → pg database) (lost : exn)
    (operation : OrderOperation) (now : instant) : Tx (SupportCase * bool) :=
  row <~ select (active_review_case (oo_tenant_id operation) (oo_thread_id operation));
  match row with
  | Some row =>
      existing <~ tx_lift (SupportCase_validate row);
      let reason_codes := dict_fromkeys (c_reason_codes existing ++ [hr_provider_delivery_failed]) in
      let set c := case_with_reasons c p1 reason_codes (stamp c) (c_version existing + 1) in
      updated <~ update_case_reasons (c_case_id existing) (c_version existing) set;
      tx_raise_if (negb (rowcount updated =? 1)) lost;~
      event_id <~ uuid4;
      event <~ tx_lift (SupportCaseEvent_validate
        (review_event event_id key (c_case_id existing) ev_trigger_appended operation
           (Some (c_priority existing)) (c_status existing) (Some "system")
           (c_customer_id existing) (c_tenant_id existing) now));
      execute (insert event);~
      tx_ret (set existing, true)
  | None =>
      case_id <~ uuid4;
      case <~ tx_lift (SupportCase_validate (technical_review_case case_id operation now));
      event_id <~ uuid4;
      event <~ tx_lift (SupportCaseEvent_validate
        (review_event event_id key (c_case_id case) ev_case_created operation None (c_status case)
           None (c_customer_id case) (c_tenant_id case) now));
      execute (insert_support_case case);~
      execute (insert_case_event event);~
      tx_ret (case, false)
  end.

(** [_ensure_technical_review_case] *)
Definition ensure_technical_review_case (claimed : ClaimedOutboxMessage)
    (operation : OrderOperation) (now : instant) : Tx uuid :=
  ensured <~ escalate_review_case (command_cycle_key claimed "technical-review") (case_touched_at now)
    insert_case_event_once LeaseConflictError operation now;
  tx_ret (c_case_id ensured.1).

(** * Order operations *)

(** The columns a change of the review writes. *)
Definition rewritten_row (o : OrderOperation) (requires : bool)
    (review_case_type : option RecommendedCaseType) (review_priority : option CasePriority)
    (support_case_id : option uuid) (reference : option string) (status : OperationRecordStatus)
    (updated_at : instant) (version : Z) : OrderOperation :=
  mkOrderOperation (oo_operation_id o) (oo_idempotency_key o) (oo_thread_id o)
    (oo_source_message_id o) (oo_order_id o) (oo_operation_type o) (oo_request_reason_code o)
    (oo_policy_reason_codes o) (oo_display_reason o) (oo_replacement_variant_id o)
    (oo_request_excerpt o) (oo_order_version o) (oo_amount o) (oo_currency o) requires
    review_case_type review_priority support_case_id reference status (oo_created_at o)
    updated_at version (oo_customer_id o) (oo_tenant_id o) (oo_created_by o).

(** [updated_at = GREATEST(%s, updated_at, created_at)] *)
Definition finalized_row (o : OrderOperation) (requires : bool)
    (review_case_type : option RecommendedCaseType) (review_priority : option CasePriority)
    (support_case_id : option uuid) (reference : option string) (status : OperationRecordStatus)
    (now : instant) (version : Z) : OrderOperation :=
  rewritten_row o requires review_case_type review_priority support_case_id reference status
    (greatest3 now (oo_updated_at o) (oo_created_at o)) version.

(** [UPDATE order_operations SET ... WHERE operation_id = %s AND version = %s] *)
Definition update_operation_where (operation_id : uuid) (version : Z)
    (set : OrderOperation → OrderOperation) : Tx (option OrderOperation) :=
  row <~ select (λ d, order_operations d !! operation_id);
  match row with
  | Some o =>
      if bool_decide (oo_version o = version)
      then execute (put_order_operation (set o));~ tx_ret (Some (set o))
      else tx_ret None
  | None => tx_ret None
  end.

(** Where a finalization takes the operation. *)
Inductive finalization_target := ft_published | ft_dead.

#[export] Instance finalization_target_eq_dec : EqDecision finalization_target.
Proof. solve_decision. Defined.

Definition operation_target (target : finalization_target)
    (failure_kind : option ProviderFailureKind) : OperationRecordStatus :=
  match target with
  | ft_published => os_submitted
  | ft_dead => if bool_decide (failure_kind = Some fk_provider_rejection)
               then os_rejected else os_manual_review
  end.

(** [_finalize_operation] *)
Definition finalize_operation (claimed : ClaimedOutboxMessage) (target : finalization_target)
    (provider_result : option ProviderCommandResult) (failure_kind : option ProviderFailureKind)
    (now : instant) : Tx unit :=
  let c := cl_message claimed in
  row <~ select (λ d, order_operations d !! om_aggregate_id c);
  match row with
  | None => tx_raise (ValueError "provider command operation was not found")
  | Some row =>
      operation <~ tx_lift (OrderOperation_validate row);
      tx_raise_if (bool_decide (oo_tenant_id operation ≠ om_tenant_id c)
                   || bool_decide (oo_status operation ≠ os_queued))
        (ValueError "provider command operation association is invalid");~
      let new_status := operation_target target failure_kind in
      let review := bool_decide (new_status = os_manual_review) in
      support_case_id <~
        (if review then
           match oo_support_case_id operation with
           | Some i => tx_ret (Some i)
           | None => i <~ ensure_technical_review_case claimed operation now; tx_ret (Some i)
           end
         else tx_ret (oo_support_case_id operation));
      let reference := match provider_result with
                       | Some r => pr_provider_reference r
                       | None => oo_provider_reference operation
                       end in
      updated <~ update_operation_where (oo_operation_id operation) (oo_version operation)
        (λ o, finalized_row o
           (if review then true else oo_requires_manual_review operation)
           (if review then Some rec_order_operation_review else oo_review_case_type operation)
           (if review then Some p1 else oo_review_priority operation)
           support_case_id reference new_status now (oo_version operation + 1));
      tx_raise_if (negb (rowcount updated =? 1)) LeaseConflictError;~
      event_id <~ uuid4;
      event <~ tx_lift (OrderOperationEvent_validate
        (mkOrderOperationEvent event_id (command_cycle_key claimed "status")
           (oo_operation_id operation) oe_status_changed (Some (oo_status operation))
           (Some new_status) reference None "system" (oo_customer_id operation)
           (oo_tenant_id operation) now));
      execute (insert_operation_event event);~
      match (if review then support_case_id else None) with
      | Some i =>
          attached_id <~ uuid4;
          attached <~ tx_lift (OrderOperationEvent_validate
            (plain_event attached_id (command_cycle_key claimed "case-attached") operation
               oe_support_case_attached (Some i) "system" now));
          execute (insert_operation_event attached)
      | None => tx_ret tt
      end
  end.

(** * Delivery investigations *)

(** [_finalize_case] *)
Definition finalize_case (claimed : ClaimedOutboxMessage) (target : finalization_target)
    (provider_result : option ProviderCommandResult) (now : instant) : Tx unit :=
  let c := cl_message claimed in
  row <~ select (λ d, support_cases d !! om_aggregate_id c);
  match row with
  | None => tx_raise (ValueError "provider command case was not found")
  | Some row =>
      case <~ tx_lift (SupportCase_validate row);
      tx_raise_if (bool_decide (c_tenant_id case ≠ om_tenant_id c)
                   || bool_decide (c_case_type case ≠ ct_delivery_investigation))
        (ValueError "provider command case association is invalid");~
      let status := match target with ft_published => px_accepted | ft_dead => px_rejected end in
      (if bool_decide (target = ft_dead)
          && bool_decide (hr_provider_delivery_failed ∉ c_reason_codes case) then
         updated <~ update_case_reasons (c_case_id case) (c_version case)
           (λ x, case_with_reasons x (c_priority x)
                   (c_reason_codes case ++ [hr_provider_delivery_failed]) (case_touched_at now x)
                   (c_version case + 1));
         tx_raise_if (negb (rowcount updated =? 1)) LeaseConflictError
       else tx_ret tt);~
      event_id <~ uuid4;
      event <~ tx_lift (SupportCaseEvent_validate
        (mkSupportCaseEvent event_id
           (command_cycle_key claimed match status with px_accepted => "accepted" | _ => "rejected" end)
           (c_case_id case) ev_provider_update None None None [] [] "" None None None None None
           None None (Some (om_command_id c)) (Some status)
           (match provider_result with Some r => pr_provider_reference r | None => None end) None
           (Some "system") (c_customer_id case) (c_tenant_id case) now));
      execute (insert_case_event event)
  end.

(** * The finalizer *)

(** [except LeaseConflictError: raise; except (DatabaseError, PoolTimeout)] *)
Definition integration_errors (e : tx_error) : exn :=
  match e with DbError _ => IntegrationPersistenceError | Raised x => x end.

Definition delivery_outcome (target : finalization_target)
    (failure_kind : option ProviderFailureKind) : DeliveryAttemptOutcome :=
  match target with
  | ft_published => da_accepted
  | ft_dead => if bool_decide (failure_kind = Some fk_provider_rejection)
               then da_provider_rejected else da_terminal_failure
  end.

Definition finalize_tx (claimed : ClaimedOutboxMessage) (target : finalization_target)
    (provider_result : option ProviderCommandResult) (failure_kind : option ProviderFailureKind)
    (error_code error_message : option string) (lease_id : uuid) (lease_owner : string) : Tx unit :=
  let c := cl_message claimed in
  now <~ lock_claimed_command claimed;
  match om_aggregate_type c with
  | ag_order_operation => finalize_operation claimed target provider_result failure_kind now
  | ag_support_case => finalize_case claimed target provider_result now
  end;~
  attempt_affected <~ finish_delivery_attempt (da_attempt_id (cl_attempt claimed))
    (om_command_id c) lease_id lease_owner now (delivery_outcome target failure_kind) failure_kind
    None (provider_result ≫= pr_provider_operation_id) (provider_result ≫= pr_provider_reference)
    error_code error_message None None;
  tx_raise_if (negb (attempt_affected =? 1)) LeaseConflictError;~
  affected <~ update_outbox_transition (om_command_id c) ob_processing (Some lease_id)
    (Some lease_owner) (match target with ft_published => ob_published | ft_dead => ob_dead end) now
    None (if bool_decide (target = ft_published) then Some now else None)
    (if bool_decide (target = ft_dead) then Some now else None)
    failure_kind error_code error_message;
  tx_raise_if (negb (affected =? 1)) LeaseConflictError.

(** [_finalize] *)
Definition finalize (claimed : ClaimedOutboxMessage) (target : finalization_target)
    (provider_result : option ProviderCommandResult) (failure_kind : option ProviderFailureKind)
    (error_code error_message : option string) : M database unit :=
  match om_lease_id (cl_message claimed), om_lease_owner (cl_message claimed) with
  | Some lease_id, Some lease_owner =>
      in_transaction IntegrationPersistenceError integration_errors
        (finalize_tx claimed target provider_result failure_kind error_code error_message
           lease_id lease_owner)
  | _, _ => raise AssertionError
  end.

Definition accepted (claimed : ClaimedOutboxMessage) (result : ProviderCommandResult) :
    M database unit := finalize claimed ft_published (Some result) None None None.

Definition rejected (claimed : ClaimedOutboxMessage) (result : ProviderCommandResult) :
    M database unit :=
  finalize claimed ft_dead (Some result) (Some fk_provider_rejection) (Some "provider_rejected")
    (Some "Provider rejected the command.").

Definition terminal_failure (claimed : ClaimedOutboxMessage) (failure_kind : ProviderFailureKind)
    (error_code error_message : option string) : M database unit :=
  finalize claimed ft_dead None (Some failure_kind) error_code error_message.
