(* ===== verification/InboxWrites.v ===== *)
(** The inbox: its tables with their constraints (migrations 0007 and 0008), the models of
    [integrations/persistence_models.py] that read them, and the inbox part of
    [integrations/postgres_writes.py]. *)
From S2P Require Import Prelude Effects OperationModels CaseModels Envelope InboxModels Database Transactions Messaging OutboxWrites.

(** * Tables *)

(** [raw_body_sha256 ~ '^[0-9a-f]{64}$'] *)
Definition sha256_ok (s : string) : bool := (str_len s =? 64) && all_chars is_lower_hex s.

(** A counter that starts at zero. *)
Definition counter_ok (n : Z) : bool := (0 <=? n) && (n <? 2 ^ 31).

Definition inbox_messages_check (m : InboxMessage) : bool :=
  btrim_nonempty (im_connection_id m) && btrim_nonempty (im_event_id m)
  && btrim_nonempty (im_tenant_id m) && (im_schema_version m =? 1)
  && sha256_ok (im_raw_body_sha256 m)
  && counter_ok (im_processing_attempts m) && int4_ok (im_processing_cycle m)
  && (0 <=? im_attempts_in_cycle m) && (im_attempts_in_cycle m <=? 5)
  && text_column_ok (im_lease_owner m) && error_column_ok (im_last_error_code m)
  && error_column_ok (im_last_error_message m)
  && (im_received_at m <=? im_updated_at m)
  && (if bool_decide (im_status m = ib_processing)
      then bool_decide (is_Some (im_lease_id m)) && bool_decide (is_Some (im_lease_owner m))
           && bool_decide (is_Some (im_lease_expires_at m))
      else bool_decide (im_lease_id m = None) && bool_decide (im_lease_owner m = None)
           && bool_decide (im_lease_expires_at m = None))
  && Bool.eqb (bool_decide (im_status m = ib_processed)) (bool_decide (is_Some (im_processed_at m)))
  && Bool.eqb (bool_decide (im_status m = ib_failed)) (bool_decide (is_Some (im_failed_at m))).

(** [uq_inbox_messages_connection_event] *)
Definition inbox_event_key (m : InboxMessage) : option (string * string) :=
  Some (im_connection_id m, im_event_id m).

Definition set_inbox_messages (m : gmap uuid InboxMessage) (d : database) : database :=
  set_inbox (mkInboxTables m (inbox_attempts (inbox d)) (inbox_redrives (inbox d))) d.
Definition set_inbox_attempts (m : gmap uuid InboxProcessingAttempt) (d : database) : database :=
  set_inbox (mkInboxTables (inbox_messages (inbox d)) m (inbox_redrives (inbox d))) d.

(** Store a row after the CHECK and unique constraints. *)
Definition put_inbox_message (m : InboxMessage) (d : database) : pg database :=
  let t := inbox_messages (inbox d) in
  pg_bind (pg_check (inbox_messages_check m) OtherDatabaseError) (λ _,
  pg_bind (pg_check (negb (collides inbox_event_key t (im_inbox_id m) m))
             (UniqueViolation "uq_inbox_messages_connection_event")) (λ _,
  PgOk (set_inbox_messages (<[im_inbox_id m := m]> t) d))).

Definition inbox_attempts_check (a : InboxProcessingAttempt) : bool :=
  int4_ok (ia_processing_cycle a) && int4_ok (ia_attempt_number a)
  && btrim_nonempty (ia_worker_id a)
  && error_column_ok (ia_safe_error_code a) && error_column_ok (ia_safe_error_message a)
  && Bool.eqb (bool_decide (is_Some (ia_outcome a))) (bool_decide (is_Some (ia_finished_at a))).

(** [uq_inbox_processing_attempts_number] *)
Definition inbox_attempt_key (a : InboxProcessingAttempt) : option (uuid * Z) :=
  Some (ia_inbox_id a, ia_attempt_number a).

Definition put_inbox_attempt (a : InboxProcessingAttempt) (d : database) : pg database :=
  let t := inbox_attempts (inbox d) in
  pg_bind (pg_check (inbox_attempts_check a) OtherDatabaseError) (λ _,
  pg_bind (pg_check (negb (collides inbox_attempt_key t (ia_attempt_id a) a))
             (UniqueViolation "uq_inbox_processing_attempts_number")) (λ _,
  pg_bind (pg_check (bool_decide (is_Some (inbox_messages (inbox d) !! ia_inbox_id a)))
             OtherDatabaseError) (λ _,
  PgOk (set_inbox_attempts (<[ia_attempt_id a := a]> t) d)))).

Definition insert_inbox_attempt (a : InboxProcessingAttempt) (d : database) : pg database :=
  pg_bind (pg_check (bool_decide (inbox_attempts (inbox d) !! ia_attempt_id a = None))
             (UniqueViolation "inbox_processing_attempts_pkey")) (λ _,
  put_inbox_attempt a d).

(** * Persistence models *)

Definition InboxMessage_strip (m : InboxMessage) : InboxMessage :=
  mkInboxMessage (im_inbox_id m) (strip (im_connection_id m)) (strip (im_event_id m))
    (strip (im_tenant_id m)) (im_schema_version m) (im_event_type m) (im_command_id m)
    (im_aggregate_type m) (im_aggregate_id m) (im_payload m) (strip (im_raw_body_sha256 m))
    (im_status m) (im_processing_attempts m) (im_processing_cycle m) (im_attempts_in_cycle m)
    (im_available_at m) (im_lease_id m) (strip <$> im_lease_owner m) (im_lease_expires_at m)
    (strip <$> im_last_error_code m) (strip <$> im_last_error_message m) (im_received_at m)
    (im_updated_at m) (im_processed_at m) (im_failed_at m).

Definition InboxMessage_fields_ok (m : InboxMessage) : bool :=
  nonempty (im_connection_id m) && nonempty (im_event_id m) && nonempty (im_tenant_id m)
  && (im_schema_version m =? 1) && sha256_ok (im_raw_body_sha256 m)
  && (0 <=? im_processing_attempts m) && (1 <=? im_processing_cycle m)
  && (0 <=? im_attempts_in_cycle m) && (im_attempts_in_cycle m <=? 5)
  && opt_nonempty (im_lease_owner m) && max_500 (im_last_error_code m)
  && max_500 (im_last_error_message m).

(** [InboxMessage.validate_state] *)
Definition validate_inbox_state (m : InboxMessage) : res unit :=
  raise_if (im_updated_at m <? im_received_at m)
    (ValueError "updated_at must not be earlier than received_at");;;
  (if bool_decide (im_status m = ib_processing) then
     raise_if (bool_decide (im_lease_id m = None) || bool_decide (im_lease_owner m = None))
       (ValueError "processing requires lease_id and lease_owner");;;
     raise_if (bool_decide (im_lease_expires_at m = None))
       (ValueError "processing requires lease_expires_at")
   else
     raise_if (bool_decide (is_Some (im_lease_id m)) || bool_decide (is_Some (im_lease_owner m))
               || bool_decide (is_Some (im_lease_expires_at m)))
       (ValueError "non-processing status must not carry a lease"));;;
  raise_if (bool_decide (im_status m = ib_processed) && bool_decide (im_processed_at m = None))
    (ValueError "processed requires processed_at");;;
  raise_if (bool_decide (im_status m ≠ ib_processed) && bool_decide (is_Some (im_processed_at m)))
    (ValueError "only processed may carry processed_at");;;
  raise_if (bool_decide (im_status m = ib_failed) && bool_decide (im_failed_at m = None))
    (ValueError "failed requires failed_at");;;
  raise_if (bool_decide (im_status m ≠ ib_failed) && bool_decide (is_Some (im_failed_at m)))
    (ValueError "only failed may carry failed_at").

Definition InboxMessage_validate (m : InboxMessage) : res InboxMessage :=
  let m := InboxMessage_strip m in
  raise_if (negb (InboxMessage_fields_ok m)) (ValidationError "InboxMessage");;;
  validating "InboxMessage" (validate_inbox_state m);;;
  Ok m.

Definition with_inbox_payload (m : InboxMessage) (payload : ProviderWebhookEventData) : InboxMessage :=
  mkInboxMessage (im_inbox_id m) (im_connection_id m) (im_event_id m) (im_tenant_id m)
    (im_schema_version m) (im_event_type m) (im_command_id m) (im_aggregate_type m)
    (im_aggregate_id m) payload (im_raw_body_sha256 m) (im_status m) (im_processing_attempts m)
    (im_processing_cycle m) (im_attempts_in_cycle m) (im_available_at m) (im_lease_id m)
    (im_lease_owner m) (im_lease_expires_at m) (im_last_error_code m) (im_last_error_message m)
    (im_received_at m) (im_updated_at m) (im_processed_at m) (im_failed_at m).

(** [_inbox_from_row] *)
Definition inbox_from_row (row : InboxMessage) : res InboxMessage :=
  let* payload := ProviderWebhookEventData_validate (im_payload row) in
  InboxMessage_validate (with_inbox_payload row payload).

Definition InboxProcessingAttempt_strip (a : InboxProcessingAttempt) : InboxProcessingAttempt :=
  mkInboxProcessingAttempt (ia_attempt_id a) (ia_inbox_id a) (ia_processing_cycle a)
    (ia_attempt_number a) (ia_lease_id a) (strip (ia_worker_id a)) (ia_started_at a)
    (ia_finished_at a) (ia_outcome a) (strip <$> ia_safe_error_code a)
    (strip <$> ia_safe_error_message a).

Definition InboxProcessingAttempt_fields_ok (a : InboxProcessingAttempt) : bool :=
  (1 <=? ia_processing_cycle a) && (1 <=? ia_attempt_number a) && nonempty (ia_worker_id a)
  && max_500 (ia_safe_error_code a) && max_500 (ia_safe_error_message a).

(** [InboxProcessingAttempt.validate_state] *)
Definition validate_inbox_attempt_state (a : InboxProcessingAttempt) : res unit :=
  raise_if match ia_finished_at a with Some f => f <? ia_started_at a | None => false end
    (ValueError "finished_at must not be earlier than started_at");;;
  raise_if (negb (Bool.eqb (bool_decide (ia_outcome a = None)) (bool_decide (ia_finished_at a = None))))
    (ValueError "outcome and finished_at must be present together").

Definition InboxProcessingAttempt_validate (a : InboxProcessingAttempt) : res InboxProcessingAttempt :=
  let a := InboxProcessingAttempt_strip a in
  raise_if (negb (InboxProcessingAttempt_fields_ok a)) (ValidationError "InboxProcessingAttempt");;;
  validating "InboxProcessingAttempt" (validate_inbox_attempt_state a);;;
  Ok a.

Record ClaimedInboxMessage := mkClaimedInbox {
  ci_message : InboxMessage;
  ci_attempt : InboxProcessingAttempt;
}.

(** [ClaimedInboxMessage.validate_claim] *)
Definition validate_inbox_claim (m : InboxMessage) (a : InboxProcessingAttempt) : res unit :=
  raise_if (bool_decide (im_status m ≠ ib_processing))
    (ValueError "a claimed message must be processing");;;
  raise_if (bool_decide (ia_inbox_id a ≠ im_inbox_id m))
    (ValueError "attempt inbox_id must match the message");;;
  raise_if (bool_decide (ia_processing_cycle a ≠ im_processing_cycle m))
    (ValueError "attempt processing_cycle must match the message");;;
  raise_if (bool_decide (ia_attempt_number a ≠ im_processing_attempts m))
    (ValueError "attempt number must match lifetime processing attempts");;;
  raise_if (bool_decide (Some (ia_lease_id a) ≠ im_lease_id m))
    (ValueError "attempt lease_id must match the message lease");;;
  raise_if (bool_decide (Some (ia_worker_id a) ≠ im_lease_owner m))
    (ValueError "attempt worker_id must match the lease owner").

Definition ClaimedInboxMessage_validate (row : InboxMessage) (attempt : InboxProcessingAttempt) :
    res ClaimedInboxMessage :=
  let m := InboxMessage_strip row in
  raise_if (negb (InboxMessage_fields_ok m)) (ValidationError "ClaimedInboxMessage");;;
  validating "ClaimedInboxMessage" (validate_inbox_state m);;;
  validating "ClaimedInboxMessage" (validate_inbox_claim m attempt);;;
  Ok (mkClaimedInbox m attempt).

(** * UPDATE statements *)

(** [UPDATE integration.inbox_messages SET ... WHERE inbox_id = %s AND ...] *)
Definition update_inbox (inbox_id : uuid) (where_ : InboxMessage → bool)
    (set : InboxMessage → InboxMessage) : Tx (option InboxMessage) :=
  row <~ select (λ d, inbox_messages (inbox d) !! inbox_id);
  match row with
  | Some m =>
      if where_ m then execute (put_inbox_message (set m));~ tx_ret (Some (set m))
      else tx_ret None
  | None => tx_ret None
  end.

(** The columns processing rewrites. *)
Definition with_inbox_progress (m : InboxMessage) (status : InboxProcessingStatus)
    (attempts cycle_attempts : Z) (available_at : instant) (lease_id : option uuid)
    (lease_owner : option string) (lease_expires_at : option instant)
    (error_code error_message : option string) (updated_at : instant)
    (processed_at failed_at : option instant) : InboxMessage :=
  mkInboxMessage (im_inbox_id m) (im_connection_id m) (im_event_id m) (im_tenant_id m)
    (im_schema_version m) (im_event_type m) (im_command_id m) (im_aggregate_type m)
    (im_aggregate_id m) (im_payload m) (im_raw_body_sha256 m) status attempts
    (im_processing_cycle m) cycle_attempts available_at lease_id lease_owner lease_expires_at
    error_code error_message (im_received_at m)
    (greatest3 updated_at (im_updated_at m) (im_received_at m)) processed_at failed_at.

(** [GREATEST(%s, updated_at, received_at)] *)
Definition inbox_not_before (m : InboxMessage) (t : instant) : instant :=
  greatest3 t (im_updated_at m) (im_received_at m).

(** [WHERE ... lease_id = %s AND lease_owner = %s AND status = 'processing'] *)
Definition inbox_lease (lease_id : uuid) (lease_owner : string) (m : InboxMessage) : bool :=
  bool_decide (im_lease_id m = Some lease_id) && bool_decide (im_lease_owner m = Some lease_owner)
  && bool_decide (im_status m = ib_processing).

(** * [postgres_writes.py] *)

Definition processed_row (processed_at : instant) (m : InboxMessage) : InboxMessage :=
  with_inbox_progress m ib_processed (im_processing_attempts m) (im_attempts_in_cycle m)
    (im_available_at m) None None None (im_last_error_code m) (im_last_error_message m)
    processed_at (Some (inbox_not_before m processed_at)) (im_failed_at m).

Definition mark_inbox_processed (inbox_id lease_id : uuid) (lease_owner : string)
    (processed_at : instant) : Tx Z :=
  updated <~ update_inbox inbox_id (inbox_lease lease_id lease_owner) (processed_row processed_at);
  tx_ret (rowcount updated).

Definition finished_inbox_attempt (a : InboxProcessingAttempt) (finished_at : instant)
    (outcome : InboxAttemptOutcome) (code message : option string) : InboxProcessingAttempt :=
  mkInboxProcessingAttempt (ia_attempt_id a) (ia_inbox_id a) (ia_processing_cycle a)
    (ia_attempt_number a) (ia_lease_id a) (ia_worker_id a) (ia_started_at a)
    (Some (Z.max finished_at (ia_started_at a))) (Some outcome) code message.

(** The fencing identity of an open attempt. *)
Definition inbox_attempt_fence (inbox_id lease_id : uuid) (worker_id : string)
    (a : InboxProcessingAttempt) : bool :=
  bool_decide (ia_inbox_id a = inbox_id) && bool_decide (ia_lease_id a = lease_id)
  && bool_decide (ia_worker_id a = worker_id) && bool_decide (ia_finished_at a = None).

Definition finish_inbox_attempt (attempt_id inbox_id lease_id : uuid) (worker_id : string)
    (finished_at : instant) (outcome : InboxAttemptOutcome) (code message : option string) : Tx Z :=
  tx_lift (validate_error_fields code message);~
  row <~ select (λ d, inbox_attempts (inbox d) !! attempt_id);
  match row with
  | Some a =>
      if inbox_attempt_fence inbox_id lease_id worker_id a then
        execute (put_inbox_attempt (finished_inbox_attempt a finished_at outcome code message));~
        tx_ret 1
      else tx_ret 0
  | None => tx_ret 0
  end.

Definition failed_row (failed_at : instant) (code message : option string) (m : InboxMessage) :
    InboxMessage :=
  with_inbox_progress m ib_failed (im_processing_attempts m) (im_attempts_in_cycle m)
    (im_available_at m) None None None code message failed_at (im_processed_at m)
    (Some (inbox_not_before m failed_at)).

Definition mark_inbox_failed (inbox_id lease_id : uuid) (lease_owner : string)
    (failed_at : instant) (code message : option string) : Tx Z :=
  tx_lift (validate_error_fields code message);~
  updated <~ update_inbox inbox_id (inbox_lease lease_id lease_owner) (failed_row failed_at code message);
  tx_ret (rowcount updated).

Definition returned_row (available_at updated_at : instant) (code message : option string)
    (m : InboxMessage) : InboxMessage :=
  with_inbox_progress m ib_received (im_processing_attempts m) (im_attempts_in_cycle m)
    available_at None None None code message updated_at (im_processed_at m) (im_failed_at m).

Definition schedule_inbox_retry (inbox_id lease_id : uuid) (lease_owner : string)
    (available_at updated_at : instant) (code message : option string) : Tx Z :=
  tx_lift (validate_error_fields code message);~
  updated <~ update_inbox inbox_id (inbox_lease lease_id lease_owner)
    (returned_row available_at updated_at code message);
  tx_ret (rowcount updated).
