(* ===== verification/OutboxRepository.v ===== *)
(** Leasing, retry and recovery of outbox messages: the outbox half of
    [integrations/postgres_repository.py].  [locked] says which rows a concurrent
    transaction holds when the statement runs ([SKIP LOCKED]). *)
From Stdlib Require Import QArith_base.
From stdpp Require Import pretty.
From S2P Require Import Prelude Effects OperationModels CaseModels Envelope Retry Connections Database Transactions Messaging CaseRepository OutboxWrites Finalization.

(** * Durations *)

(** [%s * interval '1 second'], and [timedelta(seconds=...)]: microseconds. *)
Definition micros (seconds : Q) : Z := round_half_even (seconds * 1000000)%Q.

(** [_validate_claim_parameters]: the lease duration when everything is valid. *)
Definition validate_claim_parameters (worker_id : string) (batch_size : Z) (lease_seconds : float) :
    res Q :=
  raise_if (negb (nonempty (strip worker_id))) (ValueError "worker_id must not be blank");;;
  raise_if (batch_size <? 1) (ValueError "batch_size must be at least 1");;;
  finite_setting "lease_seconds" lease_seconds (Qltb 0) "must be positive".

(** * Claiming *)

Definition due_before (a b : OutboxMessage) : bool :=
  (om_available_at a <? om_available_at b)
  || ((om_available_at a =? om_available_at b)
      && negb (row_key_lt (om_created_at b, om_command_id b) (om_created_at a, om_command_id a))).
Definition due_le (a b : OutboxMessage) : Prop := due_before a b = true.
#[export] Instance due_le_dec : RelDecision due_le.
Proof. intros a b. unfold due_le. apply _. Defined.

(** [status IN ('pending', 'retry_scheduled') AND available_at <= clock_timestamp() AND
    attempts_in_cycle < 8] *)
Definition due (now : instant) (m : OutboxMessage) : bool :=
  bool_decide (om_status m ∈ [ob_pending; ob_retry_scheduled])
  && (om_available_at m <=? now) && (om_attempts_in_cycle m <? 8).

Definition due_rows (locked : uuid → bool) (batch_size : Z) (now : instant) (d : database) :
    list OutboxMessage :=
  take (Z.to_nat batch_size)
    (merge_sort due_le
       (filter (λ m, due now m = true ∧ locked (om_command_id m) = false)
          (rows (outbox_messages d)))).

Definition leased_row (m : OutboxMessage) (lease_id : uuid) (worker_id : string)
    (expires_at updated_at : instant) : OutboxMessage :=
  with_progress m ob_processing (om_attempts_in_cycle m + 1) (om_available_at m) (Some lease_id)
    (Some worker_id) (Some expires_at) (om_last_failure_kind m) (om_last_error_code m)
    (om_last_error_message m) (greatest3 updated_at (om_updated_at m) (om_created_at m))
    (om_published_at m) (om_dead_at m).

Definition open_attempt (attempt_id lease_id : uuid) (worker_id : string) (m : OutboxMessage) :
    OutboxDeliveryAttempt :=
  mkOutboxDeliveryAttempt attempt_id (om_command_id m) (om_delivery_cycle m)
    (om_attempts_in_cycle m) lease_id worker_id (om_updated_at m) None None None None None None
    None None None None.

(** The body of the loop over the selected rows. *)
Definition claim_row (worker_id : string) (lease : Z) (row : OutboxMessage) :
    Tx ClaimedOutboxMessage :=
  lease_id <~ uuid4;
  attempt_id <~ uuid4;
  now <~ clock_timestamp;
  updated_now <~ clock_timestamp;
  updated <~ update_outbox (om_command_id row) (λ _, true)
    (λ m, leased_row m lease_id worker_id (now + lease) updated_now);
  match updated with
  | None => tx_raise IntegrationPersistenceError
  | Some m =>
      execute (insert_delivery_attempt (open_attempt attempt_id lease_id worker_id m));~
      attempt <~ tx_lift (OutboxDeliveryAttempt_validate (open_attempt attempt_id lease_id worker_id m));
      payload <~ tx_lift (parse_payload (om_command_type m) (om_payload m));
      tx_lift (ClaimedOutboxMessage_validate (with_payload m payload) attempt)
  end.

Definition claim_tx (locked : uuid → bool) (worker_id : string) (batch_size lease : Z) :
    Tx (list ClaimedOutboxMessage) :=
  now <~ clock_timestamp;
  selected <~ select (due_rows locked batch_size now);
  tx_for (claim_row worker_id lease) selected.

Definition claim_due_outbox (locked : uuid → bool) (worker_id : string) (batch_size : Z)
    (lease_seconds : float) : M database (list ClaimedOutboxMessage) :=
  lease <- lift (validate_claim_parameters worker_id batch_size lease_seconds);
  in_transaction IntegrationPersistenceError integration_errors
    (claim_tx locked worker_id batch_size (micros lease)).

(** * Renewal *)

Definition renewed_row (m : OutboxMessage) (expires_at updated_at : instant) : OutboxMessage :=
  with_progress m (om_status m) (om_attempts_in_cycle m) (om_available_at m) (om_lease_id m)
    (om_lease_owner m) (Some expires_at) (om_last_failure_kind m) (om_last_error_code m)
    (om_last_error_message m) (greatest3 updated_at (om_updated_at m) (om_created_at m))
    (om_published_at m) (om_dead_at m).

(** The lease of the row, still running at [now]. *)
Definition holds_lease (lease_id : uuid) (lease_owner : string) (now : instant)
    (m : OutboxMessage) : bool :=
  bool_decide (om_lease_id m = Some lease_id) && bool_decide (om_lease_owner m = Some lease_owner)
  && bool_decide (om_status m = ob_processing)
  && match om_lease_expires_at m with Some t => now <? t | None => false end.

Definition renew_tx (command_id lease_id : uuid) (lease_owner : string) (lease : Z) : Tx bool :=
  now <~ clock_timestamp;
  lease_now <~ clock_timestamp;
  updated_now <~ clock_timestamp;
  updated <~ update_outbox command_id (holds_lease lease_id lease_owner now)
    (λ m, renewed_row m (lease_now + lease) updated_now);
  tx_ret (rowcount updated =? 1).

Definition renew_outbox_lease (command_id lease_id : uuid) (lease_owner : string)
    (lease_seconds : float) : M database bool :=
  lease <- lift (validate_claim_parameters lease_owner 1 lease_seconds);
  in_transaction IntegrationPersistenceError integration_errors
    (renew_tx command_id lease_id lease_owner (micros lease)).

(** * Retry *)

Definition retry_tx (command_id lease_id : uuid) (lease_owner : string)
    (attempt_id : uuid) (failure_kind : ProviderFailureKind) (error_code error_message : option string)
    (retry_after_seconds : option Q) (next_available_at : instant) (http_status : option Z) : Tx unit :=
  message <~ select (λ d, outbox_messages d !! command_id);
  match message with
  | None => tx_raise LeaseConflictError
  | Some m =>
      tx_raise_if (bool_decide (om_status m ≠ ob_processing)) LeaseConflictError;~
      tx_raise_if (bool_decide (om_lease_id m ≠ Some lease_id)) LeaseConflictError;~
      tx_raise_if (bool_decide (om_lease_owner m ≠ Some lease_owner)) LeaseConflictError;~
      tx_raise_if (8 <=? om_attempts_in_cycle m) OutboxAttemptsExhaustedError;~
      now <~ clock_timestamp;
      affected_attempt <~ finish_delivery_attempt attempt_id command_id lease_id lease_owner now
        da_retry_scheduled (Some failure_kind) http_status None None error_code error_message
        retry_after_seconds (Some next_available_at);
      tx_raise_if (negb (affected_attempt =? 1)) LeaseConflictError;~
      affected <~ update_outbox_transition command_id ob_processing (Some lease_id)
        (Some lease_owner) ob_retry_scheduled now (Some next_available_at) None None
        (Some failure_kind) error_code error_message;
      tx_raise_if (negb (affected =? 1)) LeaseConflictError
  end.

Definition schedule_outbox_retry (command_id lease_id : uuid) (lease_owner : string)
    (attempt_id : uuid) (failure_kind : ProviderFailureKind) (error_code error_message : option string)
    (retry_after_seconds : option Q) (next_available_at : instant) (http_status : option Z) :
    M database unit :=
  in_transaction IntegrationPersistenceError integration_errors
    (retry_tx command_id lease_id lease_owner attempt_id failure_kind error_code error_message
       retry_after_seconds next_available_at http_status).

(** * Recovery of expired leases *)

Definition lease_expired (now : instant) (m : OutboxMessage) : bool :=
  bool_decide (om_status m = ob_processing)
  && match om_lease_expires_at m with Some t => t <? now | None => false end.

Definition expired_rows (locked : uuid → bool) (batch_size : Z) (now : instant) (d : database) :
    list OutboxMessage :=
  take (Z.to_nat batch_size)
    (filter (λ m, lease_expired now m = true ∧ locked (om_command_id m) = false)
       (rows (outbox_messages d))).

(** [WHERE command_id = %s AND lease_id = %s AND finished_at IS NULL] *)
Definition open_attempts (command_id : uuid) (lease_id : option uuid) (d : database) :
    list OutboxDeliveryAttempt :=
  filter (λ a, da_command_id a = command_id ∧ Some (da_lease_id a) = lease_id ∧
               da_finished_at a = None) (rows (outbox_delivery_attempts d)).

Definition expired_attempt (a : OutboxDeliveryAttempt) (now : instant) (code : string) :
    OutboxDeliveryAttempt :=
  mkOutboxDeliveryAttempt (da_attempt_id a) (da_command_id a) (da_delivery_cycle a)
    (da_attempt_number a) (da_lease_id a) (da_worker_id a) (da_started_at a)
    (Some (Z.max now (da_started_at a))) (Some da_lease_expired) (da_failure_kind a)
    (da_http_status a) (da_provider_operation_id a) (da_provider_reference a) (Some code)
    (da_safe_error_message a) (da_retry_after_seconds a) (da_next_available_at a).

(** The two ways a recovered message goes on. *)
Definition recovered_row (m : OutboxMessage) (available_at updated_at : instant) : OutboxMessage :=
  with_progress m ob_retry_scheduled (om_attempts_in_cycle m) available_at None None None
    (om_last_failure_kind m) (om_last_error_code m) (om_last_error_message m)
    (greatest3 updated_at (om_updated_at m) (om_created_at m)) (om_published_at m) (om_dead_at m).
Definition exhausted_row (m : OutboxMessage) (dead_at updated_at : instant) : OutboxMessage :=
  with_progress m ob_dead (om_attempts_in_cycle m) (om_available_at m) None None None
    (om_last_failure_kind m) (Some "lease_expired_attempts_exhausted") (om_last_error_message m)
    (greatest3 updated_at (om_updated_at m) (om_created_at m)) (om_published_at m)
    (Some (greatest3 dead_at (om_updated_at m) (om_created_at m))).

(** The body of the loop over the expired rows. *)
Definition recover_row (row : OutboxMessage) : Tx unit :=
  attempt_row <~ select (λ d, head (open_attempts (om_command_id row) (om_lease_id row) d));
  match attempt_row with
  | None => tx_raise LeaseConflictError
  | Some a =>
      now <~ clock_timestamp;
      let effective_now := Z.max (Z.max now (om_created_at row))
                             (Z.max (om_updated_at row) (da_started_at a)) in
      (if (8 <=? om_attempts_in_cycle row)
          && bool_decide (om_aggregate_type row = ag_order_operation) then
         message <~ tx_lift (outbox_from_row row);
         attempt <~ tx_lift (OutboxDeliveryAttempt_validate a);
         claimed <~ tx_lift (ClaimedOutboxMessage_validate (with_payload row (om_payload message)) attempt);
         finalize_operation claimed ft_dead None None effective_now
       else tx_ret tt);~
      matching <~ select (open_attempts (om_command_id row) (om_lease_id row));
      match matching with
      | [x] => execute (put_delivery_attempt (expired_attempt x effective_now
                 (if om_attempts_in_cycle row <? 8 then "lease_expired"
                  else "lease_expired_attempts_exhausted")))
      | _ => tx_raise LeaseConflictError
      end;~
      t1 <~ clock_timestamp;
      t2 <~ clock_timestamp;
      _ <~ update_outbox (om_command_id row) (λ _, true)
        (λ m, if om_attempts_in_cycle row <? 8 then recovered_row m t1 t2 else exhausted_row m t1 t2);
      tx_ret tt
  end.

(** [except LeaseConflictError: raise; except (DatabaseError, PoolTimeout, ValueError)] *)
Definition recovery_errors (e : tx_error) : exn :=
  match e with
  | DbError _ => IntegrationPersistenceError
  | Raised x => if is_ValueError x then IntegrationPersistenceError else x
  end.

Definition recover_tx (locked : uuid → bool) (batch_size : Z) : Tx Z :=
  execute (λ d, pg_bind (pg_check (0 <=? batch_size) OtherDatabaseError) (λ _, PgOk d));~
  now <~ clock_timestamp;
  selected <~ select (expired_rows locked batch_size now);
  recovered <~ tx_for recover_row selected;
  tx_ret (Z.of_nat (length recovered)).

Definition recover_expired_outbox_leases (locked : uuid → bool) (batch_size : Z) : M database Z :=
  in_transaction IntegrationPersistenceError recovery_errors
    (recover_tx locked batch_size).

(** [get_outbox_message] *)
Definition get_outbox_message (command_id : uuid) : M database (option OutboxMessage) :=
  query IntegrationPersistenceError (λ d,
    match outbox_messages d !! command_id with
    | None => Ok None
    | Some row => let* m := outbox_from_row row in Ok (Some m)
    end).

(** * The dispatch worker

    The outbox dispatch worker: [integrations/outbox_worker.py].  The provider transport and
    the connection lookup are external; the connection gate only delays requests and is modelled
    apart ([RateLimit]).  The items of a batch run as concurrent tasks: here they run one after the other,
    and what a sibling commits in between is interference like any other worker's. *)

(** [ProviderCommandTransport.send_command]: what the provider answers may depend on every
    command it has received. *)
Definition CommandTransport : Type :=
  list ProviderCommandEnvelope → ProviderConnection → ProviderCommandEnvelope →
  res ProviderCommandResult.

Record WorkerRunResult := mkWorkerRunResult {
  wr_claimed : Z;
  wr_published : Z;
  wr_retried : Z;
  wr_dead : Z;
  wr_lease_conflicts : Z;
  wr_failed : Z;
}.

Definition run_published : WorkerRunResult := mkWorkerRunResult 0 1 0 0 0 0.
Definition run_retried : WorkerRunResult := mkWorkerRunResult 0 0 1 0 0 0.
Definition run_dead : WorkerRunResult := mkWorkerRunResult 0 0 0 1 0 0.
Definition run_lease_conflict : WorkerRunResult := mkWorkerRunResult 0 0 0 0 1 0.
Definition run_failed : WorkerRunResult := mkWorkerRunResult 0 0 0 0 0 1.

Definition merge (left right : WorkerRunResult) : WorkerRunResult :=
  mkWorkerRunResult (wr_claimed left) (wr_published left + wr_published right)
    (wr_retried left + wr_retried right) (wr_dead left + wr_dead right)
    (wr_lease_conflicts left + wr_lease_conflicts right) (wr_failed left + wr_failed right).

(** [_safe_error] *)
Definition safe_error (error : exn) : string * string :=
  match error with
  | ProviderConnectionNotFoundError =>
      ("provider_connection_not_found", "Provider connection is unavailable.")
  | ProviderConnectionError => ("provider_connection_error", "Provider connection failed.")
  | ProviderTimeoutError => ("provider_timeout", "Provider request timed out.")
  | HTTPStatusError status_code _ =>
      ("provider_http_" +:+ pretty status_code, "Provider returned an HTTP error.")
  | _ => if is_ValueError error
         then ("provider_validation_error", "Provider command or response validation failed.")
         else ("unexpected_provider_error", "Provider command delivery failed unexpectedly.")
  end.

(** [datetime.min] and [datetime.max], in UTC. *)
Definition datetime_min : instant := seconds (-62135596800).
Definition datetime_max : instant := seconds 253402300800 - 1.

(** [t + timedelta(seconds=delay)] *)
Definition add_seconds (t : instant) (delay : Q) : res instant :=
  let u := t + micros delay in
  raise_if (negb ((datetime_min <=? u) && (u <=? datetime_max))) OverflowError;;;
  Ok u.

(** [getattr(error, "retry_after_seconds", None)] *)
Definition retry_after_of (error : exn) : option Q :=
  match error with HTTPStatusError _ r => r | _ => None end.
Definition http_status_of (error : exn) : option Z :=
  match error with HTTPStatusError s _ => Some s | _ => None end.

Section Worker.
Context (worker_id : string) (batch_size : Z) (lease_seconds : float).
Context (connection_lookup : ConnectionLookup) (transport : CommandTransport).
(** How many renewal timers fire before the provider answers. *)
Context (renewals : ClaimedOutboxMessage → nat).
(** The value [random] returns, and the rows other transactions hold. *)
Context (random_source : option float) (locked : uuid → bool).

(** One request: it can fail before the provider receives the command, or after. *)
Definition send_command (connection : ProviderConnection) (command : ProviderCommandEnvelope) :
    M database ProviderCommandResult :=
  answer <- transact ProviderConnectionError (λ d,
    Ok (transport (provider_deliveries d) connection command, add_provider_delivery command d));
  lift answer.

(** What a task ends with, as a value. *)
Definition outcome_of {A} (m : M database A) : M database (res A) :=
  try_except (a <- m; ret (Ok a)) (λ e, Some (ret (Err e))).

(** The renewal timers that fire while the request is in flight. *)
Fixpoint renew_while (n : nat) (command_id lease_id : uuid) (lease_owner : string) :
    M database unit :=
  match n with
  | O => ret tt
  | S n' =>
      renewed <- renew_outbox_lease command_id lease_id lease_owner lease_seconds;
      if renewed : bool then renew_while n' command_id lease_id lease_owner
      else raise LeaseConflictError
  end.

(** [_send_with_lease_renewal]: the request is under way while the lease is renewed; a lost
    lease abandons it. *)
Definition send_with_lease_renewal (claimed : ClaimedOutboxMessage) (lease_id : uuid)
    (lease_owner : string) (connection : ProviderConnection) (command : ProviderCommandEnvelope) :
    M database ProviderCommandResult :=
  answer <- outcome_of (send_command connection command);
  renew_while (renewals claimed) (om_command_id (cl_message claimed)) lease_id lease_owner;,
  lift answer.

Definition terminally_fail (claimed : ClaimedOutboxMessage) (kind : ProviderFailureKind)
    (code message : string) : M database WorkerRunResult :=
  try_except
    (terminal_failure claimed kind (Some code) (Some message);, ret run_dead)
    (λ e, Some (ret (if bool_decide (e = LeaseConflictError) then run_lease_conflict
                     else run_failed))).

(** [_handle_failure] *)
Definition handle_failure (claimed : ClaimedOutboxMessage) (error : exn) :
    M database WorkerRunResult :=
  let c := cl_message claimed in
  match om_lease_id c, om_lease_owner c with
  | Some lease_id, Some lease_owner =>
      kind <- lift (match classify_failure error with
                    | Ok k => Ok k
                    | Err e => if is_ValueError e then Ok fk_validation_error else Err e
                    end);
      decision <- lift (decide_retry kind (da_attempt_number (cl_attempt claimed)) MAX_ATTEMPTS
                          (default_retry random_source) (Finite <$> retry_after_of error));
      let '(code, message) := safe_error error in
      scheduled <- try_except
        (match rd_retryable decision, rd_delay_seconds decision with
         | true, Some delay =>
             at_ <- now;
             next_available_at <- lift (add_seconds at_ delay);
             schedule_outbox_retry (om_command_id c) lease_id lease_owner
               (da_attempt_id (cl_attempt claimed)) kind (Some code) (Some message)
               (rd_retry_after_seconds decision) next_available_at (http_status_of error);,
             ret (Some run_retried)
         | _, _ => ret None
         end)
        (λ e, match e with
              | OutboxAttemptsExhaustedError => Some (ret None)
              | LeaseConflictError => Some (ret (Some run_lease_conflict))
              | _ => None
              end);
      match scheduled with
      | Some r => ret r
      | None => terminally_fail claimed kind code message
      end
  | _, _ => raise AssertionError
  end.

(** The body of [_process] before its handlers. *)
Definition dispatch (claimed : ClaimedOutboxMessage) : M database WorkerRunResult :=
  let c := cl_message claimed in
  command <- lift (to_envelope c);
  match om_lease_id c, om_lease_owner c with
  | Some lease_id, Some lease_owner =>
      connection <- lift (connection_lookup (e_connection_id command) (om_capability c));
      lift (raise_if (bool_decide (pc_connection_id connection ≠ e_connection_id command)
                      || bool_decide (pc_tenant_id connection ≠ e_tenant_id command)
                      || bool_decide (pc_capability connection ≠ om_capability c))
              (ValueError "provider connection did not match persisted command"));,
      response <- send_with_lease_renewal claimed lease_id lease_owner connection command;
      (if bool_decide (pr_status response = acc_accepted) then
         accepted claimed response;, ret run_published
       else rejected claimed response;, ret run_dead)
  | _, _ => raise AssertionError
  end.

(** [_process] *)
Definition process (claimed : ClaimedOutboxMessage) : M database WorkerRunResult :=
  try_except (dispatch claimed)
    (λ e, Some (if bool_decide (e = LeaseConflictError) then ret run_lease_conflict
                else handle_failure claimed e)).

(** [asyncio.gather] with [return_exceptions=True]. *)
Fixpoint gather (claimed : list ClaimedOutboxMessage) : M database (list (res WorkerRunResult)) :=
  match claimed with
  | [] => ret []
  | c :: claimed' =>
      r <- outcome_of (process c);
      rs <- gather claimed';
      ret (r :: rs)
  end.

(** [_gather_batch]: the first exception is raised again. *)
Definition gather_batch (claimed : list ClaimedOutboxMessage) : M database (list WorkerRunResult) :=
  gathered <- gather claimed;
  lift (traverse id gathered).

Definition run_once : M database WorkerRunResult :=
  claimed <- claim_due_outbox locked worker_id batch_size lease_seconds;
  results <- gather_batch claimed;
  ret (fold_left merge results
         (mkWorkerRunResult (Z.of_nat (length claimed)) 0 0 0 0 0)).

(** One round of [run_forever]. *)
Definition dispatch_round (recovery_due : bool) : M database WorkerRunResult :=
  (if recovery_due then
     recover_expired_outbox_leases locked batch_size;, ret tt
   else ret tt);,
  run_once.
End Worker.
