(* ===== verification/InboxRepository.v ===== *)
(** Receiving, leasing, retry and recovery of inbox messages: the inbox half of
    [integrations/postgres_repository.py].  [locked] says which rows a concurrent
    transaction holds when the statement runs ([SKIP LOCKED]). *)
From Stdlib Require Import QArith_base.
From S2P Require Import Prelude Effects OperationModels CaseModels Envelope InboxModels Retry Database Transactions Messaging CaseRepository OutboxWrites Finalization InboxWrites OutboxRepository.

(** [get_inbox_message] *)
Definition get_inbox_message (inbox_id : uuid) : M database (option InboxMessage) :=
  query IntegrationPersistenceError (λ d,
    match inbox_messages (inbox d) !! inbox_id with
    | None => Ok None
    | Some row => let* m := inbox_from_row row in Ok (Some m)
    end).

(** * Receiving *)

(** The names of the fields in which a reused event id differs from the stored event. *)
Definition replay_conflicts (existing : InboxMessage) (provider_connection_id event_id tenant_id : string)
    (event : ProviderWebhookEventData) (raw_body_sha256 : string) : list string :=
  let conflict (name : string) (differs : bool) := if differs then [name] else [] in
  conflict "provider_connection_id" (bool_decide (im_connection_id existing ≠ provider_connection_id))
  ++ conflict "event_id" (bool_decide (im_event_id existing ≠ event_id))
  ++ conflict "tenant_id" (bool_decide (im_tenant_id existing ≠ tenant_id))
  ++ conflict "schema_version" (bool_decide (im_schema_version existing ≠ 1))
  ++ conflict "event_type" (bool_decide (im_event_type existing ≠ wh_command_status_changed))
  ++ conflict "command_id" (bool_decide (im_command_id existing ≠ wd_command_id event))
  ++ conflict "aggregate_type" (bool_decide (im_aggregate_type existing ≠ wd_aggregate_type event))
  ++ conflict "aggregate_id" (bool_decide (im_aggregate_id existing ≠ wd_aggregate_id event))
  ++ conflict "raw_body_sha256" (bool_decide (im_raw_body_sha256 existing ≠ raw_body_sha256))
  ++ conflict "payload" (bool_decide (im_payload existing ≠ event)).

(** [_verify_inbox_exact_replay] *)
Definition verify_inbox_exact_replay (existing : InboxMessage)
    (provider_connection_id event_id tenant_id : string) (event : ProviderWebhookEventData)
    (raw_body_sha256 : string) : res unit :=
  let conflicts := replay_conflicts existing provider_connection_id event_id tenant_id event
                     raw_body_sha256 in
  raise_if (bool_decide (conflicts ≠ [])) (InboxEventConflictError conflicts).

(** The row of a received event; the cycle and its attempts take the column defaults. *)
Definition received_row (inbox_id : uuid) (provider_connection_id event_id tenant_id : string)
    (event : ProviderWebhookEventData) (raw_body_sha256 : string) (received_at : instant) :
    InboxMessage :=
  mkInboxMessage inbox_id provider_connection_id event_id tenant_id 1 wh_command_status_changed
    (wd_command_id event) (wd_aggregate_type event) (wd_aggregate_id event) event raw_body_sha256
    ib_received 0 1 0 received_at None None None None None received_at received_at None None.

Definition event_row (provider_connection_id event_id : string) (d : database) : option InboxMessage :=
  head (filter (λ m, im_connection_id m = provider_connection_id ∧ im_event_id m = event_id)
          (rows (inbox_messages (inbox d)))).

(** [INSERT ... ON CONFLICT (provider_connection_id, event_id) DO NOTHING]: was a row
    inserted? *)
Definition insert_received (row : InboxMessage) : Tx bool :=
  existing <~ select (event_row (im_connection_id row) (im_event_id row));
  match existing with
  | Some _ =>
      execute (λ d, pg_bind (pg_check (inbox_messages_check row) OtherDatabaseError) (λ _, PgOk d));~
      tx_ret false
  | None =>
      execute (λ d, pg_bind (pg_check (bool_decide (inbox_messages (inbox d) !! im_inbox_id row = None))
                               (UniqueViolation "inbox_messages_pkey")) (λ _,
                    put_inbox_message row d));~
      tx_ret true
  end.

Definition receive_tx (inbox_id : uuid) (provider_connection_id event_id tenant_id : string)
    (event : ProviderWebhookEventData) (raw_body_sha256 : string) (received_at : instant) :
    Tx InboxMessage :=
  let new_row := received_row inbox_id provider_connection_id event_id tenant_id event
                   raw_body_sha256 received_at in
  inserted <~ insert_received new_row;
  if inserted : bool then tx_ret new_row
  else
    row <~ select (event_row provider_connection_id event_id);
    match row with
    | None => tx_raise IntegrationPersistenceError
    | Some row =>
        existing <~ tx_lift (inbox_from_row row);
        tx_lift (verify_inbox_exact_replay existing provider_connection_id event_id tenant_id
                   event raw_body_sha256);~
        tx_ret row
    end.

Definition receive_inbox_idempotently (inbox_id : uuid)
    (provider_connection_id event_id tenant_id : string) (event : ProviderWebhookEventData)
    (raw_body_sha256 : string) (received_at : instant) : M database InboxMessage :=
  row <- in_transaction IntegrationPersistenceError integration_errors
    (receive_tx inbox_id provider_connection_id event_id tenant_id event raw_body_sha256 received_at);
  lift (inbox_from_row row).

(** * Claiming *)

(** [ORDER BY available_at, received_at, inbox_id] *)
Definition inbox_due_before (a b : InboxMessage) : bool :=
  (im_available_at a <? im_available_at b)
  || ((im_available_at a =? im_available_at b)
      && negb (row_key_lt (im_received_at b, im_inbox_id b) (im_received_at a, im_inbox_id a))).
Definition inbox_due_le (a b : InboxMessage) : Prop := inbox_due_before a b = true.
#[export] Instance inbox_due_le_dec : RelDecision inbox_due_le.
Proof. intros a b. unfold inbox_due_le. apply _. Defined.

(** [status = 'received' AND attempts_in_cycle < 5 AND available_at <= clock_timestamp()] *)
Definition inbox_due (now : instant) (m : InboxMessage) : bool :=
  bool_decide (im_status m = ib_received) && (im_attempts_in_cycle m <? 5)
  && (im_available_at m <=? now).

Definition inbox_due_rows (locked : uuid → bool) (batch_size : Z) (now : instant) (d : database) :
    list InboxMessage :=
  take (Z.to_nat batch_size)
    (merge_sort inbox_due_le
       (filter (λ m, inbox_due now m = true ∧ locked (im_inbox_id m) = false)
          (rows (inbox_messages (inbox d))))).

Definition inbox_leased_row (lease_id : uuid) (worker_id : string) (expires_at updated_at : instant)
    (m : InboxMessage) : InboxMessage :=
  with_inbox_progress m ib_processing (im_processing_attempts m + 1) (im_attempts_in_cycle m + 1)
    (im_available_at m) (Some lease_id) (Some worker_id) (Some expires_at) (im_last_error_code m)
    (im_last_error_message m) updated_at (im_processed_at m) (im_failed_at m).

Definition open_inbox_attempt (attempt_id lease_id : uuid) (worker_id : string) (m : InboxMessage) :
    InboxProcessingAttempt :=
  mkInboxProcessingAttempt attempt_id (im_inbox_id m) (im_processing_cycle m)
    (im_processing_attempts m) lease_id worker_id (im_updated_at m) None None None None.

(** The body of the loop over the selected rows. *)
Definition claim_inbox_row (worker_id : string) (lease : Z) (row : InboxMessage) :
    Tx ClaimedInboxMessage :=
  lease_id <~ uuid4;
  attempt_id <~ uuid4;
  lease_now <~ clock_timestamp;
  updated_now <~ clock_timestamp;
  updated <~ update_inbox (im_inbox_id row)
    (λ m, bool_decide (im_status m = ib_received) && (im_attempts_in_cycle m <? 5))
    (inbox_leased_row lease_id worker_id (lease_now + lease) updated_now);
  match updated with
  | None => tx_raise LeaseConflictError
  | Some m =>
      execute (insert_inbox_attempt (open_inbox_attempt attempt_id lease_id worker_id m));~
      attempt <~ tx_lift (InboxProcessingAttempt_validate (open_inbox_attempt attempt_id lease_id worker_id m));
      payload <~ tx_lift (ProviderWebhookEventData_validate (im_payload m));
      tx_lift (ClaimedInboxMessage_validate (with_inbox_payload m payload) attempt)
  end.

Definition claim_inbox_tx (locked : uuid → bool) (worker_id : string) (batch_size lease : Z) :
    Tx (list ClaimedInboxMessage) :=
  now <~ clock_timestamp;
  selected <~ select (inbox_due_rows locked batch_size now);
  tx_for (claim_inbox_row worker_id lease) selected.

Definition claim_due_inbox (locked : uuid → bool) (worker_id : string) (batch_size : Z)
    (lease_seconds : float) : M database (list ClaimedInboxMessage) :=
  lease <- lift (validate_claim_parameters worker_id batch_size lease_seconds);
  in_transaction IntegrationPersistenceError integration_errors
    (claim_inbox_tx locked worker_id batch_size (micros lease)).

(** * Renewal *)

Definition inbox_renewed_row (expires_at updated_at : instant) (m : InboxMessage) : InboxMessage :=
  with_inbox_progress m (im_status m) (im_processing_attempts m) (im_attempts_in_cycle m)
    (im_available_at m) (im_lease_id m) (im_lease_owner m) (Some expires_at)
    (im_last_error_code m) (im_last_error_message m) updated_at (im_processed_at m)
    (im_failed_at m).

Definition renew_inbox_tx (inbox_id lease_id : uuid) (lease_owner : string) (lease : Z) : Tx bool :=
  now <~ clock_timestamp;
  lease_now <~ clock_timestamp;
  updated_now <~ clock_timestamp;
  updated <~ update_inbox inbox_id
    (λ m, inbox_lease lease_id lease_owner m
          && match im_lease_expires_at m with Some t => now <? t | None => false end)
    (inbox_renewed_row (lease_now + lease) updated_now);
  tx_ret (rowcount updated =? 1).

Definition renew_inbox_lease (inbox_id lease_id : uuid) (lease_owner : string)
    (lease_seconds : float) : M database bool :=
  lease <- lift (validate_claim_parameters lease_owner 1 lease_seconds);
  in_transaction IntegrationPersistenceError integration_errors
    (renew_inbox_tx inbox_id lease_id lease_owner (micros lease)).

(** * Recovery of expired leases *)

Definition inbox_lease_expired (now : instant) (m : InboxMessage) : bool :=
  bool_decide (im_status m = ib_processing)
  && match im_lease_expires_at m with Some t => t <? now | None => false end.

Definition expired_inbox_rows (locked : uuid → bool) (batch_size : Z) (now : instant) (d : database) :
    list InboxMessage :=
  take (Z.to_nat batch_size)
    (filter (λ m, inbox_lease_expired now m = true ∧ locked (im_inbox_id m) = false)
       (rows (inbox_messages (inbox d)))).

(** [WHERE inbox_id = %s AND lease_id = %s AND worker_id = %s AND finished_at IS NULL] *)
Definition open_inbox_attempts (row : InboxMessage) (d : database) : list InboxProcessingAttempt :=
  filter (λ a, ia_inbox_id a = im_inbox_id row ∧ Some (ia_lease_id a) = im_lease_id row ∧
               Some (ia_worker_id a) = im_lease_owner row ∧ ia_finished_at a = None)
    (rows (inbox_attempts (inbox d))).

Definition expired_inbox_attempt (now : instant) (a : InboxProcessingAttempt) : InboxProcessingAttempt :=
  finished_inbox_attempt a now ia_lease_expired (Some "lease_expired") (ia_safe_error_message a).

(** The two ways a recovered message goes on. *)
Definition exhausted_inbox_row (failed_at updated_at : instant) (m : InboxMessage) : InboxMessage :=
  with_inbox_progress m ib_failed (im_processing_attempts m) (im_attempts_in_cycle m)
    (im_available_at m) None None None (Some "lease_expired_attempts_exhausted")
    (im_last_error_message m) updated_at (im_processed_at m) (Some (inbox_not_before m failed_at)).
Definition recovered_inbox_row (available_at updated_at : instant) (m : InboxMessage) : InboxMessage :=
  with_inbox_progress m ib_received (im_processing_attempts m) (im_attempts_in_cycle m)
    available_at None None None (im_last_error_code m) (im_last_error_message m) updated_at
    (im_processed_at m) (im_failed_at m).

(** The body of the loop over the expired rows. *)
Definition recover_inbox_row (row : InboxMessage) : Tx unit :=
  now <~ clock_timestamp;
  matching <~ select (open_inbox_attempts row);
  match matching with
  | [a] => execute (put_inbox_attempt (expired_inbox_attempt now a))
  | _ => tx_raise LeaseConflictError
  end;~
  t0 <~ clock_timestamp;
  t1 <~ clock_timestamp;
  t2 <~ clock_timestamp;
  updated <~ update_inbox (im_inbox_id row)
    (λ m, bool_decide (im_lease_id m = im_lease_id row)
          && bool_decide (im_lease_owner m = im_lease_owner row) && inbox_lease_expired t0 m)
    (if 5 <=? im_attempts_in_cycle row then exhausted_inbox_row t1 t2 else recovered_inbox_row t1 t2);
  tx_raise_if (negb (rowcount updated =? 1)) LeaseConflictError.

Definition recover_inbox_tx (locked : uuid → bool) (batch_size : Z) : Tx Z :=
  execute (λ d, pg_bind (pg_check (0 <=? batch_size) OtherDatabaseError) (λ _, PgOk d));~
  now <~ clock_timestamp;
  selected <~ select (expired_inbox_rows locked batch_size now);
  recovered <~ tx_for recover_inbox_row selected;
  tx_ret (Z.of_nat (length recovered)).

Definition recover_expired_inbox_leases (locked : uuid → bool) (batch_size : Z) : M database Z :=
  in_transaction IntegrationPersistenceError integration_errors (recover_inbox_tx locked batch_size).

(** * Terminal failure and retry of a leased message *)

(** [ORDER BY attempt_number DESC LIMIT 1] *)
Definition latest_open_attempt (inbox_id lease_id : uuid) (d : database) : option InboxProcessingAttempt :=
  match filter (λ a, ia_inbox_id a = inbox_id ∧ ia_lease_id a = lease_id ∧ ia_finished_at a = None)
          (rows (inbox_attempts (inbox d))) with
  | [] => None
  | a :: l => Some (min_by (λ x, - ia_attempt_number x) a l)
  end.

Definition mark_failed_tx (inbox_id lease_id : uuid) (lease_owner : string)
    (error_code error_message : option string) : Tx unit :=
  row <~ select (latest_open_attempt inbox_id lease_id);
  match row with
  | None => tx_raise LeaseConflictError
  | Some a =>
      now <~ clock_timestamp;
      affected <~ finish_inbox_attempt (ia_attempt_id a) inbox_id lease_id lease_owner now
        ia_terminal_failure error_code error_message;
      tx_raise_if (negb (affected =? 1)) LeaseConflictError;~
      affected <~ mark_inbox_failed inbox_id lease_id lease_owner now error_code error_message;
      tx_raise_if (negb (affected =? 1)) LeaseConflictError
  end.

Definition repo_mark_inbox_failed (inbox_id lease_id : uuid) (lease_owner : string)
    (error_code error_message : option string) : M database unit :=
  in_transaction IntegrationPersistenceError integration_errors
    (mark_failed_tx inbox_id lease_id lease_owner error_code error_message).

Definition inbox_exhausted_code : option string := Some "inbox_attempts_exhausted".
Definition inbox_exhausted_message : option string := Some "Inbox processing attempts were exhausted.".

Definition inbox_retry_tx (inbox_id lease_id : uuid) (lease_owner : string) (attempt_id : uuid)
    (next_available_at : instant) (error_code error_message : option string) : Tx unit :=
  row <~ select (λ d, inbox_messages (inbox d) !! inbox_id);
  match row with
  | None => tx_raise LeaseConflictError
  | Some m =>
      tx_raise_if (negb (inbox_lease lease_id lease_owner m)) LeaseConflictError;~
      now <~ clock_timestamp;
      if 5 <=? im_attempts_in_cycle m then
        affected <~ finish_inbox_attempt attempt_id inbox_id lease_id lease_owner now
          ia_terminal_failure inbox_exhausted_code inbox_exhausted_message;
        tx_raise_if (negb (affected =? 1)) LeaseConflictError;~
        affected <~ mark_inbox_failed inbox_id lease_id lease_owner now inbox_exhausted_code
          inbox_exhausted_message;
        tx_raise_if (negb (affected =? 1)) LeaseConflictError
      else
        affected <~ finish_inbox_attempt attempt_id inbox_id lease_id lease_owner now
          ia_retry_scheduled error_code error_message;
        tx_raise_if (negb (affected =? 1)) LeaseConflictError;~
        affected <~ schedule_inbox_retry inbox_id lease_id lease_owner next_available_at now
          error_code error_message;
        tx_raise_if (negb (affected =? 1)) LeaseConflictError
  end.

Definition repo_schedule_inbox_retry (inbox_id lease_id : uuid) (lease_owner : string)
    (attempt_id : uuid) (next_available_at : instant) (error_code error_message : option string) :
    M database unit :=
  in_transaction IntegrationPersistenceError integration_errors
    (inbox_retry_tx inbox_id lease_id lease_owner attempt_id next_available_at error_code error_message).
