(* ===== verification/InboxFinalizer.v ===== *)
(** Applying provider callbacks: [integrations/inbox_policy.py],
    [integrations/inbox_finalizer.py] and [integrations/inbox_postgres_finalizer.py]. *)
From Stdlib Require Import QArith_base.
From S2P Require Import Prelude Effects OperationModels CaseModels Envelope InboxModels Retry Database Transactions Messaging CaseRepository OperationService OutboxWrites Finalization InboxWrites OutboxRepository InboxRepository.

(** * [inbox_policy.py] *)

Inductive InboxAction := act_apply | act_duplicate | act_stale | act_conflict.
Inductive OutboxReadiness := rd_ready | rd_retry | rd_dead.

#[export] Instance InboxAction_eq_dec : EqDecision InboxAction.
Proof. solve_decision. Defined.
#[export] Instance OutboxReadiness_eq_dec : EqDecision OutboxReadiness.
Proof. solve_decision. Defined.

Record InboxDecision := mkInboxDecision {
  id_action : InboxAction;
  id_target_status : option OperationRecordStatus;
}.

(** [_TARGETS] *)
Definition inbox_target (s : ProviderCommandExecutionStatus) : OperationRecordStatus :=
  match s with
  | px_accepted => os_submitted
  | px_processing => os_processing
  | px_completed => os_completed
  | px_rejected => os_rejected
  end.

Definition provider_reference_is_compatible (current incoming : option string) : bool :=
  bool_decide (current = None) || bool_decide (incoming = None) || bool_decide (current = incoming).

Definition decide_inbox_outbox_readiness (outbox_status : OutboxDeliveryStatus) : OutboxReadiness :=
  match outbox_status with
  | ob_pending | ob_processing | ob_retry_scheduled => rd_retry
  | ob_published => rd_ready
  | ob_dead => rd_dead
  end.

Definition decide_order_operation_callback (local_status : OperationRecordStatus)
    (provider_status : ProviderCommandExecutionStatus)
    (current_provider_reference incoming_provider_reference : option string) : InboxDecision :=
  if negb (provider_reference_is_compatible current_provider_reference incoming_provider_reference)
  then mkInboxDecision act_conflict None
  else
    let target := inbox_target provider_status in
    if bool_decide (local_status ∈ [os_pending_confirmation; os_queued; os_manual_review;
                                    os_cancelled_by_customer])
    then mkInboxDecision act_conflict None
    else if bool_decide (local_status = target) then mkInboxDecision act_duplicate (Some target)
    else
      match local_status with
      | os_submitted =>
          mkInboxDecision (if bool_decide (provider_status = px_accepted) then act_stale else act_apply)
            (Some target)
      | os_processing =>
          if bool_decide (provider_status = px_accepted) then mkInboxDecision act_stale (Some target)
          else if bool_decide (provider_status = px_processing)
               then mkInboxDecision act_duplicate (Some target)
               else mkInboxDecision act_apply (Some target)
      | os_completed =>
          if bool_decide (provider_status ∈ [px_accepted; px_processing])
          then mkInboxDecision act_stale (Some target) else mkInboxDecision act_conflict None
      | _ => mkInboxDecision act_conflict None
      end.

(** * [inbox_finalizer.py] *)

Inductive InboxFinalizationAction :=
  | fin_applied | fin_duplicate | fin_stale | fin_retry_scheduled | fin_failed.

#[export] Instance InboxFinalizationAction_eq_dec : EqDecision InboxFinalizationAction.
Proof. solve_decision. Defined.

Record InboxFinalizationResult := mkInboxResult {
  ir_action : InboxFinalizationAction;
  ir_aggregate_type : ProviderAggregateType;
  ir_previous_status : option OperationRecordStatus;
  ir_current_status : option OperationRecordStatus;
  ir_safe_error_code : option string;
}.

(** * The fence *)

(** [_lock_inbox]: the stored message and the time of the finalization. *)
Definition lock_inbox (claimed : ClaimedInboxMessage) : Tx (InboxMessage * instant) :=
  let c := ci_message claimed in
  let a := ci_attempt claimed in
  row <~ select (λ d, inbox_messages (inbox d) !! im_inbox_id c);
  now <~ clock_timestamp;
  match row with
  | None => tx_raise LeaseConflictError
  | Some row =>
      persisted <~ tx_lift (inbox_from_row row);
      tx_raise_if
        (bool_decide (im_status persisted ≠ ib_processing)
         || bool_decide (im_lease_id persisted ≠ im_lease_id c)
         || bool_decide (im_lease_owner persisted ≠ im_lease_owner c)
         || match im_lease_expires_at persisted with Some t => t <=? now | None => true end)
        LeaseConflictError;~
      attempt <~ select (λ d, inbox_attempts (inbox d) !! ia_attempt_id a);
      match attempt with
      | None => tx_raise LeaseConflictError
      | Some r =>
          tx_raise_if
            (bool_decide (ia_inbox_id r ≠ im_inbox_id c)
             || bool_decide (Some (ia_lease_id r) ≠ im_lease_id c)
             || bool_decide (Some (ia_worker_id r) ≠ im_lease_owner c)
             || bool_decide (is_Some (ia_finished_at r)))
            LeaseConflictError;~
          tx_raise_if
            (bool_decide (im_processing_cycle persisted ≠ im_processing_cycle c)
             || bool_decide (im_processing_attempts persisted ≠ im_processing_attempts c)
             || bool_decide (im_attempts_in_cycle persisted ≠ im_attempts_in_cycle c)
             || bool_decide (ia_processing_cycle r ≠ im_processing_cycle persisted)
             || bool_decide (ia_processing_cycle r ≠ ia_processing_cycle a)
             || bool_decide (ia_attempt_number r ≠ im_processing_attempts persisted)
             || bool_decide (ia_attempt_number r ≠ ia_attempt_number a)
             || bool_decide (ia_attempt_id r ≠ ia_attempt_id a)
             || bool_decide (ia_inbox_id r ≠ im_inbox_id persisted)
             || bool_decide (Some (ia_lease_id r) ≠ im_lease_id persisted)
             || bool_decide (Some (ia_worker_id r) ≠ im_lease_owner persisted))
            LeaseConflictError;~
          tx_ret (persisted, Z.max (Z.max now (im_received_at persisted))
                               (Z.max (im_updated_at persisted) (ia_started_at r)))
      end
  end.

(** [_payload_association_matches] *)
Definition payload_association_matches (inbox : InboxMessage) : bool :=
  bool_decide (im_command_id inbox = wd_command_id (im_payload inbox))
  && bool_decide (im_aggregate_type inbox = wd_aggregate_type (im_payload inbox))
  && bool_decide (im_aggregate_id inbox = wd_aggregate_id (im_payload inbox)).

(** [_claimed_business_fields_match] *)
Definition claimed_business_fields_match (claimed : ClaimedInboxMessage) (inbox : InboxMessage) : bool :=
  let c := ci_message claimed in
  bool_decide (im_command_id c = im_command_id inbox)
  && bool_decide (im_tenant_id c = im_tenant_id inbox)
  && bool_decide (im_connection_id c = im_connection_id inbox)
  && bool_decide (im_aggregate_type c = im_aggregate_type inbox)
  && bool_decide (im_aggregate_id c = im_aggregate_id inbox)
  && bool_decide (im_payload c = im_payload inbox).

(** * Closing the lease *)

Section Finalizer.
Context (claimed : ClaimedInboxMessage) (lease_id : uuid) (lease_owner : string).

Let c := ci_message claimed.
Let attempt_id := ia_attempt_id (ci_attempt claimed).

(** [_process] *)
Definition process_inbox (now : instant) : Tx unit :=
  affected <~ finish_inbox_attempt attempt_id (im_inbox_id c) lease_id lease_owner now ia_processed
    None None;
  tx_raise_if (negb (affected =? 1)) LeaseConflictError;~
  affected <~ mark_inbox_processed (im_inbox_id c) lease_id lease_owner now;
  tx_raise_if (negb (affected =? 1)) LeaseConflictError.

(** [_fail] *)
Definition fail_inbox (now : instant) (code : string) (ag : ProviderAggregateType) :
    Tx InboxFinalizationResult :=
  let message := Some "Provider webhook could not be applied." in
  affected <~ finish_inbox_attempt attempt_id (im_inbox_id c) lease_id lease_owner now
    ia_terminal_failure (Some code) message;
  tx_raise_if (negb (affected =? 1)) LeaseConflictError;~
  affected <~ mark_inbox_failed (im_inbox_id c) lease_id lease_owner now (Some code) message;
  tx_raise_if (negb (affected =? 1)) LeaseConflictError;~
  tx_ret (mkInboxResult fin_failed ag None None (Some code)).

(** [_retry_or_fail] *)
Definition retry_or_fail (attempts_in_cycle : Z) (now available_at : instant)
    (ag : ProviderAggregateType) : Tx InboxFinalizationResult :=
  if 5 <=? attempts_in_cycle then fail_inbox now "outbox_not_finalized_attempts_exhausted" ag
  else
    let code := Some "outbox_not_finalized" in
    let message := Some "Provider command is not finalized." in
    affected <~ finish_inbox_attempt attempt_id (im_inbox_id c) lease_id lease_owner now
      ia_retry_scheduled code message;
    tx_raise_if (negb (affected =? 1)) LeaseConflictError;~
    affected <~ schedule_inbox_retry (im_inbox_id c) lease_id lease_owner available_at now code message;
    tx_raise_if (negb (affected =? 1)) LeaseConflictError;~
    tx_ret (mkInboxResult fin_retry_scheduled ag None None code).

(** [isinstance(outbox.payload, ...)] for the aggregate's payload class. *)
Definition payload_of_aggregate (ag : ProviderAggregateType) (p : ProviderCommandPayload) : bool :=
  match ag, p with
  | ag_order_operation, OrderPayload _ | ag_support_case, DeliveryPayload _ => true
  | _, _ => false
  end.

Definition outbox_association_matches (inbox : InboxMessage) (outbox : OutboxMessage)
    (envelope : ProviderCommandEnvelope) : bool :=
  bool_decide (om_tenant_id outbox = im_tenant_id inbox)
  && bool_decide (om_connection_id outbox = im_connection_id inbox)
  && bool_decide (om_aggregate_type outbox = im_aggregate_type inbox)
  && bool_decide (om_aggregate_id outbox = im_aggregate_id inbox)
  && bool_decide (om_command_id outbox = im_command_id inbox)
  && bool_decide (e_command_id envelope = im_command_id inbox).

(** The checks both finalizers begin with; [apply] is what they do with a callback whose
    command has been finalized. *)
Definition checked_callback (ag : ProviderAggregateType) (retry_available_at : instant)
    (apply : InboxMessage → OutboxMessage → OutboxReadiness → instant → Tx InboxFinalizationResult) :
    Tx InboxFinalizationResult :=
  locked <~ lock_inbox claimed;
  let '(inbox_row, now) := locked in
  tx_raise_if (bool_decide (im_aggregate_type inbox_row ≠ ag))
    (ValueError match ag with
                | ag_order_operation => "order-operation finalizer requires order_operation Inbox"
                | ag_support_case => "support-case finalizer requires support_case Inbox"
                end);~
  if negb (payload_association_matches inbox_row)
  then fail_inbox now "inbox_payload_association_mismatch" ag
  else
    tx_raise_if (negb (claimed_business_fields_match claimed inbox_row)) LeaseConflictError;~
    outbox_row <~ select (λ d, outbox_messages d !! im_command_id inbox_row);
    match outbox_row with
    | None => fail_inbox now "outbox_not_found" ag
    | Some outbox_row =>
        outbox <~ tx_lift (outbox_from_row outbox_row);
        if negb (payload_of_aggregate ag (om_payload outbox))
        then fail_inbox now "outbox_association_mismatch" ag
        else
          envelope <~ tx_lift (to_envelope outbox);
          if negb (outbox_association_matches inbox_row outbox envelope)
          then fail_inbox now "outbox_association_mismatch" ag
          else
            let readiness := decide_inbox_outbox_readiness (om_status outbox) in
            if bool_decide (readiness = rd_retry) then
              tx_raise_if (retry_available_at <=? now)
                (ValueError "retry_available_at must be aware and later than database time");~
              retry_or_fail (im_attempts_in_cycle inbox_row) now retry_available_at ag
            else apply inbox_row outbox readiness now
    end.

(** * Order operations *)

(** [event.provider_reference or event.provider_operation_id] *)
Definition incoming_reference (event : ProviderWebhookEventData) : option string :=
  ref_or (wd_provider_reference event) (wd_provider_operation_id event).

Definition operation_association_matches (inbox : InboxMessage) (outbox : OutboxMessage)
    (operation : OrderOperation) : bool :=
  bool_decide (oo_tenant_id operation = im_tenant_id inbox)
  && bool_decide (oo_customer_id operation = om_customer_id outbox)
  && bool_decide (oo_operation_id operation = om_aggregate_id outbox)
  && bool_decide (oo_order_id operation = payload_order_id (om_payload outbox))
  && match om_payload outbox with
     | OrderPayload p => bool_decide (oo_operation_type operation = op_operation_type p)
     | DeliveryPayload _ => false
     end
  && bool_decide (Some (oo_order_version operation) = om_expected_order_version outbox)
  && bool_decide (oo_source_message_id operation = om_source_message_id outbox)
  && match wd_order_id (im_payload inbox) with
     | Some i => bool_decide (i = oo_order_id operation) | None => true end.

(** The columns a callback rewrites. *)
Definition callback_row (o : OrderOperation) (status : OperationRecordStatus)
    (reference : option string) (now : instant) (version : Z) : OrderOperation :=
  finalized_row o (oo_requires_manual_review o) (oo_review_case_type o) (oo_review_priority o)
    (oo_support_case_id o) reference status now version.

Definition webhook_key (inbox_id : uuid) (suffix : string) : string :=
  "provider-webhook:" +:+ uuid_str inbox_id +:+ ":" +:+ suffix.

Definition callback_event (event_id : uuid) (operation : OrderOperation)
    (target : OperationRecordStatus) (reference : option string) (now : instant) : OrderOperationEvent :=
  mkOrderOperationEvent event_id (webhook_key (im_inbox_id c) "operation-status")
    (oo_operation_id operation) oe_status_changed (Some (oo_status operation)) (Some target)
    reference None "system" (oo_customer_id operation) (oo_tenant_id operation) now.

(** [decision.action == "apply"] *)
Definition apply_decision (operation : OrderOperation) (target : OperationRecordStatus)
    (incoming : option string) (now : instant) : Tx InboxFinalizationResult :=
  let reference := ref_or incoming (oo_provider_reference operation) in
  updated <~ update_operation_where (oo_operation_id operation) (oo_version operation)
    (λ o, callback_row o target reference now (oo_version operation + 1));
  tx_raise_if (negb (rowcount updated =? 1)) LeaseConflictError;~
  event_id <~ uuid4;
  event <~ tx_lift (OrderOperationEvent_validate (callback_event event_id operation target reference now));
  execute (insert_operation_event event);~
  process_inbox now;~
  tx_ret (mkInboxResult fin_applied ag_order_operation (Some (oo_status operation)) (Some target) None).

(** A duplicate or a stale callback; a duplicate may bring the reference that was missing. *)
Definition settle_decision (operation : OrderOperation) (action : InboxAction)
    (incoming : option string) (now : instant) : Tx InboxFinalizationResult :=
  (if bool_decide (action = act_duplicate) && bool_decide (oo_provider_reference operation = None)
      && bool_decide (is_Some incoming) then
     updated <~ update_operation_where (oo_operation_id operation) (oo_version operation)
       (λ o, callback_row o (oo_status o) incoming now (oo_version operation + 1));
     tx_raise_if (negb (rowcount updated =? 1)) LeaseConflictError
   else tx_ret tt);~
  process_inbox now;~
  tx_ret (mkInboxResult (if bool_decide (action = act_duplicate) then fin_duplicate else fin_stale)
            ag_order_operation (Some (oo_status operation)) (Some (oo_status operation)) None).

Definition conflict_code (operation : OrderOperation) (incoming : option string) : string :=
  match oo_provider_reference operation, incoming with
  | Some a, Some b =>
      if nonempty a && nonempty b && bool_decide (a ≠ b)
      then "provider_reference_conflict" else "terminal_status_conflict"
  | _, _ => "terminal_status_conflict"
  end.

Definition apply_operation_callback (inbox_row : InboxMessage) (outbox : OutboxMessage)
    (readiness : OutboxReadiness) (now : instant) : Tx InboxFinalizationResult :=
  row <~ select (λ d, order_operations d !! im_aggregate_id inbox_row);
  match row with
  | None => fail_inbox now "operation_not_found" ag_order_operation
  | Some row =>
      operation <~ tx_lift (OrderOperation_validate row);
      if negb (operation_association_matches inbox_row outbox operation)
      then fail_inbox now "order_association_mismatch" ag_order_operation
      else
        let event := im_payload inbox_row in
        let incoming := incoming_reference event in
        let decision := decide_order_operation_callback (oo_status operation)
                          (wd_command_status event) (oo_provider_reference operation) incoming in
        if bool_decide (id_action decision = act_conflict)
        then fail_inbox now (conflict_code operation incoming) ag_order_operation
        else if bool_decide (readiness = rd_dead) && bool_decide (id_action decision ≠ act_duplicate)
        then fail_inbox now "terminal_status_conflict" ag_order_operation
        else
          match id_action decision, id_target_status decision with
          | act_apply, Some target => apply_decision operation target incoming now
          | act_apply, None => tx_raise AssertionError
          | action, _ => settle_decision operation action incoming now
          end
  end.

(** * Delivery investigations *)

Definition case_association_matches (inbox : InboxMessage) (outbox : OutboxMessage)
    (case : SupportCase) : bool :=
  bool_decide (c_tenant_id case = im_tenant_id inbox)
  && bool_decide (c_customer_id case = om_customer_id outbox)
  && bool_decide (c_case_id case = om_aggregate_id outbox)
  && bool_decide (c_case_type case = ct_delivery_investigation)
  && bool_decide (c_order_id case = Some (payload_order_id (om_payload outbox)))
  && bool_decide (c_source_message_id case = om_source_message_id outbox)
  && match wd_order_id (im_payload inbox) with
     | Some i => bool_decide (Some i = c_order_id case) | None => true end.

Definition provider_update_event (event_id : uuid) (inbox : InboxMessage) (case : SupportCase)
    (now : instant) : SupportCaseEvent :=
  mkSupportCaseEvent event_id (webhook_key (im_inbox_id inbox) "case-provider-update")
    (c_case_id case) ev_provider_update None None None [] [] "" None None None None None None None
    (Some (im_command_id inbox)) (Some (wd_command_status (im_payload inbox)))
    (incoming_reference (im_payload inbox)) None (Some "system") (c_customer_id case)
    (c_tenant_id case) now.

Definition apply_case_callback (inbox_row : InboxMessage) (outbox : OutboxMessage)
    (_ : OutboxReadiness) (now : instant) : Tx InboxFinalizationResult :=
  row <~ select (λ d, support_cases d !! im_aggregate_id inbox_row);
  match row with
  | None => fail_inbox now "case_not_found" ag_support_case
  | Some row =>
      case <~ tx_lift (SupportCase_validate row);
      if negb (case_association_matches inbox_row outbox case)
      then fail_inbox now "support_case_association_mismatch" ag_support_case
      else
        event_id <~ uuid4;
        event <~ tx_lift (SupportCaseEvent_validate (provider_update_event event_id inbox_row case now));
        execute (insert_case_event event);~
        process_inbox now;~
        tx_ret (mkInboxResult fin_applied ag_support_case None None None)
  end.
End Finalizer.

(** * The finalizers *)

Definition with_inbox_lease {A} (claimed : ClaimedInboxMessage) (t : uuid → string → Tx A) : M database A :=
  match im_lease_id (ci_message claimed), im_lease_owner (ci_message claimed) with
  | Some lease_id, Some lease_owner =>
      in_transaction IntegrationPersistenceError integration_errors (t lease_id lease_owner)
  | _, _ => raise LeaseConflictError
  end.

Definition finalize_order_operation (claimed : ClaimedInboxMessage) (retry_available_at : instant) :
    M database InboxFinalizationResult :=
  with_inbox_lease claimed (λ l w, checked_callback claimed l w ag_order_operation retry_available_at
    (apply_operation_callback claimed l w)).

Definition finalize_support_case (claimed : ClaimedInboxMessage) (retry_available_at : instant) :
    M database InboxFinalizationResult :=
  with_inbox_lease claimed (λ l w, checked_callback claimed l w ag_support_case retry_available_at
    (apply_case_callback claimed l w)).

(** * The callback worker

    The inbox worker: [integrations/inbox_worker.py].  The items of a batch run as concurrent
    tasks: here they run one after the other, and what a sibling commits in between is
    interference like any other worker's. *)

Record InboxWorkerRunResult := mkInboxRunResult {
  iw_claimed : Z;
  iw_applied : Z;
  iw_duplicates : Z;
  iw_stale : Z;
  iw_retried : Z;
  iw_failed : Z;
  iw_lease_conflicts : Z;
  iw_errors : Z;
}.

Definition run_errors : InboxWorkerRunResult := mkInboxRunResult 0 0 0 0 0 0 0 1.
Definition run_conflicts : InboxWorkerRunResult := mkInboxRunResult 0 0 0 0 0 0 1 0.

(** [_merge] *)
Definition inbox_merge (left right : InboxWorkerRunResult) : InboxWorkerRunResult :=
  mkInboxRunResult (iw_claimed left) (iw_applied left + iw_applied right)
    (iw_duplicates left + iw_duplicates right) (iw_stale left + iw_stale right)
    (iw_retried left + iw_retried right) (iw_failed left + iw_failed right)
    (iw_lease_conflicts left + iw_lease_conflicts right) (iw_errors left + iw_errors right).

(** The counter of an action. *)
Definition action_counter (a : InboxFinalizationAction) : InboxWorkerRunResult :=
  match a with
  | fin_applied => mkInboxRunResult 0 1 0 0 0 0 0 0
  | fin_duplicate => mkInboxRunResult 0 0 1 0 0 0 0 0
  | fin_stale => mkInboxRunResult 0 0 0 1 0 0 0 0
  | fin_retry_scheduled => mkInboxRunResult 0 0 0 0 1 0 0 0
  | fin_failed => mkInboxRunResult 0 0 0 0 0 1 0 0
  end.

(** [_result_counter] *)
Definition result_counter (claimed : ClaimedInboxMessage) (result : InboxFinalizationResult) :
    InboxWorkerRunResult :=
  if bool_decide (ir_aggregate_type result ≠ im_aggregate_type (ci_message claimed)) then run_errors
  else action_counter (ir_action result).

(** How the renewal timer interleaves with a finalizer: the renewals that complete before
    the finalizer's transaction, whether one more is in flight when it commits, and whether
    the finalizer's task is already seen as done when that one comes back. *)
Record renewal_race := mkRace {
  race_before : nat;
  race_during : bool;
  race_seen_done : bool;
}.

Section Worker.
Context (worker_id : string) (batch_size : Z) (lease_seconds : float) (retry_delay : Q).
Context (races : ClaimedInboxMessage → renewal_race) (locked : uuid → bool).

(** Renewals that come back before the finalizer is done: a lost lease cancels it. *)
Fixpoint renew_inbox_while (n : nat) (inbox_id lease_id : uuid) (lease_owner : string) :
    M database unit :=
  match n with
  | O => ret tt
  | S n' =>
      renewed <- renew_inbox_lease inbox_id lease_id lease_owner lease_seconds;
      if renewed : bool then renew_inbox_while n' inbox_id lease_id lease_owner
      else raise LeaseConflictError
  end.

(** [_finalize_with_lease_renewal]: a renewal refused because the finalizer has just
    committed does not discard the result of a task that is done. *)
Definition finalize_with_lease_renewal (claimed : ClaimedInboxMessage)
    (operation : M database InboxFinalizationResult) : M database InboxFinalizationResult :=
  let c := ci_message claimed in
  match im_lease_id c, im_lease_owner c with
  | Some lease_id, Some lease_owner =>
      let race := races claimed in
      renew_inbox_while (race_before race) (im_inbox_id c) lease_id lease_owner;,
      result <- outcome_of operation;
      (if race_during race then
         renewed <- renew_inbox_lease (im_inbox_id c) lease_id lease_owner lease_seconds;
         if (renewed : bool) || race_seen_done race then ret tt else raise LeaseConflictError
       else ret tt);,
      lift result
  | _, _ => raise AssertionError
  end.

(** [_process] *)
Definition process_callback (claimed : ClaimedInboxMessage) : M database InboxWorkerRunResult :=
  at_ <- now;
  retry_available_at <- lift (add_seconds at_ retry_delay);
  try_except
    (result <- finalize_with_lease_renewal claimed
       (match im_aggregate_type (ci_message claimed) with
        | ag_order_operation => finalize_order_operation claimed retry_available_at
        | ag_support_case => finalize_support_case claimed retry_available_at
        end);
     ret (result_counter claimed result))
    (λ e, Some (ret (if bool_decide (e = LeaseConflictError) then run_conflicts else run_errors))).

(** [_gather_batch]: the first exception of a task is raised, the others finish or are
    cancelled. *)
Fixpoint gather_callbacks (claimed : list ClaimedInboxMessage) : M database (list InboxWorkerRunResult) :=
  match claimed with
  | [] => ret []
  | c :: claimed' =>
      r <- process_callback c;
      rs <- gather_callbacks claimed';
      ret (r :: rs)
  end.

Definition inbox_run_once : M database InboxWorkerRunResult :=
  claimed <- claim_due_inbox locked worker_id batch_size lease_seconds;
  results <- gather_callbacks claimed;
  ret (fold_left inbox_merge results
         (mkInboxRunResult (Z.of_nat (length claimed)) 0 0 0 0 0 0 0)).

(** One round of [run_forever]. *)
Definition inbox_round (recovery_due : bool) : M database InboxWorkerRunResult :=
  (if recovery_due then
     recover_expired_inbox_leases locked batch_size;, ret tt
   else ret tt);,
  inbox_run_once.
End Worker.
