(* ===== verification/Webhook.v ===== *)
(** Inbound webhooks: the envelope of [integrations/models.py], its verification in
    [integrations/webhook_adapter.py] and the route of [integrations/webhook_router.py].  What
    reads the JSON body into typed fields ([json.loads], pydantic) is a parameter; the
    connections are those of the webhook resolver. *)
From Stdlib Require Import QArith Qabs Lqa.
From S2P Require Import Prelude Effects OperationModels CaseModels Calendar Hmac Envelope InboxModels Retry Connections Database InboxRepository.

(** * Signatures

    Webhook signatures: [integrations/signing.py].  SHA-256, HMAC and the calendar are those
    of [Hmac] and [Calendar]; the type checks of the code are the types of its arguments. *)

Definition DEFAULT_VALIDITY_WINDOW_SECONDS : Q := 300.

(** [_SIGNATURE_PATTERN] *)
Definition signature_shape (s : string) : bool :=
  all_chars is_lower_hex s && (String.length s =? 64)%nat.

(** [_require_aware] *)
Definition require_aware (value : datetime) (name : string) : res instant :=
  match value with
  | Aware t => Ok t
  | Naive _ => Err (ValueError (name +:+ " must be timezone-aware"))
  end.

(** [_require_secret] *)
Definition require_secret (secret : bytes) : res unit :=
  raise_if (bool_decide (secret = [])) (ValueError "secret must not be empty").

(** [timedelta.total_seconds()]: the double nearest to a number of microseconds over 10^6. *)
Definition total_seconds (microseconds : Z) : Q :=
  let n := Z.abs microseconds in
  let d := microseconds_per_second in
  let estimate := Z.log2 n - Z.log2 d in
  let exponent := if n * 2 ^ Z.max 0 (- estimate) <? d * 2 ^ Z.max 0 estimate
                  then estimate - 1 else estimate in
  let shift := 52 - exponent in
  let mantissa := round_half_even (n * 2 ^ Z.max 0 shift # Z.to_pos (d * 2 ^ Z.max 0 (- shift))) in
  if n =? 0 then 0%Q
  else (Z.sgn microseconds * mantissa * 2 ^ Z.max 0 (- shift) # Z.to_pos (2 ^ Z.max 0 shift)).

Section Signing.
(** The text of a year below 1000. *)
Context (early_year : Z → string).

Definition format_timestamp (timestamp : datetime) : res string :=
  let* t := require_aware timestamp "timestamp" in
  Ok (strftime early_year t).

Definition build_canonical_payload (timestamp : datetime) (event_id : string) (raw_body : bytes) :
    res bytes :=
  raise_if (negb (nonempty (strip event_id))) (ValueError "event_id must not be empty");;;
  let* formatted := format_timestamp timestamp in
  Ok (encode (formatted +:+ "." +:+ event_id +:+ ".") ++ raw_body).

Definition compute_signature (secret : bytes) (timestamp : datetime) (event_id : string)
    (raw_body : bytes) : res string :=
  require_secret secret;;;
  let* payload := build_canonical_payload timestamp event_id raw_body in
  Ok (hexdigest (hmac_sha256 secret payload)).

Definition signature_is_valid (secret : bytes) (timestamp : datetime) (event_id : string)
    (raw_body : bytes) (signature : string) (now : datetime) (max_age_seconds : float) : res bool :=
  let* t := require_aware timestamp "timestamp" in
  let* n := require_aware now "now" in
  require_secret secret;;;
  match max_age_seconds with
  | NotFinite => Err (ValueError "max_age_seconds must be a finite positive number")
  | Finite max_age =>
      raise_if (Qle_bool max_age 0) (ValueError "max_age_seconds must be a finite positive number");;;
      if negb (signature_shape signature) then Ok false
      else
        let* expected := compute_signature secret timestamp event_id raw_body in
        if negb (String.eqb expected signature) then Ok false
        else
          let age := Qabs (total_seconds (n - t)) in
          Ok (Qle_bool age max_age)
  end.
End Signing.

(** * Properties *)

Lemma hex_signature_shape secret payload :
  signature_shape (hexdigest (hmac_sha256 secret payload)) = true.
Proof.
  unfold signature_shape. rewrite hexdigest_lower, hexdigest_length. unfold hmac_sha256.
  by rewrite sha256_length.
Qed.

Section Facts.
Context (early_year : Z → string).

Lemma build_canonical_payload_aware t event_id raw_body :
  nonempty (strip event_id) = true →
  build_canonical_payload early_year (Aware t) event_id raw_body =
    Ok (encode (strftime early_year t +:+ "." +:+ event_id +:+ ".") ++ raw_body).
Proof. intros He. unfold build_canonical_payload. by rewrite He. Qed.

(** The check, where its arguments are well formed: the signature is the one the secret gives,
    and the timestamp is within the window. *)
Lemma signature_is_valid_aware secret t event_id raw_body signature n max_age payload :
  secret ≠ [] → Qle_bool max_age 0 = false →
  build_canonical_payload early_year (Aware t) event_id raw_body = Ok payload →
  signature_is_valid early_year secret (Aware t) event_id raw_body signature (Aware n) (Finite max_age) =
    Ok (bool_decide (signature = hexdigest (hmac_sha256 secret payload))
        && Qle_bool (Qabs (total_seconds (n - t))) max_age).
Proof.
  intros Hs Hw Hp. unfold signature_is_valid, compute_signature, require_secret, require_aware. cbn [res_bind].
  rewrite (bool_decide_eq_false_2 _ Hs), Hp. cbn [raise_if res_bind]. rewrite Hw. cbn [raise_if res_bind].
  destruct (signature_shape signature) eqn:Hsh; cbn [negb].
  - destruct (String.eqb_spec (hexdigest (hmac_sha256 secret payload)) signature) as [E|E]; cbn [negb].
    + by rewrite bool_decide_eq_true_2.
    + rewrite bool_decide_eq_false_2; [done|congruence].
  - rewrite bool_decide_eq_false_2; [done|]. intros ->. by rewrite hex_signature_shape in Hsh.
Qed.

(** What a text without dots contributes to the payload can be read back from it. *)
Lemma dotted_prefix_inj a a' b b' :
  has_char "." a = false → has_char "." a' = false →
  encode (a +:+ ".") ++ b = encode (a' +:+ ".") ++ b' → a = a' ∧ b = b'.
Proof.
  intros Ha Ha'. rewrite !encode_app, <- !app_assoc. cbn [app]. intros H.
  apply list_sep_inj in H as [H1 H2]; [by apply encode_inj in H1|apply (encode_has_char "."); done..].
Qed.

Lemma strftime_no_dot t :
  in_calendar t → 1000 ≤ cv_year (civil_of t) → has_char "." (strftime early_year t) = false.
Proof.
  intros Ht Hy. pose proof (civil_of_ok t Ht) as Hok. unfold civil_ok in Hok. bools.
  pose proof (days_in_month_bound (cv_year (civil_of t)) (cv_month (civil_of t))).
  unfold strftime, year_text. rewrite (proj2 (Z.leb_le _ _) Hy).
  rewrite !has_char_app, has_char_digits4, !has_char_digits2 by (done || lia). done.
Qed.

Lemma strftime_inj t t' :
  in_calendar t → in_calendar t' → 1000 ≤ cv_year (civil_of t) → 1000 ≤ cv_year (civil_of t') →
  strftime early_year t = strftime early_year t' →
  t / microseconds_per_second = t' / microseconds_per_second.
Proof.
  intros Ht Ht' Hy Hy' H. apply (f_equal strptime) in H. rewrite !strptime_strftime in H by done.
  injection H as H. unfold seconds, microseconds_per_second in *. lia.
Qed.

Lemma payload_shape t event_id raw_body p :
  build_canonical_payload early_year (Aware t) event_id raw_body = Ok p →
  p = encode (strftime early_year t +:+ ".") ++ encode (event_id +:+ ".") ++ raw_body.
Proof.
  unfold build_canonical_payload. intros H. inv_ok. unfold format_timestamp in *. cbn in *. inv_ok.
  by rewrite !encode_app, <- !app_assoc.
Qed.
End Facts.

(** * The validity window *)

Lemma round_half_even_le n d k : 0 < d → n ≤ k * d → round_half_even (n # Z.to_pos d) ≤ k.
Proof.
  intros Hd Hn. unfold round_half_even. cbn [Qnum Qden]. rewrite Z2Pos.id by done. cbv zeta.
  pose proof (Z.div_mod n d ltac:(lia)) as E. pose proof (Z.mod_pos_bound n d Hd) as B.
  set (q := n / d) in *. set (r := n mod d) in *.
  assert (q ≤ k) by nia. assert (q = k → r = 0) by nia.
  repeat case_match; lia.
Qed.

Lemma round_half_even_ge n d k : 0 < d → k * d ≤ n → k ≤ round_half_even (n # Z.to_pos d).
Proof.
  intros Hd Hn. unfold round_half_even. cbn [Qnum Qden]. rewrite Z2Pos.id by done. cbv zeta.
  pose proof (Z.div_mod n d ltac:(lia)) as E. pose proof (Z.mod_pos_bound n d Hd) as B.
  set (q := n / d) in *. set (r := n mod d) in *.
  assert (k ≤ q) by nia. repeat case_match; lia.
Qed.

(** The shift [total_seconds] scales by, when the value is not zero. *)
Definition seconds_shift (n : Z) : Z :=
  let d := microseconds_per_second in
  let estimate := Z.log2 n - Z.log2 d in
  52 - (if n * 2 ^ Z.max 0 (- estimate) <? d * 2 ^ Z.max 0 estimate then estimate - 1 else estimate).

Lemma seconds_shift_ge n k : 0 < n < 2 ^ k → 0 ≤ k → 72 - k ≤ seconds_shift n.
Proof.
  intros Hn Hk. unfold seconds_shift. cbv zeta.
  pose proof (proj1 (Z.log2_lt_pow2 n k ltac:(lia)) ltac:(lia)) as Hl.
  change (Z.log2 microseconds_per_second) with 19. case_match; lia.
Qed.

Lemma total_seconds_abs n shift :
  n ≠ 0 → shift = seconds_shift (Z.abs n) → 0 ≤ shift →
  Qabs (total_seconds n) ==
    (round_half_even (Z.abs n * 2 ^ shift # Z.to_pos microseconds_per_second) # Z.to_pos (2 ^ shift)).
Proof.
  intros Hn -> Hs. unfold total_seconds. fold (seconds_shift (Z.abs n)). cbv zeta.
  set (s := seconds_shift (Z.abs n)) in *. rewrite (proj2 (Z.eqb_neq (Z.abs n) 0)) by lia.
  replace (Z.max 0 s) with s by lia. replace (Z.max 0 (- s)) with 0 by lia.
  change (2 ^ 0) with 1. rewrite !Z.mul_1_r.
  set (m := round_half_even _). assert (0 ≤ m).
  { apply round_half_even_ge; [done|]. pose proof (Z.pow_nonneg 2 s). lia. }
  unfold Qabs, Qeq. cbn [Qnum Qden]. rewrite Z.abs_mul. f_equal.
  destruct (Z.lt_trichotomy n 0) as [H'|[H'|H']]; [rewrite Z.sgn_neg by done|lia|rewrite Z.sgn_pos by done]; lia.
Qed.

(** For a window of whole seconds the comparison of doubles is exact. *)
Lemma whole_window_exact n window :
  Z.abs n < 2 ^ 72 → 0 ≤ window ≤ 2 ^ 31 →
  Qle_bool (Qabs (total_seconds n)) (inject_Z window) = (Z.abs n <=? seconds window).
Proof.
  intros Hn Hw. destruct (Z.eq_dec n 0) as [->|Hn0].
  { cbn. by destruct window. }
  set (d := microseconds_per_second). set (s := seconds_shift (Z.abs n)).
  assert (Hs : 0 ≤ s) by (pose proof (seconds_shift_ge (Z.abs n) 72); lia).
  rewrite (total_seconds_abs n s) by done. fold d. set (m := round_half_even _).
  assert (Hp : 0 < 2 ^ s) by (apply Z.pow_pos_nonneg; lia).
  assert (Hcmp : Qle_bool (m # Z.to_pos (2 ^ s)) (inject_Z window) = (m <=? window * 2 ^ s)).
  { unfold Qle_bool. cbn [Qnum Qden inject_Z]. rewrite Z2Pos.id by done. f_equal; lia. }
  rewrite Hcmp. unfold seconds. fold d. apply eq_iff_eq_true. rewrite !Z.leb_le. split.
  - intros Hm. apply Z.le_ngt. intros Hgt. revert Hm. apply Z.lt_nge.
    destruct (Z.le_gt_cases ((window + 1) * d) (Z.abs n)) as [Hbig|Hsmall].
    + apply Z.lt_le_trans with ((window + 1) * 2 ^ s); [nia|].
      apply round_half_even_ge; [done|]. nia.
    + assert (H20 : 2 ^ 20 ≤ 2 ^ s).
      { apply Z.pow_le_mono_r; [done|].
        pose proof (seconds_shift_ge (Z.abs n) 52). unfold d, microseconds_per_second in *. lia. }
      apply Z.lt_le_trans with (window * 2 ^ s + 1); [lia|].
      apply round_half_even_ge; [done|]. fold d. unfold d, microseconds_per_second in *. nia.
  - intros Hle. apply round_half_even_le; [done|]. nia.
Qed.

(** * [ProviderWebhookEnvelope] *)

Record ProviderWebhookEnvelope := mkWebhookEnvelope {
  we_schema_version : Z;
  we_event_id : string;
  we_provider_connection_id : string;
  we_tenant_id : string;
  we_timestamp : instant;
  we_event_type : ProviderWebhookEventType;
  we_data : ProviderWebhookEventData;
}.

Definition ProviderWebhookEnvelope_validate (e : ProviderWebhookEnvelope) : res ProviderWebhookEnvelope :=
  let* data := validating "ProviderWebhookEnvelope" (ProviderWebhookEventData_validate (we_data e)) in
  let e := mkWebhookEnvelope (we_schema_version e) (strip (we_event_id e))
             (strip (we_provider_connection_id e)) (strip (we_tenant_id e)) (we_timestamp e)
             (we_event_type e) data in
  raise_if (negb ((we_schema_version e =? 1) && nonempty (we_event_id e)
                  && nonempty (we_provider_connection_id e) && nonempty (we_tenant_id e)))
    (ValidationError "ProviderWebhookEnvelope");;;
  Ok e.

(** * [CanonicalHmacWebhookAdapter] *)

(** Third-party behaviour: the typed fields of a JSON body, [None] when it is not JSON or a
    field has the wrong type, an exception when reading it raises anything else; and the text
    of a year below 1000. *)
Record WebhookLibrary := mkWebhookLibrary {
  lib_decode : bytes → res (option ProviderWebhookEnvelope);
  lib_early_year : Z → string;
}.

Section Adapter.
Context (lib : WebhookLibrary).

Definition decode_envelope (raw_body : bytes) : res ProviderWebhookEnvelope :=
  let* fields := lib_decode lib raw_body in
  match fields with
  | None => Err (WebhookPayloadError "provider webhook payload is invalid")
  | Some fields =>
      match ProviderWebhookEnvelope_validate fields with
      | Ok e => Ok e
      | Err _ => Err (WebhookPayloadError "provider webhook payload is invalid")
      end
  end.

(** [bool(headers.get(name))] *)
Definition header_present (o : option string) : bool :=
  match o with Some s => nonempty s | None => false end.

Definition verify_and_decode (connection : ProviderWebhookConnection) (provider_connection_id : string)
    (headers : string → option string) (raw_body : bytes) (now : instant) : res ProviderWebhookEnvelope :=
  match headers "x-provider-event-id", headers "x-provider-timestamp", headers "x-provider-signature" with
  | Some event_id, Some timestamp_raw, Some signature =>
      raise_if (negb (nonempty event_id && nonempty timestamp_raw && nonempty signature))
        (WebhookPayloadError "required provider webhook headers are missing");;;
      match strptime timestamp_raw with
      | None => Err (WebhookPayloadError "provider webhook timestamp is invalid")
      | Some timestamp =>
          let* valid := signature_is_valid (lib_early_year lib) (encode (wc_signing_secret connection))
                          (Aware timestamp) event_id raw_body signature (Aware now)
                          (wc_validity_window_seconds connection) in
          raise_if (negb valid) WebhookAuthenticationError;;;
          let* envelope := decode_envelope raw_body in
          raise_if (bool_decide (we_event_id envelope ≠ event_id)
                    || bool_decide (we_provider_connection_id envelope ≠ provider_connection_id)
                    || bool_decide (we_tenant_id envelope ≠ wc_tenant_id connection)
                    || bool_decide (we_timestamp envelope ≠ timestamp))
            (WebhookPayloadError "provider webhook identifiers are inconsistent");;;
          Ok envelope
      end
  | _, _, _ => Err (WebhookPayloadError "required provider webhook headers are missing")
  end.
End Adapter.

(** * The route *)

(** [_MAX_BODY_BYTES] *)
Definition MAX_BODY_BYTES : Z := 256 * 1024.

(** A request: its headers, names in lower case as the server delivers them, and the body in
    the chunks it arrives in. *)
Record Request := mkRequest {
  rq_headers : list (string * string);
  rq_chunks : list bytes;
}.

(** [JSONResponse] with a single key. *)
Record JSONResponse := mkResponse {
  rs_status_code : Z;
  rs_content : string * string;
}.

#[export] Instance JSONResponse_eq_dec : EqDecision JSONResponse.
Proof. solve_decision. Defined.

Definition problem (status_code : Z) (detail : string) : JSONResponse :=
  mkResponse status_code ("detail", detail).
Definition invalid_request (status_code : Z) : JSONResponse :=
  problem status_code "Invalid provider webhook request.".
Definition payload_too_large : JSONResponse := problem 413 "Payload too large.".
Definition accepted_response : JSONResponse := mkResponse 202 ("status", "accepted").

(** [request.headers.getlist(name)] *)
Definition getlist (request : Request) (name : string) : list string :=
  snd <$> filter (λ h, h.1 = name) (rq_headers request).

Definition protected_headers : list string :=
  ["x-provider-event-id"; "x-provider-timestamp"; "x-provider-signature"].

(** [{header: request.headers[header] for header in protected_headers}] *)
Definition selected_headers (request : Request) (name : string) : option string :=
  if bool_decide (name ∈ protected_headers) then head (getlist request name) else None.

(** [s.split(";", 1)[0]] *)
Definition before_semicolon (s : string) : string :=
  match split_once ";" s with Some (a, _) => a | None => s end.

(** [int(s)] for decimal digits. *)
Definition decimal (s : string) : Z :=
  fold_left (λ n c, n * 10 + digit_value c) (String.list_ascii_of_string s) 0.

(** The checks on the headers, in order: the response that refuses the request, if any. *)
Definition check_headers (request : Request) : option JSONResponse :=
  if existsb (λ h, negb (length (getlist request h) =? 1)%nat) protected_headers
  then Some (invalid_request 400)
  else if existsb (λ h, match selected_headers request h with
                        | Some value => negb (nonempty (strip value))
                        | None => false
                        end) protected_headers
  then Some (invalid_request 400)
  else match getlist request "content-type" with
  | [content_type] =>
      if negb (String.eqb (lower (strip (before_semicolon content_type))) "application/json")
      then Some (invalid_request 415)
      else match getlist request "content-encoding" with
      | _ :: _ :: _ => Some (invalid_request 415)
      | content_encoding =>
          if existsb (λ e, negb (String.eqb (lower (strip e)) "identity")) content_encoding
          then Some (invalid_request 415)
          else match getlist request "content-length" with
          | [] => None
          | [content_length] =>
              if negb (nonempty content_length && all_chars is_digit content_length)
              then Some (invalid_request 400)
              else if (6 <? str_len content_length) || (MAX_BODY_BYTES <? decimal content_length)
              then Some payload_too_large
              else None
          | _ => Some (invalid_request 400)
          end
      end
  | _ => Some (invalid_request 415)
  end.

(** [async for chunk in request.stream()]: [None] once the body is too large. *)
Fixpoint read_stream (chunks : list bytes) (size : Z) (received : bytes) : option bytes :=
  match chunks with
  | [] => Some received
  | chunk :: chunks' =>
      let size := size + Z.of_nat (length chunk) in
      if MAX_BODY_BYTES <? size then None else read_stream chunks' size (received ++ chunk)
  end.

(** The response to an exception the route handles. *)
Definition response_to (e : exn) : option JSONResponse :=
  match e with
  | WebhookAuthenticationError => Some (problem 401 "Unauthorized provider webhook.")
  | WebhookPayloadError _ => Some (invalid_request 400)
  | InboxEventConflictError _ => Some (problem 409 "Provider event conflict.")
  | IntegrationPersistenceError => Some (problem 503 "Provider webhook unavailable.")
  | ProviderConnectionNotFoundError => Some (problem 401 "Unauthorized provider webhook.")
  | _ => None
  end.

Section Route.
Context (lib : WebhookLibrary) (resolver : gmap string ProviderWebhookConnection).

(** The body of the [try]. *)
Definition accept_event (provider_connection_id : string) (headers : string → option string)
    (raw_body : bytes) : M database InboxMessage :=
  connection <- lift (resolve_webhook resolver provider_connection_id);
  at_ <- now;
  envelope <- lift (verify_and_decode lib connection provider_connection_id headers raw_body at_);
  inbox_id <- new_id;
  received_at <- now;
  receive_inbox_idempotently inbox_id provider_connection_id (we_event_id envelope)
    (wc_tenant_id connection) (we_data envelope) (hexdigest (sha256 raw_body)) received_at.

Definition receive_provider_webhook (provider_connection_id : string) (request : Request) :
    M database JSONResponse :=
  match check_headers request with
  | Some response => ret response
  | None =>
      match read_stream (rq_chunks request) 0 [] with
      | None => ret payload_too_large
      | Some raw_body =>
          try_except
            (accept_event provider_connection_id (selected_headers request) raw_body;,
             ret accepted_response)
            (λ e, ret <$> response_to e)
      end
  end.
End Route.
