(* ===== verification/ProviderFailure.v ===== *)
(** The atomic manual-review fallback for an operation whose provider cannot be reached:
    [integrations/provider_failure.py], and [OperationService.move_to_provider_manual_review]
    of [operations/service.py], which validates the request and calls it. *)
From S2P Require Import Prelude Effects Auth OperationModels CaseModels Envelope Database Transactions CaseRepository OperationRepository OperationService OutboxWrites Finalization.

Inductive ProviderQueueFailureAction := qf_created | qf_reused | qf_duplicate_ignored.

Record ProviderQueueFailureResult := mkProviderQueueFailureResult {
  qf_operation : OrderOperation;
  qf_support_case : SupportCase;
  qf_action : ProviderQueueFailureAction;
}.

(** [f"provider-queue-failure:{operation_id}:{label}:{request_id}"] *)
Definition queue_failure_key (operation_id : uuid) (label request_id : string) : string :=
  "provider-queue-failure:" +:+ uuid_str operation_id +:+ ":" +:+ label +:+ ":" +:+ request_id.

(** The columns the fallback writes: a P1 review, at the given time. *)
Definition handed_over_row (o : OrderOperation) (case_id : uuid) (now : instant) (version : Z) : OrderOperation :=
  rewritten_row o true (Some rec_order_operation_review) (Some p1) (Some case_id)
    (oo_provider_reference o) os_manual_review now version.

(** [SELECT 1 FROM order_operation_events WHERE idempotency_key = %s] *)
Definition operation_key_recorded (key : string) (d : database) : bool :=
  bool_decide (key ∈ oev_idempotency_key <$> order_operation_events d).

(** The events of the confirmation, the new status and the case. *)
Definition failure_events (actor request_id : string) (o : OrderOperation) (case_id : uuid)
    (ids : uuid * uuid * uuid) (now : instant) : res (list OrderOperationEvent) :=
  let '(i1, i2, i3) := ids in
  let key label := queue_failure_key (oo_operation_id o) label request_id in
  let* confirmed := OrderOperationEvent_validate
    (plain_event i1 (key "confirmed") o oe_confirmation_recorded None actor now) in
  let* moved := OrderOperationEvent_validate
    (mkOrderOperationEvent i2 (key "status") (oo_operation_id o) oe_status_changed
       (Some (oo_status o)) (Some os_manual_review) None None "system" (oo_customer_id o)
       (oo_tenant_id o) now) in
  let* attached := OrderOperationEvent_validate
    (plain_event i3 (key "case-attached") o oe_support_case_attached (Some case_id) "system" now) in
  Ok [confirmed; moved; attached].

(** [_move_once], in its transaction *)
Definition move_once_tx (s : AccessScope) (operation_id : uuid) (request_id : string) (now : instant) :
    Tx ProviderQueueFailureResult :=
  row <~ select (λ d, order_operations d !! operation_id);
  match row with
  | None => tx_raise OperationNotFoundError
  | Some row =>
      operation <~ tx_lift (OrderOperation_validate row);
      tx_raise_if (bool_decide (oo_tenant_id operation ≠ sc_tenant_id s)
                   || bool_decide (Some (oo_customer_id operation) ≠ customer_id s))
        OperationNotFoundError;~
      replay <~ select (operation_key_recorded (queue_failure_key operation_id "confirmed" request_id));
      match (if bool_decide (oo_status operation = os_manual_review)
             then oo_support_case_id operation else None) with
      | Some attached =>
          case_row <~ select (λ d, support_cases d !! attached);
          match case_row with
          | None => tx_raise (ValueError "operation manual-review case is unavailable")
          | Some case_row =>
              case <~ tx_lift (SupportCase_validate case_row);
              tx_raise_if (bool_decide (c_tenant_id case ≠ oo_tenant_id operation)
                           || bool_decide (c_customer_id case ≠ oo_customer_id operation)
                           || bool_decide (c_case_type case ≠ ct_order_operation_review))
                (ValueError "operation manual-review case association is invalid");~
              tx_ret (mkProviderQueueFailureResult operation case qf_duplicate_ignored)
          end
      | None =>
          tx_raise_if (bool_decide (oo_status operation ≠ os_pending_confirmation))
            (ValueError "operation is not eligible for provider manual review");~
          ensured <~ escalate_review_case (queue_failure_key operation_id "case" request_id) (λ _, now)
            insert_case_event ConcurrentOperationUpdateError operation now;
          let case := ensured.1 in
          let write o := handed_over_row o (c_case_id case) now (oo_version operation + 1) in
          affected <~ update_operation_where (oo_operation_id operation) (oo_version operation) write;
          tx_raise_if (negb (rowcount affected =? 1)) ConcurrentOperationUpdateError;~
          (if replay then tx_ret tt
           else
             i1 <~ uuid4; i2 <~ uuid4; i3 <~ uuid4;
             actor <~ tx_lift (identity s);
             events <~ tx_lift (failure_events actor request_id operation (c_case_id case) (i1, i2, i3) now);
             execute (insert_operation_events events));~
          tx_ret (mkProviderQueueFailureResult (write operation) case
                    (if ensured.2 then qf_reused else qf_created))
      end
  end.

(** The [except] clauses around an attempt; a unique violation goes to its own. *)
Definition queue_failure_errors (e : tx_error) : exn :=
  match e with
  | DbError (UniqueViolation c) => PgUniqueViolation c
  | DbError OtherDatabaseError => OperationPersistenceError
  | Raised x => x
  end.

Definition move_once (s : AccessScope) (operation_id : uuid) (request_id : string) :
    M database ProviderQueueFailureResult :=
  started <- now;
  in_transaction OperationPersistenceError queue_failure_errors
    (move_once_tx s operation_id request_id started).

(** [for attempt in range(3)]: only a race for the thread's review case is tried again. *)
Fixpoint move_attempts (s : AccessScope) (operation_id : uuid) (request_id : string) (left : nat) :
    M database ProviderQueueFailureResult :=
  match left with
  | O => raise AssertionError
  | S left' =>
      try_except (move_once s operation_id request_id) (λ e,
        match e with
        | PgUniqueViolation c => Some
            (if bool_decide (c ≠ "uq_support_cases_active_thread_type") || (left' =? 0)%nat
             then raise OperationPersistenceError
             else move_attempts s operation_id request_id left')
        | _ => None
        end)
  end.

Definition move_to_manual_review (s : AccessScope) (operation_id : uuid) (request_id : string) :
    M database ProviderQueueFailureResult :=
  let request_id := strip request_id in
  lift (raise_if (negb (nonempty request_id)) (ValueError "request_id must be non-empty"));,
  move_attempts s operation_id request_id 3.

(** [OperationService.move_to_provider_manual_review]; [coordinated] says whether a
    coordinator was configured. *)
Definition move_to_provider_manual_review (coordinated : bool) (s : AccessScope) (operation_id : uuid)
    (request_id : string) : M database ProviderQueueFailureResult :=
  identity <- lift (identity s);
  metadata <- lift (validate_request_metadata request_id identity);
  lift (raise_if (negb coordinated) (RuntimeError "provider queue failure coordinator is unavailable"));,
  move_to_manual_review s operation_id metadata.1.
