(* ===== verification/Nodes.v ===== *)
(** The nodes of the conversation graph: [nodes/risk.py], [nodes/intent.py],
    [nodes/complaints.py], [nodes/handoff.py], [nodes/orders.py], [nodes/refunds.py],
    [nodes/operations.py] and [nodes/cases.py], with the order lookup of
    [tools/search_order.py].

    A node is a computation that returns the state with its update merged in.  The language
    models, the customer's answers to interrupts and the order queries are parameters: a
    node consults each of them at most once in a turn, so functions of what they are asked
    cover every behaviour. *)
From S2P Require Import Prelude Effects Auth OperationModels OperationPolicy CaseModels CasePolicy RiskMatcher RiskTheorems Conversation Database Transactions CaseRepository Refunds CaseService OperationRepository OperationService ProviderFailure.

(** * What a turn is given *)

(** The language models.  [None] is an answer of another class than the requested one. *)
Record Assistants := mkAssistants {
  ask_risk : list message → list RiskMatch → res (option SemanticRiskDetection);
  ask_intent : string → res (option Route);
  ask_complaint : list message → res (option FormalComplaintDetection);
  ask_order : string → res OrderDetection;
  ask_operation : string → res (option OperationRequestExtraction);
  reply_to_risk : RiskFacts → string → res string;
  reply_to_complaint : string → res string;
}.

(** [OrderQueryProvider] *)
Record OrderQueries := mkOrderQueries {
  get_order_for_customer : string → string → string → res (option OrderSnapshot);
  get_replacement_availability : string → string → string → string → res (option bool);
}.

(** An entry of [data/orders.json]. *)
Record StoredOrder := mkStoredOrder {
  sto_order_id : string;
  sto_product_name : string;
  sto_status : string;
  sto_delivery_days_ago : option Z;
  sto_amount : Q;
  sto_refunded : bool;
  sto_owner_customer_id : string;
  sto_tenant_id : string;
}.

(** The interrupts, and the value a resumed interrupt returns. *)
Inductive question := q_human_handoff | q_order_priority | q_refund | q_operation.
Inductive reply := ReplyBool (b : bool) | ReplyText (s : string) | ReplyOther.

#[export] Instance question_eq_dec : EqDecision question.
Proof. solve_decision. Defined.
#[export] Instance reply_eq_dec : EqDecision reply.
Proof. solve_decision. Defined.

Record TurnContext := mkTurnContext {
  tn_assistants : Assistants;
  tn_replies : question → option reply;
  tn_thread_id : option string;
  tn_user : option UserPayload;
  tn_unicode : UnicodeData;
  tn_rules : RiskRuleSet;
  tn_orders : list (string * StoredOrder);
  tn_order_queries : OrderQueries;
  tn_connection : string → res string;
  tn_coordinated : bool;
  tn_case_attempts : nat;
  tn_operation_attempts : nat;
  tn_support_contact : string;
  tn_local_date : instant → Z;
}.

(** Where the graph goes after a node. *)
Inductive command := Goto (destination : string) | Waiting (q : question).

(** * Text *)

Definition from_points (l : text) : string := String.string_of_list_ascii (ascii_of_N <$> l).

(** [" ".join(content.split())[:500]] *)
Definition excerpt_of (content : string) : string :=
  String.substring 0 500 (from_points (join_words (split_words (code_points content)))).

Definition upper_char (c : ascii) : ascii :=
  let n := N_of_ascii c in if ((97 <=? n) && (n <=? 122))%N then ascii_of_N (n - 32) else c.

(** [str.upper] on the characters an order number can contain. *)
Definition upper (s : string) : string :=
  String.string_of_list_ascii (upper_char <$> String.list_ascii_of_string s).

Definition ORDER_NOT_FOUND : string := "Order not found. Please enter the correct order number.".
Definition HUMAN_REVIEW_REQUIRED : string := "Your request requires human review before it can be processed.".

Definition operation_status_str (s : OperationRecordStatus) : string :=
  match s with
  | os_pending_confirmation => "pending_confirmation" | os_queued => "queued"
  | os_submitted => "submitted" | os_processing => "processing" | os_manual_review => "manual_review"
  | os_completed => "completed" | os_rejected => "rejected"
  | os_cancelled_by_customer => "cancelled_by_customer"
  end.
Definition operation_action_str (a : OperationServiceAction) : string :=
  match a with
  | oa_created => "created" | oa_duplicate_ignored => "duplicate_ignored" | oa_confirmed => "confirmed"
  | oa_queued => "queued" | oa_submitted => "submitted" | oa_cancelled => "cancelled"
  | oa_status_changed => "status_changed" | oa_status_unchanged => "status_unchanged"
  | oa_support_case_attached => "support_case_attached"
  end.
Definition failure_action_str (a : ProviderQueueFailureAction) : string :=
  match a with
  | qf_created => "created" | qf_reused => "reused" | qf_duplicate_ignored => "duplicate_ignored"
  end.
Definition operation_outcome_str (o : OperationOutcome) : string :=
  match o with
  | out_eligible => "eligible" | out_manual_review => "manual_review" | out_rejected => "rejected"
  | out_existing_operation => "existing_operation" | out_already_completed => "already_completed"
  end.
Definition delivery_outcome_str (o : DeliveryOutcome) : string :=
  match o with
  | do_self_service => "self_service" | do_manual_review => "manual_review"
  | do_offer_return_exchange => "offer_return_exchange"
  end.
Definition case_type_str (t : CaseType) : string :=
  match t with
  | ct_safety_review => "safety_review" | ct_business_escalation => "business_escalation"
  | ct_refund_review => "refund_review" | ct_general_support => "general_support"
  | ct_staff_conduct_complaint => "staff_conduct_complaint" | ct_other_complaint => "other_complaint"
  | ct_order_operation_review => "order_operation_review"
  | ct_delivery_investigation => "delivery_investigation"
  end.
Definition priority_str (p : CasePriority) : string :=
  match p with p0 => "p0" | p1 => "p1" | p2 => "p2" | p3 => "p3" end.
Definition case_status_str (s : CaseStatus) : string :=
  match s with
  | cs_open => "open" | cs_in_progress => "in_progress" | cs_on_hold => "on_hold" | cs_resolved => "resolved"
  end.

Section Nodes.
Context (ctx : TurnContext).

Definition models : Assistants := tn_assistants ctx.
Definition scope_of_turn : res AccessScope := require_scope (tn_user ctx).

(** An answer of the requested class, validated as its construction was. *)
Definition structured {A} (name : string) (validate : A → res A) (answer : res (option A)) : res A :=
  let* a := answer in
  match a with
  | Some a => validate a
  | None => Err (TypeError (name +:+ " returned an unexpected result"))
  end.

Definition NO_THREAD : string :=
  "A non-empty configurable.thread_id is required when creating a support case".

(** [require_thread_id] *)
Definition require_thread_id : res string :=
  match tn_thread_id ctx with
  | Some t => raise_if (negb (nonempty (strip t))) (ValueError NO_THREAD);;; Ok t
  | None => Err (ValueError NO_THREAD)
  end.

(** * Risk *)

Definition check_risk_rules (s : RefundState) : RefundState :=
  let content := match latest_text_user_message s with Some (_, c) => c | None => "" end in
  let result := risk_match (tn_unicode ctx) (tn_rules ctx) (code_points content) in
  set_risk (mkRiskFacts (rx_hard_critical result) (rx_has_risk_signals result) (rx_matches result)
              None [] "" None false)
    (new_turn_state None s).

Definition with_semantic_risk (l : SemanticRiskLevel) (cs : list SemanticRiskCategory) (why : string)
    (f : RiskFacts) : RiskFacts :=
  mkRiskFacts (risk_hard_critical f) (risk_has_signals f) (risk_rule_matches f) (Some l) cs why
    (risk_order_choice f) (risk_requires_human_review f).

Definition classify_semantic_risk (s : RefundState) : res RefundState :=
  match latest_text_user_message s with
  | None => Ok (set_risk (with_semantic_risk rl_none [] "No text user message was available." (risk_facts s)) s)
  | Some _ =>
      let* r := structured "Risk classifier" Ok
                  (ask_risk models (messages s) (risk_rule_matches (risk_facts s))) in
      Ok (set_risk (with_semantic_risk (sr_risk_level r) (sr_categories r) (sr_reason r) (risk_facts s)) s)
  end.

Definition with_order_choice (choice : string) (f : RiskFacts) : RiskFacts :=
  mkRiskFacts (risk_hard_critical f) (risk_has_signals f) (risk_rule_matches f) (semantic_risk_level f)
    (semantic_risk_categories f) (semantic_risk_reason f) (Some choice) (risk_requires_human_review f).

Definition confirm_order_priority (s : RefundState) : res (RefundState * command) :=
  match tn_replies ctx q_order_priority with
  | None => Ok (s, Waiting q_order_priority)
  | Some choice =>
      if bool_decide (choice = ReplyText "handle_order") then
        Ok (set_risk (with_order_choice "handle_order" (risk_facts s)) s, Goto "resume_order_flow")
      else if bool_decide (choice = ReplyText "continue_risk") then
        Ok (set_risk (with_order_choice "continue_risk" (risk_facts s)) s, Goto "handle_noncritical_risk")
      else Err (ValueError "Unexpected order-priority decision")
  end.

Definition handle_noncritical_risk (s : RefundState) : res RefundState :=
  match latest_text_user_message s with
  | None => Ok (say "Please describe your concern as text." s)
  | Some (_, content) => let* r := reply_to_risk models (risk_facts s) content in Ok (say r s)
  end.

(** The category of a rule as one of the semantic categories. *)
Definition semantic_category (c : RiskCategory) : SemanticRiskCategory :=
  match c with
  | rk_self_harm => rc_self_harm | rk_violence => rc_violence | rk_legal => rc_legal
  | rk_regulatory => rc_regulatory | rk_reputation => rc_reputation
  end.

Definition critical_categories (f : RiskFacts) : list SemanticRiskCategory :=
  semantic_risk_categories f ++
  (if risk_hard_critical f then (semantic_category ∘ rm_category) <$> risk_rule_matches f else []).

Definition handle_critical_risk (s : RefundState) : RefundState :=
  let f := risk_facts s in
  let content :=
    if bool_decide (rc_self_harm ∈ critical_categories f) || bool_decide (rc_violence ∈ critical_categories f)
    then "Your message may indicate an urgent safety concern. " +:+
         "If you or someone else may be in immediate danger, please contact " +:+
         "local emergency services or a trusted person who can help now."
    else "This concern requires human review. Please contact " +:+ tn_support_contact ctx
         +:+ " for further assistance." in
  say content
    (set_risk (mkRiskFacts (risk_hard_critical f) (risk_has_signals f) (risk_rule_matches f)
                 (semantic_risk_level f) (semantic_risk_categories f) (semantic_risk_reason f)
                 (risk_order_choice f) true) s).

(** * Intent, complaints and the human handoff *)

Definition llm_call_router (s : RefundState) : res RefundState :=
  match latest_text_user_message s with
  | None => Ok (say "Please enter your question." (new_turn_state None s))
  | Some (_, content) =>
      let* r := structured "Router" Ok (ask_intent models content) in
      Ok (set_handoff (mkHandoffFacts (rte_human_handoff_requested r) false None false "")
            (new_turn_state (Some (rte_step r)) s))
  end.

Definition with_complaint (severity : option StaffComplaintSeverity) (other : bool) (why : string)
    (f : HandoffFacts) : HandoffFacts :=
  mkHandoffFacts (human_handoff_requested f) (human_handoff_confirmed f) severity other why.

Definition classify_formal_complaint (s : RefundState) : res RefundState :=
  match latest_text_user_message s with
  | None => Ok (set_handoff (with_complaint None false "No text user message was available." (handoff_facts s)) s)
  | Some _ =>
      let* r := structured "Formal complaint classifier" FormalComplaintDetection_validate
                  (ask_complaint models (messages s)) in
      let severity := if bool_decide (fd_complaint_kind r = fc_staff_conduct)
                      then fd_staff_complaint_severity r else None in
      Ok (set_handoff (with_complaint severity (bool_decide (fd_complaint_kind r = fc_other_formal))
                         (fd_reason r) (handoff_facts s)) s)
  end.

Definition handle_complaint (s : RefundState) : res RefundState :=
  match latest_text_user_message s with
  | None => Ok (say "Please enter your complaint as text." s)
  | Some (_, content) => let* r := reply_to_complaint models content in Ok (say r s)
  end.

Definition with_handoff_choice (requested confirmed : bool) (f : HandoffFacts) : HandoffFacts :=
  mkHandoffFacts requested confirmed (staff_complaint_severity f) (explicit_other_complaint f)
    (formal_complaint_reason f).

Definition confirm_human_handoff (s : RefundState) : res (RefundState * command) :=
  match tn_replies ctx q_human_handoff with
  | None => Ok (s, Waiting q_human_handoff)
  | Some choice =>
      if bool_decide (choice = ReplyText "confirm_handoff") then
        Ok (set_handoff (with_handoff_choice (human_handoff_requested (handoff_facts s)) true (handoff_facts s)) s,
            Goto "acknowledge_human_handoff")
      else if bool_decide (choice = ReplyText "continue_self_service") then
        let* destination := route_after_human_handoff_declined s in
        Ok (set_handoff (with_handoff_choice false false (handoff_facts s)) s, Goto destination)
      else Err (ValueError "Unexpected human-handoff confirmation choice")
  end.

Definition acknowledge_human_handoff (s : RefundState) : RefundState :=
  say "Understood. I’ll route this conversation for human support." s.

(** * Orders *)

Definition detected (order : option string) (valid : bool) (s : RefundState) : RefundState :=
  let f := order_facts s in
  set_order (mkOrderFacts order (of_order_info f) (of_success f) (of_search_success f) (of_eligible f)
               (of_requires_manual_review f) valid (of_reason f)) s.

Definition detect_order (s : RefundState) : res RefundState :=
  match latest_text_user_message s with
  | None => Ok (say "Please enter your order number." (detected None false s))
  | Some (_, content) =>
      let* response := ask_order models content in
      let order := match dt_order_id response with
                   | Some o => if nonempty o then Some (upper (strip o)) else None
                   | None => None
                   end in
      match (if dt_has_order_id response then order else None) with
      | None =>
          if bool_decide (is_Some (last_order_id s))
             && references_previous_order (tn_unicode ctx) (code_points content)
          then Ok (detected (last_order_id s) true s)
          else Ok (say "Please enter your order number." (set_last_order_id None (detected None false s)))
      | Some o =>
          if order_id_pattern_fullmatch o
          then Ok (set_last_order_id None (detected (Some o) true s))
          else Ok (say "Please enter a valid order number." (set_last_order_id None (detected None false s)))
      end
  end.

(** [search_order]: the caller's order, with its delivery date worked out from today. *)
Definition search_order (today : Z) (order customer_id tenant_id : string) : res (option OrderData) :=
  raise_if (negb (order_id_ok order && nonempty customer_id && nonempty tenant_id))
    (ValidationError "SearchArgs");;;
  match list_find (λ e, e.1 = order) (tn_orders ctx) with
  | None => Ok None
  | Some (_, (_, o)) =>
      if bool_decide (sto_owner_customer_id o ≠ customer_id) || bool_decide (sto_tenant_id o ≠ tenant_id)
      then Ok None
      else Ok (Some (mkOrderData (sto_order_id o) (sto_product_name o) (sto_status o) (sto_refunded o)
                       (sto_amount o) ((λ n, today - n) <$> sto_delivery_days_ago o)))
  end.

Definition searched (found : option OrderData) (s : RefundState) : RefundState :=
  let f := order_facts s in
  set_order (mkOrderFacts (of_order_id f) (match found with Some o => Some o | None => of_order_info f end)
               (of_success f) (bool_decide (is_Some found)) (of_eligible f) (of_requires_manual_review f)
               (of_order_id_valid f) (of_reason f)) s.

Definition today : M database Z := t <- now; ret (tn_local_date ctx t).

Definition search_order_node (s : RefundState) : M database RefundState :=
  scope <- lift scope_of_turn;
  match customer_id scope with
  | None => ret (say ORDER_NOT_FOUND (searched None s))
  | Some c =>
      day <- today;
      order <- lift (match of_order_id (order_facts s) with
                     | Some o => Ok o
                     | None => Err (ValidationError "SearchArgs")
                     end);
      found <- lift (search_order day order c (sc_tenant_id scope));
      match found with
      | None => ret (say ORDER_NOT_FOUND (searched None s))
      | Some o => ret (set_last_order_id (Some order) (searched (Some o) s))
      end
  end.

(** The public fields of the order; [order["order_id"]] fails on an empty [order_info]. *)
Definition order_response_node (s : RefundState) : res RefundState :=
  match of_order_info (order_facts s) with
  | None => Err (KeyError "order_id")
  | Some o => Ok (say ("Order ID: " +:+ ord_order_id o +:+ String "010"%char ("Status: " +:+ ord_status o
                         +:+ String "010"%char ("Product name: " +:+ ord_product_name o))) s)
  end.

(** * Refunds *)

(** The part of [order_info] that [OrderInfo] reads. *)
Definition order_info_of (o : option OrderData) : option OrderInfo :=
  match o with
  | Some d => (λ day, mkOrderInfo (ord_order_id d) day (ord_status d) (ord_refunded d) (ord_amount d))
                <$> ord_delivery_date d
  | None => None
  end.

Definition with_eligibility (eligible manual : bool) (why : string) (order : option string) (f : OrderFacts) : OrderFacts :=
  mkOrderFacts order (of_order_info f) (of_success f) (of_search_success f) eligible manual
    (of_order_id_valid f) why.

Definition check_refund_eligibility_node (s : RefundState) : M database RefundState :=
  day <- today;
  let f := order_facts s in
  let r := check_refund_policy (order_info_of (of_order_info f)) day in
  let manual := rpr_requires_manual_review r in
  ret (if negb (rpr_eligible r) then
         say ("Sorry, " +:+ rpr_reason r)
           (set_order (with_eligibility false manual (rpr_reason r) (of_order_id f) f) s)
       else if manual then
         say (rpr_reason r +:+ " Please contact " +:+ tn_support_contact ctx +:+ ".")
           (set_order (with_eligibility true true (rpr_reason r) (of_order_id f) f) s)
       else set_order (with_eligibility true false (rpr_reason r) (rpr_order_id r) f) s).

Definition refund_outcome (done : bool) (s : RefundState) : RefundState :=
  let f := order_facts s in
  say (if done then "The refund request has been submitted successfully. A result is expected within seven business days."
       else "The refund request could not be created automatically. Please contact customer service.")
    (set_order (mkOrderFacts (of_order_id f) (of_order_info f) done (of_search_success f) (of_eligible f)
                  (of_requires_manual_review f) (of_order_id_valid f) (of_reason f)) s).

Definition create_refund_node (s : RefundState) : M database RefundState :=
  match of_order_id (order_facts s) with
  | None => ret (refund_outcome false s)
  | Some order =>
      scope <- lift scope_of_turn;
      created <- create_refund scope order;
      ret (refund_outcome created s)
  end.

Definition approval_node (s : RefundState) : RefundState * command :=
  match tn_replies ctx q_refund with
  | None => (s, Waiting q_refund)
  | Some r => (s, Goto (if bool_decide (r = ReplyBool true) then "proceed" else "cancel"))
  end.

Definition cancelled_node (s : RefundState) : RefundState :=
  say "The refund has been cancelled. Thank you for your support." s.

(** * Order operations *)

(** [_THRESHOLDS] *)
Definition THRESHOLDS : CurrencyThresholds := {["USD" := 100 # 1]}.

Definition operation_detect_order (s : RefundState) : res RefundState := detect_order s.

Definition with_snapshot (snapshot : option OrderSnapshot) (f : OperationFacts) : OperationFacts :=
  mkOperationFacts snapshot (bool_decide (is_Some snapshot)) (operation_extraction f) (operation_ambiguous f)
    (operation_outcome f) (operation_policy_reason_codes f) (operation_display_reason f)
    (turn_operation_id f) (operation_status f) (operation_service_action f) (turn_provider_reference f)
    (domain_case_reason_codes f).

Definition load_operation_snapshot (s : RefundState) : res RefundState :=
  let missing := set_operation (with_snapshot None (operation_facts s)) s in
  match of_order_id (order_facts s) with
  | None => Ok missing
  | Some order =>
      let* scope := scope_of_turn in
      match customer_id scope with
      | None => Ok (say ORDER_NOT_FOUND missing)
      | Some c =>
          let* snapshot := get_order_for_customer (tn_order_queries ctx) order c (sc_tenant_id scope) in
          Ok (match snapshot with
              | None => say ORDER_NOT_FOUND missing
              | Some x => set_last_order_id (Some order) (set_operation (with_snapshot (Some x) (operation_facts s)) s)
              end)
      end
  end.

Definition with_extraction (x : option OperationRequestExtraction) (ambiguous : bool) (f : OperationFacts) : OperationFacts :=
  mkOperationFacts (operation_snapshot f) (operation_lookup_success f) x ambiguous
    (operation_outcome f) (operation_policy_reason_codes f) (operation_display_reason f)
    (turn_operation_id f) (operation_status f) (operation_service_action f) (turn_provider_reference f)
    (domain_case_reason_codes f).

Definition extract_operation_request (s : RefundState) : res RefundState :=
  match latest_text_user_message s with
  | None => Ok (say "Please describe one order request." (set_operation (with_extraction None true (operation_facts s)) s))
  | Some (_, content) =>
      let* x := structured "Operation extractor" OperationRequestExtraction_validate (ask_operation models content) in
      Ok (set_operation (with_extraction (Some x) (ex_ambiguous x) (operation_facts s)) s)
  end.

(** [OperationRequestExtraction.model_validate(state.get("operation_extraction", {}))]: an empty
    mapping lacks the required [ambiguous]. *)
Definition extraction_from_state (s : RefundState) : res OperationRequestExtraction :=
  match operation_extraction (operation_facts s) with
  | Some x => OperationRequestExtraction_validate x
  | None => Err (ValidationError "OperationRequestExtraction")
  end.

Definition snapshot_from_state (s : RefundState) : res OrderSnapshot :=
  match operation_snapshot (operation_facts s) with
  | Some x => OrderSnapshot_validate x
  | None => Err (ValueError "operation snapshot is unavailable")
  end.

(** The checks on the message that caused a write, with their texts, and its excerpt. *)
Definition message_metadata (no_message no_id no_text : string) (s : RefundState) : res (string * string) :=
  match latest_text_user_message s with
  | None => Err (ValueError no_message)
  | Some (id, content) =>
      match id with
      | Some i =>
          raise_if (negb (nonempty (strip i))) (ValueError no_id);;;
          let excerpt := excerpt_of content in
          raise_if (negb (nonempty excerpt)) (ValueError no_text);;;
          Ok (i, excerpt)
      | None => Err (ValueError no_id)
      end
  end.

(** [_latest_message_metadata]: thread, message and excerpt *)
Definition latest_message_metadata (s : RefundState) : res (string * string * string) :=
  let* m := message_metadata "A text HumanMessage is required for an order operation"
              "The operation request requires a stable HumanMessage ID"
              "The operation request must not be empty" s in
  let* thread := require_thread_id in
  Ok (thread, m.1, m.2).

Definition with_outcome (outcome : string) (codes : list string) (display : string) (domain : list string)
    (f : OperationFacts) : OperationFacts :=
  mkOperationFacts (operation_snapshot f) (operation_lookup_success f) (operation_extraction f)
    (operation_ambiguous f) (Some outcome) codes display
    (turn_operation_id f) (operation_status f) (operation_service_action f) (turn_provider_reference f) domain.

Definition with_operation (action : string) (id : uuid) (status : string) (f : OperationFacts) : OperationFacts :=
  mkOperationFacts (operation_snapshot f) (operation_lookup_success f) (operation_extraction f)
    (operation_ambiguous f) (operation_outcome f) (operation_policy_reason_codes f) (operation_display_reason f)
    (Some id) (Some status) (Some action) (turn_provider_reference f) (domain_case_reason_codes f).

(** [_persist_or_respond] *)
Definition persist_or_respond (s : RefundState) (request : OrderOperationRequest) (snapshot : OrderSnapshot)
    (d : OperationDecision) (excerpt : string) : M database RefundState :=
  let base := set_operation (with_outcome (operation_outcome_str (od_outcome d)) (od_reason_codes d)
                (od_display_reason d) (domain_case_reason_codes (operation_facts s)) (operation_facts s)) s in
  if negb (bool_decide (od_outcome d ∈ [out_eligible; out_manual_review]))
  then ret (say (od_display_reason d) base)
  else
    scope <- lift scope_of_turn;
    result <- create_pending_operation (tn_operation_attempts ctx) scope request snapshot d excerpt;
    let o := or_operation result in
    let update := set_operation (with_operation (operation_action_str (or_action result)) (oo_operation_id o)
                    (operation_status_str (oo_status o)) (operation_facts base)) base in
    ret (if bool_decide (or_action result = oa_duplicate_ignored)
            && bool_decide (oo_status o ≠ os_pending_confirmation)
         then say ("This operation is already " +:+ operation_status_str (oo_status o) +:+ ".") update
         else update).

Definition evaluate_operation_request (s : RefundState) : M database RefundState :=
  extraction <- lift (extraction_from_state s);
  if ex_ambiguous extraction then
    ret (say "Please choose one operation at a time: cancellation, return, or exchange."
           (set_operation (with_outcome "ambiguous" (operation_policy_reason_codes (operation_facts s))
              (operation_display_reason (operation_facts s)) (domain_case_reason_codes (operation_facts s))
              (operation_facts s)) s))
  else
  snapshot <- lift (snapshot_from_state s);
  metadata <- lift (latest_message_metadata s);
  let '(thread_id, source_message_id, excerpt) := metadata in
  match ex_delivery_issue_type extraction with
  | Some issue =>
      request <- lift (DeliveryIssueRequest_validate (mkDeliveryIssueRequest thread_id source_message_id
                         (sn_order_id snapshot) issue (ex_investigation_requested extraction)));
      t <- now;
      d <- lift (evaluate_delivery_issue request snapshot (Aware t));
      let domain := if bool_decide (dd_outcome d = do_manual_review) then dd_reason_codes d
                    else domain_case_reason_codes (operation_facts s) in
      ret (say (dd_display_reason d)
             (set_operation (with_outcome (delivery_outcome_str (dd_outcome d)) (dd_reason_codes d)
                (dd_display_reason d) domain (operation_facts s)) s))
  | None =>
      scope <- lift scope_of_turn;
      match customer_id scope with
      | None =>
          ret (say ORDER_NOT_FOUND
                 (set_operation (with_outcome "rejected" ["order_not_found"] "Order not found."
                    (domain_case_reason_codes (operation_facts s)) (operation_facts s)) s))
      | Some c =>
          request <- lift (match ex_operation_type extraction, ex_reason extraction with
                           | Some ty, Some why => OrderOperationRequest_validate
                               (mkOrderOperationRequest thread_id source_message_id (sn_order_id snapshot) ty why
                                  (ex_replacement_variant_id extraction) c (sc_tenant_id scope))
                           | _, _ => Err (ValidationError "OrderOperationRequest")
                           end);
          availability <- lift (if bool_decide (rq_operation_type request = op_exchange) then
                                  match rq_replacement_variant_id request with
                                  | None => Err AssertionError
                                  | Some v => get_replacement_availability (tn_order_queries ctx)
                                                (rq_order_id request) (rq_customer_id request) (rq_tenant_id request) v
                                  end
                                else Ok None);
          t <- now;
          d <- lift (evaluate_operation request snapshot (Aware t) THRESHOLDS availability);
          persist_or_respond s request snapshot d excerpt
      end
  end.

(** [_operation_id] *)
Definition operation_id_of_turn (s : RefundState) : res uuid :=
  match turn_operation_id (operation_facts s) with
  | Some i => Ok i
  | None => Err (ValueError "operation_id is unavailable")
  end.

Definition operation_confirmation_node (s : RefundState) : res (RefundState * command) :=
  let f := operation_facts s in
  let delivery := bool_decide (turn_operation_id f = None) in
  match tn_replies ctx q_operation with
  | None => Ok (s, Waiting q_operation)
  | Some (ReplyBool false) =>
      Ok (s, Goto (if delivery then "cancel_delivery_investigation" else "cancel_operation"))
  | Some (ReplyBool true) =>
      Ok (s, Goto (if delivery then "confirm_delivery_investigation"
                   else if bool_decide (operation_outcome f = Some "manual_review")
                   then "confirm_manual_operation" else "submit_confirmed_operation"))
  | Some _ => Err (ValueError "Order-operation confirmation must be true or false")
  end.

Definition with_result (status action : string) (reference : option string) (domain : list string)
    (f : OperationFacts) : OperationFacts :=
  mkOperationFacts (operation_snapshot f) (operation_lookup_success f) (operation_extraction f)
    (operation_ambiguous f) (operation_outcome f) (operation_policy_reason_codes f) (operation_display_reason f)
    (turn_operation_id f) (Some status) (Some action) reference domain.

(** The update of a manual-review fallback. *)
Definition fallback_update (r : ProviderQueueFailureResult) (s : RefundState) : RefundState :=
  let c := qf_support_case r in
  let f := operation_facts s in
  say HUMAN_REVIEW_REQUIRED
    (set_support (mkSupportFacts
       (Some (match qf_action r with
              | qf_created => ca_created | qf_reused => ca_event_appended
              | qf_duplicate_ignored => ca_duplicate_ignored
              end))
       (Some (c_case_id c)) (Some (c_case_type c)) (Some (c_priority c)) (Some (c_status c))
       (c_reason_codes c) true)
    (set_operation (with_result (operation_status_str (oo_status (qf_operation r))) (failure_action_str (qf_action r))
       (turn_provider_reference f) (domain_case_reason_codes f) f) s)).

(** [except (ProviderConnectionNotFoundError, ProviderConfigurationUnavailableError)] *)
Definition connection_missing (e : exn) : bool :=
  match e with ProviderConnectionNotFoundError | ProviderConfigurationUnavailableError => true | _ => false end.

Definition submit_confirmed_operation_node (s : RefundState) : M database RefundState :=
  id <- lift (operation_id_of_turn s);
  try_except
    (scope <- lift scope_of_turn;
     connection <- lift (tn_connection ctx (sc_tenant_id scope));
     result <- queue_confirmed_operation scope id ("graph-queue:" +:+ uuid_str id) connection;
     let f := operation_facts s in
     ret (say "Your request has been accepted for processing."
            (set_operation (with_result (operation_status_str (oo_status (or_operation result)))
               (operation_action_str (or_action result)) (oo_provider_reference (or_operation result))
               (domain_case_reason_codes f) f) s)))
    (λ e, if connection_missing e then Some
            (scope <- lift scope_of_turn;
             fallback <- move_to_provider_manual_review (tn_coordinated ctx) scope id
                           ("graph-provider-config-failure:" +:+ uuid_str id);
             ret (fallback_update fallback s))
          else None).

Definition confirm_manual_operation (s : RefundState) : M database RefundState :=
  id <- lift (operation_id_of_turn s);
  scope <- lift scope_of_turn;
  result <- confirm_operation (tn_operation_attempts ctx) scope id ("graph-manual:" +:+ uuid_str id);
  let f := operation_facts s in
  ret (say "Your request has been sent for manual review."
         (set_operation (with_result (operation_status_str (oo_status (or_operation result)))
            (operation_action_str (or_action result)) (turn_provider_reference f)
            (oo_policy_reason_codes (or_operation result)) f) s)).

Definition cancel_operation (s : RefundState) : M database RefundState :=
  id <- lift (operation_id_of_turn s);
  scope <- lift scope_of_turn;
  result <- cancel_pending_operation (tn_operation_attempts ctx) scope id ("graph-cancel:" +:+ uuid_str id);
  let f := operation_facts s in
  ret (say "The order operation has been cancelled."
         (set_operation (with_result (operation_status_str (oo_status (or_operation result)))
            (operation_action_str (or_action result)) (turn_provider_reference f)
            (domain_case_reason_codes f) f) s)).

Definition with_delivery_choice (status : string) (domain : list string) (f : OperationFacts) : OperationFacts :=
  mkOperationFacts (operation_snapshot f) (operation_lookup_success f) (operation_extraction f)
    (operation_ambiguous f) (operation_outcome f) (operation_policy_reason_codes f) (operation_display_reason f)
    (turn_operation_id f) (Some status) (operation_service_action f) (turn_provider_reference f) domain.

Definition confirm_delivery_investigation_node (s : RefundState) : RefundState :=
  let f := operation_facts s in
  say "A delivery investigation has been opened."
    (set_operation (with_delivery_choice "submitted" (domain_case_reason_codes f) f) s).

Definition cancel_delivery_investigation_node (s : RefundState) : RefundState :=
  say "The delivery investigation has not been opened."
    (set_operation (with_delivery_choice "cancelled" [] (operation_facts s)) s).

(** * Support cases *)

(** [extract_hard_critical_categories] *)
Definition hard_critical_categories (s : RefundState) : list SemanticRiskCategory :=
  dict_fromkeys ((semantic_category ∘ rm_category) <$>
    filter (λ m, rm_rule_type m = rt_hard_critical) (risk_rule_matches (risk_facts s))).

(** The [HandoffReason] literals of a list of reason codes. *)
Fixpoint handoff_reasons (codes : list string) : option (list HandoffReason) :=
  match codes with
  | [] => Some []
  | c :: codes' =>
      match reason_of_string c, handoff_reasons codes' with
      | Some r, Some rs => Some (r :: rs)
      | _, _ => None
      end
  end.

Definition build_handoff_policy_input (s : RefundState) : res HandoffPolicyInput :=
  match handoff_reasons (domain_case_reason_codes (operation_facts s)) with
  | None => Err (ValidationError "HandoffPolicyInput")
  | Some domain =>
      HandoffPolicyInput_validate
        (mkHandoffPolicyInput (hard_critical_categories s) (semantic_risk_level (risk_facts s))
           (semantic_risk_categories (risk_facts s)) (of_requires_manual_review (order_facts s))
           (human_handoff_confirmed (handoff_facts s)) (staff_complaint_severity (handoff_facts s))
           (explicit_other_complaint (handoff_facts s)) domain)
  end.

(** [a or b] for optional strings *)
Definition or_string (a b : option string) : option string :=
  match a with Some x => if nonempty x then a else b | None => b end.

Definition build_case_trigger (s : RefundState) : res CaseTrigger :=
  let* m := message_metadata "A text HumanMessage is required when creating a support case"
              "The triggering HumanMessage must have a stable message ID"
              "The triggering message must not be empty" s in
  let f := risk_facts s in
  let* thread := require_thread_id in
  CaseTrigger_validate
    (mkCaseTrigger thread m.1 (or_string (of_order_id (order_facts s)) (last_order_id s))
       (if risk_hard_critical f then Some rl_critical else semantic_risk_level f)
       (dict_fromkeys (hard_critical_categories s ++ semantic_risk_categories f)) m.2).

(** [_case_result_update] *)
Definition case_result_update (r : CaseServiceResult) (s : RefundState) : RefundState :=
  let c := cres_case r in
  set_support (mkSupportFacts (Some (cres_action r)) (c_case_id <$> c) (c_case_type <$> c) (c_priority <$> c)
                 (c_status <$> c) (default [] (c_reason_codes <$> c)) false) s.

(** A case that a preceding transaction of the turn already opened and linked. *)
Definition failure_case_persisted (f : SupportFacts) : bool :=
  provider_failure_case_persisted f && bool_decide (is_Some (support_case_id f))
  && bool_decide (support_case_type f = Some ct_order_operation_review)
  && bool_decide (support_case_priority f = Some p1)
  && bool_decide (support_case_status f ∈ [Some cs_open; Some cs_in_progress; Some cs_on_hold])
  && bool_decide (hr_provider_delivery_failed ∈ support_case_reason_codes f).

(** The handoff of a delivery investigation whose provider is not configured. *)
Definition safe_delivery_decision (d : HandoffDecision) : res HandoffDecision :=
  let reasons := dict_fromkeys (hd_reason_codes d ++ [hr_provider_delivery_failed]) in
  HandoffDecision_validate
    (mkHandoffDecision true (Some ct_delivery_investigation) (Some p1) reasons (build_display_reason reasons)).

Definition finalize_case_handoff (s : RefundState) : M database RefundState :=
  let f := support_facts s in
  if failure_case_persisted f then
    ret (set_support (mkSupportFacts (Some (default ca_duplicate_ignored (support_case_action f)))
           (support_case_id f) (support_case_type f) (support_case_priority f) (support_case_status f)
           (support_case_reason_codes f) false) s)
  else
  input <- lift (build_handoff_policy_input s);
  d <- lift (determine_handoff_policy input);
  if negb (hd_should_create_case d) then
    ret (set_support (mkSupportFacts (Some ca_not_created) None None None None [] false) s)
  else
  trigger <- lift (build_case_trigger s);
  scope <- lift scope_of_turn;
  if negb (bool_decide (hd_case_type d = Some ct_delivery_investigation)) then
    result <- record_handoff (tn_case_attempts ctx) scope trigger d;
    ret (case_result_update result s)
  else
  extraction <- lift (extraction_from_state s);
  match ex_delivery_issue_type extraction with
  | None => raise (ValueError "delivery investigation is missing a structured issue type")
  | Some issue =>
      connection <- try_except (c <- lift (tn_connection ctx (sc_tenant_id scope)); ret (Some c))
                      (λ e, if connection_missing e then Some (ret None) else None);
      match connection with
      | None =>
          safe <- lift (safe_delivery_decision d);
          result <- record_handoff (tn_case_attempts ctx) scope trigger safe;
          ret (say "Your delivery request requires human review before it can be processed."
                 (case_result_update result s))
      | Some connection_id =>
          result <- record_delivery_investigation (tn_case_attempts ctx) scope trigger d issue connection_id;
          ret (say "A delivery investigation has been opened and queued for processing."
                 (case_result_update result s))
      end
  end.

(** [build_attach_operation_case_node] *)
Definition attach_operation_case (s : RefundState) : M database RefundState :=
  let f := operation_facts s in
  match turn_operation_id f, support_case_id (support_facts s) with
  | Some operation, Some case_id =>
      if negb (bool_decide (operation_status f = Some "manual_review")) then ret s
      else if bool_decide (support_case_type (support_facts s) = Some ct_order_operation_review)
              && bool_decide (hr_provider_delivery_failed ∈ support_case_reason_codes (support_facts s))
      then ret s
      else
        scope <- lift scope_of_turn;
        result <- attach_support_case (tn_operation_attempts ctx) scope operation case_id
                    ("graph-case:" +:+ uuid_str operation +:+ ":" +:+ uuid_str case_id);
        ret (set_operation (mkOperationFacts (operation_snapshot f) (operation_lookup_success f)
               (operation_extraction f) (operation_ambiguous f) (operation_outcome f)
               (operation_policy_reason_codes f) (operation_display_reason f) (turn_operation_id f)
               (operation_status f) (Some (operation_action_str (or_action result)))
               (turn_provider_reference f) (domain_case_reason_codes f)) s)
  | _, _ => ret s
  end.

Definition case_line (c : SupportCase) : string :=
  uuid_str (c_case_id c) +:+ ": " +:+ case_type_str (c_case_type c) +:+ ", " +:+ priority_str (c_priority c)
  +:+ ", " +:+ case_status_str (c_status c).

Definition support_case_status_node (s : RefundState) : M database RefundState :=
  match require_thread_id with
  | Err e =>
      if is_ValueError e
      then ret (say "I need this conversation's thread ID to look up support-case status." s)
      else raise e
  | Ok thread =>
      scope <- lift scope_of_turn;
      q <- lift (CaseListQuery_validate (mkCaseListQuery None None None (Some thread) None 50 0));
      page <- service_list_cases scope q;
      ret (match pg_items page with
           | [] => say "There are no support cases for this conversation." s
           | items => say (String.concat (String "010"%char "")
                             ("Support cases for this conversation:" :: (case_line <$> items))) s
           end)
  end.

End Nodes.

(** * The graph

    The conversation graph: [graph.py], with the order-operation subflow of
    [nodes/operations.py] in place of the node that runs it. *)

(** The names of the nodes, as [add_node] gives them. *)
Inductive node :=
  | check_risk_rules_n | classify_semantic_risk_n | llm_call_router_n | classify_formal_complaint_n
  | confirm_human_handoff_n | acknowledge_human_handoff_n | confirm_order_priority_n | resume_order_flow_n
  | detect_order_n | search_node_n | check_refund_eligibility_n | order_response_n | approval_node_n
  | proceed_n | cancel_n | handle_complaint_n | handle_noncritical_risk_n | handle_critical_risk_n
  | support_case_status_n | finalize_case_handoff_n | attach_operation_case_n
  | detect_operation_order_n | load_operation_snapshot_n | extract_operation_request_n
  | evaluate_operation_request_n | operation_confirmation_n | submit_confirmed_operation_n
  | confirm_manual_operation_n | cancel_operation_n | confirm_delivery_investigation_n
  | cancel_delivery_investigation_n.

#[export] Instance node_eq_dec : EqDecision node.
Proof. solve_decision. Defined.

(** The path maps of [add_conditional_edges]; the subflow starts at [detect_operation_order]. *)
Definition risk_rules_edges : list (string * node) :=
  [("critical_risk", handle_critical_risk_n); ("semantic_risk", classify_semantic_risk_n)].
Definition semantic_risk_edges : list (string * node) :=
  [("critical_risk", handle_critical_risk_n); ("intent", llm_call_router_n)].
Definition router_edges : list (string * node) :=
  [("formal_complaint", classify_formal_complaint_n); ("confirm_human_handoff", confirm_human_handoff_n);
   ("confirm_order_priority", confirm_order_priority_n); ("order_query", detect_order_n);
   ("operation_flow", detect_operation_order_n); ("support_case_status", support_case_status_n);
   ("finalize", finalize_case_handoff_n)].
Definition complaint_edges : list (string * node) :=
  [("confirm_human_handoff", confirm_human_handoff_n); ("noncritical_risk", handle_noncritical_risk_n);
   ("complaint", handle_complaint_n)].
Definition resume_edges : list (string * node) :=
  [("order_query", detect_order_n); ("operation_flow", detect_operation_order_n)].
Definition detection_edges : list (string * node) :=
  [("finalize", finalize_case_handoff_n); ("search_node", search_node_n)].
Definition lookup_edges : list (string * node) :=
  [("order_response", order_response_n); ("check_refund_eligibility", check_refund_eligibility_n);
   ("finalize", finalize_case_handoff_n)].
Definition policy_edges : list (string * node) :=
  [("finalize", finalize_case_handoff_n); ("approval_node", approval_node_n)].

(** The nodes a [Command] can go to, by name. *)
Definition command_targets : list (string * node) :=
  [("acknowledge_human_handoff", acknowledge_human_handoff_n); ("confirm_order_priority", confirm_order_priority_n);
   ("resume_order_flow", resume_order_flow_n); ("handle_noncritical_risk", handle_noncritical_risk_n);
   ("handle_complaint", handle_complaint_n); ("detect_order", detect_order_n); ("proceed", proceed_n);
   ("cancel", cancel_n); ("submit_confirmed_operation", submit_confirmed_operation_n);
   ("confirm_manual_operation", confirm_manual_operation_n); ("cancel_operation", cancel_operation_n);
   ("confirm_delivery_investigation", confirm_delivery_investigation_n);
   ("cancel_delivery_investigation", cancel_delivery_investigation_n)].

Definition follow (edges : list (string * node)) (label : string) : res node :=
  match list_find (λ e, e.1 = label) edges with
  | Some (_, (_, n)) => Ok n
  | None => Err (KeyError label)
  end.

(** What a node leaves to be done: another node, the end of the turn, or the customer's answer. *)
Inductive progress := Next (n : node) | Finish | Await (q : question).

Section Graph.
Context (ctx : TurnContext).

(** A plain node with conditional edges, with one edge, and a node that returns a command. *)
Definition branch (m : M database RefundState) (route : RefundState → res string)
    (edges : list (string * node)) : M database (RefundState * progress) :=
  s <- m;
  label <- lift (route s);
  n <- lift (follow edges label);
  ret (s, Next n).

Definition then_ (m : M database RefundState) (n : node) : M database (RefundState * progress) :=
  s <- m; ret (s, Next n).

Definition obey (m : res (RefundState * command)) : M database (RefundState * progress) :=
  p <- lift m;
  match p.2 with
  | Waiting q => ret (p.1, Await q)
  | Goto name => n <- lift (follow command_targets name); ret (p.1, Next n)
  end.

(** The conditional edges inside the subflow *)
Definition after_operation_order (s : RefundState) : node :=
  if bool_decide (default "" (of_order_id (order_facts s)) ≠ "") then load_operation_snapshot_n
  else finalize_case_handoff_n.
Definition after_snapshot (s : RefundState) : node :=
  if operation_lookup_success (operation_facts s) then extract_operation_request_n else finalize_case_handoff_n.
Definition after_evaluation (s : RefundState) : node :=
  let f := operation_facts s in
  if bool_decide (is_Some (turn_operation_id f)) && bool_decide (operation_status f = Some "pending_confirmation")
     || bool_decide (turn_operation_id f = None) && bool_decide (operation_outcome f = Some "manual_review")
        && bool_decide (domain_case_reason_codes f ≠ [])
  then operation_confirmation_n else finalize_case_handoff_n.

Definition choose (m : M database RefundState) (next : RefundState → node) : M database (RefundState * progress) :=
  s <- m; ret (s, Next (next s)).

Definition run_node (n : node) (s : RefundState) : M database (RefundState * progress) :=
  match n with
  | check_risk_rules_n => branch (ret (check_risk_rules ctx s)) route_after_risk_rules risk_rules_edges
  | classify_semantic_risk_n =>
      branch (lift (classify_semantic_risk ctx s)) route_after_semantic_risk semantic_risk_edges
  | llm_call_router_n => branch (lift (llm_call_router ctx s)) route_by_intent_and_risk router_edges
  | classify_formal_complaint_n =>
      branch (lift (classify_formal_complaint ctx s)) route_after_formal_complaint complaint_edges
  | confirm_human_handoff_n => obey (confirm_human_handoff ctx s)
  | acknowledge_human_handoff_n => then_ (ret (acknowledge_human_handoff s)) finalize_case_handoff_n
  | confirm_order_priority_n => obey (confirm_order_priority ctx s)
  | resume_order_flow_n => branch (ret s) route_after_order_priority resume_edges
  | detect_order_n => branch (lift (detect_order ctx s)) route_after_detection detection_edges
  | search_node_n => branch (search_order_node ctx s) route_after_order_lookup lookup_edges
  | check_refund_eligibility_n => branch (check_refund_eligibility_node ctx s) route_after_policy policy_edges
  | order_response_n => then_ (lift (order_response_node s)) finalize_case_handoff_n
  | approval_node_n => obey (Ok (approval_node ctx s))
  | proceed_n => then_ (create_refund_node ctx s) finalize_case_handoff_n
  | cancel_n => then_ (ret (cancelled_node s)) finalize_case_handoff_n
  | handle_complaint_n => then_ (lift (handle_complaint ctx s)) finalize_case_handoff_n
  | handle_noncritical_risk_n => then_ (lift (handle_noncritical_risk ctx s)) finalize_case_handoff_n
  | handle_critical_risk_n => then_ (ret (handle_critical_risk ctx s)) finalize_case_handoff_n
  | support_case_status_n => then_ (support_case_status_node ctx s) finalize_case_handoff_n
  | finalize_case_handoff_n => then_ (finalize_case_handoff ctx s) attach_operation_case_n
  | attach_operation_case_n => s <- attach_operation_case ctx s; ret (s, Finish)
  | detect_operation_order_n => choose (lift (operation_detect_order ctx s)) after_operation_order
  | load_operation_snapshot_n => choose (lift (load_operation_snapshot ctx s)) after_snapshot
  | extract_operation_request_n => then_ (lift (extract_operation_request ctx s)) evaluate_operation_request_n
  | evaluate_operation_request_n => choose (evaluate_operation_request ctx s) after_evaluation
  | operation_confirmation_n => obey (operation_confirmation_node ctx s)
  | submit_confirmed_operation_n => then_ (submit_confirmed_operation_node ctx s) finalize_case_handoff_n
  | confirm_manual_operation_n => then_ (confirm_manual_operation ctx s) finalize_case_handoff_n
  | cancel_operation_n => then_ (cancel_operation ctx s) finalize_case_handoff_n
  | confirm_delivery_investigation_n => then_ (ret (confirm_delivery_investigation_node s)) finalize_case_handoff_n
  | cancel_delivery_investigation_n => then_ (ret (cancel_delivery_investigation_node s)) finalize_case_handoff_n
  end.

(** A turn, or what is left of it when the customer answers: at most [steps] nodes. *)
Inductive turn_result :=
  | Finished (s : RefundState)
  | Suspended (q : question) (n : node) (s : RefundState)
  | OutOfSteps.

Fixpoint run_from (steps : nat) (n : node) (s : RefundState) : M database turn_result :=
  match steps with
  | O => ret OutOfSteps
  | S steps' =>
      p <- run_node n s;
      match p.2 with
      | Next n' => run_from steps' n' p.1
      | Finish => ret (Finished p.1)
      | Await q => ret (Suspended q n p.1)
      end
  end.

(** LangGraph runs a graph for at most 25 steps by default. *)
Definition RECURSION_LIMIT : nat := 25.

Definition run_turn (s : RefundState) : M database turn_result :=
  run_from RECURSION_LIMIT check_risk_rules_n s.

End Graph.

(** * Example turns

    Example turns: one customer with one order, assistants that answer as told, and the
    replies of the customer.  Shared by the witnesses of the claims on the graph. *)

Definition demo_payload : UserPayload :=
  mkUserPayload (Some "tenant-a:u1") (Some ["orders:read:own"; "orders:operate:own"; "cases:read:own"]) None.

Lemma demo_payload_scope : require_scope (Some demo_payload) = Ok (demo_scope customer).
Proof. vm_compute. reflexivity. Qed.

(** What the assistants answer. *)
Record demo_answers := mkDemoAnswers {
  da_risk : SemanticRiskLevel;
  da_intent : Intent;
  da_human : bool;
  da_extraction : OperationRequestExtraction;
}.

Definition demo_assistants (a : demo_answers) : Assistants :=
  mkAssistants (λ _ _, Ok (Some (mkSemanticRisk (da_risk a) [] "")))
    (λ _, Ok (Some (mkRoute (da_intent a) (da_human a))))
    (λ _, Ok (Some (mkFormalComplaint fc_ordinary None "ordinary")))
    (λ _, Ok (mkOrderDetection true (Some "ord-10001")))
    (λ _, Ok (Some (da_extraction a))) (λ _ _, Ok "We hear you.") (λ _, Ok "We are sorry.").

Definition demo_return_request : OperationRequestExtraction :=
  mkExtraction (Some op_return) (Some or_damaged_item) None None false false.
Definition demo_cancellation_request : OperationRequestExtraction :=
  mkExtraction (Some op_cancellation) (Some or_no_longer_needed) None None false false.

(** The order before it is shipped. *)
Definition demo_new_order : OrderSnapshot :=
  mkOrderSnapshot "ORD-10001" 3 6999 "USD" ord_confirmed pay_paid ful_unfulfilled
    0 None None (Some (days 4)) None None None [] (Some "u1") (Some "tenant-a").

Definition demo_turn (a : demo_answers) (replies : question → option reply) (snapshot : OrderSnapshot)
    (connection : res string) : TurnContext :=
  mkTurnContext (demo_assistants a) replies (Some "thread-1") (Some demo_payload) demo_unicode demo_rules
    [("ORD-10001", mkStoredOrder "ORD-10001" "Wireless Mouse" "delivered" (Some 2) (6999 # 100) false "u1" "tenant-a")]
    (mkOrderQueries (λ _ _ _, Ok (Some snapshot)) (λ _ _ _ _, Ok (Some true)))
    (λ _, connection) true 3 3 "support@example.com" (λ t, t / days 1).

(** A message at the start of a conversation. *)
Definition demo_message (content : string) : RefundState :=
  mkRefundState [HumanMessage (Some "msg-1") (Some content)] None None no_risk_facts no_order_facts
    no_handoff_facts no_support_facts no_operation_facts.

(** A customer who agrees to everything, declines everything, or has not answered. *)
Definition demo_agrees (q : question) : option reply :=
  Some (match q with
        | q_human_handoff => ReplyText "confirm_handoff"
        | q_order_priority => ReplyText "handle_order"
        | _ => ReplyBool true
        end).
Definition demo_declines (q : question) : option reply :=
  Some (match q with
        | q_human_handoff => ReplyText "continue_self_service"
        | q_order_priority => ReplyText "continue_risk"
        | _ => ReplyBool false
        end).
Definition demo_silent (q : question) : option reply := None.

Definition demo_cancellation (replies : question → option reply) : M database turn_result :=
  run_turn (demo_turn (mkDemoAnswers rl_none in_cancellation_request false demo_cancellation_request) replies
              demo_new_order (Ok "shop-1"))
    (demo_message "Please cancel my order").
Definition demo_refund (replies : question → option reply) : M database turn_result :=
  run_turn (demo_turn (mkDemoAnswers rl_none in_refund_request false demo_return_request) replies
              demo_snapshot (Ok "shop-1"))
    (demo_message "I want my money back").

(** The question a turn waits for, when it does. *)
Definition waiting_for (r : res turn_result) : option question :=
  match r with Ok (Suspended q _ _) => Some q | _ => None end.
Definition said (r : res turn_result) : list message :=
  match r with Ok (Finished s) => messages s | _ => [] end.
