(* ===== verification/DemoProvider.v ===== *)
(** The demonstration order system of [operations/demo_provider.py], and what the boundary of
    [operations/provider.py] promises its callers: a command is carried out at most once per
    idempotency key, for the owner of the order, against the version that was read.  The
    demonstration keeps the promise. *)
From stdpp Require Import pretty.
From S2P Require Import Prelude Effects OperationModels Database OperationService OperationTheorems Nodes.

(** * The orders *)

Definition DEMO_CUSTOMER : string := "customer-a".
Definition DEMO_TENANT : string := "tenant-demo".
Definition CUSTOMER_B : string := "customer-b".
Definition CUSTOMER_C : string := "customer-c".
Definition TENANT_OTHER : string := "tenant-other".

(** [_delivered]; amounts are in hundredths. *)
Definition delivered (order_id : string) (amount : Z) (now : instant) (delivered_days_ago : Z)
    (customer tenant : string) : OrderSnapshot :=
  let delivered_at := now - days delivered_days_ago in
  mkOrderSnapshot order_id 1 amount "USD" ord_confirmed pay_paid ful_delivered
    (delivered_at - days 3) (Some (delivered_at - days 1)) (Some delivered_at) (Some delivered_at)
    (Some delivered_at) (Some true) (Some true) [] (Some customer) (Some tenant).

(** [_shipped] *)
Definition shipped (order_id : string) (amount : Z) (now : instant) (tracking_hours_ago : Z)
    (customer tenant : string) : OrderSnapshot :=
  let shipped_at := now - days 4 in
  mkOrderSnapshot order_id 1 amount "USD" ord_confirmed pay_paid ful_shipped
    (shipped_at - days 2) (Some shipped_at) None (Some (now - days 1))
    (Some (now - hours tracking_hours_ago)) (Some true) (Some true) [] (Some customer) (Some tenant).

(** The orders written out in the constructor. *)
Definition confirmed_order (order_id : string) (amount : Z) (status : FulfillmentStatus) (now : instant) (days_ago : Z) :
    OrderSnapshot :=
  mkOrderSnapshot order_id 1 amount "USD" ord_confirmed pay_paid status (now - days days_ago)
    None None None None (Some true) (Some true) [] (Some DEMO_CUSTOMER) (Some DEMO_TENANT).

Definition demo_orders (now : instant) : list (string * OrderSnapshot) :=
  [("ORD-10001", delivered "ORD-10001" 6999 now 2 DEMO_CUSTOMER DEMO_TENANT);
   ("ORD-10002", delivered "ORD-10002" 14999 now 1 DEMO_CUSTOMER DEMO_TENANT);
   ("ORD-10003", delivered "ORD-10003" 5999 now 10 DEMO_CUSTOMER DEMO_TENANT);
   ("ORD-10004", shipped "ORD-10004" 4999 now 24 DEMO_CUSTOMER DEMO_TENANT);
   ("ORD-10008", confirmed_order "ORD-10008" 4999 ful_unfulfilled now 1);
   ("ORD-10009", confirmed_order "ORD-10009" 7999 ful_processing now 2);
   ("ORD-10010", shipped "ORD-10010" 8999 now 80 DEMO_CUSTOMER DEMO_TENANT);
   ("ORD-10011", delivered "ORD-10011" 5999 now 1 DEMO_CUSTOMER DEMO_TENANT);
   ("ORD-10012", confirmed_order "ORD-10012" 3999 ful_unfulfilled now 1);
   ("ORD-20001", delivered "ORD-20001" 6999 now 2 CUSTOMER_B DEMO_TENANT);
   ("ORD-30001", delivered "ORD-30001" 5999 now 2 CUSTOMER_C TENANT_OTHER)].

(** * The provider *)

Record DemoOrderProvider := mkDemoOrderProvider {
  do_orders : gmap string OrderSnapshot;
  do_availability : gmap (string * string) bool;
  do_submissions : gmap string ExistingOperation;
  do_submission_counts : gmap string N;
}.

(** [DemoOrderProvider.__init__] *)
Definition new_demo_orders (now : instant) : DemoOrderProvider :=
  mkDemoOrderProvider (list_to_map (demo_orders now))
    {[("ORD-10001", "variant-blue") := true; ("ORD-10001", "variant-unavailable") := false]} ∅ ∅.

(** [order.customer_id != customer_id or order.tenant_id != tenant_id] *)
Definition owned_by (customer_id tenant_id : string) (order : OrderSnapshot) : bool :=
  bool_decide (sn_customer_id order = Some customer_id) && bool_decide (sn_tenant_id order = Some tenant_id).

Definition demo_get_order (p : DemoOrderProvider) (order_id customer_id tenant_id : string) :
    res (option OrderSnapshot) :=
  match do_orders p !! order_id with
  | None => Ok None
  | Some order => if owned_by customer_id tenant_id order then Ok (Some order) else Ok None
  end.

Definition demo_replacement_availability (p : DemoOrderProvider)
    (order_id customer_id tenant_id replacement_variant_id : string) : res (option bool) :=
  match do_orders p !! order_id with
  | None => Err OrderNotAccessibleError
  | Some order =>
      if owned_by customer_id tenant_id order then Ok (do_availability p !! (order_id, replacement_variant_id))
      else Err OrderNotAccessibleError
  end.

Definition demo_order_queries (p : DemoOrderProvider) : OrderQueries :=
  mkOrderQueries (demo_get_order p) (demo_replacement_availability p).

Definition existing_type (t : OperationType) : ExistingOperationType :=
  match t with op_cancellation => xo_cancellation | op_return => xo_return | op_exchange => xo_exchange end.

(** [order.model_copy(update=...)] *)
Definition advanced (operation : ExistingOperation) (order : OrderSnapshot) : OrderSnapshot :=
  mkOrderSnapshot (sn_order_id order) (sn_version order + 1) (sn_amount order) (sn_currency order)
    (sn_order_status order) (sn_payment_status order) (sn_fulfillment_status order) (sn_created_at order)
    (sn_shipped_at order) (sn_delivered_at order) (sn_promised_delivery_at order)
    (sn_last_tracking_event_at order) (sn_return_eligible order) (sn_exchange_eligible order)
    (sn_existing_operations order ++ [operation]) (sn_customer_id order) (sn_tenant_id order).

Definition demo_operation_id (order_id : string) (count : N) : string :=
  "demo-" +:+ order_id +:+ "-" +:+ pretty count.

(** [DemoOrderProvider.submit_operation]; the count moves before the operation is built. *)
Definition demo_submit_operation (p : DemoOrderProvider) (s : ProviderSubmission) : res ExistingOperation * DemoOrderProvider :=
  let request := ps_request s in
  match do_submissions p !! ps_idempotency_key s with
  | Some existing => (Ok existing, p)
  | None =>
      match do_orders p !! rq_order_id request with
      | None => (Err OrderNotAccessibleError, p)
      | Some order =>
          if negb (owned_by (rq_customer_id request) (rq_tenant_id request) order) then (Err OrderNotAccessibleError, p)
          else if negb (sn_version order =? ps_expected_order_version s) then (Err StaleOrderVersionError, p)
          else
            let count := (default 0 (do_submission_counts p !! rq_order_id request) + 1)%N in
            let p := mkDemoOrderProvider (do_orders p) (do_availability p) (do_submissions p)
                       (<[rq_order_id request := count]> (do_submission_counts p)) in
            match ExistingOperation_validate
                    (mkExistingOperation (demo_operation_id (rq_order_id request) count)
                       (existing_type (rq_operation_type request)) xs_submitted (Some (ps_idempotency_key s))) with
            | Err e => (Err e, p)
            | Ok operation =>
                (Ok operation,
                 mkDemoOrderProvider (<[rq_order_id request := advanced operation order]> (do_orders p))
                   (do_availability p) (<[ps_idempotency_key s := operation]> (do_submissions p))
                   (do_submission_counts p))
            end
      end
  end.

(** The provider after the commands it has received, and its answer to the next one. *)
Definition demo_after (now : instant) (past : list ProviderSubmission) : DemoOrderProvider :=
  foldl (λ p s, (demo_submit_operation p s).2) (new_demo_orders now) past.

Definition demo_order_provider (now : instant) : OrderProvider :=
  λ past s, (demo_submit_operation (demo_after now past) s).1.

(** * What a provider of commands promises *)

(** The first time a provider accepts a command with the key of [s]. *)
Definition first_accepted (provider : OrderProvider) (past : list ProviderSubmission) (s : ProviderSubmission)
    (x : ExistingOperation) : Prop :=
  provider past s = Ok x ∧
  ∀ before r after y, past = before ++ r :: after → ps_idempotency_key r = ps_idempotency_key s →
    provider before r ≠ Ok y.

(** [OrderCommandAdapter]: [owner] says whose an order is. *)
Record command_contract (owner : string → option (string * string)) (provider : OrderProvider) : Prop := {
  (** a key that was accepted is answered the same way for good *)
  cc_deduplicates past s x more q :
    provider past s = Ok x → ps_idempotency_key q = ps_idempotency_key s → provider (past ++ s :: more) q = Ok x;
  (** operations have identifiers of their own *)
  cc_identifies past s x : provider past s = Ok x → xop_operation_id x ≠ "";
  cc_distinct past s x more q y :
    provider past s = Ok x → provider (past ++ s :: more) q = Ok y → xop_operation_id x = xop_operation_id y →
    ps_idempotency_key q = ps_idempotency_key s;
  (** a command is only accepted for the owner of its order *)
  cc_owner past s x :
    first_accepted provider past s x →
    owner (rq_order_id (ps_request s)) = Some (rq_customer_id (ps_request s), rq_tenant_id (ps_request s));
  (** no two commands are carried out on one version of an order *)
  cc_versions past s x more q y :
    first_accepted provider past s x → first_accepted provider (past ++ s :: more) q y →
    rq_order_id (ps_request q) = rq_order_id (ps_request s) →
    ps_expected_order_version s < ps_expected_order_version q;
}.

(** * Numbers and identifiers *)

Definition no_space (c : ascii) : bool := negb (is_space c).

Lemma strip_compact s : all_chars no_space s = true → strip s = s.
Proof.
  intros H. unfold strip. assert (lstrip s = s) as ->.
  { destruct s as [|c s]; [done|]. cbn in *. apply andb_true_iff in H as [Hc _]. unfold no_space in Hc.
    by destruct (is_space c). }
  induction s as [|c s IH]; [done|]. cbn in H. apply andb_true_iff in H as [Hc H].
  rewrite rstrip_cons, IH; [done|done|]. unfold no_space in Hc. by destruct (is_space c).
Qed.

Lemma pretty_char_compact n : no_space (pretty_N_char n) = true.
Proof. unfold pretty_N_char. repeat case_match; done. Qed.

Lemma pretty_go_compact n : ∀ s, all_chars no_space s = true → all_chars no_space (pretty_N_go n s) = true.
Proof.
  induction (N.lt_wf_0 n) as [n _ IH]. intros s Hs. destruct (decide (0 < n)%N) as [Hn|Hn].
  - rewrite pretty_N_go_step by done. apply IH; [apply N.div_lt; lia|]. cbn [all_chars].
    by rewrite pretty_char_compact.
  - replace n with 0%N by lia. by rewrite pretty_N_go_0.
Qed.

Lemma pretty_compact (n : N) : all_chars no_space (pretty n) = true.
Proof. unfold pretty, pretty_N. case_decide; [done|]. by apply pretty_go_compact. Qed.

Lemma digit_compact c : is_digit c = true → no_space c = true.
Proof.
  unfold is_digit, no_space, is_space. set (n := N_of_ascii c). clearbody n. intros [H1%N.leb_le H2%N.leb_le]%andb_true_iff.
  apply negb_true_iff, not_true_is_false. rewrite !orb_true_iff, !andb_true_iff, !N.leb_le, !N.eqb_eq. lia.
Qed.

Lemma order_id_shape id : order_id_ok id = true → String.length id = 9%nat ∧ all_chars no_space id = true.
Proof.
  intros H. unfold order_id_ok in H.
  repeat (match type of H with context [match ?x with _ => _ end] => destruct x; try discriminate H end).
  rewrite !andb_true_iff in H. destruct H as ((((? & ?) & ?) & ?) & ?). split; [done|]. cbn [all_chars].
  repeat match goal with H : is_digit _ = true |- _ => apply digit_compact in H; rewrite H; clear H end. reflexivity.
Qed.

Lemma demo_operation_id_compact id n : order_id_ok id = true → strip (demo_operation_id id n) = demo_operation_id id n.
Proof.
  intros [_ H]%order_id_shape. apply strip_compact. unfold demo_operation_id.
  rewrite !all_chars_app, H, pretty_compact. done.
Qed.

Lemma demo_operation_id_inj id id' n n' :
  order_id_ok id = true → order_id_ok id' = true → demo_operation_id id n = demo_operation_id id' n' → id = id' ∧ n = n'.
Proof.
  intros [Hl _]%order_id_shape [Hl' _]%order_id_shape H. unfold demo_operation_id in H.
  apply append_inj_l in H. apply append_inj_len in H as [-> H]; [|congruence]. split; [done|].
  apply append_inj_l in H. by apply (inj pretty).
Qed.

(** * The demonstration keeps the promise *)

Lemma ExistingOperation_validate_idem x y : ExistingOperation_validate x = Ok y → ExistingOperation_validate y = Ok y.
Proof.
  unfold ExistingOperation_validate. intros H. apply res_bind_ok in H as (? & Hg%raise_if_ok & [= <-]).
  cbn [xop_operation_id xop_operation_type xop_status xop_provider_reference] in *.
  rewrite strip_idem, <- option_fmap_compose. rewrite (option_fmap_ext (strip ∘ strip) strip) by (intros; apply strip_idem).
  by rewrite Hg.
Qed.

Lemma existing_operations_snoc l x :
  existing_operations_validate l = Ok l → ExistingOperation_validate x = Ok x →
  existing_operations_validate (l ++ [x]) = Ok (l ++ [x]).
Proof.
  intros Hl Hx. induction l as [|y l IH]; cbn [existing_operations_validate app].
  - by rewrite Hx.
  - cbn [existing_operations_validate] in Hl. apply res_bind_ok in Hl as (y' & Hy & Hl).
    apply res_bind_ok in Hl as (l' & Hl & [= -> ->]). by rewrite Hy, (IH Hl).
Qed.

Section Kept.
Context (now : instant).

(** Whose the demonstration orders are. *)
Definition demo_owner (order_id : string) : option (string * string) :=
  order ← (list_to_map (demo_orders now) : gmap string OrderSnapshot) !! order_id;
  customer ← sn_customer_id order; tenant ← sn_tenant_id order; Some (customer, tenant).

Record order_kept (id : string) (order : OrderSnapshot) : Prop := {
  ko_valid : OrderSnapshot_validate order = Ok order;
  ko_id : sn_order_id order = id;
  ko_version : sn_version order = 1 + Z.of_nat (length (sn_existing_operations order));
  ko_owner : ∃ customer tenant, sn_customer_id order = Some customer ∧ sn_tenant_id order = Some tenant ∧
    demo_owner id = Some (customer, tenant);
}.

Record demo_ok (p : DemoOrderProvider) : Prop := {
  di_orders id order : do_orders p !! id = Some order → order_kept id order;
  di_submissions k x : do_submissions p !! k = Some x →
    ∃ id n, xop_operation_id x = demo_operation_id id n ∧ order_id_ok id = true ∧
      (n ≤ default 0 (do_submission_counts p !! id))%N;
  di_distinct k k' x x' : do_submissions p !! k = Some x → do_submissions p !! k' = Some x' →
    xop_operation_id x = xop_operation_id x' → k = k';
}.

Lemma new_demo_orders_ok : demo_ok (new_demo_orders now).
Proof.
  split; cbn [new_demo_orders do_orders do_submissions]; [|intros * H; by rewrite lookup_empty in H..].
  intros id order Hl%elem_of_list_to_map_2.
  assert (Forall (λ q, order_kept q.1 q.2) (demo_orders now)) as Hall
    by (repeat (constructor; [split; [reflexivity..|do 2 eexists; split_and!; reflexivity]|]); constructor).
  rewrite Forall_forall in Hall. exact (Hall _ Hl).
Qed.

Lemma order_kept_id_ok id order : order_kept id order → order_id_ok id = true.
Proof.
  intros [Hv <- _ _]. unfold OrderSnapshot_validate in Hv.
  destruct (existing_operations_validate _) as [l|]; [|done].
  apply res_bind_ok in Hv as (? & Hg%raise_if_ok & [= Hv]). cbn in Hg. bools. by rewrite <- Hv.
Qed.

Lemma advanced_kept id order x :
  order_kept id order → ExistingOperation_validate x = Ok x → order_kept id (advanced x order).
Proof.
  intros [Hv Hi Hn Ho] Hx. split; [|done| |done].
  - unfold OrderSnapshot_validate in *. cbn [advanced sn_existing_operations].
    destruct (existing_operations_validate (sn_existing_operations order)) as [l|] eqn:El; [|done].
    apply res_bind_ok in Hv as (? & Hg%raise_if_ok & Hv). cbn in Hg.
    destruct order; cbn in *. injection Hv as ?????; subst. rewrite (existing_operations_snoc _ _ El Hx).
    bools. repeat match goal with H : strip _ = _ |- _ => rewrite H in *; clear H end.
    repeat match goal with H : _ <$> _ = _ |- _ => rewrite H; clear H end.
    repeat match goal with H : _ = true |- _ => rewrite H; clear H end.
    rewrite (proj2 (Z.leb_le _ _)) by lia. done.
  - cbn. rewrite length_app, Hn. cbn. lia.
Qed.

(** What one command does. *)
Definition carried_out_now (p p' : DemoOrderProvider) (s : ProviderSubmission) (x : ExistingOperation) : Prop :=
  do_submissions p !! ps_idempotency_key s = None ∧
  do_submissions p' = <[ps_idempotency_key s := x]> (do_submissions p) ∧
  ∃ order, do_orders p !! rq_order_id (ps_request s) = Some order ∧
    demo_owner (rq_order_id (ps_request s)) = Some (rq_customer_id (ps_request s), rq_tenant_id (ps_request s)) ∧
    sn_version order = ps_expected_order_version s ∧
    do_orders p' = <[rq_order_id (ps_request s) := advanced x order]> (do_orders p).

Definition submit_ending (p p' : DemoOrderProvider) (s : ProviderSubmission) (r : res ExistingOperation) : Prop :=
  match r with
  | Ok x => do_submissions p !! ps_idempotency_key s = Some x ∧ p' = p ∨ carried_out_now p p' s x
  | Err _ => do_submissions p !! ps_idempotency_key s = None ∧ do_submissions p' = do_submissions p ∧
             do_orders p' = do_orders p
  end.

Lemma counted_ok p id : demo_ok p →
  demo_ok (mkDemoOrderProvider (do_orders p) (do_availability p) (do_submissions p)
    (<[id := (default 0 (do_submission_counts p !! id) + 1)%N]> (do_submission_counts p))).
Proof.
  intros [Ho Hs Hd]. split; cbn [do_orders do_submissions do_submission_counts]; [done| |done].
  intros k x (i & n & Hx & Hi & Hn)%Hs. exists i, n. split_and!; [done|done|].
  destruct (decide (i = id)) as [->|]; [rewrite lookup_insert_eq; cbn; lia|by rewrite lookup_insert_ne].
Qed.

Lemma demo_submit_spec p s :
  demo_ok p → demo_ok (demo_submit_operation p s).2 ∧ submit_ending p (demo_submit_operation p s).2 s (demo_submit_operation p s).1.
Proof.
  intros Hp. unfold demo_submit_operation. destruct (do_submissions p !! ps_idempotency_key s) as [x|] eqn:Hk; [by split; [|left]|].
  destruct (do_orders p !! rq_order_id (ps_request s)) as [order|] eqn:Ho; [|done].
  pose proof (di_orders p Hp _ _ Ho) as Hkept.
  destruct (owned_by _ _ order) eqn:Hown; cbn [negb]; [|done].
  destruct (Z.eqb_spec (sn_version order) (ps_expected_order_version s)) as [Hv|]; cbn [negb]; [|done].
  cbv zeta. cbn [do_orders do_availability do_submissions do_submission_counts].
  pose proof (counted_ok p (rq_order_id (ps_request s)) Hp) as Hc.
  set (count := (default 0%N _ + 1)%N) in *. set (counts := <[_ := count]> _) in *.
  destruct (ExistingOperation_validate _) as [x|e] eqn:Hx; cbn [fst snd]; [|done].
  assert (xop_operation_id x = demo_operation_id (rq_order_id (ps_request s)) count) as Hid.
  { unfold ExistingOperation_validate in Hx. apply res_bind_ok in Hx as (? & _ & [= <-]). cbn [xop_operation_id].
    apply demo_operation_id_compact. by eapply order_kept_id_ok. }
  pose proof (order_kept_id_ok _ _ Hkept) as Hok.
  assert (∀ k y, do_submissions p !! k = Some y → xop_operation_id x ≠ xop_operation_id y) as Hfresh.
  { intros k y (i & n & Hy & Hi & Hn)%(di_submissions p Hp). rewrite Hid, Hy. intros [<- <-]%demo_operation_id_inj; [|done..].
    subst count. lia. }
  destruct Hc as [Hco Hcs Hcd]. cbn [do_orders do_submissions do_submission_counts] in *. split.
  - split; cbn [do_orders do_submissions do_submission_counts].
    + intros id o. destruct (decide (id = rq_order_id (ps_request s))) as [->|].
      * rewrite lookup_insert_eq. intros [= <-]. by eapply advanced_kept, ExistingOperation_validate_idem.
      * rewrite lookup_insert_ne by done. apply Hco.
    + intros k y [[<- <-]|[_ Hy]]%lookup_insert_Some; [|by eapply Hcs].
      exists (rq_order_id (ps_request s)), count. subst counts. by rewrite lookup_insert_eq.
    + intros k k' y y' [[<- <-]|[_ Hy]]%lookup_insert_Some [[<- <-]|[_ Hy']]%lookup_insert_Some Heq; [done|..].
      * by apply Hfresh in Hy'.
      * symmetry in Heq. by apply Hfresh in Hy.
      * by eapply Hcd.
  - right. split; [done|]. split; [done|]. exists order. split_and!; try done.
    destruct (ko_owner _ _ Hkept) as (c & t & Hct & Htt & ->). unfold owned_by in Hown.
    apply andb_true_iff in Hown as [Hc1%bool_decide_eq_true Ht1%bool_decide_eq_true]. congruence.
Qed.

(** ** Histories *)

Lemma demo_after_app past more : demo_after now (past ++ more) = foldl (λ p s, (demo_submit_operation p s).2) (demo_after now past) more.
Proof. unfold demo_after. by rewrite foldl_app. Qed.

Lemma demo_after_ok past : demo_ok (demo_after now past).
Proof.
  induction past as [|s past IH] using rev_ind; [apply new_demo_orders_ok|]. rewrite demo_after_app. cbn.
  by apply demo_submit_spec.
Qed.

(** What later commands leave: answers, and versions that only grow. *)
Definition grows (p p' : DemoOrderProvider) : Prop :=
  do_submissions p ⊆ do_submissions p' ∧
  ∀ id order, do_orders p !! id = Some order →
    ∃ order', do_orders p' !! id = Some order' ∧ sn_version order ≤ sn_version order'.

#[local] Instance grows_preorder : PreOrder grows.
Proof.
  split.
  - intros p. split; [done|]. intros id o Ho. exists o. by split.
  - intros p q r [H1 H2] [H3 H4]. split; [by etrans|]. intros id o (o1 & Ho1 & L1)%H2.
    apply H4 in Ho1 as (o2 & Ho2 & L2). exists o2. split; [done|lia].
Qed.

Lemma submit_grows p s : demo_ok p → grows p (demo_submit_operation p s).2.
Proof.
  intros Hp. destruct (demo_submit_spec p s Hp) as [_ He]. destruct (demo_submit_operation p s) as [[x|e] p']; cbn in *.
  - destruct He as [[_ ->]|(Hk & Hs & order & Ho & _ & _ & Hos)]; [reflexivity|]. split.
    + rewrite Hs. by apply insert_subseteq.
    + intros id o Hid. rewrite Hos. destruct (decide (id = rq_order_id (ps_request s))) as [->|].
      * rewrite lookup_insert_eq. eexists. split; [done|]. cbn. assert (o = order) as -> by congruence. lia.
      * rewrite lookup_insert_ne by done. exists o. by split.
  - destruct He as (_ & Hs & Ho). split; [by rewrite Hs|]. intros id o Hid. rewrite Ho. exists o. by split.
Qed.

Lemma after_grows past more : grows (demo_after now past) (demo_after now (past ++ more)).
Proof.
  induction more as [|s more IH] using rev_ind; [by rewrite app_nil_r|]. etrans; [exact IH|].
  rewrite app_assoc, (demo_after_app (past ++ more)). cbn. apply submit_grows, demo_after_ok.
Qed.

Lemma answered_stored past s x more :
  demo_order_provider now past s = Ok x →
  do_submissions (demo_after now (past ++ s :: more)) !! ps_idempotency_key s = Some x.
Proof.
  intros Hx. rewrite (app_assoc past [s] more : past ++ s :: more = _). destruct (after_grows (past ++ [s]) more) as [Hs _].
  eapply lookup_weaken; [|exact Hs]. rewrite demo_after_app. cbn.
  destruct (demo_submit_spec _ s (demo_after_ok past)) as [_ He]. unfold demo_order_provider in Hx. rewrite Hx in He.
  destruct He as [[Hk ->]|(_ & -> & _)]; [done|apply lookup_insert_eq].
Qed.

(** What is stored was answered. *)
Lemma stored_answered past k x :
  do_submissions (demo_after now past) !! k = Some x →
  ∃ before r after, past = before ++ r :: after ∧ ps_idempotency_key r = k ∧ demo_order_provider now before r = Ok x.
Proof.
  induction past as [|s past IH] using rev_ind; [by cbn; rewrite lookup_empty|].
  intros H. rewrite demo_after_app in H. cbn in H.
  assert (do_submissions (demo_after now past) !! k = Some x ∨
          k = ps_idempotency_key s ∧ demo_order_provider now past s = Ok x) as [Hp|[-> Hx]].
  { destruct (demo_submit_spec _ s (demo_after_ok past)) as [_ He]. unfold demo_order_provider.
    destruct (demo_submit_operation (demo_after now past) s) as [[y|e] p']; cbn in *.
    - destruct He as [[_ ->]|(_ & Hs & _)]; [by left|]. rewrite Hs in H.
      apply lookup_insert_Some in H as [[<- <-]|[_ H]]; [by right|by left].
    - destruct He as (_ & Hs & _). left. by rewrite <- Hs. }
  - apply IH in Hp as (before & r & after & -> & Hk & Hr). exists before, r, (after ++ [s]). by rewrite <- app_assoc.
  - by exists past, s, [].
Qed.

Lemma first_accepted_carried_out past s x :
  first_accepted (demo_order_provider now) past s x →
  carried_out_now (demo_after now past) (demo_submit_operation (demo_after now past) s).2 s x.
Proof.
  intros [Hx Hfirst]. destruct (demo_submit_spec _ s (demo_after_ok past)) as [_ He]. unfold demo_order_provider in Hx.
  rewrite Hx in He. destruct He as [[Hk _]|He]; [|done].
  apply stored_answered in Hk as (before & r & after & -> & Hk & Hr). by apply (Hfirst before r after x) in Hr.
Qed.
End Kept.

(** C28: the demonstration order system keeps the promise of the boundary, whatever commands it is
    sent and in whatever order: a key is answered with one operation for good, operations have
    identifiers of their own, a command is carried out for the owner of the order only, and no
    two are carried out on one version of an order; and every order it shows stays a valid one
    whose version counts the operations made on it. *)
Theorem demo_provider_keeps_contract (now : instant) :
  command_contract (demo_owner now) (demo_order_provider now) ∧
  ∀ past id order, do_orders (demo_after now past) !! id = Some order →
    OrderSnapshot_validate order = Ok order ∧ sn_order_id order = id ∧
    sn_version order = 1 + Z.of_nat (length (sn_existing_operations order)).
Proof.
  split; [split|].
  - intros past s x more q Hx Hk. apply (answered_stored now past s x more) in Hx. unfold demo_order_provider, demo_submit_operation.
    by rewrite Hk, Hx.
  - intros past s x Hx. apply (answered_stored now past s x []) in Hx.
    apply (di_submissions now _ (demo_after_ok now _)) in Hx as (id & n & -> & _). done.
  - intros past s x more q y Hx Hy Heq. apply (answered_stored now past s x (more ++ [q])) in Hx.
    apply (answered_stored now _ q y []) in Hy. rewrite <- app_assoc in Hy. cbn in Hy.
    symmetry. by eapply (di_distinct now _ (demo_after_ok now _)).
  - intros past s x (_ & _ & order & _ & Ho & _)%first_accepted_carried_out. done.
  - intros past s x more q y Hs Hq Hid. apply first_accepted_carried_out in Hs as (_ & _ & order & Ho & _ & <- & Hos).
    apply first_accepted_carried_out in Hq as (_ & _ & order' & Ho' & _ & <- & _). rewrite Hid in Ho'.
    destruct (after_grows now (past ++ [s]) more) as [_ Hg].
    destruct (Hg (rq_order_id (ps_request s)) (advanced x order)) as (o & Hl & Hle).
    { rewrite demo_after_app. cbn. rewrite Hos. apply lookup_insert_eq. }
    rewrite <- app_assoc in Hl. cbn in Hl, Hle. assert (o = order') as -> by congruence. lia.
  - intros past id order Ho. destruct (di_orders now _ (demo_after_ok now past) _ _ Ho) as [? ? ? _]. done.
Qed.

(** It names its operations, as the operation service expects. *)
Lemma demo_order_provider_identifies now : provider_identifies (demo_order_provider now).
Proof. intros past s x. apply (demo_provider_keeps_contract now). Qed.

(** It shows an order to its owner only. *)
Lemma demo_order_shown now past order_id customer tenant order :
  demo_get_order (demo_after now past) order_id customer tenant = Ok (Some order) →
  demo_owner now order_id = Some (customer, tenant) ∧ sn_order_id order = order_id.
Proof.
  unfold demo_get_order. destruct (do_orders _ !! order_id) as [o|] eqn:Ho; [|done].
  destruct (owned_by customer tenant o) eqn:Hown; [|done]. intros [= <-].
  apply (di_orders now _ (demo_after_ok now past)) in Ho as [_ Hi _ (c & t & Hc & Ht & Ho)].
  unfold owned_by in Hown. apply andb_true_iff in Hown as [H1%bool_decide_eq_true H2%bool_decide_eq_true].
  rewrite Ho. split; [congruence|done].
Qed.

(** A return of ORD-10001, the same command again, a second command on the version the first
    one read, and a stranger's command with the first one's key: it gets the operation of
    another customer's order. *)
Definition demo_submission (order_id customer key : string) : ProviderSubmission :=
  mkProviderSubmission
    (mkOrderOperationRequest "thread-1" "message-1" order_id op_return or_changed_mind None customer DEMO_TENANT) 1 key.

Example demo_submissions_answered :
  let s := demo_submission "ORD-10001" "customer-a" "key-1" in
  demo_order_provider 0 [] s = Ok (mkExistingOperation "demo-ORD-10001-1" xo_return xs_submitted (Some "key-1")) ∧
  demo_order_provider 0 [s] s = demo_order_provider 0 [] s ∧
  demo_order_provider 0 [s] (demo_submission "ORD-10001" "customer-a" "key-2") = Err StaleOrderVersionError ∧
  demo_order_provider 0 [] (demo_submission "ORD-10001" "customer-b" "key-3") = Err OrderNotAccessibleError ∧
  demo_order_provider 0 [s] (demo_submission "ORD-10001" "customer-b" "key-1") = demo_order_provider 0 [] s.
Proof. cbv zeta. split_and!; vm_compute; reflexivity. Qed.
