(* ===== verification/GraphSteps.v ===== *)
(** The conversation graph has no cycles: every edge leads to a node of lower rank, so a turn
    ends or waits for the customer within the step limit of the runtime, and answering the
    question it waits for goes on where it stopped. *)
From S2P Require Import Prelude Effects Auth OperationModels CaseModels RiskMatcher Conversation Database Transactions Nodes.

(** * Answers of a call, in any world *)

Definition answers {A} (m : M database A) (P : A → Prop) : Prop :=
  ∀ amb w a w', m amb w = (Ok a, w') → P a.

Lemma answers_bind {A B} (m : M database A) (f : A → M database B) P :
  (∀ a, answers (f a) P) → answers (bind m f) P.
Proof.
  intros Hf amb w b w'. unfold bind. destruct (m amb w) as [[a|e] w1]; [apply Hf|done].
Qed.
Lemma answers_lift {A B} (x : res A) (f : A → M database B) P :
  (∀ a, x = Ok a → answers (f a) P) → answers (bind (lift x) f) P.
Proof. intros Hf amb w b w'. unfold bind, lift. destruct x as [a|e]; [by apply Hf|done]. Qed.
Lemma answers_ret {A} (a : A) (P : A → Prop) : P a → answers (ret a) P.
Proof. by intros Ha amb w b w' [= <- _]. Qed.

(** * Edges *)

Lemma follow_target edges label n : follow edges label = Ok n → n ∈ edges.*2.
Proof.
  unfold follow. destruct (list_find _ edges) as [[i [l x]]|] eqn:E; [|done]. intros [= <-].
  apply list_find_Some in E as [E _]. apply list_elem_of_fmap. exists (l, x).
  split; [done|by eapply list_elem_of_lookup_2].
Qed.

(** How far a node is from the end of the turn, at most. *)
Definition rank (n : node) : nat :=
  match n with
  | check_risk_rules_n => 15 | classify_semantic_risk_n => 14 | llm_call_router_n => 13
  | classify_formal_complaint_n => 12 | confirm_human_handoff_n => 11 | confirm_order_priority_n => 10
  | resume_order_flow_n => 9 | detect_operation_order_n => 8
  | detect_order_n => 7 | load_operation_snapshot_n => 7
  | search_node_n => 6 | extract_operation_request_n => 6
  | check_refund_eligibility_n => 5 | evaluate_operation_request_n => 5
  | approval_node_n => 4 | operation_confirmation_n => 4
  | finalize_case_handoff_n => 2 | attach_operation_case_n => 1
  | _ => 3
  end%nat.

Definition descends (n : node) (p : RefundState * progress) : Prop :=
  match p.2 with Next n' => (rank n' < rank n)%nat | _ => True end.

Lemma branch_descends m route edges n :
  Forall (λ n', (rank n' < rank n)%nat) edges.*2 → answers (branch m route edges) (descends n).
Proof.
  intros He. apply answers_bind. intros s. apply answers_lift. intros label _.
  apply answers_lift. intros n' Hn%follow_target. apply answers_ret. unfold descends. cbn.
  rewrite Forall_forall in He. by apply He.
Qed.

Lemma then_descends m n' n : (rank n' < rank n)%nat → answers (then_ m n') (descends n).
Proof. intros H. apply answers_bind. intros s. by apply answers_ret. Qed.

Lemma choose_descends m next n : (∀ s, (rank (next s) < rank n)%nat) → answers (choose m next) (descends n).
Proof. intros H. apply answers_bind. intros s. apply answers_ret. apply (H s). Qed.

(** The nodes a command goes to, whatever the customer answered. *)
Definition resumptions : list string :=
  ["handle_noncritical_risk"; "handle_complaint"; "confirm_order_priority"; "detect_order"; "resume_order_flow"].

Lemma declined_target s name : route_after_human_handoff_declined s = Ok name → name ∈ resumptions.
Proof.
  unfold route_after_human_handoff_declined, is_low_or_medium.
  destruct (turn_decision s) as [[]|], (risk_level s) as [[]|]; intros [= <-];
    by apply (bool_decide_unpack _).
Qed.

Lemma confirm_human_handoff_target ctx s s' name :
  confirm_human_handoff ctx s = Ok (s', Goto name) → name ∈ "acknowledge_human_handoff" :: resumptions.
Proof.
  unfold confirm_human_handoff. destruct (tn_replies ctx _) as [r|]; [|done].
  case_bool_decide; [intros [= _ <-]; left|]. case_bool_decide; [|done].
  intros (destination & Hd%declined_target & [= _ ->])%res_bind_ok. by right.
Qed.

Lemma confirm_order_priority_target ctx s s' name :
  confirm_order_priority ctx s = Ok (s', Goto name) → name ∈ ["resume_order_flow"; "handle_noncritical_risk"].
Proof.
  unfold confirm_order_priority. destruct (tn_replies ctx _) as [r|]; [|done].
  case_bool_decide; [intros [= _ <-]; set_solver|]. case_bool_decide; [intros [= _ <-]; set_solver|done].
Qed.

Lemma approval_target ctx s s' name :
  approval_node ctx s = (s', Goto name) →
  name = "cancel" ∨ name = "proceed" ∧ tn_replies ctx q_refund = Some (ReplyBool true).
Proof.
  unfold approval_node. destruct (tn_replies ctx _) as [r|]; [|done]. case_bool_decide; intros [= _ <-]; naive_solver.
Qed.

(** Only an explicit yes leads past the confirmation of an operation. *)
Lemma operation_confirmation_target ctx s s' name :
  operation_confirmation_node ctx s = Ok (s', Goto name) →
  s' = s ∧
  (name = "cancel_delivery_investigation" ∨
   name = "cancel_operation" ∧ is_Some (turn_operation_id (operation_facts s)) ∨
   name ∈ ["confirm_delivery_investigation"; "confirm_manual_operation"; "submit_confirmed_operation"] ∧
   tn_replies ctx q_operation = Some (ReplyBool true)).
Proof.
  unfold operation_confirmation_node. destruct (tn_replies ctx _) as [[[]| |]|] eqn:E; try done; intros [= <- <-];
    (split; [done|]); case_bool_decide as Hd.
  - right; right. set_solver.
  - right; right. split; [|done]. case_bool_decide; set_solver.
  - by left.
  - right; left. split; [done|]. by destruct (turn_operation_id _).
Qed.

Lemma obey_descends x n l :
  (∀ s name, x = Ok (s, Goto name) → name ∈ l) →
  Forall (λ name, ∀ n', follow command_targets name = Ok n' → (rank n' < rank n)%nat) l →
  answers (obey x) (descends n).
Proof.
  intros H Hl. apply answers_lift. intros [s c] Hx. cbn. destruct c as [name|q]; [|by apply answers_ret].
  apply answers_lift. intros n' Hn. apply answers_ret. unfold descends. cbn.
  rewrite Forall_forall in Hl. by eapply Hl; [eapply H|].
Qed.

Ltac ranks := cbn [fmap list_fmap fst snd]; repeat first [apply Forall_nil_2 | apply Forall_cons_2];
  first [cbn; lia | intros ? [= <-]; cbn; lia].

Lemma run_node_descends ctx n s : answers (run_node ctx n s) (descends n).
Proof.
  destruct n; cbn [run_node];
    first
      [ apply branch_descends; ranks
      | apply then_descends; cbn; lia
      | apply choose_descends; intros ?; unfold after_operation_order, after_snapshot, after_evaluation;
        cbn; repeat case_match; cbn; lia
      | apply answers_bind; intros ?; by apply answers_ret
      | eapply obey_descends ].
  - intros ? ?. apply confirm_human_handoff_target.
  - unfold resumptions. ranks.
  - intros ? ?. apply confirm_order_priority_target.
  - ranks.
  - intros s' name [= H]. apply approval_target in H.
    instantiate (1 := ["cancel"; "proceed"]). set_solver.
  - ranks.
  - intros s' name H. apply operation_confirmation_target in H.
    instantiate (1 := ["cancel_delivery_investigation"; "cancel_operation"; "confirm_delivery_investigation";
      "confirm_manual_operation"; "submit_confirmed_operation"]). set_solver.
  - ranks.
Qed.

(** * A turn ends *)

Lemma rank_bounded n : (rank n ≤ 15)%nat.
Proof. destruct n; cbn; lia. Qed.

(** Once there are enough steps, more make no difference, and they do not run out. *)
Lemma run_from_enough ctx steps n s amb w :
  (rank n ≤ steps)%nat →
  (run_from ctx steps n s amb w).1 ≠ Ok OutOfSteps ∧
  ∀ more, run_from ctx (steps + more) n s amb w = run_from ctx steps n s amb w.
Proof.
  revert n s w. induction steps as [|steps IH]; intros n s w Hn.
  { by destruct n; cbn in Hn; lia. }
  cbn [run_from Nat.add]. unfold bind. destruct (run_node ctx n s amb w) as [[p|e] w1] eqn:E; [|done].
  pose proof (run_node_descends ctx n s amb w p w1 E) as Hd. unfold descends in Hd.
  destruct p.2 as [n'| |q]; [|done..]. apply IH. lia.
Qed.

(** C5: a turn always comes to an end: from any node of the graph, whatever the models
    answer, the customer replies and the database does, and with no more than fifteen of the
    twenty-five steps the runtime allows, it finishes, waits for the customer or fails; the
    step limit is never the reason, and more steps would change nothing. *)
Theorem turn_terminates (ctx : TurnContext) (n : node) (s : RefundState) (amb : Ambient database)
    (w : World database) :
  (rank n ≤ 15 ≤ RECURSION_LIMIT)%nat ∧
  (run_from ctx (rank n) n s amb w).1 ≠ Ok OutOfSteps ∧
  (∀ more, run_from ctx (rank n + more) n s amb w = run_from ctx (rank n) n s amb w) ∧
  (run_turn ctx s amb w).1 ≠ Ok OutOfSteps.
Proof.
  split; [split; [apply rank_bounded|unfold RECURSION_LIMIT; lia]|].
  destruct (run_from_enough ctx (rank n) n s amb w (le_n _)) as [H1 H2]. split; [exact H1|]. split; [exact H2|].
  unfold run_turn. refine (proj1 (run_from_enough ctx RECURSION_LIMIT check_risk_rules_n s amb w _)).
  unfold RECURSION_LIMIT. cbn. lia.
Qed.

(** * Interrupts *)

(** The question a node asks before it goes on. *)
Definition asks (n : node) : option question :=
  match n with
  | confirm_human_handoff_n => Some q_human_handoff
  | confirm_order_priority_n => Some q_order_priority
  | approval_node_n => Some q_refund
  | operation_confirmation_n => Some q_operation
  | _ => None
  end.

(** The turn once the customer has answered [q] with [r]. *)
Definition answering (ctx : TurnContext) (q : question) (r : reply) : TurnContext :=
  mkTurnContext (tn_assistants ctx) (λ q', if bool_decide (q' = q) then Some r else tn_replies ctx q')
    (tn_thread_id ctx) (tn_user ctx) (tn_unicode ctx) (tn_rules ctx) (tn_orders ctx) (tn_order_queries ctx)
    (tn_connection ctx) (tn_coordinated ctx) (tn_case_attempts ctx) (tn_operation_attempts ctx)
    (tn_support_contact ctx) (tn_local_date ctx).

Lemma run_node_answering ctx q r n s :
  asks n ≠ Some q → run_node (answering ctx q r) n s = run_node ctx n s.
Proof. intros Hq. destruct n; try reflexivity; destruct q; try reflexivity; by contradict Hq. Qed.

(** A node waits only for the answer to its own question, and changes nothing meanwhile. *)
Section Interrupts.
Context (ctx : TurnContext).

Definition waits (n : node) (s : RefundState) (m : M database (RefundState * progress)) : Prop :=
  ∀ amb w s' q w', m amb w = (Ok (s', Await q), w') → asks n = Some q ∧ s' = s ∧ w' = w ∧ tn_replies ctx q = None.

Lemma waits_bind {A} n s (m : M database A) f :
  (∀ a amb w s' q w', f a amb w ≠ (Ok (s', Await q), w')) → waits n s (bind m f).
Proof.
  intros Hf amb w s' q w'. unfold bind. destruct (m amb w) as [[a|e] w1]; [|done]. intros H. by apply Hf in H.
Qed.

Lemma waits_obey n s (x : res (RefundState * command)) :
  (∀ s' q, x = Ok (s', Waiting q) → asks n = Some q ∧ s' = s ∧ tn_replies ctx q = None) → waits n s (obey x).
Proof.
  intros Hx amb w s' q w'. unfold obey, bind, lift, ret. destruct x as [[s1 [name|q1]]|e]; cbn; [|intros H|done].
  - by destruct (follow command_targets name).
  - injection H as <- <- <-. by destruct (Hx s1 q1 eq_refl) as (? & -> & ?).
Qed.

Lemma run_node_waits n s : waits n s (run_node ctx n s).
Proof.
  destruct n; cbn [run_node];
    try (apply waits_bind; intros ? ? ? ? ? ?; unfold bind, lift, ret; repeat case_match; by simplify_eq);
    apply waits_obey; intros s' q.
  - unfold confirm_human_handoff. destruct (tn_replies ctx _) as [r|] eqn:?; [|by intros [= <- <-]].
    case_bool_decide; [done|]. case_bool_decide; [|done]. by intros (? & _ & [=])%res_bind_ok.
  - unfold confirm_order_priority. destruct (tn_replies ctx _) as [r|] eqn:?; [|by intros [= <- <-]].
    case_bool_decide; [done|]. by case_bool_decide.
  - unfold approval_node. destruct (tn_replies ctx _) as [r|] eqn:?; [done|by intros [= <- <-]].
  - unfold operation_confirmation_node. destruct (tn_replies ctx _) as [[[]| |]|] eqn:?; try done. by intros [= <- <-].
Qed.

Lemma run_node_asks n q s : asks n = Some q → tn_replies ctx q = None → run_node ctx n s = ret (s, Await q).
Proof.
  intros Hn Hq. destruct n; try done; injection Hn as <-; cbn [run_node];
    unfold confirm_human_handoff, confirm_order_priority, approval_node, operation_confirmation_node;
    by rewrite Hq.
Qed.

Lemma suspended_unanswered steps n s amb w q n' s' w' :
  run_from ctx steps n s amb w = (Ok (Suspended q n' s'), w') → tn_replies ctx q = None.
Proof.
  revert n s w. induction steps as [|steps IH]; intros n s w; cbn [run_from]; [done|].
  unfold bind. destruct (run_node ctx n s amb w) as [[[s1 [n1| |q1]]|e] w1] eqn:E; try done; cbn.
  - apply IH.
  - intros [= <- <- <- <-]. by apply (run_node_waits n s) in E as (_ & _ & _ & ?).
Qed.

Lemma run_from_resumed steps n s amb w q r n' s' w' :
  (rank n ≤ steps)%nat → run_from ctx steps n s amb w = (Ok (Suspended q n' s'), w') →
  run_from (answering ctx q r) steps n s amb w = run_from (answering ctx q r) (rank n') n' s' amb w'.
Proof.
  intros Hn Hrun. pose proof (suspended_unanswered _ _ _ _ _ _ _ _ _ Hrun) as Hq.
  revert n s w Hn Hrun. induction steps as [|steps IH]; intros n s w Hn Hrun; [done|].
  destruct (decide (asks n = Some q)) as [Ha|Ha].
  - cbn [run_from] in Hrun. rewrite (run_node_asks n q s Ha Hq) in Hrun. cbn in Hrun.
    injection Hrun as <- <- <-.
    destruct (run_from_enough (answering ctx q r) (rank n) n s amb w (le_n _)) as [_ He].
    rewrite <- (He (S steps - rank n)%nat). f_equal. lia.
  - cbn [run_from] in Hrun |- *. rewrite run_node_answering by done. unfold bind in *.
    destruct (run_node ctx n s amb w) as [[p|e] w1] eqn:E; [|done].
    pose proof (run_node_descends ctx n s amb w p w1 E) as Hd. unfold descends in Hd.
    destruct p as [s1 [n1| |q1]]; cbn in *; [|done|].
    + apply IH; [lia|done].
    + injection Hrun as <- <- <- <-. by apply (run_node_waits n s) in E as (? & _).
Qed.
End Interrupts.

(** C38: answering an interrupt is like having known the answer: when a turn waits for the
    customer, running the whole turn with the answer gives the same result and the same
    database as resuming the waiting node with it, whatever other workers commit. *)
Theorem resumed_turn (ctx : TurnContext) (s s' : RefundState) (q : question) (r : reply) (n : node)
    (amb : Ambient database) (w w' : World database) :
  run_turn ctx s amb w = (Ok (Suspended q n s'), w') →
  run_turn (answering ctx q r) s amb w = run_from (answering ctx q r) RECURSION_LIMIT n s' amb w'.
Proof.
  intros H. assert (∀ m, (rank m ≤ RECURSION_LIMIT)%nat) as Hl
    by (intros m; pose proof (rank_bounded m); unfold RECURSION_LIMIT; lia).
  unfold run_turn in *. rewrite (run_from_resumed ctx _ _ _ _ _ _ r _ _ _ (Hl _) H).
  destruct (run_from_enough (answering ctx q r) (rank n) n s' amb w' (le_n _)) as [_ He].
  rewrite <- (He (RECURSION_LIMIT - rank n)%nat). f_equal. specialize (Hl n). lia.
Qed.

Definition demo_waiting : TurnContext :=
  demo_turn (mkDemoAnswers rl_none in_cancellation_request false demo_cancellation_request) demo_silent
    demo_new_order (Ok "shop-1").

Lemma resumed_turn_witness :
  ∃ n s' w', run_turn demo_waiting (demo_message "Please cancel my order") idle_ambient (start empty_db)
               = (Ok (Suspended q_operation n s'), w') ∧
    run_turn (answering demo_waiting q_operation (ReplyBool true)) (demo_message "Please cancel my order")
      idle_ambient (start empty_db)
      = run_from (answering demo_waiting q_operation (ReplyBool true)) RECURSION_LIMIT n s' idle_ambient w'.
Proof.
  destruct (run_turn demo_waiting (demo_message "Please cancel my order") idle_ambient (start empty_db))
    as [r w'] eqn:E.
  assert (waiting_for r = Some q_operation) as Hr.
  { change (waiting_for (r, w').1 = Some q_operation). rewrite <- E. vm_compute. reflexivity. }
  destruct r as [[s|q n s'|]|e]; try discriminate Hr. injection Hr as ->.
  exists n, s', w'. split; [reflexivity|]. exact (resumed_turn _ _ _ _ _ _ _ _ _ E).
Defined.
