(* ===== verification/GraphReady.v ===== *)
(** The graph is well routed: every node of a turn finds in the state what it needs, and every
    router knows where to go, but for one answer to the offer of human help. *)
From S2P Require Import Prelude Effects Auth OperationModels OperationPolicy CaseModels RiskMatcher RiskTheorems Conversation Database Transactions Refunds Nodes GraphSteps.

(** * What a node needs *)

Definition tolerable (s : RefundState) : Prop :=
  risk_level s = Some rl_none ∨ risk_level s = Some rl_low ∨ risk_level s = Some rl_medium.
Definition has_text (s : RefundState) : Prop := is_Some (latest_text_user_message s).
Definition decided_on (P : Intent → bool) (s : RefundState) : Prop := ∃ d, turn_decision s = Some d ∧ P d = true.
Definition order_number (s : RefundState) : Prop := ∃ o, of_order_id (order_facts s) = Some o ∧ o ≠ "".

Definition ready (n : node) (s : RefundState) : Prop :=
  match n with
  | llm_call_router_n => tolerable s
  | classify_formal_complaint_n => tolerable s ∧ has_text s ∧ turn_decision s = Some in_complaint
  | confirm_human_handoff_n => tolerable s ∧ has_text s ∧ is_Some (turn_decision s)
  | confirm_order_priority_n | resume_order_flow_n =>
      has_text s ∧ decided_on (λ d, order_query_intent d || operation_intent d) s
  | handle_complaint_n | handle_noncritical_risk_n => has_text s
  | detect_order_n => decided_on order_query_intent s
  | search_node_n => decided_on order_query_intent s ∧ order_number s
  | order_response_n => turn_decision s = Some in_order_inquiry ∧ is_Some (of_order_info (order_facts s))
  | check_refund_eligibility_n => turn_decision s = Some in_refund_request ∧ is_Some (of_order_info (order_facts s))
  | approval_node_n | proceed_n => is_Some (of_order_id (order_facts s))
  | detect_operation_order_n => has_text s
  | load_operation_snapshot_n => has_text s ∧ order_number s
  | extract_operation_request_n => has_text s ∧ is_Some (operation_snapshot (operation_facts s))
  | evaluate_operation_request_n =>
      has_text s ∧ is_Some (operation_snapshot (operation_facts s)) ∧ is_Some (operation_extraction (operation_facts s))
  | submit_confirmed_operation_n | confirm_manual_operation_n | cancel_operation_n =>
      is_Some (turn_operation_id (operation_facts s))
  | _ => True
  end.

(** The nodes with conditional edges: what they do to the state, and the router after them. *)
Definition routing (n : node) : option ((RefundState → res string) * list (string * node)) :=
  match n with
  | check_risk_rules_n => Some (route_after_risk_rules, risk_rules_edges)
  | classify_semantic_risk_n => Some (route_after_semantic_risk, semantic_risk_edges)
  | llm_call_router_n => Some (route_by_intent_and_risk, router_edges)
  | classify_formal_complaint_n => Some (route_after_formal_complaint, complaint_edges)
  | resume_order_flow_n => Some (route_after_order_priority, resume_edges)
  | detect_order_n => Some (route_after_detection, detection_edges)
  | search_node_n => Some (route_after_order_lookup, lookup_edges)
  | check_refund_eligibility_n => Some (route_after_policy, policy_edges)
  | _ => None
  end.
(** What a node itself does, before the graph decides where to go: the state it returns and,
    for the nodes that return a [Command], the command. *)
Definition plain (m : M database RefundState) : M database (RefundState * option command) :=
  s <- m; ret (s, None).
Definition commanding (x : res (RefundState * command)) : M database (RefundState * option command) :=
  p <- lift x; ret (p.1, Some p.2).
Definition node_body (ctx : TurnContext) (n : node) (s : RefundState) : M database (RefundState * option command) :=
  match n with
  | check_risk_rules_n => plain (ret (check_risk_rules ctx s))
  | classify_semantic_risk_n => plain (lift (classify_semantic_risk ctx s))
  | llm_call_router_n => plain (lift (llm_call_router ctx s))
  | classify_formal_complaint_n => plain (lift (classify_formal_complaint ctx s))
  | confirm_human_handoff_n => commanding (confirm_human_handoff ctx s)
  | acknowledge_human_handoff_n => plain (ret (acknowledge_human_handoff s))
  | confirm_order_priority_n => commanding (confirm_order_priority ctx s)
  | resume_order_flow_n => plain (ret s)
  | detect_order_n => plain (lift (detect_order ctx s))
  | search_node_n => plain (search_order_node ctx s)
  | check_refund_eligibility_n => plain (check_refund_eligibility_node ctx s)
  | order_response_n => plain (lift (order_response_node s))
  | approval_node_n => commanding (Ok (approval_node ctx s))
  | proceed_n => plain (create_refund_node ctx s)
  | cancel_n => plain (ret (cancelled_node s))
  | handle_complaint_n => plain (lift (handle_complaint ctx s))
  | handle_noncritical_risk_n => plain (lift (handle_noncritical_risk ctx s))
  | handle_critical_risk_n => plain (ret (handle_critical_risk ctx s))
  | support_case_status_n => plain (support_case_status_node ctx s)
  | finalize_case_handoff_n => plain (finalize_case_handoff ctx s)
  | attach_operation_case_n => plain (attach_operation_case ctx s)
  | detect_operation_order_n => plain (lift (operation_detect_order ctx s))
  | load_operation_snapshot_n => plain (lift (load_operation_snapshot ctx s))
  | extract_operation_request_n => plain (lift (extract_operation_request ctx s))
  | evaluate_operation_request_n => plain (evaluate_operation_request ctx s)
  | operation_confirmation_n => commanding (operation_confirmation_node ctx s)
  | submit_confirmed_operation_n => plain (submit_confirmed_operation_node ctx s)
  | confirm_manual_operation_n => plain (confirm_manual_operation ctx s)
  | cancel_operation_n => plain (cancel_operation ctx s)
  | confirm_delivery_investigation_n => plain (ret (confirm_delivery_investigation_node s))
  | cancel_delivery_investigation_n => plain (ret (cancel_delivery_investigation_node s))
  end.

(** The graph goes on from a node: to a node that is ready, which is the one the command
    names, or the one at the label the router answers with. *)
Definition goes_on (n : node) (c : option command) (s' : RefundState) (n' : node) : Prop :=
  ready n' s' ∧
  (∀ name, c = Some (Goto name) → (name, n') ∈ command_targets) ∧
  (∀ route edges, routing n = Some (route, edges) → ∃ label, route s' = Ok label ∧ (label, n') ∈ edges).

(** A step of the graph is the node itself and then its way on; nothing fails in between. *)
Definition well_led (n : node) (body : M database (RefundState * option command))
    (step : M database (RefundState * progress)) : Prop :=
  ∀ amb w,
    match body amb w with
    | (Err e, w') => step amb w = (Err e, w')
    | (Ok (s', Some (Waiting q)), w') => step amb w = (Ok (s', Await q), w')
    | (Ok (s', c), w') =>
        if bool_decide (n = attach_operation_case_n) then step amb w = (Ok (s', Finish), w')
        else ∃ n', step amb w = (Ok (s', Next n'), w') ∧ goes_on n c s' n'
    end.

(** * Messages *)

Lemma last_human_app l m : last_human (l ++ [AIMessage m]) = last_human l.
Proof. induction l as [|x l IH]; [done|]. cbn. by rewrite IH. Qed.

Lemma latest_say m s : latest_text_user_message (say m s) = latest_text_user_message s.
Proof. unfold latest_text_user_message, say. cbn. by rewrite last_human_app. Qed.

Lemma has_text_say m s : has_text (say m s) ↔ has_text s.
Proof. unfold has_text. by rewrite latest_say. Qed.

(** * Answers *)

Lemma answers_weaken {A} (m : M database A) (P Q : A → Prop) : (∀ a, P a → Q a) → answers m P → answers m Q.
Proof. intros H Hm amb w a w' Hr. by eapply H, Hm. Qed.
Lemma answers_pure {A} (x : res A) (P : A → Prop) : (∀ a, x = Ok a → P a) → answers (lift x) P.
Proof. intros H amb w a w' [= E _]. by apply H. Qed.
Lemma answers_any {A} (m : M database A) : answers m (λ _, True).
Proof. done. Qed.

(** What the router finds: a destination that is ready. *)
Definition routed (route : RefundState → res string) (edges : list (string * node)) (s : RefundState) : Prop :=
  ∃ label n, route s = Ok label ∧ follow edges label = Ok n ∧ ready n s.

Ltac leads_to := eexists _, _; (split; [reflexivity|]); (split; [reflexivity|]).

Section Ready.
Context (ctx : TurnContext).

Lemma router_routed s s' : tolerable s → llm_call_router ctx s = Ok s' → routed route_by_intent_and_risk router_edges s'.
Proof.
  intros Ht. unfold llm_call_router. destruct (latest_text_user_message s) as [[i content]|] eqn:Htext.
  2:{ intros [= <-]. by leads_to. }
  intros (r & _ & [= <-])%res_bind_ok. set (s' := set_handoff _ _).
  assert (has_text s') as Hx by (exists (i, content); exact Htext).
  assert (tolerable s') as Ht' by exact Ht.
  assert (turn_decision s' = Some (rte_step r)) as Hd by done.
  unfold routed, route_by_intent_and_risk. rewrite Hd.
  assert (human_handoff_requested (handoff_facts s') = rte_human_handoff_requested r) as -> by done.
  unfold is_low_or_medium. destruct (rte_human_handoff_requested r), (rte_step r) eqn:Hst;
    try (by leads_to; split_and!; eauto);
    (destruct Ht' as [Hl|[Hl|Hl]]; rewrite !Hl; cbn;
      leads_to; first [done | exact Hx | by eexists | split; [exact Hx|by eexists]]).
Qed.

Lemma complaint_routed s s' :
  ready classify_formal_complaint_n s → classify_formal_complaint ctx s = Ok s' →
  routed route_after_formal_complaint complaint_edges s'.
Proof.
  intros (Ht & Hx & Hd) H. unfold classify_formal_complaint in H.
  assert (tolerable s' ∧ has_text s' ∧ turn_decision s' = Some in_complaint) as (Ht' & Hx' & Hd').
  { destruct (latest_text_user_message s); [apply res_bind_ok in H as (r & _ & H)|]; injection H as <-; by split_and!. }
  unfold routed, route_after_formal_complaint, is_low_or_medium.
  destruct (human_handoff_requested _); [leads_to; split_and!; eauto|].
  destruct Ht' as [Hl|[Hl|Hl]]; rewrite !Hl; by leads_to.
Qed.

Lemma detection_keeps s s' : detect_order ctx s = Ok s' →
  turn_decision s' = turn_decision s ∧ latest_text_user_message s' = latest_text_user_message s.
Proof.
  unfold detect_order. intros H. destruct (latest_text_user_message s) as [[i content]|] eqn:Htext.
  - apply res_bind_ok in H as (r & _ & H). repeat (case_match; simplify_eq); rewrite ?latest_say; done.
  - injection H as <-. by rewrite latest_say.
Qed.

Lemma detection_routed s s' :
  ready detect_order_n s → detect_order ctx s = Ok s' → routed route_after_detection detection_edges s'.
Proof.
  intros (d & Hd & Hq) H. destruct (detection_keeps s s' H) as [Hd' _].
  unfold routed, route_after_detection. case_bool_decide as Ho; leads_to; [|done].
  split; [exists d; by rewrite Hd'|].
  destruct (of_order_id (order_facts s')) as [o|] eqn:E; [by exists o|done].
Qed.

Lemma search_keeps s : answers (search_order_node ctx s) (λ s', turn_decision s' = turn_decision s ∧
  (of_search_success (order_facts s') = true → is_Some (of_order_info (order_facts s')))).
Proof.
  unfold search_order_node. apply answers_lift. intros scope _. destruct (customer_id scope); [|by apply answers_ret].
  apply answers_bind. intros day. apply answers_lift. intros o _. apply answers_lift. intros [x|] _; apply answers_ret; [|done].
  split; [done|]. by eexists.
Qed.

Lemma search_routed s :
  ready search_node_n s → answers (search_order_node ctx s) (routed route_after_order_lookup lookup_edges).
Proof.
  intros [(d & Hd & Hq) _]. eapply answers_weaken; [|apply search_keeps]. intros s' [Hd' Hi].
  unfold routed, route_after_order_lookup. rewrite Hd', Hd.
  destruct (of_search_success (order_facts s')); cbn [negb]; [|by leads_to].
  specialize (Hi eq_refl). destruct d; try discriminate Hq; leads_to; (split; [by rewrite Hd'|done]).
Qed.

Lemma policy_order_id o day r : check_refund_policy o day = r →
  rpr_eligible r = true → rpr_requires_manual_review r = false → is_Some (rpr_order_id r).
Proof. intros <-. unfold check_refund_policy. repeat case_match; cbn; intros; try done; by eexists. Qed.

Lemma refund_routed s : answers (check_refund_eligibility_node ctx s) (routed route_after_policy policy_edges).
Proof.
  unfold check_refund_eligibility_node. apply answers_bind. intros day. apply answers_ret.
  set (r := check_refund_policy _ day). pose proof (policy_order_id _ day r eq_refl) as Hid.
  unfold routed, route_after_policy. destruct (rpr_eligible r); cbn [negb]; [|by leads_to].
  destruct (rpr_requires_manual_review r); [by leads_to|]. leads_to. by apply Hid.
Qed.

(** * From node to node *)

Lemma follow_edge edges label n : follow edges label = Ok n → (label, n) ∈ edges.
Proof.
  unfold follow. destruct (list_find _ edges) as [[i [l x]]|] eqn:E; [|done]. intros [= <-].
  apply list_find_Some in E as (E & Hl & _). cbn in Hl. subst l. by eapply list_elem_of_lookup_2.
Qed.

Lemma branch_led n m route edges :
  n ≠ attach_operation_case_n → routing n = Some (route, edges) → answers m (routed route edges) →
  well_led n (plain m) (branch m route edges).
Proof.
  intros Hn Hr Hm amb w. unfold plain, branch, bind, lift, ret.
  destruct (m amb w) as [[s|e] w1] eqn:E; [|done]. destruct (Hm _ _ _ _ E) as (label & n' & Hl & Hf & Hn').
  rewrite Hl, Hf, bool_decide_eq_false_2 by done. exists n'. unfold goes_on. split_and!; try done.
  intros ? ? Hr'. rewrite Hr in Hr'. injection Hr' as <- <-. exists label. split; [done|by apply follow_edge].
Qed.

Lemma choose_led n m next :
  n ≠ attach_operation_case_n → routing n = None → answers m (λ s, ready (next s) s) →
  well_led n (plain m) (choose m next).
Proof.
  intros Hn Hr Hm amb w. unfold plain, choose, bind, ret.
  destruct (m amb w) as [[s|e] w1] eqn:E; [|done]. rewrite bool_decide_eq_false_2 by done.
  exists (next s). split; [done|]. unfold goes_on. split_and!; [by eapply (Hm _ _ _ _ E)|done|by rewrite Hr].
Qed.

Lemma then_led n m n' :
  n ≠ attach_operation_case_n → routing n = None → answers m (ready n') → well_led n (plain m) (then_ m n').
Proof. apply choose_led. Qed.

Lemma obey_led n x :
  n ≠ attach_operation_case_n → routing n = None →
  (∀ s name, x = Ok (s, Goto name) → ∃ n', follow command_targets name = Ok n' ∧ ready n' s) →
  well_led n (commanding x) (obey x).
Proof.
  intros Hn Hr H amb w. unfold commanding, obey, bind, lift, ret. destruct x as [[s [name|q]]|e]; [|done..]. cbn.
  destruct (H s name eq_refl) as (n' & Hf & Hn'). rewrite Hf, bool_decide_eq_false_2 by done.
  exists n'. split; [done|]. unfold goes_on. split_and!; [done| |by rewrite Hr]. intros ? [= <-]. by apply follow_edge.
Qed.

(** Declining human help leads on, but for a question about the status of a case. *)
Lemma declined_ready s name :
  has_text s → route_after_human_handoff_declined s = Ok name →
  ∃ n, follow command_targets name = Ok n ∧ ready n s.
Proof.
  intros Hx. unfold route_after_human_handoff_declined, is_low_or_medium.
  destruct (turn_decision s) as [[]|] eqn:Hd, (risk_level s) as [[]|] eqn:Hl; try discriminate;
    intros [= <-]; (eexists; split; [reflexivity|]); cbn [ready]; unfold decided_on; rewrite ?Hd;
    repeat match goal with |- _ ∧ _ => split end;
    first [exact Hx | by exists in_refund_request | by exists in_order_inquiry | by eexists].
Qed.

Lemma declining_human s :
  tolerable s → is_Some (turn_decision s) → tn_replies ctx q_human_handoff = Some (ReplyText "continue_self_service") →
  if bool_decide (turn_decision s = Some in_support_case_status)
  then confirm_human_handoff ctx s = Err (ValueError "Cannot resume self-service flow")
  else ∃ s' name, confirm_human_handoff ctx s = Ok (s', Goto name).
Proof.
  intros Ht [d Hd] Hc. unfold confirm_human_handoff. rewrite Hc.
  unfold route_after_human_handoff_declined, is_low_or_medium. rewrite Hd.
  destruct Ht as [Hl|[Hl|Hl]]; rewrite !Hl; destruct d; cbn; first [done | by do 2 eexists].
Qed.

Lemma confirm_human_ready s s' name :
  ready confirm_human_handoff_n s → confirm_human_handoff ctx s = Ok (s', Goto name) →
  ∃ n, follow command_targets name = Ok n ∧ ready n s'.
Proof.
  intros (_ & Hx & _). unfold confirm_human_handoff. destruct (tn_replies ctx _) as [r|]; [|done].
  case_bool_decide; [intros [= <- <-]; by eexists|]. case_bool_decide; [|done].
  intros (destination & Hdest & [= <- <-])%res_bind_ok.
  destruct (declined_ready s destination Hx Hdest) as (n & Hn & Hr). exists n. split; [done|].
  unfold resumptions in *. apply declined_target in Hdest. unfold resumptions in Hdest.
  repeat (rewrite elem_of_cons in Hdest; destruct Hdest as [->|Hdest]; [injection Hn as <-; exact Hr|]).
  by apply not_elem_of_nil in Hdest.
Qed.

Lemma confirm_priority_ready s s' name :
  ready confirm_order_priority_n s → confirm_order_priority ctx s = Ok (s', Goto name) →
  ∃ n, follow command_targets name = Ok n ∧ ready n s'.
Proof.
  intros [Hx Hd]. unfold confirm_order_priority. destruct (tn_replies ctx _) as [r|]; [|done].
  case_bool_decide; [intros [= <- <-]; eexists; split; [reflexivity|by split]|].
  case_bool_decide; [intros [= <- <-]; by eexists|done].
Qed.

Lemma operation_confirmation_ready s s' name :
  operation_confirmation_node ctx s = Ok (s', Goto name) → ∃ n, follow command_targets name = Ok n ∧ ready n s'.
Proof.
  unfold operation_confirmation_node. destruct (tn_replies ctx _) as [[[]| |]|]; try done; intros [= <- <-];
    case_bool_decide as Hd; try case_bool_decide; (eexists; split; [reflexivity|]); try done;
    cbn; by destruct (turn_operation_id _).
Qed.

Lemma approval_ready s s' name :
  ready approval_node_n s → Ok (approval_node ctx s) = Ok (s', Goto name) →
  ∃ n, follow command_targets name = Ok n ∧ ready n s'.
Proof.
  intros Ho [= H]. unfold approval_node in H. destruct (tn_replies ctx _); [|done]. injection H as <- <-.
  case_bool_decide; by eexists.
Qed.

Lemma load_ready s : ready load_operation_snapshot_n s →
  answers (lift (load_operation_snapshot ctx s)) (λ s', ready (after_snapshot s') s').
Proof.
  intros [Hx _]. apply answers_pure. intros s' H. unfold load_operation_snapshot in H.
  assert (has_text s' ∧ operation_lookup_success (operation_facts s') = bool_decide (is_Some (operation_snapshot (operation_facts s'))))
    as [Hx' Hs].
  { destruct (of_order_id _) as [o|]; [|by injection H as <-].
    apply res_bind_ok in H as (scope & _ & H). destruct (customer_id scope) as [c|].
    - apply res_bind_ok in H as ([x|] & _ & [= <-]); [by split|]. by rewrite has_text_say.
    - injection H as <-. by rewrite has_text_say. }
  unfold after_snapshot. rewrite Hs. by case_bool_decide.
Qed.

Lemma extract_ready s s' : ready extract_operation_request_n s → extract_operation_request ctx s = Ok s' →
  ready evaluate_operation_request_n s'.
Proof.
  intros [Hx Hs]. unfold extract_operation_request. destruct (latest_text_user_message s) as [[i c]|] eqn:E.
  - intros (x & _ & [= <-])%res_bind_ok. split_and!; [exact Hx|exact Hs|by eexists].
  - unfold has_text in Hx. rewrite E in Hx. by destruct Hx.
Qed.

(** Every router knows where to go. *)
Lemma node_routed n s :
  ready n s → routing n ≠ None → well_led n (node_body ctx n s) (run_node ctx n s).
Proof.
  intros Hn Hr. destruct n; try done; cbn [node_body run_node]; (apply branch_led; [done|reflexivity|]).
  - apply answers_ret. unfold routed, route_after_risk_rules. destruct (risk_hard_critical _); by leads_to.
  - apply answers_pure. intros s' H. unfold classify_semantic_risk in H.
    assert (∃ l, risk_level s' = Some l) as [l Hl].
    { destruct (latest_text_user_message s); [apply res_bind_ok in H as (r & _ & H)|]; injection H as <-; by eexists. }
    unfold routed, route_after_semantic_risk. rewrite Hl. unfold ready, tolerable.
    destruct l; leads_to; rewrite ?Hl; auto.
  - apply answers_pure. intros s'. by apply router_routed.
  - apply answers_pure. intros s'. by apply complaint_routed.
  - apply answers_ret. destruct Hn as (Hx & d & Hd & Hq). unfold routed, route_after_order_priority. rewrite Hd.
    destruct (order_query_intent d) eqn:E; [leads_to; by exists d|].
    destruct (operation_intent d); [by leads_to|done].
  - apply answers_pure. intros s'. by apply detection_routed.
  - by apply search_routed.
  - apply refund_routed.
Qed.

Lemma node_led n s : ready n s → well_led n (node_body ctx n s) (run_node ctx n s).
Proof.
  intros Hn. destruct (decide (routing n = None)) as [Hr|Hr]; [|by apply node_routed].
  destruct n; try discriminate Hr; cbn [node_body run_node]; try (by apply then_led; [..|apply answers_any]).
  - apply obey_led; [done..|]. intros s' name. by apply confirm_human_ready.
  - apply obey_led; [done..|]. intros s' name. by apply confirm_priority_ready.
  - apply obey_led; [done..|]. intros s' name. by apply approval_ready.
  - intros amb w. unfold plain, bind, ret. by destruct (attach_operation_case ctx s amb w) as [[s'|e] w'].
  - apply choose_led; [done..|]. apply answers_pure. intros s' H. destruct (detection_keeps s s' H) as [_ Hl].
    unfold after_operation_order. case_bool_decide as Ho; [|done].
    split; [unfold has_text; by rewrite Hl|].
    destruct (of_order_id (order_facts s')) as [o|] eqn:E; [by exists o|done].
  - by apply choose_led, load_ready.
  - apply then_led; [done..|]. apply answers_pure. intros s' H. by eapply extract_ready.
  - apply choose_led; [done..|]. eapply answers_weaken; [|apply answers_any]. intros s' _.
    unfold after_evaluation. by destruct (_ || _).
  - apply obey_led; [done..|]. apply operation_confirmation_ready.
Qed.

Lemma led_ready n s amb w n' s' w' :
  well_led n (node_body ctx n s) (run_node ctx n s) → run_node ctx n s amb w = (Ok (s', Next n'), w') → ready n' s'.
Proof.
  intros H Hrun. specialize (H amb w).
  destruct (node_body ctx n s amb w) as [[[s1 [[name|q]|]]|e] w1]; try case_bool_decide;
    repeat match goal with H : ∃ _, _ |- _ => destruct H as (? & H & Hg) end;
    rewrite Hrun in H; try done; injection H as <- <- <-; apply Hg.
Qed.
End Ready.

(** * The nodes of a turn *)

(** The nodes a turn can come to, with the state they find, whatever the database does. *)
Inductive visits (ctx : TurnContext) (s0 : RefundState) : node → RefundState → Prop :=
  | visits_start : visits ctx s0 check_risk_rules_n s0
  | visits_next n s amb w n' s' w' :
      visits ctx s0 n s → run_node ctx n s amb w = (Ok (s', Next n'), w') → visits ctx s0 n' s'.

Lemma visits_ready ctx s0 n s : visits ctx s0 n s → ready n s.
Proof.
  induction 1 as [|n s amb w n' s' w' _ IH Hrun]; [done|]. by eapply led_ready; [apply node_led, IH|].
Qed.

(** C4: the graph is well routed.  Every node a turn can come to finds in the state what it
    reads: the routers a decision and a risk level they know, the order nodes an order number
    or the order found under it, the operation nodes the snapshot, the extraction and the
    identifier of the stored operation.  The graph adds no failure of its own: a step fails
    only where the node itself does; a node that asks a question suspends the turn; the last
    node ends it; and every other node that succeeds is followed by a node, ready for the
    state it is given, which is the node its command names, or the one the answer of its
    router has an edge to.  The one failure the routing causes is inside a node: a customer who
    declines the offer of human help goes on, unless the question was about the status of a
    support case, which ends in an error. *)
Theorem turn_well_routed (ctx : TurnContext) (s0 : RefundState) (n : node) (s : RefundState) :
  visits ctx s0 n s →
  ready n s ∧
  (∀ amb w,
    match node_body ctx n s amb w with
    | (Err e, w') => run_node ctx n s amb w = (Err e, w')
    | (Ok (s', Some (Waiting q)), w') => run_node ctx n s amb w = (Ok (s', Await q), w')
    | (Ok (s', c), w') =>
        if bool_decide (n = attach_operation_case_n) then run_node ctx n s amb w = (Ok (s', Finish), w')
        else ∃ n', run_node ctx n s amb w = (Ok (s', Next n'), w') ∧ ready n' s' ∧
               (∀ name, c = Some (Goto name) → (name, n') ∈ command_targets) ∧
               (∀ route edges, routing n = Some (route, edges) →
                  ∃ label, route s' = Ok label ∧ (label, n') ∈ edges)
    end) ∧
  (n = confirm_human_handoff_n → tn_replies ctx q_human_handoff = Some (ReplyText "continue_self_service") →
   if bool_decide (turn_decision s = Some in_support_case_status)
   then confirm_human_handoff ctx s = Err (ValueError "Cannot resume self-service flow")
   else ∃ s' name, confirm_human_handoff ctx s = Ok (s', Goto name)).
Proof.
  intros Hv%visits_ready. split_and!; [done|exact (node_led ctx n s Hv)|].
  intros ->. destruct Hv as (Ht & _ & Hd). by apply declining_human.
Qed.

Definition demo_asks_for_human : TurnContext :=
  demo_turn (mkDemoAnswers rl_none in_support_case_status true demo_return_request) demo_declines demo_snapshot (Ok "shop-1").
Definition demo_question : RefundState := demo_message "What about my case? I want a human.".
Definition demo_step (n : node) (s : RefundState) : RefundState :=
  match outcome (run_node demo_asks_for_human n s) empty_db with Ok (s', _) => s' | Err _ => s end.
Definition demo_offered : RefundState :=
  demo_step llm_call_router_n (demo_step classify_semantic_risk_n (demo_step check_risk_rules_n demo_question)).

(** The exception happens: the customer asks for a human about a case, changes their mind, and
    the turn fails. *)
Lemma turn_well_routed_witness :
  visits demo_asks_for_human demo_question confirm_human_handoff_n demo_offered ∧
  confirm_human_handoff demo_asks_for_human demo_offered = Err (ValueError "Cannot resume self-service flow") ∧
  outcome (run_turn demo_asks_for_human demo_question) empty_db = Err (ValueError "Cannot resume self-service flow").
Proof.
  assert (visits demo_asks_for_human demo_question confirm_human_handoff_n demo_offered) as Hv.
  { eapply (visits_next _ _ llm_call_router_n
      (demo_step classify_semantic_risk_n (demo_step check_risk_rules_n demo_question)) idle_ambient (start empty_db)); [|vm_compute; reflexivity].
    eapply (visits_next _ _ classify_semantic_risk_n (demo_step check_risk_rules_n demo_question) idle_ambient (start empty_db)); [|vm_compute; reflexivity].
    eapply (visits_next _ _ check_risk_rules_n demo_question idle_ambient (start empty_db)); [|vm_compute; reflexivity].
    apply visits_start. }
  split; [exact Hv|]. split; [|vm_compute; reflexivity].
  exact (proj2 (proj2 (turn_well_routed _ _ _ _ Hv)) eq_refl eq_refl).
Defined.
