(* ===== verification/ProviderViews.v ===== *)
(** The provider operations console, reading: the contracts of
    [integrations/provider_operations_contracts.py] and the read half of
    [integrations/provider_operations_postgres.py], behind
    [integrations/provider_operations_service.py]. *)
From S2P Require Import Prelude Effects Auth OperationModels CaseModels Envelope InboxModels Database CaseRepository.

(** * Field patterns *)

Definition is_alpha_num (c : ascii) : bool :=
  let n := N_of_ascii c in
  ((48 <=? n) && (n <=? 57) || (65 <=? n) && (n <=? 90) || (97 <=? n) && (n <=? 122))%N.
(** [A-Za-z0-9._:-] *)
Definition is_request_char (c : ascii) : bool :=
  is_alpha_num c || Ascii.eqb c "." || Ascii.eqb c "_" || Ascii.eqb c ":" || Ascii.eqb c "-".
Definition is_lower (c : ascii) : bool := let n := N_of_ascii c in ((97 <=? n) && (n <=? 122))%N.
(** [a-z0-9_] *)
Definition is_code_char (c : ascii) : bool :=
  let n := N_of_ascii c in is_lower c || ((48 <=? n) && (n <=? 57))%N || Ascii.eqb c "_".

(** A first character, then up to 127 more. *)
Fixpoint up_to (n : nat) (p : ascii → bool) (s : string) : bool :=
  match s, n with
  | EmptyString, _ => true
  | String c s', S n' => p c && up_to n' p s'
  | String _ _, O => false
  end.
Definition matches (first rest : ascii → bool) (s : string) : bool :=
  match s with String c s' => first c && up_to 127 rest s' | EmptyString => false end.

(** [_SAFE_REQUEST_ID_PATTERN], [_SAFE_ERROR_CODE_PATTERN] *)
Definition request_id_ok : string → bool := matches is_alpha_num is_request_char.
Definition error_code_ok : string → bool := matches is_lower is_code_char.

Definition safe_request_id (value : string) : option string :=
  if request_id_ok value then Some value else None.
Definition safe_error_code (value : option string) : option string :=
  match value with Some s => if error_code_ok s then Some s else None | None => None end.

(** * Contracts *)

Record ProviderRedriveRequest := mkProviderRedriveRequest {
  rq_request_id : string;
  rq_reason_code : ProviderRedriveReasonCode;
}.

Definition ProviderRedriveRequest_validate (r : ProviderRedriveRequest) : res ProviderRedriveRequest :=
  let r := mkProviderRedriveRequest (strip (rq_request_id r)) (rq_reason_code r) in
  raise_if (negb (request_id_ok (rq_request_id r))) (ValidationError "ProviderRedriveRequest");;;
  Ok r.

(** [ProviderOutboxQueueSummary] and [ProviderInboxQueueSummary] *)
Record QueueSummary (S : Type) := mkQueueSummary {
  qs_status : S;
  qs_count : Z;
  qs_oldest_available_at : option instant;
}.
Arguments mkQueueSummary {S} _ _ _.
Arguments qs_status {S} _.
Arguments qs_count {S} _.
Arguments qs_oldest_available_at {S} _.

Record ProviderQueueOverview := mkProviderQueueOverview {
  qo_outbox : list (QueueSummary OutboxDeliveryStatus);
  qo_inbox : list (QueueSummary InboxProcessingStatus);
  qo_generated_at : instant;
}.

(** [DeliveryAttemptOutcome | InboxAttemptOutcome] *)
Inductive ProviderAttemptOutcome :=
  | po_delivery (o : DeliveryAttemptOutcome)
  | po_processing (o : InboxAttemptOutcome).

Inductive ProviderQueue := queue_outbox | queue_inbox.

#[export] Instance ProviderQueue_eq_dec : EqDecision ProviderQueue.
Proof. solve_decision. Defined.

Record ProviderAttemptActivity := mkProviderAttemptActivity {
  pa_queue : ProviderQueue;
  pa_resource_id : uuid;
  pa_command_id : uuid;
  pa_cycle : Z;
  pa_attempt_number : Z;
  pa_outcome : option ProviderAttemptOutcome;
  pa_failure_kind : option ProviderFailureKind;
  pa_http_status : option Z;
  pa_safe_error_code : option string;
  pa_started_at : instant;
  pa_finished_at : option instant;
}.

Definition error_code_field_ok (code : option string) : bool :=
  match code with Some s => error_code_ok s | None => true end.
Definition http_status_field_ok (status : option Z) : bool :=
  match status with Some s => (100 <=? s) && (s <=? 599) | None => true end.

(** [ProviderAttemptActivity.validate_queue_specific_fields] *)
Definition validate_queue_specific_fields (a : ProviderAttemptActivity) : res unit :=
  raise_if (bool_decide (pa_queue a = queue_inbox)
            && (bool_decide (is_Some (pa_failure_kind a)) || bool_decide (is_Some (pa_http_status a))))
    (ValueError "inbox activity cannot contain transport failure fields").

Definition ProviderAttemptActivity_validate (a : ProviderAttemptActivity) : res ProviderAttemptActivity :=
  raise_if (negb ((1 <=? pa_cycle a) && (1 <=? pa_attempt_number a)
                  && http_status_field_ok (pa_http_status a) && error_code_field_ok (pa_safe_error_code a)))
    (ValidationError "ProviderAttemptActivity");;;
  validating "ProviderAttemptActivity" (validate_queue_specific_fields a);;;
  Ok a.

Record ProviderAttemptActivityFeed := mkProviderAttemptActivityFeed {
  af_items : list ProviderAttemptActivity;
  af_generated_at : instant;
}.

Record ProviderOutboxAttemptView := mkProviderOutboxAttemptView {
  oa_delivery_cycle : Z;
  oa_attempt_number : Z;
  oa_outcome : option DeliveryAttemptOutcome;
  oa_failure_kind : option ProviderFailureKind;
  oa_http_status : option Z;
  oa_safe_error_code : option string;
  oa_started_at : instant;
  oa_finished_at : option instant;
  oa_next_available_at : option instant;
}.

Definition ProviderOutboxAttemptView_validate (v : ProviderOutboxAttemptView) :
    res ProviderOutboxAttemptView :=
  raise_if (negb ((1 <=? oa_delivery_cycle v) && (1 <=? oa_attempt_number v)
                  && http_status_field_ok (oa_http_status v) && error_code_field_ok (oa_safe_error_code v)))
    (ValidationError "ProviderOutboxAttemptView");;;
  Ok v.

Record ProviderInboxAttemptView := mkProviderInboxAttemptView {
  iv_processing_cycle : Z;
  iv_attempt_number : Z;
  iv_outcome : option InboxAttemptOutcome;
  iv_safe_error_code : option string;
  iv_started_at : instant;
  iv_finished_at : option instant;
}.

Definition ProviderInboxAttemptView_validate (v : ProviderInboxAttemptView) :
    res ProviderInboxAttemptView :=
  raise_if (negb ((1 <=? iv_processing_cycle v) && (1 <=? iv_attempt_number v)
                  && error_code_field_ok (iv_safe_error_code v)))
    (ValidationError "ProviderInboxAttemptView");;;
  Ok v.

Record ProviderRedriveView := mkProviderRedriveView {
  rv_request_id : option string;
  rv_reason_code : option ProviderRedriveReasonCode;
  rv_actor : string;
  rv_previous_cycle : Z;
  rv_new_cycle : Z;
  rv_created_at : instant;
}.

(** [ProviderRedriveView.validate_cycle] *)
Definition validate_cycle (v : ProviderRedriveView) : res unit :=
  raise_if (negb (rv_new_cycle v =? rv_previous_cycle v + 1))
    (ValueError "new_cycle must equal previous_cycle + 1").

Definition ProviderRedriveView_validate (v : ProviderRedriveView) : res ProviderRedriveView :=
  let v := mkProviderRedriveView (strip <$> rv_request_id v) (rv_reason_code v) (strip (rv_actor v))
             (rv_previous_cycle v) (rv_new_cycle v) (rv_created_at v) in
  raise_if (negb (match rv_request_id v with Some s => request_id_ok s | None => true end
                  && nonempty (rv_actor v) && (1 <=? rv_previous_cycle v) && (2 <=? rv_new_cycle v)))
    (ValidationError "ProviderRedriveView");;;
  validating "ProviderRedriveView" (validate_cycle v);;;
  Ok v.

Record ProviderOutboxDetail := mkProviderOutboxDetail {
  od_command_id : uuid;
  od_aggregate_type : ProviderAggregateType;
  od_aggregate_id : uuid;
  od_status : OutboxDeliveryStatus;
  od_delivery_cycle : Z;
  od_attempts_in_cycle : Z;
  od_available_at : instant;
  od_last_failure_kind : option ProviderFailureKind;
  od_last_error_code : option string;
  od_created_at : instant;
  od_updated_at : instant;
  od_published_at : option instant;
  od_dead_at : option instant;
  od_attempts : list ProviderOutboxAttemptView;
  od_redrives : list ProviderRedriveView;
}.

Definition ProviderOutboxDetail_validate (v : ProviderOutboxDetail) : res ProviderOutboxDetail :=
  raise_if (negb ((1 <=? od_delivery_cycle v) && (0 <=? od_attempts_in_cycle v)
                  && error_code_field_ok (od_last_error_code v)))
    (ValidationError "ProviderOutboxDetail");;;
  Ok v.

Record ProviderInboxDetail := mkProviderInboxDetail {
  id_inbox_id : uuid;
  id_command_id : uuid;
  id_aggregate_type : ProviderAggregateType;
  id_aggregate_id : uuid;
  id_status : InboxProcessingStatus;
  id_processing_cycle : Z;
  id_attempts_in_cycle : Z;
  id_total_attempts : Z;
  id_available_at : instant;
  id_last_error_code : option string;
  id_received_at : instant;
  id_updated_at : instant;
  id_processed_at : option instant;
  id_failed_at : option instant;
  id_attempts : list ProviderInboxAttemptView;
  id_redrives : list ProviderRedriveView;
}.

Definition ProviderInboxDetail_validate (v : ProviderInboxDetail) : res ProviderInboxDetail :=
  raise_if (negb ((1 <=? id_processing_cycle v) && (0 <=? id_attempts_in_cycle v)
                  && (0 <=? id_total_attempts v) && error_code_field_ok (id_last_error_code v)))
    (ValidationError "ProviderInboxDetail");;;
  Ok v.

(** * Rows as views *)

(** [_redrive_view] *)
Definition redrive_view {A} `{RedriveRow A} (row : A) : res ProviderRedriveView :=
  ProviderRedriveView_validate
    (mkProviderRedriveView (safe_request_id (redrive_request row)) (redrive_reason_code row)
       (redrive_requested_by row) (redrive_previous_cycle row) (redrive_new_cycle row)
       (redrive_created_at row)).

(** [status if isinstance(status, int) and 100 <= status <= 599 else None] *)
Definition safe_http_status (status : option Z) : option Z :=
  match status with
  | Some s => if (100 <=? s) && (s <=? 599) then Some s else None
  | None => None
  end.

Definition outbox_attempt_view (a : OutboxDeliveryAttempt) : res ProviderOutboxAttemptView :=
  ProviderOutboxAttemptView_validate
    (mkProviderOutboxAttemptView (da_delivery_cycle a) (da_attempt_number a) (da_outcome a)
       (da_failure_kind a) (safe_http_status (da_http_status a)) (safe_error_code (da_safe_error_code a))
       (da_started_at a) (da_finished_at a) (da_next_available_at a)).

Definition inbox_attempt_view (a : InboxProcessingAttempt) : res ProviderInboxAttemptView :=
  ProviderInboxAttemptView_validate
    (mkProviderInboxAttemptView (ia_processing_cycle a) (ia_attempt_number a) (ia_outcome a)
       (safe_error_code (ia_safe_error_code a)) (ia_started_at a) (ia_finished_at a)).

Definition attempt_activity_view (a : ProviderAttemptActivity) : res ProviderAttemptActivity :=
  ProviderAttemptActivity_validate
    (mkProviderAttemptActivity (pa_queue a) (pa_resource_id a) (pa_command_id a) (pa_cycle a)
       (pa_attempt_number a) (pa_outcome a) (pa_failure_kind a) (safe_http_status (pa_http_status a))
       (safe_error_code (pa_safe_error_code a)) (pa_started_at a) (pa_finished_at a)).

(** [tuple(view(row) for row in rows)] *)
Fixpoint views {A B} (view : A → res B) (l : list A) : res (list B) :=
  match l with
  | [] => Ok []
  | a :: l' => let* b := view a in let* bs := views view l' in Ok (b :: bs)
  end.

(** * Selecting *)

(** [ORDER BY k1 DESC, k2 DESC, ...] *)
Fixpoint lex_le (a b : list Z) : bool :=
  match a, b with
  | [], _ => true
  | _ :: _, [] => false
  | x :: a', y :: b' => (x <? y) || ((x =? y) && lex_le a' b')
  end.
Definition newest_first {A} (key : A → list Z) (a b : A) : Prop := lex_le (key b) (key a) = true.
#[export] Instance newest_first_dec {A} (key : A → list Z) : RelDecision (newest_first key).
Proof. intros a b. unfold newest_first. apply _. Defined.
Definition latest {A} (key : A → list Z) (limit : Z) (l : list A) : list A :=
  take (Z.to_nat limit) (merge_sort (newest_first key) l).

(** [GROUP BY status ORDER BY status]: the statuses in textual order. *)
Definition group_by_status {A S} `{EqDecision S} (statuses : list S) (status : A → S)
    (available_at : A → instant) (l : list A) : list (QueueSummary S) :=
  omap (λ s, match filter (λ a, status a = s) l with
             | [] => None
             | a :: l' => Some (mkQueueSummary s (Z.of_nat (length (a :: l')))
                                  (Some (foldr Z.min (available_at a) (available_at <$> l'))))
             end) statuses.

Definition outbox_statuses : list OutboxDeliveryStatus :=
  [ob_dead; ob_pending; ob_processing; ob_published; ob_retry_scheduled].
Definition inbox_statuses : list InboxProcessingStatus :=
  [ib_failed; ib_processed; ib_processing; ib_received].

Definition tenant_messages (tenant_id : string) (d : database) : list OutboxMessage :=
  filter (λ m, om_tenant_id m = tenant_id) (rows (outbox_messages d)).
Definition tenant_callbacks (tenant_id : string) (d : database) : list InboxMessage :=
  filter (λ m, im_tenant_id m = tenant_id) (rows (inbox_messages (inbox d))).

(** The two halves of the [UNION ALL]. *)
Definition outbox_activity (tenant_id : string) (d : database) : list ProviderAttemptActivity :=
  omap (λ a, m ← outbox_messages d !! da_command_id a;
             guard (om_tenant_id m = tenant_id);;
             Some (mkProviderAttemptActivity queue_outbox (da_command_id a) (da_command_id a)
                     (da_delivery_cycle a) (da_attempt_number a) (po_delivery <$> da_outcome a)
                     (da_failure_kind a) (da_http_status a) (da_safe_error_code a) (da_started_at a)
                     (da_finished_at a)))
    (rows (outbox_delivery_attempts d)).
Definition inbox_activity (tenant_id : string) (d : database) : list ProviderAttemptActivity :=
  omap (λ a, m ← inbox_messages (inbox d) !! ia_inbox_id a;
             guard (im_tenant_id m = tenant_id);;
             Some (mkProviderAttemptActivity queue_inbox (ia_inbox_id a) (im_command_id m)
                     (ia_processing_cycle a) (ia_attempt_number a) (po_processing <$> ia_outcome a)
                     None None (ia_safe_error_code a) (ia_started_at a) (ia_finished_at a)))
    (rows (inbox_attempts (inbox d))).

(** [ORDER BY started_at DESC, resource_id DESC, attempt_number DESC LIMIT %s] *)
Definition recent_activity (tenant_id : string) (limit : Z) (d : database) : list ProviderAttemptActivity :=
  latest (λ a, [pa_started_at a; Z.of_N (pa_resource_id a); pa_attempt_number a]) limit
    (outbox_activity tenant_id d ++ inbox_activity tenant_id d).

Definition outbox_row_of (tenant_id : string) (command_id : uuid) (d : database) : option OutboxMessage :=
  m ← outbox_messages d !! command_id; guard (om_tenant_id m = tenant_id);; Some m.
Definition inbox_row_of (tenant_id : string) (inbox_id : uuid) (d : database) : option InboxMessage :=
  m ← inbox_messages (inbox d) !! inbox_id; guard (im_tenant_id m = tenant_id);; Some m.

Definition outbox_attempts_of (tenant_id : string) (command_id : uuid) (d : database) :
    list OutboxDeliveryAttempt :=
  match outbox_row_of tenant_id command_id d with
  | Some _ => filter (λ a, da_command_id a = command_id) (rows (outbox_delivery_attempts d))
  | None => []
  end.
Definition inbox_attempts_of (tenant_id : string) (inbox_id : uuid) (d : database) :
    list InboxProcessingAttempt :=
  match inbox_row_of tenant_id inbox_id d with
  | Some _ => filter (λ a, ia_inbox_id a = inbox_id) (rows (inbox_attempts (inbox d)))
  | None => []
  end.

(** [ORDER BY created_at DESC, redrive_id DESC LIMIT %s] *)
Definition redrive_history {A} `{RedriveRow A} (tenant_id : string) (target : uuid) (limit : Z)
    (audit : gmap uuid A) : list A :=
  latest (λ r, [redrive_created_at r; Z.of_N (redrive_id r)]) limit
    (filter (λ r, redrive_tenant r = tenant_id ∧ redrive_target r = target) (rows audit)).

(** * [PostgresProviderOperationsRepository], reads *)

(** [_authorize] *)
Definition authorize (s : AccessScope) (permission : Permission) : res unit :=
  raise_if (negb (has_provider_operations_permission s permission))
    (ForbiddenError "the caller cannot access Provider operations").

Definition validate_history_limit (limit : Z) : res unit :=
  raise_if (negb ((1 <=? limit) && (limit <=? 100)))
    (ValueError "history_limit must be between 1 and 100").

(** One statement of a read; each sees the database as it is then. *)
Definition read {A} (f : database → A) : M database A :=
  query ProviderOperationsPersistenceError (λ d, Ok (f d)).
(** [SELECT clock_timestamp() AS generated_at] *)
Definition server_time : M database instant := read (λ _, tt);, now.

Definition repo_get_queue_overview (s : AccessScope) : M database ProviderQueueOverview :=
  lift (authorize s provider_ops_read);,
  outbox <- read (λ d, group_by_status outbox_statuses om_status om_available_at
                         (tenant_messages (sc_tenant_id s) d));
  inbox <- read (λ d, group_by_status inbox_statuses im_status im_available_at
                        (tenant_callbacks (sc_tenant_id s) d));
  generated_at <- server_time;
  ret (mkProviderQueueOverview outbox inbox generated_at).

Definition repo_get_attempt_activity (s : AccessScope) (limit : Z) :
    M database ProviderAttemptActivityFeed :=
  lift (authorize s provider_ops_read);,
  lift (validate_history_limit limit);,
  items <- read (recent_activity (sc_tenant_id s) limit);
  generated_at <- server_time;
  items <- lift (views attempt_activity_view items);
  ret (mkProviderAttemptActivityFeed items generated_at).

Definition repo_get_outbox_detail (s : AccessScope) (command_id : uuid) (history_limit : Z) :
    M database ProviderOutboxDetail :=
  lift (authorize s provider_ops_read);,
  lift (validate_history_limit history_limit);,
  message <- read (outbox_row_of (sc_tenant_id s) command_id);
  match message with
  | None => raise ProviderOperationsNotFoundError
  | Some m =>
      attempt_rows <- read (λ d,
        latest (λ a, [da_delivery_cycle a; da_attempt_number a; Z.of_N (da_attempt_id a)]) history_limit
          (outbox_attempts_of (sc_tenant_id s) command_id d));
      audit_rows <- read (λ d, redrive_history (sc_tenant_id s) command_id history_limit
                                 (outbox_redrives d));
      attempts <- lift (views outbox_attempt_view attempt_rows);
      redrives <- lift (views redrive_view audit_rows);
      lift (ProviderOutboxDetail_validate
        (mkProviderOutboxDetail (om_command_id m) (om_aggregate_type m) (om_aggregate_id m) (om_status m)
           (om_delivery_cycle m) (om_attempts_in_cycle m) (om_available_at m) (om_last_failure_kind m)
           (safe_error_code (om_last_error_code m)) (om_created_at m) (om_updated_at m)
           (om_published_at m) (om_dead_at m) attempts redrives))
  end.

Definition repo_get_inbox_detail (s : AccessScope) (inbox_id : uuid) (history_limit : Z) :
    M database ProviderInboxDetail :=
  lift (authorize s provider_ops_read);,
  lift (validate_history_limit history_limit);,
  message <- read (inbox_row_of (sc_tenant_id s) inbox_id);
  match message with
  | None => raise ProviderOperationsNotFoundError
  | Some m =>
      attempt_rows <- read (λ d,
        latest (λ a, [ia_processing_cycle a; ia_attempt_number a; Z.of_N (ia_attempt_id a)]) history_limit
          (inbox_attempts_of (sc_tenant_id s) inbox_id d));
      audit_rows <- read (λ d, redrive_history (sc_tenant_id s) inbox_id history_limit
                                 (inbox_redrives (inbox d)));
      attempts <- lift (views inbox_attempt_view attempt_rows);
      redrives <- lift (views redrive_view audit_rows);
      lift (ProviderInboxDetail_validate
        (mkProviderInboxDetail (im_inbox_id m) (im_command_id m) (im_aggregate_type m) (im_aggregate_id m)
           (im_status m) (im_processing_cycle m) (im_attempts_in_cycle m) (im_processing_attempts m)
           (im_available_at m) (safe_error_code (im_last_error_code m)) (im_received_at m)
           (im_updated_at m) (im_processed_at m) (im_failed_at m) attempts redrives))
  end.

(** * [ProviderOperationsService], reads *)

Definition get_queue_overview (s : AccessScope) : M database ProviderQueueOverview :=
  lift (authorize s provider_ops_read);, repo_get_queue_overview s.
Definition get_attempt_activity (s : AccessScope) (limit : Z) : M database ProviderAttemptActivityFeed :=
  lift (authorize s provider_ops_read);, repo_get_attempt_activity s limit.
Definition get_outbox_detail (s : AccessScope) (command_id : uuid) (history_limit : Z) :
    M database ProviderOutboxDetail :=
  lift (authorize s provider_ops_read);, repo_get_outbox_detail s command_id history_limit.
Definition get_inbox_detail (s : AccessScope) (inbox_id : uuid) (history_limit : Z) :
    M database ProviderInboxDetail :=
  lift (authorize s provider_ops_read);, repo_get_inbox_detail s inbox_id history_limit.
