(* ===== verification/ProviderRedrive.v ===== *)
(** The provider operations console, redriving by hand: the atomic recovery commands of
    [integrations/provider_operations_postgres.py], behind
    [integrations/provider_operations_service.py], and the error responses of
    [integrations/provider_operations_api_errors.py].

    A redrive first looks for its request without a lock, then runs one transaction that
    locks the message.  Between that lock and the audit row another request can only be
    recorded for another message; [stale] says that one was, after the transaction looked
    for it, so that the unique constraint finds it instead. *)
From S2P Require Import Prelude Effects Auth OperationModels CaseModels Envelope InboxModels Retry Database RedrivePolicy Transactions Messaging CaseRepository OutboxWrites Finalization InboxWrites ProviderViews.

(** * Audit tables *)

Definition outbox_redrives_check (r : OutboxRedrive) : bool :=
  btrim_nonempty (ord_tenant_id r) && btrim_nonempty (ord_request_id r)
  && btrim_nonempty (ord_requested_by r) && btrim_nonempty (ord_reason r)
  && (str_len (ord_reason r) <=? 500) && int4_ok (ord_previous_cycle r)
  && (2 <=? ord_new_cycle r) && int4_ok (ord_new_cycle r)
  && (ord_new_cycle r =? ord_previous_cycle r + 1).

Definition insert_outbox_redrive (r : OutboxRedrive) (d : database) : pg database :=
  let t := outbox_redrives d in
  pg_bind (pg_check (outbox_redrives_check r) OtherDatabaseError) (λ _,
  pg_bind (pg_check (bool_decide (t !! ord_redrive_id r = None))
             (UniqueViolation "outbox_redrives_pkey")) (λ _,
  pg_bind (pg_check (negb (collides redrive_request_key t (ord_redrive_id r) r))
             (UniqueViolation "uq_outbox_redrives_tenant_request")) (λ _,
  pg_bind (pg_check (bool_decide (is_Some (outbox_messages d !! ord_command_id r)))
             OtherDatabaseError) (λ _,
  PgOk (set_outbox_redrives (<[ord_redrive_id r := r]> t) d))))).

Definition inbox_redrives_check (r : InboxRedrive) : bool :=
  btrim_nonempty (ird_tenant_id r) && request_id_ok (ird_request_id r)
  && btrim_nonempty (ird_requested_by r) && int4_ok (ird_previous_cycle r)
  && (2 <=? ird_new_cycle r) && int4_ok (ird_new_cycle r)
  && (ird_new_cycle r =? ird_previous_cycle r + 1).

Definition set_inbox_redrives (m : gmap uuid InboxRedrive) (d : database) : database :=
  set_inbox (mkInboxTables (inbox_messages (inbox d)) (inbox_attempts (inbox d)) m) d.

Definition insert_inbox_redrive (r : InboxRedrive) (d : database) : pg database :=
  let t := inbox_redrives (inbox d) in
  pg_bind (pg_check (inbox_redrives_check r) OtherDatabaseError) (λ _,
  pg_bind (pg_check (bool_decide (t !! ird_redrive_id r = None))
             (UniqueViolation "inbox_redrives_pkey")) (λ _,
  pg_bind (pg_check (negb (collides redrive_request_key t (ird_redrive_id r) r))
             (UniqueViolation "uq_inbox_redrives_tenant_request")) (λ _,
  pg_bind (pg_check (bool_decide (is_Some (inbox_messages (inbox d) !! ird_inbox_id r)))
             OtherDatabaseError) (λ _,
  PgOk (set_inbox_redrives (<[ird_redrive_id r := r]> t) d))))).

(** * Looking up the audit *)

(** [ProviderRedriveReasonCode.value] *)
Definition reason_value (c : ProviderRedriveReasonCode) : string :=
  match c with
  | rr_dependency_or_configuration_restored => "dependency_or_configuration_restored"
  | rr_transient_incident_resolved => "transient_incident_resolved"
  | rr_manual_retry_approved => "manual_retry_approved"
  end.

Definition conflict (code : string) : exn := ProviderOperationsConflictError code.

(** [_outbox_audit_for_request] and [_inbox_audit_for_request] *)
Definition audit_for_request {A} `{RedriveRow A} (tenant_id request_id : string) (audit : gmap uuid A) :
    option A :=
  head (filter (λ r, redrive_tenant r = tenant_id ∧ redrive_request r = request_id) (rows audit)).

(** What the lookup under the lock of [target] finds. *)
Definition audit_seen {A} `{RedriveRow A} (stale : bool) (target : uuid) (tenant_id request_id : string)
    (audit : gmap uuid A) : option A :=
  r ← audit_for_request tenant_id request_id audit;
  if stale && bool_decide (redrive_target r ≠ target) then None else Some r.

(** [_validate_outbox_replay] and [_validate_inbox_replay] *)
Definition validate_replay {A} `{RedriveRow A} (row : A) (target : uuid) (request : ProviderRedriveRequest) :
    res ProviderRedriveView :=
  raise_if (bool_decide (redrive_target row ≠ target)
            || bool_decide (redrive_reason_code row ≠ Some (rq_reason_code request)))
    (conflict "request_id_conflict");;;
  redrive_view row.

(** * The aggregate *)

(** [_insert_case_redrive_event] *)
Definition insert_case_redrive_event (s : AccessScope) (case_id : uuid) (customer_id : string)
    (command_id : uuid) (request : ProviderRedriveRequest) (redrive_id : uuid) (now : instant) : Tx unit :=
  event_id <~ uuid4;
  actor <~ tx_lift (identity s);
  event <~ tx_lift (SupportCaseEvent_validate
    (mkSupportCaseEvent event_id
       ("provider-redrive:" +:+ sc_tenant_id s +:+ ":" +:+ uuid_str redrive_id)
       case_id ev_provider_redrive None None None [] [] "" None None None None None None None
       (Some command_id) None None (Some (rq_reason_code request)) (Some actor) customer_id
       (sc_tenant_id s) now));
  execute (insert_case_event event).

(** The columns a redrive gives back to the queue. *)
Definition requeued_row (o : OrderOperation) (now : instant) : OrderOperation :=
  finalized_row o false None None None (oo_provider_reference o) os_queued now (oo_version o + 1).

(** [UPDATE order_operations SET ... WHERE tenant_id = %s AND operation_id = %s AND
    status = 'manual_review' AND version = %s]: the row count. *)
Definition requeue_operation (tenant_id : string) (operation_id : uuid) (version : Z) (now : instant) :
    Tx Z :=
  row <~ select (λ d, order_operations d !! operation_id);
  match row with
  | Some o =>
      if bool_decide (oo_tenant_id o = tenant_id) && bool_decide (oo_status o = os_manual_review)
         && bool_decide (oo_version o = version)
      then execute (put_order_operation (requeued_row o now));~ tx_ret 1
      else tx_ret 0
  | None => tx_ret 0
  end.

Definition operation_of_tenant (tenant_id : string) (i : uuid) (d : database) : option OrderOperation :=
  o ← order_operations d !! i; guard (oo_tenant_id o = tenant_id);; Some o.
Definition case_of_tenant (tenant_id : string) (i : uuid) (d : database) : option SupportCase :=
  c ← support_cases d !! i; guard (c_tenant_id c = tenant_id);; Some c.

(** [_recover_operation] *)
Definition recover_operation (s : AccessScope) (message : OutboxMessage)
    (request : ProviderRedriveRequest) (redrive_id : uuid) (now : instant) : Tx unit :=
  operation <~ select (operation_of_tenant (sc_tenant_id s) (om_aggregate_id message));
  match operation with
  | None => tx_raise (conflict "aggregate_association_mismatch")
  | Some o =>
      match oo_support_case_id o with
      | None => tx_raise (conflict "aggregate_state_mismatch")
      | Some case_id =>
          tx_raise_if (bool_decide (oo_customer_id o ≠ om_customer_id message)
                       || bool_decide (oo_status o ≠ os_manual_review)
                       || negb (oo_requires_manual_review o)
                       || bool_decide (oo_review_case_type o ≠ Some rec_order_operation_review))
            (conflict "aggregate_state_mismatch");~
          case <~ select (case_of_tenant (sc_tenant_id s) case_id);
          match case with
          | None => tx_raise (conflict "review_case_association_mismatch")
          | Some c =>
              tx_raise_if (bool_decide (c_customer_id c ≠ om_customer_id message)
                           || bool_decide (c_case_type c ≠ ct_order_operation_review))
                (conflict "review_case_association_mismatch");~
              affected <~ requeue_operation (sc_tenant_id s) (oo_operation_id o) (oo_version o) now;
              tx_raise_if (negb (affected =? 1)) (conflict "aggregate_state_changed");~
              event_id <~ uuid4;
              actor <~ tx_lift (identity s);
              event <~ tx_lift (OrderOperationEvent_validate
                (mkOrderOperationEvent event_id
                   ("provider-redrive:" +:+ sc_tenant_id s +:+ ":" +:+ uuid_str (om_command_id message)
                    +:+ ":" +:+ rq_request_id request)
                   (oo_operation_id o) oe_status_changed (Some os_manual_review) (Some os_queued)
                   None None actor (om_customer_id message) (sc_tenant_id s) now));
              execute (insert_operation_event event);~
              insert_case_redrive_event s (c_case_id c) (om_customer_id message)
                (om_command_id message) request redrive_id now
          end
      end
  end.

(** [_audit_support_case] *)
Definition audit_support_case (s : AccessScope) (message : OutboxMessage)
    (request : ProviderRedriveRequest) (redrive_id : uuid) (now : instant) : Tx unit :=
  tx_raise_if (bool_decide (om_command_type message ≠ cmd_delivery_investigation))
    (conflict "aggregate_association_mismatch");~
  case <~ select (case_of_tenant (sc_tenant_id s) (om_aggregate_id message));
  match case with
  | None => tx_raise (conflict "aggregate_association_mismatch")
  | Some c =>
      tx_raise_if (bool_decide (c_customer_id c ≠ om_customer_id message)
                   || bool_decide (c_case_type c ≠ ct_delivery_investigation))
        (conflict "aggregate_association_mismatch");~
      insert_case_redrive_event s (c_case_id c) (om_customer_id message) (om_command_id message)
        request redrive_id now
  end.

(** * Redriving the outbox *)

(** [ORDER BY attempt_number DESC, attempt_id DESC LIMIT 1] *)
Definition terminal_attempt (tenant_id : string) (command_id : uuid) (cycle : Z) (d : database) :
    option OutboxDeliveryAttempt :=
  head (latest (λ a, [da_attempt_number a; Z.of_N (da_attempt_id a)]) 1
    (filter (λ a, da_delivery_cycle a = cycle ∧ is_Some (da_finished_at a))
       (outbox_attempts_of tenant_id command_id d))).

Definition outbox_redrive_state (m : OutboxMessage) (attempt : option OutboxDeliveryAttempt) :
    OutboxRedriveState :=
  mkOutboxRedriveState (om_status m) (om_delivery_cycle m) (om_attempts_in_cycle m)
    (bool_decide (is_Some (om_lease_id m))) (om_last_failure_kind m)
    (da_delivery_cycle <$> attempt) (da_attempt_number <$> attempt)
    (attempt ≫= da_outcome) (attempt ≫= da_failure_kind).

(** The message in its new cycle. *)
Definition redriven_message (available_at now : instant) (m : OutboxMessage) : OutboxMessage :=
  mkOutboxMessage (om_command_id m) (om_schema_version m) (om_idempotency_key m)
    (om_tenant_id m) (om_customer_id m) (om_source_message_id m) (om_connection_id m)
    (om_capability m) (om_command_type m) (om_aggregate_type m) (om_aggregate_id m)
    (om_expected_order_version m) (om_payload m) ob_retry_scheduled (om_delivery_cycle m + 1) 0
    available_at None None None None None None (om_created_at m)
    (greatest3 now (om_updated_at m) (om_created_at m)) None None.

(** The answer to a redrive just recorded. *)
Definition recorded_view (request : ProviderRedriveRequest) (actor : string) (previous_cycle : Z)
    (now : instant) : res ProviderRedriveView :=
  ProviderRedriveView_validate
    (mkProviderRedriveView (Some (rq_request_id request)) (Some (rq_reason_code request)) actor
       previous_cycle (previous_cycle + 1) now).

Definition recover_aggregate (s : AccessScope) (m : OutboxMessage) (request : ProviderRedriveRequest)
    (redrive_id : uuid) (now : instant) : Tx unit :=
  match om_aggregate_type m with
  | ag_order_operation => recover_operation s m request redrive_id now
  | ag_support_case => audit_support_case s m request redrive_id now
  end.

Definition redrive_outbox_tx (stale : bool) (s : AccessScope) (command_id : uuid)
    (request : ProviderRedriveRequest) : Tx ProviderRedriveView :=
  message <~ select (outbox_row_of (sc_tenant_id s) command_id);
  match message with
  | None => tx_raise ProviderOperationsNotFoundError
  | Some m =>
      replay <~ select (λ d, audit_seen stale command_id (sc_tenant_id s) (rq_request_id request)
                               (outbox_redrives d));
      match replay with
      | Some row => tx_lift (validate_replay row command_id request)
      | None =>
          attempt <~ select (terminal_attempt (sc_tenant_id s) command_id (om_delivery_cycle m));
          decision <~ tx_lift (decide_outbox_redrive_eligibility (outbox_redrive_state m attempt)
                                 MAX_ATTEMPTS);
          tx_raise_if (negb (el_eligible decision)) (conflict (eligibility_value (el_reason_code decision)));~
          available_at <~ clock_timestamp;
          server_now <~ clock_timestamp;
          let now := Z.max server_now (om_updated_at m) in
          redrive_id <~ uuid4;
          recover_aggregate s m request redrive_id now;~
          let previous_cycle := om_delivery_cycle m in
          updated <~ update_outbox command_id
            (λ x, bool_decide (om_tenant_id x = sc_tenant_id s) && bool_decide (om_status x = ob_dead)
                  && bool_decide (om_delivery_cycle x = previous_cycle))
            (redriven_message available_at now);
          tx_raise_if (negb (rowcount updated =? 1)) (conflict "redrive_state_changed");~
          actor <~ tx_lift (identity s);
          execute (insert_outbox_redrive
            (mkOutboxRedrive redrive_id command_id (sc_tenant_id s) (rq_request_id request) actor
               (reason_value (rq_reason_code request)) (Some (rq_reason_code request)) previous_cycle
               (previous_cycle + 1) now));~
          tx_lift (recorded_view request actor previous_cycle now)
      end
  end.

(** The [except] clauses around a transaction; a unique violation goes to its own. *)
Definition provider_operations_errors (e : tx_error) : exn :=
  match e with
  | DbError (UniqueViolation c) => PgUniqueViolation c
  | DbError OtherDatabaseError => ProviderOperationsPersistenceError
  | Raised x => x
  end.

(** [except errors.UniqueViolation]: a request recorded meanwhile is replayed. *)
Definition audit_conflict {A} `{RedriveRow A} (audit : database → gmap uuid A) (constraint : string)
    (s : AccessScope) (target : uuid) (request : ProviderRedriveRequest) (e : exn) :
    option (M database ProviderRedriveView) :=
  match e with
  | PgUniqueViolation c => Some
      (if bool_decide (c = constraint) then
         replay <- read (λ d, audit_for_request (sc_tenant_id s) (rq_request_id request) (audit d));
         match replay with
         | Some row => lift (validate_replay row target request)
         | None => raise (conflict "request_id_conflict")
         end
       else raise (conflict "audit_conflict"))
  | _ => None
  end.

Definition repo_redrive_outbox (stale : bool) (s : AccessScope) (command_id : uuid)
    (request : ProviderRedriveRequest) : M database ProviderRedriveView :=
  lift (authorize s provider_ops_redrive);,
  try_except
    (replay <- read (λ d, audit_for_request (sc_tenant_id s) (rq_request_id request) (outbox_redrives d));
     match replay with
     | Some row => lift (validate_replay row command_id request)
     | None => in_transaction ProviderOperationsPersistenceError provider_operations_errors
                 (redrive_outbox_tx stale s command_id request)
     end)
    (audit_conflict outbox_redrives "uq_outbox_redrives_tenant_request" s command_id request).

(** * Redriving the inbox *)

Definition redriven_callback (available_at now : instant) (m : InboxMessage) : InboxMessage :=
  mkInboxMessage (im_inbox_id m) (im_connection_id m) (im_event_id m) (im_tenant_id m)
    (im_schema_version m) (im_event_type m) (im_command_id m) (im_aggregate_type m)
    (im_aggregate_id m) (im_payload m) (im_raw_body_sha256 m) ib_received
    (im_processing_attempts m) (im_processing_cycle m + 1) 0 available_at None None None None None
    (im_received_at m) (greatest3 now (im_updated_at m) (im_received_at m)) None None.

Definition redrive_inbox_tx (stale : bool) (s : AccessScope) (inbox_id : uuid)
    (request : ProviderRedriveRequest) : Tx ProviderRedriveView :=
  message <~ select (inbox_row_of (sc_tenant_id s) inbox_id);
  match message with
  | None => tx_raise ProviderOperationsNotFoundError
  | Some m =>
      replay <~ select (λ d, audit_seen stale inbox_id (sc_tenant_id s) (rq_request_id request)
                               (inbox_redrives (inbox d)));
      match replay with
      | Some row => tx_lift (validate_replay row inbox_id request)
      | None =>
          decision <~ tx_lift (decide_inbox_redrive_eligibility
            (mkInboxRedriveState (im_status m) (bool_decide (is_Some (im_lease_id m)))));
          tx_raise_if (negb (el_eligible decision)) (conflict (eligibility_value (el_reason_code decision)));~
          available_at <~ clock_timestamp;
          server_now <~ clock_timestamp;
          let now := Z.max server_now (im_updated_at m) in
          let previous_cycle := im_processing_cycle m in
          redrive_id <~ uuid4;
          updated <~ update_inbox inbox_id
            (λ x, bool_decide (im_tenant_id x = sc_tenant_id s) && bool_decide (im_status x = ib_failed)
                  && bool_decide (im_processing_cycle x = previous_cycle))
            (redriven_callback available_at now);
          tx_raise_if (negb (rowcount updated =? 1)) (conflict "redrive_state_changed");~
          actor <~ tx_lift (identity s);
          execute (insert_inbox_redrive
            (mkInboxRedrive redrive_id inbox_id (sc_tenant_id s) (rq_request_id request) actor
               (rq_reason_code request) previous_cycle (previous_cycle + 1) now));~
          tx_lift (recorded_view request actor previous_cycle now)
      end
  end.

Definition repo_redrive_inbox (stale : bool) (s : AccessScope) (inbox_id : uuid)
    (request : ProviderRedriveRequest) : M database ProviderRedriveView :=
  lift (authorize s provider_ops_redrive);,
  try_except
    (replay <- read (λ d, audit_for_request (sc_tenant_id s) (rq_request_id request)
                            (inbox_redrives (inbox d)));
     match replay with
     | Some row => lift (validate_replay row inbox_id request)
     | None => in_transaction ProviderOperationsPersistenceError provider_operations_errors
                 (redrive_inbox_tx stale s inbox_id request)
     end)
    (audit_conflict (λ d, inbox_redrives (inbox d)) "uq_inbox_redrives_tenant_request" s inbox_id request).

(** * [ProviderOperationsService], redrives *)

Definition redrive_outbox (stale : bool) (s : AccessScope) (command_id : uuid)
    (request : ProviderRedriveRequest) : M database ProviderRedriveView :=
  lift (authorize s provider_ops_redrive);, repo_redrive_outbox stale s command_id request.
Definition redrive_inbox (stale : bool) (s : AccessScope) (inbox_id : uuid)
    (request : ProviderRedriveRequest) : M database ProviderRedriveView :=
  lift (authorize s provider_ops_redrive);, repo_redrive_inbox stale s inbox_id request.

(** * Error responses *)

(** [_CONFLICT_MESSAGES] *)
Definition conflict_messages : list (string * string) :=
  [("status_not_redrivable", "The Provider resource is not eligible for redrive in its current state.");
   ("active_lease", "The Provider resource has an active processing lease.");
   ("provider_rejection", "Provider business rejections cannot be redriven.");
   ("current_cycle_terminal_evidence_required",
    "Current-cycle terminal evidence is required before redrive.");
   ("technical_terminal_failure_required", "Only technical terminal failures can be redriven.");
   ("lease_expiry_not_attempt_exhausting",
    "Lease-expiry recovery has not exhausted the current attempt cycle.");
   ("redrive_state_changed", "The Provider resource changed concurrently. Refresh and retry.");
   ("request_id_conflict", "The redrive request identifier was already used for different parameters.");
   ("audit_conflict", "The redrive audit could not be recorded safely.");
   ("aggregate_association_mismatch", "The associated aggregate is not eligible for redrive.");
   ("aggregate_state_mismatch", "The associated aggregate is not eligible for redrive.");
   ("review_case_association_mismatch", "The associated aggregate is not eligible for redrive.");
   ("aggregate_state_changed", "The associated aggregate changed concurrently. Refresh and retry.")].

Record ApiError := mkApiError {
  ae_status_code : Z;
  ae_code : string;
  ae_message : string;
}.

(** [_conflict_handler] *)
Definition conflict_handler (code : string) : ApiError :=
  match list_find (λ p, p.1 = code) conflict_messages with
  | Some (_, (_, message)) => mkApiError 409 code message
  | None => mkApiError 409 "provider_operations_conflict"
              "The Provider operations request conflicts with the current state."
  end.

(** The handlers [register_provider_operations_exception_handlers] installs; [None] is an
    unhandled exception. *)
Definition error_response (e : exn) : option ApiError :=
  match e with
  | ForbiddenError _ => Some (mkApiError 403 "forbidden"
      "The authenticated caller is not allowed to perform this action.")
  | ProviderOperationsNotFoundError => Some (mkApiError 404 "provider_operations_not_found"
      "The requested Provider operations resource does not exist.")
  | ProviderOperationsConflictError code => Some (conflict_handler code)
  | ProviderOperationsPersistenceError => Some (mkApiError 503 "provider_operations_storage_unavailable"
      "Provider operations storage is temporarily unavailable.")
  | _ => None
  end.
