(* ===== verification/OutboxSafety.v ===== *)
(** What delivery guarantees of the outbox while other workers commit between any two of
    its transactions: one open attempt per leased message, attempts numbered within a
    cycle, messages that only move along the delivery transitions. *)
From S2P Require Import Prelude Effects OperationModels CaseModels Envelope InboxModels Database RedrivePolicy Transactions Messaging CaseRepository OutboxWrites Finalization OutboxRepository.

(** * The invariant *)

(** The envelope a row was written from. *)
Definition envelope_of (m : OutboxMessage) : ProviderCommandEnvelope :=
  mkEnvelope (om_schema_version m) (om_command_id m) (om_idempotency_key m)
    (om_source_message_id m) (om_aggregate_type m) (om_aggregate_id m)
    (om_expected_order_version m) (om_tenant_id m) (om_customer_id m) (om_connection_id m)
    (om_command_type m) (om_payload m) (om_created_at m).

(** The attempt of the lease a message carries. *)
Definition fits (m : OutboxMessage) (a : OutboxDeliveryAttempt) : Prop :=
  om_status m = ob_processing ∧ da_command_id a = om_command_id m ∧
  om_lease_id m = Some (da_lease_id a) ∧ om_lease_owner m = Some (da_worker_id a) ∧
  da_delivery_cycle a = om_delivery_cycle m ∧ da_attempt_number a = om_attempts_in_cycle m.

(** An attempt belongs to the current cycle or an earlier one, and within the current one
    is numbered no higher than the attempts counted on the message. *)
Definition counted (m : OutboxMessage) (a : OutboxDeliveryAttempt) : Prop :=
  da_delivery_cycle a ≤ om_delivery_cycle m ∧
  (da_delivery_cycle a = om_delivery_cycle m → da_attempt_number a ≤ om_attempts_in_cycle m).

Record outbox_ok (d : database) : Prop := {
  ob_schema : schema_ok d;
  ob_leased : ∀ k m, outbox_messages d !! k = Some m → om_status m = ob_processing →
    ∃ i a, outbox_delivery_attempts d !! i = Some a ∧ da_finished_at a = None ∧ fits m a;
  ob_open : ∀ i a, outbox_delivery_attempts d !! i = Some a → da_finished_at a = None →
    ∃ m, outbox_messages d !! da_command_id a = Some m ∧ fits m a;
  ob_counted : ∀ i a, outbox_delivery_attempts d !! i = Some a →
    ∃ m, outbox_messages d !! da_command_id a = Some m ∧ counted m a;
  ob_bounded : ∀ i a, outbox_delivery_attempts d !! i = Some a → 1 ≤ da_attempt_number a ≤ 8;
  ob_envelope : ∀ k m, outbox_messages d !! k = Some m → to_envelope m = Ok (envelope_of m);
  ob_delivered : ∀ c, c ∈ provider_deliveries d →
    ∃ m, outbox_messages d !! e_command_id c = Some m ∧ envelope_of m = c;
  ob_audit : audit_ok (delivery_cycles d) (outbox_redrives d);
}.

Lemma outbox_ok_empty : outbox_ok empty_db.
Proof.
  split; [apply schema_ok_empty|..|apply audit_ok_empty]; intros *; cbn; set_solver.
Qed.

(** * How messages evolve *)

Definition delivery_reaches : relation OutboxDeliveryStatus :=
  rtc (λ a b, outbox_transition_allowed a b = true).

(** The command stays as queued; delivery moves on within the cycle, or a redrive opens a
    later one. *)
Definition message_advances (m m' : OutboxMessage) : Prop :=
  envelope_of m' = envelope_of m ∧ om_capability m' = om_capability m ∧
  (om_delivery_cycle m < om_delivery_cycle m' ∨
   om_delivery_cycle m = om_delivery_cycle m' ∧
   om_attempts_in_cycle m ≤ om_attempts_in_cycle m' ∧
   delivery_reaches (om_status m) (om_status m')).

#[export] Instance message_advances_preorder : PreOrder message_advances.
Proof.
  split; unfold message_advances.
  - intros m. split_and!; [done..|]. right. split_and!; [done..|]. constructor.
  - intros x y z (E1 & C1 & H1) (E2 & C2 & H2). split_and!; [congruence..|].
    destruct H1 as [?|(? & ? & R1)], H2 as [?|(? & ? & R2)]; [left; lia..|].
    right. split_and!; [lia..|]. by etrans.
Qed.

Definition messages_evolve (d d' : database) : Prop :=
  ∀ k m, outbox_messages d !! k = Some m →
    ∃ m', outbox_messages d' !! k = Some m' ∧ message_advances m m'.

(** The audit is append-only. *)
Definition outbox_evolve (d d' : database) : Prop :=
  messages_evolve d d' ∧ outbox_redrives d ⊆ outbox_redrives d'.

#[export] Instance outbox_evolve_preorder : PreOrder outbox_evolve.
Proof.
  split.
  - intros d. split; [|done]. intros k m Hm. exists m. split; [done|]. reflexivity.
  - intros d1 d2 d3 [H12 A12] [H23 A23]. split; [|by etrans].
    intros k m Hm. destruct (H12 k m Hm) as (m2 & Hm2 & A2).
    destruct (H23 k m2 Hm2) as (m3 & Hm3 & A3). exists m3. split; [done|by etrans].
Qed.

Lemma outbox_evolve_insert d d' k m m' :
  outbox_messages d !! k = Some m → outbox_messages d' = <[k := m']> (outbox_messages d) →
  message_advances m m' → outbox_redrives d' = outbox_redrives d → outbox_evolve d d'.
Proof.
  intros Hm Hd' Ha Er. split; [|by rewrite Er]. intros j x Hx. rewrite Hd', lookup_insert. case_decide; [|by exists x].
  subst j. simplify_eq. by exists m'.
Qed.

(** What delivery rewrites keeps the envelope. *)
Lemma envelope_of_progress m st n av li lo le fk ec em up pu de :
  envelope_of (with_progress m st n av li lo le fk ec em up pu de) = envelope_of m.
Proof. done. Qed.

(** A finished or expired lease closes exactly one attempt. *)
Lemma open_attempt_unique d i j a b :
  outbox_ok d → outbox_delivery_attempts d !! i = Some a → outbox_delivery_attempts d !! j = Some b →
  da_finished_at a = None → da_finished_at b = None → da_command_id a = da_command_id b → i = j ∧ a = b.
Proof.
  intros Hd Ha Hb Fa Fb Hc. destruct (ob_open d Hd i a Ha Fa) as (m & Hm & Fm).
  destruct (ob_open d Hd j b Hb Fb) as (m' & Hm' & Fm'). rewrite Hc in Hm. simplify_eq.
  unfold fits in *. destruct_and!.
  assert (i = j) as -> by (eapply (so_attempt_number d (ob_schema d Hd)); [exact Ha|exact Hb|done|];
    unfold attempt_number_key; congruence).
  split; [done|]. congruence.
Qed.

(** * Preservation *)

Lemma outbox_id d k m : outbox_ok d → outbox_messages d !! k = Some m → om_command_id m = k.
Proof. intros Hd. by apply (so_outbox_id d (ob_schema d Hd)). Qed.

Lemma envelope_of_command m m' : envelope_of m' = envelope_of m → om_command_id m' = om_command_id m.
Proof. by intros [=]. Qed.

Lemma to_envelope_of m m' :
  envelope_of m' = envelope_of m → to_envelope m = Ok (envelope_of m) →
  to_envelope m' = Ok (envelope_of m').
Proof.
  intros E. change (to_envelope m) with (ProviderCommandEnvelope_validate (envelope_of m)).
  change (to_envelope m') with (ProviderCommandEnvelope_validate (envelope_of m')). by rewrite E.
Qed.

(** The messages a transaction rewrites keep their envelopes: what has been delivered is
    still the stored command. *)
Lemma outbox_ok_envelopes d d' k m m' :
  outbox_ok d → outbox_messages d !! k = Some m → outbox_messages d' = <[k := m']> (outbox_messages d) →
  provider_deliveries d' = provider_deliveries d → envelope_of m' = envelope_of m →
  (∀ j x, outbox_messages d' !! j = Some x → to_envelope x = Ok (envelope_of x)) ∧
  (∀ c, c ∈ provider_deliveries d' →
     ∃ x, outbox_messages d' !! e_command_id c = Some x ∧ envelope_of x = c).
Proof.
  intros Hd Hm Hd' Hpd He. split.
  - rewrite Hd'. apply (insert_rows (λ _ x, to_envelope x = Ok (envelope_of x))); [apply Hd|].
    eapply to_envelope_of; [done|]. by eapply ob_envelope, Hm.
  - rewrite Hpd, Hd'. intros c Hc. destruct (ob_delivered d Hd c Hc) as (x & Hx & Ex).
    rewrite lookup_insert. case_decide as Ek; [|by exists x]. subst k.
    rewrite Hx in Hm. injection Hm as ->. exists m'. split; [done|congruence].
Qed.

(** So does the audit, as long as they stay in their cycles. *)
Lemma outbox_audit_same d d' k m m' :
  outbox_ok d → outbox_messages d !! k = Some m → outbox_messages d' = <[k := m']> (outbox_messages d) →
  envelope_of m' = envelope_of m → om_delivery_cycle m' = om_delivery_cycle m →
  outbox_redrives d' = outbox_redrives d → audit_ok (delivery_cycles d') (outbox_redrives d').
Proof.
  intros Hd Hm E He Hc Hr. rewrite Hr, (delivery_cycles_same d d' k m m'); [apply Hd|done..| |done].
  by injection He.
Qed.

(** Tables other than the messaging ones do not matter. *)
Lemma outbox_ok_frame d d' :
  outbox_ok d → schema_ok d' → outbox_messages d' = outbox_messages d →
  outbox_delivery_attempts d' = outbox_delivery_attempts d →
  provider_deliveries d' = provider_deliveries d → outbox_redrives d' = outbox_redrives d →
  outbox_ok d'.
Proof.
  intros [? ? ? ? ? ? ? ?] Hs E1 E2 E3 E4. split; [done|..]; rewrite ?E1, ?E2, ?E3, ?E4; try done.
  unfold delivery_cycles. by rewrite E1.
Qed.

(** A new command waits for its first attempt. *)
Lemma outbox_ok_enqueue d d' m :
  outbox_ok d → schema_ok d' → outbox_messages d !! om_command_id m = None →
  outbox_messages d' = <[om_command_id m := m]> (outbox_messages d) →
  outbox_delivery_attempts d' = outbox_delivery_attempts d →
  provider_deliveries d' = provider_deliveries d → outbox_redrives d' = outbox_redrives d →
  om_status m = ob_pending → om_delivery_cycle m = 1 → to_envelope m = Ok (envelope_of m) →
  outbox_ok d'.
Proof.
  intros [Hsch Hl Ho Hc Hb He Hdv Hau] Hs Hnew E1 E2 E3 E4 Hst Hcy Hen.
  assert (∀ k x, outbox_messages d !! k = Some x → outbox_messages d' !! k = Some x) as Hkeep.
  { intros k x Hx. rewrite E1, lookup_insert_ne; [done|]. intros <-. congruence. }
  split; [done|..]; rewrite ?E2, ?E3.
  - intros k x. rewrite E1, lookup_insert. case_decide; [|by eauto].
    intros [= <-]. by rewrite Hst.
  - intros i a Ha Hf. destruct (Ho i a Ha Hf) as (x & Hx & ?). eauto.
  - intros i a Ha. destruct (Hc i a Ha) as (x & Hx & ?). eauto.
  - done.
  - rewrite E1. by apply (insert_rows (λ _ x, to_envelope x = Ok (envelope_of x))).
  - intros c Hcd. destruct (Hdv c Hcd) as (x & Hx & ?). eauto.
  - rewrite E4. unfold delivery_cycles. rewrite E1, fmap_insert, Hcy.
    apply audit_ok_start; [done|]. by rewrite lookup_fmap, Hnew.
Qed.

(** A lease ends: its attempt is finished and the message leaves [processing]. *)
Lemma outbox_ok_close d d' k m m' i a a' :
  outbox_ok d → schema_ok d' → outbox_messages d !! k = Some m →
  outbox_delivery_attempts d !! i = Some a → da_finished_at a = None → da_command_id a = k →
  outbox_messages d' = <[k := m']> (outbox_messages d) →
  outbox_delivery_attempts d' = <[i := a']> (outbox_delivery_attempts d) →
  provider_deliveries d' = provider_deliveries d → outbox_redrives d' = outbox_redrives d →
  envelope_of m' = envelope_of m → om_status m' ≠ ob_processing →
  om_delivery_cycle m' = om_delivery_cycle m → om_attempts_in_cycle m' = om_attempts_in_cycle m →
  is_Some (da_finished_at a') → da_command_id a' = da_command_id a →
  da_delivery_cycle a' = da_delivery_cycle a → da_attempt_number a' = da_attempt_number a →
  outbox_ok d'.
Proof.
  intros Hd Hs Hm Ha Hopen Hak E1 E2 E3 E4 He Hst Hcy Hat [t Hfin] Hac Hacy Han.
  destruct (outbox_ok_envelopes d d' k m m' Hd Hm E1 E3 He) as [Hen Hdv].
  split; [done|..|done|done|by eapply outbox_audit_same].
  - intros j x. rewrite E1, lookup_insert. case_decide as Ek; [by intros [= <-]|]. intros Hx Hpx.
    destruct (ob_leased d Hd j x Hx Hpx) as (i' & b & Hb & Fb & Fit). exists i', b. split; [|done].
    rewrite E2, lookup_insert_ne; [done|]. intros <-. simplify_eq.
    destruct Fit as (_ & Hc & _). rewrite (outbox_id d j x Hd Hx) in Hc. congruence.
  - intros j b. rewrite E2, lookup_insert. case_decide as Ei; [by intros [= <-]; rewrite Hfin|].
    intros Hb Fb. destruct (ob_open d Hd j b Hb Fb) as (x & Hx & Fit). exists x. split; [|done].
    rewrite E1, lookup_insert_ne; [done|]. intros Ek. destruct Ei.
    apply (open_attempt_unique d i j a b Hd Ha Hb Hopen Fb). congruence.
  - intros j b Hb. rewrite E2, lookup_insert in Hb.
    assert (∃ b0, outbox_delivery_attempts d !! j = Some b0 ∧ da_command_id b0 = da_command_id b ∧
      da_delivery_cycle b0 = da_delivery_cycle b ∧ da_attempt_number b0 = da_attempt_number b) as
      (b0 & Hb0 & C1 & C2 & C3) by (case_decide; simplify_eq; eauto 10). clear Hb.
    destruct (ob_counted d Hd j b0 Hb0) as (x & Hx & Hcx). rewrite E1, lookup_insert.
    unfold counted in *. rewrite C1 in Hx. rewrite C2, C3 in Hcx.
    case_decide as Ek; [|by exists x]. rewrite <- Ek, Hm in Hx. injection Hx as ->. exists m'. split; [done|]. by rewrite Hcy, Hat.
  - rewrite E2. apply (insert_rows (λ _ x, 1 ≤ da_attempt_number x ≤ 8)); [apply Hd|].
    rewrite Han. by eapply ob_bounded, Ha.
Qed.

(** A lease starts: the message counts one more attempt, opened with it. *)
Lemma outbox_ok_claim d d' k m m' a :
  outbox_ok d → schema_ok d' → outbox_messages d !! k = Some m → om_status m ≠ ob_processing →
  outbox_delivery_attempts d !! da_attempt_id a = None →
  outbox_messages d' = <[k := m']> (outbox_messages d) →
  outbox_delivery_attempts d' = <[da_attempt_id a := a]> (outbox_delivery_attempts d) →
  provider_deliveries d' = provider_deliveries d → outbox_redrives d' = outbox_redrives d →
  envelope_of m' = envelope_of m → om_delivery_cycle m' = om_delivery_cycle m →
  om_attempts_in_cycle m' = om_attempts_in_cycle m + 1 →
  da_finished_at a = None → fits m' a → outbox_ok d'.
Proof.
  intros Hd Hs Hm Hst Hnew E1 E2 E3 E4 He Hcy Hat Hopen Hfit.
  destruct (outbox_ok_envelopes d d' k m m' Hd Hm E1 E3 He) as [Hen Hdv].
  pose proof (outbox_id d k m Hd Hm) as Hk.
  assert (da_command_id a = k) as Hak.
  { destruct Hfit as (_ & -> & _). rewrite (envelope_of_command _ _ He). done. }
  assert (∀ j b, outbox_delivery_attempts d !! j = Some b → outbox_delivery_attempts d' !! j = Some b)
    as Hkeep by (intros j b Hb; rewrite E2, lookup_insert_ne; [done|congruence]).
  split; [done|..|done|done|by eapply outbox_audit_same].
  - intros j x. rewrite E1, lookup_insert. case_decide as Ek.
    + intros [= <-] _. exists (da_attempt_id a), a. by rewrite E2, lookup_insert_eq.
    + intros Hx Hpx. destruct (ob_leased d Hd j x Hx Hpx) as (i & b & Hb & ?). eauto 10.
  - intros j b. rewrite E2, lookup_insert. case_decide as Ei.
    + intros [= <-] _. exists m'. by rewrite E1, Hak, lookup_insert_eq.
    + intros Hb Fb. destruct (ob_open d Hd j b Hb Fb) as (x & Hx & Fit). exists x. split; [|done].
      rewrite E1, lookup_insert_ne; [done|]. intros Ek. rewrite <- Ek, Hm in Hx.
      injection Hx as ->. by destruct Fit.
  - intros j b. rewrite E2, lookup_insert. case_decide as Ei.
    + intros [= <-]. exists m'. rewrite E1, Hak, lookup_insert_eq. split; [done|].
      unfold counted. destruct Hfit as (_ & _ & _ & _ & -> & ->). lia.
    + intros Hb. destruct (ob_counted d Hd j b Hb) as (x & Hx & Hcx). rewrite E1, lookup_insert.
      case_decide as Ek; [|by exists x]. rewrite <- Ek, Hm in Hx. injection Hx as ->. exists m'. split; [done|]. unfold counted in *. rewrite Hcy, Hat.
      destruct Hcx as [? Hcx]. split; [done|]. intros Ecy. specialize (Hcx Ecy). lia.
  - rewrite E2. apply (insert_rows (λ _ x, 1 ≤ da_attempt_number x ≤ 8)); [apply Hd|].
    assert (outbox_messages d' !! k = Some m') as Hm' by by rewrite E1, lookup_insert_eq.
    pose proof (so_outbox_check d' Hs k m' Hm') as Hck. pose proof (so_outbox_check d (ob_schema d Hd) k m Hm) as Hck0.
    unfold outbox_messages_check in Hck, Hck0. bools. destruct Hfit as (_ & _ & _ & _ & _ & ->). lia.
Qed.

(** A lease is prolonged: nothing an attempt refers to changes. *)
Lemma outbox_ok_touch d d' k m m' :
  outbox_ok d → schema_ok d' → outbox_messages d !! k = Some m →
  outbox_messages d' = <[k := m']> (outbox_messages d) →
  outbox_delivery_attempts d' = outbox_delivery_attempts d →
  provider_deliveries d' = provider_deliveries d → outbox_redrives d' = outbox_redrives d →
  envelope_of m' = envelope_of m → om_status m' = om_status m → om_lease_id m' = om_lease_id m →
  om_lease_owner m' = om_lease_owner m → om_delivery_cycle m' = om_delivery_cycle m →
  om_attempts_in_cycle m' = om_attempts_in_cycle m → outbox_ok d'.
Proof.
  intros Hd Hs Hm E1 E2 E3 E4 He Hst Hli Hlo Hcy Hat.
  destruct (outbox_ok_envelopes d d' k m m' Hd Hm E1 E3 He) as [Hen Hdv].
  pose proof (envelope_of_command _ _ He) as Hid.
  assert (∀ j x, outbox_messages d !! j = Some x → ∃ y, outbox_messages d' !! j = Some y ∧
    (∀ b, fits x b → fits y b) ∧ (∀ b, counted x b → counted y b)) as Hkeep.
  { intros j x Hx. rewrite E1, lookup_insert. case_decide as Ek; [|by exists x].
    subst j. simplify_eq. exists m'. unfold fits, counted. rewrite Hst, Hid, Hli, Hlo, Hcy, Hat. done. }
  split; [done|..|done|done|by eapply outbox_audit_same]; rewrite ?E2.
  - intros j x. rewrite E1, lookup_insert. case_decide as Ek; [|by apply Hd].
    intros [= <-]. rewrite Hst. intros Hp. destruct (ob_leased d Hd k m Hm Hp) as (i & b & Hb & Fb & Fit).
    exists i, b. split_and!; [done..|]. unfold fits in *. by rewrite Hst, Hid, Hli, Hlo, Hcy, Hat.
  - intros j b Hb Fb. destruct (ob_open d Hd j b Hb Fb) as (x & Hx & Fit).
    destruct (Hkeep _ _ Hx) as (y & Hy & Hf & _). eauto.
  - intros j b Hb. destruct (ob_counted d Hd j b Hb) as (x & Hx & Hcx).
    destruct (Hkeep _ _ Hx) as (y & Hy & _ & Hc). eauto.
  - apply Hd.
Qed.

(** A command reaches the provider as it is stored. *)
Lemma outbox_ok_deliver d c m :
  outbox_ok d → outbox_messages d !! e_command_id c = Some m → envelope_of m = c →
  outbox_ok (add_provider_delivery c d).
Proof.
  intros [Hs Hl Ho Hc Hb He Hdv Hau] Hm Em. split; cbn; try done.
  - by destruct Hs; split.
  - intros x [Hx|Hx]%elem_of_app; [auto|]. apply list_elem_of_singleton in Hx as ->. eauto.
Qed.

(** * Closing a lease *)

(** The aggregates, their timelines and the direct submissions are untouched. *)
Definition same_domain (d d' : database) : Prop :=
  support_cases d' = support_cases d ∧ support_case_events d' = support_case_events d ∧
  order_operations d' = order_operations d ∧
  order_operation_events d' = order_operation_events d ∧
  provider_submissions d' = provider_submissions d.

(** The messaging tables are untouched. *)
Definition same_messaging (d d' : database) : Prop :=
  outbox_messages d' = outbox_messages d ∧
  outbox_delivery_attempts d' = outbox_delivery_attempts d ∧
  provider_deliveries d' = provider_deliveries d ∧
  outbox_redrives d' = outbox_redrives d.

#[export] Instance same_domain_preorder : PreOrder same_domain.
Proof. split; unfold same_domain; [done|]. intros x y z ? ?. destruct_and!. split_and!; congruence. Qed.
#[export] Instance same_messaging_preorder : PreOrder same_messaging.
Proof. split; unfold same_messaging; [done|]. intros x y z ? ?. destruct_and!. split_and!; congruence. Qed.

(** One attempt [a] and the message [m] it belongs to are closed together. *)
Record lease_closed (m m' : OutboxMessage) (a a' : OutboxDeliveryAttempt) (d d' : database) : Prop := {
  lc_message : outbox_messages d !! om_command_id m = Some m;
  lc_attempt : outbox_delivery_attempts d !! da_attempt_id a = Some a;
  lc_was_open : da_finished_at a = None;
  lc_fits : fits m a;
  lc_messages : outbox_messages d' = <[om_command_id m := m']> (outbox_messages d);
  lc_attempts : outbox_delivery_attempts d' = <[da_attempt_id a := a']> (outbox_delivery_attempts d);
  lc_deliveries : provider_deliveries d' = provider_deliveries d;
  lc_redrives : outbox_redrives d' = outbox_redrives d;
  lc_domain : same_domain d d';
  lc_advances : message_advances m m';
  lc_count : om_delivery_cycle m' = om_delivery_cycle m ∧
             om_attempts_in_cycle m' = om_attempts_in_cycle m;
  lc_finished : is_Some (da_finished_at a') ∧ da_command_id a' = da_command_id a ∧
                da_delivery_cycle a' = da_delivery_cycle a ∧
                da_attempt_number a' = da_attempt_number a;
}.

Lemma lease_closed_ok m m' a a' d d' :
  lease_closed m m' a a' d d' → om_status m' ≠ ob_processing → outbox_ok d → schema_ok d' → outbox_ok d'.
Proof.
  intros [Hm Ha Ho Hf E1 E2 E3 E4 _ Hadv [Hcy Hat] (Hfin & Hc & Hcy' & Hn)] Hst Hd Hs.
  eapply (outbox_ok_close d d' (om_command_id m) m m' (da_attempt_id a) a a'); try done;
    [by destruct Hf as (_ & -> & _)|apply Hadv].
Qed.

Lemma lease_closed_evolves m m' a a' d d' : lease_closed m m' a a' d d' → outbox_evolve d d'.
Proof. intros H. by eapply outbox_evolve_insert; apply H. Qed.

(** The two guarded statements every ending of a delivery runs: they succeed only for the
    open attempt of the lease the message still carries. *)
Lemma closing_statements d d1 d2 k l w i at_ outc fk hs poi pr ec em ra na target t av pub dead fk' ec' em' :
  outbox_ok d →
  commits_to (finish_delivery_attempt i k l w at_ outc fk hs poi pr ec em ra na) d 1 d1 →
  commits_to (update_outbox_transition k ob_processing (Some l) (Some w) target t av pub dead fk' ec' em')
    d1 1 d2 →
  outbox_transition_allowed ob_processing target = true →
  ∃ m m' a, lease_closed m m' a (finished_attempt a at_ outc fk hs poi pr ec em ra na) d d2 ∧
    schema_ok d2 ∧ om_command_id m = k ∧ da_attempt_id a = i ∧ da_lease_id a = l ∧ da_worker_id a = w ∧
    m' = with_progress m target (om_attempts_in_cycle m) (default (om_available_at m) av) None None None
           (or_keep fk' (om_last_failure_kind m)) (or_keep ec' (om_last_error_code m))
           (or_keep em' (om_last_error_message m)) (greatest3 t (om_updated_at m) (om_created_at m))
           (or_keep ((λ x, greatest3 x (om_updated_at m) (om_created_at m)) <$> pub) (om_published_at m))
           (or_keep ((λ x, greatest3 x (om_updated_at m) (om_created_at m)) <$> dead) (om_dead_at m)).
Proof.
  intros Hd H1 H2 Htr.
  apply finish_delivery_attempt_commits in H1 as [[? _]|(_ & a & Ha & Hw & Hput)]; [done|].
  apply update_outbox_transition_commits in H2 as [[? _]|(_ & m & Hm & Hmw & Hmput)]; [done|].
  assert (da_attempt_id a = i) as Hi by (by eapply so_attempt_id, Ha; apply Hd).
  unfold attempt_fence in Hw. bools.
  pose proof (put_delivery_attempt_ok _ _ _ (ob_schema _ Hd) Hput) as Hs1.
  apply put_delivery_attempt_effect in Hput. cbn in Hput. subst d1.
  change (outbox_messages d !! k = Some m) in Hm. pose proof (outbox_id d k m Hd Hm) as Hk.
  pose proof (put_outbox_message_ok _ _ _ Hs1 Hmput) as Hs2.
  apply put_outbox_message_effect in Hmput as [-> _].
  destruct (ob_open d Hd i a Ha) as (m0 & Hm0 & Hfit); [done|].
  assert (m0 = m) as -> by congruence.
  eexists m, _, a. split_and!; [|exact Hs2|done..|reflexivity].
  subst k i l w. split; cbn; try done.
  - by rewrite Hk.
  - split; [done|]. split; [done|]. right. cbn. split_and!; [done|lia|]. apply rtc_once.
    by destruct Hfit as [-> _].
Qed.
