(* ===== verification/OutboxTransactions.v ===== *)
(** What each outbox transaction commits: claiming, renewing, retrying and recovering
    leases. *)
From S2P Require Import Prelude Effects OperationModels CaseModels Envelope Retry Database Transactions Messaging CaseRepository OutboxWrites Finalization OutboxRepository OutboxSafety.

(** * The command inside a claim *)

Lemma with_payload_same m : with_payload m (om_payload m) = m.
Proof. by destruct m. Qed.

(** Stripping and parsing change nothing of a stored command. *)
Lemma stored_command_normal m :
  to_envelope m = Ok (envelope_of m) →
  parse_payload (om_command_type m) (om_payload m) = Ok (om_payload m) ∧
  envelope_of (OutboxMessage_strip m) = envelope_of m.
Proof.
  intros He. split; [by apply (parse_payload_envelope (envelope_of m) (envelope_of m))|].
  pose proof (envelope_normal_fields (envelope_of m) He) as (H1 & H2 & H3 & H4 & H5 & _).
  cbn in *. unfold envelope_of, OutboxMessage_strip. cbn. by rewrite H1, H2, H3, H4, H5.
Qed.

(** * Claiming *)

(** The claim [c] leased, for [worker_id], a message that was waiting in [d]. *)
Record freshly_leased (worker_id : string) (m : OutboxMessage) (c : ClaimedOutboxMessage)
    (d d' : database) : Prop := mkFreshlyLeased {
  fl_waiting : outbox_messages d !! om_command_id m = Some m ∧ om_status m ≠ ob_processing ∧
               om_attempts_in_cycle m < 8;
  fl_leased : ∃ m' a, outbox_messages d' !! om_command_id m = Some m' ∧
    outbox_delivery_attempts d' !! da_attempt_id a = Some a ∧ da_finished_at a = None ∧
    fits m' a ∧ da_worker_id a = worker_id ∧ message_advances m m' ∧
    om_delivery_cycle m' = om_delivery_cycle m ∧
    om_attempts_in_cycle m' = om_attempts_in_cycle m + 1 ∧
    cl_message c = OutboxMessage_strip m' ∧ cl_attempt c = OutboxDeliveryAttempt_strip a;
}.

(** The effect of leasing one row. *)
Record row_leased (worker_id : string) (m : OutboxMessage) (c : ClaimedOutboxMessage)
    (d d' : database) : Prop := {
  rl_ok : outbox_ok d';
  rl_domain : same_domain d d';
  rl_deliveries : provider_deliveries d' = provider_deliveries d;
  rl_others : ∀ k, k ≠ om_command_id m → outbox_messages d' !! k = outbox_messages d !! k;
  rl_attempts : ∀ i a, outbox_delivery_attempts d !! i = Some a →
                  outbox_delivery_attempts d' !! i = Some a;
  rl_evolves : outbox_evolve d d';
  rl_leased : freshly_leased worker_id m c d d';
}.

Lemma claim_row_commits worker_id lease m d c d' :
  outbox_ok d → outbox_messages d !! om_command_id m = Some m →
  om_status m ∈ [ob_pending; ob_retry_scheduled] → om_attempts_in_cycle m < 8 →
  commits_to (claim_row worker_id lease m) d c d' → row_leased worker_id m c d d'.
Proof.
  intros Hd Hm Hst Hatt H. unfold claim_row in H.
  apply commits_to_bind in H as (l & ? & ->%commits_to_uuid4 & H).
  apply commits_to_bind in H as (i & ? & ->%commits_to_uuid4 & H).
  apply commits_to_bind in H as (t & ? & ->%commits_to_clock & H).
  apply commits_to_bind in H as (t' & ? & ->%commits_to_clock & H).
  apply commits_to_bind in H as (r & d1 & Hu & H).
  apply update_outbox_commits in Hu as [[-> ->]|(m0 & -> & Hm0 & _ & Hput)];
    [by apply commits_to_raise in H|].
  rewrite Hm in Hm0. injection Hm0 as <-.
  set (m' := leased_row m l worker_id (t + lease) t') in *. set (a := open_attempt i l worker_id m') in *.
  apply commits_to_bind in H as (u & d2 & Hins%commits_to_execute & H). inv_tx.
  assert (message_advances m m') as Hadv.
  { split_and!; [done..|]. right. cbn. split_and!; [done|lia|]. apply rtc_once.
    by apply elem_of_cons in Hst as [->| ->%list_elem_of_singleton]. }
  pose proof (put_outbox_message_ok _ _ _ (ob_schema d Hd) Hput) as Hs1.
  pose proof (insert_delivery_attempt_ok _ _ _ Hs1 Hins) as Hs2.
  apply put_outbox_message_effect in Hput as [-> _]. cbn in Hins.
  unfold insert_delivery_attempt in Hins. apply pg_bind_ok in Hins as (? & Hnew & Hins).
  apply pg_check_ok, bool_decide_eq_true in Hnew. cbn in Hnew.
  apply put_delivery_attempt_effect in Hins. cbn in Hins.
  assert (om_status m ≠ ob_processing) as Hnp.
  { by apply elem_of_cons in Hst as [->| ->%list_elem_of_singleton]. }
  assert (fits m' a) as Hfit by done.
  assert (outbox_ok d2) as Hok.
  { eapply (outbox_ok_claim d d2 (om_command_id m) m m' a); try done; by subst d2. }
  assert (outbox_evolve d d2) as Hev by (eapply outbox_evolve_insert; [exact Hm|by subst d2|done|by subst d2]).
  assert (∀ i0 a0, outbox_delivery_attempts d !! i0 = Some a0 →
    outbox_delivery_attempts d2 !! i0 = Some a0) as Hkeep.
  { intros i0 a0 Ha0. subst d2. cbn. rewrite lookup_insert_ne; [done|]. intros <-. congruence. }
  match goal with H : OutboxDeliveryAttempt_validate a = Ok _ |- _ => rename H into Hat end.
  match goal with H : parse_payload _ _ = Ok _ |- _ => rename H into Hpp end.
  match goal with H : ClaimedOutboxMessage_validate _ _ = Ok _ |- _ => rename H into Hcl end.
  destruct (stored_command_normal m') as [Hpn _].
  { eapply (to_envelope_of m m'); [done|]. by eapply ob_envelope, Hm. }
  rewrite Hpn in Hpp. injection Hpp as <-. change (om_payload m) with (om_payload m') in Hcl.
  rewrite with_payload_same in Hcl.
  apply ClaimedOutboxMessage_validate_ok in Hcl as (-> & _).
  split; [done|..|done|].
  - by subst d2.
  - by subst d2.
  - intros k Hk. subst d2. cbn. by rewrite lookup_insert_ne.
  - done.
  - split; [done|]. exists m', a. split_and!; try done.
    + subst d2. cbn. by rewrite lookup_insert_eq.
    + subst d2. cbn. by rewrite lookup_insert_eq.
    + unfold OutboxDeliveryAttempt_validate in Hat. cbv zeta in Hat. inv_ok. done.
Qed.

Lemma due_rows_spec locked batch t d m :
  schema_ok d → m ∈ due_rows locked batch t d →
  outbox_messages d !! om_command_id m = Some m ∧ due t m = true ∧ locked (om_command_id m) = false.
Proof.
  intros Hs Hm. unfold due_rows in Hm. apply elem_of_take in Hm as (i & Hi & _).
  apply list_elem_of_lookup_2 in Hi. rewrite merge_sort_Permutation in Hi.
  apply list_elem_of_filter in Hi as [[Hd Hl] Hr]. apply elem_of_rows in Hr as [k Hk].
  by pose proof (so_outbox_id d Hs k m Hk) as <-.
Qed.

Lemma NoDup_fmap_filter {A B} (f : A → B) (P : A → Prop) `{∀ x, Decision (P x)} l :
  NoDup (f <$> l) → NoDup (f <$> filter P l).
Proof.
  induction l as [|x l IH]; [done|]. intros [Hx Hl]%NoDup_cons.
  rewrite filter_cons. case_decide; [|by apply IH]. cbn. constructor; [|by apply IH].
  intros (y & Hy & Hin)%list_elem_of_fmap. destruct Hx. apply list_elem_of_fmap. exists y.
  by apply list_elem_of_filter in Hin as [_ Hin].
Qed.

Lemma due_rows_NoDup locked batch t d :
  schema_ok d → NoDup (om_command_id <$> due_rows locked batch t d).
Proof.
  intros Hs. unfold due_rows. rewrite fmap_take. eapply sublist_NoDup; [|apply sublist_take].
  rewrite merge_sort_Permutation. apply NoDup_fmap_filter, rows_keys_NoDup. apply (so_outbox_id d Hs).
Qed.

Lemma due_le_spec a b :
  due_le a b ↔ om_available_at a < om_available_at b ∨
    om_available_at a = om_available_at b ∧
    (om_created_at a < om_created_at b ∨
     om_created_at a = om_created_at b ∧ (om_command_id a <= om_command_id b)%N).
Proof.
  unfold due_le, due_before, row_key_lt. cbn [fst snd].
  rewrite orb_true_iff, andb_true_iff, negb_true_iff, orb_false_iff, andb_false_iff, Z.ltb_lt,
    !Z.eqb_eq, Z.ltb_ge, Z.eqb_neq, N.ltb_ge. lia.
Qed.

#[local] Instance due_le_total : Total due_le.
Proof. intros a b. rewrite !due_le_spec. lia. Qed.
#[local] Instance due_le_trans : Transitive due_le.
Proof. intros a b c. rewrite !due_le_spec. lia. Qed.

Lemma due_rows_sorted locked batch t d : StronglySorted due_le (due_rows locked batch t d).
Proof.
  unfold due_rows. set (l := merge_sort due_le _). eapply (StronglySorted_app_1_l _ _ (drop _ l)).
  rewrite take_drop. apply StronglySorted_merge_sort; apply _.
Qed.

(** A due message that no other transaction holds is claimed, unless the batch is full of
    messages that come before it. *)
Lemma due_rows_complete locked batch t d k m :
  outbox_messages d !! k = Some m → due t m = true → locked (om_command_id m) = false →
  m ∈ due_rows locked batch t d ∨
  length (due_rows locked batch t d) = Z.to_nat batch ∧
  Forall (λ x, due_le x m) (due_rows locked batch t d).
Proof.
  intros Hm Hd Hl. unfold due_rows. set (l := merge_sort due_le _). set (n := Z.to_nat batch).
  assert (m ∈ l) as Hin.
  { unfold l. rewrite merge_sort_Permutation. apply list_elem_of_filter. split; [done|].
    apply elem_of_rows. by exists k. }
  assert (StronglySorted due_le l) as Hs by (apply StronglySorted_merge_sort; apply _).
  rewrite <- (take_drop n l) in Hin. apply elem_of_app in Hin as [Hin|Hin]; [by left|]. right. split.
  - rewrite length_take. apply Nat.min_l. apply list_elem_of_lookup in Hin as [i Hi].
    rewrite lookup_drop in Hi. apply lookup_lt_Some in Hi. lia.
  - rewrite <- (take_drop n l) in Hs. apply Forall_forall. intros x Hx.
    by eapply StronglySorted_app_1_elem_of.
Qed.

Lemma due_spec t m :
  due t m = true → om_status m ∈ [ob_pending; ob_retry_scheduled] ∧ om_available_at m ≤ t ∧
                   om_attempts_in_cycle m < 8.
Proof. unfold due. intros H. bools. by split_and!. Qed.

(** One claim: the waiting messages [ms], due and in order, leased to [worker_id] with one
    new attempt each; everything else as it was. *)
Record claim_committed (locked : uuid → bool) (worker_id : string) (batch : Z) (ms : list OutboxMessage)
    (claimed : list ClaimedOutboxMessage) (d d' : database) : Prop := {
  clc_ok : outbox_ok d';
  clc_domain : same_domain d d';
  clc_deliveries : provider_deliveries d' = provider_deliveries d;
  clc_evolves : outbox_evolve d d';
  clc_leased : Forall2 (λ m c, freshly_leased worker_id m c d d') ms claimed;
  clc_distinct : NoDup (om_command_id <$> ms);
  clc_bounded : (length claimed ≤ Z.to_nat batch)%nat;
  clc_due : ∃ t, Forall (λ m, due t m = true ∧ locked (om_command_id m) = false) ms ∧
    StronglySorted due_le ms ∧
    (∀ k m, outbox_messages d !! k = Some m → due t m = true → locked (om_command_id m) = false →
       m ∈ ms ∨ length ms = Z.to_nat batch ∧ Forall (λ x, due_le x m) ms);
  clc_others : ∀ k, k ∉ om_command_id <$> ms → outbox_messages d' !! k = outbox_messages d !! k;
}.

Lemma freshly_leased_keep w m c d d1 d2 :
  freshly_leased w m c d d1 → outbox_messages d2 !! om_command_id m = outbox_messages d1 !! om_command_id m →
  (∀ i a, outbox_delivery_attempts d1 !! i = Some a → outbox_delivery_attempts d2 !! i = Some a) →
  freshly_leased w m c d d2.
Proof.
  intros [Hw (m' & a & Hm' & Ha & Hrest)] Hk Hat. split; [done|]. exists m', a.
  rewrite Hk. split_and!; [done|by apply Hat|apply Hrest..].
Qed.

Lemma claim_loop_commits worker_id lease ms d claimed d' :
  outbox_ok d → NoDup (om_command_id <$> ms) →
  Forall (λ m, outbox_messages d !! om_command_id m = Some m ∧
               om_status m ∈ [ob_pending; ob_retry_scheduled] ∧ om_attempts_in_cycle m < 8) ms →
  commits_to (tx_for (claim_row worker_id lease) ms) d claimed d' →
  outbox_ok d' ∧ same_domain d d' ∧ provider_deliveries d' = provider_deliveries d ∧
  outbox_evolve d d' ∧ Forall2 (λ m c, freshly_leased worker_id m c d d') ms claimed ∧
  (∀ k, k ∉ om_command_id <$> ms → outbox_messages d' !! k = outbox_messages d !! k) ∧
  (∀ i a, outbox_delivery_attempts d !! i = Some a → outbox_delivery_attempts d' !! i = Some a).
Proof.
  intros Hd Hnd Hms. revert d claimed d' Hd Hms.
  induction ms as [|m ms IH]; intros d claimed d' Hd Hms H; cbn in H.
  { inv_tx. by split_and!. }
  apply commits_to_bind in H as (c & d1 & Hc & H). apply commits_to_bind in H as (cs & d2 & Hcs & H).
  inv_tx. apply NoDup_cons in Hnd as [Hnm Hnd]. apply Forall_cons in Hms as [(Hm & Hst & Hat) Hms].
  apply claim_row_commits in Hc as [Hok1 Hdom1 Hdel1 Hoth1 Hatt1 Hev1 Hl1]; [|done..].
  specialize (IH Hnd).
  assert (Forall (λ m, outbox_messages d1 !! om_command_id m = Some m ∧
    om_status m ∈ [ob_pending; ob_retry_scheduled] ∧ om_attempts_in_cycle m < 8) ms) as Hms1.
  { rewrite Forall_forall in *. intros x Hx. destruct (Hms x Hx) as (Hx1 & Hx2).
    split; [|done]. rewrite Hoth1; [done|]. intros E. destruct Hnm.
    apply list_elem_of_fmap. by exists x. }
  destruct (IH _ _ _ Hok1 Hms1 Hcs) as (Hok & Hdom & Hdel & Hev & Hl & Hoth & Hatt).
  split_and!; [done|by etrans|congruence|by etrans|..|by eauto].
  - constructor; [exact (freshly_leased_keep _ _ _ _ _ _ Hl1 (Hoth _ Hnm) Hatt)|].
    eapply Forall2_impl; [exact Hl|]. intros x b [(Hx & Hnp & Hw) Hlx]. split; [|done].
    split_and!; [|done..]. rewrite <- Hoth1; [done|]. intros E. rewrite E in Hx.
    destruct Hl1 as [_ (m' & a & Hm' & _ & _ & (Hp & _) & _)]. congruence.
  - intros k Hk. cbn in Hk. apply not_elem_of_cons in Hk as [Hk1 Hk2]. by rewrite Hoth, Hoth1.
Qed.

(** [claim_due_outbox] commits exactly such a claim. *)
Lemma claim_due_commits locked worker_id batch lease d claimed d' :
  outbox_ok d →
  commits_to (claim_tx locked worker_id batch lease) d claimed d' →
  ∃ ms, claim_committed locked worker_id batch ms claimed d d'.
Proof.
  intros Hd H. unfold claim_tx in H. apply commits_to_bind in H as (t & ? & ->%commits_to_clock & H).
  apply commits_to_bind in H as (ms & ? & [Hms ->]%commits_to_select & H). exists ms.
  pose proof (ob_schema d Hd) as Hs.
  assert (Forall (λ m, outbox_messages d !! om_command_id m = Some m ∧ due t m = true ∧
    locked (om_command_id m) = false) ms) as Hdue.
  { apply Forall_forall. intros m Hm. rewrite Hms in Hm. apply due_rows_spec in Hm; naive_solver. }
  apply claim_loop_commits in H as (Hok & Hdom & Hdel & Hev & Hl & Hoth & _); [|done|..].
  - split; try done.
    + rewrite Hms. by apply due_rows_NoDup.
    + rewrite <- (Forall2_length _ _ _ Hl), Hms. unfold due_rows. rewrite length_take. lia.
    + exists t. split; [eapply Forall_impl; [exact Hdue|]; naive_solver|].
      rewrite Hms. split; [by apply due_rows_sorted|]. intros k m. apply due_rows_complete.
  - rewrite Hms. by apply due_rows_NoDup.
  - eapply Forall_impl; [exact Hdue|]. intros m (Hm & (Hst & _ & Hat)%due_spec & _). done.
Qed.
