(* ===== verification/FinalizationSafety.v ===== *)
(** What a finalization does to the domain aggregates: the invariants of the case and the
    operation services survive it, and a command that cannot be delivered leaves its
    operation with a human. *)
From S2P Require Import Prelude Effects OperationModels CaseModels CasePolicy Envelope Database Transactions Messaging CaseRepository CaseService CaseSafety OperationRepository OperationService OperationSafety OutboxWrites Finalization OutboxSafety.

Definition same_operations (d d' : database) : Prop :=
  order_operations d' = order_operations d ∧
  order_operation_events d' = order_operation_events d ∧
  provider_submissions d' = provider_submissions d.

Definition same_cases (d d' : database) : Prop :=
  support_cases d' = support_cases d ∧ support_case_events d' = support_case_events d.

#[export] Instance same_operations_preorder : PreOrder same_operations.
Proof. split; unfold same_operations; [done|]. intros x y z ? ?. destruct_and!. split_and!; congruence. Qed.
#[export] Instance same_cases_preorder : PreOrder same_cases.
Proof. split; unfold same_cases; [done|]. intros x y z ? ?. destruct_and!. split_and!; congruence. Qed.

(** * Statements on cases *)

Lemma update_case_reasons_commits i v set d r d' :
  commits_to (update_case_reasons i v set) d r d' →
  (r = None ∧ d' = d) ∨
  ∃ c, r = Some (set c) ∧ support_cases d !! i = Some c ∧ c_version c = v ∧
       put_support_case (set c) d = PgOk d'.
Proof.
  unfold update_case_reasons. intros H.
  apply commits_to_bind in H as (o & ? & [-> ->]%commits_to_select & H).
  destruct (support_cases d !! i) as [c|]; [|inv_tx; by left].
  case_bool_decide; [|inv_tx; by left].
  apply commits_to_bind in H as (u & d1 & Hp%commits_to_execute & H).
  apply commits_to_ret in H as [-> ->]. right. by exists c.
Qed.

Lemma insert_case_event_once_effect e d d' :
  insert_case_event_once e d = PgOk d' →
  (d' = d ∧ ev_idempotency_key e ∈ ev_idempotency_key <$> support_case_events d) ∨
  insert_case_event e d = PgOk d'.
Proof. unfold insert_case_event_once. intros H. inv_pg. case_bool_decide; inv_pg; auto. Qed.

Lemma insert_case_event_once_ok e d d' :
  schema_ok d → insert_case_event_once e d = PgOk d' → schema_ok d'.
Proof.
  intros Hd [[-> _]|H]%insert_case_event_once_effect; [done|]. by eapply insert_case_event_ok.
Qed.

(** Events are only appended, and each is one the models accept. *)
Lemma case_db_ok_events d d' e :
  case_db_ok d → schema_ok d' → support_cases d' = support_cases d →
  support_case_events d' = support_case_events d ++ [e] → event_normal e → case_db_ok d'.
Proof.
  intros [_ Hc He] Hs E1 E2 Hn. split; [done|by rewrite E1|]. rewrite E2.
  intros x [Hx|Hx]%elem_of_app; [auto|]. apply list_elem_of_singleton in Hx as ->. done.
Qed.

Lemma case_db_ok_row d d' c :
  case_db_ok d → schema_ok d' → support_cases d' = <[c_case_id c := c]> (support_cases d) →
  support_case_events d' = support_case_events d → case_normal c → case_db_ok d'.
Proof.
  intros [_ Hc He] Hs E1 E2 Hn. split; [done|..|by rewrite E2].
  rewrite E1. by apply (insert_rows (λ _ x, case_normal x)).
Qed.

Lemma case_db_ok_frame d d' : case_db_ok d → schema_ok d' → same_cases d d' → case_db_ok d'.
Proof. intros [_ Hc He] Hs [E1 E2]. split; [done|by rewrite E1|by rewrite E2]. Qed.

Lemma case_with_reasons_normal c p reasons at_ v :
  case_normal c → reasons ≠ [] → c_created_at c ≤ at_ → 1 ≤ v →
  case_normal (case_with_reasons c p reasons at_ v).
Proof.
  unfold case_normal. rewrite !SupportCase_validate_ok. intros (Hs & Hf & Hl) Hr Ha Hv. split_and!.
  - unfold SupportCase_strip, case_with_reasons in *. destruct c; cbn in *.
    injection Hs as H1 H2 H3 H4 H5 H6 H7 H8 H9. by rewrite <- H1, <- H2, <- H3, <- H4, <- H5, <- H6, <- H7, <- H8, <- H9.
  - unfold SupportCase_fields_ok in *. cbn in *. bools.
    repeat match goal with H : _ = true |- _ => rewrite H; clear H end. cbn.
    rewrite bool_decide_eq_true_2 by done. rewrite !andb_true_r, !andb_true_iff. lia.
  - unfold validate_lifecycle_fields in *. cbn. apply res_bind_ok in Hl as ([] & _ & ->).
    by replace (_ <? c_created_at c) with false by lia.
Qed.

Lemma case_touched_later now c : c_created_at c ≤ case_touched_at now c.
Proof. unfold case_touched_at, greatest3. lia. Qed.

Lemma put_support_case_times c d d' : put_support_case c d = PgOk d' → c_created_at c ≤ c_updated_at c.
Proof. unfold put_support_case. intros H. inv_pg. unfold support_cases_check in *. bools. lia. Qed.

(** * Ensuring the review case *)

(** The unresolved review case of the operation's thread, at P1, naming the failure. *)
Definition review_case_for (o : OrderOperation) (c : SupportCase) : Prop :=
  c_tenant_id c = oo_tenant_id o ∧ c_thread_id c = oo_thread_id o ∧
  c_case_type c = ct_order_operation_review ∧ c_status c ≠ cs_resolved ∧ c_priority c = p1 ∧
  hr_provider_delivery_failed ∈ c_reason_codes c.

Lemma active_review_case_spec tenant thread d c :
  active_review_case tenant thread d = Some c →
  (∃ i, support_cases d !! i = Some c) ∧ c_tenant_id c = tenant ∧ c_thread_id c = thread ∧
  c_case_type c = ct_order_operation_review ∧ c_status c ≠ cs_resolved.
Proof.
  unfold active_review_case. intros H. apply head_Some_elem_of in H.
  apply list_elem_of_filter in H as [Hp Hr%elem_of_rows]. by destruct_and!.
Qed.

Lemma cases_evolve_rewrite d d' c c' :
  support_cases d !! c_case_id c = Some c → c_case_id c' = c_case_id c →
  support_cases d' = <[c_case_id c' := c']> (support_cases d) →
  same_identity c c' → c_version c < c_version c' → cases_evolve d d'.
Proof.
  intros Hc Hid E Hs Hv. rewrite Hid in E. eapply evolve_insert; [apply _|exact Hc|exact E|].
  intros o [= <-]. done.
Qed.

Lemma cases_evolve_frame d d' : support_cases d' = support_cases d → cases_evolve d d'.
Proof. intros E i r Hr. exists r. rewrite E. split; [done|]. reflexivity. Qed.

(** A way to insert a case event: it may find the event's key taken and do nothing. *)
Definition inserts_case_event (insert : SupportCaseEvent → database → pg database) : Prop :=
  ∀ e d d', insert e d = PgOk d' →
    (d' = d ∧ ev_idempotency_key e ∈ ev_idempotency_key <$> support_case_events d) ∨
    insert_case_event e d = PgOk d'.

Lemma inserts_once : inserts_case_event insert_case_event_once.
Proof. intros e d d'. apply insert_case_event_once_effect. Qed.
Lemma inserts_plain : inserts_case_event insert_case_event.
Proof. intros e d d'. by right. Qed.

(** The event an escalation leaves on the review case. *)
Definition escalation_recorded (key : string) (d : database) : Prop :=
  strip key ∈ ev_idempotency_key <$> support_case_events d.

Section Escalation.
Context (key : string) (stamp : SupportCase → instant) (insert : SupportCaseEvent → database → pg database).
Context (Hinsert : inserts_case_event insert) (lost : exn) (o : OrderOperation) (now : instant).

(** What an escalation commits on the cases. *)
Record escalated_case (r : SupportCase * bool) (d d' : database) : Prop := {
  es_case : support_cases d' !! c_case_id r.1 = Some r.1;
  es_review : oo_tenant_id o = strip (oo_tenant_id o) → oo_thread_id o = strip (oo_thread_id o) →
    review_case_for o r.1;
  es_recorded : escalation_recorded key d';
  es_before : if r.2 then ∃ c, support_cases d !! c_case_id r.1 = Some c ∧ c_status c = c_status r.1
              else support_cases d !! c_case_id r.1 = None;
}.

Lemma insert_event_frame e d d' :
  schema_ok d → insert e d = PgOk d' →
  schema_ok d' ∧ same_operations d d' ∧ same_messaging d d' ∧ inbox d' = inbox d ∧
  support_cases d' = support_cases d ∧
  ev_idempotency_key e ∈ ev_idempotency_key <$> support_case_events d' ∧
  (support_case_events d' = support_case_events d ∨ support_case_events d' = support_case_events d ++ [e]).
Proof using Hinsert.
  intros Hd [[-> Hk]|H]%Hinsert.
  - split_and!; try done. by left.
  - pose proof (insert_case_event_ok _ _ _ Hd H) as Hs. apply insert_case_event_effect in H as ->.
    split_and!; try done; [|by right]. cbn. rewrite fmap_app. set_solver.
Qed.

Lemma escalate_inbox d r d' :
  commits_to (escalate_review_case key stamp insert lost o now) d r d' → inbox d' = inbox d.
Proof using Hinsert.
  intros H. unfold escalate_review_case, update_case_reasons in H.
  assert (∀ e x y, insert_case_event e x = PgOk y → inbox y = inbox x) as He
    by (by intros e x y ->%insert_case_event_effect).
  assert (∀ e x y, insert e x = PgOk y → inbox y = inbox x) as Hi by (intros e x y [[-> _]|?]%Hinsert; eauto).
  assert (∀ c x y, put_support_case c x = PgOk y → inbox y = inbox x) as Hp
    by (by intros c x y ->%put_support_case_effect).
  assert (∀ c x y, insert_support_case c x = PgOk y → inbox y = inbox x) as Hn
    by (by intros c x y [_ ->]%insert_support_case_effect).
  repeat (inv_tx; match goal with
    | H : commits_to (match ?x with _ => _ end) _ _ _ |- _ => destruct x
    end); inv_tx; repeat match goal with
    | H : put_support_case _ _ = PgOk _ |- _ => apply Hp in H
    | H : insert_support_case _ _ = PgOk _ |- _ => apply Hn in H
    | H : insert_case_event _ _ = PgOk _ |- _ => apply He in H
    | H : insert _ _ = PgOk _ |- _ => apply Hi in H
    end; congruence.
Qed.

(** Nothing but the cases and their events is touched. *)
Lemma escalate_frame d r d' :
  schema_ok d → commits_to (escalate_review_case key stamp insert lost o now) d r d' →
  schema_ok d' ∧ same_operations d d' ∧ same_messaging d d' ∧ inbox d' = inbox d ∧
  is_Some (support_cases d' !! c_case_id r.1).
Proof using Hinsert.
  intros Hd H. unfold escalate_review_case in H.
  apply commits_to_bind in H as (row & ? & [-> ->]%commits_to_select & H).
  destruct (active_review_case _ _ d) as [row|].
  - apply commits_to_bind in H as (c & ? & [_ ->]%commits_to_lift & H).
    apply commits_to_bind in H as (x & d1 & Hu & H).
    apply update_case_reasons_commits in Hu as [[-> ->]|(c0 & -> & Hc0 & _ & Hput)]; [inv_tx; done|].
    apply commits_to_bind in H as (? & ? & [_ ->]%commits_to_raise_if & H).
    apply commits_to_bind in H as (? & ? & ->%commits_to_uuid4 & H).
    apply commits_to_bind in H as (e & ? & [_ ->]%commits_to_lift & H).
    apply commits_to_bind in H as (? & d2 & Hins%commits_to_execute & H).
    apply commits_to_ret in H as [-> ->].
    pose proof (put_support_case_ok _ _ _ Hd Hput) as Hs1.
    destruct (insert_event_frame e d1 d2 Hs1 Hins) as (Hs2 & Ho2 & Hm2 & Hi2 & Ec & _).
    apply put_support_case_effect in Hput. pose proof (so_case_id d Hd _ _ Hc0) as Hid. subst d1. cbn in *.
    split_and!; [done..|by rewrite Ec, Hid, lookup_insert_eq].
  - apply commits_to_bind in H as (? & ? & ->%commits_to_uuid4 & H).
    apply commits_to_bind in H as (c & ? & [Hc ->]%commits_to_lift & H).
    apply commits_to_bind in H as (? & ? & ->%commits_to_uuid4 & H).
    apply commits_to_bind in H as (e & ? & [_ ->]%commits_to_lift & H).
    apply commits_to_bind in H as (? & d1 & Hput%commits_to_execute & H).
    apply commits_to_bind in H as (? & d2 & Hins%commits_to_execute & H).
    apply commits_to_ret in H as [-> ->].
    pose proof (insert_support_case_ok _ _ _ Hd Hput) as Hs1.
    pose proof (insert_case_event_ok _ _ _ Hs1 Hins) as Hs2.
    apply insert_support_case_effect in Hput as [_ ->]. apply insert_case_event_effect in Hins. subst.
    split_and!; try done. cbn. by rewrite lookup_insert_eq.
Qed.

Lemma escalate_commits d r d' :
  case_db_ok d → commits_to (escalate_review_case key stamp insert lost o now) d r d' →
  case_db_ok d' ∧ cases_evolve d d' ∧ escalated_case r d d'.
Proof using Hinsert.
  intros Hd H. pose proof (cdb_schema d Hd) as Hs. unfold escalate_review_case in H.
  apply commits_to_bind in H as (row & ? & [-> ->]%commits_to_select & H).
  destruct (active_review_case _ _ d) as [row|] eqn:Hrow.
  - apply active_review_case_spec in Hrow as ([k Hk] & Hten & Hthr & Hty & Hst).
    pose proof (cdb_cases d Hd k row Hk) as Hn. pose proof (so_case_id d Hs k row Hk) as Hid. subst k.
    unfold case_normal in Hn. rewrite Hn in H.
    apply commits_to_bind in H as (c & ? & [[= <-] ->]%commits_to_lift & H).
    apply commits_to_bind in H as (x & d1 & Hu & H).
    apply update_case_reasons_commits in Hu as [[-> ->]|(c0 & -> & Hc0 & _ & Hput)]; [inv_tx; done|].
    rewrite Hk in Hc0. injection Hc0 as <-.
    apply commits_to_bind in H as (? & ? & [_ ->]%commits_to_raise_if & H).
    apply commits_to_bind in H as (? & ? & ->%commits_to_uuid4 & H).
    apply commits_to_bind in H as (e & ? & [He ->]%commits_to_lift & H).
    apply commits_to_bind in H as (? & d2 & Hins%commits_to_execute & H).
    apply commits_to_ret in H as [-> ->]. cbv beta in *.
    set (row' := case_with_reasons row p1 _ _ _) in *.
    pose proof (put_support_case_ok _ _ _ Hs Hput) as Hs1. pose proof (put_support_case_times _ _ _ Hput) as Hts.
    apply put_support_case_effect in Hput as E1.
    assert (case_normal row') as Hn'.
    { assert (1 ≤ c_version row).
      { pose proof (so_case_check d Hs _ row Hk) as Hck. unfold support_cases_check, int4_ok in Hck. bools. lia. }
      apply case_with_reasons_normal; [done| |done|lia]. rewrite dict_fromkeys_nil. by destruct (c_reason_codes row). }
    assert (case_db_ok d1) as Hd1 by (eapply case_db_ok_row; [exact Hd|done|by subst|by subst|done]).
    assert (cases_evolve d d1) as Hev1 by (eapply (cases_evolve_rewrite d d1 row row'); [done|done|by subst|done|cbn; lia]).
    destruct (insert_event_frame e d1 d2 Hs1 Hins) as (Hs2 & _ & _ & _ & Ec & Hrec & Hev).
    pose proof (SupportCaseEvent_validate_normal _ _ He) as Hen.
    apply SupportCaseEvent_validate_ok in He as (Hes & _). rewrite Hes in Hrec. cbn in Hrec.
    split_and!.
    + destruct Hev as [Hev|Hev]; [by eapply case_db_ok_frame|by eapply case_db_ok_events].
    + etrans; [exact Hev1|]. by apply cases_evolve_frame.
    + split; cbn [fst snd]; try done.
      * rewrite Ec. subst d1. cbn. by rewrite lookup_insert_eq.
      * intros _ _. unfold review_case_for. cbn. split_and!; try done. apply elem_of_dict_fromkeys. set_solver.
      * by exists row.
  - apply commits_to_bind in H as (i0 & ? & ->%commits_to_uuid4 & H).
    apply commits_to_bind in H as (c & ? & [Hc ->]%commits_to_lift & H).
    apply commits_to_bind in H as (? & ? & ->%commits_to_uuid4 & H).
    apply commits_to_bind in H as (e & ? & [He ->]%commits_to_lift & H).
    apply commits_to_bind in H as (? & d1 & Hput%commits_to_execute & H).
    apply commits_to_bind in H as (? & d2 & Hins%commits_to_execute & H).
    apply commits_to_ret in H as [-> ->].
    pose proof (insert_support_case_ok _ _ _ Hs Hput) as Hs1.
    pose proof (insert_case_event_ok _ _ _ Hs1 Hins) as Hs2.
    pose proof (SupportCase_validate_normal _ _ Hc) as Hn.
    pose proof (SupportCaseEvent_validate_normal _ _ He) as Hen.
    apply SupportCaseEvent_validate_ok in He as (Hes & _). apply SupportCase_validate_ok in Hc as (Hcs & _).
    apply insert_support_case_effect in Hput as [Hnew E1]. apply insert_case_event_effect in Hins as E2.
    assert (case_db_ok d1) as Hd1 by (eapply case_db_ok_row; [exact Hd|done|by subst d1|by subst d1|done]).
    split_and!; [eapply case_db_ok_events; [exact Hd1|done|by subst d2|by subst d2|done]| |].
    + eapply evolve_insert; [apply _|exact Hnew|by subst d2 d1|]. done.
    + split; cbn [fst snd]; try done.
      * subst d2 d1. cbn. by rewrite lookup_insert_eq.
      * intros Ht Hth. subst c. unfold review_case_for. cbn. split_and!; first [done|set_solver].
      * unfold escalation_recorded. subst d2. cbn. rewrite fmap_app, Hes. set_solver.
Qed.
End Escalation.

(** The instance of a finalization. *)
Lemma ensure_escalates claimed o now d i d' :
  commits_to (ensure_technical_review_case claimed o now) d i d' →
  ∃ r, i = c_case_id r.1 ∧
    commits_to (escalate_review_case (command_cycle_key claimed "technical-review") (case_touched_at now)
      insert_case_event_once LeaseConflictError o now) d r d'.
Proof.
  intros (r & d1 & H & [-> ->]%commits_to_ret)%commits_to_bind. by exists r.
Qed.

Lemma ensure_review_case_schema claimed o now d i d' :
  schema_ok d → commits_to (ensure_technical_review_case claimed o now) d i d' →
  schema_ok d' ∧ same_operations d d' ∧ same_messaging d d' ∧ is_Some (support_cases d' !! i).
Proof.
  intros Hd (r & -> & H)%ensure_escalates.
  by destruct (escalate_frame _ _ _ inserts_once _ _ _ d r d' Hd H) as (? & ? & ? & _ & ?).
Qed.

Definition review_recorded (claimed : ClaimedOutboxMessage) : database → Prop :=
  escalation_recorded (command_cycle_key claimed "technical-review").

Lemma ensure_review_case_cases claimed o now d i d' :
  case_db_ok d → commits_to (ensure_technical_review_case claimed o now) d i d' →
  case_db_ok d' ∧ cases_evolve d d' ∧ review_recorded claimed d' ∧
  ∃ c, support_cases d' !! i = Some c ∧
    (oo_tenant_id o = strip (oo_tenant_id o) → oo_thread_id o = strip (oo_thread_id o) →
     review_case_for o c).
Proof.
  intros Hd (r & -> & H)%ensure_escalates.
  destruct (escalate_commits _ _ _ inserts_once _ _ _ d r d' Hd H) as (? & ? & [Hc Hr Hk _]). eauto 10.
Qed.

(** * Operations *)

(** The review columns stay, ask for a P1 review, or are cleared by a redrive. *)
Definition review_columns (o : OrderOperation) (requires : bool)
    (ty : option RecommendedCaseType) (prio : option CasePriority) (case_id : option uuid) : Prop :=
  (requires = oo_requires_manual_review o ∧ ty = oo_review_case_type o ∧
   prio = oo_review_priority o ∧ case_id = oo_support_case_id o) ∨
  (requires = true ∧ ty = Some rec_order_operation_review ∧ prio = Some p1) ∨
  (requires = false ∧ ty = None ∧ prio = None ∧ case_id = None).

Lemma rewritten_row_readable r requires ty prio case_id reference status at_ version :
  op_readable r → review_columns r requires ty prio case_id →
  opt_nonempty (strip <$> reference) = true → oo_created_at r ≤ at_ → 1 ≤ version →
  op_readable (rewritten_row r requires ty prio case_id reference status at_ version).
Proof.
  intros Hr Hrev Href Hat Hver. pose proof (strip_read_view r Hr) as Hs.
  apply op_readable_facts in Hr as (_ & Hf & Hp). apply op_readable_facts. split_and!.
  - transitivity (read_view (rewritten_row (OrderOperation_strip (read_view r)) requires ty prio
      case_id reference status at_ version)); [reflexivity|by rewrite Hs].
  - unfold OrderOperation_fields_ok in *. cbn in *. bools.
    repeat match goal with H : _ = true |- _ => rewrite H; clear H end. cbn.
    rewrite bool_decide_eq_true_2 by done. rewrite !andb_true_r, !andb_true_iff. lia.
  - unfold validate_persisted_operation in *.
    change (operation_request (read_view (rewritten_row r requires ty prio case_id reference status
      at_ version))) with (operation_request (read_view r)).
    apply res_bind_ok in Hp as ([] & H1 & Hp). rewrite H1. cbn [res_bind].
    apply res_bind_ok in Hp as ([] & H2 & Hp). apply res_bind_ok in Hp as ([] & H3 & _). cbn in *.
    replace (at_ <? oo_created_at r) with false by lia.
    destruct Hrev as [(-> & -> & -> & ->)|[(-> & -> & ->)|(-> & -> & -> & ->)]].
    + rewrite H2. cbn [res_bind]. by rewrite H3.
    + cbn. by rewrite andb_false_r.
    + done.
Qed.

Lemma finalized_row_readable r requires ty prio case_id reference status now version :
  op_readable r → review_columns r requires ty prio case_id →
  opt_nonempty (strip <$> reference) = true → 1 ≤ version →
  op_readable (finalized_row r requires ty prio case_id reference status now version).
Proof. intros. apply rewritten_row_readable; try done. unfold greatest3. lia. Qed.

Lemma update_operation_where_commits i v set d r d' :
  commits_to (update_operation_where i v set) d r d' →
  (r = None ∧ d' = d) ∨
  ∃ o, r = Some (set o) ∧ order_operations d !! i = Some o ∧ oo_version o = v ∧
       put_order_operation (set o) d = PgOk d'.
Proof.
  unfold update_operation_where. intros H.
  apply commits_to_bind in H as (o & ? & [-> ->]%commits_to_select & H).
  destruct (order_operations d !! i) as [o|]; [|inv_tx; by left].
  case_bool_decide; [|inv_tx; by left].
  apply commits_to_bind in H as (u & d1 & Hp%commits_to_execute & H).
  apply commits_to_ret in H as [-> ->]. right. by exists o.
Qed.

(** The case the operation is handed to: the one it has, or the one made sure of now. *)
Definition handed_to (claimed : ClaimedOutboxMessage) (o : OrderOperation)
    (status : OperationRecordStatus) (now : instant) (case_id : option uuid) (d d1 : database) : Prop :=
  (status = os_manual_review ∧ oo_support_case_id o = None ∧
     ∃ i, case_id = Some i ∧ commits_to (ensure_technical_review_case claimed o now) d i d1) ∨
  (d1 = d ∧ case_id = oo_support_case_id o ∧ (status = os_manual_review → is_Some case_id)).

(** The steps of [finalize_operation]. *)
Record operation_steps (claimed : ClaimedOutboxMessage) (target : finalization_target)
    (result : option ProviderCommandResult) (fk : option ProviderFailureKind) (now : instant)
    (row o row' : OrderOperation) (case_id : option uuid) (es : list OrderOperationEvent)
    (d d1 d' : database) : Prop := {
  os_row : order_operations d !! om_aggregate_id (cl_message claimed) = Some row;
  os_read : OrderOperation_validate row = Ok o;
  os_tenant : oo_tenant_id o = om_tenant_id (cl_message claimed);
  os_was_queued : oo_status o = os_queued;
  os_handed : handed_to claimed o (operation_target target fk) now case_id d d1;
  os_stored : order_operations d1 !! oo_operation_id o = Some row';
  os_written :
    let review := bool_decide (operation_target target fk = os_manual_review) in
    let reference := match result with Some r => pr_provider_reference r
                                     | None => oo_provider_reference o end in
    pg_bind (put_order_operation
               (finalized_row row' (if review then true else oo_requires_manual_review o)
                  (if review then Some rec_order_operation_review else oo_review_case_type o)
                  (if review then Some p1 else oo_review_priority o)
                  case_id reference (operation_target target fk) now (oo_version o + 1)) d1)
            (insert_operation_events es) = PgOk d' ∧
    opt_nonempty (strip <$> reference) = true;
  os_events : Forall op_event_normal es ∧
    Forall (λ e, oev_operation_id e = oo_operation_id o ∧ oev_tenant_id e = strip (oo_tenant_id o) ∧
                 oev_customer_id e = strip (oo_customer_id o)) es ∧
    ∃ e, head es = Some e ∧ oev_event_type e = oe_status_changed ∧
         oev_previous_status e = Some os_queued ∧
         oev_current_status e = Some (operation_target target fk) ∧
         (operation_target target fk = os_manual_review →
            ∃ a, es = [e; a] ∧ oev_event_type a = oe_support_case_attached ∧
                 oev_support_case_id a = case_id);
}.

Lemma OrderOperationEvent_validate_facts e e' :
  OrderOperationEvent_validate e = Ok e' →
  op_event_normal e' ∧ e' = OrderOperationEvent_strip e ∧
  opt_nonempty (strip <$> oev_provider_reference e) = true.
Proof.
  intros H. split; [by eapply OrderOperationEvent_validate_normal|].
  apply OrderOperationEvent_validate_ok in H as (-> & Hf & _). split; [done|].
  unfold OrderOperationEvent_fields_ok in Hf. cbn in Hf. by bools.
Qed.

Lemma finalize_operation_steps claimed target result fk now d u d' :
  commits_to (finalize_operation claimed target result fk now) d u d' →
  ∃ row o row' case_id es d1,
    operation_steps claimed target result fk now row o row' case_id es d d1 d'.
Proof.
  intros H. unfold finalize_operation in H.
  apply commits_to_bind in H as (row & ? & [-> ->]%commits_to_select & H).
  destruct (order_operations d !! om_aggregate_id (cl_message claimed)) as [row|] eqn:Hrow;
    [|by apply commits_to_raise in H].
  apply commits_to_bind in H as (o & ? & [Ho ->]%commits_to_lift & H).
  apply commits_to_bind in H as (? & ? & [Hg ->]%commits_to_raise_if & H). bools.
  repeat match goal with H : ¬ (_ ≠ _) |- _ => apply dec_stable in H end.
  set (st := operation_target target fk) in *.
  apply commits_to_bind in H as (case_id & d1 & Hcase & H).
  apply commits_to_bind in H as (r & d2 & Hu & H).
  apply update_operation_where_commits in Hu as [[-> ->]|(row' & -> & Hrow' & _ & Hput)]; [inv_tx; done|].
  apply commits_to_bind in H as (? & ? & [_ ->]%commits_to_raise_if & H).
  apply commits_to_bind in H as (? & ? & ->%commits_to_uuid4 & H).
  apply commits_to_bind in H as (e & ? & [He ->]%commits_to_lift & H).
  apply commits_to_bind in H as (? & d3 & Hins%commits_to_execute & H).
  apply OrderOperationEvent_validate_facts in He as (Hen & -> & Href). cbn in Href.
  assert (handed_to claimed o st now case_id d d1) as Hh.
  { revert Hcase. unfold handed_to. case_bool_decide as Hst.
    - destruct (oo_support_case_id o) as [i|] eqn:Ei.
      + intros [-> ->]%commits_to_ret. right. naive_solver.
      + intros Hc. apply commits_to_bind in Hc as (i & d0 & Hc & Hr).
        apply commits_to_ret in Hr as [-> ->]. left. eauto 10.
    - intros [-> ->]%commits_to_ret. by right. }
  case_bool_decide as Hst.
  - destruct case_id as [i|]; [|by destruct Hh as [(_ & _ & i & [=] & _)|(_ & _ & [i [=]])]].
    apply commits_to_bind in H as (? & ? & ->%commits_to_uuid4 & H).
    apply commits_to_bind in H as (a & ? & [Ha ->]%commits_to_lift & H).
    apply commits_to_execute in H.
    apply OrderOperationEvent_validate_facts in Ha as (Han & -> & _).
    eexists row, o, row', (Some i), [_; _], d1. split; try done.
    + fold st. rewrite bool_decide_eq_true_2 by done. split; [|exact Href].
      rewrite Hput. cbn. rewrite Hins. cbn. rewrite H. done.
    + split_and!; [by repeat constructor|by repeat constructor|].
      eexists. split_and!; [reflexivity|done|cbn; congruence|done|]. intros _. by eexists.
  - apply commits_to_ret in H as [_ ->].
    eexists row, o, row', case_id, [_], d1. split; try done.
    + fold st. rewrite bool_decide_eq_false_2 by done. split; [|exact Href].
      rewrite Hput. cbn. by rewrite Hins.
    + split_and!; [by repeat constructor|by repeat constructor|].
      eexists. split_and!; [reflexivity|done|cbn; congruence|done|]. done.
Qed.

Lemma handed_to_schema claimed o st now case_id d d1 :
  schema_ok d → handed_to claimed o st now case_id d d1 →
  schema_ok d1 ∧ same_operations d d1 ∧ same_messaging d d1.
Proof.
  intros Hd [(_ & _ & i & -> & H)|(-> & _)]; [|split_and!; done].
  destruct (ensure_review_case_schema _ _ _ _ _ _ Hd H) as (? & ? & ? & _). done.
Qed.

Lemma put_then_events o es d d' :
  pg_bind (put_order_operation o d) (insert_operation_events es) = PgOk d' →
  order_operations d' = <[oo_operation_id o := o]> (order_operations d) ∧
  order_operation_events d' = order_operation_events d ++ es ∧
  same_cases d d' ∧ same_messaging d d' ∧ provider_submissions d' = provider_submissions d ∧
  (schema_ok d → schema_ok d').
Proof.
  intros H. apply pg_bind_ok in H as (d1 & H1 & H2).
  assert (schema_ok d → schema_ok d') as Hs.
  { intros Hd. eapply insert_operation_events_ok, H2. by eapply put_order_operation_ok, H1. }
  apply put_order_operation_effect in H1 as [-> _]. apply insert_operation_events_effect in H2.
  by subst d'.
Qed.

Lemma finalize_operation_schema claimed target result fk now d u d' :
  schema_ok d → commits_to (finalize_operation claimed target result fk now) d u d' →
  schema_ok d' ∧ same_messaging d d' ∧ provider_submissions d' = provider_submissions d.
Proof.
  intros Hd H. apply finalize_operation_steps in H as (row & o & row' & ci & es & d1 & H).
  destruct H as [_ _ _ _ Hh _ [Hw _] _].
  destruct (handed_to_schema _ _ _ _ _ _ _ Hd Hh) as (Hs1 & (_ & _ & Hp1) & Hm1).
  apply put_then_events in Hw as (_ & _ & _ & Hm & Hp & Hs). split_and!; [by apply Hs|by etrans|congruence].
Qed.

Lemma finalize_operation_cases claimed target result fk now d u d' :
  case_db_ok d → commits_to (finalize_operation claimed target result fk now) d u d' →
  case_db_ok d' ∧ cases_evolve d d'.
Proof.
  intros Hd H. destruct (finalize_operation_schema _ _ _ _ _ _ _ _ (cdb_schema d Hd) H) as (Hs' & _).
  apply finalize_operation_steps in H as (row & o & row' & ci & es & d1 & H).
  destruct H as [_ _ _ _ Hh _ [Hw _] _].
  apply put_then_events in Hw as (_ & _ & Hc & _ & _ & _).
  assert (case_db_ok d1 ∧ cases_evolve d d1) as [Hd1 Hev1].
  { destruct Hh as [(_ & _ & i & _ & He)|(-> & _)]; [|split; [done|reflexivity]].
    by destruct (ensure_review_case_cases _ _ _ _ _ _ Hd He) as (? & ? & _). }
  split; [by eapply case_db_ok_frame|]. etrans; [exact Hev1|]. apply cases_evolve_frame, Hc.
Qed.

(** What the finalization of an operation commits: the queued row moves to the status the
    outcome calls for, at the next version, with its audit events. *)
Record operation_finalized (target : finalization_target) (fk : option ProviderFailureKind)
    (row row' : OrderOperation) (es : list OrderOperationEvent) (d d' : database) : Prop := {
  of_before : order_operations d !! oo_operation_id row = Some row;
  of_queued : oo_status row = os_queued;
  of_rows : order_operations d' = <[oo_operation_id row := row']> (order_operations d);
  of_status : oo_status row' = operation_target target fk;
  of_version : oo_version row' = oo_version row + 1;
  of_same : op_same row row';
  of_events : order_operation_events d' = order_operation_events d ++ es ∧
              Forall (about_operation row) es;
  of_audit : ∃ e, e ∈ es ∧ oev_event_type e = oe_status_changed ∧
    oev_previous_status e = Some os_queued ∧ oev_current_status e = Some (operation_target target fk);
  of_handoff : operation_target target fk = os_manual_review →
    oo_requires_manual_review row' = true ∧ oo_review_priority row' = Some p1 ∧
    ∃ i, oo_support_case_id row' = Some i ∧ is_Some (support_cases d' !! i) ∧
         ∃ e, e ∈ es ∧ oev_event_type e = oe_support_case_attached ∧ oev_support_case_id e = Some i;
}.

Lemma validate_read_view row o :
  op_readable row → OrderOperation_validate row = Ok o → o = read_view row.
Proof. intros Hr Ho. unfold op_readable in Hr. congruence. Qed.

Lemma read_view_stripped row :
  op_readable row → strip (oo_tenant_id row) = oo_tenant_id row ∧
  strip (oo_customer_id row) = oo_customer_id row ∧ strip (oo_thread_id row) = oo_thread_id row.
Proof.
  intros (H & _)%op_readable_facts. destruct row. unfold OrderOperation_strip, read_view, with_reference in H.
  cbn in *. injection H; intros. by split_and!.
Qed.

Lemma finalize_operation_ops claimed target result fk now d u d' :
  op_db_ok d → commits_to (finalize_operation claimed target result fk now) d u d' →
  ∃ row row' es, op_db_ok d' ∧ operations_evolve d d' ∧
    om_aggregate_id (cl_message claimed) = oo_operation_id row ∧
    om_tenant_id (cl_message claimed) = oo_tenant_id row ∧
    operation_finalized target fk row row' es d d'.
Proof.
  intros Hd H. pose proof (odb_schema d Hd) as Hs.
  destruct (finalize_operation_schema _ _ _ _ _ _ _ _ Hs H) as (Hs' & Hmsg & Hsub).
  apply finalize_operation_steps in H as (row & o & row0 & ci & es & d1 & H).
  destruct H as [Hrow Hread Hten Hq Hh Hst [Hw Href] (Hen & Hab & e & Hhead & Hety & Hprev & Hcur & Hatt)].
  pose proof (odb_rows d Hd _ _ Hrow) as Hrd. pose proof (so_op_id d Hs _ _ Hrow) as Hid.
  apply validate_read_view in Hread; [|done]. subst o. cbn in Hten, Hq, Hst, Hw.
  destruct (handed_to_schema _ _ _ _ _ _ _ Hs Hh) as (Hs1 & (Eo1 & Ee1 & _) & _).
  rewrite Eo1, Hid, Hrow in Hst. injection Hst as <-.
  destruct (read_view_stripped row Hrd) as (Hst1 & Hst2 & _). cbn in Hab. rewrite Hst1, Hst2 in Hab.
  set (row' := finalized_row row _ _ _ ci _ _ _ _) in *.
  apply put_then_events in Hw as (Eo & Ee & (Ec & _) & _ & _ & _).
  rewrite Eo1 in Eo. rewrite Ee1 in Ee. cbn in Eo.
  assert (lifecycle_step os_queued (operation_target target fk) = true) as Hstep.
  { unfold operation_target. destruct target; [done|]. by case_bool_decide. }
  assert (op_same row row') as Hsame.
  { unfold op_same. cbn. split_and!; try done.
    - intros E. rewrite E in Hstep. done.
    - rewrite Hq. eapply reaches_step; [exact Hstep|constructor]. }
  assert (operations_evolve d d') as Hev.
  { eapply evolve_insert; [apply _|exact Hrow|by rewrite <- Hid|]. intros x [= <-]. split; [done|cbn; lia]. }
  assert (1 ≤ oo_version row) as Hv.
  { pose proof (so_op_check d Hs _ _ Hrow) as Hck. unfold order_operations_check, int4_ok in Hck. bools. lia. }
  assert (op_readable row') as Hrd'.
  { apply finalized_row_readable; [done| |exact Href|lia]. unfold review_columns.
    case_bool_decide as Hm; [by right; left|left]. split_and!; try done.
    by destruct Hh as [(Hm' & _)|(_ & -> & _)]. }
  exists row, row', es. split_and!; try done.
  - eapply op_db_ok_commit; [exact Hd|done|done|exact Eo|done|exact Ee|done|apply Hmsg|done].
  - split; try done.
    + by rewrite Hid.
    + exists e. split_and!; try done. destruct es; [done|]. injection Hhead as ->. set_solver.
    + intros Hm. destruct (Hatt Hm) as (a & -> & Hat1 & Hat2). cbn. rewrite Hm, bool_decide_eq_true_2 by done.
      split_and!; [done..|].
      assert (∃ i, ci = Some i ∧ is_Some (support_cases d1 !! i)) as (i & -> & Hi).
      { destruct Hh as [(_ & _ & i & -> & Hc)|(-> & -> & His)].
        - exists i. split; [done|]. by apply (ensure_review_case_schema _ _ _ _ _ _ Hs Hc).
        - destruct (His Hm) as [i Hi]. exists i. split; [done|]. cbn in Hi.
          by eapply so_op_case. }
      exists i. split_and!; [done|by rewrite Ec|]. exists a. split_and!; [set_solver|done..].
Qed.
