(* ===== verification/InboxSafety.v ===== *)
(** What processing guarantees of the inbox while other workers commit between any two of
    its transactions: one open attempt per leased message, attempts numbered over the life
    of a message, stored events that never change, messages that only move along the
    processing transitions. *)
From S2P Require Import Prelude Effects OperationModels CaseModels Envelope InboxModels Database RedrivePolicy Transactions Messaging CaseRepository OutboxWrites InboxWrites.

(** * The invariant *)

(** The attempt of the lease a message carries. *)
Definition leases (m : InboxMessage) (a : InboxProcessingAttempt) : Prop :=
  im_status m = ib_processing ∧ ia_inbox_id a = im_inbox_id m ∧
  im_lease_id m = Some (ia_lease_id a) ∧ im_lease_owner m = Some (ia_worker_id a) ∧
  ia_processing_cycle a = im_processing_cycle m ∧ ia_attempt_number a = im_processing_attempts m.

(** Attempts are numbered over the life of a message; those of the current cycle are the
    latest ones, as many as the cycle counts. *)
Definition numbered (m : InboxMessage) (a : InboxProcessingAttempt) : Prop :=
  1 ≤ ia_processing_cycle a ≤ im_processing_cycle m ∧
  1 ≤ ia_attempt_number a ≤ im_processing_attempts m ∧
  (ia_processing_cycle a = im_processing_cycle m →
   im_processing_attempts m - im_attempts_in_cycle m < ia_attempt_number a).

Record inbox_ok (t : inbox_tables) : Prop := {
  ib_id : ∀ i m, inbox_messages t !! i = Some m → im_inbox_id m = i;
  ib_check : ∀ i m, inbox_messages t !! i = Some m → inbox_messages_check m = true;
  ib_event : index_unique inbox_event_key (inbox_messages t);
  ib_attempt_id : ∀ i a, inbox_attempts t !! i = Some a → ia_attempt_id a = i;
  ib_attempt_number : index_unique inbox_attempt_key (inbox_attempts t);
  ib_payload : ∀ i m, inbox_messages t !! i = Some m →
    ProviderWebhookEventData_validate (im_payload m) = Ok (im_payload m);
  ib_leased : ∀ i m, inbox_messages t !! i = Some m → im_status m = ib_processing →
    ∃ j a, inbox_attempts t !! j = Some a ∧ ia_finished_at a = None ∧ leases m a;
  ib_open : ∀ j a, inbox_attempts t !! j = Some a → ia_finished_at a = None →
    ∃ m, inbox_messages t !! ia_inbox_id a = Some m ∧ leases m a;
  ib_numbered : ∀ j a, inbox_attempts t !! j = Some a →
    ∃ m, inbox_messages t !! ia_inbox_id a = Some m ∧ numbered m a;
  ib_audit : audit_ok (processing_cycles t) (inbox_redrives t);
}.

Lemma inbox_ok_empty : inbox_ok empty_inbox.
Proof.
  split; cbn; try apply index_unique_empty; try apply audit_ok_empty; intros *; set_solver.
Qed.

(** * How messages evolve *)

(** The event of a message: what was received never changes. *)
Definition same_event (m m' : InboxMessage) : Prop :=
  im_inbox_id m' = im_inbox_id m ∧ im_connection_id m' = im_connection_id m ∧
  im_event_id m' = im_event_id m ∧ im_tenant_id m' = im_tenant_id m ∧
  im_schema_version m' = im_schema_version m ∧ im_event_type m' = im_event_type m ∧
  im_command_id m' = im_command_id m ∧ im_aggregate_type m' = im_aggregate_type m ∧
  im_aggregate_id m' = im_aggregate_id m ∧ im_payload m' = im_payload m ∧
  im_raw_body_sha256 m' = im_raw_body_sha256 m ∧ im_received_at m' = im_received_at m.

Definition processing_reaches : relation InboxProcessingStatus :=
  rtc (λ a b, inbox_transition_allowed a b = true).

(** Processing moves on within the cycle, or a redrive opens a later one. *)
Definition inbox_advances (m m' : InboxMessage) : Prop :=
  same_event m m' ∧ im_processing_attempts m ≤ im_processing_attempts m' ∧
  (im_processing_cycle m < im_processing_cycle m' ∨
   im_processing_cycle m = im_processing_cycle m' ∧ processing_reaches (im_status m) (im_status m')).

#[export] Instance same_event_preorder : PreOrder same_event.
Proof.
  split; unfold same_event; [intros m; by split_and!|].
  intros x y z H1 H2. destruct_and!. split_and!; congruence.
Qed.

#[export] Instance inbox_advances_preorder : PreOrder inbox_advances.
Proof.
  split; unfold inbox_advances.
  - intros m. split_and!; [reflexivity|lia|]. right. split; [done|constructor].
  - intros x y z (E1 & A1 & H1) (E2 & A2 & H2). split_and!; [by etrans|lia|].
    destruct H1 as [?|[? R1]], H2 as [?|[? R2]]; [left; lia..|]. right. split; [lia|by etrans].
Qed.

Definition callbacks_evolve (t t' : inbox_tables) : Prop :=
  ∀ i m, inbox_messages t !! i = Some m →
    ∃ m', inbox_messages t' !! i = Some m' ∧ inbox_advances m m'.

(** The audit is append-only. *)
Definition inbox_evolve (t t' : inbox_tables) : Prop :=
  callbacks_evolve t t' ∧ inbox_redrives t ⊆ inbox_redrives t'.

#[export] Instance inbox_evolve_preorder : PreOrder inbox_evolve.
Proof.
  split.
  - intros t. split; [|done]. intros i m Hm. exists m. split; [done|reflexivity].
  - intros t1 t2 t3 [H12 A12] [H23 A23]. split; [|by etrans]. intros i m Hm. destruct (H12 i m Hm) as (m2 & Hm2 & A2).
    destruct (H23 i m2 Hm2) as (m3 & Hm3 & A3). exists m3. split; [done|by etrans].
Qed.

Lemma inbox_evolve_insert t t' m m' :
  inbox_messages t !! im_inbox_id m = Some m →
  inbox_messages t' = <[im_inbox_id m := m']> (inbox_messages t) →
  inbox_advances m m' → inbox_redrives t' = inbox_redrives t → inbox_evolve t t'.
Proof.
  intros Hm E Ha Er. split; [|by rewrite Er]. intros i x Hx. rewrite E, lookup_insert. case_decide as Ei; [|by exists x].
  subst i. simplify_eq. by exists m'.
Qed.

Lemma open_inbox_attempt_unique t i j a b :
  inbox_ok t → inbox_attempts t !! i = Some a → inbox_attempts t !! j = Some b →
  ia_finished_at a = None → ia_finished_at b = None → ia_inbox_id a = ia_inbox_id b → i = j ∧ a = b.
Proof.
  intros Ht Ha Hb Fa Fb Hi. destruct (ib_open t Ht i a Ha Fa) as (m & Hm & La).
  destruct (ib_open t Ht j b Hb Fb) as (m' & Hm' & Lb). rewrite Hi in Hm. simplify_eq.
  unfold leases in *. destruct_and!.
  assert (i = j) as -> by (eapply (ib_attempt_number t Ht); [exact Ha|exact Hb|done|];
    unfold inbox_attempt_key; congruence).
  split; [done|]. congruence.
Qed.

(** * What the statements do *)

Lemma put_inbox_message_effect m d d' :
  put_inbox_message m d = PgOk d' →
  d' = set_inbox_messages (<[im_inbox_id m := m]> (inbox_messages (inbox d))) d ∧
  inbox_messages_check m = true ∧
  collides inbox_event_key (inbox_messages (inbox d)) (im_inbox_id m) m = false.
Proof. unfold put_inbox_message. intros H. inv_pg. by bools. Qed.

Lemma put_inbox_attempt_effect a d d' :
  put_inbox_attempt a d = PgOk d' →
  d' = set_inbox_attempts (<[ia_attempt_id a := a]> (inbox_attempts (inbox d))) d ∧
  inbox_attempts_check a = true ∧
  collides inbox_attempt_key (inbox_attempts (inbox d)) (ia_attempt_id a) a = false.
Proof. unfold put_inbox_attempt. intros H. inv_pg. by bools. Qed.

Lemma update_inbox_commits inbox_id where_ set d r d' :
  commits_to (update_inbox inbox_id where_ set) d r d' →
  (r = None ∧ d' = d) ∨
  ∃ m, r = Some (set m) ∧ inbox_messages (inbox d) !! inbox_id = Some m ∧ where_ m = true ∧
       put_inbox_message (set m) d = PgOk d'.
Proof.
  unfold update_inbox. intros H.
  apply commits_to_bind in H as (o & ? & [-> ->]%commits_to_select & H).
  destruct (inbox_messages (inbox d) !! inbox_id) as [m|]; [|inv_tx; by left].
  destruct (where_ m) eqn:Ew; [|inv_tx; by left].
  apply commits_to_bind in H as (u & d1 & Hp%commits_to_execute & H).
  apply commits_to_ret in H as [-> ->]. right. by exists m.
Qed.

Lemma finish_inbox_attempt_commits i k l w at_ outc code message d n d' :
  commits_to (finish_inbox_attempt i k l w at_ outc code message) d n d' →
  (n = 0 ∧ d' = d) ∨
  n = 1 ∧ ∃ a, inbox_attempts (inbox d) !! i = Some a ∧ inbox_attempt_fence k l w a = true ∧
    put_inbox_attempt (finished_inbox_attempt a at_ outc code message) d = PgOk d'.
Proof.
  unfold finish_inbox_attempt. intros H.
  apply commits_to_bind in H as (? & ? & [_ ->]%commits_to_lift & H).
  apply commits_to_bind in H as (o & ? & [-> ->]%commits_to_select & H).
  destruct (inbox_attempts (inbox d) !! i) as [a|]; [|inv_tx; by left].
  destruct (inbox_attempt_fence k l w a) eqn:Ef; [|inv_tx; by left].
  apply commits_to_bind in H as (u & d1 & Hp%commits_to_execute & H).
  apply commits_to_ret in H as [-> ->]. right. split; [done|]. by exists a.
Qed.

(** * Steps of the inbox *)

(** Storing [m'] over [m]: the tables before and after. *)
Record message_stored (m m' : InboxMessage) (t t' : inbox_tables) : Prop := {
  ms_before : inbox_messages t !! im_inbox_id m = Some m;
  ms_after : inbox_messages t' = <[im_inbox_id m := m']> (inbox_messages t);
  ms_check : inbox_messages_check m' = true;
  ms_event : same_event m m';
  ms_redrives : inbox_redrives t' = inbox_redrives t;
}.

(** A key that stays with its row stays unique. *)
Lemma index_unique_rekey {A K} (key : A → option K) (m : gmap uuid A) i a a' :
  index_unique key m → m !! i = Some a → key a' = key a → index_unique key (<[i := a']> m).
Proof.
  intros Hu Ha Ek.
  assert (∀ p x, <[i := a']> m !! p = Some x → ∃ y, m !! p = Some y ∧ key y = key x) as Hl.
  { intros p x. rewrite lookup_insert. case_decide; [|by eauto]. intros [= <-]. subst. eauto. }
  intros p q x y k (x0 & Hx & Ex)%Hl (y0 & Hy & Ey)%Hl Kx Ky. apply (Hu p q x0 y0 k); [done|done|congruence..].
Qed.

(** Rewriting a row without its event keeps what only concerns messages. *)
Lemma message_stored_facts m m' t t' :
  inbox_ok t → message_stored m m' t t' →
  (∀ i x, inbox_messages t' !! i = Some x → im_inbox_id x = i) ∧
  (∀ i x, inbox_messages t' !! i = Some x → inbox_messages_check x = true) ∧
  index_unique inbox_event_key (inbox_messages t') ∧
  (∀ i x, inbox_messages t' !! i = Some x →
     ProviderWebhookEventData_validate (im_payload x) = Ok (im_payload x)) ∧
  (im_processing_cycle m' = im_processing_cycle m → audit_ok (processing_cycles t') (inbox_redrives t')).
Proof.
  intros Ht [Hm E Hck Hev Er]. unfold same_event in Hev. destruct_and!. rewrite E. split_and!.
  - apply (insert_rows (λ i x, im_inbox_id x = i)); [apply Ht|done].
  - apply (insert_rows (λ _ x, inbox_messages_check x = true)); [apply Ht|done].
  - eapply index_unique_rekey; [apply Ht|exact Hm|]. unfold inbox_event_key. congruence.
  - apply (insert_rows (λ _ x, ProviderWebhookEventData_validate (im_payload x) = Ok (im_payload x))).
    + apply Ht.
    + replace (im_payload m') with (im_payload m). by eapply ib_payload.
  - intros Hc. rewrite Er, (processing_cycles_same t t' (im_inbox_id m) m m'); [apply Ht|done..].
Qed.

(** A lease ends: its attempt is finished and the message leaves [processing]. *)
Record inbox_closed (m m' : InboxMessage) (a a' : InboxProcessingAttempt) (t t' : inbox_tables) : Prop := {
  ic_stored : message_stored m m' t t';
  ic_attempt : inbox_attempts t !! ia_attempt_id a = Some a;
  ic_was_open : ia_finished_at a = None;
  ic_leases : leases m a;
  ic_attempts : inbox_attempts t' = <[ia_attempt_id a := a']> (inbox_attempts t);
  ic_status : im_status m' ≠ ib_processing ∧ inbox_transition_allowed ib_processing (im_status m') = true;
  ic_lease : im_lease_id m' = None;
  ic_counts : im_processing_cycle m' = im_processing_cycle m ∧
    im_processing_attempts m' = im_processing_attempts m ∧ im_attempts_in_cycle m' = im_attempts_in_cycle m;
  ic_finished : is_Some (ia_finished_at a') ∧ ia_attempt_id a' = ia_attempt_id a ∧
    ia_inbox_id a' = ia_inbox_id a ∧ ia_processing_cycle a' = ia_processing_cycle a ∧
    ia_attempt_number a' = ia_attempt_number a;
}.

Lemma inbox_closed_evolves m m' a a' t t' : inbox_closed m m' a a' t t' → inbox_evolve t t'.
Proof.
  intros H. destruct (ic_stored _ _ _ _ _ _ H) as [Hm E _ Hev Er]. eapply inbox_evolve_insert; [done..| |done].
  destruct (ic_counts _ _ _ _ _ _ H) as (Ec & Ea & _). split_and!; [done|lia|]. right. split; [done|].
  apply rtc_once. destruct (ic_leases _ _ _ _ _ _ H) as [-> _]. apply H.
Qed.

Lemma inbox_closed_ok m m' a a' t t' : inbox_closed m m' a a' t t' → inbox_ok t → inbox_ok t'.
Proof.
  intros [Hst Ha Hopen Hl Ea [Hns _] _ (Hc1 & Hc2 & Hc3) ([f Hf] & Hi1 & Hi2 & Hi3 & Hi4)] Ht.
  destruct (message_stored_facts _ _ _ _ Ht Hst) as (F1 & F2 & F3 & F4 & F5).
  destruct Hst as [Hm Em _ Hev _]. assert (im_inbox_id m' = im_inbox_id m) as Hid by apply Hev.
  assert (ia_inbox_id a = im_inbox_id m) as Hai by apply Hl.
  split; [done|done|done| | |done|..|by apply F5].
  - rewrite Ea. apply (insert_rows (λ i x, ia_attempt_id x = i)); [apply Ht|done].
  - rewrite Ea. eapply index_unique_rekey; [apply Ht|exact Ha|]. unfold inbox_attempt_key. congruence.
  - intros i x. rewrite Em, lookup_insert. case_decide as Ei; [by intros [= <-]|]. intros Hx Hp.
    destruct (ib_leased t Ht i x Hx Hp) as (j & b & Hb & Fb & Lb). exists j, b. split; [|done].
    rewrite Ea, lookup_insert_ne; [done|]. intros <-. simplify_eq.
    destruct Lb as (_ & Hb2 & _). rewrite (ib_id t Ht i x Hx) in Hb2. congruence.
  - intros j b. rewrite Ea, lookup_insert. case_decide as Ej; [by intros [= <-]; rewrite Hf|].
    intros Hb Fb. destruct (ib_open t Ht j b Hb Fb) as (x & Hx & Lx). exists x. split; [|done].
    rewrite Em, lookup_insert_ne; [done|]. intros Ei. destruct Ej.
    apply (open_inbox_attempt_unique t _ j a b Ht Ha Hb Hopen Fb). congruence.
  - assert (∀ j b, inbox_attempts t !! j = Some b →
      ∃ x, inbox_messages t' !! ia_inbox_id b = Some x ∧ numbered x b) as Hkeep.
    { intros j b Hb. destruct (ib_numbered t Ht j b Hb) as (x & Hx & Hn).
      rewrite Em, lookup_insert. case_decide as Ei; [|by exists x].
      rewrite <- Ei, Hm in Hx. injection Hx as <-. exists m'. split; [done|].
      unfold numbered. by rewrite Hc1, Hc2, Hc3. }
    intros j b. rewrite Ea, lookup_insert. case_decide as Ej; [|by apply Hkeep].
    intros [= <-]. rewrite Hi2. destruct (Hkeep _ a Ha) as (x & Hx & Hn). exists x. split; [done|].
    unfold numbered. by rewrite Hi3, Hi4.
Qed.

(** A lease starts: the message counts one more attempt, opened with it. *)
Record inbox_leased (m m' : InboxMessage) (a : InboxProcessingAttempt) (t t' : inbox_tables) : Prop := {
  il_stored : message_stored m m' t t';
  il_waiting : im_status m = ib_received;
  il_fresh : inbox_attempts t !! ia_attempt_id a = None;
  il_attempts : inbox_attempts t' = <[ia_attempt_id a := a]> (inbox_attempts t);
  il_open : ia_finished_at a = None;
  il_leases : leases m' a;
  il_counts : im_processing_cycle m' = im_processing_cycle m ∧
    im_processing_attempts m' = im_processing_attempts m + 1 ∧
    im_attempts_in_cycle m' = im_attempts_in_cycle m + 1;
  il_unique : collides inbox_attempt_key (inbox_attempts t) (ia_attempt_id a) a = false;
}.

Lemma inbox_leased_evolves m m' a t t' : inbox_leased m m' a t t' → inbox_evolve t t'.
Proof.
  intros H. destruct (il_stored _ _ _ _ _ H) as [Hm E _ Hev Er]. eapply inbox_evolve_insert; [done..| |done].
  destruct (il_counts _ _ _ _ _ H) as (Ec & Ea & _). split_and!; [done|lia|]. right. split; [done|].
  apply rtc_once. destruct (il_leases _ _ _ _ _ H) as [-> _]. by rewrite (il_waiting _ _ _ _ _ H).
Qed.

Lemma inbox_leased_ok m m' a t t' : inbox_leased m m' a t t' → inbox_ok t → inbox_ok t'.
Proof.
  intros [Hst Hw Hnew Ea Hopen Hl (Hc1 & Hc2 & Hc3) Hu] Ht.
  destruct (message_stored_facts _ _ _ _ Ht Hst) as (F1 & F2 & F3 & F4 & F5).
  destruct Hst as [Hm Em Hck Hev Her]. assert (im_inbox_id m' = im_inbox_id m) as Hid by apply Hev.
  assert (ia_inbox_id a = im_inbox_id m) as Hai by (rewrite <- Hid; apply Hl).
  assert (∀ j b, inbox_attempts t !! j = Some b → inbox_attempts t' !! j = Some b) as Hkeep
    by (intros j b Hb; rewrite Ea, lookup_insert_ne; [done|congruence]).
  split; [done|done|done| | |done|..|by apply F5].
  - rewrite Ea. apply (insert_rows (λ i x, ia_attempt_id x = i)); [apply Ht|done].
  - rewrite Ea. by apply index_unique_insert, Hu; apply Ht.
  - intros i x. rewrite Em, lookup_insert. case_decide as Ei.
    + intros [= <-] _. exists (ia_attempt_id a), a. by rewrite Ea, lookup_insert_eq.
    + intros Hx Hp. destruct (ib_leased t Ht i x Hx Hp) as (j & b & Hb & ?). eauto 10.
  - intros j b. rewrite Ea, lookup_insert. case_decide as Ej.
    + intros [= <-] _. exists m'. by rewrite Em, Hai, lookup_insert_eq.
    + intros Hb Fb. destruct (ib_open t Ht j b Hb Fb) as (x & Hx & Lx). exists x. split; [|done].
      rewrite Em, lookup_insert_ne; [done|]. intros Ei. rewrite <- Ei, Hm in Hx. injection Hx as <-.
      destruct Lx as [Lx _]. congruence.
  - intros j b. rewrite Ea, lookup_insert. case_decide as Ej.
    + intros [= <-]. exists m'. rewrite Em, Hai, lookup_insert_eq. split; [done|].
      pose proof (ib_check t Ht _ m Hm) as Hck0. unfold inbox_messages_check, counter_ok, int4_ok in Hck0. bools.
      destruct Hl as (_ & _ & _ & _ & Hl1 & Hl2). unfold numbered. lia.
    + intros Hb. destruct (ib_numbered t Ht j b Hb) as (x & Hx & Hn). rewrite Em, lookup_insert.
      case_decide as Ei; [|by exists x]. rewrite <- Ei, Hm in Hx. injection Hx as <-. exists m'. split; [done|].
      destruct Hn as (N1 & N2 & N3). unfold numbered. rewrite Hc1, Hc2, Hc3. split_and!; [apply N1|lia|lia|lia|].
      intros Ecy. specialize (N3 Ecy). lia.
Qed.

(** A lease is prolonged: nothing an attempt refers to changes. *)
Lemma inbox_touched_ok m m' t t' :
  message_stored m m' t t' → inbox_attempts t' = inbox_attempts t →
  im_status m' = im_status m → im_lease_id m' = im_lease_id m → im_lease_owner m' = im_lease_owner m →
  im_processing_cycle m' = im_processing_cycle m → im_processing_attempts m' = im_processing_attempts m →
  im_attempts_in_cycle m' = im_attempts_in_cycle m →
  inbox_ok t → inbox_ok t' ∧ inbox_evolve t t'.
Proof.
  intros Hst Ea Hs Hl Ho Hc Hp Hn Ht.
  destruct (message_stored_facts _ _ _ _ Ht Hst) as (F1 & F2 & F3 & F4 & F5).
  destruct Hst as [Hm Em Hck Hev Her]. assert (im_inbox_id m' = im_inbox_id m) as Hid by apply Hev.
  assert (∀ a, leases m a → leases m' a) as Hla by (unfold leases; intros a; by rewrite Hs, Hl, Ho, Hc, Hp, Hid).
  assert (∀ a, numbered m a → numbered m' a) as Hna by (unfold numbered; intros a; by rewrite Hc, Hp, Hn).
  split.
  - split; rewrite ?Ea; [done|done|done|apply Ht|apply Ht|done|..|by apply F5].
    + intros i x. rewrite Em, lookup_insert. case_decide as Ei; [|by apply Ht]. intros [= <-].
      rewrite Hs. intros Hpr. destruct (ib_leased t Ht _ m Hm Hpr) as (j & b & ? & ? & ?). eauto 10.
    + intros j b Hb Fb. destruct (ib_open t Ht j b Hb Fb) as (x & Hx & Lx). rewrite Em, lookup_insert.
      case_decide as Ei; [|by exists x]. rewrite <- Ei, Hm in Hx. injection Hx as <-. eauto.
    + intros j b Hb. destruct (ib_numbered t Ht j b Hb) as (x & Hx & Nx). rewrite Em, lookup_insert.
      case_decide as Ei; [|by exists x]. rewrite <- Ei, Hm in Hx. injection Hx as <-. eauto.
  - eapply inbox_evolve_insert; [done..| |done]. split_and!; [done|lia|]. right. split; [done|]. rewrite Hs. constructor.
Qed.

(** A new event waits for its first attempt. *)
Lemma inbox_received_ok t t' m :
  inbox_ok t → inbox_messages t !! im_inbox_id m = None →
  inbox_messages t' = <[im_inbox_id m := m]> (inbox_messages t) → inbox_attempts t' = inbox_attempts t →
  inbox_redrives t' = inbox_redrives t → inbox_messages_check m = true →
  collides inbox_event_key (inbox_messages t) (im_inbox_id m) m = false →
  ProviderWebhookEventData_validate (im_payload m) = Ok (im_payload m) →
  im_status m = ib_received → im_processing_cycle m = 1 → inbox_ok t' ∧ inbox_evolve t t'.
Proof.
  intros Ht Hnew Em Ea Er Hck Hu Hp Hs Hcy.
  assert (∀ i x, inbox_messages t !! i = Some x → inbox_messages t' !! i = Some x) as Hkeep
    by (intros i x Hx; rewrite Em, lookup_insert_ne; [done|congruence]).
  split.
  - split; rewrite ?Ea.
    + rewrite Em. apply (insert_rows (λ i x, im_inbox_id x = i)); [apply Ht|done].
    + rewrite Em. apply (insert_rows (λ _ x, inbox_messages_check x = true)); [apply Ht|done].
    + rewrite Em. by apply index_unique_insert, Hu; apply Ht.
    + apply Ht.
    + apply Ht.
    + rewrite Em. apply (insert_rows (λ _ x, ProviderWebhookEventData_validate (im_payload x) = Ok (im_payload x)));
        [apply Ht|done].
    + intros i x. rewrite Em, lookup_insert. case_decide; [intros [= <-]; congruence|by apply Ht].
    + intros j b Hb Fb. destruct (ib_open t Ht j b Hb Fb) as (x & Hx & ?). eauto.
    + intros j b Hb. destruct (ib_numbered t Ht j b Hb) as (x & Hx & ?). eauto.
    + rewrite Er. unfold processing_cycles. rewrite Em, fmap_insert, Hcy.
      apply audit_ok_start; [apply Ht|]. by rewrite lookup_fmap, Hnew.
  - split; [|by rewrite Er]. intros i x Hx. exists x. split; [auto|reflexivity].
Qed.
