(* ===== verification/Steady.v ===== *)
(** What every worker promises the others: each transaction it commits keeps each
    component's invariant and only lets rows evolve.  [steady] is that promise, component by
    component; it is what the services assume of the interference they run under. *)
From S2P Require Import Prelude Effects OperationModels CaseModels Envelope InboxModels Database Transactions Messaging CaseRepository CaseSafety OperationRepository OperationService OperationSafety OutboxWrites Finalization InboxWrites OutboxRepository OutboxSafety FinalizationSafety InboxSafety.

(** * The promise *)

Definition schema_kept (d d' : database) : Prop := schema_ok d → schema_ok d'.
Definition cases_kept (d d' : database) : Prop :=
  case_db_ok d → case_db_ok d' ∧ cases_evolve d d'.
Definition operations_kept (d d' : database) : Prop :=
  op_db_ok d → op_db_ok d' ∧ operations_evolve d d'.
Definition outbox_kept (d d' : database) : Prop :=
  outbox_ok d → outbox_ok d' ∧ outbox_evolve d d'.

Definition inbox_kept (d d' : database) : Prop :=
  inbox_ok (inbox d) → inbox_ok (inbox d') ∧ inbox_evolve (inbox d) (inbox d').

#[export] Instance schema_kept_preorder : PreOrder schema_kept.
Proof. split; [by intros x ?|]. intros x y z; unfold schema_kept; auto. Qed.
#[export] Instance cases_kept_preorder : PreOrder cases_kept.
Proof.
  split; unfold cases_kept.
  - intros x H. split; [done|]. unfold cases_evolve. reflexivity.
  - intros x y z H1 H2 H. destruct (H1 H) as [Hy Exy]. destruct (H2 Hy) as [Hz Eyz].
    split; [done|]. unfold cases_evolve in *. by etrans.
Qed.
#[export] Instance operations_kept_preorder : PreOrder operations_kept.
Proof.
  split; unfold operations_kept.
  - intros x H. split; [done|]. unfold operations_evolve. reflexivity.
  - intros x y z H1 H2 H. destruct (H1 H) as [Hy Exy]. destruct (H2 Hy) as [Hz Eyz].
    split; [done|]. unfold operations_evolve in *. by etrans.
Qed.
#[export] Instance outbox_kept_preorder : PreOrder outbox_kept.
Proof.
  split; unfold outbox_kept.
  - intros x H. split; [done|]. reflexivity.
  - intros x y z H1 H2 H. destruct (H1 H) as [Hy Exy]. destruct (H2 Hy) as [Hz Eyz].
    split; [done|]. by etrans.
Qed.

#[export] Instance inbox_kept_preorder : PreOrder inbox_kept.
Proof.
  split; unfold inbox_kept.
  - intros x H. split; [done|reflexivity].
  - intros x y z H1 H2 H. destruct (H1 H) as [Hy Exy]. destruct (H2 Hy) as [Hz Eyz].
    split; [done|]. by etrans.
Qed.

Record steady (d d' : database) : Prop := {
  st_schema : schema_kept d d';
  st_cases : cases_kept d d';
  st_operations : operations_kept d d';
  st_outbox : outbox_kept d d';
  st_inbox : inbox_kept d d';
}.

#[export] Instance steady_preorder : PreOrder steady.
Proof.
  split.
  - intros d. split; reflexivity.
  - intros x y z [] []. split; by etrans.
Qed.

(** Everything the components keep true of the database. *)
Record system_ok (d : database) : Prop := {
  sys_cases : case_db_ok d;
  sys_operations : op_db_ok d;
  sys_outbox : outbox_ok d;
  sys_inbox : inbox_ok (inbox d);
}.

Lemma system_ok_steady d d' : system_ok d → steady d d' → system_ok d'.
Proof. intros [] [_ Hc Ho Hb Hi]. split; [by apply Hc|by apply Ho|by apply Hb|by apply Hi]. Qed.

(** The commits of the other workers. *)
Definition steady_world (amb : Ambient database) : Prop := ∀ n d, steady d (interfere amb n d).

Section World.
Context (amb : Ambient database) (Hamb : steady_world amb).

Lemma steady_world_cases : others_ok amb.
Proof. intros n d. apply Hamb. Qed.

Lemma steady_world_operations : op_others_ok amb.
Proof. intros n d. apply Hamb. Qed.

Lemma rely_system : rely amb system_ok.
Proof. intros n d Hd. by eapply system_ok_steady, Hamb. Qed.
End World.

Lemma steady_world_idle : steady_world idle_ambient.
Proof. intros n d. cbn. reflexivity. Qed.

(** * Transactions statement by statement *)

(** Every commit of [t] relates the state before and after by [R]. *)
Definition tx_within {A} (R : relation database) (t : Tx A) : Prop :=
  ∀ d a d', commits_to t d a d' → R d d'.

Section Within.
Context (R : relation database) `{!PreOrder R}.

Lemma within_ret {A} (a : A) : tx_within R (tx_ret a).
Proof. intros d b d' [-> ->]%commits_to_ret. reflexivity. Qed.
Lemma within_raise {A} e : tx_within (A := A) R (tx_raise e).
Proof. intros d b d' H. by apply commits_to_raise in H. Qed.
Lemma within_bind {A B} (t : Tx A) (f : A → Tx B) :
  tx_within R t → (∀ a, tx_within R (f a)) → tx_within R (tx_bind t f).
Proof.
  intros Ht Hf d b d' (a & d1 & H1 & H2)%commits_to_bind. etrans; [by eapply Ht|by eapply Hf].
Qed.
Lemma within_lift {A} (r : res A) : tx_within R (tx_lift r).
Proof. intros d a d' [_ ->]%commits_to_lift. reflexivity. Qed.
Lemma within_raise_if c e : tx_within R (tx_raise_if c e).
Proof. intros d a d' [_ ->]%commits_to_raise_if. reflexivity. Qed.
Lemma within_clock : tx_within R clock_timestamp.
Proof. intros d a d' ->%commits_to_clock. reflexivity. Qed.
Lemma within_uuid4 : tx_within R uuid4.
Proof. intros d a d' ->%commits_to_uuid4. reflexivity. Qed.
Lemma within_select {A} (f : database → A) : tx_within R (select f).
Proof. intros d a d' [_ ->]%commits_to_select. reflexivity. Qed.
Lemma within_execute f : (∀ d d', f d = PgOk d' → R d d') → tx_within R (execute f).
Proof. intros H d a d' Hc%commits_to_execute. by apply H. Qed.
Lemma within_for {A B} (body : A → Tx B) l :
  (∀ x, tx_within R (body x)) → tx_within R (tx_for body l).
Proof.
  intros Hb. induction l as [|x l IH]; cbn; [apply within_ret|].
  apply within_bind; [done|]. intros b. apply within_bind; [done|]. intros bs. apply within_ret.
Qed.
End Within.

Create HintDb within discriminated.
#[export] Hint Resolve within_ret within_raise within_lift within_raise_if within_clock within_uuid4
  within_select : within.
#[export] Hint Extern 1 (PreOrder _) => typeclasses eauto : within.

(** Walk down a transaction to its statements. *)
Ltac tx_walk :=
  repeat first
    [ progress intros
    | progress cbv zeta
    | solve [eauto with within]
    | match goal with
      | |- tx_within _ (tx_bind _ _) => apply within_bind; [typeclasses eauto|..]
      | |- tx_within _ (tx_for _ _) => apply within_for; [typeclasses eauto|]
      | |- tx_within _ (match ?x with _ => _ end) => destruct x
      end ].

(** * Messaging statements leave the aggregates alone *)

(** Stored commands are the ones queued, and no other. *)
Definition same_commands (d d' : database) : Prop :=
  ∀ k m', outbox_messages d' !! k = Some m' →
    ∃ m, outbox_messages d !! k = Some m ∧ envelope_of m' = envelope_of m.

(** The inbox tables are untouched. *)
Definition same_inbox (d d' : database) : Prop := inbox d' = inbox d.

#[export] Instance same_inbox_preorder : PreOrder same_inbox.
Proof. split; unfold same_inbox; [done|congruence]. Qed.

Definition messaging_step (d d' : database) : Prop :=
  same_inbox d d' ∧ (schema_ok d → schema_ok d' ∧ same_domain d d' ∧ same_commands d d').

#[export] Instance messaging_step_preorder : PreOrder messaging_step.
Proof.
  split; unfold messaging_step.
  - intros d. split; [reflexivity|]. intros Hd. split_and!; [done..|]. intros k m Hm. by exists m.
  - intros x y z [I1 H1] [I2 H2]. split; [by etrans|]. intros Hx. destruct (H1 Hx) as (Hy & D1 & C1). destruct (H2 Hy) as (Hz & D2 & C2).
    split_and!; [done|by etrans|]. intros k m3 H3. destruct (C2 k m3 H3) as (m2 & Hm2 & E2).
    destruct (C1 k m2 Hm2) as (m1 & Hm1 & E1). exists m1. split; [done|congruence].
Qed.

Lemma within_update_outbox k where_ set :
  (∀ m, envelope_of (set m) = envelope_of m) → tx_within messaging_step (update_outbox k where_ set).
Proof.
  intros He d r d' [[_ ->]|(m & _ & Hm & _ & Hput)]%update_outbox_commits.
  { by apply messaging_step_preorder. }
  split; [by apply put_outbox_message_effect in Hput as [-> _]|]. intros Hd. split; [by eapply put_outbox_message_ok|]. apply put_outbox_message_effect in Hput as [-> _].
  split; [done|]. intros j x. cbn. rewrite lookup_insert.
  rewrite (envelope_of_command _ _ (He m)), (so_outbox_id d Hd k m Hm).
  case_decide as Ej; [|by eauto]. subst j. intros [= <-]. eauto.
Qed.

Lemma within_put_delivery_attempt a : tx_within messaging_step (execute (put_delivery_attempt a)).
Proof.
  apply within_execute. intros d d' Hput.
  split; [by apply put_delivery_attempt_effect in Hput as ->|]. intros Hd.
  split; [by eapply put_delivery_attempt_ok|]. apply put_delivery_attempt_effect in Hput as ->. split; [done|]. intros k m Hm. by exists m.
Qed.

Lemma within_update_attempt i where_ set : tx_within messaging_step (update_attempt i where_ set).
Proof.
  intros d r d' [[_ ->]|(a & _ & _ & _ & Hput)]%update_attempt_commits.
  { by apply messaging_step_preorder. }
  split; [by apply put_delivery_attempt_effect in Hput as ->|]. intros Hd. split; [by eapply put_delivery_attempt_ok|]. apply put_delivery_attempt_effect in Hput as ->.
  split; [done|]. intros k m Hm. by exists m.
Qed.

Lemma within_insert_delivery_attempt a :
  tx_within messaging_step (execute (insert_delivery_attempt a)).
Proof.
  apply within_execute. intros d d' Hins. unfold insert_delivery_attempt in Hins. inv_pg.
  eapply within_put_delivery_attempt. by exists idle_ambient, O, O; cbn; unfold execute; rewrite Hins.
Qed.

#[export] Hint Resolve within_put_delivery_attempt within_update_attempt
  within_insert_delivery_attempt : within.
#[export] Hint Extern 2 (tx_within messaging_step (update_outbox _ _ _)) =>
  apply within_update_outbox; intros; first [reflexivity | repeat case_match; reflexivity] : within.

(** Statements on the aggregates leave the inbox alone. *)
Ltac same_inbox_statement :=
  apply within_execute; intros ?d ?d' ?H; unfold same_inbox;
  unfold insert_case_event_once, insert_support_case, put_support_case, insert_case_event,
    put_order_operation, insert_operation_event, put_delivery_attempt, put_outbox_message in *;
  inv_pg; try case_bool_decide; inv_pg; reflexivity.
#[export] Hint Extern 2 (tx_within same_inbox (execute _)) => same_inbox_statement : within.

Lemma within_inbox {A} (t : Tx A) : tx_within messaging_step t → tx_within same_inbox t.
Proof. intros H d a d' Hc. by apply H in Hc as [? _]. Qed.

Lemma messaging_step_schema d d' : messaging_step d d' → schema_kept d d'.
Proof. intros H Hd. by apply H. Qed.

Lemma inbox_kept_frame d d' : same_inbox d d' → inbox_kept d d'.
Proof. unfold same_inbox, inbox_kept. intros -> H. split; [done|reflexivity]. Qed.

Lemma messaging_step_inbox d d' : messaging_step d d' → inbox_kept d d'.
Proof. intros [H _]. by apply inbox_kept_frame. Qed.

Lemma messaging_step_cases d d' : messaging_step d d' → cases_kept d d'.
Proof.
  intros [_ H] Hd. destruct (H (cdb_schema d Hd)) as (Hs & (E1 & E2 & _) & _).
  split; [by eapply case_db_ok_frame|by apply cases_evolve_frame].
Qed.

Lemma operations_evolve_frame d d' : order_operations d' = order_operations d → operations_evolve d d'.
Proof. intros E i r Hr. exists r. rewrite E. split; [done|]. reflexivity. Qed.

Lemma command_justified_envelope d m m' :
  envelope_of m' = envelope_of m → command_justified d m → command_justified d m'.
Proof.
  intros E Hj. unfold command_justified. injection E; intros.
  repeat match goal with H : _ m' = _ m |- _ => try rewrite H in *; clear H end. by apply Hj.
Qed.

Lemma messaging_step_operations d d' : messaging_step d d' → operations_kept d d'.
Proof.
  intros [_ H] Hd. destruct (H (odb_schema d Hd)) as (Hs & (_ & _ & E1 & E2 & E3) & Hc).
  split; [|by apply operations_evolve_frame]. destruct Hd as [_ Hr He Hcmd Hsub]. split; [done|..].
  - by rewrite E1.
  - by rewrite E2.
  - intros k m' Hm'. destruct (Hc k m' Hm') as (m & Hm & Eenv). specialize (Hcmd k m Hm).
    eapply command_justified_envelope in Hcmd; [|exact Eenv]. unfold command_justified in *. by rewrite E1.
  - rewrite E3. unfold submission_justified in *. by rewrite E1.
Qed.

(** * Frames *)

(** Case statements leave the operations and the outbox alone. *)
Lemma operations_kept_frame d d' :
  schema_kept d d' → same_operations d d' → outbox_messages d' = outbox_messages d →
  operations_kept d d'.
Proof.
  intros Hs (E1 & E2 & E3) E4 Hd. split; [|by apply operations_evolve_frame].
  destruct Hd as [Hsch Hr He Hc Hp]. split; [by apply Hs|by rewrite E1|by rewrite E2|..].
  - rewrite E4. unfold command_justified in *. by rewrite E1.
  - rewrite E3. unfold submission_justified in *. by rewrite E1.
Qed.

Lemma outbox_kept_frame d d' : schema_kept d d' → same_messaging d d' → outbox_kept d d'.
Proof.
  intros Hs (E1 & E2 & E3 & E4) Hd. split; [by eapply outbox_ok_frame, E4; [exact Hd|apply Hs, Hd|..]|].
  split; [|by rewrite E4]. intros k m Hm. exists m. rewrite E1. split; [done|]. reflexivity.
Qed.

(** * Calls that keep the promise *)

(** A fact about the database that no steady step destroys. *)
Class Stable (J : database → Prop) : Prop := {
  stable_system : ∀ d, J d → system_ok d;
  stable_steady : ∀ d d', J d → steady d d' → J d';
}.

#[export] Instance stable_system_ok : Stable system_ok.
Proof. split; [done|]. apply system_ok_steady. Qed.

(** The transactions of a call are steady, whatever it answers. *)
Definition honest {A} (amb : Ambient database) (J : database → Prop) (m : M database A) : Prop :=
  runs amb J m (λ _ cs, Forall (λ c, steady c.1 c.2) cs).

Section Honest.
Context (amb : Ambient database) (Hamb : steady_world amb) (J : database → Prop) `{!Stable J}.

Lemma rely_stable : rely amb J.
Proof using Hamb Stable0. intros n d Hd. by eapply stable_steady, Hamb. Qed.

Lemma honest_ret {A} (a : A) : honest amb J (ret a).
Proof. by apply runs_ret. Qed.
Lemma honest_raise {A} e : honest amb J (raise (A := A) e).
Proof. by apply runs_raise. Qed.
Lemma honest_lift {A} (r : res A) : honest amb J (lift r).
Proof. by apply runs_lift. Qed.
Lemma honest_now : honest amb J now.
Proof. by apply runs_now. Qed.
Lemma honest_new_id : honest amb J new_id.
Proof. by apply runs_new_id. Qed.
Lemma honest_bind {A B} (m : M database A) (f : A → M database B) :
  honest amb J m → (∀ a, honest amb J (f a)) → honest amb J (bind m f).
Proof.
  intros Hm Hf. eapply runs_bind; [exact Hm|..|done].
  intros a cs1 H1. eapply runs_weaken; [apply Hf|]. intros r cs2 H2. by apply Forall_app.
Qed.
Lemma honest_try {A} (m : M database A) h :
  honest amb J m → (∀ e k, h e = Some k → honest amb J k) → honest amb J (try_except m h).
Proof.
  intros Hm Hh. eapply runs_try_except; [exact Hm|done|]. intros e cs H1.
  destruct (h e) as [k|] eqn:E; [|done]. eapply runs_weaken; [by eapply Hh|].
  intros r cs2 H2. by apply Forall_app.
Qed.
Lemma honest_query {A} pe (f : database → res A) : honest amb J (query pe f).
Proof using Hamb Stable0. apply runs_query; [apply rely_stable|done..]. Qed.

(** A transaction whose commits satisfy [Q], all of them steady. *)
Lemma runs_steady_tx {A} pe handler (t : Tx A) (Q : A → database → database → Prop) :
  tx_within steady t → (∀ d a d', J d → commits_to t d a d' → Q a d d') →
  runs amb J (in_transaction pe handler t)
    (λ r cs, match r with
             | Ok a => ∃ d d', cs = [(d, d')] ∧ steady d d' ∧ Q a d d'
             | Err e => (cs = [] ∧ (e = pe ∨ ∃ x, e = handler x)) ∨
                        e = pe ∧ ∃ a d d', cs = [(d, d')] ∧ steady d d' ∧ Q a d d'
             end).
Proof using Hamb Stable0.
  intros Ht HQ. apply runs_in_transaction; [apply rely_stable|..].
  - intros d a d' Hd Hc. pose proof (Ht _ _ _ Hc) as Hs. split; [by eapply stable_steady|].
    pose proof (HQ _ _ _ Hd Hc). split; [|right]; eauto 10.
  - left. eauto.
  - left. eauto.
Qed.

Lemma honest_tx {A} pe handler (t : Tx A) :
  tx_within steady t → honest amb J (in_transaction pe handler t).
Proof using Hamb Stable0.
  intros Ht. eapply runs_weaken; [by apply (runs_steady_tx pe handler t (λ _ _ _, True))|].
  intros [a|e] cs.
  - intros (d & d' & -> & Hs & _). by apply Forall_singleton.
  - intros [[-> _]|(_ & a & d & d' & -> & Hs & _)]; [done|by apply Forall_singleton].
Qed.
End Honest.

Section HonestMore.
Context (amb : Ambient database) (Hamb : steady_world amb) (J : database → Prop) `{!Stable J}.

Lemma runs_steady_transact {A} pe (f : database → res (A * database))
    (Q : A → database → database → Prop) :
  (∀ d a d', J d → f d = Ok (a, d') → steady d d' ∧ Q a d d') →
  runs amb J (transact pe f)
    (λ r cs, Forall (λ c, steady c.1 c.2) cs ∧
             ∀ a, r = Ok a → ∃ d d', cs = [(d, d')] ∧ Q a d d').
Proof using Hamb Stable0.
  intros HQ. apply runs_transact; [by apply rely_stable|..].
  - intros d a d' Hd Hf. destruct (HQ _ _ _ Hd Hf) as [Hs Hq].
    split; [by eapply stable_steady|]. split; (split; [by apply Forall_singleton|]); [|done].
    intros ? [= <-]. eauto.
  - done.
  - done.
Qed.

(** What a transaction leaves behind strengthens the invariant for the rest of the call. *)
Lemma runs_tx_bind {A B} pe handler (t : Tx A) (k : A → M database B)
    (J' : A → database → Prop) (Q : res B → list (database * database) → Prop) :
  tx_within steady t →
  (∀ d a d', J d → commits_to t d a d' → J' a d') → (∀ a d, J' a d → J d) →
  (∀ e, Q (Err e) []) →
  (∀ d a d', J d → commits_to t d a d' → Q (Err pe) [(d, d')]) →
  (∀ d a d', J d → commits_to t d a d' → runs amb (J' a) (k a) (λ r cs, Q r ((d, d') :: cs))) →
  runs amb J (bind (in_transaction pe handler t) k) Q.
Proof using Hamb Stable0.
  intros Ht HJ' HJ HQe HQp Hk w r w' Hw. unfold bind, in_transaction.
  pose proof (rely_stable amb Hamb J (w_tick w) _ Hw) as Hd.
  set (d := interfere amb (w_tick w) (w_db w)) in *.
  destruct (t amb d (S (w_tick w))) as [[a d'|e] n] eqn:E.
  - assert (commits_to t d a d') as Hc by by do 3 eexists.
    destruct (fault_at amb (w_tick w)).
    + intros Hr. destruct (Hk d a d' Hd Hc (mkWorld d' n _) r w' (HJ' _ _ _ Hd Hc) Hr)
        as (HJ'w & cs & Hl & HQ). cbn in Hl. split; [by eapply HJ|].
      exists ((d, d') :: cs). rewrite Hl, <- app_assoc. done.
    + intros [= <- <-]. split; [done|]. exists []. by rewrite app_nil_r.
    + intros [= <- <-]. split; [by eapply HJ, HJ'|]. exists [(d, d')]. split; [done|by eapply HQp].
  - destruct (fault_at amb (w_tick w)); intros [= <- <-]; (split; [done|]); exists [];
      rewrite app_nil_r; done.
Qed.
End HonestMore.
