(* ===== verification/RefundSafety.v ===== *)
(** The guarantees of refund requests: a call stores one pending request of the caller, or
    finds that the order has one. *)
From S2P Require Import Prelude Effects Auth OperationModels CaseModels Database Transactions Refunds CaseSafety OutboxSafety FinalizationSafety Steady.

(** Every stored request sits under its identifier, and no order has two. *)
Record refunds_ok (d : database) : Prop := {
  rf_id : ∀ i r, refund_requests d !! i = Some r → rfq_refund_id r = i;
  rf_order : index_unique refund_order_key (refund_requests d);
}.

(** Another order has a request only if its own row says so. *)
Lemma refunds_ok_once d i j a b :
  refunds_ok d → refund_requests d !! i = Some a → refund_requests d !! j = Some b →
  rfq_order_id a = rfq_order_id b → a = b.
Proof.
  intros Hd Ha Hb E. assert (i = j) as ->; [|congruence].
  eapply (rf_order d Hd i j a b); [done..|]. unfold refund_order_key. by rewrite E.
Qed.

Definition refund_stored (r : RefundRequest) (d d' : database) : Prop :=
  (∀ i x, refund_requests d !! i = Some x → rfq_order_id x ≠ rfq_order_id r) ∧
  d' = set_refund_requests (<[rfq_refund_id r := r]> (refund_requests d)) d.

Lemma insert_refund_effect r d b d' :
  (∀ i x, refund_requests d !! i = Some x → rfq_refund_id x = i) →
  insert_refund r d = PgOk (b, d') →
  b = true ∧ refund_stored r d d' ∨
  b = false ∧ d' = d ∧ ∃ i x, refund_requests d !! i = Some x ∧ rfq_order_id x = rfq_order_id r.
Proof.
  intros Hid. unfold insert_refund. intros (u & _ & H)%pg_bind_ok. destruct (collides _ _ _ _) eqn:Hc.
  - injection H as <- <-. right. split; [done|]. split; [done|].
    unfold collides in Hc. cbn in Hc. apply existsb_exists in Hc as ([i x] & Hin & Hx). bools.
    unfold refund_order_key in *.
    apply list_elem_of_In, elem_of_map_to_list in Hin. exists i, x. split; [done|]. congruence.
  - destruct (refund_requests d !! rfq_refund_id r) as [old|] eqn:Ho.
    + case_bool_decide as E; [|done]. injection H as <- <-. right. eauto 6.
    + injection H as <- <-. left. split; [done|]. split; [|done]. intros i x Hx E.
      rewrite collides_false in Hc. assert (i = rfq_refund_id r) as ->; [|congruence].
      eapply Hc; [reflexivity|done|]. unfold refund_order_key. by rewrite E.
Qed.

Lemma refund_stored_ok r d d' : refunds_ok d → refund_stored r d d' → refunds_ok d'.
Proof.
  intros [H1 H2] [Hfree ->]. split; cbn.
  - by apply (insert_rows (λ i x, rfq_refund_id x = i)).
  - apply index_unique_insert; [done|]. apply collides_false. intros k i x [= <-] Hx [= E].
    by destruct (Hfree i x Hx).
Qed.

(** * One call *)

(** The request [s] makes for an order. *)
Definition requested (s : AccessScope) (order_id : string) (r : RefundRequest) : Prop :=
  rfq_order_id r = strip order_id ∧ rfq_status r = rf_pending ∧ rfq_tenant_id r = sc_tenant_id s ∧
  customer_id s = Some (rfq_customer_id r) ∧ order_id_ok (rfq_order_id r) = true.

(** One commit: the request is stored, or the order has one already. *)
Definition refund_step (s : AccessScope) (order_id : string) (created : bool) (d d' : database) : Prop :=
  refunds_ok d' ∧
  if created then ∃ r, requested s order_id r ∧ refund_stored r d d'
  else d' = d ∧ ∃ i x, refund_requests d !! i = Some x ∧ rfq_order_id x = strip order_id.

Definition refund_ending (s : AccessScope) (order_id : string) (r : res bool)
    (cs : list (database * database)) : Prop :=
  match r with
  | Ok created => ∃ d d', cs = [(d, d')] ∧ refund_step s order_id created d d'
  | Err e => cs = [] ∨ e = RefundPersistenceError ∧
      ∃ created d d', cs = [(d, d')] ∧ refund_step s order_id created d d'
  end.

Lemma RefundRequest_validate_ok r r' :
  RefundRequest_validate r = Ok r' →
  rfq_order_id r' = strip (rfq_order_id r) ∧ rfq_status r' = rfq_status r ∧
  rfq_customer_id r' = strip (rfq_customer_id r) ∧ rfq_tenant_id r' = strip (rfq_tenant_id r) ∧
  order_id_ok (rfq_order_id r') = true.
Proof. unfold RefundRequest_validate. intros H. inv_ok. cbn. bools. by split_and!. Qed.

Lemma create_refund_runs amb s order_id :
  rely amb refunds_ok → runs amb refunds_ok (create_refund s order_id) (refund_ending s order_id).
Proof.
  intros Hrely. unfold create_refund. destruct (customer_id s) as [owner|] eqn:Hown; [|apply runs_raise; by left].
  eapply runs_bind_pure with (Qa := λ _, True); [by apply runs_new_id|]. intros i _.
  apply runs_lift_bind; [by left|]. intros who _.
  eapply runs_bind_pure with (Qa := λ _, True); [by apply runs_now|]. intros t _.
  apply runs_lift_bind; [by left|]. intros r (E1 & E2 & E3 & E4 & E5)%RefundRequest_validate_ok. cbn in E1, E2, E3, E4.
  unfold repo_create_refund. apply runs_lift_bind; [by left|]. intros _ _.
  apply runs_lift_bind; [by left|]. intros _ Hscope%raise_if_ok. bools.
  repeat match goal with H : ¬ (_ ≠ _) |- _ => apply dec_stable in H end.
  assert (requested s order_id r) as Hreq by (split_and!; congruence).
  assert (∀ d c d', refunds_ok d → insert_refund r d = PgOk (c, d') → refund_step s order_id c d d') as Hstep.
  { intros d c d' Hd [(-> & Hs)|(-> & -> & k & x & Hx & Ho)]%insert_refund_effect; [| |apply Hd].
    - split; [by eapply refund_stored_ok|]. by exists r.
    - split; [done|]. split; [done|]. exists k, x. split; [done|]. congruence. }
  apply runs_transact; [done|..|by left|by left].
  intros d c d' Hd Hf. destruct (insert_refund r d) as [[c' d1]|e] eqn:E; [|done]. injection Hf as -> ->.
  pose proof (Hstep d c d' Hd E) as Hst. split; [apply Hst|]. split; [by exists d, d'|]. right.
  split; [done|]. by exists c, d, d'.
Qed.

(** * The claim *)

(** C37: a refund request is stored at most once per order: a call commits at most one new row,
    the pending request of the calling customer for that order, and only when no request for
    the order exists; it answers [false] exactly when one does, and then changes nothing; an
    error leaves nothing behind unless the acknowledgement of the commit was lost.  Whatever
    other workers commit in between, no order ever has two requests. *)
Theorem create_refund_once (amb : Ambient database) (s : AccessScope) (order_id : string) :
  rely amb refunds_ok → runs amb refunds_ok (create_refund s order_id) (refund_ending s order_id).
Proof. apply create_refund_runs. Qed.

Lemma refunds_ok_empty : refunds_ok empty_db.
Proof. split; cbn; [intros i r H; by rewrite lookup_empty in H|apply index_unique_empty]. Qed.

Definition demo_other_tenant : AccessScope :=
  mkAccessScope "tenant-b" "u9" customer (role_permissions customer).
Definition demo_refund_call (s : AccessScope) : M database bool := create_refund s "ORD-10001".

(** The second call of the witness is another tenant's customer: order numbers are shared by
    all tenants, so the first request keeps that customer from making one. *)
Lemma create_refund_once_witness :
  outcome (demo_refund_call (demo_scope customer)) empty_db = Ok true ∧
  outcome (demo_refund_call demo_other_tenant) (after (demo_refund_call (demo_scope customer)) empty_db) = Ok false ∧
  refund_ending (demo_scope customer) "ORD-10001"
    (outcome (demo_refund_call (demo_scope customer)) empty_db)
    (commits (demo_refund_call (demo_scope customer)) empty_db).
Proof.
  do 2 (split; [vm_compute; reflexivity|]).
  exact (runs_outcome _ _ _ empty_db (create_refund_once idle_ambient (demo_scope customer) "ORD-10001"
    (λ _ _ H, H)) refunds_ok_empty).
Defined.

(** * Seen from the other components *)

Lemma insert_refund_frame r d b d' :
  insert_refund r d = PgOk (b, d') → ∃ m, d' = set_refund_requests m d.
Proof.
  unfold insert_refund. intros (u & _ & H)%pg_bind_ok.
  assert (d = set_refund_requests (refund_requests d) d) as Hd by (by destruct d).
  repeat case_match; simplify_eq; eauto.
Qed.

Lemma refund_steady m d : steady d (set_refund_requests m d).
Proof.
  assert (schema_kept d (set_refund_requests m d)) as Hs by (by intros []; split). split.
  - done.
  - intros Hd. split; [eapply case_db_ok_frame; [exact Hd|apply Hs, Hd|done]|by apply cases_evolve_frame].
  - by apply operations_kept_frame.
  - by apply outbox_kept_frame.
  - by apply inbox_kept_frame.
Qed.
