(* ===== verification/ProviderFailureSafety.v ===== *)
(** What the manual-review fallback commits: the operation, its review case and its audit
    events move together, and the invariants of both aggregates survive. *)
From S2P Require Import Prelude Effects Auth OperationModels CaseModels Envelope Database Transactions CaseRepository CaseSafety OperationRepository OperationService OperationSafety OutboxWrites Finalization ProviderFailure OutboxSafety FinalizationSafety InboxSafety Steady.

(** The audit trail of one fallback: the confirmation by the customer, the new status and the
    attached case, under the keys of this request. *)
Record failure_audit (s : AccessScope) (request_id : string) (row : OrderOperation) (case_id : uuid)
    (es : list OrderOperationEvent) : Prop := {
  fa_events : ∃ e1 e2 e3, es = [e1; e2; e3] ∧
    oev_event_type e1 = oe_confirmation_recorded ∧
    (∃ actor, identity s = Ok actor ∧ oev_actor e1 = strip actor) ∧
    oev_idempotency_key e1 = strip (queue_failure_key (oo_operation_id row) "confirmed" request_id) ∧
    oev_event_type e2 = oe_status_changed ∧ oev_previous_status e2 = Some os_pending_confirmation ∧
    oev_current_status e2 = Some os_manual_review ∧
    oev_event_type e3 = oe_support_case_attached ∧ oev_support_case_id e3 = Some case_id;
  fa_normal : Forall op_event_normal es;
  fa_about : Forall (about_operation row) es;
}.

(** One fallback: a pending operation of the caller moves to a P1 review of an unresolved
    case, in one commit with its audit trail, and nothing is sent anywhere. *)
Record failure_recorded (s : AccessScope) (operation_id : uuid) (request_id : string)
    (r : ProviderQueueFailureResult) (d d' : database) : Prop := {
  fr_operation : ∃ row now es, order_operations d !! operation_id = Some row ∧
    oo_operation_id row = operation_id ∧ owns s row ∧ oo_status row = os_pending_confirmation ∧
    order_operations d' = <[operation_id :=
      handed_over_row row (c_case_id (qf_support_case r)) now (oo_version row + 1)]> (order_operations d) ∧
    qf_operation r = handed_over_row (read_view row) (c_case_id (qf_support_case r)) now (oo_version row + 1) ∧
    oo_created_at row ≤ now ∧
    order_operation_events d' = order_operation_events d ++ es ∧
    (es = [] ∧ operation_key_recorded (queue_failure_key operation_id "confirmed" request_id) d = true ∨
     failure_audit s request_id row (c_case_id (qf_support_case r)) es);
  fr_messaging : same_messaging d d';
  fr_inbox : inbox d' = inbox d;
  fr_submissions : provider_submissions d' = provider_submissions d;
}.

(** The review case it ends in. *)
Definition review_opened (request_id : string) (r : ProviderQueueFailureResult) (d d' : database) : Prop :=
  support_cases d' !! c_case_id (qf_support_case r) = Some (qf_support_case r) ∧
  review_case_for (qf_operation r) (qf_support_case r) ∧
  escalation_recorded
    (queue_failure_key (oo_operation_id (qf_operation r)) "case" request_id) d' ∧
  match qf_action r with
  | qf_created => support_cases d !! c_case_id (qf_support_case r) = None
  | qf_reused => ∃ c, support_cases d !! c_case_id (qf_support_case r) = Some c ∧
                      c_status c = c_status (qf_support_case r)
  | qf_duplicate_ignored => False
  end.

(** The operation was already with a human: its own review case is answered. *)
Definition failure_known (s : AccessScope) (operation_id : uuid) (r : ProviderQueueFailureResult)
    (d : database) : Prop :=
  ∃ row row_case, order_operations d !! operation_id = Some row ∧
    OrderOperation_validate row = Ok (qf_operation r) ∧ owns s (qf_operation r) ∧
    oo_status row = os_manual_review ∧ oo_support_case_id row = Some (c_case_id row_case) ∧
    support_cases d !! c_case_id row_case = Some row_case ∧
    SupportCase_validate row_case = Ok (qf_support_case r) ∧
    c_case_type (qf_support_case r) = ct_order_operation_review ∧
    c_tenant_id (qf_support_case r) = sc_tenant_id s ∧ qf_action r = qf_duplicate_ignored.

Lemma OrderOperationEvent_validate_about e e' o :
  OrderOperationEvent_validate e = Ok e' →
  strip (oo_tenant_id o) = oo_tenant_id o → strip (oo_customer_id o) = oo_customer_id o →
  oev_operation_id e = oo_operation_id o → oev_tenant_id e = oo_tenant_id o →
  oev_customer_id e = oo_customer_id o →
  op_event_normal e' ∧ e' = OrderOperationEvent_strip e ∧ about_operation o e'.
Proof.
  intros (Hn & -> & _)%OrderOperationEvent_validate_facts Ht Hc E1 E2 E3. split_and!; [done..|].
  unfold about_operation. cbn. rewrite E1, E2, E3. done.
Qed.

Lemma failure_events_audit s actor request_id row case_id ids now es :
  op_readable row → oo_status row = os_pending_confirmation → identity s = Ok actor →
  failure_events actor request_id (read_view row) case_id ids now = Ok es →
  failure_audit s request_id row case_id es.
Proof.
  intros Hrd Hst Hact H. destruct ids as [[i1 i2] i3]. unfold failure_events in H.
  destruct (read_view_stripped row Hrd) as (T1 & T2 & _).
  apply res_bind_ok in H as (e1 & H1 & H). apply res_bind_ok in H as (e2 & H2 & H).
  apply res_bind_ok in H as (e3 & H3 & H). injection H as <-.
  apply (OrderOperationEvent_validate_about _ _ row) in H1 as (N1 & E1 & A1); try done.
  apply (OrderOperationEvent_validate_about _ _ row) in H2 as (N2 & E2 & A2); try done.
  apply (OrderOperationEvent_validate_about _ _ row) in H3 as (N3 & E3 & A3); try done.
  split; [|by rewrite !Forall_cons, Forall_nil..]. exists e1, e2, e3. subst. cbn. rewrite Hst.
  split_and!; try done. by exists actor.
Qed.

(** A transaction either answers or moves everything. *)
Lemma move_once_steps s i q now d r d' :
  op_db_ok d → commits_to (move_once_tx s i q now) d r d' →
  (d' = d ∧ failure_known s i r d) ∨
  ∃ row d1 reused, order_operations d !! i = Some row ∧ owns s row ∧ oo_status row = os_pending_confirmation ∧
    commits_to (escalate_review_case (queue_failure_key i "case" q) (λ _, now) insert_case_event
      ConcurrentOperationUpdateError (read_view row) now) d (qf_support_case r, reused) d1 ∧
    qf_action r = (if reused then qf_reused else qf_created) ∧
    qf_operation r = handed_over_row (read_view row) (c_case_id (qf_support_case r)) now (oo_version row + 1) ∧
    ∃ es, pg_bind (put_order_operation
            (handed_over_row row (c_case_id (qf_support_case r)) now (oo_version row + 1)) d1)
            (insert_operation_events es) = PgOk d' ∧
      (es = [] ∧ operation_key_recorded (queue_failure_key i "confirmed" q) d = true ∨
       failure_audit s q row (c_case_id (qf_support_case r)) es).
Proof.
  intros Hd H. unfold move_once_tx in H. pose proof (odb_schema d Hd) as Hs.
  apply commits_to_bind in H as (row' & ? & [-> ->]%commits_to_select & H).
  destruct (order_operations d !! i) as [row|] eqn:Hrow; [|by apply commits_to_raise in H].
  pose proof (odb_rows d Hd _ _ Hrow) as Hrd. pose proof (so_op_id d Hs _ _ Hrow) as Hid.
  apply commits_to_bind in H as (o & ? & [Ho ->]%commits_to_lift & H).
  pose proof (validate_read_view row o Hrd Ho) as ->.
  apply commits_to_bind in H as (? & ? & [Hg ->]%commits_to_raise_if & H).
  rewrite orb_false_iff, !bool_decide_eq_false in Hg. destruct Hg as [G1 G2]. apply dec_stable in G1, G2.
  assert (owns s row) as Hown by (split; [exact G1|symmetry; exact G2]).
  apply commits_to_bind in H as (replay & ? & [-> ->]%commits_to_select & H).
  destruct (if bool_decide _ then _ else None) as [attached|] eqn:Hat.
  - left. case_bool_decide as Hm; [|done]. cbn in Hm, Hat.
    apply commits_to_bind in H as (crow & ? & [-> ->]%commits_to_select & H).
    destruct (support_cases d !! attached) as [crow|] eqn:Hc; [|by apply commits_to_raise in H].
    apply commits_to_bind in H as (c & ? & [Hcv ->]%commits_to_lift & H).
    apply commits_to_bind in H as (? & ? & [Hg ->]%commits_to_raise_if & H).
    rewrite !orb_false_iff, !bool_decide_eq_false in Hg. destruct Hg as [[G3 G4] G5].
    apply dec_stable in G3, G4, G5. apply commits_to_ret in H as [-> ->]. split; [done|].
    pose proof (so_case_id d Hs _ _ Hc) as <-. exists row, crow. cbn in *.
    split_and!; try done. by rewrite G3.
  - right. apply commits_to_bind in H as (? & ? & [Hg ->]%commits_to_raise_if & H).
    apply bool_decide_eq_false, dec_stable in Hg. cbn in Hg.
    apply commits_to_bind in H as ([c reused] & d1 & Hesc & H).
    destruct (escalate_frame _ _ _ inserts_plain _ _ _ _ _ _ Hs Hesc) as (_ & (Eo & _ & _) & _).
    apply commits_to_bind in H as (up & d2 & Hu & H). cbn in Hu.
    apply update_operation_where_commits in Hu as [[-> ->]|(row2 & -> & Hrow2 & _ & Hput)]; [inv_tx; done|].
    rewrite Eo, Hid, Hrow in Hrow2. injection Hrow2 as <-.
    apply commits_to_bind in H as (? & ? & [_ ->]%commits_to_raise_if & H).
    apply commits_to_bind in H as (? & d3 & Hev & H). apply commits_to_ret in H as [-> ->].
    change (put_order_operation (handed_over_row row (c_case_id c) now (oo_version row + 1)) d1 = PgOk d2) in Hput.
    exists row, d1, reused. split_and!; try done. cbn [qf_support_case fst].
    destruct (operation_key_recorded _ d) eqn:Hk.
    + apply commits_to_ret in Hev as [_ ->]. exists []. rewrite Hput. split; [done|by left].
    + apply commits_to_bind in Hev as (i1 & ? & ->%commits_to_uuid4 & Hev).
      apply commits_to_bind in Hev as (i2 & ? & ->%commits_to_uuid4 & Hev).
      apply commits_to_bind in Hev as (i3 & ? & ->%commits_to_uuid4 & Hev).
      apply commits_to_bind in Hev as (actor & ? & [Hact ->]%commits_to_lift & Hev).
      apply commits_to_bind in Hev as (es & ? & [Hes ->]%commits_to_lift & Hev).
      apply commits_to_execute in Hev. exists es. rewrite Hput. split; [done|]. right.
      by eapply failure_events_audit.
Qed.

(** * Both invariants *)

Lemma move_once_operations s i q now d r d' :
  op_db_ok d → commits_to (move_once_tx s i q now) d r d' →
  op_db_ok d' ∧ operations_evolve d d' ∧
  ((d' = d ∧ failure_known s i r d) ∨ failure_recorded s i q r d d').
Proof.
  intros Hd H. pose proof (odb_schema d Hd) as Hs.
  apply move_once_steps in H as [[-> Hk]|H]; [split_and!; [done|by apply operations_evolve_frame|by left]| |done].
  destruct H as (row & d1 & reused & Hrow & Hown & Hst & Hesc & Hact & Hop & es & Hw & Hes).
  pose proof (odb_rows d Hd _ _ Hrow) as Hrd. pose proof (so_op_id d Hs _ _ Hrow) as Hid.
  destruct (escalate_frame _ _ _ inserts_plain _ _ _ _ _ _ Hs Hesc) as (Hs1 & (Eo1 & Ee1 & Ep1) & Hm1 & Hi1 & _).
  set (row' := handed_over_row row _ now _) in *.
  assert (oo_created_at row ≤ now) as Hnow.
  { apply pg_bind_ok in Hw as (d2 & Hput & _). apply put_order_operation_effect in Hput as [_ Ht]. exact Ht. }
  assert (inbox d' = inbox d1) as Hi2.
  { apply pg_bind_ok in Hw as (d2 & Hput & Hins). apply put_order_operation_effect in Hput as [-> _].
    by apply insert_operation_events_effect in Hins as ->. }
  apply put_then_events in Hw as (Eo & Ee & _ & Hm & Ep & Hsch).
  rewrite Eo1 in Eo. rewrite Ee1 in Ee.
  assert (op_same row row') as Hsame.
  { unfold op_same. cbn. split_and!; try done. rewrite Hst. by eapply reaches_one. }
  assert (operations_evolve d d') as Hev.
  { eapply evolve_insert; [apply _|exact Hrow| |].
    - rewrite <- Hid. exact Eo.
    - intros x [= <-]. split; [done|cbn; lia]. }
  assert (1 ≤ oo_version row) as Hv.
  { pose proof (so_op_check d Hs _ _ Hrow) as Hck. unfold order_operations_check, int4_ok in Hck. bools. lia. }
  assert (op_readable row') as Hrd'.
  { apply rewritten_row_readable; [done|by right; left| |done|lia].
    apply op_readable_facts in Hrd as (_ & Hf & _). unfold OrderOperation_fields_ok in Hf. by bools. }
  assert (same_messaging d d') as Hmsg by by etrans.
  split_and!; [|done|right].
  - eapply op_db_ok_commit; [exact Hd|by apply Hsch|done|exact Eo|done|exact Ee| |apply Hmsg|congruence].
    destruct Hes as [[-> _]|[]]; [constructor|done].
  - split; [|done|congruence|congruence]. exists row, now, es. split_and!; try done. by rewrite <- Hid.
Qed.

Lemma move_once_cases s i q now d r d' :
  case_db_ok d → op_db_ok d → commits_to (move_once_tx s i q now) d r d' →
  case_db_ok d' ∧ cases_evolve d d' ∧
  ((d' = d ∧ failure_known s i r d) ∨ review_opened q r d d').
Proof.
  intros Hc Hd H. pose proof (odb_schema d Hd) as Hs.
  apply move_once_steps in H as [[-> Hk]|H]; [split_and!; [done|by apply cases_evolve_frame|by left]| |done].
  destruct H as (row & d1 & reused & Hrow & Hown & Hst & Hesc & Hact & Hop & es & Hw & _).
  pose proof (odb_rows d Hd _ _ Hrow) as Hrd. pose proof (so_op_id d Hs _ _ Hrow) as Hid.
  destruct (escalate_commits _ _ _ inserts_plain _ _ _ _ _ _ Hc Hesc) as (Hc1 & Hev1 & [Ecase Hrev Hrec Hbefore]).
  apply put_then_events in Hw as (_ & _ & Hsc & _ & _ & Hsch). cbn [fst snd] in *.
  split_and!.
  - eapply case_db_ok_frame; [exact Hc1| |done]. apply Hsch. apply Hc1.
  - etrans; [exact Hev1|]. by apply cases_evolve_frame, Hsc.
  - right. destruct (read_view_stripped row Hrd) as (T1 & T2 & T3). unfold review_opened. rewrite Hop.
    destruct Hsc as [Esc Eev]. split_and!.
    + by rewrite Esc.
    + by apply Hrev.
    + unfold escalation_recorded. cbn. by rewrite Eev, Hid.
    + rewrite Hact. by destruct reused.
Qed.

(** * What other workers see *)

(** Whatever the database is like, the cases change only by the escalation. *)
Lemma move_once_shape s i q now d r d' :
  commits_to (move_once_tx s i q now) d r d' →
  d' = d ∨ ∃ o x d1,
    commits_to (escalate_review_case (queue_failure_key i "case" q) (λ _, now) insert_case_event
      ConcurrentOperationUpdateError o now) d x d1 ∧
    same_cases d1 d' ∧ same_messaging d1 d' ∧ inbox d' = inbox d1 ∧ (schema_ok d1 → schema_ok d').
Proof.
  intros H. unfold move_once_tx in H.
  apply commits_to_bind in H as (row' & ? & [-> ->]%commits_to_select & H).
  destruct (order_operations d !! i) as [row|]; [|by apply commits_to_raise in H].
  apply commits_to_bind in H as (o & ? & [Ho ->]%commits_to_lift & H).
  apply commits_to_bind in H as (? & ? & [Hg ->]%commits_to_raise_if & H).
  apply commits_to_bind in H as (replay & ? & [-> ->]%commits_to_select & H).
  destruct (if bool_decide _ then _ else None) as [attached|].
  - left. apply commits_to_bind in H as (crow & ? & [-> ->]%commits_to_select & H).
    destruct (support_cases d !! attached) as [crow|]; [inv_tx; done|by apply commits_to_raise in H].
  - right. apply commits_to_bind in H as (? & ? & [_ ->]%commits_to_raise_if & H).
    apply commits_to_bind in H as (y & d1 & Hesc & H).
    apply commits_to_bind in H as (up & d2 & Hu & H). cbn in Hu.
    apply update_operation_where_commits in Hu as [[-> ->]|(row2 & -> & _ & _ & Hput)]; [inv_tx; done|].
    apply commits_to_bind in H as (? & ? & [_ ->]%commits_to_raise_if & H).
    apply commits_to_bind in H as (? & d3 & Hev & H). apply commits_to_ret in H as [_ ->].
    assert (∃ es, pg_bind (put_order_operation (handed_over_row row2 (c_case_id y.1) now (oo_version o + 1)) d1)
      (insert_operation_events es) = PgOk d3) as [es Hw].
    { destruct (operation_key_recorded _ d).
      - apply commits_to_ret in Hev as [_ ->]. exists []. by rewrite Hput.
      - inv_tx. match goal with H : insert_operation_events ?es _ = _ |- _ => exists es; by rewrite Hput end. }
    exists o, y, d1. split; [done|]. pose proof Hw as Hw2.
    apply put_then_events in Hw as (_ & _ & Hc & Hm & _ & Hs). split_and!; try done.
    apply pg_bind_ok in Hw2 as (d4 & Hp & Hi). apply put_order_operation_effect in Hp as [-> _].
    by apply insert_operation_events_effect in Hi as ->.
Qed.

Lemma move_once_steady s i q now : tx_within steady (move_once_tx s i q now).
Proof.
  intros d r d' H. pose proof (move_once_shape _ _ _ _ _ _ _ H) as Hshape.
  assert (schema_ok d → schema_ok d' ∧ same_messaging d d') as Hframe.
  { intros Hs. destruct Hshape as [->|(o & x & d1 & Hesc & _ & Hm & _ & Hsch)]; [done|].
    destruct (escalate_frame _ _ _ inserts_plain _ _ _ _ _ _ Hs Hesc) as (Hs1 & _ & Hm1 & _).
    split; [by apply Hsch|by etrans]. }
  split.
  - intros Hs. by apply Hframe.
  - intros Hc. destruct Hshape as [->|(o & x & d1 & Hesc & Hsc & _ & _ & Hsch)].
    { split; [done|by apply cases_evolve_frame]. }
    destruct (escalate_commits _ _ _ inserts_plain _ _ _ _ _ _ Hc Hesc) as (Hc1 & Hev & _).
    split; [eapply case_db_ok_frame; [exact Hc1|apply Hsch, Hc1|done]|].
    etrans; [exact Hev|]. by apply cases_evolve_frame, Hsc.
  - intros Ho. by destruct (move_once_operations _ _ _ _ _ _ _ Ho H) as (? & ? & _).
  - intros Hb. apply outbox_kept_frame; [by intros ?; apply Hframe|by apply Hframe, Hb|done].
  - apply inbox_kept_frame. unfold same_inbox.
    destruct Hshape as [->|(o & x & d1 & Hesc & _ & _ & Hi & _)]; [done|]. rewrite Hi.
    by apply (escalate_inbox _ _ _ inserts_plain _ _ _ _ _ _ Hesc).
Qed.

(** * The call *)

(** How a call can end: nothing is committed, the operation was with a human already, or one
    commit hands it over; its acknowledgement may be lost. *)
Definition fallback_step (s : AccessScope) (operation_id : uuid) (request_id : string)
    (r : ProviderQueueFailureResult) (d d' : database) : Prop :=
  system_ok d ∧ steady d d' ∧
  (d' = d ∧ failure_known s operation_id r d ∨
   failure_recorded s operation_id request_id r d d' ∧ review_opened request_id r d d').

Definition fallback_ending (s : AccessScope) (operation_id : uuid) (request_id : string)
    (x : res ProviderQueueFailureResult) (cs : list (database * database)) : Prop :=
  match x with
  | Ok r => ∃ d d', cs = [(d, d')] ∧ fallback_step s operation_id request_id r d d'
  | Err e => cs = [] ∨ e = OperationPersistenceError ∧
      ∃ r d d', cs = [(d, d')] ∧ fallback_step s operation_id request_id r d d'
  end.

Lemma fallback_ending_steady s i q x cs :
  fallback_ending s i q x cs → Forall (λ c, steady c.1 c.2) cs.
Proof.
  destruct x as [r|e].
  - intros (d & d' & -> & _ & Hs & _). by apply Forall_singleton.
  - intros [->|(_ & r & d & d' & -> & _ & Hs & _)]; [done|by apply Forall_singleton].
Qed.

Section Runs.
Context (amb : Ambient database) (Hamb : steady_world amb) (s : AccessScope) (i : uuid) (q : string).

Lemma move_once_runs : runs amb system_ok (move_once s i q) (fallback_ending s i q).
Proof using Hamb.
  apply runs_bind_pure with (Qa := λ _, True); [by apply runs_now|]. intros t _.
  eapply runs_weaken.
  - apply (runs_steady_tx amb Hamb system_ok _ queue_failure_errors _
      (λ r d d', system_ok d ∧ (d' = d ∧ failure_known s i r d ∨
                                failure_recorded s i q r d d' ∧ review_opened q r d d'))
      (move_once_steady s i q t)).
    intros d r d' Hd H. split; [done|].
    destruct (move_once_operations _ _ _ _ _ _ _ (sys_operations d Hd) H) as (_ & _ & [?|Hr]); [by left|].
    destruct (move_once_cases _ _ _ _ _ _ _ (sys_cases d Hd) (sys_operations d Hd) H) as (_ & _ & [?|?]);
      [by left|by right].
  - intros [r|e] cs.
    + intros (d & d' & -> & Hs & Hd & Hr). by exists d, d'.
    + intros [[-> _]|(-> & r & d & d' & -> & Hs & Hd & Hr)]; [by left|right].
      split; [done|]. by exists r, d, d'.
Qed.

Lemma move_attempts_runs n : runs amb system_ok (move_attempts s i q n) (fallback_ending s i q).
Proof using Hamb.
  induction n as [|n IH]; [apply runs_raise; by left|]. cbn [move_attempts].
  eapply runs_try_except; [apply move_once_runs|done|]. intros e cs He.
  destruct e; try done. destruct He as [->|[? _]]; [|done].
  destruct (_ || _); [apply runs_raise; by left|exact IH].
Qed.

End Runs.

Lemma move_to_manual_review_runs amb coordinated s i q :
  steady_world amb →
  runs amb system_ok (move_to_provider_manual_review coordinated s i q) (fallback_ending s i (strip q)).
Proof.
  intros Hamb. apply runs_lift_bind; [by left|]. intros who _. apply runs_lift_bind; [by left|]. intros m Hm.
  apply runs_lift_bind; [by left|]. intros _ _. apply runs_lift_bind; [by left|]. intros _ _.
  assert (strip m.1 = strip q) as ->; [|by apply move_attempts_runs].
  unfold validate_request_metadata in Hm. cbv zeta in Hm. inv_ok. cbn. apply strip_idem.
Qed.
