(* ===== verification/DeliverySafety.v ===== *)
(** What finalizing, retrying, renewing and recovering a delivery commit: the aggregate, the
    attempt and the message move together, and only for the lease the message carries. *)
From S2P Require Import Prelude Effects OperationModels CaseModels CasePolicy Envelope Retry Database Transactions Messaging CaseRepository CaseService CaseSafety OperationRepository OperationService OperationSafety OutboxWrites Finalization OutboxRepository OutboxSafety OutboxTransactions FinalizationSafety Steady.

(** * Delivery investigations *)

(** The provider's answer on the timeline of the case; a failure also stays on the case. *)
Record investigation_updated (claimed : ClaimedOutboxMessage) (target : finalization_target)
    (d d' : database) : Prop := {
  iu_case : ∃ c c', support_cases d !! om_aggregate_id (cl_message claimed) = Some c ∧
    c_case_type c = ct_delivery_investigation ∧ c_tenant_id c = om_tenant_id (cl_message claimed) ∧
    support_cases d' !! om_aggregate_id (cl_message claimed) = Some c' ∧
    c_status c' = c_status c ∧ c_priority c' = c_priority c ∧
    (target = ft_dead → hr_provider_delivery_failed ∈ c_reason_codes c') ∧
    (∀ r, r ∈ c_reason_codes c → r ∈ c_reason_codes c');
  iu_event : ∃ e, support_case_events d' = support_case_events d ++ [e] ∧
    ev_case_id e = om_aggregate_id (cl_message claimed) ∧ ev_event_type e = ev_provider_update ∧
    ev_provider_command_id e = Some (om_command_id (cl_message claimed)) ∧
    ev_provider_command_status e =
      Some (match target with ft_published => px_accepted | ft_dead => px_rejected end);
}.

(** The optional rewrite of the case row. *)
Lemma finalize_case_row row (target : finalization_target) now d u d1 :
  case_db_ok d → support_cases d !! c_case_id row = Some row → case_normal row →
  commits_to
    (if bool_decide (target = ft_dead) && bool_decide (hr_provider_delivery_failed ∉ c_reason_codes row)
     then updated <~ update_case_reasons (c_case_id row) (c_version row)
            (λ x, case_with_reasons x (c_priority x)
                    (c_reason_codes row ++ [hr_provider_delivery_failed]) (case_touched_at now x) (c_version row + 1));
          tx_raise_if (negb (rowcount updated =? 1)) LeaseConflictError
     else tx_ret tt) d u d1 →
  case_db_ok d1 ∧ cases_evolve d d1 ∧ same_operations d d1 ∧ same_messaging d d1 ∧
  support_case_events d1 = support_case_events d ∧
  ∃ c', support_cases d1 !! c_case_id row = Some c' ∧ c_status c' = c_status row ∧
    c_priority c' = c_priority row ∧ (target = ft_dead → hr_provider_delivery_failed ∈ c_reason_codes c') ∧
    (∀ r, r ∈ c_reason_codes row → r ∈ c_reason_codes c').
Proof.
  intros Hd Hrow Hn. pose proof (cdb_schema d Hd) as Hs.
  destruct (bool_decide _ && bool_decide _) eqn:Eb.
  - apply andb_true_iff in Eb as [Ht Hnin]. apply bool_decide_eq_true in Ht, Hnin. intros H.
    apply commits_to_bind in H as (r & d2 & Hu & H).
    apply update_case_reasons_commits in Hu as [[-> ->]|(c & -> & Hc & _ & Hput)]; [inv_tx; done|].
    apply commits_to_raise_if in H as [_ ->]. rewrite Hrow in Hc. injection Hc as <-.
    pose proof (put_support_case_ok _ _ _ Hs Hput) as Hs1.
    pose proof (put_support_case_effect _ _ _ Hput) as E1. cbn in E1.
    set (row' := case_with_reasons row _ _ _ _) in *.
    assert (1 ≤ c_version row) as Hv.
    { pose proof (so_case_check d Hs _ row Hrow) as Hck. unfold support_cases_check, int4_ok in Hck.
      bools. lia. }
    assert (case_normal row') as Hn'.
    { apply case_with_reasons_normal; [done|by intros [_ ?]%app_nil|apply case_touched_later|lia]. }
    split_and!; [apply (case_db_ok_row d d2 row'); [done|done|by subst d2|by subst d2|done]| |by subst d2..|].
    + eapply (cases_evolve_rewrite d d2 row row'); [done|done|by subst|done|cbn; lia].
    + exists row'. subst d2. cbn. rewrite lookup_insert_eq. split_and!; [done..| |]; cbn; set_solver.
  - intros [_ ->]%commits_to_ret. split_and!; [done|unfold cases_evolve; reflexivity|done..|].
    exists row. split_and!; [done..| |done]. intros ->. rewrite bool_decide_eq_true_2 in Eb by done.
    cbn in Eb. apply bool_decide_eq_false in Eb. by apply dec_stable.
Qed.

Lemma finalize_case_cases claimed target result now d u d' :
  case_db_ok d → commits_to (finalize_case claimed target result now) d u d' →
  case_db_ok d' ∧ cases_evolve d d' ∧ same_operations d d' ∧ same_messaging d d' ∧
  investigation_updated claimed target d d'.
Proof.
  intros Hd H. pose proof (cdb_schema d Hd) as Hs. unfold finalize_case in H.
  apply commits_to_bind in H as (o & ? & [-> ->]%commits_to_select & H).
  destruct (support_cases d !! om_aggregate_id (cl_message claimed)) as [row|] eqn:Hrow;
    [|by apply commits_to_raise in H].
  pose proof (so_case_id d Hs _ row Hrow) as Hid. pose proof (cdb_cases d Hd _ row Hrow) as Hn.
  apply commits_to_bind in H as (c & ? & [Hc ->]%commits_to_lift & H).
  unfold case_normal in Hn. rewrite Hn in Hc. injection Hc as <-.
  apply commits_to_bind in H as (? & ? & [Hg ->]%commits_to_raise_if & H). bools.
  repeat match goal with H : ¬ (_ ≠ _) |- _ => apply dec_stable in H end.
  apply commits_to_bind in H as (? & d1 & Hrw & H). rewrite <- Hid in Hrow.
  destruct (finalize_case_row row target now d _ d1 Hd Hrow Hn Hrw)
    as (Hd1 & Hev & Hops & Hmsg & Hevs & c' & Hc' & Hst & Hpr & Hdead & Hkeep).
  apply commits_to_bind in H as (i & ? & ->%commits_to_uuid4 & H).
  apply commits_to_bind in H as (e & ? & [He ->]%commits_to_lift & H).
  apply commits_to_execute in H.
  pose proof (insert_case_event_ok _ _ _ (cdb_schema d1 Hd1) H) as Hs'.
  pose proof (SupportCaseEvent_validate_normal _ _ He) as Hen.
  apply SupportCaseEvent_validate_ok in He as (-> & _). apply insert_case_event_effect in H.
  split_and!.
  - by eapply case_db_ok_events; [exact Hd1|done|subst d'..|].
  - etrans; [exact Hev|]. apply cases_evolve_frame. by subst.
  - etrans; [exact Hops|]. by subst.
  - etrans; [exact Hmsg|]. by subst.
  - split.
    + exists row, c'. rewrite <- Hid. split_and!; try done. by subst d'.
    + eexists. subst d'. cbn. rewrite Hevs. split_and!; [reflexivity|done..|]. by destruct target.
Qed.

Lemma finalize_case_schema claimed target result now d u d' :
  schema_ok d → commits_to (finalize_case claimed target result now) d u d' →
  schema_ok d' ∧ same_operations d d' ∧ same_messaging d d'.
Proof.
  intros Hs H. unfold finalize_case in H.
  apply commits_to_bind in H as (o & ? & [-> ->]%commits_to_select & H).
  destruct (support_cases d !! _) as [row|]; [|by apply commits_to_raise in H].
  apply commits_to_bind in H as (c & ? & [_ ->]%commits_to_lift & H).
  apply commits_to_bind in H as (? & ? & [_ ->]%commits_to_raise_if & H).
  apply commits_to_bind in H as (? & d1 & Hrw & H).
  assert (schema_ok d1 ∧ same_operations d d1 ∧ same_messaging d d1) as (Hs1 & Ho & Hm).
  { destruct (bool_decide _ && bool_decide _) in Hrw; [|by apply commits_to_ret in Hrw as [_ ->]].
    apply commits_to_bind in Hrw as (r & d2 & Hu & Hrw). apply commits_to_raise_if in Hrw as [_ ->].
    apply update_case_reasons_commits in Hu as [[_ ->]|(? & _ & _ & _ & Hput)]; [done|].
    split; [by eapply put_support_case_ok|]. apply put_support_case_effect in Hput. by subst. }
  apply commits_to_bind in H as (i & ? & ->%commits_to_uuid4 & H).
  apply commits_to_bind in H as (e & ? & [_ ->]%commits_to_lift & H).
  apply commits_to_execute in H. split; [by eapply insert_case_event_ok|].
  apply insert_case_event_effect in H. split; (etrans; [done|by subst]).
Qed.

(** * Finalization *)

(** The aggregate's half of a finalization. *)
Definition finalize_aggregate (claimed : ClaimedOutboxMessage) (target : finalization_target)
    (result : option ProviderCommandResult) (fk : option ProviderFailureKind) (now : instant) : Tx unit :=
  match om_aggregate_type (cl_message claimed) with
  | ag_order_operation => finalize_operation claimed target result fk now
  | ag_support_case => finalize_case claimed target result now
  end.

Lemma finalize_aggregate_schema claimed target result fk now d u d' :
  schema_ok d → commits_to (finalize_aggregate claimed target result fk now) d u d' →
  schema_ok d' ∧ same_messaging d d'.
Proof.
  intros Hs H. unfold finalize_aggregate in H. destruct (om_aggregate_type _).
  - by destruct (finalize_operation_schema _ _ _ _ _ _ _ _ Hs H) as (? & ? & _).
  - by destruct (finalize_case_schema _ _ _ _ _ _ _ Hs H) as (? & _ & ?).
Qed.

Lemma within_aggregate_cases claimed target result fk now :
  tx_within cases_kept (finalize_aggregate claimed target result fk now).
Proof.
  intros d u d' H Hd. unfold finalize_aggregate in H. destruct (om_aggregate_type _).
  - by eapply finalize_operation_cases.
  - by destruct (finalize_case_cases _ _ _ _ _ _ _ Hd H) as (? & ? & _).
Qed.

Lemma within_aggregate_operations claimed target result fk now :
  tx_within operations_kept (finalize_aggregate claimed target result fk now).
Proof.
  intros d u d' H Hd. unfold finalize_aggregate in H. destruct (om_aggregate_type _).
  - destruct (finalize_operation_ops _ _ _ _ _ _ _ _ Hd H) as (? & ? & ? & ? & ? & _). done.
  - destruct (finalize_case_schema _ _ _ _ _ _ _ (odb_schema d Hd) H) as (Hs & Ho & (Em & _)).
    by eapply operations_kept_frame; [intros _|..].
Qed.

Lemma within_finalize_operation_inbox claimed target result fk now :
  tx_within same_inbox (finalize_operation claimed target result fk now).
Proof.
  unfold finalize_operation, ensure_technical_review_case, escalate_review_case, update_operation_where,
    update_case_reasons.
  tx_walk.
Qed.

Lemma within_aggregate_inbox claimed target result fk now :
  tx_within same_inbox (finalize_aggregate claimed target result fk now).
Proof.
  unfold finalize_aggregate. destruct (om_aggregate_type _); [apply within_finalize_operation_inbox|].
  unfold finalize_case, update_case_reasons. tx_walk.
Qed.

(** The fence: the message still carries the claimed lease, unexpired, and its attempt is
    open. *)
Record lease_current (claimed : ClaimedOutboxMessage) (t : instant) (m : OutboxMessage)
    (r : OutboxDeliveryAttempt) (d : database) : Prop := {
  lk_message : outbox_messages d !! om_command_id (cl_message claimed) = Some m;
  lk_processing : om_status m = ob_processing;
  lk_cycle : om_delivery_cycle m = om_delivery_cycle (cl_message claimed);
  lk_attempts : om_attempts_in_cycle m = om_attempts_in_cycle (cl_message claimed);
  lk_lease : om_lease_id m = om_lease_id (cl_message claimed) ∧
             om_lease_owner m = om_lease_owner (cl_message claimed);
  lk_unexpired : ∃ expires, om_lease_expires_at m = Some expires ∧ t < expires;
  lk_attempt : outbox_delivery_attempts d !! da_attempt_id (cl_attempt claimed) = Some r;
  lk_open : da_finished_at r = None ∧ da_command_id r = om_command_id (cl_message claimed) ∧
            da_delivery_cycle r = om_delivery_cycle (cl_message claimed) ∧
            da_attempt_number r = om_attempts_in_cycle (cl_message claimed) ∧
            Some (da_lease_id r) = om_lease_id (cl_message claimed) ∧
            Some (da_worker_id r) = om_lease_owner (cl_message claimed);
}.

Lemma lock_claimed_command_commits claimed d now d' :
  commits_to (lock_claimed_command claimed) d now d' →
  d' = d ∧ ∃ t m r, lease_current claimed t m r d ∧ t ≤ now.
Proof.
  intros H. unfold lock_claimed_command in H.
  apply commits_to_bind in H as (o & ? & [-> ->]%commits_to_select & H).
  apply commits_to_bind in H as (t & ? & ->%commits_to_clock & H).
  destruct (outbox_messages d !! _) as [m|] eqn:Hm; [|by apply commits_to_raise in H].
  apply commits_to_bind in H as (? & ? & [Hg ->]%commits_to_raise_if & H).
  apply commits_to_bind in H as (o & ? & [-> ->]%commits_to_select & H).
  destruct (outbox_delivery_attempts d !! _) as [r|] eqn:Hr; [|by apply commits_to_raise in H].
  apply commits_to_bind in H as (? & ? & [Hg' ->]%commits_to_raise_if & H).
  apply commits_to_ret in H as [-> ->]. split; [done|]. exists t, m, r. bools.
  repeat match goal with H : ¬ (_ ≠ _) |- _ => apply dec_stable in H end.
  split; [|lia]. split; try done.
  - destruct (om_lease_expires_at m) as [e|]; [|done]. exists e. split; [done|]. lia.
  - split_and!; try done. by apply eq_None_not_Some.
Qed.

Definition delivery_target (target : finalization_target) : OutboxDeliveryStatus :=
  match target with ft_published => ob_published | ft_dead => ob_dead end.

(** What the aggregate of a finalized command went through. *)
Definition aggregate_finalized (claimed : ClaimedOutboxMessage) (target : finalization_target)
    (fk : option ProviderFailureKind) (d d' : database) : Prop :=
  match om_aggregate_type (cl_message claimed) with
  | ag_order_operation => ∃ row row' es, operation_finalized target fk row row' es d d' ∧
      om_aggregate_id (cl_message claimed) = oo_operation_id row ∧
      om_tenant_id (cl_message claimed) = oo_tenant_id row
  | ag_support_case => investigation_updated claimed target d d'
  end.

(** One finalization: for the lease the message carries and before it expires, the aggregate
    moves, the attempt is finished and the message closed, together. *)
Record delivery_finalized (claimed : ClaimedOutboxMessage) (target : finalization_target)
    (fk : option ProviderFailureKind) (d d' : database) : Prop := {
  df_fenced : ∃ t m r m' r', lease_current claimed t m r d ∧
    outbox_messages d' = <[om_command_id m := m']> (outbox_messages d) ∧
    outbox_delivery_attempts d' = <[da_attempt_id r := r']> (outbox_delivery_attempts d) ∧
    om_status m' = delivery_target target ∧ om_lease_id m' = None ∧ message_advances m m' ∧
    da_outcome r' = Some (delivery_outcome target fk) ∧ is_Some (da_finished_at r');
  df_deliveries : provider_deliveries d' = provider_deliveries d;
  df_aggregate : aggregate_finalized claimed target fk d d';
}.

Lemma aggregate_finalized_frame claimed target fk d d1 d' :
  aggregate_finalized claimed target fk d d1 → same_domain d1 d' →
  aggregate_finalized claimed target fk d d'.
Proof.
  unfold aggregate_finalized. intros H (E1 & E2 & E3 & E4 & _). destruct (om_aggregate_type _).
  - destruct H as (row & row' & es & [] & ? & ?). exists row, row', es. split_and!; try done.
    split; rewrite ?E1, ?E3, ?E4; done.
  - destruct H. split; by rewrite ?E1, ?E2.
Qed.

Lemma finalize_tx_steps claimed target result fk ec em l w d u d' :
  commits_to (finalize_tx claimed target result fk ec em l w) d u d' →
  ∃ t m r now d1 d2, lease_current claimed t m r d ∧
    commits_to (finalize_aggregate claimed target result fk now) d tt d1 ∧
    commits_to (finish_delivery_attempt (da_attempt_id (cl_attempt claimed))
      (om_command_id (cl_message claimed)) l w now (delivery_outcome target fk) fk
      None (result ≫= pr_provider_operation_id) (result ≫= pr_provider_reference) ec em None None)
      d1 1 d2 ∧
    commits_to (update_outbox_transition (om_command_id (cl_message claimed)) ob_processing (Some l)
      (Some w) (delivery_target target) now None (if bool_decide (target = ft_published) then Some now else None)
      (if bool_decide (target = ft_dead) then Some now else None) fk ec em) d2 1 d'.
Proof.
  intros H. unfold finalize_tx in H.
  apply commits_to_bind in H as (now & ? & Hl & H).
  apply lock_claimed_command_commits in Hl as (-> & t & m & r & Hcur & _).
  apply commits_to_bind in H as ([] & d1 & Hagg & H).
  apply commits_to_bind in H as (n & d2 & Hfin & H).
  apply commits_to_bind in H as (? & ? & [Hn ->]%commits_to_raise_if & H).
  apply commits_to_bind in H as (n' & d3 & Hup & H). apply commits_to_raise_if in H as [Hn' ->].
  apply negb_false_iff, Z.eqb_eq in Hn, Hn'. subst n n'.
  exists t, m, r, now, d1, d2. done.
Qed.

Lemma finalize_tx_commits claimed target result fk ec em l w d u d' :
  system_ok d → om_lease_id (cl_message claimed) = Some l → om_lease_owner (cl_message claimed) = Some w →
  commits_to (finalize_tx claimed target result fk ec em l w) d u d' →
  delivery_finalized claimed target fk d d'.
Proof.
  intros [Hc Ho Hb] Hl Hw H. apply finalize_tx_steps in H as (t & m & r & now & d1 & d2 & Hcur & Hagg & Hf & Hu).
  destruct (finalize_aggregate_schema _ _ _ _ _ _ _ _ (ob_schema d Hb) Hagg) as [Hs1 Hmsg1].
  assert (outbox_ok d1) as Hb1 by (by eapply outbox_kept_frame; [intros _; exact Hs1|exact Hmsg1|]).
  destruct (closing_statements _ _ _ _ _ _ _ _ _ _ _ _ _ _ _ _ _ _ _ _ _ _ _ _ _ Hb1 Hf Hu)
    as (m1 & m' & a & Hclosed & Hs' & Hid & Hai & Hal & Haw & Hm'); [by destruct target|].
  destruct Hmsg1 as (Em & Ea & Ep & _).
  assert (m1 = m) as ->.
  { pose proof (lc_message _ _ _ _ _ _ Hclosed) as Hx. rewrite Hid, Em, (lk_message _ _ _ _ _ Hcur) in Hx.
    by injection Hx. }
  assert (a = r) as ->.
  { pose proof (lc_attempt _ _ _ _ _ _ Hclosed) as Hx. rewrite Hai, Ea, (lk_attempt _ _ _ _ _ Hcur) in Hx.
    by injection Hx. }
  split.
  - eexists t, m, r, m', _. split_and!; [done| | |by subst m'; destruct target|by subst m'|apply Hclosed|..].
    + rewrite <- Em. apply Hclosed.
    + rewrite <- Ea. apply Hclosed.
    + done.
    + by eexists.
  - rewrite <- Ep. apply Hclosed.
  - eapply aggregate_finalized_frame; [|apply Hclosed].
    unfold finalize_aggregate, aggregate_finalized in *. destruct (om_aggregate_type _).
    + destruct (finalize_operation_ops _ _ _ _ _ _ _ _ Ho Hagg) as (row & row' & es & ? & ? & ? & ? & ?).
      by exists row, row', es.
    + by destruct (finalize_case_cases _ _ _ _ _ _ _ Hc Hagg) as (? & ? & ? & ? & ?).
Qed.

Lemma within_finish_attempt i k l w at_ outc fk hs poi pr ec em ra na :
  tx_within messaging_step (finish_delivery_attempt i k l w at_ outc fk hs poi pr ec em ra na).
Proof. unfold finish_delivery_attempt. tx_walk. Qed.
Lemma within_outbox_transition k st l w target t av pub dead fk ec em :
  tx_within messaging_step (update_outbox_transition k st l w target t av pub dead fk ec em).
Proof. unfold update_outbox_transition. tx_walk. Qed.
#[export] Hint Resolve within_finish_attempt within_outbox_transition : within.

(** A messaging step is one of every component. *)
Lemma within_cases {A} (t : Tx A) : tx_within messaging_step t → tx_within cases_kept t.
Proof. intros H d a d' Hc. by eapply messaging_step_cases, H. Qed.
Lemma within_operations {A} (t : Tx A) : tx_within messaging_step t → tx_within operations_kept t.
Proof. intros H d a d' Hc. by eapply messaging_step_operations, H. Qed.
Lemma within_schema {A} (t : Tx A) : tx_within messaging_step t → tx_within schema_kept t.
Proof. intros H d a d' Hc. by eapply messaging_step_schema, H. Qed.

Lemma finalize_tx_steady claimed target result fk ec em l w :
  tx_within steady (finalize_tx claimed target result fk ec em l w).
Proof.
  intros d u d' H. apply finalize_tx_steps in H as (t & m & r & now & d1 & d2 & _ & Hagg & Hf & Hu).
  pose proof (within_finish_attempt _ _ _ _ _ _ _ _ _ _ _ _ _ _ _ _ _ Hf) as S1.
  pose proof (within_outbox_transition _ _ _ _ _ _ _ _ _ _ _ _ _ _ _ Hu) as S2.
  assert (messaging_step d1 d') as S by (by etrans). split.
  - intros Hs. destruct (finalize_aggregate_schema _ _ _ _ _ _ _ _ Hs Hagg) as [Hs1 _].
    by apply (messaging_step_schema _ _ S).
  - etrans; [by eapply within_aggregate_cases|by apply messaging_step_cases].
  - etrans; [by eapply within_aggregate_operations|by apply messaging_step_operations].
  - intros Hb. destruct (finalize_aggregate_schema _ _ _ _ _ _ _ _ (ob_schema d Hb) Hagg) as [Hs1 Hm1].
    destruct (outbox_kept_frame d d1 (λ _, Hs1) Hm1 Hb) as [Hb1 Hev1].
    destruct (closing_statements _ _ _ _ _ _ _ _ _ _ _ _ _ _ _ _ _ _ _ _ _ _ _ _ _ Hb1 Hf Hu)
      as (m1 & m' & a & Hclosed & Hs' & _ & _ & _ & _ & Hm'); [by destruct target|].
    split; [eapply lease_closed_ok; [exact Hclosed|by subst m'; destruct target|done..]|].
    etrans; [exact Hev1|]. by eapply lease_closed_evolves.
  - etrans; [by eapply inbox_kept_frame, within_aggregate_inbox|by apply messaging_step_inbox].
Qed.

(** A messaging transaction that keeps the outbox keeps everything. *)
Lemma steady_messaging {A} (t : Tx A) :
  tx_within messaging_step t → tx_within outbox_kept t → tx_within steady t.
Proof.
  intros Hm Hb d a d' H. split; [by eapply within_schema|by eapply within_cases|
    by eapply within_operations|by eapply Hb|by eapply messaging_step_inbox, Hm].
Qed.

(** * Claiming *)

Lemma claim_steady locked worker_id batch lease :
  tx_within steady (claim_tx locked worker_id batch lease).
Proof.
  apply steady_messaging; [unfold claim_tx, claim_row; tx_walk|].
  intros d cs d' H Hd. by destruct (claim_due_commits _ _ _ _ _ _ _ Hd H) as (ms & []).
Qed.

(** * Renewal *)

(** A lease is prolonged only while it runs. *)
Lemma renew_tx_commits k l w lease d b d' :
  commits_to (renew_tx k l w lease) d b d' →
  (b = false ∧ d' = d) ∨
  b = true ∧ ∃ t t1 t2 m, outbox_messages d !! k = Some m ∧ holds_lease l w t m = true ∧
    put_outbox_message (renewed_row m (t1 + lease) t2) d = PgOk d'.
Proof.
  intros H. unfold renew_tx in H. apply commits_to_bind in H as (t & ? & ->%commits_to_clock & H).
  apply commits_to_bind in H as (t1 & ? & ->%commits_to_clock & H).
  apply commits_to_bind in H as (t2 & ? & ->%commits_to_clock & H).
  apply commits_to_bind in H as (r & d1 & Hu & H). apply commits_to_ret in H as [-> ->].
  apply update_outbox_commits in Hu as [[-> ->]|(m & -> & Hm & Hw & Hput)]; [by left|].
  right. split; [done|]. by exists t, t1, t2, m.
Qed.

Lemma renew_steady k l w lease : tx_within steady (renew_tx k l w lease).
Proof.
  apply steady_messaging; [unfold renew_tx; tx_walk|].
  intros d b d' [[_ ->]|(_ & t & t1 & t2 & m & Hm & _ & Hput)]%renew_tx_commits Hd.
  { split; [done|reflexivity]. }
  pose proof (outbox_id d k m Hd Hm) as Hk.
  pose proof (put_outbox_message_ok _ _ _ (ob_schema d Hd) Hput) as Hs.
  apply put_outbox_message_effect in Hput as [-> _]. cbn in *. rewrite Hk in *.
  split; [by eapply (outbox_ok_touch d _ k m)|]. eapply outbox_evolve_insert; [exact Hm|done| |done].
  split; [done|]. split; [done|]. right. split_and!; [done|cbn; lia|]. constructor.
Qed.

(** * Retry *)

(** The retry of a leased message with attempts left: attempt finished, message waiting until
    [at_]. *)
Record delivery_rescheduled (k l : uuid) (w : string) (i : uuid) (kind : ProviderFailureKind)
    (at_ : instant) (d d' : database) : Prop := {
  dr_closed : ∃ m m' a a', lease_closed m m' a a' d d' ∧ om_command_id m = k ∧
    da_attempt_id a = i ∧ da_lease_id a = l ∧ da_worker_id a = w ∧ om_attempts_in_cycle m < 8 ∧
    om_status m' = ob_retry_scheduled ∧ om_available_at m' = at_ ∧ om_lease_id m' = None ∧
    da_outcome a' = Some da_retry_scheduled ∧ da_failure_kind a' = Some kind;
}.

Lemma retry_tx_commits k l w i kind ec em ra at_ hs d u d' :
  outbox_ok d → commits_to (retry_tx k l w i kind ec em ra at_ hs) d u d' →
  outbox_ok d' ∧ delivery_rescheduled k l w i kind at_ d d'.
Proof.
  intros Hd H. unfold retry_tx in H.
  apply commits_to_bind in H as (o & ? & [-> ->]%commits_to_select & H).
  destruct (outbox_messages d !! k) as [m|] eqn:Hm; [|by apply commits_to_raise in H].
  apply commits_to_bind in H as (? & ? & [_ ->]%commits_to_raise_if & H).
  apply commits_to_bind in H as (? & ? & [_ ->]%commits_to_raise_if & H).
  apply commits_to_bind in H as (? & ? & [_ ->]%commits_to_raise_if & H).
  apply commits_to_bind in H as (? & ? & [Hat ->]%commits_to_raise_if & H).
  apply commits_to_bind in H as (t & ? & ->%commits_to_clock & H).
  apply commits_to_bind in H as (n & d1 & Hf & H).
  apply commits_to_bind in H as (? & ? & [Hn ->]%commits_to_raise_if & H).
  apply commits_to_bind in H as (n' & d2 & Hu & H). apply commits_to_raise_if in H as [Hn' ->].
  apply negb_false_iff, Z.eqb_eq in Hn, Hn'. subst n n'.
  destruct (closing_statements _ _ _ _ _ _ _ _ _ _ _ _ _ _ _ _ _ _ _ _ _ _ _ _ _ Hd Hf Hu)
    as (m1 & m' & a & Hclosed & Hs' & Hid & Hai & Hal & Haw & Hm'); [done|].
  assert (m1 = m) as ->.
  { pose proof (lc_message _ _ _ _ _ _ Hclosed) as Hx. rewrite Hid, Hm in Hx. by injection Hx. }
  split; [by eapply lease_closed_ok; [exact Hclosed|subst m'..]|]. split.
  eexists m, m', a, _. split_and!; [exact Hclosed|done..|lia| | | | |]; by subst m'.
Qed.

(** When a rescheduled message is due, and when that was written down. *)
Definition rescheduled_at (k : uuid) (due written : instant) (d d' : database) : Prop :=
  ∃ m m', outbox_messages d !! k = Some m ∧ outbox_messages d' !! k = Some m' ∧ om_available_at m' = due ∧
    om_updated_at m' = greatest3 written (om_updated_at m) (om_created_at m).

Lemma retry_tx_reads amb n k l w i kind ec em ra at_ hs d u d' n' :
  outbox_ok d → retry_tx k l w i kind ec em ra at_ hs amb d n = (Committed u d', n') →
  rescheduled_at k at_ (clock amb n) d d'.
Proof.
  intros Hd H. unfold retry_tx in H.
  apply tx_bind_committed in H as (o & ? & ? & [= <- <- <-] & H).
  destruct (outbox_messages d !! k) as [m|] eqn:Hm; [|done].
  do 4 apply tx_bind_committed in H as (? & ? & ? & (_ & -> & ->)%tx_raise_if_committed & H).
  apply tx_bind_committed in H as (t & ? & ? & [= <- <- <-] & H).
  apply tx_bind_committed in H as (rows1 & d1 & ? & Hf & H).
  apply tx_bind_committed in H as (? & ? & ? & (Hn & -> & ->)%tx_raise_if_committed & H).
  apply tx_bind_committed in H as (rows2 & d2 & ? & Hu & H). apply tx_raise_if_committed in H as (Hn' & -> & _).
  apply negb_false_iff, Z.eqb_eq in Hn, Hn'. subst rows1 rows2.
  destruct (closing_statements _ _ _ _ _ _ _ _ _ _ _ _ _ _ _ _ _ _ _ _ _ _ _ _ _ Hd
      (ex_intro _ _ (ex_intro _ _ (ex_intro _ _ Hf))) (ex_intro _ _ (ex_intro _ _ (ex_intro _ _ Hu))))
    as (m1 & m' & a & Hclosed & _ & Hid & _ & _ & _ & Hm'); [done|].
  assert (m1 = m) as ->.
  { pose proof (lc_message _ _ _ _ _ _ Hclosed) as Hx. rewrite Hid, Hm in Hx. by injection Hx. }
  exists m, m'. split; [done|]. split; [rewrite (lc_messages _ _ _ _ _ _ Hclosed), Hid; apply lookup_insert_eq|].
  by subst m'.
Qed.

Lemma retry_steady k l w i kind ec em ra at_ hs : tx_within steady (retry_tx k l w i kind ec em ra at_ hs).
Proof.
  apply steady_messaging; [unfold retry_tx; tx_walk|].
  intros d u d' H Hd. destruct (retry_tx_commits _ _ _ _ _ _ _ _ _ _ _ _ _ Hd H) as [Hd' [(m & m' & a & a' & Hc & _)]].
  split; [done|]. by eapply lease_closed_evolves.
Qed.
