(* ===== verification/RecoverySafety.v ===== *)
(** What recovering expired leases commits: each expired message leaves its dead worker's
    lease, for another attempt or, when the attempts of the cycle are used up, for a human. *)
From S2P Require Import Prelude Effects OperationModels CaseModels CasePolicy Envelope Retry Database Transactions Messaging CaseRepository CaseService CaseSafety OperationRepository OperationService OperationSafety OutboxWrites Finalization OutboxRepository OutboxSafety OutboxTransactions FinalizationSafety Steady DeliverySafety.

(** * One row *)

Lemma open_attempts_spec k l d a :
  a ∈ open_attempts k l d ↔
  (∃ i, outbox_delivery_attempts d !! i = Some a) ∧ da_command_id a = k ∧ Some (da_lease_id a) = l ∧
  da_finished_at a = None.
Proof. unfold open_attempts. rewrite list_elem_of_filter, elem_of_rows. naive_solver. Qed.

(** Where the message goes. *)
Definition recovery_target (attempts : Z) : OutboxDeliveryStatus :=
  if attempts <? 8 then ob_retry_scheduled else ob_dead.

(** The aggregate of an exhausted command: the operation is handed to a human. *)
Definition exhaustion_handled (row : OutboxMessage) (d d1 : database) : Prop :=
  if (8 <=? om_attempts_in_cycle row) && bool_decide (om_aggregate_type row = ag_order_operation)
  then ∃ claimed payload now, cl_message claimed = OutboxMessage_strip (with_payload row payload) ∧
         commits_to (finalize_operation claimed ft_dead None None now) d tt d1
  else d1 = d.

Record row_recovered (row : OutboxMessage) (d d1 d' : database) : Prop := {
  rr_aggregate : exhaustion_handled row d d1;
  rr_messaging : same_messaging d d1;
  rr_closed : ∃ m m' a a', lease_closed m m' a a' d1 d' ∧ schema_ok d' ∧
    om_command_id m = om_command_id row ∧ om_lease_id m = om_lease_id row ∧
    om_status m' = recovery_target (om_attempts_in_cycle row) ∧ om_lease_id m' = None ∧
    da_outcome a' = Some da_lease_expired;
}.

Lemma exhaustion_schema row d d1 :
  schema_ok d → exhaustion_handled row d d1 → schema_ok d1 ∧ same_messaging d d1.
Proof.
  unfold exhaustion_handled. intros Hs. destruct (_ && _); [|by intros ->].
  intros (c & p & now & _ & H). by destruct (finalize_operation_schema _ _ _ _ _ _ _ _ Hs H) as (? & ? & _).
Qed.

Lemma recover_row_commits row d u d' :
  outbox_ok d → commits_to (recover_row row) d u d' → ∃ d1, row_recovered row d d1 d'.
Proof.
  intros Hd H. unfold recover_row in H.
  apply commits_to_bind in H as (o & ? & [-> ->]%commits_to_select & H).
  destruct (head _) as [a0|]; [|by apply commits_to_raise in H].
  apply commits_to_bind in H as (now & ? & ->%commits_to_clock & H). cbv zeta in H.
  set (enow := Z.max _ _) in H.
  apply commits_to_bind in H as ([] & d1 & Hagg & H).
  assert (exhaustion_handled row d d1) as Hex.
  { unfold exhaustion_handled. destruct (_ && _); [|by apply commits_to_ret in Hagg as [_ ->]].
    apply commits_to_bind in Hagg as (msg & ? & [_ ->]%commits_to_lift & Hagg).
    apply commits_to_bind in Hagg as (att & ? & [_ ->]%commits_to_lift & Hagg).
    apply commits_to_bind in Hagg as (c & ? & [Hc ->]%commits_to_lift & Hagg).
    apply ClaimedOutboxMessage_validate_ok in Hc as (-> & _).
    eexists _, _, enow. split; [|exact Hagg]. reflexivity. }
  destruct (exhaustion_schema row d d1 (ob_schema d Hd) Hex) as [Hs1 Hmsg].
  destruct (outbox_kept_frame d d1 (λ _, Hs1) Hmsg Hd) as [Hd1 _]. exists d1.
  apply commits_to_bind in H as (l & ? & [-> ->]%commits_to_select & H).
  apply commits_to_bind in H as (? & d2 & Hput & H).
  destruct (open_attempts _ _ d1) as [|a [|]] eqn:Hopen; try by apply commits_to_raise in Hput.
  apply commits_to_execute in Hput.
  assert (a ∈ open_attempts (om_command_id row) (om_lease_id row) d1) as Ha by (rewrite Hopen; set_solver).
  apply open_attempts_spec in Ha as ([i Hi] & Hak & Hal & Hopn).
  pose proof (so_attempt_id d1 Hs1 i a Hi) as Hai.
  apply commits_to_bind in H as (t1 & ? & ->%commits_to_clock & H).
  apply commits_to_bind in H as (t2 & ? & ->%commits_to_clock & H).
  apply commits_to_bind in H as (r & d3 & Hu & H). apply commits_to_ret in H as [_ ->].
  destruct (ob_open d1 Hd1 i a Hi Hopn) as (m & Hm & Hfit). rewrite Hak in Hm.
  pose proof (outbox_id d1 _ m Hd1 Hm) as Hmk.
  pose proof (put_delivery_attempt_ok _ _ _ Hs1 Hput) as Hs2.
  apply put_delivery_attempt_effect in Hput. cbn in Hput.
  eapply (update_outbox_matches _ _ _ _ _ _ m) in Hu; [|by subst d2|done].
  set (m' := if om_attempts_in_cycle row <? 8 then recovered_row m t1 t2 else exhausted_row m t1 t2) in Hu.
  pose proof (put_outbox_message_ok _ _ _ Hs2 Hu) as Hs3. apply put_outbox_message_effect in Hu as [Hd3 _].
  assert (om_command_id m' = om_command_id m ∧ om_lease_id m' = None ∧
    om_status m' = recovery_target (om_attempts_in_cycle row) ∧ envelope_of m' = envelope_of m ∧
    om_capability m' = om_capability m ∧ om_delivery_cycle m' = om_delivery_cycle m ∧
    om_attempts_in_cycle m' = om_attempts_in_cycle m) as (Hk' & Hl' & Hst' & He' & Hc' & Hcy' & Hn').
  { subst m'. unfold recovery_target. by case_match. }
  split; [done..|]. eexists m, m', a, (expired_attempt a enow (if om_attempts_in_cycle row <? 8
    then "lease_expired" else "lease_expired_attempts_exhausted")).
  split_and!; [|done|done| |done|done|done].
  - assert (om_status m = ob_processing) as Hproc by apply Hfit.
    subst d2. cbn in Hd3. split; rewrite ?Hmk; try done; rewrite ?Hd3; try done.
    + by rewrite Hai.
    + cbn. by rewrite Hk', Hmk.
    + split_and!; [done..|]. right. split_and!; [done|lia|]. apply rtc_once. rewrite Hst', Hproc.
      unfold recovery_target. by case_match.
  - destruct Hfit as (_ & _ & -> & _). done.
Qed.

(** * The components *)

(** The statements after the aggregate's. *)
Lemma recover_row_parts row d u d' :
  commits_to (recover_row row) d u d' →
  ∃ d1, (d1 = d ∨ ∃ claimed now, commits_to (finalize_operation claimed ft_dead None None now) d tt d1) ∧
        messaging_step d1 d'.
Proof.
  intros H. unfold recover_row in H.
  apply commits_to_bind in H as (o & ? & [-> ->]%commits_to_select & H).
  destruct (head _) as [a0|]; [|by apply commits_to_raise in H].
  apply commits_to_bind in H as (now & ? & ->%commits_to_clock & H). cbv zeta in H.
  apply commits_to_bind in H as ([] & d1 & Hagg & H). exists d1. split.
  - destruct (_ && _); [|apply commits_to_ret in Hagg as [_ ->]; by left]. right.
    apply commits_to_bind in Hagg as (msg & ? & [_ ->]%commits_to_lift & Hagg).
    apply commits_to_bind in Hagg as (att & ? & [_ ->]%commits_to_lift & Hagg).
    apply commits_to_bind in Hagg as (c & ? & [_ ->]%commits_to_lift & Hagg). eauto.
  - match type of H with commits_to ?t _ _ _ => assert (tx_within messaging_step t) as Hw by tx_walk end.
    by apply Hw in H.
Qed.

Lemma recover_row_steady row : tx_within steady (recover_row row).
Proof.
  intros d u d' H. pose proof (recover_row_parts _ _ _ _ H) as (d1 & Hfin & Hm). split.
  - etrans; [|by apply messaging_step_schema]. destruct Hfin as [->|(c & now & Hf)]; [done|].
    intros Hs. by destruct (finalize_operation_schema _ _ _ _ _ _ _ _ Hs Hf).
  - etrans; [|by apply messaging_step_cases]. destruct Hfin as [->|(c & now & Hf)]; [reflexivity|].
    intros Hd. by eapply finalize_operation_cases.
  - etrans; [|by apply messaging_step_operations]. destruct Hfin as [->|(c & now & Hf)]; [reflexivity|].
    intros Hd. by destruct (finalize_operation_ops _ _ _ _ _ _ _ _ Hd Hf) as (? & ? & ? & ? & ? & _).
  - intros Hd. destruct (recover_row_commits _ _ _ _ Hd H) as (d2 & [Hex Hmsg (m & m' & a & a' & Hc & Hs' & _ & _ & Hst & _)]).
    destruct (exhaustion_schema _ _ _ (ob_schema d Hd) Hex) as [Hs2 _].
    destruct (outbox_kept_frame d d2 (λ _, Hs2) Hmsg Hd) as [Hd2 Hev].
    split; [eapply lease_closed_ok; [exact Hc| |done..]|etrans; [exact Hev|by eapply lease_closed_evolves]].
    rewrite Hst. unfold recovery_target. by case_match.
  - etrans; [|by apply messaging_step_inbox]. destruct Hfin as [->|(c & now & Hf)]; [reflexivity|].
    by eapply inbox_kept_frame, within_finalize_operation_inbox.
Qed.

Lemma recover_steady locked batch : tx_within steady (recover_tx locked batch).
Proof.
  unfold recover_tx. apply within_bind; [apply _| |].
  { apply within_execute. intros d d' H. inv_pg. reflexivity. }
  intros _. apply within_bind; [apply _|auto with within|]. intros now.
  apply within_bind; [apply _|auto with within|]. intros sel.
  apply within_bind; [apply _| |auto with within]. apply within_for; [apply _|].
  apply recover_row_steady.
Qed.

(** * The batch *)

(** A batch of recoveries: the selected rows, all expired, are closed; nothing else of the
    outbox changes, and nothing is sent. *)
Record recovered (batch : Z) (rows : list OutboxMessage) (d d' : database) : Prop := {
  rv_expired : ∃ t, Forall (λ m, lease_expired t m = true ∧
                 outbox_messages d !! om_command_id m = Some m) rows;
  rv_distinct : NoDup (om_command_id <$> rows);
  rv_bounded : (length rows ≤ Z.to_nat batch)%nat;
  rv_closed : Forall (λ m, ∃ m', outbox_messages d' !! om_command_id m = Some m' ∧
                om_status m' = recovery_target (om_attempts_in_cycle m) ∧ om_lease_id m' = None ∧
                message_advances m m') rows;
  rv_handed : Forall (λ m, 8 ≤ om_attempts_in_cycle m → om_aggregate_type m = ag_order_operation →
                ∃ o, order_operations d' !! om_aggregate_id m = Some o ∧
                  oo_status o = os_manual_review ∧ is_Some (oo_support_case_id o)) rows;
  rv_others : ∀ k, k ∉ om_command_id <$> rows → outbox_messages d' !! k = outbox_messages d !! k;
  rv_deliveries : provider_deliveries d' = provider_deliveries d;
}.

(** The operation is in the hands of a human. *)
Definition handed_over (i : uuid) (d : database) : Prop :=
  ∃ o, order_operations d !! i = Some o ∧ oo_status o = os_manual_review ∧
       is_Some (oo_support_case_id o).

Lemma recover_row_stored row d u d' :
  op_db_ok d → outbox_ok d → outbox_messages d !! om_command_id row = Some row →
  commits_to (recover_row row) d u d' →
  (∃ m', outbox_messages d' = <[om_command_id row := m']> (outbox_messages d) ∧
     om_status m' = recovery_target (om_attempts_in_cycle row) ∧ om_lease_id m' = None ∧
     message_advances row m') ∧
  provider_deliveries d' = provider_deliveries d ∧
  (∀ i, handed_over i d → handed_over i d') ∧
  (8 ≤ om_attempts_in_cycle row → om_aggregate_type row = ag_order_operation →
   handed_over (om_aggregate_id row) d').
Proof.
  intros Ho Hd Hrow H.
  destruct (recover_row_commits _ _ _ _ Hd H) as (d1 & [Hex Hmsg (m & m' & a & a' & Hc & _ & Hid & _ & Hst & Hl & _)]).
  destruct Hmsg as (Em & _ & Ep & _).
  assert (m = row) as ->.
  { pose proof (lc_message _ _ _ _ _ _ Hc) as Hx. rewrite Hid, Em, Hrow in Hx. by injection Hx. }
  destruct (lc_domain _ _ _ _ _ _ Hc) as (_ & _ & Eo & _ & _). split; [|split_and!].
  - exists m'. split; [|split_and!; [done..|apply Hc]]. rewrite <- Em. apply Hc.
  - rewrite <- Ep. apply Hc.
  - intros i (o & Hi & Hs & Hsc). exists o. rewrite Eo. split; [|done].
    unfold exhaustion_handled in Hex. destruct (_ && _) eqn:Hb; [|by subst d1].
    destruct Hex as (cl & p & now & _ & Hf).
    destruct (finalize_operation_ops _ _ _ _ _ _ _ _ Ho Hf) as (r & r' & es & _ & _ & _ & _ & Hof).
    rewrite (of_rows _ _ _ _ _ _ _ Hof), lookup_insert_ne; [done|]. intros <-.
    pose proof (of_before _ _ _ _ _ _ _ Hof) as Hx. pose proof (of_queued _ _ _ _ _ _ _ Hof). congruence.
  - intros Hn Hty. unfold exhaustion_handled in Hex. rewrite bool_decide_eq_true_2 in Hex by done.
    replace (8 <=? om_attempts_in_cycle row) with true in Hex by lia. cbn [andb] in Hex.
    destruct Hex as (cl & p & now & Ecl & Hf).
    destruct (finalize_operation_ops _ _ _ _ _ _ _ _ Ho Hf) as (r & r' & es & _ & _ & Hag & _ & Hof).
    exists r'. rewrite Eo, (of_rows _ _ _ _ _ _ _ Hof). rewrite Ecl in Hag. cbn in Hag.
    rewrite <- Hag, lookup_insert_eq. split; [done|]. split; [apply (of_status _ _ _ _ _ _ _ Hof)|].
    destruct (of_handoff _ _ _ _ _ _ _ Hof eq_refl) as (_ & _ & i & -> & _). by eexists.
Qed.

Lemma recover_loop_commits ms d us d' :
  op_db_ok d → outbox_ok d → NoDup (om_command_id <$> ms) →
  Forall (λ m, outbox_messages d !! om_command_id m = Some m) ms →
  commits_to (tx_for recover_row ms) d us d' →
  Forall (λ m, ∃ m', outbox_messages d' !! om_command_id m = Some m' ∧
    om_status m' = recovery_target (om_attempts_in_cycle m) ∧ om_lease_id m' = None ∧
    message_advances m m') ms ∧
  Forall (λ m, 8 ≤ om_attempts_in_cycle m → om_aggregate_type m = ag_order_operation →
    handed_over (om_aggregate_id m) d') ms ∧
  (∀ k, k ∉ om_command_id <$> ms → outbox_messages d' !! k = outbox_messages d !! k) ∧
  provider_deliveries d' = provider_deliveries d ∧ length us = length ms ∧
  (∀ i, handed_over i d → handed_over i d').
Proof.
  revert d us d'. induction ms as [|m ms IH]; intros d us d' Ho Hd Hnd Hms H; cbn in H.
  { apply commits_to_ret in H as [-> ->]. by split_and!. }
  apply commits_to_bind in H as (u & d1 & H1 & H). apply commits_to_bind in H as (us' & d2 & H2 & H).
  apply commits_to_ret in H as [-> ->].
  apply NoDup_cons in Hnd as [Hnm Hnd]. apply Forall_cons in Hms as [Hm Hms].
  destruct (recover_row_stored _ _ _ _ Ho Hd Hm H1) as ((m' & Em & Hst & Hl & Hadv) & Ep & Hkeep & Hnew).
  destruct (st_operations _ _ (recover_row_steady m _ _ _ H1) Ho) as [Ho1 _].
  destruct (st_outbox _ _ (recover_row_steady m _ _ _ H1) Hd) as [Hd1 _].
  destruct (IH d1 us' d2 Ho1 Hd1 Hnd) as (F1 & F2 & F3 & F4 & F5 & F6); [|done|].
  { rewrite Forall_forall in *. intros x Hx. rewrite Em, lookup_insert_ne; [by apply Hms|].
    intros E. destruct Hnm. apply list_elem_of_fmap. by exists x. }
  split_and!.
  - constructor; [|done]. exists m'. by rewrite (F3 _ Hnm), Em, lookup_insert_eq.
  - constructor; [|done]. auto.
  - intros k Hk. cbn in Hk. apply not_elem_of_cons in Hk as [Hk1 Hk2].
    by rewrite (F3 _ Hk2), Em, lookup_insert_ne.
  - congruence.
  - cbn. congruence.
  - auto.
Qed.

Lemma expired_rows_facts locked batch t d :
  schema_ok d → NoDup (om_command_id <$> expired_rows locked batch t d) ∧
  (length (expired_rows locked batch t d) ≤ Z.to_nat batch)%nat ∧
  Forall (λ m, lease_expired t m = true ∧ outbox_messages d !! om_command_id m = Some m)
    (expired_rows locked batch t d).
Proof.
  intros Hs. unfold expired_rows. split_and!.
  - rewrite fmap_take. eapply sublist_NoDup; [|apply sublist_take].
    apply NoDup_fmap_filter, rows_keys_NoDup. apply (so_outbox_id d Hs).
  - rewrite length_take. lia.
  - apply Forall_forall. intros m (i & Hi & _)%elem_of_take. apply list_elem_of_lookup_2 in Hi.
    apply list_elem_of_filter in Hi as [[He _] Hr]. split; [done|].
    apply elem_of_rows in Hr as [k Hk]. by pose proof (so_outbox_id d Hs k m Hk) as <-.
Qed.

Lemma recover_tx_commits locked batch d n d' :
  op_db_ok d → outbox_ok d → commits_to (recover_tx locked batch) d n d' →
  ∃ rows, recovered batch rows d d' ∧ n = Z.of_nat (length rows).
Proof.
  intros Ho Hd H. unfold recover_tx in H.
  apply commits_to_bind in H as (? & d0 & Hb%commits_to_execute & H). inv_pg.
  apply commits_to_bind in H as (t & ? & ->%commits_to_clock & H).
  apply commits_to_bind in H as (rows & ? & [Hr ->]%commits_to_select & H).
  apply commits_to_bind in H as (us & d1 & Hl & H). apply commits_to_ret in H as [-> ->].
  destruct (expired_rows_facts locked batch t d0 (ob_schema _ Hd)) as (Hnd & Hlen & Hex).
  rewrite <- Hr in Hnd, Hlen, Hex.
  apply recover_loop_commits in Hl as (F1 & F2 & F3 & F4 & F5 & _); [|done..|].
  - exists rows. split; [|by rewrite F5]. split; try done. by exists t.
  - eapply Forall_impl; [exact Hex|]. naive_solver.
Qed.
