(* ===== verification/WorkerSafety.v ===== *)
(** The outbox worker under interference: every transaction of a run is steady, the provider
    only receives stored commands, and the counters of a run tell what was committed. *)
From S2P Require Import Prelude Effects OperationModels CaseModels Envelope Retry Connections Database Transactions Messaging CaseRepository CaseSafety OperationRepository OperationService OperationSafety OutboxWrites Finalization OutboxRepository OutboxSafety OutboxTransactions FinalizationSafety Steady DeliverySafety RecoverySafety.

(** * Claims on record *)

(** The message a claim was read from is stored, with the claim's command. *)
Definition on_record (c : ClaimedOutboxMessage) (d : database) : Prop :=
  ∃ m, outbox_messages d !! om_command_id (cl_message c) = Some m ∧
       envelope_of m = envelope_of (cl_message c).

Definition all_on_record (cs : list ClaimedOutboxMessage) (d : database) : Prop :=
  system_ok d ∧ Forall (λ c, on_record c d) cs.

Lemma on_record_steady c d d' : outbox_ok d → on_record c d → steady d d' → on_record c d'.
Proof.
  intros Hd (m & Hm & He) Hs. destruct (st_outbox _ _ Hs Hd) as [_ [Hev _]].
  destruct (Hev _ _ Hm) as (m' & Hm' & (He' & _)). exists m'. split; [done|congruence].
Qed.

#[export] Instance stable_on_record cs : Stable (all_on_record cs).
Proof.
  split; [by intros d []|]. intros d d' [Hd Hcs] Hs. split; [by eapply system_ok_steady|].
  eapply Forall_impl; [exact Hcs|]. intros c Hc. eapply on_record_steady; [apply Hd|done..].
Qed.

(** A fresh claim is on record. *)
Lemma claim_on_record locked w batch ms cs d d' :
  claim_committed locked w batch ms cs d d' → Forall (λ c, on_record c d') cs.
Proof.
  intros H. pose proof (clc_leased _ _ _ _ _ _ _ H) as Hl.
  apply Forall_forall. intros c [i Hi]%list_elem_of_lookup.
  destruct (Forall2_lookup_r _ _ _ _ _ Hl Hi) as (m & _ & [_ (m' & a & Hm' & _ & _ & _ & _ & Hadv & _ & _ & Ec & _)]).
  destruct (stored_command_normal m') as [_ He].
  { by eapply ob_envelope, Hm'; apply (clc_ok _ _ _ _ _ _ _ H). }
  exists m'. rewrite Ec, He. split; [|done]. cbn.
  by rewrite (envelope_of_command m m' (proj1 Hadv)).
Qed.

(** The command a claim asks to send is the stored one. *)
Lemma claimed_command c d command :
  outbox_ok d → on_record c d → to_envelope (cl_message c) = Ok command →
  command = envelope_of (cl_message c).
Proof.
  intros Hd (m & Hm & He) Hc. pose proof (ob_envelope d Hd _ _ Hm) as Hv.
  apply (to_envelope_of m (cl_message c)) in Hv; [|done]. congruence.
Qed.

Lemma deliver_steady c d :
  on_record c d → steady d (add_provider_delivery (envelope_of (cl_message c)) d).
Proof.
  intros (m & Hm & He). split.
  - intros Hd. by destruct Hd; split.
  - intros Hd. split; [|by apply cases_evolve_frame]. eapply case_db_ok_frame; [exact Hd| |done].
    by destruct (cdb_schema d Hd); split.
  - apply operations_kept_frame; [|done..]. intros Hd. by destruct Hd; split.
  - intros Hd. split; [by eapply outbox_ok_deliver|].
    split; [|done]. intros k x Hx. exists x. split; [done|]. reflexivity.
  - by apply inbox_kept_frame.
Qed.

Section Worker.
Context (amb : Ambient database) (Hamb : steady_world amb).
Context (lease_seconds : float) (transport : CommandTransport).
Context (renewals : ClaimedOutboxMessage → nat).

(** A task ends with what its body ends with. *)
Lemma runs_outcome_of {A} J (m : M database A) Q :
  runs amb J m Q → runs amb J (outcome_of m) (λ r cs, match r with Ok x => Q x cs | Err _ => False end).
Proof.
  intros Hm w r w' Hw. unfold outcome_of, try_except, bind, ret.
  destruct (m amb w) as [[a|e] w1] eqn:E; intros [= <- <-]; exact (Hm _ _ _ Hw E).
Qed.

(** * Sending *)

(** The provider has received the command of the claim, and this is its answer. *)
Definition answered_by_provider (c : ClaimedOutboxMessage) (answer : ProviderCommandResult)
    (cs : list (database * database)) : Prop :=
  ∃ connection d, (d, add_provider_delivery (envelope_of (cl_message c)) d) ∈ cs ∧
    transport (provider_deliveries d) connection (envelope_of (cl_message c)) = Ok answer ∧
    pc_tenant_id connection = om_tenant_id (cl_message c) ∧
    pc_connection_id connection = om_connection_id (cl_message c).

Definition all_steady (cs : list (database * database)) : Prop := Forall (λ c, steady c.1 c.2) cs.

Lemma renew_while_honest J `{!Stable J} n k l w :
  honest amb J (renew_while lease_seconds n k l w).
Proof.
  induction n as [|n IH]; cbn; [by apply honest_ret|]. apply honest_bind.
  - unfold renew_outbox_lease. apply honest_bind; [apply honest_lift|]. intros q.
    apply honest_tx; [done|apply _|apply renew_steady].
  - intros [|]; [done|apply honest_raise].
Qed.

Lemma send_runs c connection command cs0 :
  c ∈ cs0 → to_envelope (cl_message c) = Ok command →
  pc_tenant_id connection = om_tenant_id (cl_message c) →
  pc_connection_id connection = om_connection_id (cl_message c) →
  ∀ l w, runs amb (all_on_record cs0)
    (send_with_lease_renewal lease_seconds transport renewals c l w connection command)
    (λ r cs, all_steady cs ∧ ∀ answer, r = Ok answer → answered_by_provider c answer cs).
Proof.
  intros Hc Hcmd Ht Hci l w. unfold send_with_lease_renewal.
  set (sent := λ (x : res ProviderCommandResult) cs, all_steady cs ∧
    ∀ answer, x = Ok answer → answered_by_provider c answer cs).
  assert (runs amb (all_on_record cs0) (send_command transport connection command) sent) as Hsend.
  { unfold send_command. eapply runs_bind.
    - apply (runs_steady_transact amb Hamb _ _ _ (λ a d d', a = transport (provider_deliveries d) connection
        (envelope_of (cl_message c)) ∧ d' = add_provider_delivery (envelope_of (cl_message c)) d)).
      intros d a d' [Hd Hall] [= <- <-]. rewrite Forall_forall in Hall. specialize (Hall c Hc).
      rewrite (claimed_command c d command (sys_outbox d Hd) Hall Hcmd). split; [|done].
      by apply deliver_steady.
    - intros a cs1 [Hs Hq]. destruct (Hq a eq_refl) as (d & d' & -> & -> & ->).
      apply runs_lift. rewrite app_nil_r. split; [done|]. intros answer Ha.
      exists connection, d. split_and!; [set_solver|done..].
    - intros e cs1 [Hs _]. by split. }
  eapply runs_bind; [by apply runs_outcome_of| |done].
  - intros x cs1 [Hs1 Hx]. eapply runs_bind; [by apply renew_while_honest, _| |].
    + intros [] cs2 Hs2. apply runs_lift. rewrite app_nil_r. split; [by apply Forall_app|].
      intros answer Ha. destruct (Hx answer Ha) as (con & d & Hin & ?).
      exists con, d. split; [set_solver|done].
    + intros e cs2 Hs2. split; [by apply Forall_app|done].
Qed.

(** * Finishing a delivery *)

Lemma system_ok_of J `{!Stable J} d : J d → system_ok d.
Proof. apply stable_system. Qed.

(** The commit of a finalization: all of it or none of it. *)
Lemma finalize_runs J `{!Stable J} c target result fk ec em :
  runs amb J (finalize c target result fk ec em) (λ r cs, all_steady cs ∧
    match r with
    | Ok _ => ∃ d d', cs = [(d, d')] ∧ delivery_finalized c target fk d d'
    | Err e => cs = [] ∨ e = IntegrationPersistenceError ∧
                 ∃ d d', cs = [(d, d')] ∧ delivery_finalized c target fk d d'
    end).
Proof.
  unfold finalize. destruct (om_lease_id (cl_message c)) as [l|] eqn:El; [|apply runs_raise; split; [by apply Forall_nil_2|by left]].
  destruct (om_lease_owner (cl_message c)) as [w|] eqn:Ew; [|apply runs_raise; split; [by apply Forall_nil_2|by left]].
  eapply runs_weaken.
  - apply (runs_steady_tx amb Hamb J _ _ _ (λ _ d d', delivery_finalized c target fk d d')).
    + apply finalize_tx_steady.
    + intros d u d' Hd Hc. eapply finalize_tx_commits; [by eapply system_ok_of|done..].
  - intros [u|e] cs.
    + intros (d & d' & -> & Hs & Hf). split; [by apply Forall_singleton|eauto].
    + intros [[-> _]|(-> & u & d & d' & -> & Hs & Hf)]; (split; [first [by apply Forall_nil_2|by apply Forall_singleton]|]); eauto 10.
Qed.

(** A scheduled retry, the same. *)
Lemma schedule_retry_runs J `{!Stable J} k l w i kind ec em ra at_ hs :
  runs amb J (schedule_outbox_retry k l w i kind ec em ra at_ hs) (λ r cs, all_steady cs ∧
    match r with
    | Ok _ => ∃ d d', cs = [(d, d')] ∧ delivery_rescheduled k l w i kind at_ d d'
    | Err e => cs = [] ∨ e = IntegrationPersistenceError ∧
                 ∃ d d', cs = [(d, d')] ∧ delivery_rescheduled k l w i kind at_ d d'
    end).
Proof.
  eapply runs_weaken.
  - apply (runs_steady_tx amb Hamb J _ _ _ (λ _ d d', delivery_rescheduled k l w i kind at_ d d')).
    + apply retry_steady.
    + intros d u d' Hd Hc. apply (system_ok_of J) in Hd. by eapply retry_tx_commits in Hc as [_ ?]; [|apply Hd].
  - intros [u|e] cs.
    + intros (d & d' & -> & Hs & Hf). split; [by apply Forall_singleton|eauto].
    + intros [[-> _]|(-> & u & d & d' & -> & Hs & Hf)]; (split; [first [by apply Forall_nil_2|by apply Forall_singleton]|]); eauto 10.
Qed.

(** The rescheduling of a failed delivery: the worker reads its clock, and the transaction that
    follows, which reads the clock itself two ticks later, makes the message due the delay
    after that reading. *)
Definition retried_after (k l : uuid) (w : string) (i : uuid) (kind : ProviderFailureKind) (delay : Q)
    (d d' : database) : Prop :=
  ∃ n, delivery_rescheduled k l w i kind (clock amb n + micros delay) d d' ∧
       rescheduled_at k (clock amb n + micros delay) (clock amb (S (S n))) d d'.

Lemma reschedule_runs J `{!Stable J} k l w i kind ec em ra hs delay :
  runs amb J (at_ <- now;
              next_available_at <- lift (add_seconds at_ delay);
              schedule_outbox_retry k l w i kind ec em ra next_available_at hs;, ret (Some run_retried))
    (λ r cs, all_steady cs ∧ ∀ x, r = Ok (Some x) → x = run_retried ∧
       ∃ d d', cs = [(d, d')] ∧ retried_after k l w i kind delay d d').
Proof.
  intros w0 r w' Hw. unfold bind at 1, now. set (w1 := tick w0). unfold bind at 1, lift.
  destruct (add_seconds _ delay) as [due|e] eqn:Hdue.
  2:{ intros [= <- <-]. split; [done|]. exists []. rewrite app_nil_r. split; [done|]. by split; [apply Forall_nil_2|]. }
  unfold add_seconds in Hdue. inv_ok. unfold bind.
  destruct (schedule_outbox_retry _ _ _ _ _ _ _ _ _ _ amb w1) as [rx w2] eqn:E.
  destruct (schedule_retry_runs J _ _ _ _ _ _ _ _ _ _ w1 rx w2 Hw E) as (Hw2 & cs & Hl & Hs & Hx).
  intros Hr. assert (w' = w2 ∧ (∀ y, r = Ok (Some y) → y = run_retried ∧ rx = Ok tt)) as [-> Hy].
  { destruct rx as [[]|e]; injection Hr as <- <-; (split; [done|]); [by intros ? [= <-]|done]. }
  split; [done|]. exists cs. split; [exact Hl|]. split; [done|]. intros y [-> ->]%Hy. split; [done|].
  destruct Hx as (d & d' & -> & Hd). exists d, d'. split; [done|]. exists (w_tick w0). split; [exact Hd|].
  revert E. unfold schedule_outbox_retry, in_transaction.
  pose proof (rely_stable amb Hamb J (w_tick w1) _ Hw) as HJ. apply (system_ok_of J) in HJ.
  destruct (retry_tx _ _ _ _ _ _ _ _ _ _ _ _ _) as [[u d1|e] n1] eqn:Et; destruct (fault_at _ _); try done.
  intros [= _ <-]. cbn in Hl. apply app_inv_head in Hl. injection Hl as <- <-.
  eapply retry_tx_reads in Et; [exact Et|apply HJ].
Qed.

(** * One claimed message *)

(** What the worker's verdict on a claim stands for. *)
Definition verdict (c : ClaimedOutboxMessage) (x : WorkerRunResult)
    (cs : list (database * database)) : Prop :=
  (x = run_published ∧
     (∃ answer, answered_by_provider c answer cs ∧ pr_status answer = acc_accepted) ∧
     ∃ d d', (d, d') ∈ cs ∧ delivery_finalized c ft_published None d d') ∨
  (x = run_dead ∧ ∃ kind d d', (d, d') ∈ cs ∧ delivery_finalized c ft_dead (Some kind) d d') ∨
  (x = run_retried ∧ ∃ l w kind delay d d', (d, d') ∈ cs ∧
     RETRYABLE_FAILURE_KINDS kind = true ∧ da_attempt_number (cl_attempt c) < MAX_ATTEMPTS ∧
     (Qpower 2 (Z.max (da_attempt_number (cl_attempt c) - 1) 0) <= delay)%Q ∧
     retried_after (om_command_id (cl_message c)) l w (da_attempt_id (cl_attempt c)) kind delay d d') ∨
  x = run_lease_conflict ∨ x = run_failed.

Definition processed (c : ClaimedOutboxMessage) (r : res WorkerRunResult)
    (cs : list (database * database)) : Prop :=
  all_steady cs ∧ ∀ x, r = Ok x → verdict c x cs.

Context (connection_lookup : ConnectionLookup) (random_source : option float).

Lemma verdict_mono c x cs1 cs2 : (∀ p, p ∈ cs1 → p ∈ cs2) → verdict c x cs1 → verdict c x cs2.
Proof.
  intros Hsub [(-> & (answer & (con & d0 & Hin & Ha) & Hacc) & d & d' & Hin' & Hf)|
    [(-> & kind & d & d' & Hin & Hf)|[(-> & l & w & kind & delay & d & d' & Hin & H)|[->| ->]]]].
  - left. split; [done|]. split; [|by eauto 10]. exists answer. split; [|done].
    exists con, d0. split; [auto|done].
  - right; left. eauto 10.
  - right; right; left. split; [done|]. exists l, w, kind, delay, d, d'. split; [auto|done].
  - do 3 right. by left.
  - by do 4 right.
Qed.

Lemma verdict_app_r c x cs1 cs2 : verdict c x cs2 → verdict c x (cs1 ++ cs2).
Proof. apply verdict_mono. set_solver. Qed.

Lemma terminally_fail_runs J `{!Stable J} c kind code message :
  runs amb J (terminally_fail c kind code message) (processed c).
Proof.
  unfold terminally_fail, terminal_failure.
  eapply runs_try_except with (Q1 := λ r cs, match r with
    | Ok x => processed c (Ok x) cs | Err _ => all_steady cs end).
  - eapply runs_bind; [by apply finalize_runs|..].
    + intros u cs [Hs (d & d' & -> & Hf)]. apply runs_ret.
      rewrite app_nil_r. split; [done|]. intros x [= <-]. right; left. split; [done|].
      exists kind, d, d'. split; [set_solver|done].
    + by intros e cs [Hs _].
  - done.
  - intros e cs Hs. apply runs_ret. rewrite app_nil_r. split; [done|]. intros x [= <-].
    unfold verdict. case_bool_decide; auto.
Qed.

Lemma handle_failure_runs J `{!Stable J} c error :
  runs amb J (handle_failure random_source c error) (processed c).
Proof.
  unfold handle_failure.
  assert (∀ e, processed c (Err e) []) as Hraise by (by split; [apply Forall_nil_2|]).
  destruct (om_lease_id (cl_message c)) as [l|]; [|by apply runs_raise].
  destruct (om_lease_owner (cl_message c)) as [w|]; [|by apply runs_raise].
  apply runs_lift_bind; [done|]. intros kind _.
  apply runs_lift_bind; [done|]. intros dec (Hr & _ & Hd)%decide_retry_reached.
  destruct (safe_error error) as [code message].
  eapply runs_bind with (Q1 := λ r cs, all_steady cs ∧ match r with
    | Ok (Some x) => verdict c x cs | _ => True end).
  - eapply runs_try_except with (Q1 := λ r cs, all_steady cs ∧ match r with
      | Ok (Some x) => verdict c x cs | _ => True end); [|done|].
    + destruct (rd_retryable dec) eqn:Er; [|apply runs_ret; by split; [apply Forall_nil_2|]].
      destruct (rd_delay_seconds dec) as [delay|]; [|done]. destruct Hd as (_ & Hdel & _).
      symmetry in Hr. apply andb_true_iff in Hr as [Hk Hn].
      eapply runs_weaken; [by apply reschedule_runs|]. intros r cs [Hs Hx]. split; [done|].
      destruct r as [[x|]|e]; [|done..]. destruct (Hx x eq_refl) as (-> & d & d' & -> & Hat).
      right; right; left. split; [done|]. exists l, w, kind, delay, d, d'. split_and!; [set_solver|done|lia|done|done].
    + intros e cs [Hs _]. destruct e; try done;
        apply runs_ret; rewrite app_nil_r; (split; [done|]); unfold verdict; auto.
  - intros [x|] cs [Hs Hx].
    + apply runs_ret. rewrite app_nil_r. split; [done|]. by intros ? [= <-].
    + eapply runs_weaken; [by apply terminally_fail_runs|]. intros r cs2 [Hs2 Hv2].
      split; [by apply Forall_app|]. intros x ->. by apply verdict_app_r, Hv2.
  - intros e cs [Hs _]. by split.
Qed.

(** The gate on a resolved connection. *)
Lemma connection_matches connection (command : ProviderCommandEnvelope) capability u :
  raise_if (bool_decide (pc_connection_id connection ≠ e_connection_id command)
            || bool_decide (pc_tenant_id connection ≠ e_tenant_id command)
            || bool_decide (pc_capability connection ≠ capability))
    (ValueError "provider connection did not match persisted command") = Ok u →
  pc_connection_id connection = e_connection_id command ∧ pc_tenant_id connection = e_tenant_id command.
Proof.
  intros H%raise_if_ok. bools. split; by apply dec_stable.
Qed.

(** The command of a claim on record, whatever the state it is read in. *)
Lemma claim_command_fields c command :
  to_envelope (cl_message c) = Ok command → (∃ d, outbox_ok d ∧ on_record c d) →
  e_tenant_id command = om_tenant_id (cl_message c) ∧
  e_connection_id command = om_connection_id (cl_message c).
Proof. intros Hc (d & Hd & Ho). by rewrite (claimed_command c d command Hd Ho Hc). Qed.

Lemma dispatch_runs c cs0 :
  c ∈ cs0 →
  runs amb (all_on_record cs0)
    (dispatch lease_seconds connection_lookup transport renewals c) (processed c).
Proof.
  intros Hc w0 r w' Hw Hrun.
  assert (∃ d, outbox_ok d ∧ on_record c d) as Hrec.
  { exists (w_db w0). destruct Hw as [Hsys Hall]. rewrite Forall_forall in Hall. split; [apply Hsys|auto]. }
  revert w0 r w' Hw Hrun. change (runs amb (all_on_record cs0)
    (dispatch lease_seconds connection_lookup transport renewals c) (processed c)).
  unfold dispatch. assert (∀ e, processed c (Err e) []) as Hraise by (by split; [apply Forall_nil_2|]).
  apply runs_lift_bind; [done|]. intros command Hcmd.
  destruct (claim_command_fields c command Hcmd Hrec) as [Et Eci].
  destruct (om_lease_id (cl_message c)) as [l|]; [|by apply runs_raise].
  destruct (om_lease_owner (cl_message c)) as [w|]; [|by apply runs_raise].
  apply runs_lift_bind; [done|]. intros connection _.
  apply runs_lift_bind; [done|]. intros u [Hci Ht]%connection_matches.
  eapply runs_bind; [apply (send_runs c connection command cs0); try done; congruence|..].
  - intros answer cs1 [Hs1 Ha]. specialize (Ha answer eq_refl).
    assert (all_on_record cs0 = all_on_record cs0) as _ by done.
    case_bool_decide as Hst.
    + eapply runs_bind; [by apply (finalize_runs (all_on_record cs0))|..].
      * intros v cs2 [Hs2 (d & d' & -> & Hf)]. apply runs_ret. rewrite app_nil_r.
        split; [by apply Forall_app|]. intros x [= <-]. left. split; [done|]. split.
        -- exists answer. split; [|done]. destruct Ha as (con & d0 & Hin & ?).
           exists con, d0. split; [set_solver|done].
        -- exists d, d'. split; [set_solver|done].
      * intros e cs2 [Hs2 _]. split; [by apply Forall_app|done].
    + eapply runs_bind; [by apply (finalize_runs (all_on_record cs0))|..].
      * intros v cs2 [Hs2 (d & d' & -> & Hf)]. apply runs_ret. rewrite app_nil_r.
        split; [by apply Forall_app|]. intros x [= <-]. right; left. split; [done|].
        exists fk_provider_rejection, d, d'. split; [set_solver|done].
      * intros e cs2 [Hs2 _]. split; [by apply Forall_app|done].
  - intros e cs1 [Hs1 _]. by split.
Qed.

Definition process_one := process lease_seconds connection_lookup transport renewals random_source.

Lemma process_runs c cs0 :
  c ∈ cs0 → runs amb (all_on_record cs0) (process_one c) (processed c).
Proof.
  intros Hc. unfold process_one, process. eapply runs_try_except; [by apply dispatch_runs|done|].
  intros e cs [Hs _]. case_bool_decide.
  - apply runs_ret. rewrite app_nil_r. split; [done|]. intros x [= <-]. do 3 right. by left.
  - eapply runs_weaken; [by apply (handle_failure_runs (all_on_record cs0))|].
    intros r cs2 [Hs2 Hv2]. split; [by apply Forall_app|]. intros x ->. by apply verdict_app_r, Hv2.
Qed.

(** * The batch *)

Definition gather_all := gather lease_seconds connection_lookup transport renewals random_source.

Lemma gather_runs cs0 l :
  (∀ c, c ∈ l → c ∈ cs0) →
  runs amb (all_on_record cs0) (gather_all l) (λ r cs, all_steady cs ∧
    ∃ rs, r = Ok rs ∧ Forall2 (λ c x, ∀ v, x = Ok v → verdict c v cs) l rs).
Proof.
  induction l as [|c l IH]; intros Hl; cbn.
  { apply runs_ret. split; [by apply Forall_nil_2|]. exists []. by split. }
  eapply runs_bind; [apply runs_outcome_of, (process_runs c cs0), Hl; set_solver| |done].
  intros x cs1 [Hs1 Hv1]. eapply runs_bind; [apply IH; set_solver| |].
  - intros rs cs2 [Hs2 (rs' & [= <-] & Hall)]. apply runs_ret. rewrite app_nil_r.
    split; [by apply Forall_app|]. exists (x :: rs). split; [done|]. constructor.
    + intros v ->. eapply verdict_mono; [|by apply Hv1]. set_solver.
    + eapply Forall2_impl; [exact Hall|]. intros c' x' Hx v ->. by apply verdict_app_r, Hx.
  - intros e cs2 [Hs2 (rs' & [=] & _)].
Qed.

Definition tally (n : Z) (vs : list WorkerRunResult) : WorkerRunResult :=
  fold_left merge vs (mkWorkerRunResult n 0 0 0 0 0).

Lemma traverse_id_ok {A} (l : list (res A)) vs : traverse id l = Ok vs → l = Ok <$> vs.
Proof.
  revert vs. induction l as [|x l IH]; intros vs H; cbn in H; inv_ok; [done|].
  unfold id in *. subst. cbn. f_equal. by apply IH.
Qed.

(** Every claimed message ends up in exactly one counter. *)
Lemma tally_counts c cs n vs :
  Forall2 (λ c v, verdict c v cs) c vs →
  let r := tally n vs in
  wr_claimed r = n ∧
  wr_published r + wr_retried r + wr_dead r + wr_lease_conflicts r + wr_failed r = Z.of_nat (length c).
Proof.
  intros H. unfold tally.
  enough (∀ acc, wr_claimed (fold_left merge vs acc) = wr_claimed acc ∧
    let t x := wr_published x + wr_retried x + wr_dead x + wr_lease_conflicts x + wr_failed x in
    t (fold_left merge vs acc) = t acc + Z.of_nat (length c)) as He.
  { cbv zeta in *. destruct (He (mkWorkerRunResult n 0 0 0 0 0)) as [E1 E2]. split; [done|]. rewrite E2. cbn. lia. }
  induction H as [|a v c vs Hv Hvs IH]; intros acc; cbv zeta in *; cbn [fold_left length]; [lia|].
  destruct (IH (merge acc v)) as [E1 E2]. rewrite E1, E2. split; [done|].
  destruct Hv as [(-> & _)|[(-> & _)|[(-> & _)|[->| ->]]]]; cbn; lia.
Qed.

Context (worker_id : string) (batch_size : Z) (locked : uuid → bool).

Definition one_run := run_once worker_id batch_size lease_seconds connection_lookup transport renewals
  random_source locked.

Lemma run_once_runs :
  runs amb system_ok one_run (λ r cs, all_steady cs ∧
    match r with
    | Ok x => ∃ ms claimed vs d d', (d, d') ∈ cs ∧
        claim_committed locked worker_id batch_size ms claimed d d' ∧
        Forall2 (λ c v, verdict c v cs) claimed vs ∧ x = tally (Z.of_nat (length claimed)) vs
    | Err _ => True
    end).
Proof.
  unfold one_run, run_once. unfold claim_due_outbox.
  destruct (validate_claim_parameters _ _ _) as [lease|e]; cbn [lift bind].
  2:{ intros w r w' Hw [= <- <-]. split; [done|]. exists []. rewrite app_nil_r. split; [done|]. by split; [apply Forall_nil_2|]. }
  apply (runs_tx_bind amb Hamb system_ok _ _ _ _ (λ claimed, all_on_record claimed)).
  - apply claim_steady.
  - intros d cs d' Hd Hc. destruct (claim_due_commits _ _ _ _ _ _ _ (sys_outbox d Hd) Hc) as [ms Hms].
    split; [eapply system_ok_steady; [exact Hd|by eapply claim_steady]|]. by eapply claim_on_record.
  - by intros cs d [].
  - intros e. by split; [apply Forall_nil_2|].
  - intros d cs d' Hd Hc. split; [|done]. apply Forall_singleton. by eapply claim_steady.
  - intros d claimed d' Hd Hc. destruct (claim_due_commits _ _ _ _ _ _ _ (sys_outbox d Hd) Hc) as [ms Hms].
    assert (steady d d') as Hst by (by eapply claim_steady).
    unfold gather_batch. eapply runs_bind with (Q1 := λ r cs, all_steady cs ∧
      ∀ vs, r = Ok vs → Forall2 (λ c v, verdict c v cs) claimed vs).
    + eapply runs_bind; [by apply (gather_runs claimed claimed)| |].
      * intros rs cs [Hs (rs' & [= <-] & Hall)].
        apply runs_lift.
        rewrite app_nil_r. split; [done|]. intros vs ->%traverse_id_ok.
        apply Forall2_fmap_r in Hall. eapply Forall2_impl; [exact Hall|]. cbn. auto.
      * intros e cs [Hs (? & [=] & _)].
    + intros vs cs1 [Hs1 Hv]. apply runs_ret. rewrite app_nil_r.
      split; [by apply Forall_cons|]. exists ms, claimed, vs, d, d'. split_and!; [set_solver|done| |done].
      eapply Forall2_impl; [by apply Hv|]. intros c v. apply verdict_mono. set_solver.
    + intros e cs [Hs _]. split; [by apply Forall_cons|done].
Qed.

(** * A round *)

Lemma recover_honest J `{!Stable J} batch : honest amb J (recover_expired_outbox_leases locked batch).
Proof. apply honest_tx; [done|apply _|apply recover_steady]. Qed.

Lemma dispatch_round_honest due :
  honest amb system_ok (dispatch_round worker_id batch_size lease_seconds connection_lookup transport
    renewals random_source locked due).
Proof.
  unfold dispatch_round. apply honest_bind.
  - destruct due; [|by apply honest_ret]. apply honest_bind; [|intros; by apply honest_ret].
    by apply recover_honest, _.
  - intros _. eapply runs_weaken; [apply run_once_runs|]. by intros r cs [Hs _].
Qed.
End Worker.
