(* ===== verification/InboxTransactions.v ===== *)
(** What each inbox transaction commits: receiving, claiming, renewing, retrying and
    recovering messages. *)
From S2P Require Import Prelude Effects OperationModels CaseModels Envelope InboxModels Retry Database Transactions Messaging CaseRepository CaseSafety OperationRepository OperationService OperationSafety OutboxWrites Finalization InboxWrites OutboxRepository InboxRepository InboxFinalizer OutboxSafety OutboxTransactions FinalizationSafety InboxSafety Steady.

(** * Steps of the inbox tables alone *)

Definition only_inbox (d d' : database) : Prop := d' = set_inbox (inbox d') d.

#[export] Instance only_inbox_preorder : PreOrder only_inbox.
Proof.
  split; unfold only_inbox.
  - by intros [].
  - intros x y z Hy Hz. rewrite Hz. rewrite Hy. by cbn.
Qed.

Lemma only_inbox_set t d : only_inbox d (set_inbox t d).
Proof. done. Qed.

Lemma only_inbox_frames d d' :
  only_inbox d d' → same_domain d d' ∧ same_messaging d d' ∧ schema_kept d d'.
Proof. unfold only_inbox. intros ->. split_and!; [done..|]. by intros []; split. Qed.

Lemma only_inbox_steady d d' : only_inbox d d' → inbox_kept d d' → steady d d'.
Proof.
  intros Ho Hi. destruct (only_inbox_frames d d' Ho) as ((E1 & E2 & E3 & E4 & E5) & Hm & Hs).
  split; [done|..|done].
  - intros Hd. split; [by eapply case_db_ok_frame; [exact Hd|apply Hs, Hd|]|by apply cases_evolve_frame].
  - apply operations_kept_frame; [done|done|apply Hm].
  - by apply outbox_kept_frame.
Qed.

Lemma steady_inbox {A} (t : Tx A) :
  tx_within only_inbox t → tx_within inbox_kept t → tx_within steady t.
Proof. intros Ho Hi d a d' H. by apply only_inbox_steady; [eapply Ho|eapply Hi]. Qed.

Lemma within_update_inbox k where_ set : tx_within only_inbox (update_inbox k where_ set).
Proof.
  intros d r d' [[_ ->]|(m & _ & _ & _ & Hput)]%update_inbox_commits; [by apply only_inbox_preorder|].
  by apply put_inbox_message_effect in Hput as [-> _].
Qed.
Lemma within_finish_inbox i k l w t o c m : tx_within only_inbox (finish_inbox_attempt i k l w t o c m).
Proof.
  intros d r d' [[_ ->]|(_ & a & _ & _ & Hput)]%finish_inbox_attempt_commits; [by apply only_inbox_preorder|].
  by apply put_inbox_attempt_effect in Hput as [-> _].
Qed.
Ltac only_inbox_statement :=
  apply within_execute; intros ?d ?d' ?H; unfold insert_inbox_attempt, put_inbox_attempt, put_inbox_message in *;
  inv_pg; first [apply only_inbox_set|apply only_inbox_preorder].
#[export] Hint Resolve within_update_inbox within_finish_inbox : within.
#[export] Hint Extern 2 (tx_within only_inbox (execute _)) => only_inbox_statement : within.

(** * Closing a lease *)

(** A rewrite that ends the processing of a message. *)
Record ends_lease (set : InboxMessage → InboxMessage) (status : InboxProcessingStatus) : Prop := {
  el_event : ∀ m, same_event m (set m);
  el_status : ∀ m, im_status (set m) = status;
  el_lease : ∀ m, im_lease_id (set m) = None;
  el_counts : ∀ m, im_processing_cycle (set m) = im_processing_cycle m ∧
    im_processing_attempts (set m) = im_processing_attempts m ∧
    im_attempts_in_cycle (set m) = im_attempts_in_cycle m;
}.

Lemma ends_processed t : ends_lease (processed_row t) ib_processed.
Proof. by split. Qed.
Lemma ends_failed t c m : ends_lease (failed_row t c m) ib_failed.
Proof. by split. Qed.
Lemma ends_returned t u c m : ends_lease (returned_row t u c m) ib_received.
Proof. by split. Qed.
Lemma ends_exhausted t u : ends_lease (exhausted_inbox_row t u) ib_failed.
Proof. by split. Qed.
Lemma ends_recovered t u : ends_lease (recovered_inbox_row t u) ib_received.
Proof. by split. Qed.

(** The two statements that end a lease: they succeed only for the open attempt of the lease
    the message still carries. *)
Lemma closing_inbox d d1 d2 i a a' k where_ set status :
  inbox_ok (inbox d) → inbox_attempts (inbox d) !! i = Some a → ia_finished_at a = None →
  ia_attempt_id a' = ia_attempt_id a → ia_inbox_id a' = ia_inbox_id a →
  ia_processing_cycle a' = ia_processing_cycle a → ia_attempt_number a' = ia_attempt_number a →
  is_Some (ia_finished_at a') → put_inbox_attempt a' d = PgOk d1 →
  commits_to (update_inbox k where_ set) d1 (Some d2.1) d2.2 → ia_inbox_id a = k →
  ends_lease set status → inbox_transition_allowed ib_processing status = true → status ≠ ib_processing →
  ∃ m, inbox_closed m (set m) a a' (inbox d) (inbox d2.2) ∧ im_inbox_id m = k ∧ where_ m = true ∧
    only_inbox d d2.2.
Proof.
  intros Hd Ha Hopen E1 E2 E3 E4 Hfin Hput Hu Hk Hs Htr Hne.
  pose proof (ib_attempt_id _ Hd i a Ha) as Hai.
  apply put_inbox_attempt_effect in Hput as (-> & _ & _).
  apply update_inbox_commits in Hu as [[? _]|(m & _ & Hm & Hw & Hp)]; [done|].
  cbn in Hm. pose proof (ib_id _ Hd k m Hm) as Hmk.
  apply put_inbox_message_effect in Hp as (E & Hck & _). cbn in E.
  destruct (ib_open _ Hd i a Ha Hopen) as (m0 & Hm0 & Hl). rewrite Hk in Hm0.
  assert (m0 = m) as -> by congruence.
  assert (im_inbox_id (set m) = im_inbox_id m) as Hsid by apply Hs. exists m.
  split_and!; [|done|done|by rewrite E]. split.
  - split; rewrite ?Hmk; try done; [|apply Hs|by rewrite E]. rewrite E. cbn. by rewrite Hsid, Hmk.
  - by rewrite Hai.
  - done.
  - done.
  - rewrite E. cbn. by rewrite E1.
  - rewrite (el_status _ _ Hs). done.
  - apply Hs.
  - apply Hs.
  - done.
Qed.

Lemma mark_inbox_processed_commits k l w t d n d' :
  commits_to (mark_inbox_processed k l w t) d n d' →
  (n = 0 ∧ d' = d) ∨
  n = 1 ∧ ∃ r, commits_to (update_inbox k (inbox_lease l w) (processed_row t)) d (Some r) d'.
Proof.
  unfold mark_inbox_processed. intros (r & d1 & Hu & [-> ->]%commits_to_ret)%commits_to_bind.
  destruct r as [r|]; [right; eauto|left]. split; [done|].
  apply update_inbox_commits in Hu as [[_ ->]|(? & [=] & _)]. done.
Qed.

Lemma guarded_update_commits (v : res unit) k l w set d n d' :
  commits_to (tx_lift v;~ (updated <~ update_inbox k (inbox_lease l w) set; tx_ret (rowcount updated))) d n d' →
  (n = 0 ∧ d' = d) ∨
  n = 1 ∧ ∃ r, commits_to (update_inbox k (inbox_lease l w) set) d (Some r) d'.
Proof.
  intros (u & ? & [_ ->]%commits_to_lift & H)%commits_to_bind.
  apply commits_to_bind in H as (r & d1 & Hu & [-> ->]%commits_to_ret).
  destruct r as [r|]; [right; eauto|left]. split; [done|].
  apply update_inbox_commits in Hu as [[_ ->]|(? & [=] & _)]. done.
Qed.

(** The attempt [i] of the lease [l] that [w] holds on message [k] ends with [outc], and the
    message is rewritten by [set]; nothing outside the inbox changes. *)
Definition lease_ended (i k l : uuid) (w : string) (outc : InboxAttemptOutcome)
    (set : InboxMessage → InboxMessage) (d d' : database) : Prop :=
  ∃ m a a', inbox_closed m (set m) a a' (inbox d) (inbox d') ∧ only_inbox d d' ∧
    im_inbox_id m = k ∧ ia_attempt_id a = i ∧ ia_lease_id a = l ∧ ia_worker_id a = w ∧
    ia_outcome a' = Some outc.

Lemma lease_ended_kept i k l w outc set d d' : lease_ended i k l w outc set d d' → inbox_kept d d'.
Proof.
  intros (m & a & a' & Hc & _) Hd. split; [by eapply inbox_closed_ok|by eapply inbox_closed_evolves].
Qed.

Lemma ending_statements {A} i k l w at_ outc code msg set status (second : Tx Z) (F : Z → Tx A) d r d' :
  inbox_ok (inbox d) → ends_lease set status → inbox_transition_allowed ib_processing status = true →
  status ≠ ib_processing →
  (∀ d n d', commits_to second d n d' → (n = 0 ∧ d' = d) ∨
     n = 1 ∧ ∃ x, commits_to (update_inbox k (inbox_lease l w) set) d (Some x) d') →
  commits_to (affected <~ finish_inbox_attempt i k l w at_ outc code msg;
              tx_raise_if (negb (affected =? 1)) LeaseConflictError;~
              affected <~ second; F affected) d r d' →
  ∃ n d2, commits_to (F n) d2 r d' ∧ (n = 1 → lease_ended i k l w outc set d d2).
Proof.
  intros Hd Hset Htr Hne Hsec H.
  apply commits_to_bind in H as (n & d1 & Hf & H).
  apply commits_to_bind in H as (? & ? & [Hn ->]%commits_to_raise_if & H).
  apply commits_to_bind in H as (n' & d2 & Hs & H). exists n', d2. split; [done|]. intros ->.
  apply finish_inbox_attempt_commits in Hf as [[-> _]|(_ & a & Ha & Hw & Hput)]; [done|].
  apply Hsec in Hs as [[? _]|(_ & up & Hu)]; [done|].
  unfold inbox_attempt_fence in Hw. bools.
  destruct (closing_inbox d d1 (up, d2) i a (finished_inbox_attempt a at_ outc code msg) k (inbox_lease l w)
    set status Hd Ha) as (m & Hc & Hmk & _ & Ho); try done.
  pose proof (ib_attempt_id _ Hd i a Ha).
  exists m, a, (finished_inbox_attempt a at_ outc code msg). by split_and!.
Qed.

Lemma ending_last i k l w at_ outc code msg set status (second : Tx Z) d u d' :
  inbox_ok (inbox d) → ends_lease set status → inbox_transition_allowed ib_processing status = true →
  status ≠ ib_processing →
  (∀ d n d', commits_to second d n d' → (n = 0 ∧ d' = d) ∨
     n = 1 ∧ ∃ x, commits_to (update_inbox k (inbox_lease l w) set) d (Some x) d') →
  commits_to (affected <~ finish_inbox_attempt i k l w at_ outc code msg;
              tx_raise_if (negb (affected =? 1)) LeaseConflictError;~
              affected <~ second; tx_raise_if (negb (affected =? 1)) LeaseConflictError) d u d' →
  lease_ended i k l w outc set d d'.
Proof.
  intros Hd Hs Htr Hne Hsec H. eapply ending_statements in H as (n & d2 & H & Hl); [|done..].
  apply commits_to_raise_if in H as [Hn ->]. apply Hl. bools. lia.
Qed.

Section Closing.
Context (claimed : ClaimedInboxMessage) (l : uuid) (w : string).
Let i := ia_attempt_id (ci_attempt claimed).
Let k := im_inbox_id (ci_message claimed).

Lemma process_inbox_commits now d u d' :
  inbox_ok (inbox d) → commits_to (process_inbox claimed l w now) d u d' →
  lease_ended i k l w ia_processed (processed_row now) d d'.
Proof.
  intros Hd H. eapply ending_last in H; [exact H|done|apply ends_processed|done..|].
  intros ? ? ?. apply mark_inbox_processed_commits.
Qed.

Lemma fail_inbox_commits now code ag d r d' :
  inbox_ok (inbox d) → commits_to (fail_inbox claimed l w now code ag) d r d' →
  r = mkInboxResult fin_failed ag None None (Some code) ∧
  lease_ended i k l w ia_terminal_failure
    (failed_row now (Some code) (Some "Provider webhook could not be applied.")) d d'.
Proof.
  intros Hd H. unfold fail_inbox in H. cbv zeta in H.
  eapply ending_statements in H as (n & d2 & H & Hl);
    [|done|apply ends_failed|done..|intros ? ? ?; apply guarded_update_commits].
  apply commits_to_bind in H as (? & ? & [Hn ->]%commits_to_raise_if & H).
  apply commits_to_ret in H as [-> ->]. split; [done|]. apply Hl. bools. lia.
Qed.

(** A callback that came before its command was finalized waits, unless its attempts of the
    cycle are used up. *)
Lemma retry_or_fail_commits n now at_ ag d r d' :
  inbox_ok (inbox d) → commits_to (retry_or_fail claimed l w n now at_ ag) d r d' →
  (n < 5 ∧ ir_action r = fin_retry_scheduled ∧ ir_aggregate_type r = ag ∧
     lease_ended i k l w ia_retry_scheduled
       (returned_row at_ now (Some "outbox_not_finalized") (Some "Provider command is not finalized.")) d d') ∨
  (5 ≤ n ∧ ir_action r = fin_failed ∧ ir_aggregate_type r = ag ∧ ∃ code message,
     lease_ended i k l w ia_terminal_failure (failed_row now code message) d d').
Proof.
  intros Hd H. unfold retry_or_fail in H. destruct (5 <=? n) eqn:En.
  - apply fail_inbox_commits in H as [-> H]; [|done]. right. split_and!; [lia|done..|eauto].
  - left. cbv zeta in H. eapply ending_statements in H as (x & d2 & H & Hl);
      [|done|apply ends_returned|done..|intros ? ? ?; apply guarded_update_commits].
    apply commits_to_bind in H as (? & ? & [Hn ->]%commits_to_raise_if & H).
    apply commits_to_ret in H as [-> ->]. split_and!; [lia|done..|]. apply Hl. bools. lia.
Qed.
End Closing.

(** Failing and retrying from the repository. *)
Lemma mark_failed_commits k l w code msg d u d' :
  inbox_ok (inbox d) → commits_to (mark_failed_tx k l w code msg) d u d' →
  ∃ i now, lease_ended i k l w ia_terminal_failure (failed_row now code msg) d d'.
Proof.
  intros Hd H. unfold mark_failed_tx in H.
  apply commits_to_bind in H as (o & ? & [_ ->]%commits_to_select & H).
  destruct o as [a|]; [|by apply commits_to_raise in H].
  apply commits_to_bind in H as (now & ? & ->%commits_to_clock & H).
  eapply ending_last in H; [by eauto|done|apply ends_failed|done..|].
  intros ? ? ?. apply guarded_update_commits.
Qed.

Lemma inbox_retry_commits k l w i at_ code msg d u d' :
  inbox_ok (inbox d) → commits_to (inbox_retry_tx k l w i at_ code msg) d u d' →
  ∃ m now, inbox_messages (inbox d) !! k = Some m ∧
    if 5 <=? im_attempts_in_cycle m
    then lease_ended i k l w ia_terminal_failure
           (failed_row now inbox_exhausted_code inbox_exhausted_message) d d'
    else lease_ended i k l w ia_retry_scheduled (returned_row at_ now code msg) d d'.
Proof.
  intros Hd H. unfold inbox_retry_tx in H.
  apply commits_to_bind in H as (o & ? & [-> ->]%commits_to_select & H).
  destruct (inbox_messages (inbox d) !! k) as [m|]; [|by apply commits_to_raise in H].
  apply commits_to_bind in H as (? & ? & [_ ->]%commits_to_raise_if & H).
  apply commits_to_bind in H as (now & ? & ->%commits_to_clock & H). exists m, now. split; [done|].
  destruct (5 <=? im_attempts_in_cycle m).
  - eapply ending_last in H; [exact H|done|apply ends_failed|done..|intros ? ? ?; apply guarded_update_commits].
  - eapply ending_last in H; [exact H|done|apply ends_returned|done..|intros ? ? ?; apply guarded_update_commits].
Qed.

Lemma mark_failed_steady k l w code msg : tx_within steady (mark_failed_tx k l w code msg).
Proof.
  apply steady_inbox.
  - unfold mark_failed_tx, mark_inbox_failed. tx_walk.
  - intros d u d' H Hd. apply mark_failed_commits in H as (i & now & H); [|done].
    by eapply lease_ended_kept.
Qed.

Lemma inbox_retry_steady k l w i at_ code msg : tx_within steady (inbox_retry_tx k l w i at_ code msg).
Proof.
  apply steady_inbox.
  - unfold inbox_retry_tx, mark_inbox_failed, schedule_inbox_retry. tx_walk.
  - intros d u d' H Hd. apply inbox_retry_commits in H as (m & now & _ & H); [|done].
    case_match; by eapply lease_ended_kept.
Qed.

(** * Claiming *)

Lemma insert_inbox_attempt_effect a d d' :
  insert_inbox_attempt a d = PgOk d' →
  inbox_attempts (inbox d) !! ia_attempt_id a = None ∧
  d' = set_inbox_attempts (<[ia_attempt_id a := a]> (inbox_attempts (inbox d))) d ∧
  collides inbox_attempt_key (inbox_attempts (inbox d)) (ia_attempt_id a) a = false.
Proof.
  intros H. unfold insert_inbox_attempt in H. apply pg_bind_ok in H as (? & Hnew & H).
  apply pg_check_ok, bool_decide_eq_true in Hnew. by apply put_inbox_attempt_effect in H as (-> & _ & ?).
Qed.

Lemma with_inbox_payload_same m : with_inbox_payload m (im_payload m) = m.
Proof. by destruct m. Qed.

(** The claim [c] of message [k], opened for [worker_id]. *)
Definition inbox_claimed (worker_id : string) (k : uuid) (c : ClaimedInboxMessage) (d d' : database) : Prop :=
  ∃ m m' a, inbox_leased m m' a (inbox d) (inbox d') ∧ only_inbox d d' ∧ im_inbox_id m = k ∧
    im_attempts_in_cycle m < 5 ∧ ia_worker_id a = worker_id ∧
    ci_message c = InboxMessage_strip m' ∧ ci_attempt c = InboxProcessingAttempt_strip a.

Lemma claim_inbox_row_commits worker_id lease row d c d' :
  inbox_ok (inbox d) → commits_to (claim_inbox_row worker_id lease row) d c d' →
  inbox_claimed worker_id (im_inbox_id row) c d d'.
Proof.
  intros Hd H. unfold claim_inbox_row in H.
  apply commits_to_bind in H as (l & ? & ->%commits_to_uuid4 & H).
  apply commits_to_bind in H as (i & ? & ->%commits_to_uuid4 & H).
  apply commits_to_bind in H as (t & ? & ->%commits_to_clock & H).
  apply commits_to_bind in H as (t' & ? & ->%commits_to_clock & H).
  apply commits_to_bind in H as (up & d1 & Hu & H).
  apply update_inbox_commits in Hu as [[-> ->]|(m & -> & Hm & Hw & Hput)]; [by apply commits_to_raise in H|].
  pose proof (ib_id _ Hd _ m Hm) as Hid. bools.
  set (m' := inbox_leased_row l worker_id (t + lease) t' m) in *.
  set (a := open_inbox_attempt i l worker_id m') in *.
  apply commits_to_bind in H as (u & d2 & Hins%commits_to_execute & H).
  apply commits_to_bind in H as (at_ & ? & [Hat ->]%commits_to_lift & H).
  apply commits_to_bind in H as (p & ? & [Hp ->]%commits_to_lift & H).
  apply commits_to_lift in H as [Hc ->].
  apply put_inbox_message_effect in Hput as (-> & Hck & _).
  apply insert_inbox_attempt_effect in Hins as (Hnew & -> & Huniq). cbn in Hnew, Huniq.
  assert (p = im_payload m') as ->.
  { change (im_payload m') with (im_payload m) in *. rewrite (ib_payload _ Hd _ m Hm) in Hp. by injection Hp. }
  rewrite with_inbox_payload_same in Hc.
  exists m, m', a. split; [|split_and!]; try done.
    split; cbn; try done. split; cbn; rewrite ?Hid; done.
  - unfold ClaimedInboxMessage_validate in Hc. cbv zeta in Hc. by inv_ok.
  - unfold ClaimedInboxMessage_validate in Hc. cbv zeta in Hc. inv_ok. cbn.
    unfold InboxProcessingAttempt_validate in Hat. cbv zeta in Hat. by inv_ok.
Qed.

Lemma inbox_claimed_kept w k c d d' : inbox_claimed w k c d d' → inbox_kept d d'.
Proof. intros (m & m' & a & H & _) Hd. split; [by eapply inbox_leased_ok|by eapply inbox_leased_evolves]. Qed.

Lemma within_put_inbox_attempt a : tx_within only_inbox (execute (put_inbox_attempt a)).
Proof. auto with within. Qed.

Lemma claim_inbox_steady locked worker_id batch lease :
  tx_within steady (claim_inbox_tx locked worker_id batch lease).
Proof.
  unfold claim_inbox_tx. apply within_bind; [apply _|auto with within|]. intros now.
  apply within_bind; [apply _|auto with within|]. intros sel. apply within_for; [apply _|].
  intros row. apply steady_inbox.
  - unfold claim_inbox_row. tx_walk.
  - intros d c d' H Hd. apply claim_inbox_row_commits in H; [|done]. by eapply inbox_claimed_kept.
Qed.

(** * Renewal *)

Lemma renew_inbox_commits k l w lease d b d' :
  inbox_ok (inbox d) → commits_to (renew_inbox_tx k l w lease) d b d' →
  (b = false ∧ d' = d) ∨ b = true ∧ only_inbox d d' ∧ inbox_attempts (inbox d') = inbox_attempts (inbox d) ∧
    ∃ m t u t' e, message_stored m (inbox_renewed_row u t' m) (inbox d) (inbox d') ∧ im_inbox_id m = k ∧
      inbox_lease l w m = true ∧ im_lease_expires_at m = Some e ∧ t < e.
Proof.
  intros Hd H. unfold renew_inbox_tx in H.
  apply commits_to_bind in H as (t & ? & ->%commits_to_clock & H).
  apply commits_to_bind in H as (t1 & ? & ->%commits_to_clock & H).
  apply commits_to_bind in H as (t2 & ? & ->%commits_to_clock & H).
  apply commits_to_bind in H as (up & d1 & Hu & H). apply commits_to_ret in H as [-> ->].
  apply update_inbox_commits in Hu as [[-> ->]|(m & -> & Hm & Hw & Hput)]; [by left|right].
  pose proof (ib_id _ Hd _ m Hm) as Hid.
  apply andb_true_iff in Hw as [Hl He]. destruct (im_lease_expires_at m) as [e|] eqn:Ee; [|done].
  apply put_inbox_message_effect in Hput as (-> & Hck & _). split_and!; [done..|].
  eexists m, t, _, t2, e. split_and!; [|done..|lia]. split; cbn; rewrite ?Hid; done.
Qed.

Lemma renew_inbox_steady k l w lease : tx_within steady (renew_inbox_tx k l w lease).
Proof.
  apply steady_inbox.
  - unfold renew_inbox_tx. tx_walk.
  - intros d b d' H Hd. apply renew_inbox_commits in H as [[_ ->]|(_ & _ & Ea & m & t & u & t' & e & Hs & _)];
      [split; [done|reflexivity]| |done]. by eapply inbox_touched_ok.
Qed.

(** * Recovery *)

(** How a recovered message goes on after [attempts] attempts of its cycle. *)
Definition recovery_row (attempts : Z) (t t' : instant) : InboxMessage → InboxMessage :=
  if 5 <=? attempts then exhausted_inbox_row t t' else recovered_inbox_row t t'.

Definition inbox_recovered (row : InboxMessage) (d d' : database) : Prop :=
  ∃ i l w t t', im_lease_id row = Some l ∧ im_lease_owner row = Some w ∧
    lease_ended i (im_inbox_id row) l w ia_lease_expired
      (recovery_row (im_attempts_in_cycle row) t t') d d'.

Lemma recover_inbox_row_commits row d u d' :
  inbox_ok (inbox d) → commits_to (recover_inbox_row row) d u d' → inbox_recovered row d d'.
Proof.
  intros Hd H. unfold recover_inbox_row in H.
  apply commits_to_bind in H as (now & ? & ->%commits_to_clock & H).
  apply commits_to_bind in H as (l & ? & [Hl ->]%commits_to_select & H).
  apply commits_to_bind in H as (? & d1 & Hput & H).
  destruct l as [|a [|]]; try by apply commits_to_raise in Hput. apply commits_to_execute in Hput.
  assert (a ∈ open_inbox_attempts row d) as Ha by (rewrite <- Hl; set_solver).
  apply list_elem_of_filter in Ha as [(Hk & Hal & Haw & Hopen) [i Hi]%elem_of_rows].
  pose proof (ib_attempt_id _ Hd i a Hi) as Hai.
  apply commits_to_bind in H as (t0 & ? & ->%commits_to_clock & H).
  apply commits_to_bind in H as (t1 & ? & ->%commits_to_clock & H).
  apply commits_to_bind in H as (t2 & ? & ->%commits_to_clock & H).
  apply commits_to_bind in H as (up & d2 & Hu & H).
  apply commits_to_raise_if in H as [Hn ->]. destruct up as [r|]; [|done].
  fold (recovery_row (im_attempts_in_cycle row) t1 t2) in Hu.
  set (set := recovery_row _ t1 t2) in *.
  match type of Hu with commits_to (update_inbox _ ?p _) _ _ _ => set (where_ := p) in * end.
  assert (∃ st, ends_lease set st ∧ inbox_transition_allowed ib_processing st = true ∧ st ≠ ib_processing)
    as (st & Hs & Htr & Hne).
  { subst set. unfold recovery_row. case_match.
    - exists ib_failed. split; [apply ends_exhausted|done].
    - exists ib_received. split; [apply ends_recovered|done]. }
  destruct (closing_inbox d d1 (r, d2) i a (expired_inbox_attempt now a) (im_inbox_id row) where_ set st Hd Hi)
    as (m & Hc & Hmk & _ & Ho); try done.
  exists i, (ia_lease_id a), (ia_worker_id a), t1, t2. split_and!; [done..|].
  exists m, a, (expired_inbox_attempt now a). by split_and!.
Qed.

Lemma recover_inbox_steady locked batch : tx_within steady (recover_inbox_tx locked batch).
Proof.
  unfold recover_inbox_tx. apply within_bind; [apply _| |].
  { apply within_execute. intros d d' H. inv_pg. reflexivity. }
  intros _. apply within_bind; [apply _|auto with within|]. intros now.
  apply within_bind; [apply _|auto with within|]. intros sel.
  apply within_bind; [apply _| |auto with within]. apply within_for; [apply _|]. intros row.
  apply steady_inbox.
  - unfold recover_inbox_row. tx_walk.
  - intros d u d' H Hd. apply recover_inbox_row_commits in H as (i & l & w & t & t' & _ & _ & H); [|done].
    by eapply lease_ended_kept.
Qed.

(** * Receiving *)

(** A delivery of an event is stored once: the first one is, any other finds it. *)
Definition received (row m : InboxMessage) (d d' : database) : Prop :=
  (m = row ∧ event_row (im_connection_id row) (im_event_id row) d = None ∧
     inbox_messages (inbox d) !! im_inbox_id row = None ∧
     d' = set_inbox_messages (<[im_inbox_id row := row]> (inbox_messages (inbox d))) d) ∨
  (d' = d ∧ event_row (im_connection_id row) (im_event_id row) d = Some m).

Lemma event_row_spec connection_id event_id d m :
  event_row connection_id event_id d = Some m →
  (∃ k, inbox_messages (inbox d) !! k = Some m) ∧ im_connection_id m = connection_id ∧ im_event_id m = event_id.
Proof.
  unfold event_row. intros H%head_Some_elem_of.
  by apply list_elem_of_filter in H as [[? ?] ?%elem_of_rows].
Qed.

Lemma inbox_from_row_stored d k m x :
  inbox_ok (inbox d) → inbox_messages (inbox d) !! k = Some m → inbox_from_row m = Ok x →
  x = InboxMessage_strip m.
Proof.
  intros Hd Hm H. unfold inbox_from_row in H. rewrite (ib_payload _ Hd k m Hm) in H. cbn in H.
  rewrite with_inbox_payload_same in H. unfold InboxMessage_validate in H. cbv zeta in H. by inv_ok.
Qed.

Lemma receive_commits k con ev ten data sha at_ d m d' :
  inbox_ok (inbox d) → commits_to (receive_tx k con ev ten data sha at_) d m d' →
  received (received_row k con ev ten data sha at_) m d d' ∧
  (d' = d → replay_conflicts (InboxMessage_strip m) con ev ten data sha = []) ∧
  (d' ≠ d → inbox_messages_check m = true ∧
     collides inbox_event_key (inbox_messages (inbox d)) (im_inbox_id m) m = false).
Proof.
  intros Hd H. unfold receive_tx in H. cbv zeta in H. set (row := received_row _ _ _ _ _ _ _) in *.
  apply commits_to_bind in H as (b & d1 & Hins & H). unfold insert_received in Hins.
  apply commits_to_bind in Hins as (o & ? & [Ho ->]%commits_to_select & Hins).
  destruct o as [x|].
  - apply commits_to_bind in Hins as (? & d2 & Hck%commits_to_execute & Hins). inv_pg.
    apply commits_to_ret in Hins as [-> ->].
    apply commits_to_bind in H as (o & ? & [Hx ->]%commits_to_select & H).
    change con with (im_connection_id row) in Hx at 1. change ev with (im_event_id row) in Hx at 1.
    rewrite <- Ho in Hx. subst o.
    apply commits_to_bind in H as (e & ? & [He ->]%commits_to_lift & H).
    apply commits_to_bind in H as (? & ? & [Hv ->]%commits_to_lift & H).
    apply commits_to_ret in H as [-> ->]. symmetry in Ho.
    destruct (event_row_spec _ _ _ _ Ho) as ([i Hi] & _).
    rewrite (inbox_from_row_stored _ _ _ _ Hd Hi He) in Hv. split_and!; [by right| |done].
    intros _. unfold verify_inbox_exact_replay in Hv. apply raise_if_ok in Hv.
    apply bool_decide_eq_false in Hv. by apply dec_stable.
  - apply commits_to_bind in Hins as (? & d2 & Hput%commits_to_execute & Hins).
    apply commits_to_ret in Hins as [-> ->]. apply commits_to_ret in H as [-> ->].
    apply pg_bind_ok in Hput as (? & Hnew & Hput). apply pg_check_ok, bool_decide_eq_true in Hnew.
    apply put_inbox_message_effect in Hput as (-> & Hck & Hu). split_and!; [by left| |done].
    intros E. exfalso. apply (f_equal (λ d, inbox_messages (inbox d) !! im_inbox_id row)) in E.
    cbn in E. rewrite lookup_insert_eq in E. cbn in Hnew. rewrite Hnew in E. done.
Qed.

Lemma receive_steady k con ev ten data sha at_ :
  ProviderWebhookEventData_validate data = Ok data →
  tx_within steady (receive_tx k con ev ten data sha at_).
Proof.
  intros Hdata d m d' H. apply only_inbox_steady.
  - unfold receive_tx, insert_received in H. cbv zeta in H.
    match type of H with commits_to ?t _ _ _ => assert (tx_within only_inbox t) as Hw by tx_walk end.
    by apply Hw in H.
  - intros Hd. apply receive_commits in H as ([(-> & Hfree & Hnew & E)|[-> _]] & _ & Hck); [|split; [done|reflexivity]|done].
    assert (d' ≠ d) as Hne.
    { intros ->. apply (f_equal (λ d, inbox_messages (inbox d) !! k)) in E. cbn in E, Hnew.
      rewrite lookup_insert_eq in E. congruence. }
    destruct (Hck Hne) as [Hc Hu]. subst d'. by eapply inbox_received_ok.
Qed.
