(* ===== verification/SystemSafety.v ===== *)
(** The customer-facing services seen from the outbox: whatever a call does, the messaging
    tables stay as they are, or gain one pending command that its readers accept.  With the
    theorems on each service this makes every transaction of the system steady. *)
From S2P Require Import Prelude Effects Auth OperationModels CaseModels CasePolicy Envelope Database Transactions Messaging CaseRepository CaseService CaseSafety CaseTheorems HandoffTheorems CaseGuarantees OperationRepository OperationService OperationSafety OperationTheorems OperationGuarantees OutboxWrites OutboxSafety FinalizationSafety Steady.

(** * Commits of a call, whatever the database *)

(** The commits of [m] are steps of [R], and the only changes of its own: a fact that the
    interference and these commits keep holds at the end if it held at the start. *)
Definition only_commits {A} (R : relation database) (m : M database A) : Prop :=
  ∀ amb J w r w', rely amb J → m amb w = (r, w') →
    ∃ cs, w_log w' = w_log w ++ cs ∧ Forall (λ c, R c.1 c.2) cs ∧
      (Forall (λ c, J c.1 → J c.2) cs → J (w_db w) → J (w_db w')).

Section OnlyCommits.
Context (R : relation database).

Lemma only_ret {A} (a : A) : only_commits R (ret a).
Proof. intros amb J w r w' _ [= <- <-]. exists []. by rewrite app_nil_r. Qed.
Lemma only_raise {A} e : only_commits (A := A) R (raise e).
Proof. intros amb J w r w' _ [= <- <-]. exists []. by rewrite app_nil_r. Qed.
Lemma only_lift {A} (x : res A) : only_commits R (lift x).
Proof. intros amb J w r w' _ [= <- <-]. exists []. by rewrite app_nil_r. Qed.
Lemma only_now : only_commits R now.
Proof. intros amb J w r w' _ [= <- <-]. exists []. cbn. by rewrite app_nil_r. Qed.
Lemma only_new_id : only_commits R new_id.
Proof. intros amb J w r w' _ [= <- <-]. exists []. cbn. by rewrite app_nil_r. Qed.
Lemma only_query {A} pe (f : database → res A) : only_commits R (query pe f).
Proof.
  intros amb J w r w' Hrely Hr. unfold query in Hr. exists [].
  assert (w_log w' = w_log w ∧ w_db w' = interfere amb (w_tick w) (w_db w)) as [-> ->].
  { destruct (fault_at amb (w_tick w)); by injection Hr as <- <-. }
  rewrite app_nil_r. split_and!; [done..|]. intros _. apply Hrely.
Qed.

(** One call after another. *)
Lemma only_seq {A B} (m : M database A) (k : M database B) amb J w a w1 r w' :
  only_commits R m → only_commits R k → rely amb J → m amb w = (a, w1) → k amb w1 = (r, w') →
  ∃ cs, w_log w' = w_log w ++ cs ∧ Forall (λ c, R c.1 c.2) cs ∧
    (Forall (λ c, J c.1 → J c.2) cs → J (w_db w) → J (w_db w')).
Proof.
  intros Hm Hk Hrely H1 H2. destruct (Hm amb J _ _ _ Hrely H1) as (cs1 & L1 & F1 & K1).
  destruct (Hk amb J _ _ _ Hrely H2) as (cs2 & L2 & F2 & K2). exists (cs1 ++ cs2).
  rewrite L2, L1, app_assoc. split; [done|]. split; [by apply Forall_app|].
  intros [Ha Hb]%Forall_app. auto.
Qed.

Lemma only_bind {A B} (m : M database A) (f : A → M database B) :
  only_commits R m → (∀ a, only_commits R (f a)) → only_commits R (bind m f).
Proof.
  intros Hm Hf amb J w r w' Hrely. unfold bind. destruct (m amb w) as [[a|e] w1] eqn:E; intros Hr.
  - by eapply (only_seq m (f a)).
  - injection Hr as <- <-. by eapply Hm.
Qed.
Lemma only_lift_bind {A B} (x : res A) (f : A → M database B) :
  (∀ a, x = Ok a → only_commits R (f a)) → only_commits R (bind (lift x) f).
Proof.
  intros Hf. destruct x as [a|e]; [by apply Hf|]. intros amb J w r w' _ [= <- <-].
  exists []. by rewrite app_nil_r.
Qed.
Lemma only_try {A} (m : M database A) h :
  only_commits R m → (∀ e, match h e with Some k => only_commits R k | None => True end) →
  only_commits R (try_except m h).
Proof.
  intros Hm Hh amb J w r w' Hrely. unfold try_except. destruct (m amb w) as [[a|e] w1] eqn:E; intros Hr.
  - injection Hr as <- <-. by eapply Hm.
  - specialize (Hh e). destruct (h e) as [k|]; [by eapply (only_seq m k)|].
    injection Hr as <- <-. by eapply Hm.
Qed.
Lemma only_for {A} n (body : M database (option A)) after :
  only_commits R body → only_commits R after → only_commits R (for_attempts n body after).
Proof.
  intros Hb Ha. induction n as [|n IH]; cbn; [done|]. apply only_bind; [done|].
  intros [a|]; [apply only_ret|done].
Qed.
Lemma only_transact {A} pe (f : database → res (A * database)) :
  (∀ d a d', f d = Ok (a, d') → R d d') → only_commits R (transact pe f).
Proof.
  intros Hf amb J w r w' Hrely Hr. unfold transact in Hr.
  pose proof (Hrely (w_tick w) (w_db w)) as Hd. set (d := interfere amb (w_tick w) (w_db w)) in *.
  assert (∃ cs, w_log w' = w_log w ++ cs ∧
    (cs = [] ∧ w_db w' = d ∨ ∃ a d', f d = Ok (a, d') ∧ cs = [(d, d')] ∧ w_db w' = d')) as (cs & Hl & Hc).
  { destruct (fault_at amb (w_tick w)), (f d) as [[a d']|e] eqn:E; injection Hr as <- <-; cbn;
      first [by exists []; rewrite app_nil_r; auto
      | exists [(d, d')]; split; [done|]; right; by exists a, d']. }
  exists cs. split; [done|]. destruct Hc as [[-> ->]|(a & d' & E & -> & ->)].
  - split; [done|]. auto.
  - split; [apply Forall_singleton; by eapply Hf|]. rewrite Forall_singleton. cbn. auto.
Qed.

Lemma only_tx {A} pe handler (t : Tx A) : tx_within R t → only_commits R (in_transaction pe handler t).
Proof.
  intros Ht amb J w r w' Hrely Hr. unfold in_transaction in Hr.
  pose proof (Hrely (w_tick w) (w_db w)) as Hd. set (d := interfere amb (w_tick w) (w_db w)) in *.
  destruct (t amb d (S (w_tick w))) as [[a d'|e] n] eqn:E.
  2:{ destruct (fault_at amb (w_tick w)); injection Hr as <- <-; exists []; rewrite app_nil_r;
      (split; [done|]; split; [done|]); auto. }
  assert (R d d') as HR by (eapply Ht; by do 3 eexists).
  destruct (fault_at amb (w_tick w)); injection Hr as <- <-.
  2:{ exists []. rewrite app_nil_r. split; [done|]. split; [done|]. auto. }
  all: exists [(d, d')]; split; [done|]; rewrite !Forall_singleton; cbn; (split; [done|]); auto.
Qed.
End OnlyCommits.

(** A call whose commits are steady keeps the invariant of the system, whatever invariant
    its own theorem runs under. *)
Lemma runs_of_commits {A} amb I (m : M database A) Q R :
  steady_world amb → (∀ d, system_ok d → I d) →
  runs amb I m Q → only_commits R m →
  (∀ r cs, Q r cs → Forall (λ c, R c.1 c.2) cs → Forall (λ c, steady c.1 c.2) cs) →
  runs amb system_ok m (λ r cs, Q r cs ∧ Forall (λ c, R c.1 c.2) cs).
Proof.
  intros Hamb HI H1 H2 HQ w r w' Hw Hr. destruct (H1 w r w' (HI _ Hw) Hr) as (_ & cs & Hl & Hq).
  destruct (H2 amb system_ok w r w' (rely_system amb Hamb) Hr) as (cs2 & Hl2 & HR & HJ).
  rewrite Hl in Hl2. apply app_inv_head in Hl2 as <-. specialize (HQ r cs Hq HR).
  split; [|by exists cs]. apply HJ; [|done]. eapply Forall_impl; [exact HQ|].
  intros [d d'] Hs Hd. by eapply system_ok_steady.
Qed.

Lemma honest_of_commits {A} amb I (m : M database A) Q R :
  steady_world amb → (∀ d, system_ok d → I d) →
  runs amb I m Q → only_commits R m →
  (∀ r cs, Q r cs → Forall (λ c, R c.1 c.2) cs → Forall (λ c, steady c.1 c.2) cs) →
  honest amb system_ok m.
Proof.
  intros Hamb HI H1 H2 HQ. eapply runs_weaken; [by eapply runs_of_commits|].
  intros r cs [Hq HR]. eauto.
Qed.

Create HintDb calls discriminated.
#[export] Hint Resolve only_ret only_raise only_lift only_now only_new_id only_query : calls.

Ltac call_walk :=
  repeat first
    [ progress intros
    | progress cbv zeta
    | solve [eauto with calls]
    | match goal with
      | |- only_commits _ (bind (lift _) _) => apply only_lift_bind; intros
      | |- only_commits _ (bind _ _) => apply only_bind
      | |- only_commits _ (try_except _ _) => apply only_try
      | |- only_commits _ (for_attempts _ _ _) => apply only_for
      | |- only_commits _ (match ?x with _ => _ end) => destruct x
      | |- match (match ?x with _ => _ end) with _ => _ end => destruct x
      end ].

(** * What the services do to the messaging tables *)

Definition enqueued (d d' : database) : Prop :=
  ∃ c now, ProviderCommandEnvelope_validate c = Ok c ∧
    outbox_messages d !! e_command_id c = None ∧
    outbox_messages d' =
      <[e_command_id c := outbox_row c ob_pending now now cap_order_operation]> (outbox_messages d).

Record enqueues_only (d d' : database) : Prop := {
  eo_outbox : outbox_messages d' = outbox_messages d ∨ enqueued d d';
  eo_attempts : outbox_delivery_attempts d' = outbox_delivery_attempts d;
  eo_deliveries : provider_deliveries d' = provider_deliveries d;
  eo_redrives : outbox_redrives d' = outbox_redrives d;
  eo_submissions : provider_submissions d' = provider_submissions d;
  eo_inbox : same_inbox d d';
  eo_refunds : refund_requests d' = refund_requests d;
}.

(** Neither the messaging tables, nor the provider, nor the refunds. *)
Definition away_from_provider (d d' : database) : Prop :=
  same_messaging d d' ∧ provider_submissions d' = provider_submissions d ∧ same_inbox d d' ∧
  refund_requests d' = refund_requests d.

#[export] Instance away_from_provider_preorder : PreOrder away_from_provider.
Proof.
  split; unfold away_from_provider.
  - intros d. by split.
  - intros x y z (M1 & E1 & I1 & R1) (M2 & E2 & I2 & R2). split_and!; [by etrans|congruence|by etrans|congruence].
Qed.

Lemma enqueues_only_same d d' : away_from_provider d d' → enqueues_only d d'.
Proof. intros ((E1 & E2 & E3 & E0) & E4 & E5 & E6). split; [by left|done..]. Qed.

(** The row of a valid command gives back a valid command. *)
Lemma envelope_created_at c t :
  ProviderCommandEnvelope_validate c = Ok c →
  let c' := mkEnvelope (e_schema_version c) (e_command_id c) (e_idempotency_key c)
    (e_source_message_id c) (e_aggregate_type c) (e_aggregate_id c) (e_expected_order_version c)
    (e_tenant_id c) (e_customer_id c) (e_connection_id c) (e_command_type c) (e_payload c) t in
  ProviderCommandEnvelope_validate c' = Ok c'.
Proof.
  unfold ProviderCommandEnvelope_validate. cbn. intros H.
  apply res_bind_ok in H as (p & Hp & H). rewrite Hp. cbn [res_bind].
  apply res_bind_ok in H as (u & Hu & H). rewrite Hu. cbn [res_bind].
  apply res_bind_ok in H as (u' & Hu' & H).
  change (validate_payload_type _) with (validate_payload_type (mkEnvelope (e_schema_version c)
    (e_command_id c) (strip (e_idempotency_key c)) (strip (e_source_message_id c)) (e_aggregate_type c)
    (e_aggregate_id c) (e_expected_order_version c) (strip (e_tenant_id c)) (strip (e_customer_id c))
    (strip (e_connection_id c)) (e_command_type c) p (e_created_at c))).
  rewrite Hu'. cbn [res_bind]. destruct c; cbn in *. injection H; intros.
  repeat match goal with H : strip _ = _ |- _ => rewrite H; clear H end. congruence.
Qed.

Lemma enqueues_only_kept d d' : schema_ok d' → enqueues_only d d' → outbox_kept d d'.
Proof.
  intros Hs [[E1|(c & t & Hc & Hfree & E1)] E2 E3 E4 _ _ _] Hd.
  - split; [by eapply outbox_ok_frame|]. split; [|by rewrite E4]. intros k m Hm. exists m. rewrite E1. split; [done|]. reflexivity.
  - split.
    + eapply (outbox_ok_enqueue d d' (outbox_row c ob_pending t t cap_order_operation)); try done.
      apply (envelope_created_at c t Hc).
    + split; [|by rewrite E4]. intros k m Hm. exists m. rewrite E1, lookup_insert_ne; [split; [done|reflexivity]|].
      intros <-. congruence.
Qed.

(** * The transactions of the two repositories *)

Lemma queue_enqueues c st at_ d d' :
  st = ob_pending → ProviderCommandEnvelope_validate c = Ok c → insert_outbox_message c st at_ at_ d = PgOk d' →
  enqueues_only d d'.
Proof.
  intros -> Hc [Hfree ->]%insert_outbox_message_effect. split; [right|done..]. by exists c, at_.
Qed.

Lemma enqueues_after d d1 d' : away_from_provider d d1 → enqueues_only d1 d' → enqueues_only d d'.
Proof.
  intros ((E1 & E2 & E3 & E0) & E4 & E5 & E6) [H1 H2 H3 H0 H4 H5 H6]. split; [|congruence..|by etrans|congruence].
  unfold enqueued in *. by rewrite E1 in H1.
Qed.

Lemma insert_case_event_messaging e d d' : insert_case_event e d = PgOk d' → away_from_provider d d'.
Proof. by intros ->%insert_case_event_effect. Qed.
Lemma put_support_case_messaging c d d' : put_support_case c d = PgOk d' → away_from_provider d d'.
Proof. by intros ->%put_support_case_effect. Qed.
Lemma insert_support_case_messaging c d d' : insert_support_case c d = PgOk d' → away_from_provider d d'.
Proof. by intros [_ ->]%insert_support_case_effect. Qed.

(** A case row and its event. *)
Lemma case_write_messaging (write : pg database) e d d' :
  (∀ d1, write = PgOk d1 → away_from_provider d d1) →
  pg_bind write (insert_case_event e) = PgOk d' → away_from_provider d d'.
Proof.
  intros Hw (d1 & H1 & H2)%pg_bind_ok. etrans; [by apply Hw|by eapply insert_case_event_messaging].
Qed.

Lemma update_case_row_messaging visible c v d p :
  update_case_row visible c v d = Some p → ∀ d1, p = PgOk d1 → away_from_provider d d1.
Proof.
  unfold update_case_row. intros H d1 ->. repeat case_match; simplify_eq.
  by eapply put_support_case_messaging.
Qed.

Lemma only_create_case_away s c e : only_commits away_from_provider (create_case_with_event s c e).
Proof.
  unfold create_case_with_event. call_walk. apply only_transact. intros d u d' Hf.
  apply res_bind_ok in Hf as (d0 & Hf & [= _ ->]).
  apply case_errors_ok in Hf. eapply case_write_messaging; [|done].
  intros d1. apply insert_support_case_messaging.
Qed.

Lemma only_update_case_away s c e v : only_commits away_from_provider (update_case_with_event s c e v).
Proof.
  unfold update_case_with_event. call_walk. apply only_transact. intros d u d' Hf.
  destruct (update_case_row _ _ _ _) as [p|] eqn:Hp; [|done].
  apply res_bind_ok in Hf as (d0 & Hf & [= _ ->]).
  apply case_errors_ok in Hf. eapply case_write_messaging; [|done].
  by eapply update_case_row_messaging.
Qed.

Lemma only_weaken {A} (R R' : relation database) (m : M database A) :
  (∀ d d', R d d' → R' d d') → only_commits R m → only_commits R' m.
Proof.
  intros HR Hm amb J w r w' Hrely Hr. destruct (Hm amb J w r w' Hrely Hr) as (cs & Hl & HF & HJ).
  exists cs. split_and!; [done| |done]. eapply Forall_impl; [exact HF|]. intros [d d']. apply HR.
Qed.

Lemma only_away {A} (m : M database A) : only_commits away_from_provider m → only_commits enqueues_only m.
Proof. apply only_weaken, enqueues_only_same. Qed.

Lemma only_create_case s c e : only_commits enqueues_only (create_case_with_event s c e).
Proof. apply only_away, only_create_case_away. Qed.
Lemma only_update_case s c e v : only_commits enqueues_only (update_case_with_event s c e v).
Proof. apply only_away, only_update_case_away. Qed.

Lemma only_create_case_command s c e command :
  ProviderCommandEnvelope_validate command = Ok command →
  only_commits enqueues_only (create_case_with_event_and_command s c e command).
Proof.
  intros Hc. unfold create_case_with_event_and_command. call_walk. apply only_transact. intros d u d' Hf.
  apply res_bind_ok in Hf as (d0 & Hf & [= _ ->]).
  apply case_errors_ok, pg_bind_ok in Hf as (dm & Hm1 & Hm2).
  eapply enqueues_after; [|by eapply queue_enqueues]. eapply case_write_messaging; [|done].
  intros d2. apply insert_support_case_messaging.
Qed.

Lemma only_append_delivery s c e command v :
  ProviderCommandEnvelope_validate command = Ok command →
  only_commits enqueues_only (append_delivery_trigger_and_ensure_command s c e command v).
Proof.
  intros Hc. unfold append_delivery_trigger_and_ensure_command. call_walk. apply only_transact. intros d u d' Hf.
  destruct (update_case_row _ _ _ _) as [p|] eqn:Hp; [|done].
  apply res_bind_ok in Hf as (dm & Hm1%case_errors_ok & Hf).
  assert (away_from_provider d dm) as Hm.
  { eapply case_write_messaging; [|done]. by eapply update_case_row_messaging. }
  destruct (has_case_command _ _); inv_ok; [by apply enqueues_only_same|].
  eapply enqueues_after; [exact Hm|]. eapply queue_enqueues; [done..|].
  by eapply case_errors_ok.
Qed.

Lemma put_then_events_inbox o es d d' :
  pg_bind (put_order_operation o d) (insert_operation_events es) = PgOk d' → same_inbox d d'.
Proof.
  intros (d1 & H1 & H2)%pg_bind_ok. apply put_order_operation_effect in H1 as [-> _].
  by apply insert_operation_events_effect in H2 as ->.
Qed.

Lemma put_then_events_refunds o es d d' :
  pg_bind (put_order_operation o d) (insert_operation_events es) = PgOk d' →
  refund_requests d' = refund_requests d.
Proof.
  intros (d1 & H1 & H2)%pg_bind_ok. apply put_order_operation_effect in H1 as [-> _].
  by apply insert_operation_events_effect in H2 as ->.
Qed.

Lemma put_operation_messaging o es d d' :
  pg_bind (put_order_operation o d) (insert_operation_events es) = PgOk d' → away_from_provider d d'.
Proof.
  intros H. pose proof (put_then_events_inbox _ _ _ _ H). pose proof (put_then_events_refunds _ _ _ _ H).
  by apply put_then_events in H as (_ & _ & _ & ? & ? & _).
Qed.

Lemma update_operation_row_put visible o v d p :
  update_operation_row visible o v d = Some p → ∃ o', p = put_order_operation o' d.
Proof. unfold update_operation_row. intros H. repeat case_match; simplify_eq; eauto. Qed.

Lemma only_create_operation_away s o es : only_commits away_from_provider (create_operation_with_events s o es).
Proof.
  unfold create_operation_with_events. call_walk. apply only_transact. intros d u d' Hf.
  apply res_bind_ok in Hf as (d0 & Hf & [= _ ->]).
  apply operation_errors_ok in Hf. apply (put_operation_messaging o es).
  apply pg_bind_ok in Hf as (dm & Hm1 & Hm2). unfold insert_order_operation in Hm1.
  apply pg_bind_ok in Hm1 as (? & _ & ->). exact Hm2.
Qed.

Lemma only_update_operation_away s o es v : only_commits away_from_provider (update_operation_with_events s o es v).
Proof.
  unfold update_operation_with_events. call_walk. apply only_transact. intros d u d' Hf.
  destruct (update_operation_row _ _ _ _) as [p|] eqn:Hp; [|done].
  apply res_bind_ok in Hf as (d0 & Hf & [= _ ->]).
  apply update_operation_row_put in Hp as [o' ->]. apply operation_errors_ok in Hf.
  by eapply put_operation_messaging.
Qed.

Lemma only_create_operation s o es : only_commits enqueues_only (create_operation_with_events s o es).
Proof. apply only_away, only_create_operation_away. Qed.
Lemma only_update_operation s o es v : only_commits enqueues_only (update_operation_with_events s o es v).
Proof. apply only_away, only_update_operation_away. Qed.

Lemma only_queue_operation s o es command v :
  ProviderCommandEnvelope_validate command = Ok command →
  only_commits enqueues_only (queue_operation_with_events_and_command s o es command v).
Proof.
  intros Hc. unfold queue_operation_with_events_and_command. call_walk. apply only_transact. intros d u d' Hf.
  destruct (update_operation_row _ _ _ _) as [p|] eqn:Hp; [|done].
  apply res_bind_ok in Hf as (d0 & Hf & [= _ ->]).
  apply update_operation_row_put in Hp as [o' ->]. apply operation_errors_ok, pg_bind_ok in Hf as (dm & Hm1 & Hm2).
  eapply enqueues_after; [by eapply put_operation_messaging|by eapply queue_enqueues].
Qed.


(** The operation service also calls the provider directly. *)
Definition enqueues_or_submits (d d' : database) : Prop :=
  enqueues_only d d' ∨ ∃ p, d' = add_provider_submission p d.

Lemma only_submit provider p : only_commits enqueues_or_submits (submit_operation provider p).
Proof.
  unfold submit_operation. apply only_transact. intros d u d' Hf.
  apply res_bind_ok in Hf as (x & _ & [= _ <-]). right. by eexists.
Qed.

#[export] Hint Resolve only_create_case only_update_case only_submit : calls.
#[export] Hint Resolve only_create_case_away only_update_case_away only_create_operation_away
  only_update_operation_away : calls.
#[export] Hint Extern 2 (only_commits _ (create_case_with_event_and_command _ _ _ _)) =>
  eapply only_create_case_command, for_delivery_investigation_normal; eassumption : calls.
#[export] Hint Extern 2 (only_commits _ (append_delivery_trigger_and_ensure_command _ _ _ _ _)) =>
  eapply only_append_delivery, for_delivery_investigation_normal; eassumption : calls.
#[export] Hint Extern 2 (only_commits enqueues_or_submits (create_operation_with_events _ _ _)) =>
  eapply only_weaken; [by left|apply only_create_operation] : calls.
#[export] Hint Extern 2 (only_commits enqueues_or_submits (update_operation_with_events _ _ _ _)) =>
  eapply only_weaken; [by left|apply only_update_operation] : calls.
#[export] Hint Extern 2 (only_commits enqueues_or_submits (queue_operation_with_events_and_command _ _ _ _ _)) =>
  eapply only_weaken; [by left|]; eapply only_queue_operation, for_order_operation_normal; eassumption : calls.

(** * The calls *)

Lemma only_case_call n directory s call : only_commits enqueues_only (run_case_call n directory s call).
Proof.
  destruct call; cbn [run_case_call]; unfold record_handoff, record_delivery_investigation, change_status, assign_case,
    handoff_conflict, replay_conflict, replay_previous, returning, append_trigger, create_case,
    create_delivery_case_with_command, find_by_source_message, find_unresolved_case,
    find_event_by_idempotency_key, get_case, service_result, assert_some; call_walk.
Qed.

Lemma only_operation_call n provider s call :
  only_commits enqueues_or_submits (run_operation_call n provider s call).
Proof.
  destruct call; cbn [run_operation_call]; unfold create_pending_operation, confirm_operation,
    cancel_pending_operation, change_from_pending, submit_confirmed_operation, queue_confirmed_operation,
    update_operation_status, attach_support_case, once_per_key, try_update, write_conflict, prior_result,
    existing_for_request, creation_conflict, build_pending_operation, build_status_update, unchanged_result, get_operation,
    find_operation_event_by_idempotency_key, repo_get_operation, find_operation_by_source_message,
    find_active_by_order_id; call_walk.
Qed.

(** * Their transactions are steady *)

(** A commit on a case. *)
Lemma case_commit_steady s old c e d d' :
  case_committed s old c e d d' → enqueues_only d d' → steady d d'.
Proof.
  intros Hc He. pose proof (cdb_schema d' (cc_ok _ _ _ _ _ _ Hc)) as Hs. split.
  - by intros _.
  - intros _. split; [apply Hc|by eapply case_committed_evolves].
  - intros [Hsch Hr Hev Hcmd Hsub]. destruct (cc_operations _ _ _ _ _ _ Hc) as [E1 E2].
    split; [|by apply operations_evolve_frame]. split; [done|by rewrite E1|by rewrite E2|..].
    + intros k m Hm. unfold command_justified in *. rewrite E1.
      destruct (cc_outbox _ _ _ _ _ _ Hc) as [E|(x & Hfree & E & _ & Hty & _)]; rewrite E in Hm; [by eapply Hcmd|].
      rewrite lookup_insert in Hm. case_decide; [|by eapply Hcmd]. injection Hm as <-. by rewrite Hty.
    + rewrite (eo_submissions _ _ He). unfold submission_justified in *. by rewrite E1.
  - by apply enqueues_only_kept.
  - by apply inbox_kept_frame, He.
Qed.

(** A commit on an operation. *)
Lemma operation_commit_steady s old o es d d' :
  op_committed s old o es d d' → enqueues_only d d' → steady d d'.
Proof.
  intros Hc He. pose proof (odb_schema d' (oc_ok _ _ _ _ _ _ Hc)) as Hs. split.
  - by intros _.
  - intros Hd. destruct (oc_cases _ _ _ _ _ _ Hc) as [E1 E2].
    split; [by eapply case_db_ok_frame|by apply cases_evolve_frame].
  - intros _. split; [apply Hc|by eapply op_committed_evolves].
  - by apply enqueues_only_kept.
  - by apply inbox_kept_frame, He.
Qed.

(** A call to the order provider. *)
Lemma submission_steady p d :
  (op_db_ok d → op_db_ok (add_provider_submission p d)) → steady d (add_provider_submission p d).
Proof.
  intros Hop. assert (schema_kept d (add_provider_submission p d)) as Hs by (by intros []; split). split.
  - done.
  - intros Hd. split; [eapply case_db_ok_frame; [exact Hd|apply Hs, Hd|done]|by apply cases_evolve_frame].
  - intros Hd. split; [by apply Hop|by apply operations_evolve_frame].
  - by apply outbox_kept_frame.
  - by apply inbox_kept_frame.
Qed.

(** * The system *)

Lemma case_call_honest amb n directory s call :
  steady_world amb → honest amb system_ok (run_case_call n directory s call).
Proof.
  intros Hamb. eapply (honest_of_commits amb case_db_ok); [done|by intros d []| |apply only_case_call|].
  - apply (case_call_commits amb n directory s call (λ d d', ∃ old c e, case_committed s old c e d d')).
    + by apply steady_world_cases.
    + intros old c e d d' Hc. eauto.
  - intros r cs [->|(d & d' & -> & old & c & e & Hc)] HR; [done|].
    rewrite Forall_singleton in HR |- *. by eapply case_commit_steady.
Qed.

Lemma operation_call_honest amb n provider s call :
  steady_world amb → provider_identifies provider →
  honest amb system_ok (run_operation_call n provider s call).
Proof.
  intros Hamb Hprov. eapply (honest_of_commits amb op_db_ok); [done|by intros d []| |apply only_operation_call|].
  - apply operation_call_commits; [by apply steady_world_operations|done].
  - intros r cs Hc%calls_then_one_steps HR. rewrite Forall_forall in *. intros [d d'] Hin. cbn.
    destruct (Hc _ Hin) as [(i & p & x & o & E & _ & _ & _ & _ & _ & _ & _ & _ & Hok)|(old & o & es & Hcm)].
    + cbn in *. subst d'. by apply submission_steady.
    + cbn in *. destruct (HR _ Hin) as [He|[p E]]; cbn in *; [by eapply operation_commit_steady|].
      subst d'. apply submission_steady. intros _. apply (oc_ok _ _ _ _ _ _ Hcm).
Qed.
