(* ===== verification/CallbackSafety.v ===== *)
(** What applying a provider callback commits: the aggregate moves along its lifecycle, once,
    and the inbox message is settled with it, only for the lease the message carries. *)
From S2P Require Import Prelude Effects OperationModels CaseModels CasePolicy Envelope InboxModels Retry Database Transactions Messaging CaseRepository CaseSafety OperationRepository OperationService OperationSafety OutboxWrites Finalization InboxWrites OutboxRepository InboxRepository InboxFinalizer OutboxSafety FinalizationSafety InboxSafety Steady InboxTransactions SystemSafety.

(** * The decision *)

Lemma decide_apply s p cur inc target :
  decide_order_operation_callback s p cur inc = mkInboxDecision act_apply (Some target) →
  target = inbox_target p ∧ operation_transition_allowed s target = true ∧ s ≠ os_pending_confirmation ∧
  provider_reference_is_compatible cur inc = true.
Proof.
  unfold decide_order_operation_callback. destruct (provider_reference_is_compatible cur inc); [|done].
  cbn. by destruct s, p; intros [=<-].
Qed.

Lemma decide_duplicate s p cur inc target :
  decide_order_operation_callback s p cur inc = mkInboxDecision act_duplicate target →
  s = inbox_target p ∧ provider_reference_is_compatible cur inc = true.
Proof.
  unfold decide_order_operation_callback. destruct (provider_reference_is_compatible cur inc); [|done].
  cbn. by destruct s, p.
Qed.

Lemma decide_stale s p cur inc target :
  decide_order_operation_callback s p cur inc = mkInboxDecision act_stale target →
  operation_transition_allowed (inbox_target p) s = true.
Proof.
  unfold decide_order_operation_callback. destruct (provider_reference_is_compatible cur inc); [|done].
  cbn. by destruct s, p.
Qed.

(** A reference is filled in, never replaced. *)
Lemma compatible_reference cur inc x :
  provider_reference_is_compatible cur inc = true → cur = Some x → ref_or inc cur = Some x.
Proof.
  unfold provider_reference_is_compatible. intros H ->. rewrite bool_decide_eq_false_2 in H by done.
  cbn in H. apply orb_true_iff in H as [->%bool_decide_eq_true| <-%bool_decide_eq_true]; [done|].
  cbn. by destruct (nonempty x).
Qed.

(** * The fence *)

Record inbox_lease_current (claimed : ClaimedInboxMessage) (t : instant) (m : InboxMessage)
    (a : InboxProcessingAttempt) (d : database) : Prop := {
  ik_message : inbox_messages (inbox d) !! im_inbox_id (ci_message claimed) = Some m;
  ik_processing : im_status m = ib_processing;
  ik_lease : im_lease_id m = im_lease_id (ci_message claimed) ∧
             strip <$> im_lease_owner m = im_lease_owner (ci_message claimed);
  ik_unexpired : ∃ expires, im_lease_expires_at m = Some expires ∧ t < expires;
  ik_attempt : inbox_attempts (inbox d) !! ia_attempt_id (ci_attempt claimed) = Some a;
  ik_attempt_open : ia_finished_at a = None ∧ ia_inbox_id a = im_inbox_id (ci_message claimed) ∧
             Some (ia_lease_id a) = im_lease_id (ci_message claimed) ∧
             Some (ia_worker_id a) = im_lease_owner (ci_message claimed);
  ik_counters : im_processing_cycle m = im_processing_cycle (ci_message claimed) ∧
             im_processing_attempts m = im_processing_attempts (ci_message claimed) ∧
             im_attempts_in_cycle m = im_attempts_in_cycle (ci_message claimed);
}.

(** What [inbox_from_row] reads. *)
Lemma inbox_from_row_ok m x :
  inbox_from_row m = Ok x →
  ∃ p, x = InboxMessage_strip (with_inbox_payload m p) ∧ ProviderWebhookEventData_validate p = Ok p.
Proof.
  unfold inbox_from_row. intros H. apply res_bind_ok in H as (p & Hp & H). exists p.
  unfold InboxMessage_validate in H. cbv zeta in H. inv_ok.
  split; [done|]. by eapply ProviderWebhookEventData_validate_normal.
Qed.

Lemma lock_inbox_commits claimed d x d' :
  commits_to (lock_inbox claimed) d x d' →
  d' = d ∧ ∃ t m a, inbox_lease_current claimed t m a d ∧ inbox_from_row m = Ok x.1 ∧ t ≤ x.2.
Proof.
  intros H. unfold lock_inbox in H. cbv zeta in H.
  apply commits_to_bind in H as (o & ? & [-> ->]%commits_to_select & H).
  apply commits_to_bind in H as (t & ? & ->%commits_to_clock & H).
  destruct (inbox_messages (inbox d) !! _) as [m|] eqn:Hm; [|by apply commits_to_raise in H].
  apply commits_to_bind in H as (p & ? & [Hp ->]%commits_to_lift & H).
  apply commits_to_bind in H as (? & ? & [Hg ->]%commits_to_raise_if & H).
  apply commits_to_bind in H as (o & ? & [-> ->]%commits_to_select & H).
  destruct (inbox_attempts (inbox d) !! _) as [a|] eqn:Ha; [|by apply commits_to_raise in H].
  apply commits_to_bind in H as (? & ? & [Hg1 ->]%commits_to_raise_if & H).
  apply commits_to_bind in H as (? & ? & [Hg2 ->]%commits_to_raise_if & H).
  apply commits_to_ret in H as [-> ->]. split; [done|]. exists t, m, a. cbn [fst snd].
  destruct (inbox_from_row_ok m p Hp) as (pay & -> & _). cbn in *. bools.
  repeat match goal with H : ¬ (_ ≠ _) |- _ => apply dec_stable in H end.
  split; [|split; [done|lia]]. split; try done.
  - destruct (im_lease_expires_at m) as [e|]; [|done]. exists e. split; [done|lia].
  - split_and!; try done. by apply eq_None_not_Some.
Qed.

(** * The checks a finalizer begins with *)

(** The stored command a callback is about. *)
Definition callback_command (inbox_row : InboxMessage) (msg outbox : OutboxMessage) (d : database) : Prop :=
  outbox_messages d !! im_command_id inbox_row = Some msg ∧ outbox_from_row msg = Ok outbox ∧
  ∃ envelope, to_envelope outbox = Ok envelope ∧ outbox_association_matches inbox_row outbox envelope = true.

Lemma outbox_from_row_status msg outbox : outbox_from_row msg = Ok outbox → om_status outbox = om_status msg.
Proof.
  unfold outbox_from_row. intros H. apply res_bind_ok in H as (p & _ & H).
  unfold OutboxMessage_validate in H. cbv zeta in H. by inv_ok.
Qed.

Section Finalizers.
Context (claimed : ClaimedInboxMessage) (l : uuid) (w : string).

(** Every run of a finalizer holds the lease, and either settles the message without touching
    anything else, or goes on to the aggregate of a finalized command. *)
Lemma checked_callback_steps ag at_ apply d r d' :
  commits_to (checked_callback claimed l w ag at_ apply) d r d' →
  ∃ t m a x now, inbox_lease_current claimed t m a d ∧ inbox_from_row m = Ok x ∧ im_aggregate_type x = ag ∧
    ((∃ code, commits_to (fail_inbox claimed l w now code ag) d r d') ∨
     commits_to (retry_or_fail claimed l w (im_attempts_in_cycle x) now at_ ag) d r d' ∨
     ∃ msg outbox, callback_command x msg outbox d ∧
       decide_inbox_outbox_readiness (om_status msg) ≠ rd_retry ∧
       commits_to (apply x outbox (decide_inbox_outbox_readiness (om_status msg)) now) d r d').
Proof.
  intros H. unfold checked_callback in H.
  apply commits_to_bind in H as ([x now] & ? & Hl & H). apply lock_inbox_commits in Hl as (-> & t & m & a & Hc & Hx & _).
  apply commits_to_bind in H as (? & ? & [Hag ->]%commits_to_raise_if & H).
  apply bool_decide_eq_false, dec_stable in Hag. cbn [fst] in Hx. exists t, m, a, x, now. split_and!; [done..|].
  destruct (negb (payload_association_matches x)); [left; by eexists|].
  apply commits_to_bind in H as (? & ? & [_ ->]%commits_to_raise_if & H).
  apply commits_to_bind in H as (o & ? & [-> ->]%commits_to_select & H).
  destruct (outbox_messages d !! im_command_id x) as [msg|] eqn:Hmsg; [|left; by eexists].
  apply commits_to_bind in H as (outbox & ? & [Ho ->]%commits_to_lift & H).
  destruct (negb (payload_of_aggregate ag _)); [left; by eexists|].
  apply commits_to_bind in H as (e & ? & [He ->]%commits_to_lift & H).
  destruct (outbox_association_matches x outbox e) eqn:Has; cbn [negb] in H; [|left; by eexists].
  right. rewrite (outbox_from_row_status _ _ Ho) in H. cbv zeta in H. case_bool_decide.
  - apply commits_to_bind in H as (? & ? & [_ ->]%commits_to_raise_if & H). by left.
  - right. exists msg, outbox. split_and!; [|done..]. by split_and!; [..|exists e].
Qed.

(** * Order operations *)

(** The operation the finalizer reads. *)
Definition callback_operation (x : InboxMessage) (outbox : OutboxMessage) (row o : OrderOperation)
    (d : database) : Prop :=
  order_operations d !! im_aggregate_id x = Some row ∧ OrderOperation_validate row = Ok o ∧
  operation_association_matches x outbox o = true.

Definition decision_on (x : InboxMessage) (o : OrderOperation) : InboxDecision :=
  decide_order_operation_callback (oo_status o) (wd_command_status (im_payload x))
    (oo_provider_reference o) (incoming_reference (im_payload x)).

(** What a finalizer may have written to the operation before it settles the message. *)
Inductive operation_written (x : InboxMessage) (rd : OutboxReadiness) (now : instant) (row o : OrderOperation)
    (d d1 : database) : InboxFinalizationResult → Prop :=
  | ow_applied target event_id event :
      decision_on x o = mkInboxDecision act_apply (Some target) → rd ≠ rd_dead →
      OrderOperationEvent_validate (callback_event claimed event_id o target
        (ref_or (incoming_reference (im_payload x)) (oo_provider_reference o)) now) = Ok event →
      pg_bind (put_order_operation
                 (callback_row row target (ref_or (incoming_reference (im_payload x)) (oo_provider_reference o))
                    now (oo_version o + 1)) d)
              (insert_operation_events [event]) = PgOk d1 →
      operation_written x rd now row o d d1
        (mkInboxResult fin_applied ag_order_operation (Some (oo_status o)) (Some target) None)
  | ow_reference target :
      decision_on x o = mkInboxDecision act_duplicate target → oo_provider_reference o = None →
      is_Some (incoming_reference (im_payload x)) →
      put_order_operation (callback_row row (oo_status row) (incoming_reference (im_payload x)) now
                             (oo_version o + 1)) d = PgOk d1 →
      operation_written x rd now row o d d1
        (mkInboxResult fin_duplicate ag_order_operation (Some (oo_status o)) (Some (oo_status o)) None)
  | ow_duplicate target :
      decision_on x o = mkInboxDecision act_duplicate target → d1 = d →
      operation_written x rd now row o d d1
        (mkInboxResult fin_duplicate ag_order_operation (Some (oo_status o)) (Some (oo_status o)) None)
  | ow_stale target :
      decision_on x o = mkInboxDecision act_stale target → d1 = d →
      operation_written x rd now row o d d1
        (mkInboxResult fin_stale ag_order_operation (Some (oo_status o)) (Some (oo_status o)) None).

Lemma OrderOperation_validate_same row o :
  OrderOperation_validate row = Ok o →
  oo_operation_id o = oo_operation_id row ∧ oo_version o = oo_version row ∧ oo_status o = oo_status row.
Proof. by intros (-> & _)%OrderOperation_validate_ok. Qed.

Lemma settle_decision_steps (x : InboxMessage) rd row o action now d r d' :
  order_operations d !! oo_operation_id o = Some row → OrderOperation_validate row = Ok o →
  id_action (decision_on x o) = action → action ∈ [act_duplicate; act_stale] →
  commits_to (settle_decision claimed l w o action (incoming_reference (im_payload x)) now) d r d' →
  ∃ d1, operation_written x rd now row o d d1 r ∧ commits_to (process_inbox claimed l w now) d1 tt d'.
Proof.
  intros Hrow Ho Ha Hin H. unfold settle_decision in H.
  apply commits_to_bind in H as (? & d1 & Hw & H). apply commits_to_bind in H as ([] & d2 & Hp & H).
  apply commits_to_ret in H as [-> ->]. exists d1. split; [|done].
  destruct (decision_on x o) as [a target] eqn:Hd. cbn in Ha. subst a.
  destruct (bool_decide (action = act_duplicate)) eqn:Ed; cbn in Hw.
  - apply bool_decide_eq_true in Ed as ->. destruct (_ && _) eqn:Eb.
    + apply andb_true_iff in Eb as [E1%bool_decide_eq_true E2%bool_decide_eq_true].
      apply commits_to_bind in Hw as (up & d3 & Hu & Hn). apply commits_to_raise_if in Hn as [Hn ->].
      apply update_operation_where_commits in Hu as [[-> _]|(row' & _ & Hrow' & _ & Hput)]; [done|].
      assert (row' = row) as -> by congruence. by eapply ow_reference.
    + apply commits_to_ret in Hw as [_ ->]. by eapply ow_duplicate.
  - apply commits_to_ret in Hw as [_ ->]. apply bool_decide_eq_false in Ed.
    apply elem_of_cons in Hin as [?| ->%list_elem_of_singleton]; [done|]. by eapply ow_stale.
Qed.

Lemma apply_operation_callback_steps x outbox rd now d r d' :
  schema_ok d →
  commits_to (apply_operation_callback claimed l w x outbox rd now) d r d' →
  (∃ code, commits_to (fail_inbox claimed l w now code ag_order_operation) d r d') ∨
  ∃ row o d1, callback_operation x outbox row o d ∧ operation_written x rd now row o d d1 r ∧
    (rd = rd_dead → ir_action r = fin_duplicate) ∧
    commits_to (process_inbox claimed l w now) d1 tt d'.
Proof.
  intros Hs H. unfold apply_operation_callback in H.
  apply commits_to_bind in H as (o & ? & [-> ->]%commits_to_select & H).
  destruct (order_operations d !! im_aggregate_id x) as [row|] eqn:Hrow; [|left; by eexists].
  apply commits_to_bind in H as (o & ? & [Ho ->]%commits_to_lift & H).
  destruct (operation_association_matches x outbox o) eqn:Has; cbn [negb] in H; [|left; by eexists].
  cbv zeta in H. fold (decision_on x o) in H.
  case_bool_decide as Hnc; [left; by eexists|].
  destruct (bool_decide (rd = rd_dead) && _) eqn:Hdead; [left; by eexists|]. right.
  destruct (OrderOperation_validate_same row o Ho) as (Eid & Ev & Est).
  pose proof (so_op_id d Hs _ _ Hrow) as Hid.
  assert (order_operations d !! oo_operation_id o = Some row) as Hrow' by (by rewrite Eid, Hid).
  assert (rd = rd_dead → id_action (decision_on x o) = act_duplicate) as Hrd.
  { intros ->. rewrite bool_decide_eq_true_2 in Hdead by done. apply bool_decide_eq_false in Hdead.
    by apply dec_stable. }
  destruct (decision_on x o) as [action target] eqn:Hd. cbn [id_action id_target_status] in *.
  assert (∀ a, a ∈ [act_duplicate; act_stale] → a = action →
    commits_to (settle_decision claimed l w o a (incoming_reference (im_payload x)) now) d r d' →
    ∃ row o d1, callback_operation x outbox row o d ∧ operation_written x rd now row o d d1 r ∧
      (rd = rd_dead → ir_action r = fin_duplicate) ∧
      commits_to (process_inbox claimed l w now) d1 tt d') as Hsettle.
  { intros a Hin -> Hc. destruct (settle_decision_steps x rd row o action now d r d') as (d1 & Hw & Hp);
      [done|done|by rewrite Hd|done..|]. exists row, o, d1. split_and!; [done|done| |done].
    intros Hr. destruct Hw; try done; rewrite Hd in *; specialize (Hrd Hr); congruence. }
  destruct action; [|by apply (Hsettle act_duplicate); [set_solver|..]|by apply (Hsettle act_stale); [set_solver|..]|done].
  destruct target as [target|]; [|by apply commits_to_raise in H].
  unfold apply_decision in H. cbv zeta in H.
  apply commits_to_bind in H as (up & d1 & Hu & H).
  apply commits_to_bind in H as (? & ? & [Hn ->]%commits_to_raise_if & H).
  apply update_operation_where_commits in Hu as [[-> _]|(row' & _ & Hx & _ & Hput)]; [done|].
  assert (row' = row) as -> by congruence.
  apply commits_to_bind in H as (event_id & ? & ->%commits_to_uuid4 & H).
  apply commits_to_bind in H as (event & ? & [He ->]%commits_to_lift & H).
  apply commits_to_bind in H as (? & d2 & Hins%commits_to_execute & H).
  apply commits_to_bind in H as ([] & d3 & Hp & H). apply commits_to_ret in H as [-> ->].
  exists row, o, d2. split_and!; [done| |by intros Hr; specialize (Hrd Hr)|done].
  eapply ow_applied; [exact Hd|by intros Hr; specialize (Hrd Hr)|exact He|].
  rewrite Hput. cbn. by rewrite Hins.
Qed.
End Finalizers.

(** * The inbox side *)

Lemma process_inbox_kept claimed l w now : tx_within inbox_kept (process_inbox claimed l w now).
Proof. intros d u d' H Hd. eapply lease_ended_kept, Hd. by eapply process_inbox_commits. Qed.
Lemma fail_inbox_kept claimed l w now code ag : tx_within inbox_kept (fail_inbox claimed l w now code ag).
Proof. intros d u d' H Hd. eapply lease_ended_kept, Hd. by eapply fail_inbox_commits in H as [_ ?]. Qed.
Lemma retry_or_fail_kept claimed l w n now at_ ag :
  tx_within inbox_kept (retry_or_fail claimed l w n now at_ ag).
Proof.
  intros d u d' H Hd. apply retry_or_fail_commits in H as [(_ & _ & _ & H)|(_ & _ & _ & ? & ? & H)];
    [|by eapply lease_ended_kept..|done]. by eapply lease_ended_kept.
Qed.
Lemma within_inbox_frame {A} (t : Tx A) : tx_within same_inbox t → tx_within inbox_kept t.
Proof. intros H d a d' Hc. by eapply inbox_kept_frame, H. Qed.
Lemma process_inbox_only claimed l w now : tx_within only_inbox (process_inbox claimed l w now).
Proof. unfold process_inbox, mark_inbox_processed. tx_walk. Qed.
Lemma fail_inbox_only claimed l w now code ag : tx_within only_inbox (fail_inbox claimed l w now code ag).
Proof. unfold fail_inbox, mark_inbox_failed. tx_walk. Qed.
Lemma retry_or_fail_only claimed l w n now at_ ag :
  tx_within only_inbox (retry_or_fail claimed l w n now at_ ag).
Proof.
  unfold retry_or_fail. destruct (5 <=? n); [apply fail_inbox_only|]. unfold schedule_inbox_retry. tx_walk.
Qed.

#[export] Hint Resolve process_inbox_kept fail_inbox_kept retry_or_fail_kept : within.
#[export] Hint Extern 2 (tx_within inbox_kept (execute _)) => apply within_inbox_frame; same_inbox_statement : within.

Lemma within_lock_inbox (R : relation database) `{!PreOrder R} claimed : tx_within R (lock_inbox claimed).
Proof. intros d x d' H. apply lock_inbox_commits in H as [-> _]. reflexivity. Qed.
#[export] Hint Resolve within_lock_inbox : within.

Lemma order_operation_callback_kept claimed l w at_ :
  tx_within inbox_kept (checked_callback claimed l w ag_order_operation at_ (apply_operation_callback claimed l w)).
Proof.
  unfold checked_callback, apply_operation_callback, apply_decision, settle_decision, update_operation_where.
  tx_walk.
Qed.

Lemma support_case_callback_kept claimed l w at_ :
  tx_within inbox_kept (checked_callback claimed l w ag_support_case at_ (apply_case_callback claimed l w)).
Proof. unfold checked_callback, apply_case_callback. tx_walk. Qed.

(** * The operation side *)

Lemma incoming_reference_ok e :
  ProviderWebhookEventData_validate e = Ok e → opt_nonempty (strip <$> incoming_reference e) = true.
Proof.
  intros [Hs Hf]%ProviderWebhookEventData_validate_ok. unfold ProviderWebhookEventData_fields_ok in Hf. bools.
  unfold incoming_reference. destruct e as [c ag i st op ref ord t]. cbn in *. injection Hs as E1 E2 E3.
  destruct ref as [a|], op as [b|]; cbn in *; try injection E1 as E1; try injection E2 as E2;
    repeat case_match; cbn; congruence.
Qed.

Lemma callback_write_ok row status reference now v es d d1 :
  op_db_ok d → order_operations d !! oo_operation_id row = Some row → v = oo_version row + 1 →
  (status = oo_status row ∨ operation_transition_allowed (oo_status row) status = true) →
  opt_nonempty (strip <$> reference) = true → Forall op_event_normal es →
  pg_bind (put_order_operation (callback_row row status reference now v) d) (insert_operation_events es) = PgOk d1 →
  op_db_ok d1 ∧ operations_evolve d d1.
Proof.
  intros Hd Hrow -> Hst Href Hes Hw. pose proof (odb_rows d Hd _ _ Hrow) as Hr.
  assert (1 ≤ oo_version row) as Hv.
  { pose proof (so_op_check d (odb_schema d Hd) _ _ Hrow) as Hck. unfold order_operations_check, int4_ok in Hck.
    bools. lia. }
  apply put_then_events in Hw as (Eo & Ee & _ & (Em & _) & Ep & Hs).
  set (row' := callback_row row status reference now _) in *.
  assert (op_readable row') as Hr' by (apply finalized_row_readable; [done|by left|done|lia]).
  assert (operations_evolve d d1) as Hev.
  { eapply evolve_insert; [apply _|exact Hrow|exact Eo|]. intros o [= <-]. split; [|cbn; lia].
    unfold op_same. cbn. split_and!; try done.
    destruct Hst as [->|Hst]; [reflexivity|by apply reaches_one]. }
  split; [|done]. eapply op_db_ok_commit; [exact Hd|by apply Hs, Hd|done|exact Eo|done|exact Ee|done|done|done].
Qed.

Section OperationSide.
Context (claimed : ClaimedInboxMessage).

Lemma callback_operation_row x outbox row o d :
  op_db_ok d → callback_operation x outbox row o d →
  order_operations d !! oo_operation_id row = Some row ∧ o = read_view row ∧ oo_operation_id row = im_aggregate_id x.
Proof.
  intros Hd (Hrow & Ho & _). pose proof (so_op_id d (odb_schema d Hd) _ _ Hrow) as Hid. rewrite Hid.
  split_and!; [done| |done]. eapply validate_read_view; [|done]. by eapply odb_rows.
Qed.

Lemma operation_written_kept x outbox rd now row o d d1 r :
  op_db_ok d → callback_operation x outbox row o d →
  ProviderWebhookEventData_validate (im_payload x) = Ok (im_payload x) →
  operation_written claimed x rd now row o d d1 r → op_db_ok d1 ∧ operations_evolve d d1.
Proof.
  intros Hd Hc Hp Hw. destruct (callback_operation_row _ _ _ _ _ Hd Hc) as (Hrow & -> & _).
  destruct Hw as [target i e Hdec _ He Hput|target _ _ _ Hput|target _ ->|target _ ->].
  - apply OrderOperationEvent_validate_facts in He as (Hen & _ & Href).
    apply decide_apply in Hdec as (-> & Htr & _). eapply callback_write_ok, Hput; try done.
    + by right.
    + by constructor.
  - apply (callback_write_ok row (oo_status row) (incoming_reference (im_payload x)) now
      (oo_version (read_view row) + 1) [] d); [done|done|reflexivity|by left|by apply incoming_reference_ok|done|].
    by rewrite Hput.
  - split; [done|reflexivity].
  - split; [done|reflexivity].
Qed.

Lemma operation_written_frame x rd now row o d d1 r :
  operation_written claimed x rd now row o d d1 r →
  same_cases d d1 ∧ same_messaging d d1 ∧ same_inbox d d1 ∧ schema_kept d d1 ∧
  provider_submissions d1 = provider_submissions d.
Proof.
  assert (∀ o' es, pg_bind (put_order_operation o' d) (insert_operation_events es) = PgOk d1 →
    same_cases d d1 ∧ same_messaging d d1 ∧ same_inbox d d1 ∧ schema_kept d d1 ∧
    provider_submissions d1 = provider_submissions d) as Hput.
  { intros o' es H. pose proof (put_then_events_inbox _ _ _ _ H).
    by apply put_then_events in H as (_ & _ & ? & ? & ? & ?). }
  intros [target i e _ _ _ H|target _ _ _ H|target _ ->|target _ ->].
  - by eapply Hput.
  - eapply (Hput _ []). rewrite H. reflexivity.
  - by split_and!.
  - by split_and!.
Qed.
End OperationSide.

(** * Settling the message *)

Definition settled_status (action : InboxFinalizationAction) : InboxProcessingStatus :=
  match action with
  | fin_applied | fin_duplicate | fin_stale => ib_processed
  | fin_retry_scheduled => ib_received
  | fin_failed => ib_failed
  end.
Definition settled_outcome (action : InboxFinalizationAction) : InboxAttemptOutcome :=
  match action with
  | fin_applied | fin_duplicate | fin_stale => ia_processed
  | fin_retry_scheduled => ia_retry_scheduled
  | fin_failed => ia_terminal_failure
  end.

(** The message [m] under the claimed lease, not expired at the database's time, is settled
    as [action] says, its attempt finished, and no other message or attempt changes. *)
Definition message_settled (claimed : ClaimedInboxMessage) (action : InboxFinalizationAction)
    (m : InboxMessage) (d d' : database) : Prop :=
  ∃ t a m' a', inbox_lease_current claimed t m a d ∧
    inbox_messages (inbox d') = <[im_inbox_id m := m']> (inbox_messages (inbox d)) ∧
    inbox_attempts (inbox d') = <[ia_attempt_id a := a']> (inbox_attempts (inbox d)) ∧
    im_status m' = settled_status action ∧ im_lease_id m' = None ∧ inbox_advances m m' ∧
    ia_outcome a' = Some (settled_outcome action) ∧ is_Some (ia_finished_at a').

Lemma settled_of_ending claimed l w set t m a d d1 d' action :
  inbox_lease_current claimed t m a d → same_inbox d d1 →
  ends_lease set (settled_status action) →
  lease_ended (ia_attempt_id (ci_attempt claimed)) (im_inbox_id (ci_message claimed)) l w
    (settled_outcome action) set d1 d' →
  message_settled claimed action m d d' ∧ only_inbox d1 d'.
Proof.
  intros Hcur Hi Hset (m0 & a0 & a' & Hc & Ho & Hk & Ha & _ & _ & Hout). split; [|done].
  pose proof (ms_before _ _ _ _ (ic_stored _ _ _ _ _ _ Hc)) as Hm0. pose proof (ic_attempt _ _ _ _ _ _ Hc) as Ha0.
  rewrite Hi, Hk, (ik_message _ _ _ _ _ Hcur) in Hm0. injection Hm0 as <-.
  rewrite Hi, Ha, (ik_attempt _ _ _ _ _ Hcur) in Ha0. injection Ha0 as <-.
  exists t, a, (set m), a'. split_and!; try done.
  - rewrite <- Hi. apply Hc.
  - rewrite <- Hi. apply Hc.
  - apply Hset.
  - apply Hset.
  - destruct (ic_counts _ _ _ _ _ _ Hc) as (Ec & Ea & _). split; [apply Hset|]. split; [lia|]. right. split; [done|].
    apply rtc_once. destruct (ic_leases _ _ _ _ _ _ Hc) as [-> _]. apply Hc.
  - apply Hc.
Qed.

(** A failure or a retry touches nothing but the inbox. *)
Lemma unapplied_settled claimed l w ag t m a n now at_ d r d' :
  inbox_ok (inbox d) → inbox_lease_current claimed t m a d →
  (∃ code, commits_to (fail_inbox claimed l w now code ag) d r d') ∨
    commits_to (retry_or_fail claimed l w n now at_ ag) d r d' →
  message_settled claimed (ir_action r) m d d' ∧ only_inbox d d' ∧ ir_aggregate_type r = ag ∧
  ir_action r ∈ [fin_retry_scheduled; fin_failed].
Proof.
  intros Hd Hcur [[code H]|H].
  - apply fail_inbox_commits in H as [-> H]; [|done].
    destruct (settled_of_ending _ _ _ _ _ _ _ _ d _ fin_failed Hcur eq_refl (ends_failed _ _ _) H).
    split_and!; [done..|set_solver].
  - apply retry_or_fail_commits in H as [(_ & Ea & <- & H)|(_ & Ea & <- & code & msg & H)]; [..|done].
    + destruct (settled_of_ending _ _ _ _ _ _ _ _ d _ fin_retry_scheduled Hcur eq_refl (ends_returned _ _ _ _) H).
      rewrite Ea. split_and!; [done..|set_solver].
    + destruct (settled_of_ending _ _ _ _ _ _ _ _ d _ fin_failed Hcur eq_refl (ends_failed _ _ _) H).
      rewrite Ea. split_and!; [done..|set_solver].
Qed.

(** A processed message follows what was written before. *)
Lemma applied_settled claimed l w t m a now d d1 d' action :
  inbox_ok (inbox d) → inbox_lease_current claimed t m a d → same_inbox d d1 →
  settled_status action = ib_processed → settled_outcome action = ia_processed →
  commits_to (process_inbox claimed l w now) d1 tt d' →
  message_settled claimed action m d d' ∧ only_inbox d1 d'.
Proof.
  intros Hd Hcur Hi Hst Hout H. apply process_inbox_commits in H; [|by rewrite Hi].
  eapply settled_of_ending; [exact Hcur|exact Hi| |rewrite Hout; exact H]. rewrite Hst. apply ends_processed.
Qed.

(** * What a callback on an order operation commits *)

(** The operation moves to the status the provider reports, a step its lifecycle allows, with
    one event on its timeline; the command has been published; a reference once known stays. *)
Definition callback_applied (m : InboxMessage) (d d' : database) : Prop :=
  ∃ o o' e msg, order_operations d !! im_aggregate_id m = Some o ∧ oo_tenant_id o = strip (im_tenant_id m) ∧
    outbox_messages d !! im_command_id m = Some msg ∧ om_status msg = ob_published ∧
    oo_status o' = inbox_target (wd_command_status (im_payload m)) ∧
    operation_transition_allowed (oo_status o) (oo_status o') = true ∧ oo_version o' = oo_version o + 1 ∧
    op_same o o' ∧
    (∀ reference, strip <$> oo_provider_reference o = Some reference → oo_provider_reference o' = Some reference) ∧
    order_operations d' = <[im_aggregate_id m := o']> (order_operations d) ∧
    order_operation_events d' = order_operation_events d ++ [e] ∧ about_operation o e ∧
    oev_event_type e = oe_status_changed ∧ oev_previous_status e = Some (oo_status o) ∧
    oev_current_status e = Some (oo_status o').

(** The operation already is where the provider says; at most a missing reference is filled in. *)
Definition callback_duplicate (m : InboxMessage) (d d' : database) : Prop :=
  order_operation_events d' = order_operation_events d ∧
  ∃ o, order_operations d !! im_aggregate_id m = Some o ∧
    oo_status o = inbox_target (wd_command_status (im_payload m)) ∧
    (order_operations d' = order_operations d ∨
     ∃ o', order_operations d' = <[im_aggregate_id m := o']> (order_operations d) ∧
       oo_status o' = oo_status o ∧ oo_provider_reference o = None ∧ op_same o o' ∧
       oo_provider_reference o' = incoming_reference (im_payload m)).

(** The operation has already gone past what the provider says. *)
Definition callback_stale (m : InboxMessage) (d d' : database) : Prop :=
  same_operations d d' ∧ ∃ o, order_operations d !! im_aggregate_id m = Some o ∧
    operation_transition_allowed (inbox_target (wd_command_status (im_payload m))) (oo_status o) = true.

Definition operation_effect (action : InboxFinalizationAction) (m : InboxMessage) (d d' : database) : Prop :=
  match action with
  | fin_applied => callback_applied m d d'
  | fin_duplicate => callback_duplicate m d d'
  | fin_stale => callback_stale m d d'
  | fin_retry_scheduled | fin_failed => same_operations d d'
  end.

(** One finalizer run: the message settled, the aggregate with it, nothing else. *)
Record operation_callback_settled (claimed : ClaimedInboxMessage) (r : InboxFinalizationResult)
    (d d' : database) : Prop := {
  ocs_kind : ir_aggregate_type r = ag_order_operation;
  ocs_settled : ∃ m, message_settled claimed (ir_action r) m d d' ∧
    im_aggregate_type m = ag_order_operation ∧ operation_effect (ir_action r) m d d';
  ocs_cases : same_cases d d';
  ocs_messaging : same_messaging d d';
  ocs_submissions : provider_submissions d' = provider_submissions d;
}.

Lemma only_inbox_domain d d' : only_inbox d d' → same_cases d d' ∧ same_messaging d d' ∧ same_operations d d'.
Proof. intros ((? & ? & ? & ? & ?) & ? & _)%only_inbox_frames. by split_and!. Qed.

Lemma operation_effect_frame action m d d1 d' :
  operation_effect action m d d1 → same_operations d1 d' → operation_effect action m d d'.
Proof.
  intros H (E1 & E2 & E3). destruct action; cbn in *.
  - unfold callback_applied in *. by rewrite E1, E2.
  - unfold callback_duplicate in *. by rewrite E1, E2.
  - destruct H as [Hs Ho]. split; [|done]. etrans; [exact Hs|done].
  - etrans; [exact H|done].
  - etrans; [exact H|done].
Qed.

Lemma same_operations_refl d : same_operations d d.
Proof. done. Qed.

Lemma association_tenant x outbox o :
  operation_association_matches x outbox o = true → oo_tenant_id o = im_tenant_id x.
Proof. unfold operation_association_matches. intros H. by bools. Qed.

Lemma readiness_ready s : decide_inbox_outbox_readiness s = rd_ready → s = ob_published.
Proof. by destruct s. Qed.

Lemma operation_written_effect claimed m outbox msg now row o d d1 r :
  op_db_ok d → ProviderWebhookEventData_validate (im_payload m) = Ok (im_payload m) →
  callback_operation (InboxMessage_strip m) outbox row o d →
  outbox_messages d !! im_command_id m = Some msg →
  decide_inbox_outbox_readiness (om_status msg) ≠ rd_retry →
  operation_written claimed (InboxMessage_strip m) (decide_inbox_outbox_readiness (om_status msg)) now row o d d1 r →
  ir_aggregate_type r = ag_order_operation ∧ operation_effect (ir_action r) m d d1 ∧
  settled_status (ir_action r) = ib_processed ∧ settled_outcome (ir_action r) = ia_processed.
Proof.
  intros Hd Hp Hc Hmsg Hrd Hw. destruct (callback_operation_row _ _ _ _ _ Hd Hc) as (Hrow & -> & Hid).
  destruct Hc as (_ & _ & Has%association_tenant). pose proof (odb_rows d Hd _ _ Hrow) as Hr.
  destruct (read_view_stripped row Hr) as (Ht & Hcu & _). rewrite Hid in Hrow. cbn in Hid, Hrow, Has.
  destruct Hw as [target i e Hdec Hrdd He Hput|target Hdec Hnone _ Hput|target Hdec ->|target Hdec ->];
    (split; [done|]); (split; [|done]); cbn.
  - apply OrderOperationEvent_validate_ok in He as (-> & _).
    apply decide_apply in Hdec as (-> & Htr & _ & Hcomp). cbn in Htr, Hcomp.
    apply put_then_events in Hput as (Eo & Ee & _). cbn in Eo. rewrite Hid in Eo.
    match type of Eo with order_operations _ = <[_ := ?x]> _ => exists row, x end.
    match type of Ee with order_operation_events _ = _ ++ [?x] => exists x, msg end.
    split_and!; cbn; try done.
    + apply readiness_ready. destruct (decide_inbox_outbox_readiness _) eqn:E; [done|congruence|done].
    + unfold op_same. cbn. split_and!; try done. by apply reaches_one.
    + intros x Hx. by apply compatible_reference.
  - apply decide_duplicate in Hdec as (Hst & _). cbn in Hst, Hnone.
    apply put_order_operation_effect in Hput as [-> _]. split; [done|]. exists row. split_and!; [done|done|]. right.
    eexists. cbn. rewrite Hid. split_and!; [reflexivity|done| | |done].
    + by destruct (oo_provider_reference row).
    + unfold op_same. cbn. by split_and!.
  - apply decide_duplicate in Hdec as (Hst & _). split; [done|]. exists row. split_and!; [done|done|by left].
  - apply decide_stale in Hdec. split; [done|]. by exists row.
Qed.

Lemma order_operation_callback_commits claimed l w at_ d r d' :
  op_db_ok d → inbox_ok (inbox d) →
  commits_to (checked_callback claimed l w ag_order_operation at_ (apply_operation_callback claimed l w)) d r d' →
  operation_callback_settled claimed r d d'.
Proof.
  intros Hd Hi H. apply checked_callback_steps in H as (t & m & a & x & now & Hcur & Hx & Hag & H).
  pose proof (inbox_from_row_stored _ _ _ _ Hi (ik_message _ _ _ _ _ Hcur) Hx) as ->.
  assert ((∃ code, commits_to (fail_inbox claimed l w now code ag_order_operation) d r d') ∨
    commits_to (retry_or_fail claimed l w (im_attempts_in_cycle m) now at_ ag_order_operation) d r d' →
    operation_callback_settled claimed r d d') as Hun.
  { intros Hf. destruct (unapplied_settled _ _ _ _ _ _ _ _ _ _ _ _ _ Hi Hcur Hf) as (Hs & Ho & Hk & Hact).
    apply only_inbox_domain in Ho as (H1 & H2 & H3). split; [done| |done|done|apply H3].
    exists m. split_and!; [done|done|]. set_unfold in Hact. destruct Hact as [->|[->|[]]]; exact H3. }
  destruct H as [H|[H|(msg & outbox & (Hmsg & _) & Hrd & H)]]; [by auto..|].
  apply apply_operation_callback_steps in H as [H|(row & o & d1 & Hc & Hw & _ & Hp)]; [by auto| |apply Hd].
  pose proof (ib_payload _ Hi _ _ (ik_message _ _ _ _ _ Hcur)) as Hpay.
  destruct (operation_written_effect _ _ _ _ _ _ _ _ _ _ Hd Hpay Hc Hmsg Hrd Hw) as (Hk & Heff & Hst & Hout).
  apply operation_written_frame in Hw as (F1 & F2 & F3 & _ & F5).
  destruct (applied_settled _ _ _ _ _ _ _ _ _ _ (ir_action r) Hi Hcur F3 Hst Hout Hp) as [Hs Ho].
  apply only_inbox_domain in Ho as (G1 & G2 & G3). split; [done| |by etrans|by etrans|].
  - exists m. split_and!; [done|done|]. by eapply operation_effect_frame.
  - destruct G3 as (_ & _ & ->). done.
Qed.

(** * What a callback on a delivery investigation commits *)

(** The provider's answer appears on the timeline of the case; the case itself is a human's. *)
Definition case_update_applied (m : InboxMessage) (d d' : database) : Prop :=
  ∃ c e, support_cases d !! im_aggregate_id m = Some c ∧ c_case_type c = ct_delivery_investigation ∧
    c_tenant_id c = strip (im_tenant_id m) ∧
    support_case_events d' = support_case_events d ++ [e] ∧ ev_case_id e = im_aggregate_id m ∧
    ev_event_type e = ev_provider_update ∧ ev_provider_command_id e = Some (im_command_id m) ∧
    ev_provider_command_status e = Some (wd_command_status (im_payload m)).

Record case_callback_settled (claimed : ClaimedInboxMessage) (r : InboxFinalizationResult)
    (d d' : database) : Prop := {
  ccs_kind : ir_aggregate_type r = ag_support_case;
  ccs_settled : ∃ m, message_settled claimed (ir_action r) m d d' ∧ im_aggregate_type m = ag_support_case ∧
    ((ir_action r = fin_applied ∧ case_update_applied m d d') ∨
     (ir_action r ∈ [fin_retry_scheduled; fin_failed] ∧ support_case_events d' = support_case_events d));
  ccs_cases : support_cases d' = support_cases d;
  ccs_operations : same_operations d d';
  ccs_messaging : same_messaging d d';
}.

Lemma apply_case_callback_steps claimed l w x outbox rd now d r d' :
  commits_to (apply_case_callback claimed l w x outbox rd now) d r d' →
  (∃ code, commits_to (fail_inbox claimed l w now code ag_support_case) d r d') ∨
  ∃ row c i e d1, support_cases d !! im_aggregate_id x = Some row ∧ SupportCase_validate row = Ok c ∧
    case_association_matches x outbox c = true ∧
    SupportCaseEvent_validate (provider_update_event i x c now) = Ok e ∧ insert_case_event e d = PgOk d1 ∧
    r = mkInboxResult fin_applied ag_support_case None None None ∧
    commits_to (process_inbox claimed l w now) d1 tt d'.
Proof.
  intros H. unfold apply_case_callback in H.
  apply commits_to_bind in H as (o & ? & [-> ->]%commits_to_select & H).
  destruct (support_cases d !! _) as [row|]; [|left; by eexists].
  apply commits_to_bind in H as (c & ? & [Hc ->]%commits_to_lift & H).
  destruct (case_association_matches x outbox c) eqn:Has; cbn [negb] in H; [|left; by eexists]. right.
  apply commits_to_bind in H as (i & ? & ->%commits_to_uuid4 & H).
  apply commits_to_bind in H as (e & ? & [He ->]%commits_to_lift & H).
  apply commits_to_bind in H as (? & d1 & Hins%commits_to_execute & H).
  apply commits_to_bind in H as ([] & d2 & Hp & H). apply commits_to_ret in H as [-> ->].
  exists row, c, i, e, d1. by split_and!.
Qed.

Lemma support_case_callback_commits claimed l w at_ d r d' :
  case_db_ok d → inbox_ok (inbox d) →
  commits_to (checked_callback claimed l w ag_support_case at_ (apply_case_callback claimed l w)) d r d' →
  case_callback_settled claimed r d d'.
Proof.
  intros Hd Hi H. apply checked_callback_steps in H as (t & m & a & x & now & Hcur & Hx & Hag & H).
  pose proof (inbox_from_row_stored _ _ _ _ Hi (ik_message _ _ _ _ _ Hcur) Hx) as ->.
  assert ((∃ code, commits_to (fail_inbox claimed l w now code ag_support_case) d r d') ∨
    commits_to (retry_or_fail claimed l w (im_attempts_in_cycle m) now at_ ag_support_case) d r d' →
    case_callback_settled claimed r d d') as Hun.
  { intros Hf. destruct (unapplied_settled _ _ _ _ _ _ _ _ _ _ _ _ _ Hi Hcur Hf) as (Hs & Ho & Hk & Hact).
    apply only_inbox_domain in Ho as ([H1 H1'] & H2 & H3). split; [done| |done..].
    exists m. split_and!; [done|done|by right]. }
  destruct H as [H|[H|(msg & outbox & _ & _ & H)]]; [by auto..|].
  apply apply_case_callback_steps in H as [H|(row & c & i & e & d1 & Hrow & Hc & Has & He & Hins & -> & Hp)]; [by auto|].
  pose proof (cdb_cases d Hd _ row Hrow) as Hn. pose proof (so_case_id d (cdb_schema d Hd) _ row Hrow) as Hid.
  unfold case_normal in Hn. rewrite Hn in Hc. injection Hc as <-.
  apply SupportCaseEvent_validate_ok in He as (-> & _). apply insert_case_event_effect in Hins.
  assert (same_inbox d d1) as Hsi by by subst d1.
  destruct (applied_settled _ _ _ _ _ _ _ _ _ _ fin_applied Hi Hcur Hsi eq_refl eq_refl Hp) as [Hs Ho].
  apply only_inbox_domain in Ho as ([G1 G2] & G3 & G4).
  unfold case_association_matches in Has. bools. cbn in Hid. split; [done| | | |].
  - exists m. split_and!; [done|done|left]. split; [done|]. unfold case_update_applied. rewrite G2.
    eexists row, _. subst d1. split_and!; try done.
  - by subst d1.
  - etrans; [|exact G4]. by subst d1.
  - etrans; [|exact G3]. by subst d1.
Qed.

(** * The finalizers keep the promise *)

Ltac inbox_alone H :=
  first [destruct H as [? H]; by eapply fail_inbox_only | by eapply retry_or_fail_only].

Lemma order_operation_callback_parts claimed l w at_ d r d' :
  schema_ok d →
  commits_to (checked_callback claimed l w ag_order_operation at_ (apply_operation_callback claimed l w)) d r d' →
  only_inbox d d' ∨ ∃ x outbox rd now row o d1,
    ProviderWebhookEventData_validate (im_payload x) = Ok (im_payload x) ∧ callback_operation x outbox row o d ∧
    operation_written claimed x rd now row o d d1 r ∧ only_inbox d1 d'.
Proof.
  intros Hs H. apply checked_callback_steps in H as (t & m & a & x & now & _ & Hx & _ & H).
  apply inbox_from_row_ok in Hx as (p & Hx & Hp).
  destruct H as [H|[H|(msg & outbox & _ & _ & H)]]; [left; inbox_alone H..|].
  apply apply_operation_callback_steps in H as [H|(row & o & d1 & Hc & Hw & _ & Hpr)];
    [left; inbox_alone H| |done].
  right. eexists x, outbox, _, now, row, o, d1. split_and!; [by subst x|done|exact Hw|by eapply process_inbox_only].
Qed.

Lemma only_inbox_kept d d' :
  only_inbox d d' → schema_kept d d' ∧ cases_kept d d' ∧ operations_kept d d' ∧ outbox_kept d d'.
Proof.
  intros Ho. destruct (only_inbox_frames d d' Ho) as ((E1 & E2 & E3 & E4 & E5) & Hm & Hs). split_and!.
  - done.
  - intros Hd. split; [by eapply case_db_ok_frame; [exact Hd|apply Hs, Hd|]|by apply cases_evolve_frame].
  - apply operations_kept_frame; [done|done|apply Hm].
  - by apply outbox_kept_frame.
Qed.

(** A domain step that leaves the messaging tables alone, then a step of the inbox. *)
Lemma steady_then_inbox d d1 d' :
  schema_kept d d1 → cases_kept d d1 → operations_kept d d1 → same_messaging d d1 → only_inbox d1 d' →
  schema_kept d d' ∧ cases_kept d d' ∧ operations_kept d d' ∧ outbox_kept d d'.
Proof.
  intros Hs Hc Ho Hm (Gs & Gc & Go & Gb)%only_inbox_kept. split_and!; [by etrans..|].
  etrans; [by apply outbox_kept_frame|done].
Qed.

Lemma order_operation_callback_steady claimed l w at_ :
  tx_within steady (checked_callback claimed l w ag_order_operation at_ (apply_operation_callback claimed l w)).
Proof.
  intros d r d' H. pose proof (order_operation_callback_kept _ _ _ _ _ _ _ H) as Hi.
  enough (schema_ok d → schema_kept d d' ∧ cases_kept d d' ∧ operations_kept d d' ∧ outbox_kept d d') as Hk.
  { split; [| | | |done]; intros Hd.
    - by apply (proj1 (Hk Hd)).
    - by apply (proj1 (proj2 (Hk (cdb_schema d Hd)))).
    - by apply (proj1 (proj2 (proj2 (Hk (odb_schema d Hd))))).
    - by apply (proj2 (proj2 (proj2 (Hk (ob_schema d Hd))))). }
  intros Hs. apply order_operation_callback_parts in H as [H|(x & outbox & rd & now & row & o & d1 & Hp & Hc & Hw & Ho)];
    [by apply only_inbox_kept| |done].
  pose proof (operation_written_frame _ _ _ _ _ _ _ _ _ Hw) as (F1 & F2 & F3 & F4 & F5).
  apply (steady_then_inbox d d1); try done.
  - intros Hd. split; [eapply case_db_ok_frame; [exact Hd|by apply F4, Hd|done]|by apply cases_evolve_frame, F1].
  - intros Hd. by eapply operation_written_kept.
Qed.

Lemma support_case_callback_steady claimed l w at_ :
  tx_within steady (checked_callback claimed l w ag_support_case at_ (apply_case_callback claimed l w)).
Proof.
  intros d r d' H. pose proof (support_case_callback_kept _ _ _ _ _ _ _ H) as Hi.
  enough (schema_kept d d' ∧ cases_kept d d' ∧ operations_kept d d' ∧ outbox_kept d d') as Hk.
  { destruct Hk as (? & ? & ? & ?). by split. }
  apply checked_callback_steps in H as (t & m & a & x & now & _ & _ & _ & H).
  destruct H as [H|[H|(msg & outbox & _ & _ & H)]]; [apply only_inbox_kept; inbox_alone H..|].
  apply apply_case_callback_steps in H as [H|(row & c & i & e & d1 & Hrow & Hc & Has & He & Hins & _ & Hp)];
    [apply only_inbox_kept; inbox_alone H|].
  assert (schema_kept d d1) as Hs by (intros Hs; by eapply insert_case_event_ok).
  pose proof (SupportCaseEvent_validate_normal _ _ He) as Hn. apply insert_case_event_effect in Hins.
  apply (steady_then_inbox d d1); [done|..|by eapply process_inbox_only].
  - intros Hd. split; [by eapply case_db_ok_events; [exact Hd|apply Hs, Hd|subst d1..]|].
    apply cases_evolve_frame. by subst d1.
  - apply operations_kept_frame; [done|by subst d1..].
  - by subst d1.
Qed.
