(* ===== verification/InboxWorkerSafety.v ===== *)
(** The inbox worker under interference: every transaction of a run is steady, and the
    counters of a run tell what was committed. *)
From S2P Require Import Prelude Effects OperationModels CaseModels Envelope InboxModels Retry Database Transactions Messaging CaseRepository CaseSafety OperationRepository OperationService OperationSafety OutboxWrites Finalization InboxWrites OutboxRepository InboxRepository InboxFinalizer OutboxSafety FinalizationSafety InboxSafety Steady WorkerSafety InboxTransactions SystemSafety CallbackSafety.

(** What a finalizer run on a claim commits. *)
Definition callback_settled (c : ClaimedInboxMessage) (r : InboxFinalizationResult) (d d' : database) : Prop :=
  match im_aggregate_type (ci_message c) with
  | ag_order_operation => operation_callback_settled c r d d'
  | ag_support_case => case_callback_settled c r d d'
  end.

Definition finalize_callback (c : ClaimedInboxMessage) (at_ : instant) : M database InboxFinalizationResult :=
  match im_aggregate_type (ci_message c) with
  | ag_order_operation => finalize_order_operation c at_
  | ag_support_case => finalize_support_case c at_
  end.

Section Worker.
Context (amb : Ambient database) (Hamb : steady_world amb).
Context (lease_seconds : float) (races : ClaimedInboxMessage → renewal_race) (retry_delay : Q).

(** A transaction that commits once or not at all. *)
Lemma finalize_callback_runs c at_ :
  runs amb system_ok (finalize_callback c at_) (λ r cs, all_steady cs ∧
    match r with
    | Ok x => ∃ d d', cs = [(d, d')] ∧ callback_settled c x d d'
    | Err e => cs = [] ∨ e = IntegrationPersistenceError ∧
                 ∃ x d d', cs = [(d, d')] ∧ callback_settled c x d d'
    end).
Proof.
  assert (∀ t : uuid → string → Tx InboxFinalizationResult, (∀ l w, tx_within steady (t l w)) →
    (∀ l w d r d', system_ok d → commits_to (t l w) d r d' → callback_settled c r d d') →
    runs amb system_ok (with_inbox_lease c t) (λ r cs, all_steady cs ∧
    match r with
    | Ok x => ∃ d d', cs = [(d, d')] ∧ callback_settled c x d d'
    | Err e => cs = [] ∨ e = IntegrationPersistenceError ∧
                 ∃ x d d', cs = [(d, d')] ∧ callback_settled c x d d'
    end)) as Hgen.
  { intros t Hst Hc. unfold with_inbox_lease.
    destruct (im_lease_id _) as [l|]; [|apply runs_raise; split; [by apply Forall_nil_2|by left]].
    destruct (im_lease_owner _) as [w|]; [|apply runs_raise; split; [by apply Forall_nil_2|by left]].
    eapply runs_weaken; [by apply (runs_steady_tx amb Hamb system_ok _ _ _ (callback_settled c)); eauto|].
    intros [x|e] cs.
    - intros (d & d' & -> & Hs & Hf). split; [by apply Forall_singleton|eauto].
    - intros [[-> _]|(-> & x & d & d' & -> & Hs & Hf)];
        (split; [first [by apply Forall_nil_2|by apply Forall_singleton]|]); eauto 10. }
  unfold finalize_callback. destruct (im_aggregate_type (ci_message c)) eqn:Hag; apply Hgen.
  - intros l w. apply order_operation_callback_steady.
  - intros l w d r d' Hd Hc. unfold callback_settled. rewrite Hag.
    by eapply order_operation_callback_commits; [apply Hd|apply Hd|].
  - intros l w. apply support_case_callback_steady.
  - intros l w d r d' Hd Hc. unfold callback_settled. rewrite Hag.
    by eapply support_case_callback_commits; [apply Hd|apply Hd|].
Qed.

Lemma renew_inbox_honest k l w : honest amb system_ok (renew_inbox_lease k l w lease_seconds).
Proof.
  unfold renew_inbox_lease. apply honest_bind; [apply honest_lift|]. intros q.
  apply honest_tx; [done|apply _|apply renew_inbox_steady].
Qed.

Lemma renew_inbox_while_honest n k l w : honest amb system_ok (renew_inbox_while lease_seconds n k l w).
Proof.
  induction n as [|n IH]; cbn; [by apply honest_ret|]. apply honest_bind; [apply renew_inbox_honest|].
  intros [|]; [done|apply honest_raise].
Qed.

(** * One claimed message *)

(** A finalizer result stands for a commit, whatever happens to the renewal beside it. *)
Definition finalized_callback (c : ClaimedInboxMessage) (x : InboxFinalizationResult)
    (cs : list (database * database)) : Prop :=
  ∃ d d', (d, d') ∈ cs ∧ callback_settled c x d d'.

Lemma finalize_with_renewal_runs c at_ :
  runs amb system_ok
    (finalize_with_lease_renewal lease_seconds races c (finalize_callback c at_))
    (λ r cs, all_steady cs ∧ ∀ x, r = Ok x → finalized_callback c x cs).
Proof.
  unfold finalize_with_lease_renewal.
  destruct (im_lease_id _) as [l|]; [|by apply runs_raise; split; [apply Forall_nil_2|]].
  destruct (im_lease_owner _) as [w|]; [|by apply runs_raise; split; [apply Forall_nil_2|]]. cbv zeta.
  eapply runs_bind; [apply renew_inbox_while_honest| |].
  2:{ intros e cs Hs. by split. }
  intros [] cs1 Hs1. eapply runs_bind; [apply runs_outcome_of, finalize_callback_runs| |done].
  intros x cs2 [Hs2 Hx]. eapply runs_bind with (Q1 := λ _ cs, all_steady cs).
  - destruct (race_during _); [|by apply honest_ret]. apply honest_bind; [apply renew_inbox_honest|].
    intros b. destruct (b || race_seen_done (races c)); [by apply honest_ret|apply honest_raise].
  - intros [] cs3 Hs3. apply runs_lift. rewrite app_nil_r. split; [by repeat apply Forall_app_2|].
    intros y ->. destruct Hx as (d & d' & -> & Hf). exists d, d'. split; [set_solver|done].
  - intros e cs3 Hs3. split; [by repeat apply Forall_app_2|done].
Qed.

(** What the worker's verdict on a claim stands for. *)
Definition callback_verdict (c : ClaimedInboxMessage) (v : InboxWorkerRunResult)
    (cs : list (database * database)) : Prop :=
  (∃ x, v = action_counter (ir_action x) ∧ finalized_callback c x cs) ∨ v = run_conflicts ∨ v = run_errors.

Lemma callback_verdict_mono c v cs1 cs2 :
  (∀ p, p ∈ cs1 → p ∈ cs2) → callback_verdict c v cs1 → callback_verdict c v cs2.
Proof.
  intros Hsub [(x & -> & d & d' & Hin & Hf)|H]; [left|by right]. exists x. split; [done|].
  exists d, d'. auto.
Qed.

Lemma settled_counter c x d d' : callback_settled c x d d' → result_counter c x = action_counter (ir_action x).
Proof.
  unfold callback_settled, result_counter. intros H.
  assert (ir_aggregate_type x = im_aggregate_type (ci_message c)) as ->
    by (destruct (im_aggregate_type (ci_message c)); apply H).
  rewrite bool_decide_eq_false_2; [done|]. by intros Hne.
Qed.

Lemma process_callback_runs c :
  runs amb system_ok (process_callback lease_seconds retry_delay races c)
    (λ r cs, all_steady cs ∧ ∀ v, r = Ok v → callback_verdict c v cs).
Proof.
  unfold process_callback. eapply runs_bind with (Q1 := λ _ cs, cs = []); [by apply runs_now| |].
  2:{ intros e cs ->. by split; [apply Forall_nil_2|]. }
  intros t cs ->. cbn [app]. apply runs_lift_bind; [by split; [apply Forall_nil_2|]|]. intros at_ _.
  fold (finalize_callback c at_).
  eapply runs_try_except with (Q1 := λ r cs, all_steady cs ∧ ∀ v, r = Ok v → callback_verdict c v cs); [|done|].
  - eapply runs_bind; [apply finalize_with_renewal_runs| |].
    + intros x cs [Hs Hx]. apply runs_ret. rewrite app_nil_r. split; [done|]. intros v [= <-].
      destruct (Hx x eq_refl) as (d & d' & Hin & Hf). rewrite (settled_counter _ _ _ _ Hf).
      left. exists x. split; [done|by exists d, d'].
    + intros e cs [Hs _]. by split.
  - intros e cs [Hs _]. apply runs_ret. rewrite app_nil_r. split; [done|]. intros v [= <-].
    unfold callback_verdict. case_bool_decide; auto.
Qed.

(** * The batch *)

Lemma gather_callbacks_runs l :
  runs amb system_ok (gather_callbacks lease_seconds retry_delay races l)
    (λ r cs, all_steady cs ∧ ∀ vs, r = Ok vs → Forall2 (λ c v, callback_verdict c v cs) l vs).
Proof.
  induction l as [|c l IH]; cbn.
  { apply runs_ret. split; [by apply Forall_nil_2|]. by intros vs [= <-]. }
  eapply runs_bind; [apply process_callback_runs| |by intros e cs [Hs _]].
  intros v cs1 [Hs1 Hv]. eapply runs_bind; [exact IH| |].
  - intros vs cs2 [Hs2 Hvs]. apply runs_ret. rewrite app_nil_r. split; [by apply Forall_app_2|].
    intros ? [= <-]. constructor.
    + eapply callback_verdict_mono; [|by apply Hv]. set_solver.
    + eapply Forall2_impl; [by apply Hvs|]. intros c' v'. apply callback_verdict_mono. set_solver.
  - intros e cs2 [Hs2 _]. split; [by apply Forall_app_2|done].
Qed.

Definition inbox_tally (n : Z) (vs : list InboxWorkerRunResult) : InboxWorkerRunResult :=
  fold_left inbox_merge vs (mkInboxRunResult n 0 0 0 0 0 0 0).

(** Every claimed message ends up in exactly one counter. *)
Lemma inbox_tally_counts cs l n vs :
  Forall2 (λ c v, callback_verdict c v cs) l vs →
  let r := inbox_tally n vs in
  iw_claimed r = n ∧
  iw_applied r + iw_duplicates r + iw_stale r + iw_retried r + iw_failed r + iw_lease_conflicts r + iw_errors r
    = Z.of_nat (length l).
Proof.
  intros H. unfold inbox_tally.
  enough (∀ acc, iw_claimed (fold_left inbox_merge vs acc) = iw_claimed acc ∧
    let t x := iw_applied x + iw_duplicates x + iw_stale x + iw_retried x + iw_failed x
               + iw_lease_conflicts x + iw_errors x in
    t (fold_left inbox_merge vs acc) = t acc + Z.of_nat (length l)) as He.
  { cbv zeta in *. destruct (He (mkInboxRunResult n 0 0 0 0 0 0 0)) as [E1 E2]. split; [done|].
    rewrite E2. cbn. lia. }
  induction H as [|a v l vs Hv Hvs IH]; intros acc; cbv zeta in *; cbn [fold_left length]; [lia|].
  destruct (IH (inbox_merge acc v)) as [E1 E2]. rewrite E1, E2. split; [done|].
  destruct Hv as [(x & -> & _)|[->| ->]]; [destruct (ir_action x)|..]; cbn; lia.
Qed.

Context (worker_id : string) (batch_size : Z) (locked : uuid → bool).

Definition one_inbox_run := inbox_run_once worker_id batch_size lease_seconds retry_delay races locked.

Lemma inbox_run_once_runs :
  runs amb system_ok one_inbox_run (λ r cs, all_steady cs ∧
    match r with
    | Ok x => ∃ claimed vs, Forall2 (λ c v, callback_verdict c v cs) claimed vs ∧
                x = inbox_tally (Z.of_nat (length claimed)) vs
    | Err _ => True
    end).
Proof.
  unfold one_inbox_run, inbox_run_once, claim_due_inbox.
  eapply runs_bind with (Q1 := λ _ cs, all_steady cs).
  - apply honest_bind; [apply honest_lift|]. intros lease.
    apply honest_tx; [done|apply _|apply claim_inbox_steady].
  - intros claimed cs1 Hs1. eapply runs_bind; [apply gather_callbacks_runs| |].
    + intros vs cs2 [Hs2 Hvs]. apply runs_ret. rewrite app_nil_r. split; [by apply Forall_app_2|].
      exists claimed, vs. split; [|done]. eapply Forall2_impl; [by apply Hvs|].
      intros c v. apply callback_verdict_mono. set_solver.
    + intros e cs2 [Hs2 _]. split; [by apply Forall_app_2|done].
  - by intros e cs Hs.
Qed.

Lemma recover_inbox_honest : honest amb system_ok (recover_expired_inbox_leases locked batch_size).
Proof. apply honest_tx; [done|apply _|apply recover_inbox_steady]. Qed.

Lemma inbox_round_honest due :
  honest amb system_ok (inbox_round worker_id batch_size lease_seconds retry_delay races locked due).
Proof.
  unfold inbox_round. apply honest_bind.
  - destruct due; [|by apply honest_ret]. apply honest_bind; [apply recover_inbox_honest|].
    intros n. by apply honest_ret.
  - intros _. eapply runs_weaken; [apply inbox_run_once_runs|]. by intros r cs [Hs _].
Qed.
End Worker.

(** * Receiving *)

(** What a delivery commits, if anything: the event is stored, or found. *)
Definition received_or_found (row : InboxMessage) (r : res InboxMessage) (cs : list (database * database)) : Prop :=
  match r with
  | Ok x => ∃ m d d', cs = [(d, d')] ∧ received row m d d' ∧ inbox_from_row m = Ok x
  | Err _ => cs = [] ∨ ∃ m d d', cs = [(d, d')] ∧ received row m d d'
  end.

Lemma receive_inbox_runs amb k con ev ten data sha at_ :
  steady_world amb → ProviderWebhookEventData_validate data = Ok data →
  runs amb system_ok (receive_inbox_idempotently k con ev ten data sha at_)
    (received_or_found (received_row k con ev ten data sha at_)).
Proof.
  intros Hamb Hdata. unfold receive_inbox_idempotently. eapply runs_bind.
  - apply (runs_steady_tx amb Hamb system_ok _ _ _ (λ x d d', received (received_row k con ev ten data sha at_) x d d')).
    + by apply receive_steady.
    + intros d x d' Hd Hc. by eapply receive_commits in Hc as [? _]; [|apply Hd].
  - intros x cs (d & d' & -> & _ & Hr). apply runs_lift. rewrite app_nil_r.
    destruct (inbox_from_row x) as [y|e] eqn:E; cbn; [exists x, d, d'; by split_and!|right; eauto].
  - intros e cs [[-> _]|(_ & x & d & d' & -> & _ & Hr)]; cbn; [by left|right; eauto].
Qed.

Lemma receive_inbox_honest amb k con ev ten data sha at_ :
  steady_world amb → ProviderWebhookEventData_validate data = Ok data →
  honest amb system_ok (receive_inbox_idempotently k con ev ten data sha at_).
Proof.
  intros Hamb Hdata. unfold receive_inbox_idempotently. apply honest_bind; [|intros m; apply honest_lift].
  apply honest_tx; [done|apply _|by apply receive_steady].
Qed.
