(* ===== verification/WebhookSafety.v ===== *)
(** What the webhook route lets through: the verification of a request as a proposition, the
    limits on its body, and what the route commits. *)
From Stdlib Require Import QArith Qabs.
From S2P Require Import Prelude Effects OperationModels CaseModels Calendar Hmac Envelope InboxModels Retry Connections Database InboxRepository Webhook Steady InboxTransactions InboxWorkerSafety.

(** Digests are compared, never computed, in the proofs. *)
#[local] Opaque sha256 hmac_sha256 strftime.

(** * Verification *)

(** The signature header of a request, by the format the provider is told. *)
Definition expected_signature (lib : WebhookLibrary) (secret : string) (t : instant) (event_id : string)
    (raw_body : bytes) : string :=
  hexdigest (hmac_sha256 (encode secret)
    (encode (strftime (lib_early_year lib) t +:+ "." +:+ event_id +:+ ".") ++ raw_body)).

(** A genuine request: signed with the secret of the connection, recent, and its body an
    envelope that says what the headers, the path and the connection say. *)
Definition genuine (lib : WebhookLibrary) (connection : ProviderWebhookConnection)
    (provider_connection_id : string) (headers : string → option string) (raw_body : bytes)
    (now : instant) (e : ProviderWebhookEnvelope) : Prop :=
  ∃ timestamp_raw window fields,
    headers "x-provider-event-id" = Some (we_event_id e) ∧
    headers "x-provider-timestamp" = Some timestamp_raw ∧
    strptime timestamp_raw = Some (we_timestamp e) ∧
    headers "x-provider-signature" = Some (expected_signature lib (wc_signing_secret connection)
                                             (we_timestamp e) (we_event_id e) raw_body) ∧
    wc_validity_window_seconds connection = Finite window ∧
    Qle_bool (Qabs (total_seconds (now - we_timestamp e))) window = true ∧
    lib_decode lib raw_body = Ok (Some fields) ∧
    ProviderWebhookEnvelope_validate fields = Ok e ∧
    we_provider_connection_id e = provider_connection_id ∧
    we_tenant_id e = wc_tenant_id connection.

Lemma envelope_event_id fields e :
  ProviderWebhookEnvelope_validate fields = Ok e →
  nonempty (we_event_id e) = true ∧ strip (we_event_id e) = we_event_id e ∧
  ProviderWebhookEventData_validate (we_data e) = Ok (we_data e).
Proof.
  unfold ProviderWebhookEnvelope_validate. intros H. inv_ok. cbn in *. bools. rewrite strip_idem.
  split_and!; [done..|]. by eapply ProviderWebhookEventData_validate_normal.
Qed.

Lemma decode_envelope_ok lib raw_body e :
  decode_envelope lib raw_body = Ok e ↔
  ∃ fields, lib_decode lib raw_body = Ok (Some fields) ∧ ProviderWebhookEnvelope_validate fields = Ok e.
Proof.
  unfold decode_envelope. split.
  - intros (o & Ho & H)%res_bind_ok. destruct o as [fields|]; [|done]. exists fields.
    by destruct (ProviderWebhookEnvelope_validate fields); [injection H as ->|].
  - intros (fields & -> & H). cbn. by rewrite H.
Qed.

Lemma encode_nonempty s : nonempty s = true → encode s ≠ [].
Proof. destruct s as [|c s]; [done|]. intros _. rewrite encode_cons. unfold encode_char. by case_match. Qed.

Lemma strptime_nonempty s t : strptime s = Some t → nonempty s = true.
Proof. by destruct s. Qed.

Lemma expected_signature_nonempty lib secret t ev b : nonempty (expected_signature lib secret t ev b) = true.
Proof.
  pose proof (hexdigest_length (hmac_sha256 (encode secret)
    (encode (strftime (lib_early_year lib) t +:+ "." +:+ ev +:+ ".") ++ b))) as H.
  unfold hmac_sha256 in H at 2. rewrite sha256_length in H. unfold expected_signature. by destruct (hexdigest _).
Qed.

Lemma connection_ok c c' : ProviderWebhookConnection_validate c = Ok c' →
  nonempty (wc_signing_secret c) = true ∧ ∃ q, wc_validity_window_seconds c = Finite q ∧ Qle_bool q 0 = false.
Proof.
  unfold ProviderWebhookConnection_validate. intros H. inv_ok. bools. split; [done|].
  destruct (wc_validity_window_seconds _) as [q|]; [|done]. exists q. split; [done|]. by apply negb_true_iff.
Qed.

Section Verification.
Context (lib : WebhookLibrary) (connection : ProviderWebhookConnection).
Context (provider_connection_id : string) (headers : string → option string) (raw_body : bytes) (now : instant).

Lemma verify_and_decode_genuine e :
  verify_and_decode lib connection provider_connection_id headers raw_body now = Ok e →
  genuine lib connection provider_connection_id headers raw_body now e.
Proof.
  unfold verify_and_decode. intros H.
  destruct (headers "x-provider-event-id") as [ev|] eqn:Hev; [|done].
  destruct (headers "x-provider-timestamp") as [ts|] eqn:Hts; [|done].
  destruct (headers "x-provider-signature") as [sig|] eqn:Hsig; [|done].
  apply res_bind_ok in H as ([] & Hne%raise_if_ok & H).
  destruct (strptime ts) as [t|] eqn:Ht; [|done].
  apply res_bind_ok in H as (valid & Hvalid & H). apply res_bind_ok in H as ([] & Hv%raise_if_ok & H).
  apply negb_false_iff in Hv. subst valid.
  apply res_bind_ok in H as (e' & Hdec & H). apply res_bind_ok in H as ([] & Hids%raise_if_ok & H).
  injection H as ->. apply decode_envelope_ok in Hdec as (fields & Hd & Hval). bools.
  repeat match goal with H : ¬ (_ ≠ _) |- _ => apply dec_stable in H end. subst ev t.
  pose proof (envelope_event_id _ _ Hval) as (Hn & Hstrip & _).
  assert (Hwin : ∃ q, wc_validity_window_seconds connection = Finite q ∧ Qle_bool q 0 = false ∧
                      encode (wc_signing_secret connection) ≠ []).
  { unfold signature_is_valid, require_aware in Hvalid. cbn [res_bind] in Hvalid.
    apply res_bind_ok in Hvalid as ([] & Hs & Hvalid). unfold require_secret in Hs. apply raise_if_ok in Hs.
    apply bool_decide_eq_false in Hs. destruct (wc_validity_window_seconds connection) as [q|]; [|done].
    apply res_bind_ok in Hvalid as ([] & Hq%raise_if_ok & _). by exists q. }
  destruct Hwin as (window & Hw & Hpos & Hs). rewrite Hw in Hvalid.
  erewrite signature_is_valid_aware in Hvalid; [|done..|apply build_canonical_payload_aware; by rewrite Hstrip].
  injection Hvalid as Hvalid. bools. subst sig.
  exists ts, window, fields. by split_and!.
Qed.

Lemma genuine_verify_and_decode e :
  ProviderWebhookConnection_validate connection = Ok connection →
  genuine lib connection provider_connection_id headers raw_body now e →
  verify_and_decode lib connection provider_connection_id headers raw_body now = Ok e.
Proof.
  intros Hc (ts & window & fields & Hev & Hts & Ht & Hsig & Hw & Hage & Hd & Hval & Hpc & Hten).
  apply connection_ok in Hc as (Hsecret & q & Hq & Hpos). rewrite Hw in Hq. injection Hq as <-.
  pose proof (envelope_event_id _ _ Hval) as (Hn & Hstrip & _).
  unfold verify_and_decode. rewrite Hev, Hts, Hsig, Hn, (strptime_nonempty _ _ Ht), expected_signature_nonempty.
  cbn [andb negb raise_if res_bind]. rewrite Ht, Hw.
  erewrite signature_is_valid_aware; [|by apply encode_nonempty|done|apply build_canonical_payload_aware; by rewrite Hstrip].
  rewrite bool_decide_eq_true_2 by done. rewrite Hage. cbn [andb negb raise_if res_bind].
  rewrite (proj2 (decode_envelope_ok lib raw_body e)) by eauto. cbn [res_bind].
  by rewrite !bool_decide_eq_false_2 by (intros Hne; by apply Hne).
Qed.
End Verification.

(** * The body *)

Definition body_size (chunks : list bytes) : Z := Z.of_nat (length (mjoin chunks)).

Lemma body_size_cons c chunks : body_size (c :: chunks) = Z.of_nat (length c) + body_size chunks.
Proof.
  unfold body_size. change (mjoin (c :: chunks)) with (c ++ mjoin chunks). rewrite length_app. lia.
Qed.

Lemma read_stream_from chunks size received :
  read_stream chunks size received =
    if bool_decide (chunks = []) || (size + body_size chunks <=? MAX_BODY_BYTES)
    then Some (received ++ mjoin chunks) else None.
Proof.
  revert size received. induction chunks as [|c chunks IH]; intros size received; cbn [read_stream].
  - cbn. by rewrite app_nil_r.
  - cbv zeta. rewrite bool_decide_eq_false_2 by done. cbn [orb].
    rewrite body_size_cons, IH. change (mjoin (c :: chunks)) with (c ++ mjoin chunks).
    assert (0 ≤ body_size chunks) by (unfold body_size; lia).
    destruct (Z.ltb_spec MAX_BODY_BYTES (size + Z.of_nat (length c))) as [Hlt|Hge].
    + by rewrite (proj2 (Z.leb_gt _ _)) by lia.
    + rewrite Z.add_assoc, app_assoc. case_bool_decide as Hch; [|done]. subst chunks. cbn [orb].
      unfold body_size. cbn. by rewrite Z.add_0_r, (proj2 (Z.leb_le _ _)).
Qed.

(** However the body is cut into chunks, it is accepted whole if it is within the limit. *)
Lemma read_stream_spec chunks :
  read_stream chunks 0 [] = if body_size chunks <=? MAX_BODY_BYTES then Some (mjoin chunks) else None.
Proof.
  rewrite read_stream_from. cbn [app]. case_bool_decide as Hch; [|done]. by subst chunks.
Qed.

(** * The route *)

Lemma check_headers_refuses request response :
  check_headers request = Some response → response ≠ accepted_response.
Proof.
  unfold check_headers. intros H ->.
  repeat match type of H with
    | context [if ?b then _ else _] => destruct b
    | context [match ?l with _ => _ end] => destruct l
    end; discriminate H.
Qed.

Lemma response_to_refuses e response : response_to e = Some response → response ≠ accepted_response.
Proof. by destruct e; intros [= <-]. Qed.

Lemma check_headers_single request :
  check_headers request = None → Forall (λ h, length (getlist request h) = 1%nat) protected_headers.
Proof.
  unfold check_headers. destruct (existsb _ protected_headers) eqn:E; [done|]. intros _.
  apply Forall_forall. intros h Hh. apply dec_stable. intros Hne. apply not_true_iff_false in E. apply E.
  apply existsb_exists. exists h. split; [by apply list_elem_of_In|].
  by rewrite negb_true_iff, Nat.eqb_neq.
Qed.

Lemma runs_now_clock {DB} (amb : Ambient DB) I (Q : res Z → list (DB * DB) → Prop) :
  (∀ n, Q (Ok (clock amb n)) []) → runs amb I now Q.
Proof. intros HQ w r w' HI [= <- <-]. split; [done|]. exists []. cbn. by rewrite app_nil_r. Qed.

(** One commit, which stores the event of a genuine request under the tenant of its connection,
    or finds it stored. *)
Definition event_stored (amb : Ambient database) (lib : WebhookLibrary)
    (resolver : gmap string ProviderWebhookConnection) (provider_connection_id : string)
    (headers : string → option string) (raw_body : bytes) (cs : list (database * database)) : Prop :=
  ∃ connection n e inbox_id at_ m d d',
    resolver !! provider_connection_id = Some connection ∧
    genuine lib connection provider_connection_id headers raw_body (clock amb n) e ∧
    cs = [(d, d')] ∧
    received (received_row inbox_id provider_connection_id (we_event_id e) (wc_tenant_id connection)
                (we_data e) (hexdigest (sha256 raw_body)) at_) m d d'.

Lemma accept_event_runs amb lib resolver provider_connection_id headers raw_body :
  steady_world amb →
  runs amb system_ok (accept_event lib resolver provider_connection_id headers raw_body)
    (λ r cs, (cs = [] ∧ ∃ e, r = Err e) ∨
             event_stored amb lib resolver provider_connection_id headers raw_body cs).
Proof.
  intros Hamb. unfold accept_event. apply runs_lift_bind; [left; eauto|]. intros c Hc.
  unfold resolve_webhook in Hc. destruct (resolver !! _) as [c'|] eqn:Hr; [|done]. injection Hc as ->.
  eapply runs_bind with (Q1 := λ r cs, cs = [] ∧ ∃ n, r = Ok (clock amb n)); [apply runs_now_clock; eauto| |by intros e cs [-> [? ?]]].
  intros at_ cs1 [-> [n [= ->]]]. cbn [app].
  apply runs_lift_bind; [left; eauto|]. intros e He%verify_and_decode_genuine.
  assert (Hdata : ProviderWebhookEventData_validate (we_data e) = Ok (we_data e)).
  { destruct He as (? & ? & ? & _ & _ & _ & _ & _ & _ & _ & Hval & _). by eapply envelope_event_id. }
  apply runs_bind_pure with (Qa := λ _, True); [by apply runs_new_id|]. intros k _.
  apply runs_bind_pure with (Qa := λ _, True); [by apply runs_now|]. intros t _.
  eapply runs_weaken; [by apply receive_inbox_runs|].
  intros [x|x] cs; cbn.
  - intros (m & d & d' & -> & Hrec & _). right. by exists c, n, e, k, t, m, d, d'.
  - intros [->|(m & d & d' & -> & Hrec)]; [by left; eauto|]. right. by exists c, n, e, k, t, m, d, d'.
Qed.

Lemma receive_provider_webhook_runs amb lib resolver provider_connection_id request :
  steady_world amb →
  runs amb system_ok (receive_provider_webhook lib resolver provider_connection_id request)
    (λ r cs, (cs = [] ∧ r ≠ Ok accepted_response) ∨
      (Forall (λ h, length (getlist request h) = 1%nat) protected_headers ∧
       body_size (rq_chunks request) ≤ MAX_BODY_BYTES ∧
       event_stored amb lib resolver provider_connection_id (selected_headers request)
         (mjoin (rq_chunks request)) cs)).
Proof.
  intros Hamb. unfold receive_provider_webhook.
  destruct (check_headers request) as [response|] eqn:Hh.
  { apply runs_ret. left. split; [done|]. intros [= ->]. by eapply check_headers_refuses. }
  apply check_headers_single in Hh. rewrite read_stream_spec.
  destruct (Z.leb_spec (body_size (rq_chunks request)) MAX_BODY_BYTES) as [Hsz|Hsz];
    [|by apply runs_ret; left].
  eapply runs_try_except with (Q1 := λ r cs, (cs = [] ∧ ∃ e, r = Err e) ∨
      event_stored amb lib resolver provider_connection_id (selected_headers request) (mjoin (rq_chunks request)) cs).
  - eapply runs_bind; [by apply accept_event_runs| |].
    + intros x cs1 [[_ [? ?]]|Hst]; [done|]. apply runs_ret. rewrite app_nil_r. by right.
    + intros e cs1 [[-> _]|Hst]; [left; eauto|by right].
  - intros x cs [[-> [? ?]]|Hst]; [done|]. right. by split_and!.
  - intros e cs H. destruct (response_to e) as [response|] eqn:He; cbn.
    + apply runs_ret. rewrite app_nil_r. destruct H as [[-> _]|Hst]; [left|right; by split_and!].
      split; [done|]. intros [= ->]. by eapply response_to_refuses.
    + destruct H as [[-> _]|Hst]; [by left|right; by split_and!].
Qed.

Lemma receive_provider_webhook_honest amb lib resolver provider_connection_id request :
  steady_world amb → honest amb system_ok (receive_provider_webhook lib resolver provider_connection_id request).
Proof.
  intros Hamb. unfold receive_provider_webhook.
  destruct (check_headers request); [by apply honest_ret|].
  destruct (read_stream _ _ _) as [raw_body|]; [|by apply honest_ret].
  apply honest_try.
  - apply honest_bind; [|by intros; apply honest_ret]. unfold accept_event.
    apply honest_bind; [apply honest_lift|]. intros c. apply honest_bind; [apply honest_now|]. intros at_.
    apply runs_lift_bind; [constructor|]. intros e He%verify_and_decode_genuine.
    apply honest_bind; [apply honest_new_id|]. intros k. apply honest_bind; [apply honest_now|]. intros t.
    destruct He as (? & ? & ? & _ & _ & _ & _ & _ & _ & _ & Hval & _).
    apply receive_inbox_honest; [done|]. by eapply envelope_event_id.
  - intros e k H. destruct (response_to e); [|done]. injection H as <-. by apply honest_ret.
Qed.
