(* ===== verification/HttpTransport.v ===== *)
(** The HTTP transport of provider commands, [integrations/http_adapter.py], and the local
    provider it is tried against, [integrations/simulator.py].  The HTTP client is a service:
    it answers a request with an exchange, which may depend on every command sent before.
    Reading numbers, dates and JSON from text is a parameter. *)
From Stdlib Require Import QArith Qabs.
From S2P Require Import Prelude OperationModels CaseModels Calendar Hmac Envelope Retry Connections Database Messaging OutboxRepository Webhook WebhookSafety.

(** [MAX_PROVIDER_RESPONSE_BYTES] *)
Definition MAX_PROVIDER_RESPONSE_BYTES : Z := 64 * 1024.

(** * Requests *)

Record HttpRequest := mkHttpRequest {
  hr_url : string;
  hr_headers : list (string * string);
  hr_json : ProviderCommandEnvelope;
  hr_connect_timeout : float;
  hr_read_timeout : float;
  hr_write_timeout : float;
  hr_pool_timeout : float;
}.

Definition reserved_headers : list string :=
  ["authorization"; "content-type"; "idempotency-key"; "x-provider-command-id"].

(** [_headers_for] *)
Definition headers_for (connection : ProviderConnection) (command : ProviderCommandEnvelope) :
    res (list (string * string)) :=
  let headers := [("Content-Type", "application/json");
                  ("Idempotency-Key", e_idempotency_key command);
                  ("X-Provider-Command-ID", uuid_str (e_command_id command))] in
  let authentication := pc_authentication connection in
  match pa_scheme authentication with
  | sch_bearer =>
      match pa_credential authentication with
      | None => Err AssertionError
      | Some credential => Ok (dict_set "Authorization" ("Bearer " +:+ credential) headers)
      end
  | sch_api_key =>
      match pa_credential authentication, pa_api_key_header authentication with
      | Some credential, Some header =>
          raise_if (bool_decide (lower header ∈ reserved_headers))
            (ValueError "api_key_header may not override a reserved transport header");;;
          Ok (dict_set header credential headers)
      | _, _ => Err AssertionError
      end
  | sch_none => Ok headers
  end.

(** * Exchanges *)

(** How the body of a response ends: whole, with a [TimeoutException] or a [TransportError] of
    the client, or with its [DecodingError], which is neither. *)
Inductive body_end := BodyComplete | BodyTimedOut | BodyBroken | BodyUndecodable.

Record HttpResponse := mkHttpResponse {
  hp_status_code : Z;
  hp_retry_after : option string;
  hp_chunks : list bytes;
  hp_end : body_end;
  hp_at : instant;
}.

(** What [client.stream("POST", ...)] comes to: a response (with the clock when it arrives), a
    [TimeoutException] or a [TransportError] of the client. *)
Inductive exchange := TimedOut | TransportFailed | Responded (response : HttpResponse).

Definition HttpService : Type := list ProviderCommandEnvelope → HttpRequest → exchange.

(** [float] on text, [email.utils.parsedate_to_datetime], and the typed fields of a JSON body. *)
Record HttpLibrary := mkHttpLibrary {
  hl_float : string → option float;
  hl_date : string → option datetime;
  hl_result : bytes → option ProviderCommandResult;
}.

(** [_read_limited_body] *)
Fixpoint read_limited_body (chunks : list bytes) (ending : body_end) (total : Z) (received : bytes) :
    res bytes :=
  match chunks with
  | [] => match ending with
          | BodyComplete => Ok received
          | BodyTimedOut => Err ProviderTimeoutError
          | BodyBroken => Err ProviderConnectionError
          | BodyUndecodable => Err DecodingError
          end
  | chunk :: chunks' =>
      let total := total + Z.of_nat (length chunk) in
      raise_if (MAX_PROVIDER_RESPONSE_BYTES <? total)
        (ValueError "provider response exceeded safe size limit");;;
      read_limited_body chunks' ending total (received ++ chunk)
  end.

Section Transport.
Context (lib : HttpLibrary).

(** [_retry_after_seconds] *)
Definition retry_after_seconds (response : HttpResponse) : res (option Q) :=
  match hp_retry_after response with
  | None => Ok None
  | Some value =>
      match hl_float lib value with
      | Some (Finite q) => Ok (Some (py_max 0 q))
      | Some NotFinite => Ok None
      | None =>
          match hl_date lib value with
          | None | Some (Naive _) => Ok None
          | Some (Aware t) =>
              raise_if (negb ((datetime_min <=? t) && (t <=? datetime_max))) OverflowError;;;
              Ok (Some (py_max 0 (total_seconds (t - hp_at response))))
          end
      end
  end.

(** The answer in a response. *)
Definition read_response (command : ProviderCommandEnvelope) (response : HttpResponse) :
    res ProviderCommandResult :=
  if (hp_status_code response <? 200) || (300 <=? hp_status_code response) then
    let* retry_after := retry_after_seconds response in
    Err (HTTPStatusError (hp_status_code response) retry_after)
  else
    let* body := read_limited_body (hp_chunks response) (hp_end response) 0 [] in
    match ProviderCommandResult_validate <$> hl_result lib body with
    | Some (Ok result) =>
        raise_if (bool_decide (pr_command_id result ≠ e_command_id command))
          (ValueError "provider response command_id did not match request");;;
        Ok result
    | _ => Err (ValueError "provider response failed validation")
    end.

Definition http_request (connection : ProviderConnection) (headers : list (string * string))
    (command : ProviderCommandEnvelope) : HttpRequest :=
  mkHttpRequest (rstrip_slash (url_text (pc_base_url connection)) +:+ pc_endpoint connection) headers command
    (to_connect_seconds (pc_timeout connection)) (to_read_seconds (pc_timeout connection))
    (to_write_seconds (pc_timeout connection)) (to_connect_seconds (pc_timeout connection)).

(** [CanonicalHttpProviderTransport.send_command], over a client. *)
Definition http_transport (client : HttpService) : CommandTransport := λ sent connection command,
  let* headers := headers_for connection command in
  match client sent (http_request connection headers command) with
  | TimedOut => Err ProviderTimeoutError
  | TransportFailed => Err ProviderConnectionError
  | Responded response => read_response command response
  end.
End Transport.

(** * The simulator *)

Record Simulator := mkSimulator {
  sm_results : list (string * ProviderCommandResult);
  sm_attempts : list (string * Z);
}.

Inductive simulator_response :=
  | SimulatorError (status_code : Z) (detail : string)
  | SimulatorRetryLater (retry_after : string)
  | SimulatorInvalidJson
  | SimulatorResult (result : ProviderCommandResult).

Section Simulator.
(** [outcome_selector], when there is one. *)
Context (outcome_selector : option (ProviderCommandEnvelope → Z → option string)).

(** [submit]: the state afterwards, the response, and the command and result the accepted
    callback is scheduled for.  [body] is the envelope, if the request holds one; a timeout
    only delays the answer. *)
Definition simulator_submit (body : option ProviderCommandEnvelope)
    (idempotency_key command_header : option string) (outcome : string) (new_id : uuid) (at_ : instant)
    (s : Simulator) : Simulator * simulator_response * option (ProviderCommandEnvelope * ProviderCommandResult) :=
  match body with
  | None => (s, SimulatorError 422 "invalid canonical command", None)
  | Some command =>
      let key := e_idempotency_key command in
      if bool_decide (idempotency_key ≠ Some key)
         || bool_decide (command_header ≠ Some (uuid_str (e_command_id command)))
      then (s, SimulatorError 400 "missing canonical idempotency headers", None)
      else match dict_get key (sm_results s) with
      | Some result => (s, SimulatorResult result, None)
      | None =>
          let attempt := default 0 (dict_get key (sm_attempts s)) + 1 in
          let s := mkSimulator (sm_results s) (dict_set key attempt (sm_attempts s)) in
          let outcome := match outcome_selector with
                         | Some select => default outcome (select command attempt)
                         | None => outcome
                         end in
          if String.eqb outcome "http_409" then (s, SimulatorError 409 "demo conflict", None)
          else if String.eqb outcome "http_422" then (s, SimulatorError 422 "demo validation error", None)
          else if String.eqb outcome "http_429" then (s, SimulatorRetryLater "2", None)
          else if String.eqb outcome "http_500" then (s, SimulatorError 500 "demo transient error", None)
          else if String.eqb outcome "invalid_json" then (s, SimulatorInvalidJson, None)
          else
            let result := mkProviderCommandResult 1
              (if String.eqb outcome "wrong_command_id" then new_id else e_command_id command)
              (Some ("demo-" +:+ uuid_str (e_command_id command)))
              (Some ("demo-ref-" +:+ uuid_str (e_aggregate_id command)))
              (if String.eqb outcome "rejected" then acc_rejected else acc_accepted) at_ in
            (mkSimulator (dict_set key result (sm_results s)) (sm_attempts s), SimulatorResult result,
             if bool_decide (pr_status result = acc_accepted) then Some (command, result) else None)
      end
  end.
End Simulator.

(** * Properties *)

(** What the worker takes a failure of a delivery for. *)
Definition delivery_failure_kind (e : exn) : ProviderFailureKind :=
  match classify_failure e with Ok k => k | Err _ => fk_validation_error end.

Definition retry_status (status_code : Z) : bool :=
  (status_code =? 408) || (status_code =? 429) || (500 <=? status_code) && (status_code <=? 599).

(** The date in the Retry-After header is none of the calendar's once it is in UTC. *)
Definition retry_after_overflows (lib : HttpLibrary) (response : HttpResponse) : Prop :=
  ∃ value t, hp_retry_after response = Some value ∧ hl_float lib value = None ∧
    hl_date lib value = Some (Aware t) ∧ ¬ (datetime_min ≤ t ≤ datetime_max).

(** The exchanges after which the same command may well be accepted: nothing came back, or
    nothing complete within the limit, or the provider asked to be tried again (in a way that
    can be read). *)
Definition worth_retrying (lib : HttpLibrary) (x : exchange) : Prop :=
  match x with
  | TimedOut | TransportFailed => True
  | Responded response =>
      (hp_status_code response = 408 ∨ hp_status_code response = 429 ∨ 500 ≤ hp_status_code response ≤ 599) ∧
        ¬ retry_after_overflows lib response ∨
      200 ≤ hp_status_code response < 300 ∧ (hp_end response = BodyTimedOut ∨ hp_end response = BodyBroken) ∧
        body_size (hp_chunks response) ≤ 65536
  end.

Lemma retryable_validation e : is_ValueError e = true → RETRYABLE_FAILURE_KINDS (delivery_failure_kind e) = false.
Proof. by destruct e. Qed.

Lemma retryable_status status_code retry_after :
  RETRYABLE_FAILURE_KINDS (delivery_failure_kind (HTTPStatusError status_code retry_after)) = retry_status status_code.
Proof.
  unfold delivery_failure_kind, retry_status. cbn. unfold classify_http_status.
  destruct (_ || _ || _); [done|]. by destruct (_ && _).
Qed.

Lemma read_limited_body_spec chunks ending total received :
  0 ≤ total ≤ MAX_PROVIDER_RESPONSE_BYTES →
  read_limited_body chunks ending total received =
    if total + body_size chunks <=? MAX_PROVIDER_RESPONSE_BYTES then
      match ending with
      | BodyComplete => Ok (received ++ mjoin chunks)
      | BodyTimedOut => Err ProviderTimeoutError
      | BodyBroken => Err ProviderConnectionError
      | BodyUndecodable => Err DecodingError
      end
    else Err (ValueError "provider response exceeded safe size limit").
Proof.
  revert total received. induction chunks as [|c chunks IH]; intros total received Ht; cbn [read_limited_body].
  - change (body_size []) with 0. rewrite (proj2 (Z.leb_le _ _)) by lia. cbn. by rewrite app_nil_r.
  - cbv zeta. rewrite body_size_cons. assert (0 ≤ body_size chunks) by (unfold body_size; lia).
    destruct (Z.ltb_spec MAX_PROVIDER_RESPONSE_BYTES (total + Z.of_nat (length c))) as [Hlt|Hge]; cbn [raise_if res_bind].
    + by rewrite (proj2 (Z.leb_gt _ _)) by lia.
    + rewrite IH by lia. rewrite Z.add_assoc. change (mjoin (c :: chunks)) with (c ++ mjoin chunks). by rewrite app_assoc.
Qed.

Lemma read_limited_body_start chunks ending :
  read_limited_body chunks ending 0 [] =
    if body_size chunks <=? MAX_PROVIDER_RESPONSE_BYTES then
      match ending with
      | BodyComplete => Ok (mjoin chunks)
      | BodyTimedOut => Err ProviderTimeoutError
      | BodyBroken => Err ProviderConnectionError
      | BodyUndecodable => Err DecodingError
      end
    else Err (ValueError "provider response exceeded safe size limit").
Proof. by rewrite read_limited_body_spec by (unfold MAX_PROVIDER_RESPONSE_BYTES; lia). Qed.

Lemma retry_after_spec lib response :
  match retry_after_seconds lib response with
  | Ok _ => ¬ retry_after_overflows lib response
  | Err e => e = OverflowError ∧ retry_after_overflows lib response
  end.
Proof.
  unfold retry_after_seconds, retry_after_overflows.
  destruct (hp_retry_after response) as [value|]; [|intros (? & ? & ? & _); done].
  destruct (hl_float lib value) as [[q|]|] eqn:Hf; [intros (? & ? & [= <-] & H & _); congruence..|].
  destruct (hl_date lib value) as [[t|t]|] eqn:Hd;
    [|intros (? & ? & [= <-] & _ & H & _); congruence..].
  destruct (negb _) eqn:Ht; cbn [raise_if res_bind].
  - split; [done|]. exists value, t. split_and!; [done..|lia].
  - intros (? & t' & [= <-] & _ & Hd' & H). rewrite Hd in Hd'. injection Hd' as <-. lia.
Qed.

Lemma retry_status_spec n : retry_status n = true ↔ n = 408 ∨ n = 429 ∨ 500 ≤ n ≤ 599.
Proof. unfold retry_status. lia. Qed.

Lemma read_response_failure lib command response e :
  read_response lib command response = Err e →
  RETRYABLE_FAILURE_KINDS (delivery_failure_kind e) = true ↔ worth_retrying lib (Responded response).
Proof.
  unfold read_response. cbn [worth_retrying]. destruct ((_ <? 200) || _) eqn:Hs.
  - pose proof (retry_after_spec lib response) as Hra.
    destruct (retry_after_seconds lib response) as [ra|e']; cbn [res_bind]; intros [= <-].
    + rewrite retryable_status, retry_status_spec. split; [by left|]. intros [[? _]|[? _]]; [done|lia].
    + destruct Hra as [-> Ho]. split; [done|]. intros [[_ ?]|[? _]]; [done|lia].
  - assert (∀ u, RETRYABLE_FAILURE_KINDS (delivery_failure_kind (ValueError u)) = false) as Hv by (intros; by apply retryable_validation).
    rewrite read_limited_body_start. unfold MAX_PROVIDER_RESPONSE_BYTES.
    destruct (Z.leb_spec (body_size (hp_chunks response)) (64 * 1024)) as [Hle|Hgt].
    2: { intros [= <-]. rewrite Hv. split; [done|]. intros [[? _]|(_ & _ & ?)]; lia. }
    destruct (hp_end response) eqn:Hend; cbn [res_bind].
    2, 3: intros [= <-]; (split; [intros _; right; split_and!; [lia..|auto|lia]|done]).
    2: intros [= <-]; (split; [done|intros [[? _]|(_ & [|] & _)]; [lia|done..]]).
    intros He. split; [|intros [[? _]|(_ & [|] & _)]; [lia|done..]].
    destruct (hl_result lib (mjoin (hp_chunks response))) as [fields|]; cbn [fmap option_fmap option_map] in He; [|by injection He as <-].
    destruct (ProviderCommandResult_validate fields) as [result|?]; [|by injection He as <-].
    destruct (bool_decide _); cbn in He; [by injection He as <-|done].
Qed.

Lemma read_response_ok lib command response result :
  read_response lib command response = Ok result →
  200 ≤ hp_status_code response < 300 ∧ hp_end response = BodyComplete ∧
  body_size (hp_chunks response) ≤ 65536 ∧
  (∃ fields, hl_result lib (mjoin (hp_chunks response)) = Some fields ∧ ProviderCommandResult_validate fields = Ok result) ∧
  pr_command_id result = e_command_id command.
Proof.
  unfold read_response. destruct ((_ <? 200) || _) eqn:Hs.
  { destruct (retry_after_seconds lib response); done. }
  rewrite read_limited_body_start. bools. unfold MAX_PROVIDER_RESPONSE_BYTES.
  destruct (Z.leb_spec (body_size (hp_chunks response)) (64 * 1024)); [|done].
  destruct (hp_end response); [|done..]. cbn [res_bind].
  destruct (hl_result lib (mjoin (hp_chunks response))) as [fields|] eqn:Hf; [|done]. cbn [fmap option_fmap option_map].
  destruct (ProviderCommandResult_validate fields) as [r|] eqn:Hv; [|done].
  destruct (bool_decide _) eqn:Hid; cbn; [done|]. intros [= <-]. apply bool_decide_eq_false, dec_stable in Hid.
  split_and!; try done. by exists fields.
Qed.

(** The headers of a request: the three the provider relies on, and at most one more, whose
    name is none of theirs in any spelling. *)
Lemma headers_for_ok connection command headers :
  headers_for connection command = Ok headers →
  ∃ extra, headers = [("Content-Type", "application/json"); ("Idempotency-Key", e_idempotency_key command);
                      ("X-Provider-Command-ID", uuid_str (e_command_id command))] ++ option_list extra ∧
    match extra with
    | None => pa_scheme (pc_authentication connection) = sch_none
    | Some (name, value) =>
        (name = "Authorization" ∨ lower name ∉ reserved_headers) ∧
        ∃ credential, pa_credential (pc_authentication connection) = Some credential ∧
          value = match pa_scheme (pc_authentication connection) with
                  | sch_bearer => "Bearer " +:+ credential | _ => credential end
    end.
Proof.
  unfold headers_for. destruct (pa_scheme _) eqn:Hs; destruct (pa_credential _) as [credential|] eqn:Hc; try done.
  - intros [= <-]. exists (Some ("Authorization", "Bearer " +:+ credential)). split; [done|]. eauto.
  - destruct (pa_api_key_header _) as [name|]; [|done]. intros H. apply res_bind_ok in H as ([] & Hr%raise_if_ok & H).
    apply bool_decide_eq_false in Hr. injection H as <-. exists (Some (name, credential)).
    assert (Hne : ∀ x, lower x ∈ reserved_headers → x ≠ name) by (intros x Hx ->; done).
    unfold dict_set. rewrite !decide_False by (apply Hne; vm_compute; set_solver). split; [done|]. eauto.
  - intros [= <-]. by exists None.
  - intros [= <-]. by exists None.
Qed.

Lemma headers_for_err connection command e :
  headers_for connection command = Err e →
  e = AssertionError ∨ e = ValueError "api_key_header may not override a reserved transport header".
Proof.
  unfold headers_for. destruct (pa_scheme (pc_authentication connection)), (pa_credential (pc_authentication connection)); try (intros [= <-]; by left).
  destruct (pa_api_key_header (pc_authentication connection)); [|intros [= <-]; by left].
  destruct (bool_decide _); cbn; intros [= <-]. by right.
Qed.

(** A validated connection has the credential its scheme needs. *)
Lemma headers_for_valid connection command e :
  ProviderConnection_validate connection = Ok connection → headers_for connection command = Err e →
  e = ValueError "api_key_header may not override a reserved transport header" ∧
  ∃ name, pa_api_key_header (pc_authentication connection) = Some name ∧ lower name ∈ reserved_headers.
Proof.
  unfold ProviderConnection_validate. intros (a & Ha & _)%res_bind_ok. apply validating_ok in Ha.
  unfold ProviderAuthentication_validate in Ha. apply res_bind_ok in Ha as ([] & _ & Ha).
  apply res_bind_ok in Ha as ([] & Hs%validating_ok & _). unfold ProviderAuthentication_validate_shape in Hs.
  unfold headers_for. destruct (pa_scheme (pc_authentication connection)); [destruct (pa_credential (pc_authentication connection)); done| |done].
  destruct (pa_credential (pc_authentication connection)) as [credential|]; [|done]. destruct (pa_api_key_header (pc_authentication connection)) as [name|]; [|done].
  destruct (bool_decide (lower name ∈ reserved_headers)) eqn:Hr; cbn; intros [= <-].
  apply bool_decide_eq_true in Hr. split; [done|]. by exists name.
Qed.

(** * The transport *)

(** The one request of a delivery: the command, posted to the endpoint of the connection
    under its base URL, with the key the provider deduplicates on. *)
Record posted (connection : ProviderConnection) (command : ProviderCommandEnvelope) (request : HttpRequest) : Prop := {
  po_url : hr_url request = rstrip_slash (url_text (pc_base_url connection)) +:+ pc_endpoint connection;
  po_json : hr_json request = command;
  po_key : ("Idempotency-Key", e_idempotency_key command) ∈ hr_headers request;
  po_command : ("X-Provider-Command-ID", uuid_str (e_command_id command)) ∈ hr_headers request;
  po_timeouts : hr_connect_timeout request = to_connect_seconds (pc_timeout connection) ∧
    hr_read_timeout request = to_read_seconds (pc_timeout connection) ∧
    hr_write_timeout request = to_write_seconds (pc_timeout connection);
}.

Lemma http_request_posted connection command headers :
  headers_for connection command = Ok headers → posted connection command (http_request connection headers command).
Proof. intros (extra & -> & _)%headers_for_ok. split; [done..| | |done]; cbn; set_solver. Qed.

(** C26: a delivery over HTTP ends in one of two ways.  An answer is the one the provider gave
    to this command: what the body of a complete response of the success range, within the size
    limit, reads as, once validated, and it names the command.  A failure is one the worker
    will retry exactly when the request was sent and nothing usable came back: it timed out,
    the connection failed, the body broke off within the limit, or the provider said 408, 429
    or 5xx; with one exception, a Retry-After date that overflows the calendar.  A redirect,
    another client error, an oversized, undecodable or invalid body, that exception, and a
    request that cannot be built are final. *)
Theorem http_delivery_exact (lib : HttpLibrary) (client : HttpService) (sent : list ProviderCommandEnvelope)
    (connection : ProviderConnection) (command : ProviderCommandEnvelope) :
  match http_transport lib client sent connection command with
  | Ok result =>
      ∃ request response fields, posted connection command request ∧ client sent request = Responded response ∧
        200 ≤ hp_status_code response < 300 ∧ hp_end response = BodyComplete ∧
        body_size (hp_chunks response) ≤ 65536 ∧
        hl_result lib (mjoin (hp_chunks response)) = Some fields ∧
        ProviderCommandResult_validate fields = Ok result ∧ pr_command_id result = e_command_id command
  | Err e =>
      RETRYABLE_FAILURE_KINDS (delivery_failure_kind e) = true ↔
      ∃ headers, headers_for connection command = Ok headers ∧
        posted connection command (http_request connection headers command) ∧
        worth_retrying lib (client sent (http_request connection headers command))
  end.
Proof.
  unfold http_transport. destruct (headers_for connection command) as [headers|e] eqn:Hh; cbn [res_bind].
  - pose proof (http_request_posted _ _ _ Hh) as Hp.
    destruct (client sent (http_request connection headers command)) as [| |response] eqn:Hx;
      [by split; [intros _; exists headers; rewrite Hx|]..|].
    destruct (read_response lib command response) as [result|e] eqn:Hr.
    + apply read_response_ok in Hr as (? & ? & ? & (fields & ? & ?) & ?). by exists (http_request connection headers command), response, fields.
    + rewrite (read_response_failure _ _ _ _ Hr). split; [intros H; by exists headers; rewrite Hx|].
      intros (headers' & Hh' & _ & H). injection Hh' as <-. by rewrite Hx in H.
  - apply headers_for_err in Hh as [-> | ->]; (split; [done|by intros (? & ? & _)]).
Qed.

Definition header_values (name : string) (headers : list (string * string)) : list string :=
  snd <$> filter (λ h, lower h.1 = name) headers.

(** The provider can always tell a repeated delivery: over a validated connection a request
    carries the idempotency key of its command, the identifier of the command and the content
    type exactly once each, in whatever spelling header names are compared, whatever the
    authentication adds; the one configuration that cannot be sent is an API-key header named
    like one of them. *)
Theorem canonical_headers_sent (connection : ProviderConnection) (command : ProviderCommandEnvelope) :
  ProviderConnection_validate connection = Ok connection →
  match headers_for connection command with
  | Ok headers =>
      header_values "idempotency-key" headers = [e_idempotency_key command] ∧
      header_values "x-provider-command-id" headers = [uuid_str (e_command_id command)] ∧
      header_values "content-type" headers = ["application/json"]
  | Err e =>
      e = ValueError "api_key_header may not override a reserved transport header" ∧
      ∃ name, pa_api_key_header (pc_authentication connection) = Some name ∧ lower name ∈ reserved_headers
  end.
Proof.
  intros Hc. destruct (headers_for connection command) as [headers|e] eqn:Hh; [|by eapply headers_for_valid].
  apply headers_for_ok in Hh as (extra & -> & Hextra).
  assert (H : ∀ name, name ∈ ["idempotency-key"; "x-provider-command-id"; "content-type"] →
    header_values name (option_list extra) = []).
  { intros name Hname. destruct extra as [[x v]|]; [|done]. destruct Hextra as [Hx _].
    unfold header_values. change (option_list (Some (x, v))) with [(x, v)].
    rewrite filter_cons_False; [done|]. cbn. intros <-.
    destruct Hx as [->|Hx]; [vm_compute in Hname; set_solver|]. apply Hx. set_solver. }
  unfold header_values in *. rewrite !filter_app, !fmap_app, !H by set_solver. by split_and!.
Qed.

Definition demo_http_connection : ProviderConnection :=
  mkProviderConnection "shop-1" "tenant-a" cap_order_operation (mkAnyHttpUrl "https" "https://p.example/")
    "/v1/commands" (mkProviderAuthentication sch_api_key (Some "token") (Some "X-Api-Key"))
    (mkProviderTimeout (Finite 5) (Finite 30) (Finite 30)) 4 None.
Definition demo_http_command : ProviderCommandEnvelope :=
  mkEnvelope 1 155%N (order_operation_key 103%N) "msg-1" ag_order_operation 103%N (Some 3) "tenant-a" "u1" "shop-1"
    cmd_return_order (OrderPayload (mkOrderOperationCommandPayload "ORD-10001" op_return or_damaged_item None)) 0.

Lemma canonical_headers_sent_witness :
  snd <$> (match headers_for demo_http_connection demo_http_command with Ok h => h | Err _ => [] end) =
    ["application/json"; "order-operation:00000000-0000-0000-0000-000000000067";
     "00000000-0000-0000-0000-00000000009b"; "token"] ∧
  match headers_for demo_http_connection demo_http_command with
  | Ok headers =>
      header_values "idempotency-key" headers = [e_idempotency_key demo_http_command] ∧
      header_values "x-provider-command-id" headers = [uuid_str (e_command_id demo_http_command)] ∧
      header_values "content-type" headers = ["application/json"]
  | Err e =>
      e = ValueError "api_key_header may not override a reserved transport header" ∧
      ∃ name, pa_api_key_header (pc_authentication demo_http_connection) = Some name ∧ lower name ∈ reserved_headers
  end.
Proof.
  split; [vm_compute; reflexivity|].
  exact (canonical_headers_sent demo_http_connection demo_http_command eq_refl).
Defined.

(** * The simulator answers a command once *)

Lemma simulator_keeps selector body key header outcome k at_ s kk r :
  dict_get kk (sm_results s) = Some r →
  dict_get kk (sm_results (simulator_submit selector body key header outcome k at_ s).1.1) = Some r.
Proof.
  intros Hr. unfold simulator_submit. destruct body as [command|]; [|done]. cbv zeta. destruct (_ || _); [done|].
  destruct (dict_get (e_idempotency_key command) (sm_results s)) as [r'|] eqn:E; [done|].
  repeat match goal with |- context [if String.eqb ?a ?b then _ else _] => destruct (String.eqb a b) end; try done.
  all: cbn [fst sm_results]; rewrite dict_get_set; case_decide as Hk; [congruence|done].
Qed.

(** Once it has answered a command, it gives the same answer to every repetition, whatever it
    is asked to do with it, and notes nothing. *)
Lemma simulator_repeats selector command outcome k at_ s r :
  dict_get (e_idempotency_key command) (sm_results s) = Some r →
  simulator_submit selector (Some command) (Some (e_idempotency_key command))
    (Some (uuid_str (e_command_id command))) outcome k at_ s = (s, SimulatorResult r, None).
Proof.
  intros Hr. unfold simulator_submit. cbv zeta. rewrite !bool_decide_eq_false_2 by (intros H; by apply H).
  cbn [orb]. by rewrite Hr.
Qed.
