(* ===== verification/RedriveSafety.v ===== *)
(** What redrives commit: the invariants of both queues survive them, and every transaction
    of the console is steady. *)
From S2P Require Import Prelude Effects Auth OperationModels CaseModels Envelope InboxModels Retry Database RedrivePolicy Transactions Messaging CaseRepository CaseSafety OperationRepository OperationService OperationSafety OutboxWrites Finalization InboxWrites OutboxRepository ProviderViews ProviderRedrive OutboxSafety OutboxTransactions FinalizationSafety InboxSafety Steady DeliverySafety InboxTransactions.

(** * Effects of the statements *)

Lemma insert_operation_event_effect e d d' :
  insert_operation_event e d = PgOk d' →
  d' = set_order_operation_events (order_operation_events d ++ [e]) d.
Proof. unfold insert_operation_event. intros H. by inv_pg. Qed.

Lemma insert_outbox_redrive_effect r d d' :
  insert_outbox_redrive r d = PgOk d' →
  d' = set_outbox_redrives (<[ord_redrive_id r := r]> (outbox_redrives d)) d ∧
  outbox_redrives d !! ord_redrive_id r = None ∧
  collides redrive_request_key (outbox_redrives d) (ord_redrive_id r) r = false.
Proof. unfold insert_outbox_redrive. intros H. inv_pg. by bools. Qed.

Lemma insert_inbox_redrive_effect r d d' :
  insert_inbox_redrive r d = PgOk d' →
  d' = set_inbox_redrives (<[ird_redrive_id r := r]> (inbox_redrives (inbox d))) d ∧
  inbox_redrives (inbox d) !! ird_redrive_id r = None ∧
  collides redrive_request_key (inbox_redrives (inbox d)) (ird_redrive_id r) r = false.
Proof. unfold insert_inbox_redrive. intros H. inv_pg. by bools. Qed.

Lemma requeue_operation_commits tenant i v now d n d' :
  commits_to (requeue_operation tenant i v now) d n d' →
  (n = 0 ∧ d' = d) ∨
  n = 1 ∧ ∃ o, order_operations d !! i = Some o ∧ oo_tenant_id o = tenant ∧
    oo_status o = os_manual_review ∧ oo_version o = v ∧
    put_order_operation (requeued_row o now) d = PgOk d'.
Proof.
  unfold requeue_operation. intros H.
  apply commits_to_bind in H as (o & ? & [-> ->]%commits_to_select & H).
  destruct (order_operations d !! i) as [o|]; [|inv_tx; by left].
  destruct (_ && _ && _) eqn:Ew; [|inv_tx; by left]. bools.
  apply commits_to_bind in H as (u & d1 & Hp%commits_to_execute & H).
  apply commits_to_ret in H as [-> ->]. right. split; [done|]. by exists o.
Qed.

(** A row looked up within a tenant. *)
Lemma guarded_lookup {A} (m : gmap uuid A) (tenant : A → string) t i x :
  (y ← m !! i; guard (tenant y = t);; Some y) = Some x ↔ m !! i = Some x ∧ tenant x = t.
Proof.
  destruct (m !! i) as [y|]; cbn; [|naive_solver]. destruct (decide (tenant y = t)) as [E|E].
  - rewrite option_guard_True by done. naive_solver.
  - rewrite option_guard_False by done. naive_solver.
Qed.

Lemma outbox_row_of_Some tenant k d m :
  outbox_row_of tenant k d = Some m ↔ outbox_messages d !! k = Some m ∧ om_tenant_id m = tenant.
Proof. apply guarded_lookup. Qed.
Lemma inbox_row_of_Some tenant k d m :
  inbox_row_of tenant k d = Some m ↔ inbox_messages (inbox d) !! k = Some m ∧ im_tenant_id m = tenant.
Proof. apply guarded_lookup. Qed.
Lemma operation_of_tenant_Some tenant k d o :
  operation_of_tenant tenant k d = Some o ↔ order_operations d !! k = Some o ∧ oo_tenant_id o = tenant.
Proof. apply guarded_lookup. Qed.
Lemma case_of_tenant_Some tenant k d c :
  case_of_tenant tenant k d = Some c ↔ support_cases d !! k = Some c ∧ c_tenant_id c = tenant.
Proof. apply guarded_lookup. Qed.

(** * The aggregate *)

(** The note on a case's timeline: who redrove which command, and why. *)
Definition redrive_noted (s : AccessScope) (command_id : uuid) (request : ProviderRedriveRequest)
    (case_id : uuid) (now : instant) (e : SupportCaseEvent) : Prop :=
  ev_case_id e = case_id ∧ ev_event_type e = ev_provider_redrive ∧
  ev_provider_command_id e = Some command_id ∧
  ev_provider_redrive_reason_code e = Some (rq_reason_code request) ∧
  (∃ actor, identity s = Ok actor ∧ ev_actor e = Some (strip actor)) ∧ ev_created_at e = now.

Lemma insert_case_redrive_event_commits s case_id customer command_id request rid now d u d' :
  commits_to (insert_case_redrive_event s case_id customer command_id request rid now) d u d' →
  ∃ e, redrive_noted s command_id request case_id now e ∧ event_normal e ∧
    d' = set_support_case_events (support_case_events d ++ [e]) d ∧ (schema_ok d → schema_ok d').
Proof.
  intros H. unfold insert_case_redrive_event in H.
  apply commits_to_bind in H as (i & ? & ->%commits_to_uuid4 & H).
  apply commits_to_bind in H as (actor & ? & [Ha ->]%commits_to_lift & H).
  apply commits_to_bind in H as (e & ? & [He ->]%commits_to_lift & H).
  apply commits_to_execute in H. exists e.
  assert (schema_ok d → schema_ok d') as Hs by (intros Hd; by eapply insert_case_event_ok).
  pose proof (SupportCaseEvent_validate_normal _ _ He) as Hen.
  apply SupportCaseEvent_validate_ok in He as (-> & _). apply insert_case_event_effect in H.
  split_and!; [|done..]. by split_and!; eauto.
Qed.

(** The operation a human was looking at is queued again, without its review. *)
Record operation_requeued (s : AccessScope) (m : OutboxMessage) (request : ProviderRedriveRequest)
    (now : instant) (d d' : database) : Prop := {
  oq_operation : ∃ o, order_operations d !! om_aggregate_id m = Some o ∧
    oo_tenant_id o = sc_tenant_id s ∧ oo_customer_id o = om_customer_id m ∧
    oo_status o = os_manual_review ∧ oo_requires_manual_review o = true ∧
    order_operations d' = <[om_aggregate_id m := requeued_row o now]> (order_operations d) ∧
    (∃ e actor, order_operation_events d' = order_operation_events d ++ [e] ∧ op_event_normal e ∧
       oev_operation_id e = om_aggregate_id m ∧ oev_event_type e = oe_status_changed ∧
       oev_previous_status e = Some os_manual_review ∧ oev_current_status e = Some os_queued ∧
       identity s = Ok actor ∧ oev_actor e = strip actor) ∧
    ∃ c e, oo_support_case_id o = Some (c_case_id c) ∧ support_cases d !! c_case_id c = Some c ∧
      c_tenant_id c = sc_tenant_id s ∧ c_customer_id c = om_customer_id m ∧
      c_case_type c = ct_order_operation_review ∧
      support_case_events d' = support_case_events d ++ [e] ∧ event_normal e ∧
      redrive_noted s (om_command_id m) request (c_case_id c) now e;
  oq_cases : support_cases d' = support_cases d;
  oq_messaging : same_messaging d d';
  oq_inbox : same_inbox d d';
  oq_submissions : provider_submissions d' = provider_submissions d;
  oq_schema : schema_ok d';
}.

Lemma recover_operation_commits s m request rid now d u d' :
  schema_ok d → commits_to (recover_operation s m request rid now) d u d' →
  operation_requeued s m request now d d'.
Proof.
  intros Hd H. unfold recover_operation in H.
  apply commits_to_bind in H as (o' & ? & [Ho ->]%commits_to_select & H).
  destruct o' as [o|]; [|by apply commits_to_raise in H]. symmetry in Ho.
  apply operation_of_tenant_Some in Ho as [Ho Hot]. pose proof (so_op_id d Hd _ _ Ho) as Hid.
  destruct (oo_support_case_id o) as [ci|] eqn:Hci; [|by apply commits_to_raise in H].
  apply commits_to_bind in H as (? & ? & [Hg ->]%commits_to_raise_if & H).
  rewrite !orb_false_iff, !bool_decide_eq_false, negb_false_iff in Hg. destruct Hg as [[[G1 G2] G3] _].
  apply dec_stable in G1, G2.
  apply commits_to_bind in H as (c' & ? & [Hc ->]%commits_to_select & H).
  destruct c' as [c|]; [|by apply commits_to_raise in H]. symmetry in Hc.
  apply case_of_tenant_Some in Hc as [Hc Hct]. pose proof (so_case_id d Hd _ _ Hc) as Hcid. subst ci.
  apply commits_to_bind in H as (? & ? & [Hg ->]%commits_to_raise_if & H).
  rewrite !orb_false_iff, !bool_decide_eq_false in Hg. destruct Hg as [G5 G6]. apply dec_stable in G5, G6.
  apply commits_to_bind in H as (n & d1 & Hu & H).
  apply commits_to_bind in H as (? & ? & [Hn ->]%commits_to_raise_if & H).
  apply requeue_operation_commits in Hu as [[-> _]|(_ & o2 & Ho2 & _ & _ & _ & Hput)]; [done|].
  rewrite Hid, Ho in Ho2. injection Ho2 as <-.
  apply commits_to_bind in H as (i & ? & ->%commits_to_uuid4 & H).
  apply commits_to_bind in H as (actor & ? & [Ha ->]%commits_to_lift & H).
  apply commits_to_bind in H as (e & ? & [He ->]%commits_to_lift & H).
  apply commits_to_bind in H as (? & d2 & Hins%commits_to_execute & H).
  apply insert_case_redrive_event_commits in H as (ce & Hce & Hcn & E3 & Hs3).
  pose proof (put_order_operation_ok _ _ _ Hd Hput) as Hs1.
  pose proof (insert_operation_event_ok _ _ _ Hs1 Hins) as Hs2.
  pose proof (OrderOperationEvent_validate_normal _ _ He) as Hen.
  apply OrderOperationEvent_validate_ok in He as (Ee & _).
  apply put_order_operation_effect in Hput as [E1 _]. apply insert_operation_event_effect in Hins as E2.
  pose proof (Hs3 Hs2) as Hs'.
  subst d' d2 d1. split; try done.
  exists o. split_and!; try done.
  - cbn. by rewrite Hid.
  - exists e, actor. subst e. by split_and!.
  - exists c, ce. by split_and!.
Qed.

(** A delivery investigation only notes the redrive. *)
Record investigation_noted (s : AccessScope) (m : OutboxMessage) (request : ProviderRedriveRequest)
    (now : instant) (d d' : database) : Prop := {
  iq_case : ∃ c e, om_command_type m = cmd_delivery_investigation ∧
    support_cases d !! om_aggregate_id m = Some c ∧
    c_tenant_id c = sc_tenant_id s ∧ c_customer_id c = om_customer_id m ∧
    c_case_type c = ct_delivery_investigation ∧
    support_case_events d' = support_case_events d ++ [e] ∧ event_normal e ∧
    redrive_noted s (om_command_id m) request (om_aggregate_id m) now e;
  iq_cases : support_cases d' = support_cases d;
  iq_operations : same_operations d d';
  iq_messaging : same_messaging d d';
  iq_inbox : same_inbox d d';
  iq_schema : schema_ok d';
}.

Lemma audit_support_case_commits s m request rid now d u d' :
  schema_ok d → commits_to (audit_support_case s m request rid now) d u d' →
  investigation_noted s m request now d d'.
Proof.
  intros Hd H. unfold audit_support_case in H.
  apply commits_to_bind in H as (? & ? & [Hg ->]%commits_to_raise_if & H).
  apply bool_decide_eq_false, dec_stable in Hg.
  apply commits_to_bind in H as (c' & ? & [Hc ->]%commits_to_select & H).
  destruct c' as [c|]; [|by apply commits_to_raise in H]. symmetry in Hc.
  apply case_of_tenant_Some in Hc as [Hc Hct]. pose proof (so_case_id d Hd _ _ Hc) as Hcid.
  apply commits_to_bind in H as (? & ? & [Hg2 ->]%commits_to_raise_if & H).
  rewrite !orb_false_iff, !bool_decide_eq_false in Hg2. destruct Hg2 as [G1 G2]. apply dec_stable in G1, G2.
  apply insert_case_redrive_event_commits in H as (e & He & Hen & -> & Hs). rewrite Hcid in He.
  split; cbn; try done; [|by apply Hs]. by exists c, e.
Qed.

(** What a redrive does to the aggregate of its command. *)
Definition aggregate_recovered (s : AccessScope) (m : OutboxMessage) (request : ProviderRedriveRequest)
    (now : instant) (d d' : database) : Prop :=
  match om_aggregate_type m with
  | ag_order_operation => operation_requeued s m request now d d'
  | ag_support_case => investigation_noted s m request now d d'
  end.

Lemma recover_aggregate_commits s m request rid now d u d' :
  schema_ok d → commits_to (recover_aggregate s m request rid now) d u d' →
  aggregate_recovered s m request now d d'.
Proof.
  unfold recover_aggregate, aggregate_recovered. intros Hd H. destruct (om_aggregate_type m).
  - by eapply recover_operation_commits.
  - by eapply audit_support_case_commits.
Qed.

Lemma aggregate_recovered_frame s m request now d d' :
  aggregate_recovered s m request now d d' → schema_ok d' ∧ same_messaging d d' ∧ same_inbox d d'.
Proof. unfold aggregate_recovered. by destruct (om_aggregate_type m); intros []. Qed.

Lemma aggregate_recovered_cases s m request now d d' :
  aggregate_recovered s m request now d d' → cases_kept d d'.
Proof.
  unfold aggregate_recovered. intros H Hd.
  assert (∃ e, support_case_events d' = support_case_events d ++ [e] ∧ event_normal e ∧
    support_cases d' = support_cases d ∧ schema_ok d') as (e & E1 & He & E2 & Hs).
  { destruct (om_aggregate_type m).
    - destruct H as [(o & _ & _ & _ & _ & _ & _ & _ & c & e & _ & _ & _ & _ & _ & ? & ? & _) ? _ _ _ ?]. by exists e.
    - destruct H as [(c & e & _ & _ & _ & _ & _ & ? & ? & _) ? _ _ _ ?]. by exists e. }
  split; [by eapply case_db_ok_events|]. by apply cases_evolve_frame.
Qed.

Lemma aggregate_recovered_operations s m request now d d' :
  aggregate_recovered s m request now d d' → operations_kept d d'.
Proof.
  unfold aggregate_recovered. intros H Hd. destruct (om_aggregate_type m).
  - destruct H as [(o & Ho & _ & _ & Hst & _ & E1 & (e & actor & E2 & He & _) & _) _ [E3 _] _ E4 Hs].
    pose proof (so_op_id d (odb_schema d Hd) _ _ Ho) as Hid. pose proof (odb_rows d Hd _ _ Ho) as Hrd.
    assert (1 ≤ oo_version o) as Hv.
    { pose proof (so_op_check d (odb_schema d Hd) _ _ Ho) as Hck. unfold order_operations_check, int4_ok in Hck.
      bools. lia. }
    assert (op_readable (requeued_row o now)) as Hrd'.
    { apply finalized_row_readable; [done|by right; right| |lia].
      apply op_readable_facts in Hrd as (_ & Hf & _). unfold OrderOperation_fields_ok in Hf. by bools. }
    assert (operations_evolve d d') as Hev.
    { eapply evolve_insert; [apply _|exact Ho|exact E1|]. intros x [= <-]. split; [|cbn; lia].
      unfold op_same. cbn. split_and!; try done; rewrite Hst. eapply reaches_step; [|constructor]. done. }
    split; [|done]. eapply op_db_ok_commit; [exact Hd|done|done| |exact Hrd'|exact E2| |done..].
    + cbn. by rewrite Hid.
    + by constructor.
  - destruct H as [_ _ H H' _ Hs]. apply operations_kept_frame; [by intros _|done|apply H'|done].
Qed.

(** * The outbox in a new cycle *)

Lemma identity_ink s actor : identity s = Ok actor → has_ink actor = true.
Proof.
  unfold identity. intros (_ & _ & ->)%encode_identity_key_ok. rewrite has_ink_app. cbn. by rewrite orb_true_r.
Qed.

Lemma set_outbox_redrives_schema t d : schema_ok d → schema_ok (set_outbox_redrives t d).
Proof. by intros []; split. Qed.

(** A dead message is scheduled again, one cycle on, with the audit row that says so. *)
Record message_redriven (m m' : OutboxMessage) (r : OutboxRedrive) (d d' : database) : Prop := {
  mr_message : outbox_messages d !! om_command_id m = Some m;
  mr_dead : om_status m = ob_dead;
  mr_messages : outbox_messages d' = <[om_command_id m := m']> (outbox_messages d);
  mr_attempts : outbox_delivery_attempts d' = outbox_delivery_attempts d;
  mr_deliveries : provider_deliveries d' = provider_deliveries d;
  mr_audit : outbox_redrives d' = <[redrive_id r := r]> (outbox_redrives d);
  mr_fresh : outbox_redrives d !! redrive_id r = None;
  mr_unique : collides redrive_request_key (outbox_redrives d) (redrive_id r) r = false;
  mr_target : redrive_target r = om_command_id m ∧ redrive_tenant r = om_tenant_id m;
  mr_row : m' = redriven_message (om_available_at m') (om_updated_at m') m;
  mr_cycle : redrive_previous_cycle r = om_delivery_cycle m ∧ redrive_new_cycle r = om_delivery_cycle m + 1;
  mr_actor : has_ink (redrive_requested_by r) = true;
}.

Lemma message_redriven_row m m' r d d' :
  message_redriven m m' r d d' →
  envelope_of m' = envelope_of m ∧ om_capability m' = om_capability m ∧ om_status m' = ob_retry_scheduled ∧
  om_delivery_cycle m' = om_delivery_cycle m + 1 ∧ om_attempts_in_cycle m' = 0 ∧
  om_lease_id m' = None ∧ om_tenant_id m' = om_tenant_id m.
Proof. intros [_ _ _ _ _ _ _ _ _ -> _ _]. by split_and!. Qed.

Lemma message_redriven_evolves m m' r d d' : message_redriven m m' r d d' → outbox_evolve d d'.
Proof.
  intros H. destruct (message_redriven_row _ _ _ _ _ H) as (He & Hca & _ & Hcy & _).
  destruct H as [Hm _ Em _ _ Er Hf _ _ _ _ _]. split; [|rewrite Er; by apply insert_subseteq].
  intros k x Hx. rewrite Em, lookup_insert. case_decide as E; [|exists x; split; [done|reflexivity]].
  subst k. rewrite Hm in Hx. injection Hx as <-. exists m'. split; [done|]. split_and!; [done..|]. left. lia.
Qed.

Lemma message_redriven_ok m m' r d d' :
  outbox_ok d → schema_ok d' → message_redriven m m' r d d' → outbox_ok d'.
Proof.
  intros Hd Hs H. destruct (message_redriven_row _ _ _ _ _ H) as (He & _ & Hst & Hcy & _ & _ & Hten).
  destruct H as [Hm Hdead Em Ea Ep Er Hf Hu [Ht1 Ht2] _ [Hp Hn] Hact].
  destruct (outbox_ok_envelopes d d' _ m m' Hd Hm Em Ep He) as [Hen Hdv].
  split; [done|..|done|done|]; rewrite ?Ea.
  - intros k x. rewrite Em, lookup_insert. case_decide; [intros [= <-]; congruence|by apply Hd].
  - intros i a Ha Hopen. destruct (ob_open d Hd i a Ha Hopen) as (x & Hx & Hfit). exists x. split; [|done].
    rewrite Em, lookup_insert_ne; [done|]. intros E. rewrite <- E, Hm in Hx. injection Hx as <-.
    destruct Hfit as [Hfit _]. congruence.
  - intros i a Ha. destruct (ob_counted d Hd i a Ha) as (x & Hx & Hcx). rewrite Em, lookup_insert.
    case_decide as E; [|by exists x]. rewrite <- E, Hm in Hx. injection Hx as <-. exists m'. split; [done|].
    destruct Hcx as [Hcx _]. unfold counted. rewrite Hcy. split; [lia|]. lia.
  - apply Hd.
  - rewrite Er. unfold delivery_cycles. rewrite Em, fmap_insert, Hten, Hcy, <- Ht2, <- Ht1.
    apply audit_ok_redrive; [apply Hd| |done..]. rewrite Ht1, Ht2. by apply delivery_cycles_lookup.
Qed.

(** * The outbox transaction *)

Lemma within_insert_outbox_redrive r : tx_within messaging_step (execute (insert_outbox_redrive r)).
Proof.
  apply within_execute. intros d d' [-> _]%insert_outbox_redrive_effect. split; [done|].
  intros Hd. split; [by apply set_outbox_redrives_schema|]. split; [done|]. intros k m Hm. by exists m.
Qed.
#[export] Hint Resolve within_insert_outbox_redrive : within.

(** The audit row a redrive leaves. *)
Definition redrive_recorded {A} `{RedriveRow A} (s : AccessScope) (request : ProviderRedriveRequest) (r : A) : Prop :=
  redrive_tenant r = sc_tenant_id s ∧ redrive_request r = rq_request_id request ∧
  redrive_reason_code r = Some (rq_reason_code request) ∧ identity s = Ok (redrive_requested_by r).

(** The answer shows the audit row. *)
Definition view_of {A} `{RedriveRow A} (r : A) (v : ProviderRedriveView) : Prop :=
  ProviderRedriveView_validate
    (mkProviderRedriveView (Some (redrive_request r)) (redrive_reason_code r) (redrive_requested_by r)
       (redrive_previous_cycle r) (redrive_new_cycle r) (redrive_created_at r)) = Ok v.

(** One redrive of a command: its aggregate and the message move on together, recorded. *)
Record outbox_redriven (s : AccessScope) (command_id : uuid) (request : ProviderRedriveRequest)
    (v : ProviderRedriveView) (d d' : database) : Prop := {
  or_redriven : ∃ m m' r d1 now, om_command_id m = command_id ∧ om_tenant_id m = sc_tenant_id s ∧
    aggregate_recovered s m request now d d1 ∧ message_redriven m m' r d1 d' ∧ messaging_step d1 d' ∧
    same_domain d1 d' ∧
    redrive_recorded s request r ∧ redrive_created_at r = now ∧ view_of r v ∧
    technically_exhausted
      (outbox_redrive_state m (terminal_attempt (sc_tenant_id s) command_id (om_delivery_cycle m) d)) MAX_ATTEMPTS;
}.

Lemma decided_eligible state r d d' u :
  decide_outbox_redrive_eligibility state MAX_ATTEMPTS = Ok r →
  commits_to (tx_raise_if (negb (el_eligible r)) (conflict (eligibility_value (el_reason_code r)))) d u d' →
  technically_exhausted state MAX_ATTEMPTS ∧ d' = d.
Proof.
  intros Hr [Hn ->]%commits_to_raise_if. apply negb_false_iff in Hn. split; [|done].
  assert (1 ≤ MAX_ATTEMPTS) as Hmax by (unfold MAX_ATTEMPTS; lia).
  by eapply outbox_redrive_policy.
Qed.

Section AuditLookup.
Context {A} `{RedriveRow A}.

Lemma audit_for_request_Some tenant request (rows : gmap uuid A) r :
  audit_for_request tenant request rows = Some r →
  (∃ i, rows !! i = Some r) ∧ redrive_tenant r = tenant ∧ redrive_request r = request.
Proof.
  intros Hr%head_Some_elem_of. apply list_elem_of_filter in Hr as [[? ?] Hr%elem_of_rows]. done.
Qed.

Lemma audit_for_request_None tenant request (rows : gmap uuid A) i r :
  audit_for_request tenant request rows = None → rows !! i = Some r →
  redrive_tenant r = tenant → redrive_request r ≠ request.
Proof.
  unfold audit_for_request. intros Hn Hr Ht Hq. destruct (filter _ _) as [|x l] eqn:E; [|done].
  assert (r ∈ ([] : list A)) as Hin; [|by apply elem_of_nil in Hin].
  rewrite <- E. apply list_elem_of_filter. split; [done|]. apply elem_of_rows. eauto.
Qed.

Lemma audit_seen_Some stale target tenant request (rows : gmap uuid A) r :
  audit_seen stale target tenant request rows = Some r → audit_for_request tenant request rows = Some r.
Proof.
  unfold audit_seen. destruct (audit_for_request _ _ _) as [x|]; cbn; [|done]. by case_match; intros [= <-].
Qed.

(** A recorded request that is found again: the answer shows the audit row. *)
Lemma validate_replay_ok (r : A) target request v :
  validate_replay r target request = Ok v ↔
  redrive_target r = target ∧ redrive_reason_code r = Some (rq_reason_code request) ∧ redrive_view r = Ok v.
Proof.
  unfold validate_replay. case_bool_decide; cbn; [naive_solver|].
  case_bool_decide; cbn; [naive_solver|]. intuition.
Qed.
End AuditLookup.

(** The request has already been carried out on [target]: nothing is written. *)
Definition redrive_replayed {A} `{RedriveRow A} (s : AccessScope) (target : uuid)
    (request : ProviderRedriveRequest) (v : ProviderRedriveView) (rows : gmap uuid A) : Prop :=
  ∃ r, audit_for_request (sc_tenant_id s) (rq_request_id request) rows = Some r ∧
    redrive_target r = target ∧ redrive_reason_code r = Some (rq_reason_code request) ∧ redrive_view r = Ok v.

Lemma redrive_outbox_commits stale s k request d v d' :
  schema_ok d → commits_to (redrive_outbox_tx stale s k request) d v d' →
  (d' = d ∧ redrive_replayed s k request v (outbox_redrives d)) ∨ outbox_redriven s k request v d d'.
Proof.
  intros Hd H. unfold redrive_outbox_tx in H.
  apply commits_to_bind in H as (m' & ? & [Hm ->]%commits_to_select & H).
  destruct m' as [m|]; [|by apply commits_to_raise in H]. symmetry in Hm.
  apply outbox_row_of_Some in Hm as [Hm Hten]. pose proof (so_outbox_id d Hd _ _ Hm) as Hid.
  apply commits_to_bind in H as (replay & ? & [Hr ->]%commits_to_select & H).
  destruct replay as [r|].
  { left. apply commits_to_lift in H as [Hv ->]. split; [done|]. exists r.
    apply validate_replay_ok in Hv as (? & ? & ?). split_and!; [|done..]. by eapply audit_seen_Some. }
  right. clear Hr.
  apply commits_to_bind in H as (attempt & ? & [-> ->]%commits_to_select & H).
  apply commits_to_bind in H as (decision & ? & [Hdec ->]%commits_to_lift & H).
  apply commits_to_bind in H as (? & ? & Hel & H).
  destruct (decided_eligible _ _ _ _ _ Hdec Hel) as [Hex ->].
  apply commits_to_bind in H as (av & ? & ->%commits_to_clock & H).
  apply commits_to_bind in H as (t & ? & ->%commits_to_clock & H).
  apply commits_to_bind in H as (rid & ? & ->%commits_to_uuid4 & H).
  set (now := Z.max t (om_updated_at m)) in *.
  apply commits_to_bind in H as (? & d1 & Hagg & H).
  apply recover_aggregate_commits in Hagg; [|done].
  destruct (aggregate_recovered_frame _ _ _ _ _ _ Hagg) as (Hs1 & (Em & Ea & Ep & Er) & Hib).
  apply commits_to_bind in H as (up & d2 & Hu & H).
  assert (messaging_step d1 d2) as Hst1 by (eapply within_update_outbox, Hu; done).
  apply commits_to_bind in H as (? & ? & [Hn ->]%commits_to_raise_if & H).
  apply update_outbox_commits in Hu as [[-> _]|(m2 & -> & Hm2 & Hw & Hput)]; [done|].
  rewrite Em, Hm in Hm2. injection Hm2 as <-. bools.
  apply commits_to_bind in H as (actor & ? & [Hact ->]%commits_to_lift & H).
  set (row := mkOutboxRedrive rid k _ _ actor _ _ _ _ now) in *.
  apply commits_to_bind in H as (? & d3 & Hins & H).
  pose proof (within_insert_outbox_redrive row _ _ _ Hins) as Hst2. apply commits_to_execute in Hins.
  apply commits_to_lift in H as [Hv ->].
  pose proof (put_outbox_message_ok _ _ _ Hs1 Hput) as Hs2.
  apply put_outbox_message_effect in Hput as [E2 _]. apply insert_outbox_redrive_effect in Hins as (E3 & Hf & Hq).
  rewrite E2 in Hf, Hq. cbn in Hf, Hq.
  split. eexists m, (redriven_message av now m), row, d1, now. split_and!; try done.
  - split; try done; rewrite ?E3, ?E2; cbn; try done.
    + by rewrite Em, Hid.
    + unfold redriven_message. cbn. f_equal. unfold greatest3. lia.
    + by eapply identity_ink.
  - by etrans.
  - by subst d3 d2.
Qed.

Lemma outbox_redriven_steady s k request v d d' :
  schema_ok d → same_inbox d d' → outbox_redriven s k request v d d' → steady d d'.
Proof.
  intros Hd Hi [(m & m' & r & d1 & now & _ & _ & Hagg & Hmsg & Hst & _)].
  destruct (aggregate_recovered_frame _ _ _ _ _ _ Hagg) as (Hs1 & Hm1 & _).
  pose proof (aggregate_recovered_cases _ _ _ _ _ _ Hagg) as Hc.
  pose proof (aggregate_recovered_operations _ _ _ _ _ _ Hagg) as Ho.
  assert (schema_ok d') as Hs' by by apply Hst. split.
  - by intros _.
  - etrans; [exact Hc|by apply messaging_step_cases].
  - etrans; [exact Ho|by apply messaging_step_operations].
  - intros Hb. destruct (outbox_kept_frame d d1 (λ _, Hs1) Hm1 Hb) as [Hb1 Hev1].
    split; [by eapply message_redriven_ok|]. etrans; [exact Hev1|by eapply message_redriven_evolves].
  - by apply inbox_kept_frame.
Qed.

Lemma within_update_outbox_inbox k where_ set : tx_within same_inbox (update_outbox k where_ set).
Proof.
  intros d r d' [[_ ->]|(m & _ & _ & _ & Hput)]%update_outbox_commits; [by apply same_inbox_preorder|].
  by apply put_outbox_message_effect in Hput as [-> _].
Qed.
Lemma within_insert_redrive_inbox r : tx_within same_inbox (execute (insert_outbox_redrive r)).
Proof. apply within_inbox. auto with within. Qed.
#[export] Hint Resolve within_update_outbox_inbox within_insert_redrive_inbox : within.

Lemma redrive_outbox_inbox stale s k request : tx_within same_inbox (redrive_outbox_tx stale s k request).
Proof.
  unfold redrive_outbox_tx, recover_aggregate, recover_operation, audit_support_case, requeue_operation,
    insert_case_redrive_event. tx_walk.
Qed.

Lemma redrive_outbox_steady stale s k request : tx_within steady (redrive_outbox_tx stale s k request).
Proof.
  intros d v d' H. pose proof (redrive_outbox_inbox _ _ _ _ _ _ _ H) as Hi.
  assert (schema_ok d → steady d d') as Hst.
  { intros Hd. apply redrive_outbox_commits in H as [[-> _]|H]; [reflexivity|by eapply outbox_redriven_steady|done]. }
  split; [..|by apply inbox_kept_frame].
  - intros Hd. by apply (st_schema _ _ (Hst Hd)).
  - intros Hd. by apply (st_cases _ _ (Hst (cdb_schema d Hd))).
  - intros Hd. by apply (st_operations _ _ (Hst (odb_schema d Hd))).
  - intros Hd. by apply (st_outbox _ _ (Hst (ob_schema d Hd))).
Qed.

(** * The inbox in a new cycle *)

(** A failed message waits again, one cycle on, with the audit row that says so. *)
Record callback_redriven (m m' : InboxMessage) (r : InboxRedrive) (t t' : inbox_tables) : Prop := {
  cr_message : inbox_messages t !! im_inbox_id m = Some m;
  cr_failed : im_status m = ib_failed;
  cr_messages : inbox_messages t' = <[im_inbox_id m := m']> (inbox_messages t);
  cr_attempts : inbox_attempts t' = inbox_attempts t;
  cr_audit : inbox_redrives t' = <[redrive_id r := r]> (inbox_redrives t);
  cr_fresh : inbox_redrives t !! redrive_id r = None;
  cr_unique : collides redrive_request_key (inbox_redrives t) (redrive_id r) r = false;
  cr_target : redrive_target r = im_inbox_id m ∧ redrive_tenant r = im_tenant_id m;
  cr_row : m' = redriven_callback (im_available_at m') (im_updated_at m') m;
  cr_cycle : redrive_previous_cycle r = im_processing_cycle m ∧
             redrive_new_cycle r = im_processing_cycle m + 1;
  cr_actor : has_ink (redrive_requested_by r) = true;
  cr_check : inbox_messages_check m' = true;
}.

Lemma callback_redriven_row m m' r t t' :
  callback_redriven m m' r t t' →
  same_event m m' ∧ im_status m' = ib_received ∧ im_processing_cycle m' = im_processing_cycle m + 1 ∧
  im_attempts_in_cycle m' = 0 ∧ im_processing_attempts m' = im_processing_attempts m ∧ im_lease_id m' = None.
Proof. intros [_ _ _ _ _ _ _ _ -> _ _ _]. by split_and!. Qed.

Lemma callback_redriven_evolves m m' r t t' : callback_redriven m m' r t t' → inbox_evolve t t'.
Proof.
  intros H. destruct (callback_redriven_row _ _ _ _ _ H) as (He & _ & Hcy & _ & Hp & _).
  destruct H as [Hm _ Em _ Er Hf _ _ _ _ _ _]. split; [|rewrite Er; by apply insert_subseteq].
  intros k x Hx. rewrite Em, lookup_insert. case_decide as E; [|exists x; split; [done|reflexivity]].
  subst k. rewrite Hm in Hx. injection Hx as <-. exists m'. split; [done|]. split_and!; [done|lia|]. left. lia.
Qed.

Lemma callback_redriven_ok m m' r t t' : inbox_ok t → callback_redriven m m' r t t' → inbox_ok t'.
Proof.
  intros Ht H. destruct (callback_redriven_row _ _ _ _ _ H) as (He & Hst & Hcy & Hn & Hp & _).
  destruct H as [Hm Hfail Em Ea Er Hf Hu [Ht1 Ht2] _ [Hpc Hnc] Hact Hck].
  unfold same_event in He. destruct_and!.
  split; rewrite ?Ea; rewrite ?Em; [..|].
  - apply (insert_rows (λ i x, im_inbox_id x = i)); [apply Ht|congruence].
  - apply (insert_rows (λ _ x, inbox_messages_check x = true)); [apply Ht|done].
  - eapply index_unique_rekey; [apply Ht|exact Hm|]. unfold inbox_event_key. congruence.
  - apply Ht.
  - apply Ht.
  - apply (insert_rows (λ _ x, ProviderWebhookEventData_validate (im_payload x) = Ok (im_payload x))); [apply Ht|].
    replace (im_payload m') with (im_payload m). by eapply ib_payload.
  - intros i x. rewrite lookup_insert. case_decide; [intros [= <-]; congruence|by apply Ht].
  - intros j a Ha Hopen. destruct (ib_open t Ht j a Ha Hopen) as (x & Hx & Hl). exists x. split; [|done].
    rewrite lookup_insert_ne; [done|]. intros E. rewrite <- E, Hm in Hx. injection Hx as <-.
    destruct Hl as [Hl _]. congruence.
  - intros j a Ha. destruct (ib_numbered t Ht j a Ha) as (x & Hx & Hnx). rewrite lookup_insert.
    case_decide as E; [|by exists x]. rewrite <- E, Hm in Hx. injection Hx as <-. exists m'. split; [done|].
    destruct Hnx as (Hn1 & Hn2 & _). unfold numbered. rewrite Hcy, Hp. split_and!; lia.
  - rewrite Er. unfold processing_cycles. rewrite Em, fmap_insert, Hcy.
    replace (im_tenant_id m') with (redrive_tenant r) by congruence. rewrite <- Ht1.
    apply audit_ok_redrive; [apply Ht| |done..]. rewrite Ht1, Ht2. by apply processing_cycles_lookup.
Qed.

(** One redrive of a callback: the message moves on, recorded, and nothing else changes. *)
Record inbox_redriven (s : AccessScope) (inbox_id : uuid) (request : ProviderRedriveRequest)
    (v : ProviderRedriveView) (d d' : database) : Prop := {
  ir_redriven : ∃ m m' r, im_inbox_id m = inbox_id ∧ im_tenant_id m = sc_tenant_id s ∧
    callback_redriven m m' r (inbox d) (inbox d') ∧ redrive_recorded s request r ∧ view_of r v ∧
    im_lease_id m = None;
  ir_only : only_inbox d d';
}.

Lemma redrive_inbox_commits stale s k request d v d' :
  inbox_ok (inbox d) → commits_to (redrive_inbox_tx stale s k request) d v d' →
  (d' = d ∧ redrive_replayed s k request v (inbox_redrives (inbox d))) ∨ inbox_redriven s k request v d d'.
Proof.
  intros Hd H. unfold redrive_inbox_tx in H.
  apply commits_to_bind in H as (m' & ? & [Hm ->]%commits_to_select & H).
  destruct m' as [m|]; [|by apply commits_to_raise in H]. symmetry in Hm.
  apply inbox_row_of_Some in Hm as [Hm Hten]. pose proof (ib_id _ Hd _ _ Hm) as Hid.
  apply commits_to_bind in H as (replay & ? & [Hr ->]%commits_to_select & H).
  destruct replay as [r|].
  { left. apply commits_to_lift in H as [Hv ->]. split; [done|]. exists r.
    apply validate_replay_ok in Hv as (? & ? & ?). split_and!; [|done..]. by eapply audit_seen_Some. }
  right. clear Hr.
  apply commits_to_bind in H as (decision & ? & [Hdec ->]%commits_to_lift & H).
  apply commits_to_bind in H as (? & ? & [Hel ->]%commits_to_raise_if & H). apply negb_false_iff in Hel.
  destruct (inbox_redrive_policy (mkInboxRedriveState (im_status m) (bool_decide (is_Some (im_lease_id m)))))
    as (r' & Hr' & [Hyes _] & _). rewrite Hdec in Hr'. injection Hr' as <-. destruct (Hyes Hel) as [Hfail Hlease].
  cbn in Hfail, Hlease. apply bool_decide_eq_false in Hlease. rewrite <- eq_None_not_Some in Hlease.
  apply commits_to_bind in H as (av & ? & ->%commits_to_clock & H).
  apply commits_to_bind in H as (t & ? & ->%commits_to_clock & H).
  set (now := Z.max t (im_updated_at m)) in *.
  apply commits_to_bind in H as (rid & ? & ->%commits_to_uuid4 & H).
  apply commits_to_bind in H as (up & d2 & Hu & H).
  apply commits_to_bind in H as (? & ? & [Hn ->]%commits_to_raise_if & H).
  apply update_inbox_commits in Hu as [[-> _]|(m2 & -> & Hm2 & Hw & Hput)]; [done|].
  rewrite Hm in Hm2. injection Hm2 as <-.
  apply commits_to_bind in H as (actor & ? & [Hact ->]%commits_to_lift & H).
  set (row := mkInboxRedrive rid k _ _ actor _ _ _ now) in *.
  apply commits_to_bind in H as (? & d3 & Hins%commits_to_execute & H).
  apply commits_to_lift in H as [Hv ->].
  apply put_inbox_message_effect in Hput as (E2 & Hck & _). apply insert_inbox_redrive_effect in Hins as (E3 & Hf & Hq).
  rewrite E2 in Hf, Hq. cbn in Hf, Hq. split; [|by rewrite E3, E2].
  exists m, (redriven_callback av now m), row. split_and!; try done.
  split; try done; rewrite ?E3, ?E2; cbn; try done.
  - by rewrite Hid.
  - unfold redriven_callback. cbn. f_equal. unfold greatest3. lia.
  - by eapply identity_ink.
Qed.

Lemma inbox_redriven_kept s k request v d d' : inbox_redriven s k request v d d' → inbox_kept d d'.
Proof.
  intros [(m & m' & r & _ & _ & H & _) _] Hd.
  split; [by eapply callback_redriven_ok|by eapply callback_redriven_evolves].
Qed.

Lemma within_insert_inbox_redrive r : tx_within only_inbox (execute (insert_inbox_redrive r)).
Proof. by apply within_execute; intros d d' [-> _]%insert_inbox_redrive_effect. Qed.
#[export] Hint Resolve within_insert_inbox_redrive : within.

Lemma redrive_inbox_steady stale s k request : tx_within steady (redrive_inbox_tx stale s k request).
Proof.
  apply steady_inbox.
  - unfold redrive_inbox_tx. tx_walk.
  - intros d v d' H Hd. apply redrive_inbox_commits in H as [[-> _]|H]; [split; [done|reflexivity]| |done].
    by eapply inbox_redriven_kept.
Qed.

(** * What the console lets other workers see *)

Section Honest.
Context (amb : Ambient database) (Hamb : steady_world amb) (J : database → Prop) `{!Stable J}.

Lemma read_honest {A} (f : database → A) : honest amb J (read f).
Proof using Hamb Stable0. by apply honest_query. Qed.

Lemma audit_conflict_honest {A} `{RedriveRow A} (stored : database → gmap uuid A) c s target request e k :
  audit_conflict stored c s target request e = Some k → honest amb J k.
Proof using Hamb Stable0.
  destruct e; intros [= <-]. case_bool_decide; [|apply honest_raise].
  apply honest_bind; [apply read_honest|]. intros [r|]; [apply honest_lift|apply honest_raise].
Qed.

Lemma redrive_outbox_honest stale s k request : honest amb J (redrive_outbox stale s k request).
Proof using Hamb Stable0.
  apply honest_bind; [apply honest_lift|]. intros _. apply honest_bind; [apply honest_lift|]. intros _.
  apply honest_try; [|intros e h; apply audit_conflict_honest].
  apply honest_bind; [apply read_honest|]. intros [r|]; [apply honest_lift|].
  apply honest_tx; [done..|apply redrive_outbox_steady].
Qed.

Lemma redrive_inbox_honest stale s k request : honest amb J (redrive_inbox stale s k request).
Proof using Hamb Stable0.
  apply honest_bind; [apply honest_lift|]. intros _. apply honest_bind; [apply honest_lift|]. intros _.
  apply honest_try; [|intros e h; apply audit_conflict_honest].
  apply honest_bind; [apply read_honest|]. intros [r|]; [apply honest_lift|].
  apply honest_tx; [done..|apply redrive_inbox_steady].
Qed.
End Honest.

(** A call of the console. *)
Inductive console_call :=
  | ConsoleOverview
  | ConsoleActivity (limit : Z)
  | ConsoleOutbox (command_id : uuid) (history_limit : Z)
  | ConsoleInbox (inbox_id : uuid) (history_limit : Z)
  | ConsoleRedriveOutbox (stale : bool) (command_id : uuid) (request : ProviderRedriveRequest)
  | ConsoleRedriveInbox (stale : bool) (inbox_id : uuid) (request : ProviderRedriveRequest).

Definition run_console_call (s : AccessScope) (c : console_call) : M database unit :=
  match c with
  | ConsoleOverview => get_queue_overview s;, ret tt
  | ConsoleActivity limit => get_attempt_activity s limit;, ret tt
  | ConsoleOutbox i limit => get_outbox_detail s i limit;, ret tt
  | ConsoleInbox i limit => get_inbox_detail s i limit;, ret tt
  | ConsoleRedriveOutbox stale i request => redrive_outbox stale s i request;, ret tt
  | ConsoleRedriveInbox stale i request => redrive_inbox stale s i request;, ret tt
  end.

Ltac honest_walk :=
  repeat first
    [ progress intros
    | apply honest_ret | apply honest_raise | apply honest_lift
    | by apply honest_now | by apply read_honest
    | apply honest_bind
    | match goal with |- honest _ _ (match ?x with _ => _ end) => destruct x end ].

Lemma console_call_honest amb J s c :
  steady_world amb → Stable J → honest amb J (run_console_call s c).
Proof.
  intros Hamb HJ. destruct c; cbn [run_console_call];
    (apply honest_bind; [|intros; apply honest_ret]);
    [..|by apply redrive_outbox_honest|by apply redrive_inbox_honest].
  - unfold get_queue_overview, repo_get_queue_overview, server_time. honest_walk.
  - unfold get_attempt_activity, repo_get_attempt_activity, server_time. honest_walk.
  - unfold get_outbox_detail, repo_get_outbox_detail. honest_walk.
  - unfold get_inbox_detail, repo_get_inbox_detail. honest_walk.
Qed.

(** * Which exceptions leave the transactions

    Which exceptions leave the redrive transactions: none but those the console has a
    response for. *)

Definition is_Ok {A} (r : res A) : Prop := ∃ a, r = Ok a.

(** A failure that has its own response. *)
Definition presentable (e : exn) : Prop :=
  match e with
  | ForbiddenError _ | ProviderOperationsNotFoundError | ProviderOperationsPersistenceError => True
  | ProviderOperationsConflictError code => code ∈ conflict_messages.*1
  | _ => False
  end.

(** What may leave a transaction: a database error, or one of those. *)
Definition redrive_error (e : tx_error) : Prop :=
  match e with DbError _ => True | Raised x => presentable x end.

(** A caller and a request as the API layer hands them on. *)
Definition valid_caller (s : AccessScope) : Prop := AccessScope_validate s = Ok s.
Definition valid_request (r : ProviderRedriveRequest) : Prop := ProviderRedriveRequest_validate r = Ok r.

Lemma valid_caller_facts s :
  valid_caller s → (∃ actor, identity s = Ok actor) ∧ has_ink (sc_tenant_id s) = true.
Proof.
  unfold valid_caller, AccessScope_validate. cbv zeta. intros H. inv_ok. rewrite H in *.
  assert (validate_identity_part (sc_tenant_id s) "tenant_id" = Ok tt) as Ht by (by destruct x1).
  assert (validate_identity_part (sc_user_id s) "user_id" = Ok tt) as Hu by (by destruct x0).
  split.
  - eexists. by apply encode_identity_key_ok.
  - unfold validate_identity_part in Ht. rewrite nonempty_strip in Ht.
    by destruct (has_ink (sc_tenant_id s)).
Qed.

Lemma valid_request_ok r : valid_request r → request_id_ok (rq_request_id r) = true.
Proof.
  unfold valid_request, ProviderRedriveRequest_validate. cbv zeta. intros H. inv_ok. rewrite H in *. by bools.
Qed.

(** The customer of a stored command. *)
Lemma stored_customer d k m :
  outbox_ok d → outbox_messages d !! k = Some m → has_ink (om_customer_id m) = true.
Proof.
  intros Hd Hm. pose proof (ob_envelope d Hd k m Hm) as He.
  change (ProviderCommandEnvelope_validate (envelope_of m) = Ok (envelope_of m)) in He.
  unfold ProviderCommandEnvelope_validate in He. cbn in He.
  apply res_bind_ok in He as (p & _ & He). apply res_bind_ok in He as (u & Hu & _).
  apply raise_if_ok in Hu. rewrite <- nonempty_strip. by bools.
Qed.

(** * What construction accepts *)

(** A request id has no blanks to strip. *)
Lemma is_request_char_space c : is_request_char c = true → is_space c = false.
Proof. by destruct c as [[] [] [] [] [] [] [] []]. Qed.

Lemma up_to_rstrip n s : up_to n is_request_char s = true → rstrip s = s.
Proof.
  revert n. induction s as [|c s IH]; intros n H; [done|]. destruct n as [|n]; [done|]. cbn in H.
  apply andb_true_iff in H as [Hc H]. rewrite rstrip_cons by by apply is_request_char_space.
  by rewrite (IH n).
Qed.

Lemma request_id_strip s : request_id_ok s = true → strip s = s.
Proof.
  unfold request_id_ok, matches. destruct s as [|c s]; [done|]. intros [Hc Hs]%andb_true_iff.
  assert (is_space c = false) as Hsp.
  { apply is_request_char_space. unfold is_request_char. by rewrite Hc. }
  unfold strip. cbn [lstrip]. rewrite Hsp, rstrip_cons by done. by rewrite (up_to_rstrip _ _ Hs).
Qed.

Lemma view_valid request reason actor previous new created :
  match request with Some q => request_id_ok q = true | None => True end →
  has_ink actor = true → 1 ≤ previous → new = previous + 1 →
  ProviderRedriveView_validate (mkProviderRedriveView request reason actor previous new created)
    = Ok (mkProviderRedriveView request reason (strip actor) previous new created).
Proof.
  intros Hq Ha Hp ->. unfold ProviderRedriveView_validate. cbv zeta. cbn. rewrite nonempty_strip, Ha.
  assert (match strip <$> request with Some s => request_id_ok s | None => true end = true) as ->.
  { destruct request as [q|]; [|done]. cbn. by rewrite request_id_strip. }
  assert (strip <$> request = request) as ->.
  { destruct request as [q|]; [|done]. cbn. by rewrite request_id_strip. }
  unfold validate_cycle. cbn. rewrite Z.eqb_refl.
  replace (1 <=? previous) with true by lia. by replace (2 <=? previous + 1) with true by lia.
Qed.

Lemma redrive_view_ok {A} `{RedriveRow A} cycles (rows : gmap uuid A) i r :
  audit_ok cycles rows → rows !! i = Some r →
  redrive_view r = Ok (mkProviderRedriveView (safe_request_id (redrive_request r)) (redrive_reason_code r)
    (strip (redrive_requested_by r)) (redrive_previous_cycle r) (redrive_new_cycle r) (redrive_created_at r)).
Proof.
  intros Hok Hr. destruct (au_opened _ _ Hok i r Hr) as (Hp & Hn & _). pose proof (au_actor _ _ Hok i r Hr) as Ha.
  apply view_valid; [|done..]. unfold safe_request_id. by destruct (request_id_ok _) eqn:E.
Qed.

Lemma validate_replay_error {A} `{RedriveRow A} cycles (rows : gmap uuid A) tenant q r target request e :
  audit_ok cycles rows → audit_for_request tenant q rows = Some r →
  validate_replay r target request = Err e → presentable e.
Proof.
  intros Hok [[i Hr] _]%audit_for_request_Some. unfold validate_replay.
  rewrite (redrive_view_ok _ _ _ _ Hok Hr). destruct (_ || _); cbn; [|done]. intros [= <-].
  cbn. set_solver.
Qed.

Section Events.
Context (s : AccessScope) (Hs : valid_caller s) (request : ProviderRedriveRequest)
  (customer actor : string) (Hc : has_ink customer = true) (Ha : has_ink actor = true).

Lemma case_event_valid i key case_id command_id now :
  has_ink key = true →
  is_Ok (SupportCaseEvent_validate
    (mkSupportCaseEvent i key case_id ev_provider_redrive None None None [] [] "" None None None None None
       None None (Some command_id) None None (Some (rq_reason_code request)) (Some actor) customer
       (sc_tenant_id s) now)).
Proof using Hs Hc Ha.
  intros Hk. destruct (valid_caller_facts s Hs) as [_ Ht]. eexists. apply SupportCaseEvent_validate_ok.
  split; [reflexivity|]. unfold SupportCaseEvent_fields_ok, validate_event_fields, no_actor, has_status_fields. cbn.
  rewrite !nonempty_strip, Hk, Hc, Ht, Ha. done.
Qed.

Lemma operation_event_valid i key operation_id now :
  has_ink key = true →
  is_Ok (OrderOperationEvent_validate
    (mkOrderOperationEvent i key operation_id oe_status_changed (Some os_manual_review) (Some os_queued)
       None None actor customer (sc_tenant_id s) now)).
Proof using Hs Hc Ha.
  intros Hk. destruct (valid_caller_facts s Hs) as [_ Ht]. eexists. apply OrderOperationEvent_validate_ok.
  split; [reflexivity|]. unfold OrderOperationEvent_fields_ok, validate_event_shape. cbn.
  rewrite !nonempty_strip, Hk, Hc, Ht, Ha. done.
Qed.
End Events.

(** * The transactions *)

Lemma is_Ok_not_Err {A} (r : res A) e (P : Prop) : is_Ok r → r = Err e → P.
Proof. by intros [a ->]. Qed.

Lemma conflict_presentable code : code ∈ conflict_messages.*1 → redrive_error (Raised (conflict code)).
Proof. done. Qed.

(** The reasons of the policy have their messages. *)
Lemma eligibility_presentable c : c ≠ ELIGIBLE → eligibility_value c ∈ conflict_messages.*1.
Proof. destruct c; [done|..]; intros _; cbn; set_solver. Qed.

(** Close what [abort_walk] leaves: conflicts with a message, database errors, and the
    constructions that cannot fail. *)
Ltac own_error :=
  repeat match goal with Ha : identity ?s = Ok ?a, H : identity ?s = Ok ?b |- _ =>
    assert (b = a) by congruence; subst b; clear H end;
  solve [ done | congruence | apply conflict_presentable; cbn; set_solver
        | eapply is_Ok_not_Err; [|eassumption];
          first [by apply case_event_valid | by apply operation_event_valid] ].

Section Abort.
Context (s : AccessScope) (Hs : valid_caller s) (request : ProviderRedriveRequest) (Hq : valid_request request).

Lemma recover_aggregate_aborts I m rid now :
  has_ink (om_customer_id m) = true →
  aborts_with redrive_error I (recover_aggregate s m request rid now).
Proof using Hs Hq.
  intros Hc. destruct (valid_caller_facts s Hs) as [(actor & Ha) _]. pose proof (identity_ink s actor Ha) as Hi.
  unfold recover_aggregate, recover_operation, audit_support_case, requeue_operation, insert_case_redrive_event.
  abort_walk; own_error.
Qed.

(** The answer to a fresh redrive. *)
Lemma recorded_view_valid actor previous now :
  has_ink actor = true → 1 ≤ previous → is_Ok (recorded_view request actor previous now).
Proof using Hq.
  intros Ha Hp. eexists. apply view_valid; [|done..].
  by apply valid_request_ok.
Qed.

Lemma redrive_outbox_aborts stale k :
  aborts_with redrive_error outbox_ok (redrive_outbox_tx stale s k request).
Proof using Hs Hq.
  destruct (valid_caller_facts s Hs) as [(actor & Ha) _]. pose proof (identity_ink s actor Ha) as Hi.
  unfold redrive_outbox_tx. apply aborts_bind_select. intros d Hd.
  destruct (outbox_row_of (sc_tenant_id s) k d) as [m|] eqn:Hm; [|by apply aborts_raise].
  apply outbox_row_of_Some in Hm as [Hm _]. pose proof (stored_customer d k m Hd Hm) as Hc.
  assert (1 ≤ om_delivery_cycle m) as Hcy.
  { pose proof (so_outbox_check d (ob_schema d Hd) k m Hm) as Hck. unfold outbox_messages_check, int4_ok in Hck.
    bools. lia. }
  apply aborts_bind_select. intros d2 Hd2. destruct (audit_seen _ _ _ _ _) as [r|] eqn:Hr.
  { apply audit_seen_Some in Hr. apply aborts_lift. intros e. eapply validate_replay_error, Hr. apply Hd2. }
  apply aborts_bind_select. intros d3 _. apply aborts_bind_lift.
  { intros e He. destruct (decide_outbox_redrive (outbox_redrive_state m
      (terminal_attempt (sc_tenant_id s) k (om_delivery_cycle m) d3)) MAX_ATTEMPTS) as (x & Hx & _);
      [unfold MAX_ATTEMPTS; lia|congruence]. }
  intros r Hdec. apply outbox_redrive_result in Hdec. apply aborts_bind_raise_if.
  - intros Hno. apply conflict_presentable, eligibility_presentable. intros E. rewrite Hdec, E in Hno. done.
  - intros _. unfold update_outbox. abort_walk; first [by apply recover_aggregate_aborts | try own_error].
    eapply is_Ok_not_Err; [|eassumption]. apply recorded_view_valid; [by eapply identity_ink|done].
Qed.

Lemma redrive_inbox_aborts stale k :
  aborts_with redrive_error (λ d, inbox_ok (inbox d)) (redrive_inbox_tx stale s k request).
Proof using Hs Hq.
  destruct (valid_caller_facts s Hs) as [(actor & Ha) _].
  unfold redrive_inbox_tx. apply aborts_bind_select. intros d Hd.
  destruct (inbox_row_of (sc_tenant_id s) k d) as [m|] eqn:Hm; [|by apply aborts_raise].
  apply inbox_row_of_Some in Hm as [Hm _].
  assert (1 ≤ im_processing_cycle m) as Hcy.
  { pose proof (ib_check _ Hd k m Hm) as Hck. unfold inbox_messages_check, int4_ok in Hck. bools. lia. }
  apply aborts_bind_select. intros d2 Hd2. destruct (audit_seen _ _ _ _ _) as [r|] eqn:Hr.
  { apply audit_seen_Some in Hr. apply aborts_lift. intros e. eapply validate_replay_error, Hr. apply Hd2. }
  destruct (inbox_redrive_policy (mkInboxRedriveState (im_status m) (bool_decide (is_Some (im_lease_id m)))))
    as (x & Hx & _ & Hel).
  apply aborts_bind_lift; [congruence|]. intros r Hdec. rewrite Hx in Hdec. injection Hdec as <-.
  apply aborts_bind_raise_if.
  - intros Hno. apply conflict_presentable, eligibility_presentable. intros E.
    apply Hel in E. by rewrite E in Hno.
  - intros _. unfold update_inbox. abort_walk; try own_error.
    eapply is_Ok_not_Err; [|eassumption]. apply recorded_view_valid; [by eapply identity_ink|done].
Qed.
End Abort.
