(* ===== verification/TurnSafety.v ===== *)
(** What a turn of the conversation can do to the database: rules for the nodes of the graph,
    and each service call a node makes. *)
From S2P Require Import Prelude Effects Auth OperationModels CaseModels CasePolicy Conversation Database Transactions CaseRepository Refunds CaseService CaseSafety HandoffTheorems CaseGuarantees OperationRepository OperationService OperationSafety OperationTheorems OperationGuarantees Finalization ProviderFailure Nodes OutboxSafety FinalizationSafety Steady RefundSafety ProviderFailureSafety SystemSafety.

(** * What a turn may commit *)

(** The customer said yes: to the order operation, to the refund. *)
Definition consented (ctx : TurnContext) : Prop := tn_replies ctx q_operation = Some (ReplyBool true).
Definition approved_refund (ctx : TurnContext) : Prop := tn_replies ctx q_refund = Some (ReplyBool true).

(** Operations wait, are withdrawn by the customer, or keep the status they have; no command
    is queued. *)
Definition only_withdrawn (d d' : database) : Prop :=
  outbox_messages d' = outbox_messages d ∧
  ∀ i o', order_operations d' !! i = Some o' →
    oo_status o' = os_pending_confirmation ∨ oo_status o' = os_cancelled_by_customer ∨
    ∃ o, order_operations d !! i = Some o ∧ oo_status o' = oo_status o.

(** Operations and refunds that change are the caller's. *)
Definition only_own (s : AccessScope) (d d' : database) : Prop :=
  (∀ i o, order_operations d' !! i = Some o → order_operations d !! i = Some o ∨ owns s o) ∧
  (∀ i r, refund_requests d' !! i = Some r → refund_requests d !! i = Some r ∨
     rfq_tenant_id r = sc_tenant_id s ∧ customer_id s = Some (rfq_customer_id r)).

Record turn_commit (ctx : TurnContext) (d d' : database) : Prop := {
  tc_steady : steady d d';
  tc_provider : provider_submissions d' = provider_submissions d ∧ provider_deliveries d' = provider_deliveries d;
  tc_own : ∀ s, require_scope (tn_user ctx) = Ok s → only_own s d d';
  tc_operations : consented ctx ∨ only_withdrawn d d';
  tc_refunds : approved_refund ctx ∨ refund_requests d' = refund_requests d;
}.

Lemma only_own_same s d d' :
  order_operations d' = order_operations d → refund_requests d' = refund_requests d → only_own s d d'.
Proof. intros E1 E2. unfold only_own. rewrite E1, E2. auto. Qed.

Lemma only_withdrawn_same d d' :
  outbox_messages d' = outbox_messages d → order_operations d' = order_operations d → only_withdrawn d d'.
Proof. intros E1 E2. split; [done|]. rewrite E2. eauto 6. Qed.

(** * Refunds *)

Definition same_refunds (d d' : database) : Prop := refund_requests d' = refund_requests d.

#[export] Instance same_refunds_preorder : PreOrder same_refunds.
Proof. split; unfold same_refunds; [done|congruence]. Qed.

(** Statements on other tables. *)
#[export] Hint Extern 2 (tx_within same_refunds (execute _)) =>
  apply within_execute; intros ?d ?d' ?H; unfold same_refunds;
  unfold insert_support_case, put_support_case, insert_case_event, put_order_operation in *;
  inv_pg; reflexivity : within.
#[export] Hint Extern 2 (tx_within same_refunds (execute (insert_operation_events _))) =>
  apply within_execute; intros ?d ?d' ->%insert_operation_events_effect; reflexivity : within.

Lemma move_once_refunds s i q now : tx_within same_refunds (move_once_tx s i q now).
Proof.
  unfold move_once_tx, escalate_review_case, update_case_reasons, update_operation_where. tx_walk.
Qed.

Lemma only_move_attempts_refunds s i q n : only_commits same_refunds (move_attempts s i q n).
Proof.
  induction n as [|n IH]; cbn [move_attempts]; [apply only_raise|]. apply only_try.
  - unfold move_once. call_walk. apply only_tx, move_once_refunds.
  - intros e. destruct e; try done. destruct (_ || _); [apply only_raise|exact IH].
Qed.

Definition refund_written (s : AccessScope) (d d' : database) : Prop :=
  ∃ m, d' = set_refund_requests m d ∧
    ∀ i r, m !! i = Some r → refund_requests d !! i = Some r ∨
      rfq_tenant_id r = sc_tenant_id s ∧ customer_id s = Some (rfq_customer_id r).

Lemma insert_refund_written s r d b d' :
  rfq_tenant_id r = sc_tenant_id s → customer_id s = Some (rfq_customer_id r) →
  insert_refund r d = PgOk (b, d') → refund_written s d d'.
Proof.
  intros Ht Hc. unfold insert_refund. intros (u & _ & H)%pg_bind_ok.
  assert (refund_written s d d) as Hsame by (exists (refund_requests d); split; [by destruct d|by left]).
  repeat case_match; simplify_eq; try done.
  eexists. split; [done|]. intros i x. rewrite lookup_insert. case_decide; [|by left]. intros [= <-]. by right.
Qed.

Lemma only_create_refund s order_id : only_commits (refund_written s) (create_refund s order_id).
Proof.
  unfold create_refund, repo_create_refund. destruct (customer_id s) as [owner|] eqn:Hown; [|apply only_raise].
  call_walk. match goal with H : raise_if _ _ = Ok _ |- _ => apply raise_if_ok in H end. bools.
  repeat match goal with H : ¬ (_ ≠ _) |- _ => apply dec_stable in H end.
  apply only_transact. intros d c d' Hf. destruct (insert_refund _ d) as [[c' d1]|e] eqn:E; [|done].
  injection Hf as -> ->. eapply insert_refund_written; [| |exact E]; congruence.
Qed.

(** * Rules *)

Section Turn.
Context (amb : Ambient database) (Hamb : steady_world amb) (ctx : TurnContext).

(** The commits of [m] are those of a turn, and what it returns satisfies [P]. *)
Definition turns {A} (m : M database A) (P : A → Prop) : Prop :=
  runs amb system_ok m (λ r cs, Forall (λ c, turn_commit ctx c.1 c.2) cs ∧ ∀ a, r = Ok a → P a).

Lemma turns_ret {A} (a : A) (P : A → Prop) : P a → turns (ret a) P.
Proof. intros Ha. apply runs_ret. split; [done|]. by intros b [= <-]. Qed.
Lemma turns_raise {A} e (P : A → Prop) : turns (raise e) P.
Proof. by apply runs_raise. Qed.
Lemma turns_lift {A} (x : res A) : turns (lift x) (λ a, x = Ok a).
Proof. by apply runs_lift. Qed.
Lemma turns_now : turns now (λ _, True).
Proof. by apply runs_now. Qed.
Lemma turns_weaken {A} (m : M database A) (P P' : A → Prop) :
  (∀ a, P a → P' a) → turns m P → turns m P'.
Proof. intros HP Hm. eapply runs_weaken; [exact Hm|]. intros r cs [? ?]. auto. Qed.
Lemma turns_bind {A B} (m : M database A) (f : A → M database B) P P' :
  turns m P → (∀ a, P a → turns (f a) P') → turns (bind m f) P'.
Proof.
  intros Hm Hf. eapply runs_bind; [exact Hm|..].
  - intros a cs [Hc Ha]. eapply runs_weaken; [by apply Hf, Ha|]. intros r cs' [? ?]. split; [by apply Forall_app|done].
  - by intros e cs [? _].
Qed.
Lemma turns_lift_bind {A B} (x : res A) (f : A → M database B) P :
  (∀ a, x = Ok a → turns (f a) P) → turns (bind (lift x) f) P.
Proof. apply turns_bind, turns_lift. Qed.
Lemma turns_try {A} (m : M database A) h P :
  turns m P → (∀ e k, h e = Some k → turns k P) → turns (try_except m h) P.
Proof.
  intros Hm Hh. eapply runs_try_except; [exact Hm|done|]. intros e cs [Hc _].
  destruct (h e) as [k|] eqn:E; [|done]. eapply runs_weaken; [by eapply Hh|].
  intros r cs' [? ?]. split; [by apply Forall_app|done].
Qed.

(** A service call, from its own theorem. *)
Lemma turns_call {A} I (m : M database A) Q R :
  (∀ d, system_ok d → I d) → runs amb I m Q → only_commits R m →
  (∀ r cs, Q r cs → Forall (λ c, R c.1 c.2) cs → Forall (λ c, turn_commit ctx c.1 c.2) cs) →
  turns m (λ _, True).
Proof using Hamb.
  intros HI Hm HR HQ. eapply runs_weaken; [eapply (runs_of_commits amb I m Q R); try done|].
  - intros r cs Hq Hc. eapply Forall_impl; [by eapply HQ|]. by intros c [? _ _ _].
  - intros r cs [Hq Hc]. split; [by eapply HQ|done].
Qed.

(** A call known only by its commits. *)
Lemma turns_only {A} (R : relation database) (m : M database A) :
  (∀ d d', R d d' → turn_commit ctx d d') → only_commits R m → turns m (λ _, True).
Proof using Hamb.
  intros HR Hm w r w' Hw Hr.
  destruct (Hm amb system_ok w r w' (rely_system amb Hamb) Hr) as (cs & Hl & HF & HJ).
  assert (Forall (λ c, turn_commit ctx c.1 c.2) cs) as Hc by (eapply Forall_impl; [exact HF|]; intros c; apply HR).
  split; [|by exists cs]. apply HJ; [|done]. eapply Forall_impl; [exact Hc|].
  intros [d d'] [Hst _ _ _ _] Hd. by eapply system_ok_steady.
Qed.

(** * Commits on cases and operations *)

Lemma case_turn s old c e d d' :
  case_committed s old c e d d' → enqueues_only d d' →
  consented ctx ∨ outbox_messages d' = outbox_messages d → turn_commit ctx d d'.
Proof.
  intros Hc He Ho. pose proof (cc_operations _ _ _ _ _ _ Hc) as [E1 _]. split.
  - by eapply case_commit_steady.
  - split; apply He.
  - intros x _. by apply only_own_same, He.
  - destruct Ho as [?|Ho]; [by left|right]. by apply only_withdrawn_same.
  - right. apply He.
Qed.

Lemma operation_turn s old o es d d' :
  require_scope (tn_user ctx) = Ok s → op_committed s old o es d d' → enqueues_only d d' →
  consented ctx ∨ outbox_messages d' = outbox_messages d ∧
    (oo_status o = os_pending_confirmation ∨ oo_status o = os_cancelled_by_customer ∨
     ∃ x, old = Some x ∧ oo_status o = oo_status x) →
  turn_commit ctx d d'.
Proof.
  intros Hs Hc He Ho. split.
  - by eapply operation_commit_steady.
  - split; apply He.
  - intros s' Hs'. rewrite Hs in Hs'. injection Hs' as <-. split.
    + intros i x. rewrite (oc_rows _ _ _ _ _ _ Hc), lookup_insert. case_decide; [|by left].
      intros [= <-]. right. apply Hc.
    + rewrite (eo_refunds _ _ He). by left.
  - destruct Ho as [?|[Hm Ho]]; [by left|right]. split; [done|].
    intros i x. rewrite (oc_rows _ _ _ _ _ _ Hc), lookup_insert. case_decide as E; [|by eauto 6].
    intros [= <-]. destruct Ho as [?|[?|(y & -> & ?)]]; [by left|by right; left|right; right].
    exists y. rewrite <- E. split; [apply Hc|done].
  - right. apply He.
Qed.

Lemma away_outbox d d' : away_from_provider d d' → outbox_messages d' = outbox_messages d.
Proof. by intros ((E & _) & _). Qed.

(** * The calls of the nodes *)

Lemma only_record_handoff n s t d : only_commits away_from_provider (record_handoff n s t d).
Proof using.
  unfold record_handoff, handoff_conflict, append_trigger, create_case, find_by_source_message,
    find_unresolved_case, service_result, assert_some, returning. call_walk.
Qed.

Definition one_case_commit (s : AccessScope) : list (database * database) → Prop :=
  at_most_one (λ d d', ∃ old c e, case_committed s old c e d d').

Lemma case_commit_turn s (R : relation database) cs :
  (∀ d d', R d d' → enqueues_only d d' ∧ (consented ctx ∨ outbox_messages d' = outbox_messages d)) →
  one_case_commit s cs → Forall (λ c, R c.1 c.2) cs → Forall (λ c, turn_commit ctx c.1 c.2) cs.
Proof.
  intros HR [->|(d & d' & -> & old & c & e & Hc)]; [done|]. rewrite !Forall_singleton. intros H.
  destruct (HR _ _ H) as [He Ho]. by eapply case_turn.
Qed.

Lemma turns_record_handoff n s t d : turns (record_handoff n s t d) (λ _, True).
Proof using Hamb.
  eapply (turns_call case_db_ok _ (λ _, one_case_commit s) away_from_provider); [by intros ? []| | |].
  - apply (case_call_commits amb n None s (CallHandoff t d)); [by apply steady_world_cases|eauto].
  - apply only_record_handoff.
  - intros _ cs. apply case_commit_turn. intros x y H. split; [by apply enqueues_only_same|right; by apply away_outbox].
Qed.

Lemma turns_record_delivery n s t d issue conn :
  consented ctx → turns (record_delivery_investigation n s t d issue conn) (λ _, True).
Proof using Hamb.
  intros Hyes.
  eapply (turns_call case_db_ok _ (λ _, one_case_commit s) enqueues_only); [by intros ? []| | |].
  - apply (case_call_commits amb n None s (CallInvestigation t d issue conn)); [by apply steady_world_cases|eauto].
  - apply (only_case_call n None s (CallInvestigation t d issue conn)).
  - intros _ cs. apply case_commit_turn. auto.
Qed.

Lemma only_operation_away n s call :
  (∀ i r, call ≠ CallSubmit i r) → (∀ i r c, call ≠ CallQueue i r c) →
  ∀ provider, only_commits away_from_provider (run_operation_call n provider s call).
Proof using.
  intros H1 H2 provider. destruct call as [request snapshot decision excerpt|i r|i r|i r|i r c|i t r a f|i c r];
    try (exfalso; by eapply H1); try (exfalso; by eapply H2);
    cbn [run_operation_call]; unfold create_pending_operation, confirm_operation,
    cancel_pending_operation, change_from_pending, update_operation_status, attach_support_case, once_per_key,
    try_update, write_conflict, prior_result, existing_for_request, creation_conflict, build_pending_operation,
    build_status_update, unchanged_result, get_operation, find_operation_event_by_idempotency_key,
    repo_get_operation, find_operation_by_source_message, find_active_by_order_id; call_walk.
Qed.

Section Caller.
Context (s : AccessScope) (Hs : require_scope (tn_user ctx) = Ok s).

(** At most one commit on an operation, and the status it leaves. *)
Definition one_operation_commit (P : option OrderOperation → OrderOperation → Prop) :
    list (database * database) → Prop :=
  at_most_one (λ d d', ∃ old o es, op_committed s old o es d d' ∧ P old o).

Lemma op_audited_one (step : op_step) action r cs (P : option OrderOperation → OrderOperation → Prop) :
  (∀ old new es, step old new es → P (Some old) new) →
  op_audited s step action r cs → one_operation_commit P cs.
Proof using.
  intros HP. unfold one_operation_commit, at_most_one, op_audited, op_stepped. destruct r as [x|e].
  - intros [(old & new & es & d & d' & -> & _ & Hc & Hst)|[-> _]]; [right|by left]. eauto 10.
  - intros [->|(_ & old & new & es & d & d' & -> & Hc & Hst)]; [by left|right]. eauto 10.
Qed.

(** Statuses that need no consent. *)
Definition calm (old : option OrderOperation) (o : OrderOperation) : Prop :=
  oo_status o = os_pending_confirmation ∨ oo_status o = os_cancelled_by_customer ∨
  ∃ x, old = Some x ∧ oo_status o = oo_status x.

Lemma operation_commit_turn P (R : relation database) cs :
  (∀ d d', R d d' → enqueues_only d d') →
  (consented ctx ∨ (∀ d d', R d d' → outbox_messages d' = outbox_messages d) ∧ ∀ old o, P old o → calm old o) →
  one_operation_commit P cs → Forall (λ c, R c.1 c.2) cs → Forall (λ c, turn_commit ctx c.1 c.2) cs.
Proof using Hs.
  intros HR HP [->|(d & d' & -> & old & o & es & Hc & Ho)]; [done|]. rewrite !Forall_singleton. intros H.
  eapply operation_turn; [done..|by apply HR|]. destruct HP as [?|[H1 H2]]; [by left|right].
  split; [by apply H1|by apply H2].
Qed.

(** A call whose commits leave the outbox alone. *)
Lemma turns_operation_call {A} (m : M database A) Q P :
  runs amb op_db_ok m Q → only_commits away_from_provider m →
  (∀ r cs, Q r cs → one_operation_commit P cs) → (consented ctx ∨ ∀ old o, P old o → calm old o) →
  turns m (λ _, True).
Proof using Hamb Hs.
  intros Hm Hr HQ HP. eapply (turns_call op_db_ok m Q away_from_provider); [by intros ? []|done..|].
  intros r cs Hc. eapply operation_commit_turn; [apply enqueues_only_same| |by eapply HQ].
  destruct HP as [?|HP]; [by left|right]. split; [apply away_outbox|exact HP].
Qed.

Lemma turns_create_operation n request snapshot decision excerpt :
  turns (create_pending_operation n s request snapshot decision excerpt) (λ _, True).
Proof using Hamb Hs.
  eapply (turns_operation_call _ _ (λ _ o, oo_status o = os_pending_confirmation)).
  - apply create_pending_operation_runs, steady_world_operations, Hamb.
  - by apply (only_operation_away n s (CallCreate request snapshot decision excerpt)) with (provider := demo_provider).
  - intros [x|e] cs; cbn; unfold one_operation_commit, at_most_one.
    + intros [(o & es & d & d' & -> & _ & Hc & Ho)|[-> _]]; [right|by left].
      exists d, d'. split; [done|]. exists None, o, es. split; [done|apply Ho].
    + intros [->|(_ & o & es & d & d' & -> & Hc & Ho)]; [by left|right].
      exists d, d'. split; [done|]. exists None, o, es. split; [done|apply Ho].
  - right. unfold calm. auto.
Qed.

Lemma turns_confirm_operation n i request :
  consented ctx → turns (confirm_operation n s i request) (λ _, True).
Proof using Hamb Hs.
  intros Hyes. eapply (turns_operation_call _ _ (λ _ _, True)).
  - apply confirm_operation_runs, steady_world_operations, Hamb.
  - by apply (only_operation_away n s (CallConfirm i request)) with (provider := demo_provider).
  - intros r cs. by apply op_audited_one.
  - by left.
Qed.

Lemma turns_cancel_operation n i request : turns (cancel_pending_operation n s i request) (λ _, True).
Proof using Hamb Hs.
  eapply (turns_operation_call _ _ (λ _ o, oo_status o = os_cancelled_by_customer)).
  - apply cancel_pending_operation_runs, steady_world_operations, Hamb.
  - by apply (only_operation_away n s (CallCancel i request)) with (provider := demo_provider).
  - intros r cs. apply op_audited_one. intros old new es [_ [_ [_ (reference & ->)] _ _ _]]. done.
  - right. unfold calm. auto.
Qed.

Lemma turns_attach_case n i case_id request : turns (attach_support_case n s i case_id request) (λ _, True).
Proof using Hamb Hs.
  eapply (turns_operation_call _ _ calm).
  - apply attach_support_case_runs, steady_world_operations, Hamb.
  - by apply (only_operation_away n s (CallAttach i case_id request)) with (provider := demo_provider).
  - intros r cs. apply op_audited_one. intros old new es (_ & _ & _ & _ & -> & _). right; right. by exists old.
  - by right.
Qed.

Lemma turns_queue_operation i request conn :
  consented ctx → turns (queue_confirmed_operation s i request conn) (λ _, True).
Proof using Hamb Hs.
  intros Hyes.
  eapply (turns_call op_db_ok _ (λ _, one_operation_commit (λ _ _, True)) enqueues_only); [by intros ? []| | |].
  - eapply runs_weaken; [apply queue_confirmed_operation_runs, steady_world_operations, Hamb|].
    intros [x|e] cs; cbn; unfold one_operation_commit, at_most_one.
    + intros [(old & new & es & d & d' & -> & _ & Hc & _)|[-> _]]; [right|by left]. eauto 10.
    + intros [->|(_ & old & new & es & d & d' & -> & Hc & _)]; [by left|right]. eauto 10.
  - unfold queue_confirmed_operation, build_status_update, get_operation, repo_get_operation.
    call_walk. eapply only_queue_operation, for_order_operation_normal; eassumption.
  - intros _ cs. apply operation_commit_turn; auto.
Qed.

(** The fallback for a provider that is not configured. *)
Lemma turns_fallback coordinated i request :
  consented ctx → turns (move_to_provider_manual_review coordinated s i request) (λ _, True).
Proof using Hamb Hs.
  intros Hyes.
  eapply (turns_call system_ok _ (fallback_ending s i (strip request)) same_refunds); [done|..].
  - by apply move_to_manual_review_runs.
  - unfold move_to_provider_manual_review, move_to_manual_review. call_walk. apply only_move_attempts_refunds.
  - assert (∀ r d d', fallback_step s i (strip request) r d d' → same_refunds d d' → turn_commit ctx d d') as Hstep.
    { intros r d d' (_ & Hst & [[-> _]|[Hrec _]]) Hrf; unfold same_refunds in Hrf.
      - split; [done|done|intros; by apply only_own_same|by left|by right].
      - destruct Hrec as [(row & t & es & Hrow & Hid & Hown & _ & Ho & _) Hm _ Hsub].
        split; [done|split; [done|apply Hm]| |by left|by right].
        intros x Hx. rewrite Hs in Hx. injection Hx as <-. split; [|rewrite Hrf; by left].
        intros k o. rewrite Ho, lookup_insert. case_decide; [|by left]. intros [= <-]. by right. }
    intros [r|e] cs.
    + intros (d & d' & -> & Hf). rewrite !Forall_singleton. by eapply Hstep.
    + intros [->|(_ & r & d & d' & -> & Hf)]; [done|]. rewrite !Forall_singleton. by eapply Hstep.
Qed.

Lemma turns_create_refund order_id : approved_refund ctx → turns (create_refund s order_id) (λ _, True).
Proof using Hamb Hs.
  intros Hyes. eapply (turns_only (refund_written s)).
  - intros d d' (m & -> & Hm). split; [apply refund_steady|done| |right; by apply only_withdrawn_same|by left].
    intros x Hx. rewrite Hs in Hx. injection Hx as <-. split; [by left|exact Hm].
  - apply only_create_refund.
Qed.
End Caller.

(** Reads. *)
Lemma turns_reads {A} (m : M database A) : only_commits (turn_commit ctx) m → turns m (λ _, True).
Proof using Hamb. by apply turns_only. Qed.
End Turn.
