(* ===== verification/TurnNodes.v ===== *)
(** What each node may commit, under what the graph guarantees when it reaches the node: the
    nodes that act on an order are reached only after the customer's yes, and no reason for a
    delivery investigation survives without one. *)
From S2P Require Import Prelude Effects Auth OperationModels OperationPolicy CaseModels CasePolicy Conversation Database CaseRepository Refunds CaseService OperationRepository OperationService ProviderFailure Nodes GraphSteps Steady SystemSafety TurnSafety.

(** * What holds at a node *)

(** No operation has been looked at in this turn. *)
Definition fresh (s : RefundState) : Prop :=
  turn_operation_id (operation_facts s) = None ∧ domain_case_reason_codes (operation_facts s) = [].

(** No reason from an operation or delivery decision is left for the case, unless agreed. *)
Definition settled (ctx : TurnContext) (s : RefundState) : Prop :=
  consented ctx ∨ domain_case_reason_codes (operation_facts s) = [].

Definition guarded (ctx : TurnContext) (n : node) (s : RefundState) : Prop :=
  match n with
  | check_risk_rules_n | cancel_delivery_investigation_n => True
  | submit_confirmed_operation_n | confirm_manual_operation_n | confirm_delivery_investigation_n => consented ctx
  | operation_confirmation_n =>
      turn_operation_id (operation_facts s) = None ∨ domain_case_reason_codes (operation_facts s) = []
  | cancel_operation_n | finalize_case_handoff_n | attach_operation_case_n => settled ctx s
  | proceed_n => approved_refund ctx ∧ fresh s
  | _ => fresh s
  end.

Lemma fresh_settled ctx s : fresh s → settled ctx s.
Proof. intros [_ H]. by right. Qed.
Lemma fresh_kept s s' : operation_facts s' = operation_facts s → fresh s → fresh s'.
Proof. unfold fresh. by intros ->. Qed.
Lemma settled_kept ctx s s' :
  domain_case_reason_codes (operation_facts s') = domain_case_reason_codes (operation_facts s) →
  settled ctx s → settled ctx s'.
Proof. unfold settled. by intros ->. Qed.

Create HintDb turns discriminated.
#[export] Hint Resolve fresh_settled turns_ret turns_raise turns_now : turns.

Lemma turns_today amb ctx : turns amb ctx (today ctx) (λ _, True).
Proof. unfold today. eapply turns_bind; [apply turns_now|]. intros t _. by apply turns_ret. Qed.

(** Walk down a node to its calls and its answers. *)
Ltac turn_walk :=
  repeat first
    [ progress intros
    | progress cbv zeta
    | match goal with
      | |- turns _ _ (ret _) _ => apply turns_ret
      | |- turns _ _ (raise _) _ => apply turns_raise
      | |- turns _ _ (bind (lift _) _) _ => apply turns_lift_bind; intros
      | |- turns _ _ (bind now _) _ => eapply turns_bind; [apply turns_now|intros ? _]
      | |- turns _ _ (bind (today _) _) _ => eapply turns_bind; [apply turns_today|intros ? _]
      | |- turns _ _ (if ?b then _ else _) _ => destruct b eqn:?
      | |- turns _ _ (match ?x with _ => _ end) _ => destruct x eqn:?
      end ].

(** What a pure node leaves of the operation facts. *)
Ltac pure_node :=
  repeat first
    [ progress inv_ok
    | match goal with
      | H : structured _ _ _ = Ok _ |- _ => clear H
      | H : (match ?x with _ => _ end) = Ok _ |- _ => destruct x eqn:?
      | H : (if ?x then _ else _) = Ok _ |- _ => destruct x eqn:?
      end ]; repeat case_match; try done.

Section Pure.
Context (ctx : TurnContext).

Lemma classify_semantic_risk_facts s s' :
  classify_semantic_risk ctx s = Ok s' → operation_facts s' = operation_facts s.
Proof. unfold classify_semantic_risk. intros. pure_node. Qed.
Lemma llm_call_router_facts s s' : llm_call_router ctx s = Ok s' → fresh s'.
Proof. unfold llm_call_router. intros. pure_node. Qed.
Lemma classify_formal_complaint_facts s s' :
  classify_formal_complaint ctx s = Ok s' → operation_facts s' = operation_facts s.
Proof. unfold classify_formal_complaint. intros. pure_node. Qed.
Lemma confirm_human_handoff_facts s s' c :
  confirm_human_handoff ctx s = Ok (s', c) → operation_facts s' = operation_facts s.
Proof.
  unfold confirm_human_handoff. destruct (tn_replies ctx _) as [r|]; [|by intros [= <- _]].
  case_bool_decide; [by intros [= <- _]|]. case_bool_decide; [|done].
  intros (? & _ & [= <- _])%res_bind_ok. done.
Qed.
Lemma confirm_order_priority_facts s s' c :
  confirm_order_priority ctx s = Ok (s', c) → operation_facts s' = operation_facts s.
Proof.
  unfold confirm_order_priority. destruct (tn_replies ctx _) as [r|]; [|by intros [= <- _]].
  case_bool_decide; [by intros [= <- _]|]. case_bool_decide; [by intros [= <- _]|done].
Qed.
Lemma detect_order_facts s s' : detect_order ctx s = Ok s' → operation_facts s' = operation_facts s.
Proof. unfold detect_order. intros. pure_node. Qed.
Lemma order_response_facts s s' : order_response_node s = Ok s' → operation_facts s' = operation_facts s.
Proof. unfold order_response_node. intros. pure_node. Qed.
Lemma handle_complaint_facts s s' : handle_complaint ctx s = Ok s' → operation_facts s' = operation_facts s.
Proof. unfold handle_complaint. intros. pure_node. Qed.
Lemma handle_noncritical_risk_facts s s' :
  handle_noncritical_risk ctx s = Ok s' → operation_facts s' = operation_facts s.
Proof. unfold handle_noncritical_risk. intros. pure_node. Qed.
Lemma load_operation_snapshot_fresh s s' : load_operation_snapshot ctx s = Ok s' → fresh s → fresh s'.
Proof. unfold load_operation_snapshot. intros. pure_node. Qed.
Lemma extract_operation_request_fresh s s' : extract_operation_request ctx s = Ok s' → fresh s → fresh s'.
Proof. unfold extract_operation_request. intros. pure_node. Qed.

(** Without reasons of their own, decisions on deliveries cannot be what a case is about. *)
Lemma no_domain_no_investigation s i d :
  build_handoff_policy_input s = Ok i → determine_handoff_policy i = Ok d →
  domain_case_reason_codes (operation_facts s) = [] → hd_case_type d ≠ Some ct_delivery_investigation.
Proof.
  intros Hi Hd Hno. assert (hi_domain_case_reason_codes i = []) as Hdom.
  { unfold build_handoff_policy_input, HandoffPolicyInput_validate in Hi. rewrite Hno in Hi.
    cbn [handoff_reasons] in Hi. by inv_ok. }
  destruct (handoff_decision_facts i) as (d' & Hd' & _ & _ & _ & Hty).
  rewrite Hd in Hd'. injection Hd' as <-. destruct (hd_should_create_case d); [|by destruct Hty as [-> _]].
  destruct Hty as (ty & p & -> & _ & [(r & Hr & <-) _] & _). intros [= Hr'].
  destruct Hr as [(c & _ & ->)|[(l & f & c & _ & Hf & _ & ->)|[(x & _ & ->)|[[_ ->]|[[_ ->]|[[_ ->]|Hr]]]]]];
    try done.
  - by destruct c.
  - destruct l; try done; injection Hf as <-; by destruct c.
  - by destruct x.
  - rewrite Hdom in Hr. set_solver.
Qed.
End Pure.

(** * Nodes with effects *)

Section Effects.
Context (amb : Ambient database) (Hamb : steady_world amb) (ctx : TurnContext).
Abbreviation turns := (turns amb ctx).

Lemma turns_search_order s : fresh s → turns (search_order_node ctx s) fresh.
Proof using. intros Hs. unfold search_order_node. turn_walk; try exact Hs. Qed.

Lemma turns_check_refund s : fresh s → turns (check_refund_eligibility_node ctx s) fresh.
Proof using. intros Hs. unfold check_refund_eligibility_node. turn_walk. repeat case_match; exact Hs. Qed.

Lemma turns_create_refund_node s :
  approved_refund ctx → fresh s → turns (create_refund_node ctx s) (settled ctx).
Proof using Hamb.
  intros Hyes Hs. unfold create_refund_node. turn_walk; [|by apply fresh_settled].
  eapply turns_bind; [by apply turns_create_refund|]. intros created _. apply turns_ret. by apply fresh_settled.
Qed.

Lemma turns_list_cases s q : turns (service_list_cases s q) (λ _, True).
Proof using Hamb.
  apply turns_reads; [done|]. unfold service_list_cases, list_cases. call_walk.
Qed.

Lemma turns_support_case_status s : fresh s → turns (support_case_status_node ctx s) (settled ctx).
Proof using Hamb.
  intros Hs. unfold support_case_status_node. turn_walk; try (by apply fresh_settled).
  eapply turns_bind; [apply turns_list_cases|]. intros page _. apply turns_ret.
  destruct (pg_items page); by apply fresh_settled.
Qed.

(** ** Order operations *)

Lemma guarded_after_evaluation s :
  domain_case_reason_codes (operation_facts s) = [] ∨
  (turn_operation_id (operation_facts s) = None ∧
   (operation_outcome (operation_facts s) ≠ Some "manual_review" → domain_case_reason_codes (operation_facts s) = [])) →
  guarded ctx (after_evaluation s) s.
Proof using.
  intros H. unfold after_evaluation. destruct (_ || _) eqn:E; cbn; [tauto|]. right.
  destruct H as [H|[Hid H]]; [done|]. bools. rewrite Hid in *.
  destruct (decide (operation_outcome (operation_facts s) = Some "manual_review")) as [Hm|Hm]; [|auto].
  rewrite bool_decide_eq_true_2, (bool_decide_eq_true_2 (_ = Some _)) in * by done. cbn in *. bools.
  by apply dec_stable.
Qed.

Lemma turns_persist_or_respond s request snapshot d excerpt :
  fresh s → turns (persist_or_respond ctx s request snapshot d excerpt)
    (λ s', domain_case_reason_codes (operation_facts s') = []).
Proof using Hamb.
  intros [_ Hs]. unfold persist_or_respond. turn_walk; [done|].
  eapply turns_bind; [by apply turns_create_operation|]. intros result _. turn_walk. by case_match.
Qed.

Lemma turns_evaluate_operation s :
  fresh s → turns (evaluate_operation_request ctx s) (λ s', guarded ctx (after_evaluation s') s').
Proof using Hamb.
  intros Hs. unfold evaluate_operation_request. turn_walk.
  - apply guarded_after_evaluation. left. apply Hs.
  - apply guarded_after_evaluation. right. split; [apply Hs|]. cbn.
    destruct (dd_outcome _); cbn; try (intros; apply Hs). done.
  - eapply turns_weaken; [|by apply turns_persist_or_respond].
    intros s' Hs'. apply guarded_after_evaluation. by left.
  - apply guarded_after_evaluation. left. apply Hs.
Qed.

Lemma turns_submit_confirmed s :
  consented ctx → turns (submit_confirmed_operation_node ctx s) (settled ctx).
Proof using Hamb.
  intros Hyes. unfold submit_confirmed_operation_node. turn_walk. apply turns_try.
  - turn_walk. eapply turns_bind; [by apply turns_queue_operation|]. intros result _. apply turns_ret. by left.
  - intros e k Hk. destruct (connection_missing e); [|done]. injection Hk as <-. turn_walk.
    eapply turns_bind; [by apply turns_fallback|]. intros r _. apply turns_ret. by left.
Qed.

Lemma turns_confirm_manual s :
  consented ctx → turns (confirm_manual_operation ctx s) (settled ctx).
Proof using Hamb.
  intros Hyes. unfold confirm_manual_operation. turn_walk.
  eapply turns_bind; [by apply turns_confirm_operation|]. intros result _. apply turns_ret. by left.
Qed.

Lemma turns_cancel_node s : settled ctx s → turns (cancel_operation ctx s) (settled ctx).
Proof using Hamb.
  intros Hs. unfold cancel_operation. turn_walk.
  eapply turns_bind; [by apply turns_cancel_operation|]. intros result _. by apply turns_ret.
Qed.

Lemma turns_attach_node s : turns (attach_operation_case ctx s) (λ _, True).
Proof using Hamb.
  unfold attach_operation_case. turn_walk; try done.
  eapply turns_bind; [by apply turns_attach_case|]. intros result _. by apply turns_ret.
Qed.

(** ** Cases *)

Lemma turns_finalize s : settled ctx s → turns (finalize_case_handoff ctx s) (settled ctx).
Proof using Hamb.
  intros Hs. unfold finalize_case_handoff. turn_walk; try done.
  - eapply turns_bind; [by apply turns_record_handoff|]. intros result _. by apply turns_ret.
  - assert (consented ctx) as Hyes.
    { destruct Hs as [?|Hno]; [done|]. exfalso. bools. by eapply no_domain_no_investigation. }
    eapply (turns_bind _ _ _ _ (λ _, True)).
    + apply turns_try; [by turn_walk|]. intros e k Hk. destruct (connection_missing e); [|done].
      injection Hk as <-. by apply turns_ret.
    + intros [conn|] _; turn_walk.
      * eapply turns_bind; [by apply turns_record_delivery|]. intros result _. by apply turns_ret.
      * eapply turns_bind; [by apply turns_record_handoff|]. intros result _. by apply turns_ret.
Qed.

(** * The graph *)

Definition goes_on (p : RefundState * progress) : Prop :=
  match p.2 with Next n' => guarded ctx n' p.1 | _ => True end.

Lemma turns_branch m route edges :
  turns m fresh → Forall (λ n', ∀ s, fresh s → guarded ctx n' s) edges.*2 → turns (branch m route edges) goes_on.
Proof using.
  intros Hm He. eapply turns_bind; [exact Hm|]. intros s Hs. apply turns_lift_bind. intros label _.
  apply turns_lift_bind. intros n' Hn%follow_target. apply turns_ret.
  rewrite Forall_forall in He. by apply He.
Qed.

Lemma turns_then m n' : turns m (guarded ctx n') → turns (then_ m n') goes_on.
Proof using. intros Hm. eapply turns_bind; [exact Hm|]. intros s Hs. by apply turns_ret. Qed.

Lemma turns_choose m next : turns m (λ s, guarded ctx (next s) s) → turns (choose m next) goes_on.
Proof using. intros Hm. eapply turns_bind; [exact Hm|]. intros s Hs. by apply turns_ret. Qed.

Lemma turns_obey x (P : RefundState → string → Prop) :
  (∀ s name, x = Ok (s, Goto name) → P s name) →
  (∀ s name n', P s name → follow command_targets name = Ok n' → guarded ctx n' s) →
  turns (obey x) goes_on.
Proof using.
  intros Hx HP. apply turns_lift_bind. intros [s c] E. cbn. destruct c as [name|q]; [|by apply turns_ret].
  apply turns_lift_bind. intros n' Hn. apply turns_ret. by eapply HP; [apply Hx|].
Qed.

Lemma turns_pure (x : res RefundState) (P : RefundState → Prop) :
  (∀ s', x = Ok s' → P s') → turns (lift x) P.
Proof using. intros H. eapply turns_weaken; [|apply turns_lift]. exact H. Qed.

(** The destinations of a command on a turn without operations. *)
Lemma resumption_guarded s name n' :
  name ∈ "acknowledge_human_handoff" :: resumptions → fresh s → follow command_targets name = Ok n' → guarded ctx n' s.
Proof using.
  intros Hn Hs. unfold resumptions in Hn.
  repeat (rewrite elem_of_cons in Hn; destruct Hn as [->|Hn]; [by intros [= <-]|]). by apply not_elem_of_nil in Hn.
Qed.

Ltac edges_fresh := cbn [fmap list_fmap fst snd]; repeat first [apply Forall_nil_2 | apply Forall_cons_2];
  intros ? ?; cbn; try assumption; by apply fresh_settled.

Lemma after_order_guarded s : fresh s → guarded ctx (after_operation_order s) s.
Proof using. intros Hs. unfold after_operation_order. case_bool_decide; [exact Hs|by apply fresh_settled]. Qed.
Lemma after_snapshot_guarded s : fresh s → guarded ctx (after_snapshot s) s.
Proof using. intros Hs. unfold after_snapshot. destruct (operation_lookup_success _); [exact Hs|by apply fresh_settled]. Qed.

Lemma turns_run_node n s : guarded ctx n s → turns (run_node ctx n s) goes_on.
Proof using Hamb.
  intros Hg. destruct n; cbn [run_node guarded] in *.
  - apply turns_branch; [by apply turns_ret|edges_fresh].
  - apply turns_branch; [|edges_fresh]. apply turns_pure. intros s' E%classify_semantic_risk_facts.
    by eapply fresh_kept.
  - apply turns_branch; [|edges_fresh]. apply turns_pure. apply llm_call_router_facts.
  - apply turns_branch; [|edges_fresh]. apply turns_pure. intros s' E%classify_formal_complaint_facts.
    by eapply fresh_kept.
  - apply (turns_obey _ (λ s' name, name ∈ "acknowledge_human_handoff" :: resumptions ∧ fresh s')).
    + intros s' name E. split; [by eapply confirm_human_handoff_target|].
      apply confirm_human_handoff_facts in E. by eapply fresh_kept.
    + intros s' name n' [? ?]. by apply resumption_guarded.
  - apply turns_then. apply turns_ret. by apply fresh_settled.
  - apply (turns_obey _ (λ s' name, name ∈ "acknowledge_human_handoff" :: resumptions ∧ fresh s')).
    + intros s' name E. split; [apply confirm_order_priority_target in E; unfold resumptions; set_solver|].
      apply confirm_order_priority_facts in E. by eapply fresh_kept.
    + intros s' name n' [? ?]. by apply resumption_guarded.
  - apply turns_branch; [by apply turns_ret|edges_fresh].
  - apply turns_branch; [|edges_fresh]. apply turns_pure. intros s' E%detect_order_facts. by eapply fresh_kept.
  - apply turns_branch; [by apply turns_search_order|edges_fresh].
  - apply turns_branch; [by apply turns_check_refund|edges_fresh].
  - apply turns_then, turns_pure. intros s' E%order_response_facts. by eapply fresh_settled, fresh_kept.
  - apply (turns_obey _ (λ s' name, s' = s ∧ (name = "cancel" ∨ name = "proceed" ∧ approved_refund ctx))).
    + intros s' name [= E]. split; [|by eapply approval_target].
      unfold approval_node in E. destruct (tn_replies ctx _); by injection E.
    + intros s' name n' [-> [->|[-> Hyes]]] [= <-]; [exact Hg|by split].
  - apply turns_then. destruct Hg. by apply turns_create_refund_node.
  - apply turns_then. apply turns_ret. by apply fresh_settled.
  - apply turns_then, turns_pure. intros s' E%handle_complaint_facts. by eapply fresh_settled, fresh_kept.
  - apply turns_then, turns_pure. intros s' E%handle_noncritical_risk_facts. by eapply fresh_settled, fresh_kept.
  - apply turns_then. apply turns_ret. by apply fresh_settled.
  - apply turns_then. by apply turns_support_case_status.
  - apply turns_then. by apply turns_finalize.
  - eapply turns_bind; [apply turns_attach_node|]. intros s' _. by apply turns_ret.
  - apply turns_choose, turns_pure. intros s' E%detect_order_facts. apply after_order_guarded.
    by eapply fresh_kept.
  - apply turns_choose, turns_pure. intros s' E. apply after_snapshot_guarded.
    by eapply load_operation_snapshot_fresh.
  - apply turns_then, turns_pure. intros s' E. by eapply extract_operation_request_fresh.
  - apply turns_choose. by apply turns_evaluate_operation.
  - eapply turns_obey; [intros s' name; apply operation_confirmation_target|].
    intros s' name n' [-> [->|[[-> Hid]|[Hin Hyes]]]].
    + by intros [= <-].
    + intros [= <-]. right. destruct Hg as [Hno|]; [|done]. rewrite Hno in Hid. by destruct Hid.
    + repeat (rewrite elem_of_cons in Hin; destruct Hin as [->|Hin]; [by intros [= <-]|]).
      by apply not_elem_of_nil in Hin.
  - apply turns_then. by apply turns_submit_confirmed.
  - apply turns_then. by apply turns_confirm_manual.
  - apply turns_then. by apply turns_cancel_node.
  - apply turns_then, turns_ret. by left.
  - apply turns_then, turns_ret. by right.
Qed.

Lemma turns_run_from steps n s : guarded ctx n s → turns (run_from ctx steps n s) (λ _, True).
Proof using Hamb.
  revert n s. induction steps as [|steps IH]; intros n s Hg; cbn [run_from]; [by apply turns_ret|].
  eapply turns_bind; [by apply turns_run_node|]. intros [s' [n'| |q]] Hp; cbn; [by apply IH|by apply turns_ret..].
Qed.

Lemma turns_run_turn s : turns (run_turn ctx s) (λ _, True).
Proof using Hamb. by apply turns_run_from. Qed.
End Effects.
