(* ===== verification/OutboxGuarantees.v ===== *)
(** What operators and the provider rely on: delivery is fenced by leases, atomic with the
    aggregates, bounded, and only ever of commands a customer has confirmed; and the whole
    system keeps what its parts assume of one another. *)
From S2P Require Import Prelude Effects Auth OperationModels OperationPolicy CaseModels Envelope Retry Connections Database Transactions Messaging CaseRepository CaseService CaseSafety CaseGuarantees OperationRepository OperationService OperationSafety OperationTheorems OperationGuarantees OutboxWrites Finalization OutboxRepository OutboxSafety OutboxTransactions FinalizationSafety InboxSafety Steady DeliverySafety RecoverySafety WorkerSafety SystemSafety.

(** * A worked example *)

Definition demo_queued_db : database := after demo_queue demo_op_db.

Lemma system_ok_empty : system_ok empty_db.
Proof. split; [apply case_db_ok_empty|apply op_db_ok_empty|apply outbox_ok_empty|apply inbox_ok_empty]. Qed.

Lemma system_ok_demo : system_ok demo_queued_db.
Proof.
  unfold demo_queued_db, demo_queue.
  apply (runs_after _ _ _ demo_op_db (operation_call_honest idle_ambient 3 demo_provider (demo_scope customer)
    (CallQueue demo_op_id "r1" "shop-1") steady_world_idle demo_provider_identifies)).
  apply (runs_after _ _ _ empty_db (operation_call_honest idle_ambient 3 demo_provider (demo_scope customer)
    (CallCreate demo_request demo_snapshot demo_return_decision "please take it back")
    steady_world_idle demo_provider_identifies)).
  apply system_ok_empty.
Qed.

Definition demo_connection (connection_id : string) (c : ProviderCapability) : ProviderConnection :=
  mkProviderConnection connection_id "tenant-a" c (mkAnyHttpUrl "https" "https://provider.example/")
    "/v1/commands" (mkProviderAuthentication sch_bearer (Some "token") None)
    (mkProviderTimeout (Finite 5) (Finite 30) (Finite 30)) 4 None.
Definition demo_lookup : ConnectionLookup := λ i c, Ok (demo_connection i c).
Definition demo_answer (status : ProviderCommandAcceptanceStatus) (e : ProviderCommandEnvelope) :
    ProviderCommandResult :=
  mkProviderCommandResult 1 (e_command_id e) (Some "P-1") (Some "ref-1") status 0.
Definition demo_accepting : CommandTransport := λ _ _ e, Ok (demo_answer acc_accepted e).

(** * Claiming *)

(** One transaction that either commits once, with [Q], or leaves nothing behind; a commit
    whose acknowledgement is lost is reported as a persistence error. *)
Definition one_commit_or_none {A} (Q : A → database → database → Prop) (r : res A)
    (cs : list (database * database)) : Prop :=
  match r with
  | Ok a => ∃ d d', cs = [(d, d')] ∧ steady d d' ∧ Q a d d'
  | Err e => cs = [] ∨ e = IntegrationPersistenceError ∧
      ∃ a d d', cs = [(d, d')] ∧ steady d d' ∧ Q a d d'
  end.

Lemma one_commit_weaken {A} (Q Q' : A → database → database → Prop) r cs :
  (∀ a d d', Q a d d' → Q' a d d') → one_commit_or_none Q r cs → one_commit_or_none Q' r cs.
Proof.
  intros HQ. destruct r as [a|e]; cbn.
  - intros (d & d' & -> & Hs & H). exists d, d'. auto.
  - intros [->|(He & a & d & d' & -> & Hs & H)]; [by left|]. right. split; [done|]. exists a, d, d'. auto.
Qed.

Lemma one_commit_of_tx {A} amb pe handler (t : Tx A) (Q : A → database → database → Prop) :
  pe = IntegrationPersistenceError → steady_world amb → tx_within steady t →
  (∀ d a d', system_ok d → commits_to t d a d' → Q a d d') →
  runs amb system_ok (in_transaction pe handler t) (one_commit_or_none Q).
Proof.
  intros -> Hamb Ht HQ. eapply runs_weaken; [by apply (runs_steady_tx amb Hamb system_ok _ _ _ Q)|].
  intros [a|e] cs; [done|]. intros [[-> _]|H]; [by left|by right].
Qed.

(** Claiming leases at most a batch of messages, each waiting, due, unlocked and with
    attempts left, oldest first, and passes over a due message only for earlier ones; each
    is leased to this worker with one more attempt counted and one attempt opened under the
    new lease, what is handed out is what is stored, and no other message, no aggregate and
    nothing at the provider is touched. *)
Theorem claim_due_outbox_outcome (amb : Ambient database) (locked : uuid → bool)
    (worker_id : string) (batch_size : Z) (lease_seconds : float) :
  steady_world amb →
  runs amb system_ok (claim_due_outbox locked worker_id batch_size lease_seconds)
    (one_commit_or_none (λ claimed d d',
       ∃ ms, claim_committed locked worker_id batch_size ms claimed d d')).
Proof.
  intros Hamb. unfold claim_due_outbox. apply runs_lift_bind; [by left|]. intros lease _.
  apply one_commit_of_tx; [done|done|apply claim_steady|].
  intros d cs d' Hd Hc. by eapply claim_due_commits; [apply Hd|].
Qed.

Definition demo_claim : M database (list ClaimedOutboxMessage) :=
  claim_due_outbox (λ _, false) "w1" 20 (Finite 90).
Definition demo_claimed_db : database := after demo_claim demo_queued_db.

Lemma claim_due_outbox_outcome_witness :
  match outcome demo_claim demo_queued_db with Ok cs => length cs = 1%nat | Err _ => False end ∧
  outcome demo_claim demo_claimed_db = Ok [] ∧
  one_commit_or_none (λ claimed d d',
     ∃ ms, claim_committed (λ _, false) "w1" 20 ms claimed d d')
    (outcome demo_claim demo_queued_db) (commits demo_claim demo_queued_db).
Proof.
  do 2 (split; [vm_compute; reflexivity|]).
  exact (runs_outcome _ _ _ demo_queued_db (claim_due_outbox_outcome idle_ambient (λ _, false) "w1" 20
    (Finite 90) steady_world_idle) system_ok_demo).
Defined.

(** * Leases *)

(** The lease [l] of [w] on message [k], running at [t], now runs until [until]. *)
Record lease_renewed (k l : uuid) (w : string) (d d' : database) : Prop := {
  lr_message : ∃ t m m' expires until, outbox_messages d !! k = Some m ∧
    om_status m = ob_processing ∧ om_lease_id m = Some l ∧ om_lease_owner m = Some w ∧
    om_lease_expires_at m = Some expires ∧ t < expires ∧
    outbox_messages d' = <[k := m']> (outbox_messages d) ∧ om_lease_expires_at m' = Some until ∧
    om_status m' = ob_processing ∧ om_lease_id m' = Some l ∧ om_lease_owner m' = Some w ∧
    om_attempts_in_cycle m' = om_attempts_in_cycle m;
  lr_attempts : outbox_delivery_attempts d' = outbox_delivery_attempts d;
  lr_deliveries : provider_deliveries d' = provider_deliveries d;
}.

(** A renewal never resurrects a lease: it answers true only when the message was still
    processing under exactly this lease and the lease had not expired at the database's
    time, and then only moves the expiry; in every other case nothing changes. *)
Theorem renew_outbox_lease_outcome (amb : Ambient database) (k l : uuid) (w : string)
    (lease_seconds : float) :
  steady_world amb →
  runs amb system_ok (renew_outbox_lease k l w lease_seconds)
    (one_commit_or_none (λ renewed d d',
       (renewed = false ∧ d' = d) ∨ (renewed = true ∧ lease_renewed k l w d d'))).
Proof.
  intros Hamb. unfold renew_outbox_lease. apply runs_lift_bind; [by left|]. intros lease _.
  apply one_commit_of_tx; [done|done|apply renew_steady|].
  intros d b d' Hd [H|(-> & t & t1 & t2 & m & Hm & Hh & Hput)]%renew_tx_commits; [by left|]. right. split; [done|].
  pose proof (outbox_id d k m (sys_outbox d Hd) Hm) as Hk.
  apply put_outbox_message_effect in Hput as [-> _]. unfold holds_lease in Hh. bools.
  destruct (om_lease_expires_at m) as [e|] eqn:He; [|done]. split; [|done..].
  eexists t, m, _, e, _. rewrite <- Hk. split_and!; try reflexivity; try done; [by rewrite Hk|lia].
Qed.

Definition demo_renew (l : uuid) : M database bool :=
  renew_outbox_lease (match (map_to_list (outbox_messages demo_claimed_db)) with (k, _) :: _ => k | [] => 0%N end)
    l "w1" (Finite 90).
Definition demo_lease : uuid :=
  match rows (outbox_delivery_attempts demo_claimed_db) with a :: _ => da_lease_id a | [] => 0%N end.


Lemma system_ok_claimed : system_ok demo_claimed_db.
Proof.
  apply (runs_after system_ok demo_claim (λ _ _, True)); [|apply system_ok_demo].
  eapply runs_weaken; [|done]. unfold demo_claim, claim_due_outbox.
  apply honest_bind; [apply honest_lift|]. intros lease.
  apply honest_tx; [apply steady_world_idle|apply _|apply claim_steady].
Qed.

Lemma renew_outbox_lease_outcome_witness :
  outcome (demo_renew demo_lease) demo_claimed_db = Ok true ∧
  outcome (demo_renew 0%N) demo_claimed_db = Ok false ∧
  one_commit_or_none (λ renewed d d',
     (renewed = false ∧ d' = d) ∨ (renewed = true ∧ lease_renewed 155%N 252%N "w1" d d'))
    (outcome (renew_outbox_lease 155%N 252%N "w1" (Finite 90)) demo_claimed_db)
    (commits (renew_outbox_lease 155%N 252%N "w1" (Finite 90)) demo_claimed_db).
Proof.
  do 2 (split; [vm_compute; reflexivity|]).
  exact (runs_outcome _ _ _ demo_claimed_db (renew_outbox_lease_outcome idle_ambient 155%N 252%N "w1"
    (Finite 90) steady_world_idle) system_ok_claimed).
Defined.

(** * Finishing a delivery *)

Lemma finalize_outcome (amb : Ambient database) (c : ClaimedOutboxMessage) (target : finalization_target)
    (result : option ProviderCommandResult) (fk : option ProviderFailureKind) (ec em : option string) :
  steady_world amb →
  runs amb system_ok (finalize c target result fk ec em)
    (one_commit_or_none (λ _ d d', delivery_finalized c target fk d d')).
Proof.
  intros Hamb. unfold finalize. destruct (om_lease_id _) as [l|] eqn:Hl; [|by apply runs_raise; left].
  destruct (om_lease_owner _) as [w|] eqn:Hw; [|by apply runs_raise; left].
  apply one_commit_of_tx; [done|done|apply finalize_tx_steady|].
  intros d u d' Hd Hc. by eapply finalize_tx_commits.
Qed.

(** C12: a provider's answer is recorded once and whole: for the very lease the worker was
    given, and before that lease expires, the aggregate moves on with its audit events, the
    open attempt is finished with the outcome and the message is closed, in one commit that
    touches no other message and nothing at the provider; a worker that lost its lease
    changes nothing. *)
Theorem delivery_finalized_atomically (amb : Ambient database) (c : ClaimedOutboxMessage)
    (target : finalization_target) (result : option ProviderCommandResult)
    (fk : option ProviderFailureKind) (ec em : option string) :
  steady_world amb →
  runs amb system_ok (finalize c target result fk ec em)
    (one_commit_or_none (λ _ d d', delivery_finalized c target fk d d')).
Proof. apply finalize_outcome. Qed.

Definition demo_claimed : ClaimedOutboxMessage :=
  match outcome demo_claim demo_queued_db with
  | Ok (c :: _) => c
  | _ => mkClaimed
           (outbox_row (mkEnvelope 1 0%N "k" "m" ag_support_case 0%N None "t" "c" "p"
              cmd_delivery_investigation (DeliveryPayload (mkDeliveryInvestigationCommandPayload "o"
              di_delayed)) 0) ob_pending 0 0 cap_order_operation)
           (mkOutboxDeliveryAttempt 0%N 0%N 1 1 0%N "w" 0 None None None None None None None None None None)
  end.
Definition demo_accept : M database unit :=
  accepted demo_claimed (demo_answer acc_accepted (envelope_of (cl_message demo_claimed))).

Lemma delivery_finalized_atomically_witness :
  outcome demo_accept demo_claimed_db = Ok tt ∧
  oo_status <$> order_operations (after demo_accept demo_claimed_db) !! demo_op_id = Some os_submitted ∧
  outcome demo_accept demo_queued_db = Err LeaseConflictError ∧
  one_commit_or_none (λ _ d d', delivery_finalized demo_claimed ft_dead (Some fk_timeout) d d')
    (outcome (terminal_failure demo_claimed fk_timeout None None) demo_claimed_db)
    (commits (terminal_failure demo_claimed fk_timeout None None) demo_claimed_db).
Proof.
  do 3 (split; [vm_compute; reflexivity|]).
  exact (runs_outcome _ _ _ demo_claimed_db (delivery_finalized_atomically idle_ambient demo_claimed ft_dead
    None (Some fk_timeout) None None steady_world_idle) system_ok_claimed).
Defined.

(** The operation [i] is now a human's work: its support case exists, and its timeline says
    that the status changed. *)
Record escalated (i : uuid) (d d' : database) : Prop := {
  es_operation : ∃ o case_id, order_operations d' !! i = Some o ∧ oo_status o = os_manual_review ∧
    oo_requires_manual_review o = true ∧ oo_review_priority o = Some p1 ∧
    oo_support_case_id o = Some case_id ∧ is_Some (support_cases d' !! case_id);
  es_timeline : ∃ es e, order_operation_events d' = order_operation_events d ++ es ∧ e ∈ es ∧
    oev_operation_id e = i ∧ oev_previous_status e = Some os_queued ∧
    oev_current_status e = Some os_manual_review;
}.

Lemma finalized_escalates fk row row' es d d' :
  operation_target ft_dead fk = os_manual_review → operation_finalized ft_dead fk row row' es d d' →
  escalated (oo_operation_id row) d d'.
Proof.
  intros Ht H. destruct (of_handoff _ _ _ _ _ _ _ H Ht) as (Hr & Hp & i & Hi & Hc & _). split.
  - exists row', i. rewrite (of_rows _ _ _ _ _ _ _ H), lookup_insert_eq, (of_status _ _ _ _ _ _ _ H). done.
  - destruct (of_audit _ _ _ _ _ _ _ H) as (e & He & _ & Hprev & Hcur).
    destruct (of_events _ _ _ _ _ _ _ H) as [Eev Hab]. rewrite Forall_forall in Hab.
    exists es, e. split_and!; [done|done|apply (Hab e He)|done|congruence].
Qed.

(** A command the provider never took is not dropped: unless the provider rejected it,
    giving it up sends its order operation to manual review, at high priority, with a
    support case that exists, and says so on the operation's timeline, in the one commit
    that closes the command. *)
Theorem undeliverable_operation_reaches_a_human (amb : Ambient database) (c : ClaimedOutboxMessage)
    (kind : ProviderFailureKind) (ec em : option string) :
  steady_world amb → kind ≠ fk_provider_rejection →
  om_aggregate_type (cl_message c) = ag_order_operation →
  runs amb system_ok (terminal_failure c kind ec em)
    (one_commit_or_none (λ _ d d', escalated (om_aggregate_id (cl_message c)) d d')).
Proof.
  intros Hamb Hkind Hty. eapply runs_weaken; [by apply finalize_outcome|].
  intros r cs. apply one_commit_weaken. intros _ d d' H. pose proof (df_aggregate _ _ _ _ _ H) as Ha.
  unfold aggregate_finalized in Ha. rewrite Hty in Ha. destruct Ha as (row & row' & es & Hf & -> & _).
  eapply finalized_escalates; [|exact Hf]. cbn. by rewrite bool_decide_eq_false_2 by congruence.
Qed.

Lemma undeliverable_operation_reaches_a_human_witness :
  outcome (terminal_failure demo_claimed fk_timeout None None) demo_claimed_db = Ok tt ∧
  size (support_cases (after (terminal_failure demo_claimed fk_timeout None None) demo_claimed_db)) = 1%nat ∧
  one_commit_or_none (λ _ d d', escalated (om_aggregate_id (cl_message demo_claimed)) d d')
    (outcome (terminal_failure demo_claimed fk_timeout None None) demo_claimed_db)
    (commits (terminal_failure demo_claimed fk_timeout None None) demo_claimed_db).
Proof.
  do 2 (split; [vm_compute; reflexivity|]).
  refine (runs_outcome _ _ _ demo_claimed_db (undeliverable_operation_reaches_a_human idle_ambient demo_claimed
    fk_timeout None None steady_world_idle _ _) system_ok_claimed); [done|vm_compute; reflexivity].
Defined.

(** * Recovery *)

(** Recovering expired leases takes at most a batch of messages, every one of them
    processing under a lease that had run out, closes their open attempts as expired and
    sends each back to wait, or, after eight attempts, to the dead letters, in which case an
    order operation is in manual review with a case attached; the count returned is the
    number recovered, no other message changes and nothing is sent. *)
Theorem recover_expired_outcome (amb : Ambient database) (locked : uuid → bool) (batch_size : Z) :
  steady_world amb →
  runs amb system_ok (recover_expired_outbox_leases locked batch_size)
    (one_commit_or_none (λ n d d', ∃ rows, recovered batch_size rows d d' ∧ n = Z.of_nat (length rows))).
Proof.
  intros Hamb. apply one_commit_of_tx; [done|done|apply recover_steady|].
  intros d n d' [Hc Ho Hb _] H. by eapply recover_tx_commits.
Qed.

(** An hour later, when the lease of the claim has run out. *)
Definition later_ambient : Ambient database :=
  mkAmbient database (λ _ d, d) (λ n, seconds (5000 + Z.of_nat n)) (λ n, N.of_nat n + 500)%N (λ _, NoFault).
Definition demo_recover : res Z * World database :=
  recover_expired_outbox_leases (λ _, false) 20 later_ambient (start demo_claimed_db).

Lemma recover_expired_outcome_witness :
  demo_recover.1 = Ok 1 ∧
  om_status <$> rows (outbox_messages (w_db demo_recover.2)) = [ob_retry_scheduled] ∧
  one_commit_or_none (λ n d d', ∃ rows, recovered 20 rows d d' ∧ n = Z.of_nat (length rows))
    demo_recover.1 (w_log demo_recover.2).
Proof.
  do 2 (split; [vm_compute; reflexivity|]).
  exact (runs_from _ _ _ _ demo_claimed_db (recover_expired_outcome later_ambient (λ _, false) 20
    (λ _ _, reflexivity _)) system_ok_claimed).
Defined.

(** * A run of the worker *)

(** What the counters of a run stand for: the run claimed a batch, and for every claim one
    counter was raised, for what was committed about it. *)
Definition counters_truthful (claim : list OutboxMessage → list ClaimedOutboxMessage → database → database → Prop)
    (x : WorkerRunResult) (verdicts : ClaimedOutboxMessage → WorkerRunResult → list (database * database) → Prop)
    (cs : list (database * database)) : Prop :=
  ∃ ms claimed vs d d', (d, d') ∈ cs ∧ claim ms claimed d d' ∧
    Forall2 (λ c v, verdicts c v cs) claimed vs ∧ x = tally (Z.of_nat (length claimed)) vs ∧
    wr_claimed x = Z.of_nat (length claimed) ∧
    wr_published x + wr_retried x + wr_dead x + wr_lease_conflicts x + wr_failed x = wr_claimed x.

(** C15: one run of the outbox worker, against any provider and with other workers committing
    between any two of its steps, keeps every component's promise, and the counters it
    returns are truthful: published stands for a command the provider received, as stored
    and over a connection of its tenant, and accepted, whose delivery was then finalized;
    retried for a retryable failure with attempts left, whose message is stored as due a delay
    of at least the backoff of that attempt after the reading of the clock that precedes the
    one that stamps the row; dead for a delivery closed as dead; every claimed message is
    counted once. *)
Theorem run_once_truthful (amb : Ambient database) (worker_id : string) (batch_size : Z)
    (lease_seconds : float) (lookup : ConnectionLookup) (transport : CommandTransport)
    (renewals : ClaimedOutboxMessage → nat) (random : option float) (locked : uuid → bool) :
  steady_world amb →
  runs amb system_ok (run_once worker_id batch_size lease_seconds lookup transport renewals random locked)
    (λ r cs, Forall (λ c, steady c.1 c.2) cs ∧ ∀ x, r = Ok x →
       counters_truthful (claim_committed locked worker_id batch_size) x (verdict amb transport) cs).
Proof.
  intros Hamb. eapply runs_weaken; [by apply run_once_runs|].
  intros r cs [Hs Hx]. split; [done|]. intros x ->.
  destruct Hx as (ms & claimed & vs & d & d' & Hin & Hc & Hv & ->).
  destruct (tally_counts _ _ _ _ (Z.of_nat (length claimed)) _ Hv) as [E1 E2].
  exists ms, claimed, vs, d, d'. by rewrite E1, E2.
Qed.

Definition demo_run (transport : CommandTransport) : M database WorkerRunResult :=
  run_once "w1" 20 (Finite 90) demo_lookup transport (λ _, 1%nat) (Some (Finite 0)) (λ _, false).
Definition demo_timeout : CommandTransport := λ _ _ _, Err (HTTPStatusError 503 None).

Lemma run_once_truthful_witness :
  outcome (demo_run demo_accepting) demo_queued_db = Ok (mkWorkerRunResult 1 1 0 0 0 0) ∧
  outcome (demo_run demo_timeout) demo_queued_db = Ok (mkWorkerRunResult 1 0 1 0 0 0) ∧
  Forall (λ c, steady c.1 c.2) (commits (demo_run demo_accepting) demo_queued_db) ∧
  ∀ x, outcome (demo_run demo_accepting) demo_queued_db = Ok x →
    counters_truthful (claim_committed (λ _, false) "w1" 20) x (verdict idle_ambient demo_accepting)
      (commits (demo_run demo_accepting) demo_queued_db).
Proof.
  do 2 (split; [vm_compute; reflexivity|]).
  exact (runs_outcome _ _ _ demo_queued_db (run_once_truthful idle_ambient "w1" 20 (Finite 90) demo_lookup
    demo_accepting (λ _, 1%nat) (Some (Finite 0)) (λ _, false) steady_world_idle) system_ok_demo).
Defined.

(** * Failures the worker mishandles *)

(** The database is out of reach at one tick. *)
Definition faulty_ambient (tick : nat) : Ambient database :=
  mkAmbient database (interfere idle_ambient) (clock (DB := database) idle_ambient)
    (fresh_id (DB := database) idle_ambient) (λ n, if (n =? tick)%nat then FailBefore else NoFault).
Definition demo_faulty : res WorkerRunResult * World database :=
  demo_run demo_accepting (faulty_ambient 161) (start demo_queued_db).

(** A command the provider has accepted can be declared undeliverable: when the one
    database round trip that records the acceptance fails, the worker takes the persistence
    error for a validation failure of the command, closes it as dead and sends its operation
    to manual review for a failed delivery, although the provider has it. *)
Theorem acceptance_lost_to_a_database_fault :
  steady_world (faulty_ambient 161) ∧ demo_faulty.1 = Ok (mkWorkerRunResult 1 0 0 1 0 0) ∧
  (∃ c answer, provider_deliveries (w_db demo_faulty.2) = [c] ∧ e_aggregate_id c = demo_op_id ∧
     demo_accepting [] (demo_connection (e_connection_id c) cap_order_operation) c = Ok answer ∧
     pr_status answer = acc_accepted) ∧
  (om_status <$> rows (outbox_messages (w_db demo_faulty.2))) = [ob_dead] ∧
  (da_outcome <$> rows (outbox_delivery_attempts (w_db demo_faulty.2))) = [Some da_terminal_failure] ∧
  (∃ o c, order_operations (w_db demo_faulty.2) !! demo_op_id = Some o ∧ oo_status o = os_manual_review ∧
     rows (support_cases (w_db demo_faulty.2)) = [c] ∧ c_reason_codes c = [hr_provider_delivery_failed]).
Proof.
  split; [intros n d; reflexivity|]. split; [vm_compute; reflexivity|]. split; [|split; [|split]].
  - eexists _, _. split; [vm_compute; reflexivity|]. split_and!; reflexivity.
  - vm_compute. reflexivity.
  - vm_compute. reflexivity.
  - eexists _, _. split; [vm_compute; reflexivity|]. split; [reflexivity|].
    split; [vm_compute; reflexivity|]. reflexivity.
Qed.

(** The provider asks to come back in a trillion seconds. *)
Definition demo_far_future : CommandTransport := λ _ _ _,
  Err (HTTPStatusError 429 (Some 1000000000000%Q)).

(** One command can stop the worker: a provider that answers 429 with a [Retry-After]
    beyond the calendar makes the computation of the next attempt overflow, and the exception
    leaves the run, which commits nothing more than the claim and the request: the message
    stays leased with its attempt open. *)
Theorem retry_after_overflow_escapes_run :
  outcome (demo_run demo_far_future) demo_queued_db = Err OverflowError ∧
  length (commits (demo_run demo_far_future) demo_queued_db) = 3%nat ∧
  (om_status <$> rows (outbox_messages (after (demo_run demo_far_future) demo_queued_db))) = [ob_processing] ∧
  (da_finished_at <$> rows (outbox_delivery_attempts (after (demo_run demo_far_future) demo_queued_db))) = [None] ∧
  ∀ due, outcome (dispatch_round "w1" 20 (Finite 90) demo_lookup demo_far_future (λ _, 1%nat)
    (Some (Finite 0)) (λ _, false) due) demo_queued_db = Err OverflowError.
Proof. do 4 (split; [vm_compute; reflexivity|]). intros []; vm_compute; reflexivity. Qed.

(** * Stored commands *)

(** C40: a queued command survives storage: a valid envelope is written to the outbox as a
    row that reads back as written through the persistence model, and the envelope rebuilt
    from the row when it is sent is the one that was queued. *)
Theorem stored_command_roundtrip (e : ProviderCommandEnvelope) (at_ : instant) :
  ProviderCommandEnvelope_validate e = Ok e →
  let row := outbox_row e ob_pending at_ (e_created_at e) cap_order_operation in
  outbox_from_row row = Ok row ∧ to_envelope row = Ok e.
Proof. apply outbox_row_roundtrip. Qed.

Lemma stored_command_roundtrip_witness :
  let e := envelope_of (cl_message demo_claimed) in
  e_aggregate_id e = demo_op_id ∧
  outbox_from_row (outbox_row e ob_pending 7 (e_created_at e) cap_order_operation) =
    Ok (outbox_row e ob_pending 7 (e_created_at e) cap_order_operation) ∧
  to_envelope (outbox_row e ob_pending 7 (e_created_at e) cap_order_operation) = Ok e.
Proof.
  intros e. split; [vm_compute; reflexivity|]. apply (stored_command_roundtrip e 7). vm_compute. reflexivity.
Defined.
