(* ===== verification/InboxGuarantees.v ===== *)
(** What the provider and the customer rely on when a callback comes back: each event is
    stored once, applied once, under a lease, and moves the aggregate only along its
    lifecycle. *)
From S2P Require Import Prelude Effects Auth OperationModels OperationPolicy CaseModels Envelope InboxModels Retry Database Transactions Messaging CaseRepository CaseService CaseSafety CaseGuarantees OperationRepository OperationService OperationSafety OperationTheorems OperationGuarantees OutboxWrites Finalization InboxWrites OutboxRepository InboxRepository InboxFinalizer OutboxSafety OutboxTransactions FinalizationSafety InboxSafety Steady DeliverySafety WorkerSafety InboxTransactions SystemSafety CallbackSafety InboxWorkerSafety OutboxGuarantees.

(** * The decision on a callback *)

(** The statuses an operation has only while, or after, the provider handles it. *)
Definition with_provider (s : OperationRecordStatus) : Prop :=
  s ∈ [os_submitted; os_processing; os_completed; os_rejected].

(** What is done about a callback follows the lifecycle of operations: on an operation the
    provider holds, and with a reference that does not contradict the known one, a callback is
    applied exactly when the service's own transition table allows the reported status next, a
    duplicate exactly when the operation is already there, stale exactly when the operation is
    one allowed step past it; everything else is a conflict. *)
Theorem callback_decision_spec (s : OperationRecordStatus) (p : ProviderCommandExecutionStatus)
    (cur inc : option string) :
  let target := inbox_target p in
  let answers := with_provider s ∧ provider_reference_is_compatible cur inc = true in
  let decision := decide_order_operation_callback s p cur inc in
  (decision = mkInboxDecision act_apply (Some target) ↔ answers ∧ operation_transition_allowed s target = true) ∧
  (decision = mkInboxDecision act_duplicate (Some target) ↔ answers ∧ s = target) ∧
  (decision = mkInboxDecision act_stale (Some target) ↔
     answers ∧ operation_transition_allowed target s = true ∧ s ≠ os_rejected) ∧
  (decision = mkInboxDecision act_conflict None ↔
     ¬ (answers ∧ (operation_transition_allowed s target = true ∨ s = target ∨
                   operation_transition_allowed target s = true ∧ s ≠ os_rejected))).
Proof.
  cbv zeta. unfold decide_order_operation_callback, with_provider.
  destruct (provider_reference_is_compatible cur inc); cbn; destruct s, p; cbn;
    split_and!; split; intros H; set_unfold; naive_solver.
Qed.

(** * Applying a callback *)

Lemma finalize_order_operation_runs (amb : Ambient database) (c : ClaimedInboxMessage) (at_ : instant) :
  steady_world amb →
  runs amb system_ok (finalize_order_operation c at_)
    (one_commit_or_none (λ r d d', operation_callback_settled c r d d')).
Proof.
  intros Hamb. unfold finalize_order_operation, with_inbox_lease.
  destruct (im_lease_id _) as [l|]; [|by apply runs_raise; left].
  destruct (im_lease_owner _) as [w|]; [|by apply runs_raise; left].
  apply one_commit_of_tx; [done|done|apply order_operation_callback_steady|].
  intros d r d' Hd H. by eapply order_operation_callback_commits; [apply Hd|apply Hd|].
Qed.

(** C16: a callback takes effect once and whole: for the very lease the worker was given, and
    before it expires, the message is settled and its attempt finished in the commit that
    moves the operation; the operation moves only when the command has been published, only
    to the status the provider reports, only along its lifecycle, keeping its identity and a
    known provider reference, with exactly one event on its timeline; a duplicate changes no
    status and leaves no event, a stale, failed or postponed callback leaves every operation
    alone; cases, the outbox and the provider are never touched. *)
Theorem callback_applied_atomically (amb : Ambient database) (c : ClaimedInboxMessage) (at_ : instant) :
  steady_world amb →
  runs amb system_ok (finalize_order_operation c at_)
    (one_commit_or_none (λ r d d', operation_callback_settled c r d d')).
Proof. apply finalize_order_operation_runs. Qed.

(** A worked example: the provider has the command, and reports on it. *)
Definition demo_published_db : database := after (demo_run demo_accepting) demo_queued_db.

Lemma system_ok_published : system_ok demo_published_db.
Proof.
  apply (runs_after system_ok (demo_run demo_accepting) (λ _ _, True)); [|apply system_ok_demo].
  eapply runs_weaken; [|done]. by apply run_once_runs.
Qed.

Definition demo_event (status : ProviderCommandExecutionStatus) : ProviderWebhookEventData :=
  mkProviderWebhookEventData 155%N ag_order_operation demo_op_id status (Some "P-1") (Some "ref-1") None 0.
Definition demo_sha : string := "0123456789abcdef0123456789abcdef0123456789abcdef0123456789abcdef".
Definition demo_receive (k : uuid) (event_id : string) (status : ProviderCommandExecutionStatus) :
    M database InboxMessage :=
  receive_inbox_idempotently k "shop-1" event_id "tenant-a" (demo_event status) demo_sha 0.
Definition demo_received_db : database := after (demo_receive 900%N "evt-1" px_completed) demo_published_db.

Lemma system_ok_receive k event_id status d : system_ok d → system_ok (after (demo_receive k event_id status) d).
Proof.
  apply (runs_after system_ok (demo_receive k event_id status) (λ _ _, True)). eapply runs_weaken; [|done].
  apply receive_inbox_honest; [apply steady_world_idle|]. by destruct status.
Qed.

Definition demo_claim_callbacks : M database (list ClaimedInboxMessage) :=
  claim_due_inbox (λ _, false) "c1" 20 (Finite 90).
Definition demo_callback_db : database := after demo_claim_callbacks demo_received_db.
Definition demo_callback : ClaimedInboxMessage :=
  match outcome demo_claim_callbacks demo_received_db with
  | Ok (c :: _) => c
  | _ => mkClaimedInbox (received_row 0%N "" "" "" (demo_event px_accepted) "" 0)
           (mkInboxProcessingAttempt 0%N 0%N 0 0 0%N "" 0 None None None None)
  end.

Lemma system_ok_callback : system_ok demo_callback_db.
Proof.
  apply (runs_after system_ok demo_claim_callbacks (λ _ _, True)); [|apply system_ok_receive, system_ok_published].
  eapply runs_weaken; [|done]. unfold demo_claim_callbacks, claim_due_inbox.
  apply honest_bind; [apply honest_lift|]. intros lease.
  apply honest_tx; [apply steady_world_idle|apply _|apply claim_inbox_steady].
Qed.

Definition demo_apply : M database InboxFinalizationResult :=
  finalize_order_operation demo_callback (seconds 5000).

Lemma callback_applied_atomically_witness :
  outcome demo_apply demo_callback_db =
    Ok (mkInboxResult fin_applied ag_order_operation (Some os_submitted) (Some os_completed) None) ∧
  oo_status <$> order_operations (after demo_apply demo_callback_db) !! demo_op_id = Some os_completed ∧
  outcome demo_apply demo_received_db = Err LeaseConflictError ∧
  one_commit_or_none (λ r d d', operation_callback_settled demo_callback r d d')
    (outcome demo_apply demo_callback_db) (commits demo_apply demo_callback_db).
Proof.
  do 3 (split; [vm_compute; reflexivity|]).
  exact (runs_outcome _ _ _ demo_callback_db (callback_applied_atomically idle_ambient demo_callback
    (seconds 5000) steady_world_idle) system_ok_callback).
Defined.

(** * Receiving an event *)

(** The event of [m] is stored. *)
Definition holds_event (m : InboxMessage) (d : database) : Prop :=
  system_ok d ∧ ∃ m', inbox_messages (inbox d) !! im_inbox_id m = Some m' ∧ same_event m m'.

#[export] Instance stable_holds_event m : Stable (holds_event m).
Proof.
  split; [by intros d []|]. intros d d' (Hd & m1 & Hm1 & E1) Hs. split; [by eapply system_ok_steady|].
  destruct (st_inbox _ _ Hs (sys_inbox d Hd)) as [_ [Hev _]]. destruct (Hev _ _ Hm1) as (m2 & Hm2 & E2 & _).
  exists m2. split; [done|by etrans].
Qed.

Lemma event_row_stored d k m :
  inbox_ok (inbox d) → inbox_messages (inbox d) !! k = Some m →
  event_row (im_connection_id m) (im_event_id m) d = Some m.
Proof.
  intros Hd Hm. unfold event_row. set (l := filter _ _).
  assert (m ∈ l) as Hin by (apply list_elem_of_filter; split; [done|apply elem_of_rows; by exists k]).
  destruct l as [|x l'] eqn:El; [set_solver|]. cbn. f_equal.
  assert (x ∈ l) as Hx by (rewrite El; set_solver). subst l.
  apply list_elem_of_filter in Hx as [[E1 E2] [i Hi]%elem_of_rows].
  assert (i = k) as ->.
  { eapply (ib_event _ Hd); [exact Hi|exact Hm|done|]. unfold inbox_event_key. congruence. }
  congruence.
Qed.

Lemma replay_conflicts_event m m' con ev ten data sha :
  same_event m m' → replay_conflicts (InboxMessage_strip m') con ev ten data sha =
                    replay_conflicts (InboxMessage_strip m) con ev ten data sha.
Proof.
  unfold same_event, replay_conflicts. intros H. destruct_and!. cbn.
  repeat match goal with H : _ m' = _ m |- _ => rewrite H; clear H end. done.
Qed.

(** A delivery repeats the stored event: it is for the same tenant, it announces the same
    change of the same command and aggregate, with the same data, and its raw body has the
    hash of the first one. *)
Record repeats (m : InboxMessage) (tenant : string) (data : ProviderWebhookEventData) (sha : string) : Prop := {
  rp_tenant : tenant = strip (im_tenant_id m);
  rp_kind : im_schema_version m = 1 ∧ im_event_type m = wh_command_status_changed;
  rp_command : wd_command_id data = im_command_id m;
  rp_aggregate_type : wd_aggregate_type data = im_aggregate_type m;
  rp_aggregate_id : wd_aggregate_id data = im_aggregate_id m;
  rp_payload : data = im_payload m;
  rp_body : sha = strip (im_raw_body_sha256 m);
}.

Lemma no_conflict {A} `{EqDecision A} (x y : A) (name : string) :
  (if bool_decide (x ≠ y) then [name] else []) = [] → x = y.
Proof. by case_bool_decide. Qed.

Lemma no_conflicts_repeats m con ev tenant data sha :
  replay_conflicts (InboxMessage_strip m) con ev tenant data sha = [] → repeats m tenant data sha.
Proof.
  unfold replay_conflicts. intros H.
  repeat match type of H with _ ++ _ = [] => let C := fresh "C" in apply app_nil in H as [C H] end.
  cbn in *. repeat match goal with C : _ = [] |- _ => apply no_conflict in C end.
  split; [done|by split|done..].
Qed.

(** C17: an event is stored once: a delivery stores its event exactly when none is stored under
    its connection and event id, and then the whole of it, waiting; once stored, every further
    delivery under that id, however late and whoever else commits meanwhile, changes nothing,
    and is answered, with the stored event, only if it repeats that event: same tenant, schema
    version, kind, command, aggregate and data, and the same hash of the raw body. *)
Theorem event_received_once (amb : Ambient database) (m : InboxMessage) (k : uuid) (tenant : string)
    (data : ProviderWebhookEventData) (sha : string) (at_ : instant) :
  steady_world amb → ProviderWebhookEventData_validate data = Ok data →
  let receive := receive_inbox_idempotently k (im_connection_id m) (im_event_id m) tenant data sha at_ in
  runs amb system_ok receive (received_or_found
    (received_row k (im_connection_id m) (im_event_id m) tenant data sha at_)) ∧
  runs amb (holds_event m) receive (λ r cs, Forall (λ c, c.2 = c.1) cs ∧ ∀ x, r = Ok x →
    repeats m tenant data sha ∧ same_event (InboxMessage_strip m) x).
Proof.
  intros Hamb Hdata receive. subst receive. split; [by apply receive_inbox_runs|].
  unfold receive_inbox_idempotently.
  - eapply runs_bind.
    + apply (runs_steady_tx amb Hamb (holds_event m) _ _ _ (λ x d d', d' = d ∧
        repeats m tenant data sha ∧ same_event m x ∧ ProviderWebhookEventData_validate (im_payload x) = Ok (im_payload x))).
      * by apply receive_steady.
      * intros d x d' (Hd & m' & Hm' & He) Hc. pose proof (sys_inbox d Hd) as Hi.
        apply receive_commits in Hc as ([(_ & Hfree & _)|[-> Hx]] & Hrep & _); [| |done];
          [cbn [im_connection_id im_event_id received_row] in Hfree|cbn [im_connection_id im_event_id received_row] in Hx].
        -- destruct He as (_ & E1 & E2 & _). rewrite <- E1, <- E2, (event_row_stored d _ m' Hi Hm') in Hfree. done.
        -- assert (x = m') as ->.
           { pose proof (event_row_stored d _ m' Hi Hm') as Hrow. destruct He as (_ & E1 & E2 & _).
             rewrite E1, E2, Hx in Hrow. by injection Hrow. }
           split_and!; [done| |done|by eapply ib_payload].
           eapply no_conflicts_repeats. rewrite <- (replay_conflicts_event m m') by done. by apply Hrep.
    + intros x cs (d & d' & -> & _ & -> & Hr & He & Hp). apply runs_lift. rewrite app_nil_r.
      split; [by apply Forall_singleton|]. intros y Hy. split; [done|].
      unfold inbox_from_row in Hy. rewrite Hp in Hy. cbn in Hy. rewrite with_inbox_payload_same in Hy.
      unfold InboxMessage_validate in Hy. cbv zeta in Hy. inv_ok.
      unfold same_event in *. destruct_and!. cbn. split_and!; congruence.
    + intros e cs [[-> _]|(_ & x & d & d' & -> & _ & -> & _)]; (split; [|done]);
        [by apply Forall_nil_2|by apply Forall_singleton].
Qed.

Definition demo_stored : InboxMessage :=
  received_row 900%N "shop-1" "evt-1" "tenant-a" (demo_event px_completed) demo_sha 0.

(** The same data in a body that hashes otherwise. *)
Definition demo_other_body : M database InboxMessage :=
  receive_inbox_idempotently 901%N "shop-1" "evt-1" "tenant-a" (demo_event px_completed)
    (String.substring 1 63 demo_sha +:+ String.substring 0 1 demo_sha) 0.

Lemma event_received_once_witness :
  holds_event demo_stored demo_received_db ∧
  im_inbox_id <$> (match outcome (demo_receive 901%N "evt-1" px_completed) demo_received_db with
                   | Ok x => Some x | Err _ => None end) = Some 900%N ∧
  outcome (demo_receive 901%N "evt-1" px_processing) demo_received_db = Err (InboxEventConflictError ["payload"]) ∧
  outcome demo_other_body demo_received_db = Err (InboxEventConflictError ["raw_body_sha256"]) ∧
  received_or_found (received_row 900%N "shop-1" "evt-1" "tenant-a" (demo_event px_completed) demo_sha 0)
    (outcome (demo_receive 900%N "evt-1" px_completed) demo_published_db)
    (commits (demo_receive 900%N "evt-1" px_completed) demo_published_db) ∧
  Forall (λ c, c.2 = c.1) (commits (demo_receive 901%N "evt-1" px_processing) demo_received_db).
Proof.
  assert (holds_event demo_stored demo_received_db) as Hh.
  { split; [apply system_ok_receive, system_ok_published|]. exists demo_stored.
    split; [vm_compute; reflexivity|reflexivity]. }
  split; [exact Hh|]. do 3 (split; [vm_compute; reflexivity|]). split.
  - exact (runs_outcome _ _ _ demo_published_db (proj1 (event_received_once idle_ambient demo_stored 900%N
      "tenant-a" (demo_event px_completed) demo_sha 0 steady_world_idle eq_refl)) system_ok_published).
  - exact (proj1 (runs_outcome _ _ _ demo_received_db (proj2 (event_received_once idle_ambient demo_stored 901%N
      "tenant-a" (demo_event px_processing) demo_sha 0 steady_world_idle eq_refl)) Hh)).
Defined.

(** * A run of the worker *)

(** One run of the callback worker, with other workers committing between any two of its
    steps and lease renewals racing its finalizers, keeps every component's promise, and the
    counters it returns are truthful: applied, duplicate, stale, retried and failed each stand
    for one commit that settled the claimed message that way, together with its aggregate;
    every claimed message is counted once. *)
Theorem inbox_run_truthful (amb : Ambient database) (worker_id : string) (batch_size : Z)
    (lease_seconds : float) (retry_delay : Q) (races : ClaimedInboxMessage → renewal_race)
    (locked : uuid → bool) :
  steady_world amb →
  runs amb system_ok (inbox_run_once worker_id batch_size lease_seconds retry_delay races locked)
    (λ r cs, Forall (λ c, steady c.1 c.2) cs ∧ ∀ x, r = Ok x →
       ∃ claimed vs, Forall2 (λ c v, callback_verdict c v cs) claimed vs ∧
         x = inbox_tally (Z.of_nat (length claimed)) vs ∧ iw_claimed x = Z.of_nat (length claimed) ∧
         iw_applied x + iw_duplicates x + iw_stale x + iw_retried x + iw_failed x + iw_lease_conflicts x
           + iw_errors x = iw_claimed x).
Proof.
  intros Hamb. eapply runs_weaken; [by apply inbox_run_once_runs|].
  intros r cs [Hs Hx]. split; [done|]. intros x ->. destruct Hx as (claimed & vs & Hv & ->).
  destruct (inbox_tally_counts _ _ (Z.of_nat (length claimed)) _ Hv) as [E1 E2].
  exists claimed, vs. by rewrite E1, E2.
Qed.

Definition demo_inbox_run (race : renewal_race) : M database InboxWorkerRunResult :=
  inbox_run_once "c1" 20 (Finite 90) 5%Q (λ _, race) (λ _, false).

Lemma inbox_run_truthful_witness :
  outcome (demo_inbox_run (mkRace 1 true true)) demo_received_db = Ok (mkInboxRunResult 1 1 0 0 0 0 0 0) ∧
  outcome (demo_inbox_run (mkRace 1 true false)) demo_received_db = Ok (mkInboxRunResult 1 0 0 0 0 0 1 0) ∧
  Forall (λ c, steady c.1 c.2) (commits (demo_inbox_run (mkRace 1 true true)) demo_received_db) ∧
  ∀ x, outcome (demo_inbox_run (mkRace 1 true true)) demo_received_db = Ok x →
    ∃ claimed vs, Forall2 (λ c v, callback_verdict c v
        (commits (demo_inbox_run (mkRace 1 true true)) demo_received_db)) claimed vs ∧
      x = inbox_tally (Z.of_nat (length claimed)) vs ∧ iw_claimed x = Z.of_nat (length claimed) ∧
      iw_applied x + iw_duplicates x + iw_stale x + iw_retried x + iw_failed x + iw_lease_conflicts x
        + iw_errors x = iw_claimed x.
Proof.
  do 2 (split; [vm_compute; reflexivity|]).
  exact (runs_outcome _ _ _ demo_received_db (inbox_run_truthful idle_ambient "c1" 20 (Finite 90) 5%Q
    (λ _, mkRace 1 true true) (λ _, false) steady_world_idle)
    (system_ok_receive _ _ _ _ system_ok_published)).
Defined.
