(* ===== verification/WebhookGuarantees.v ===== *)
(** The final theorems on signed webhooks: what a signature binds, what a verified request is,
    and what the route does with one. *)
From Stdlib Require Import QArith Qabs.
From S2P Require Import Prelude Effects OperationModels CaseModels Calendar Hmac Envelope InboxModels Retry Connections Database Transactions CaseRepository InboxRepository Webhook Steady InboxTransactions InboxWorkerSafety WebhookSafety OutboxGuarantees InboxGuarantees.

(** * Example deliveries *)

Definition demo_webhook_connection : ProviderWebhookConnection :=
  mkProviderWebhookConnection "shop-1" "tenant-a" "s3cret" (Finite DEFAULT_VALIDITY_WINDOW_SECONDS).
Definition demo_resolver : gmap string ProviderWebhookConnection := {["shop-1" := demo_webhook_connection]}.
Definition demo_envelope (data : ProviderWebhookEventData) : ProviderWebhookEnvelope :=
  mkWebhookEnvelope 1 "evt-1" "shop-1" "tenant-a" (seconds 1000) wh_command_status_changed data.

(** A library that reads every body as one envelope. *)
Definition demo_library (data : ProviderWebhookEventData) : WebhookLibrary :=
  mkWebhookLibrary (λ _, Ok (Some (demo_envelope data))) (λ _, "").

Definition demo_body : bytes := encode "{}".
Definition demo_signature : string :=
  Eval vm_compute in expected_signature (mkWebhookLibrary (λ _, Ok None) (λ _, "")) "s3cret" (seconds 1000) "evt-1" demo_body.

Definition demo_request_signed (signature : string) : Request :=
  mkRequest [("x-provider-event-id", "evt-1"); ("x-provider-timestamp", "1970-01-01T00:16:40Z");
             ("x-provider-signature", signature); ("content-type", "application/json; charset=utf-8")]
    [demo_body].
Definition demo_webhook_request : Request := demo_request_signed demo_signature.
Definition demo_forged_request : Request := demo_request_signed demo_sha.

(** * The route *)

(** C18: nothing enters the inbox unauthenticated: a request is accepted, and anything at all is
    written, only when each trust header stands in it exactly once, its body is within the
    limit, and it is genuine: signed over timestamp, event id and raw body with the secret of
    the connection its path names, received within that connection's window, and its body an
    envelope for that event, connection, timestamp and tenant; then the one commit of the call
    stores that event, under the tenant of the connection and with the hash of the raw body, or
    finds it stored. *)
Theorem webhook_authenticated (amb : Ambient database) (lib : WebhookLibrary)
    (resolver : gmap string ProviderWebhookConnection) (provider_connection_id : string) (request : Request) :
  steady_world amb →
  runs amb system_ok (receive_provider_webhook lib resolver provider_connection_id request)
    (λ r cs, (cs = [] ∧ r ≠ Ok accepted_response) ∨
      (Forall (λ h, length (getlist request h) = 1%nat) protected_headers ∧
       body_size (rq_chunks request) ≤ MAX_BODY_BYTES ∧
       event_stored amb lib resolver provider_connection_id (selected_headers request)
         (mjoin (rq_chunks request)) cs)).
Proof. apply receive_provider_webhook_runs. Qed.

Definition demo_receive_webhook (request : Request) : M database JSONResponse :=
  receive_provider_webhook (demo_library (demo_event px_completed)) demo_resolver "shop-1" request.

Lemma webhook_authenticated_witness :
  outcome (demo_receive_webhook demo_webhook_request) demo_published_db = Ok accepted_response ∧
  im_event_id <$> rows (inbox_messages (inbox (after (demo_receive_webhook demo_webhook_request) demo_published_db)))
    = ["evt-1"] ∧
  outcome (demo_receive_webhook demo_forged_request) demo_published_db =
    Ok (problem 401 "Unauthorized provider webhook.") ∧
  commits (demo_receive_webhook demo_forged_request) demo_published_db = [] ∧
  ((commits (demo_receive_webhook demo_webhook_request) demo_published_db = [] ∧
    outcome (demo_receive_webhook demo_webhook_request) demo_published_db ≠ Ok accepted_response) ∨
   (Forall (λ h, length (getlist demo_webhook_request h) = 1%nat) protected_headers ∧
    body_size (rq_chunks demo_webhook_request) ≤ MAX_BODY_BYTES ∧
    event_stored idle_ambient (demo_library (demo_event px_completed)) demo_resolver "shop-1"
      (selected_headers demo_webhook_request) (mjoin (rq_chunks demo_webhook_request))
      (commits (demo_receive_webhook demo_webhook_request) demo_published_db))).
Proof.
  do 4 (split; [vm_compute; reflexivity|]).
  exact (runs_outcome _ _ _ demo_published_db (webhook_authenticated idle_ambient
    (demo_library (demo_event px_completed)) demo_resolver "shop-1" demo_webhook_request steady_world_idle)
    system_ok_published).
Defined.

(** C19: verification is exact: with a validated connection, a request yields an envelope just
    when it is genuine; in particular whoever holds the secret is never refused, and what is
    signed is the instant the timestamp header denotes, not its text. *)
Theorem verify_and_decode_exact (lib : WebhookLibrary) (connection : ProviderWebhookConnection)
    (provider_connection_id : string) (headers : string → option string) (raw_body : bytes) (now : instant)
    (e : ProviderWebhookEnvelope) :
  ProviderWebhookConnection_validate connection = Ok connection →
  verify_and_decode lib connection provider_connection_id headers raw_body now = Ok e ↔
  genuine lib connection provider_connection_id headers raw_body now e.
Proof.
  intros Hc. split; [apply verify_and_decode_genuine|by apply genuine_verify_and_decode].
Qed.

Lemma verify_and_decode_exact_witness :
  (∀ text, text ∈ ["1970-01-01T00:16:40Z"; "1970-1-1t0:16:40z"] →
   verify_and_decode (demo_library (demo_event px_completed)) demo_webhook_connection "shop-1"
     (λ h, if String.eqb h "x-provider-timestamp" then Some text else selected_headers demo_webhook_request h)
     demo_body (seconds 1300) = Ok (demo_envelope (demo_event px_completed))) ∧
  genuine (demo_library (demo_event px_completed)) demo_webhook_connection "shop-1"
    (selected_headers demo_webhook_request) demo_body (seconds 1300) (demo_envelope (demo_event px_completed)).
Proof.
  split; [|refine (proj1 (verify_and_decode_exact _ demo_webhook_connection _ _ _ _ _ eq_refl) _); vm_compute; reflexivity].
  intros text [->|[->|[]%elem_of_nil]%elem_of_cons]%elem_of_cons; vm_compute; reflexivity.
Defined.

(** * Signatures *)

(** What a signature binds: between timestamps in the years 1000 to 9999, equal canonical
    payloads have the same second and the same text from the event id on; when the event ids
    have no dot, also the same event id and the same body, so no two requests with such ids
    share a payload. *)
Theorem canonical_payload_binds (early_year : Z → string) (t t' : instant) (event_id event_id' : string)
    (raw_body raw_body' p : bytes) :
  in_calendar t → in_calendar t' → 1000 ≤ cv_year (civil_of t) → 1000 ≤ cv_year (civil_of t') →
  build_canonical_payload early_year (Aware t) event_id raw_body = Ok p →
  build_canonical_payload early_year (Aware t') event_id' raw_body' = Ok p →
  t / microseconds_per_second = t' / microseconds_per_second ∧
  encode (event_id +:+ ".") ++ raw_body = encode (event_id' +:+ ".") ++ raw_body' ∧
  (has_char "." event_id = false → has_char "." event_id' = false →
   event_id = event_id' ∧ raw_body = raw_body').
Proof.
  intros Ht Ht' Hy Hy' ->%payload_shape H%payload_shape.
  apply dotted_prefix_inj in H as [Hs Hr]; [|by apply strftime_no_dot..].
  split; [by eapply strftime_inj|]. split; [done|]. intros Hd Hd'. by apply dotted_prefix_inj in Hr.
Qed.

(** With dots in the event ids, two different requests share a payload, and so a signature. *)
Lemma canonical_payload_binds_witness :
  build_canonical_payload (λ _, "") (Aware (seconds 1000)) "evt.1" (encode "{}") =
    build_canonical_payload (λ _, "") (Aware (seconds 1000)) "evt" (encode "1.{}") ∧
  (seconds 1000 / microseconds_per_second = (seconds 1000 + 7) / microseconds_per_second ∧
   encode ("evt" +:+ ".") ++ demo_body = encode ("evt" +:+ ".") ++ demo_body ∧
   (has_char "." "evt" = false → has_char "." "evt" = false → "evt" = "evt" ∧ demo_body = demo_body)).
Proof.
  split; [vm_compute; reflexivity|].
  refine (canonical_payload_binds (λ _, "") (seconds 1000) (seconds 1000 + 7) "evt" "evt" demo_body demo_body
    (match build_canonical_payload (λ _, "") (Aware (seconds 1000)) "evt" demo_body with Ok p => p | Err _ => [] end)
    _ _ _ _ _ _).
  1, 2: split; vm_compute; discriminate.
  1, 2: vm_compute; discriminate.
  all: vm_compute; reflexivity.
Defined.

(** The window is exact: although the age of a request is computed in floating point, a
    window of whole seconds, up to 68 years, accepts a correctly signed request exactly while
    the clock is within that many seconds of its timestamp, in either direction, to the
    microsecond; and a wrong signature is refused whatever the age, without an error. *)
Theorem signature_window_exact (early_year : Z → string) (secret : bytes) (t n : instant) (event_id : string)
    (raw_body : bytes) (signature : string) (window : Z) :
  secret ≠ [] → nonempty (strip event_id) = true → 0 < window ≤ 2 ^ 31 → Z.abs (n - t) < 2 ^ 72 →
  signature_is_valid early_year secret (Aware t) event_id raw_body signature (Aware n) (Finite (inject_Z window)) =
    let* expected := compute_signature early_year secret (Aware t) event_id raw_body in
    Ok (String.eqb signature expected && (Z.abs (n - t) <=? seconds window)).
Proof.
  intros Hs He Hw Hn. erewrite signature_is_valid_aware; [|done| |by apply build_canonical_payload_aware].
  - rewrite whole_window_exact by lia.
    unfold compute_signature, require_secret. rewrite build_canonical_payload_aware by done.
    rewrite (bool_decide_eq_false_2 _ Hs). cbn [raise_if res_bind]. do 2 f_equal.
    apply eq_iff_eq_true. by rewrite bool_decide_eq_true, String.eqb_eq.
  - unfold Qle_bool. cbn. lia.
Qed.

Lemma signature_window_exact_witness :
  signature_is_valid (λ _, "") (encode "s3cret") (Aware (seconds 1000)) "evt-1" demo_body demo_signature
    (Aware (seconds 1300)) (Finite DEFAULT_VALIDITY_WINDOW_SECONDS) = Ok true ∧
  signature_is_valid (λ _, "") (encode "s3cret") (Aware (seconds 1000)) "evt-1" demo_body demo_signature
    (Aware (seconds 1300 + 1)) (Finite (inject_Z 300)) =
    (let* expected := compute_signature (λ _, "") (encode "s3cret") (Aware (seconds 1000)) "evt-1" demo_body in
     Ok (String.eqb demo_signature expected && (Z.abs (seconds 1300 + 1 - seconds 1000) <=? seconds 300))) ∧
  Z.abs (seconds 1300 + 1 - seconds 1000) <=? seconds 300 = false.
Proof.
  split; [vm_compute; reflexivity|]. split; [|reflexivity].
  apply (signature_window_exact (λ _, "") (encode "s3cret") (seconds 1000) (seconds 1300 + 1) "evt-1" demo_body
    demo_signature 300); [discriminate|reflexivity|lia|reflexivity].
Defined.
