(* ===== verification/System.v ===== *)
(** The system as a whole: callers of the two services, turns of the
    conversation, operators at the console, the fallback for unreachable providers, delivery workers, callback workers and whoever posts to
    the webhook route, committing between any two of each other's database round trips, and
    nobody else.  What every reachable database satisfies needs no assumption on an
    environment any more. *)
From S2P Require Import Prelude Effects Auth OperationModels OperationPolicy CaseModels Conversation Envelope InboxModels Retry Connections Database RedrivePolicy Transactions Messaging CaseRepository Refunds CaseService CaseSafety CaseGuarantees OperationRepository OperationService OperationSafety OperationTheorems OperationGuarantees OutboxWrites Finalization InboxWrites OutboxRepository InboxRepository InboxFinalizer Webhook ProviderFailure Nodes ProviderViews ProviderRedrive OutboxSafety OutboxTransactions FinalizationSafety InboxSafety Steady ProviderFailureSafety DeliverySafety WorkerSafety InboxTransactions SystemSafety CallbackSafety InboxWorkerSafety WebhookSafety RedriveSafety TurnSafety TurnNodes OutboxGuarantees.

(** * Calls *)

(** One round of a delivery worker, with what it is configured with and what it meets. *)
Record worker_round := mkWorkerRound {
  wk_id : string;
  wk_batch_size : Z;
  wk_lease_seconds : float;
  wk_lookup : ConnectionLookup;
  wk_transport : CommandTransport;
  wk_renewals : ClaimedOutboxMessage → nat;
  wk_random : option float;
  wk_locked : uuid → bool;
  wk_recovery_due : bool;
}.

(** One round of a callback worker. *)
Record callback_round := mkCallbackRound {
  cb_id : string;
  cb_batch_size : Z;
  cb_lease_seconds : float;
  cb_retry_delay : Q;
  cb_races : ClaimedInboxMessage → renewal_race;
  cb_locked : uuid → bool;
  cb_recovery_due : bool;
}.

Inductive system_call :=
  | SysCase (n : nat) (directory : option IdentityDirectory) (s : AccessScope) (call : case_call)
  | SysOperation (n : nat) (provider : OrderProvider) (s : AccessScope) (call : operation_call)
  | SysRound (round : worker_round)
  | SysCallbacks (round : callback_round)
  | SysReceive (lib : WebhookLibrary) (resolver : gmap string ProviderWebhookConnection)
      (provider_connection_id : string) (request : Request)
  | SysConsole (s : AccessScope) (call : console_call)
  | SysFallback (coordinated : bool) (s : AccessScope) (operation_id : uuid) (request_id : string)
  | SysTurn (ctx : TurnContext) (state : RefundState).

Definition run_round (k : worker_round) : M database WorkerRunResult :=
  dispatch_round (wk_id k) (wk_batch_size k) (wk_lease_seconds k) (wk_lookup k) (wk_transport k)
    (wk_renewals k) (wk_random k) (wk_locked k) (wk_recovery_due k).

Definition run_callbacks (k : callback_round) : M database InboxWorkerRunResult :=
  inbox_round (cb_id k) (cb_batch_size k) (cb_lease_seconds k) (cb_retry_delay k) (cb_races k)
    (cb_locked k) (cb_recovery_due k).

Definition run_system_call (c : system_call) : M database unit :=
  match c with
  | SysCase n directory s call => run_case_call n directory s call;, ret tt
  | SysOperation n provider s call => run_operation_call n provider s call;, ret tt
  | SysRound k => run_round k;, ret tt
  | SysCallbacks k => run_callbacks k;, ret tt
  | SysReceive lib resolver c request => receive_provider_webhook lib resolver c request;, ret tt
  | SysConsole s call => run_console_call s call;, ret tt
  | SysFallback b s i q => move_to_provider_manual_review b s i q;, ret tt
  | SysTurn ctx state => run_turn ctx state;, ret tt
  end.

(** What is assumed of the order provider a call talks to. *)
Definition external_ok (c : system_call) : Prop :=
  match c with
  | SysOperation _ provider _ _ => provider_identifies provider
  | _ => True
  end.

Lemma system_call_honest amb c :
  steady_world amb → external_ok c → honest amb system_ok (run_system_call c).
Proof.
  intros Hamb Hext. destruct c as [n dir s call|n prov s call|k|k|lib res c req|s call|b s i q|ctx state]; cbn [run_system_call];
    (apply honest_bind; [|intros; by apply honest_ret]).
  - by apply case_call_honest.
  - by apply operation_call_honest.
  - by apply dispatch_round_honest.
  - by apply inbox_round_honest.
  - by apply receive_provider_webhook_honest.
  - apply console_call_honest; [done|apply _].
  - eapply runs_weaken; [by apply move_to_manual_review_runs|]. intros r cs. apply fallback_ending_steady.
  - eapply runs_weaken; [by apply turns_run_turn|]. intros r cs [Hc _].
    eapply Forall_impl; [exact Hc|]. by intros x [].
Qed.

(** * Executions *)

(** [system_reaches d d']: the system can take the database from [d] to [d'].  One step is
    a commit of one call; what that call meets between its round trips is again nothing
    but commits of the system. *)
Inductive system_reaches : database → database → Prop :=
  | sr_idle d : system_reaches d d
  | sr_commit d d' d'' amb c w r w' cs :
      (∀ n x, system_reaches x (interfere amb n x)) → external_ok c →
      system_reaches empty_db (w_db w) → run_system_call c amb w = (r, w') →
      w_log w' = w_log w ++ cs → (d, d') ∈ cs →
      system_reaches d' d'' → system_reaches d d''.

Lemma system_reaches_steady d d' : system_reaches d d' → steady d d'.
Proof.
  induction 1 as [d|d d' d'' amb c w r w' cs _ Hamb Hext _ Hw Hrun Hlog Hin _ IH]; [reflexivity|].
  etrans; [|exact IH].
  assert (system_ok (w_db w)) as Hok by (by eapply system_ok_steady; [apply system_ok_empty|]).
  destruct (system_call_honest amb c Hamb Hext w r w' Hok Hrun) as (_ & cs' & Hlog' & Hs).
  rewrite Hlog in Hlog'. apply app_inv_head in Hlog' as <-.
  rewrite Forall_forall in Hs. by apply (Hs (d, d')).
Qed.

Definition reachable : database → Prop := system_reaches empty_db.

Lemma reachable_ok d : reachable d → system_ok d.
Proof. intros H%system_reaches_steady. eapply system_ok_steady; [apply system_ok_empty|done]. Qed.

Lemma system_reaches_trans d1 d2 d3 : system_reaches d1 d2 → system_reaches d2 d3 → system_reaches d1 d3.
Proof. induction 1 as [|d d' d'' amb c w r w' cs]; [done|]. intros. econstructor; eauto. Qed.

(** * The state after a call is reachable *)

Definition anything (d d' : database) : Prop := True.

Lemma only_in_transaction {A} pe handler (t : Tx A) :
  only_commits anything (in_transaction pe handler t).
Proof. by apply only_tx. Qed.

#[export] Hint Resolve only_in_transaction : calls.

Lemma only_anything {A} R (m : M database A) : only_commits R m → only_commits anything m.
Proof. by apply only_weaken. Qed.

Lemma only_renew_while lease n k l w : only_commits anything (renew_while lease n k l w).
Proof. induction n as [|n IH]; cbn; unfold renew_outbox_lease; call_walk. Qed.

Lemma only_send_command transport connection command :
  only_commits anything (send_command transport connection command).
Proof. unfold send_command. call_walk. by apply only_transact. Qed.

#[export] Hint Resolve only_renew_while only_send_command : calls.

Lemma only_process lease lookup transport renewals random c :
  only_commits anything (process lease lookup transport renewals random c).
Proof.
  unfold process, dispatch, send_with_lease_renewal, outcome_of, accepted, rejected, handle_failure,
    schedule_outbox_retry, terminally_fail, terminal_failure, finalize. call_walk.
Qed.
#[export] Hint Resolve only_process : calls.

Lemma only_gather lease lookup transport renewals random l :
  only_commits anything (gather lease lookup transport renewals random l).
Proof. induction l as [|c l IH]; cbn; unfold outcome_of; call_walk. Qed.
#[export] Hint Resolve only_gather : calls.

Lemma only_renew_inbox_while lease n k l w : only_commits anything (renew_inbox_while lease n k l w).
Proof. induction n as [|n IH]; cbn; unfold renew_inbox_lease; call_walk. Qed.
#[export] Hint Resolve only_renew_inbox_while : calls.

Lemma only_gather_callbacks lease delay races l : only_commits anything (gather_callbacks lease delay races l).
Proof.
  induction l as [|c l IH]; cbn; [call_walk|]. unfold process_callback, finalize_with_lease_renewal,
    finalize_order_operation, finalize_support_case, with_inbox_lease, outcome_of, renew_inbox_lease. call_walk.
Qed.
#[export] Hint Resolve only_gather_callbacks : calls.

Lemma only_audit_conflict {A} `{RedriveRow A} (stored : database → gmap uuid A) c s target request e :
  match audit_conflict stored c s target request e with
  | Some k => only_commits anything k
  | None => True
  end.
Proof. destruct e; try done. cbn. unfold read. call_walk. Qed.

Lemma only_console_call s c : only_commits anything (run_console_call s c).
Proof.
  destruct c; cbn [run_console_call]; (apply only_bind; [|intros; apply only_ret]).
  - unfold get_queue_overview, repo_get_queue_overview, server_time, read. call_walk.
  - unfold get_attempt_activity, repo_get_attempt_activity, server_time, read. call_walk.
  - unfold get_outbox_detail, repo_get_outbox_detail, read. call_walk.
  - unfold get_inbox_detail, repo_get_inbox_detail, read. call_walk.
  - unfold redrive_outbox, repo_redrive_outbox, read. call_walk. apply only_audit_conflict.
  - unfold redrive_inbox, repo_redrive_inbox, read. call_walk. apply only_audit_conflict.
Qed.

Lemma only_move_attempts s i q n : only_commits anything (move_attempts s i q n).
Proof.
  induction n as [|n IH]; cbn [move_attempts]; [apply only_raise|]. apply only_try.
  - unfold move_once. call_walk.
  - intros e. destruct e; try done. destruct (_ || _); [apply only_raise|exact IH].
Qed.

(** A turn of the conversation. *)
#[local] Hint Extern 2 (only_commits anything (record_handoff _ _ _ _)) =>
  eapply only_anything, only_record_handoff : calls.
#[local] Hint Extern 2 (only_commits anything (record_delivery_investigation ?n ?s ?t ?d ?issue ?conn)) =>
  eapply only_anything, (only_case_call n None s (CallInvestigation t d issue conn)) : calls.
#[local] Hint Extern 2 (only_commits anything (create_refund _ _)) =>
  eapply only_anything, only_create_refund : calls.
#[local] Hint Extern 2 (only_commits anything (create_pending_operation ?n ?s ?r ?o ?d ?e)) =>
  eapply only_anything, (only_operation_call n demo_provider s (CallCreate r o d e)) : calls.
#[local] Hint Extern 2 (only_commits anything (confirm_operation ?n ?s ?i ?r)) =>
  eapply only_anything, (only_operation_call n demo_provider s (CallConfirm i r)) : calls.
#[local] Hint Extern 2 (only_commits anything (cancel_pending_operation ?n ?s ?i ?r)) =>
  eapply only_anything, (only_operation_call n demo_provider s (CallCancel i r)) : calls.
#[local] Hint Extern 2 (only_commits anything (queue_confirmed_operation ?s ?i ?r ?c)) =>
  eapply only_anything, (only_operation_call 1 demo_provider s (CallQueue i r c)) : calls.
#[local] Hint Extern 2 (only_commits anything (attach_support_case ?n ?s ?i ?c ?r)) =>
  eapply only_anything, (only_operation_call n demo_provider s (CallAttach i c r)) : calls.
#[local] Hint Resolve only_move_attempts : calls.

Lemma only_run_node ctx n s : only_commits anything (run_node ctx n s).
Proof.
  destruct n; cbn [run_node]; unfold branch, then_, choose, obey, search_order_node, check_refund_eligibility_node,
    today, create_refund_node, support_case_status_node, service_list_cases, list_cases, finalize_case_handoff,
    attach_operation_case, evaluate_operation_request, persist_or_respond, submit_confirmed_operation_node,
    move_to_provider_manual_review, move_to_manual_review, confirm_manual_operation, cancel_operation; call_walk.
Qed.

Lemma only_run_from ctx steps n s : only_commits anything (run_from ctx steps n s).
Proof.
  revert n s. induction steps as [|steps IH]; intros n s; cbn [run_from]; [apply only_ret|].
  apply only_bind; [apply only_run_node|]. intros [s' [n'| |q]]; cbn; [apply IH|apply only_ret..].
Qed.

Lemma only_receive_provider_webhook lib resolver c request :
  only_commits anything (receive_provider_webhook lib resolver c request).
Proof.
  unfold receive_provider_webhook, accept_event, receive_inbox_idempotently.
  destruct (check_headers request); [call_walk|]. destruct (read_stream _ _ _); [|call_walk].
  apply only_try; [call_walk|]. intros e. destruct (response_to e); cbn; [apply only_ret|done].
Qed.

Lemma only_system_call c : only_commits anything (run_system_call c).
Proof.
  destruct c as [n dir s call|n prov s call|k|k|lib res c req|s call|b s i q|ctx state]; cbn [run_system_call]; apply only_bind; try apply only_ret;
    try (intros; apply only_ret).
  - eapply only_anything, only_case_call.
  - eapply only_anything, only_operation_call.
  - unfold run_round, dispatch_round, run_once, gather_batch, claim_due_outbox, recover_expired_outbox_leases. call_walk.
  - unfold run_callbacks, inbox_round, inbox_run_once, claim_due_inbox, recover_expired_inbox_leases. call_walk.
  - apply only_receive_provider_webhook.
  - apply only_console_call.
  - unfold move_to_provider_manual_review, move_to_manual_review. call_walk.
  - unfold run_turn. exact (only_run_from ctx RECURSION_LIMIT check_risk_rules_n state).
Qed.

Lemma reachable_after amb c w :
  (∀ n x, system_reaches x (interfere amb n x)) → external_ok c → reachable (w_db w) →
  reachable (w_db (run_system_call c amb w).2).
Proof.
  intros Hamb Hext Hw. destruct (run_system_call c amb w) as [r w'] eqn:Hrun. cbn.
  assert (rely amb reachable) as Hrely by (intros n x Hx; by eapply system_reaches_trans).
  destruct (only_system_call c amb reachable w r w' Hrely Hrun) as (cs & Hlog & _ & Hkeep).
  apply Hkeep; [|done]. rewrite Forall_forall. intros [d d'] Hin Hd. cbn in *.
  eapply system_reaches_trans; [exact Hd|]. eapply sr_commit; [exact Hamb|exact Hext|done..|constructor].
Qed.

(** One worker at a time. *)
Lemma reachable_next c d : external_ok c → reachable d → reachable (after (run_system_call c) d).
Proof.
  intros Hext Hd. apply (reachable_after idle_ambient c (start d)); [|done..]. intros n x. constructor.
Qed.

(** * What every reachable database satisfies *)

(** C1: the components keep what they assume of one another: in a system of service callers,
    turns of the conversation, console operators, delivery workers, callback workers and arbitrary
    requests to the webhook route that interleave at every database round trip, every reachable
    database satisfies the invariants of the cases, the operations, the outbox and the inbox, and every execution lets rows only evolve: no case,
    operation, command or event is deleted or loses its identity, and nothing returns to an
    earlier version or delivery state. *)
Theorem system_invariant (d : database) :
  reachable d → system_ok d ∧ ∀ d', system_reaches d d' →
    system_ok d' ∧ cases_evolve d d' ∧ operations_evolve d d' ∧ outbox_evolve d d' ∧
    inbox_evolve (inbox d) (inbox d').
Proof.
  intros Hd. pose proof (reachable_ok d Hd) as Hok. split; [done|].
  intros d' Hr. pose proof (system_reaches_steady _ _ Hr) as [_ Hc Ho Hb Hi].
  destruct Hok as [H1 H2 H3 H4]. split; [split; [by apply Hc|by apply Ho|by apply Hb|by apply Hi]|].
  split_and!; [by apply Hc|by apply Ho|by apply Hb|by apply Hi].
Qed.

Definition demo_create_call : system_call :=
  SysOperation 3 demo_provider (demo_scope customer)
    (CallCreate demo_request demo_snapshot demo_return_decision "please take it back").
Definition demo_queue_call : system_call :=
  SysOperation 3 demo_provider (demo_scope customer) (CallQueue demo_op_id "r1" "shop-1").
Definition demo_round_call : system_call :=
  SysRound (mkWorkerRound "w1" 20 (Finite 90) demo_lookup demo_accepting (λ _, 1%nat) (Some (Finite 0))
    (λ _, false) true).
Definition demo_history (calls : list system_call) : database :=
  fold_left (λ d c, after (run_system_call c) d) calls empty_db.

Lemma reachable_history calls : Forall external_ok calls → reachable (demo_history calls).
Proof.
  unfold demo_history. assert (reachable empty_db) as H by constructor. revert H.
  generalize empty_db. induction calls as [|c calls IH]; intros d Hd HF; cbn; [done|].
  apply Forall_cons in HF as [Hc HF]. apply IH; [|done]. by apply reachable_next.
Qed.

Definition demo_delivered_db : database := demo_history [demo_create_call; demo_queue_call; demo_round_call].

Lemma reachable_delivered : reachable demo_delivered_db.
Proof. apply reachable_history. repeat constructor; apply demo_provider_identifies. Qed.

Lemma system_invariant_witness :
  (om_status <$> rows (outbox_messages demo_delivered_db)) = [ob_published] ∧
  system_ok demo_delivered_db ∧ ∀ d', system_reaches demo_delivered_db d' →
    system_ok d' ∧ cases_evolve demo_delivered_db d' ∧ operations_evolve demo_delivered_db d' ∧
    outbox_evolve demo_delivered_db d' ∧ inbox_evolve (inbox demo_delivered_db) (inbox d').
Proof. split; [vm_compute; reflexivity|]. exact (system_invariant _ reachable_delivered). Defined.

(** C14: the provider never acts on an unconfirmed request: every command it has received
    over the outbox is a stored message, byte for byte, and one for an order operation
    belongs to an operation of the same tenant that left pending confirmation, and carries
    the order version the customer was shown. *)
Theorem provider_receives_only_confirmed_commands (d : database) :
  reachable d → ∀ c, c ∈ provider_deliveries d →
    (∃ m, outbox_messages d !! e_command_id c = Some m ∧ to_envelope m = Ok c) ∧
    (e_aggregate_type c = ag_order_operation →
     ∃ o, order_operations d !! e_aggregate_id c = Some o ∧ oo_status o ≠ os_pending_confirmation ∧
       e_tenant_id c = oo_tenant_id o ∧ e_expected_order_version c = Some (oo_order_version o)).
Proof.
  intros Hd c Hc. destruct (reachable_ok d Hd) as [_ Ho Hb _].
  destruct (ob_delivered d Hb c Hc) as (m & Hm & <-). split.
  - exists m. split; [done|]. by eapply ob_envelope.
  - intros Hty. destruct (odb_commands d Ho _ m Hm Hty) as (o & ? & ? & ? & ?). by exists o.
Qed.

Lemma provider_receives_only_confirmed_commands_witness :
  length (provider_deliveries demo_delivered_db) = 1%nat ∧
  ∀ c, c ∈ provider_deliveries demo_delivered_db →
    (∃ m, outbox_messages demo_delivered_db !! e_command_id c = Some m ∧ to_envelope m = Ok c) ∧
    (e_aggregate_type c = ag_order_operation →
     ∃ o, order_operations demo_delivered_db !! e_aggregate_id c = Some o ∧
       oo_status o ≠ os_pending_confirmation ∧
       e_tenant_id c = oo_tenant_id o ∧ e_expected_order_version c = Some (oo_order_version o)).
Proof.
  split; [vm_compute; reflexivity|].
  exact (provider_receives_only_confirmed_commands _ reachable_delivered).
Defined.

(** The attempts of message [k] in delivery cycle [cycle], and those still open. *)
Definition attempts_of (k : uuid) (cycle : Z) (d : database) : list OutboxDeliveryAttempt :=
  filter (λ a, da_command_id a = k ∧ da_delivery_cycle a = cycle) (rows (outbox_delivery_attempts d)).
Definition open_attempts_of (k : uuid) (d : database) : list OutboxDeliveryAttempt :=
  filter (λ a, da_command_id a = k ∧ da_finished_at a = None) (rows (outbox_delivery_attempts d)).

Lemma stored_attempt d a : a ∈ rows (outbox_delivery_attempts d) → schema_ok d →
  outbox_delivery_attempts d !! da_attempt_id a = Some a.
Proof. intros [i Hi]%elem_of_rows Hs. by rewrite (so_attempt_id d Hs i a Hi). Qed.

Lemma attempt_numbers_NoDup d k cycle :
  schema_ok d → NoDup (da_attempt_number <$> attempts_of k cycle d).
Proof.
  intros Hs. apply NoDup_fmap_2_strong.
  - intros a b [[Ha1 Ha2] Ha]%list_elem_of_filter [[Hb1 Hb2] Hb]%list_elem_of_filter Hn.
    apply stored_attempt in Ha, Hb; [|done..].
    assert (da_attempt_id a = da_attempt_id b) as E.
    { eapply (so_attempt_number d Hs); [exact Ha|exact Hb|done|]. unfold attempt_number_key. congruence. }
    rewrite E in Ha. congruence.
  - apply NoDup_filter, (NoDup_fmap_1 da_attempt_id), rows_keys_NoDup. intros i a Hi. by eapply so_attempt_id.
Qed.

Lemma NoDup_range_length (l : list Z) (n : Z) :
  0 ≤ n → NoDup l → (∀ x, x ∈ l → 1 ≤ x ≤ n) → Z.of_nat (length l) ≤ n.
Proof.
  intros Hn Hnd Hl. assert (l ⊆+ seqZ 1 n) as Hs.
  { apply NoDup_submseteq; [done|]. intros x Hx%Hl. apply elem_of_seqZ. lia. }
  apply submseteq_length in Hs. rewrite length_seqZ in Hs. lia.
Qed.

(** C13: delivery is bounded and exclusive: in every reachable database each message has been
    attempted at most eight times in any delivery cycle, under distinct attempt numbers, and
    at most one attempt of a message is open; it is open exactly while the message is
    processing, and carries the lease, the owner and the attempt count of the message. *)
Theorem attempts_bounded_and_exclusive (d : database) :
  reachable d → ∀ k,
    (∀ cycle, Z.of_nat (length (attempts_of k cycle d)) ≤ 8 ∧
       NoDup (da_attempt_number <$> attempts_of k cycle d)) ∧
    (length (open_attempts_of k d) ≤ 1)%nat ∧
    (∀ a, a ∈ open_attempts_of k d → ∃ m, outbox_messages d !! k = Some m ∧ fits m a) ∧
    (∀ m, outbox_messages d !! k = Some m → om_status m = ob_processing →
       ∃ a, open_attempts_of k d = [a] ∧ fits m a).
Proof.
  intros Hd k. destruct (reachable_ok d Hd) as [_ _ Hb _]. pose proof (ob_schema d Hb) as Hs.
  assert (length (open_attempts_of k d) ≤ 1)%nat as Hone.
  { destruct (open_attempts_of k d) as [|a [|b l]] eqn:E; cbn; [lia..|]. exfalso.
    assert (NoDup (da_attempt_id <$> open_attempts_of k d)) as Hnd.
    { apply NoDup_fmap_filter, rows_keys_NoDup. intros i x Hi. by eapply so_attempt_id. }
    assert (a ∈ open_attempts_of k d ∧ b ∈ open_attempts_of k d) as [Ha Hbb] by (rewrite E; set_solver).
    rewrite E in Hnd. apply list_elem_of_filter in Ha as [[Ha1 Ha2] Ha], Hbb as [[Hb1 Hb2] Hbb].
    apply stored_attempt in Ha, Hbb; [|done..].
    destruct (open_attempt_unique d _ _ a b Hb Ha Hbb Ha2 Hb2) as [_ ->]; [congruence|].
    cbn in Hnd. apply NoDup_cons in Hnd as [Hnd _]. apply Hnd. set_solver. }
  split_and!; [|done|..].
  - intros cycle. pose proof (attempt_numbers_NoDup d k cycle Hs) as Hnd. split; [|done].
    rewrite <- (length_fmap da_attempt_number). apply NoDup_range_length; [lia|done|].
    intros x (a & -> & [_ Ha]%list_elem_of_filter)%list_elem_of_fmap.
    apply stored_attempt in Ha; [|done]. by eapply ob_bounded.
  - intros a [[<- Hopen] Ha]%list_elem_of_filter. apply stored_attempt in Ha; [|done]. by eapply ob_open.
  - intros m Hm Hp. destruct (ob_leased d Hb k m Hm Hp) as (i & a & Ha & Hopen & Hf).
    assert (a ∈ open_attempts_of k d) as Hin.
    { apply list_elem_of_filter. split; [|by apply elem_of_rows; exists i]. split; [|done].
      rewrite (proj1 (proj2 Hf)). by eapply outbox_id. }
    exists a. split; [|done]. destruct (open_attempts_of k d) as [|x [|]]; cbn in Hone; [set_solver| |lia].
    f_equal. set_solver.
Qed.

Definition demo_claim_round_call : system_call :=
  SysRound (mkWorkerRound "w1" 20 (Finite 90) demo_lookup demo_far_future (λ _, 1%nat) (Some (Finite 0))
    (λ _, false) true).
Definition demo_stuck_db : database := demo_history [demo_create_call; demo_queue_call; demo_claim_round_call].

Lemma reachable_stuck : reachable demo_stuck_db.
Proof. apply reachable_history. repeat constructor; apply demo_provider_identifies. Qed.

Lemma attempts_bounded_and_exclusive_witness :
  length (open_attempts_of 155%N demo_stuck_db) = 1%nat ∧ ∀ k,
    (∀ cycle, Z.of_nat (length (attempts_of k cycle demo_stuck_db)) ≤ 8 ∧
       NoDup (da_attempt_number <$> attempts_of k cycle demo_stuck_db)) ∧
    (length (open_attempts_of k demo_stuck_db) ≤ 1)%nat ∧
    (∀ a, a ∈ open_attempts_of k demo_stuck_db →
       ∃ m, outbox_messages demo_stuck_db !! k = Some m ∧ fits m a) ∧
    (∀ m, outbox_messages demo_stuck_db !! k = Some m → om_status m = ob_processing →
       ∃ a, open_attempts_of k demo_stuck_db = [a] ∧ fits m a).
Proof.
  split; [vm_compute; reflexivity|]. exact (attempts_bounded_and_exclusive _ reachable_stuck).
Defined.
