(* ===== verification/RedriveGuarantees.v ===== *)
(** The final theorems on redrives by hand: each is one audited commit, a repeated request
    changes nothing, and every failure has its response. *)
From S2P Require Import Prelude Effects Auth OperationModels CaseModels Envelope InboxModels Retry Connections Database RedrivePolicy Transactions Messaging CaseRepository CaseSafety OperationRepository OperationService OperationSafety OperationGuarantees OutboxWrites Finalization InboxWrites OutboxRepository InboxRepository InboxFinalizer Webhook ProviderFailure ProviderViews ProviderRedrive OutboxSafety FinalizationSafety InboxSafety Steady ProviderFailureSafety DeliverySafety InboxTransactions RedriveSafety OutboxGuarantees InboxGuarantees WebhookGuarantees System.

(** * Either queue *)

(** What a call raises, besides what it commits. *)
Lemma runs_errors {A} amb I (m : M database A) Q P :
  runs amb I m Q → (∀ w e w', I (w_db w) → m amb w = (Err e, w') → P e) →
  runs amb I m (λ r cs, Q r cs ∧ ∀ e, r = Err e → P e).
Proof.
  intros Hm He w r w' Hw Hr. destruct (Hm w r w' Hw Hr) as (HI & cs & Hl & HQ).
  split; [done|]. exists cs. split; [done|]. split; [done|]. intros e ->. exact (He w e w' Hw Hr).
Qed.

Definition unchanged (cs : list (database * database)) : Prop := Forall (λ c, c.2 = c.1) cs.

(** A recorded request is the one its lookup finds. *)
Lemma audit_for_request_recorded {A} `{RedriveRow A} cycles (rows : gmap uuid A) i r :
  audit_ok cycles rows → rows !! i = Some r →
  audit_for_request (redrive_tenant r) (redrive_request r) rows = Some r.
Proof.
  intros Hok Hr. destruct (audit_for_request _ _ rows) as [x|] eqn:E.
  - apply audit_for_request_Some in E as ([j Hj] & E1 & E2). assert (j = i) as ->; [|congruence].
    eapply (au_request _ _ Hok); [exact Hj|exact Hr|done|]. unfold redrive_request_key. congruence.
  - by eapply audit_for_request_None in E.
Qed.

Section Queue.
Context {A} `{RedriveRow A} (stored : database → gmap uuid A) (cycles : database → gmap uuid (string * Z)).
Context (constraint : string) (s : AccessScope) (target : uuid) (request : ProviderRedriveRequest).
Context (tx : Tx ProviderRedriveView) (step : ProviderRedriveView → database → database → Prop).

(** The body both redrives share. *)
Definition repo_redrive : M database ProviderRedriveView :=
  lift (authorize s provider_ops_redrive);,
  try_except
    (replay <- read (λ d, audit_for_request (sc_tenant_id s) (rq_request_id request) (stored d));
     match replay with
     | Some row => lift (validate_replay row target request)
     | None => in_transaction ProviderOperationsPersistenceError provider_operations_errors tx
     end)
    (audit_conflict stored constraint s target request).

(** The answer: a request already recorded is shown again and nothing changes; otherwise one
    commit carries it out; a failure means nothing was committed, unless the acknowledgement
    was lost, and has a response of its own. *)
Definition redrive_answered (r : res ProviderRedriveView) (cs : list (database * database)) : Prop :=
  match r with
  | Ok v => has_provider_operations_permission s provider_ops_redrive = true ∧
      ((unchanged cs ∧ ∃ d, system_ok d ∧ redrive_replayed s target request v (stored d)) ∨
       ∃ d d', cs = [(d, d')] ∧ system_ok d ∧ steady d d' ∧ step v d d')
  | Err e => presentable e ∧
      (unchanged cs ∨
       e = ProviderOperationsPersistenceError ∧ ∃ v d d', cs = [(d, d')] ∧ system_ok d ∧ steady d d' ∧ step v d d')
  end.

Context (amb : Ambient database) (Hamb : steady_world amb).
Context (Hsteady : tx_within steady tx).
Context (Hcommits : ∀ d v d', system_ok d → commits_to tx d v d' →
  (d' = d ∧ redrive_replayed s target request v (stored d)) ∨ step v d d').
Context (Haudit : ∀ d, system_ok d → audit_ok (cycles d) (stored d)).
Context (Haborts : aborts_with redrive_error system_ok tx).

(** Looking up a recorded request; what is done when there is none is [k]. *)
Lemma runs_lookup (k : M database ProviderRedriveView) Q :
  Q (Err ProviderOperationsPersistenceError) [] →
  (∀ d v, system_ok d → redrive_replayed s target request v (stored d) → Q (Ok v) []) →
  (∀ e, presentable e → Q (Err e) []) → runs amb system_ok k Q →
  runs amb system_ok
    (replay <- read (λ d, audit_for_request (sc_tenant_id s) (rq_request_id request) (stored d));
     match replay with Some row => lift (validate_replay row target request) | None => k end) Q.
Proof using Hamb Haudit.
  intros Hpe Hok Herr Hk. apply runs_bind_pure with (Qa := λ o, ∀ r, o = Some r → ∃ d, system_ok d ∧
    audit_for_request (sc_tenant_id s) (rq_request_id request) (stored d) = Some r).
  - apply runs_query; [by apply rely_system| |done]. intros d Hd. split; [done|]. eauto.
  - intros [r|] Hr; [|done]. destruct (Hr r eq_refl) as (d & Hd & Ha). apply runs_lift.
    destruct (validate_replay r target request) as [v|e] eqn:Ev.
    + apply (Hok d); [done|]. exists r. apply validate_replay_ok in Ev as (? & ? & ?). done.
    + apply Herr. eapply validate_replay_error; [by apply Haudit|exact Ha|exact Ev].
Qed.

(** The transaction, when no record was found before it. *)
Lemma carried_out :
  has_provider_operations_permission s provider_ops_redrive = true →
  runs amb system_ok (in_transaction ProviderOperationsPersistenceError provider_operations_errors tx)
    (λ r cs, match r with
             | Err e => (∃ c, e = PgUniqueViolation c) ∧ cs = [] ∨ redrive_answered r cs
             | _ => redrive_answered r cs end).
Proof using Hamb Hsteady Hcommits Haborts.
  intros Hu. eapply runs_weaken.
  - apply (runs_errors amb system_ok _ _ (λ e, presentable e ∨ ∃ c, e = PgUniqueViolation c)
      (runs_steady_tx amb Hamb system_ok _ provider_operations_errors tx
         (λ v d d', system_ok d ∧ (d' = d ∧ redrive_replayed s target request v (stored d) ∨ step v d d'))
         Hsteady (λ d v d' Hd Hc, conj Hd (Hcommits d v d' Hd Hc)))).
    intros w e w' Hw He.
    destruct (in_transaction_errors _ _ _ _ _ _ _ _ _ Haborts (rely_system amb Hamb) Hw He)
      as [->|(x & Hx & ->)]; [by left|].
    destruct x as [[c|]|x]; cbn; [right; eauto|by left|by left].
  - intros [v|e] cs [Hr He].
    + destruct Hr as (d & d' & -> & Hs & Hd & [[-> Hv]|Hv]); (split; [done|]).
      * left. split; [by constructor|]. by exists d.
      * right. by exists d, d'.
    + destruct (He e eq_refl) as [Hp|[c ->]].
      * right. split; [done|]. destruct Hr as [[-> _]|(-> & v & d & d' & -> & Hs & Hd & [[-> Hv]|Hv])].
        -- left. constructor.
        -- left. by constructor.
        -- right. split; [done|]. by exists v, d, d'.
      * left. split; [by exists c|]. by destruct Hr as [[-> _]|[? _]].
Qed.

Lemma repo_redrive_answers : runs amb system_ok repo_redrive redrive_answered.
Proof using Hamb Hsteady Hcommits Haudit Haborts.
  unfold repo_redrive. apply runs_lift_bind.
  { intros e He. unfold authorize in He. destruct (negb _); [|done]. injection He as <-.
    split; [done|]. left. constructor. }
  intros u Hu. apply raise_if_ok, negb_false_iff in Hu.
  assert (∀ e, presentable e → redrive_answered (Err e) []) as Herr by (intros e He; split; [done|left; constructor]).
  assert (∀ d v, system_ok d → redrive_replayed s target request v (stored d) → redrive_answered (Ok v) []) as Hagain.
  { intros d v Hd Hv. split; [done|]. left. split; [constructor|]. by exists d. }
  apply runs_try_except with (Q1 := λ r cs, match r with
    | Err (PgUniqueViolation c) => cs = []
    | _ => redrive_answered r cs end).
  - apply runs_lookup; [by apply Herr|done| |].
    + intros e He. specialize (Herr e He). by destruct e.
    + eapply runs_weaken; [by apply carried_out|].
      intros [v|e] cs; [done|]. intros [[[c ->] ->]|He]; [done|]. destruct He as [Hp He]. by destruct e.
  - done.
  - intros e cs. destruct e; cbn; try done. intros ->. case_bool_decide.
    + apply runs_lookup; [by apply Herr|done|done|]. apply runs_raise, Herr. cbn. set_solver.
    + apply runs_raise, Herr. cbn. set_solver.
Qed.

(** The service checks the permission before the repository does again. *)
Lemma service_redrive_answers :
  runs amb system_ok (lift (authorize s provider_ops_redrive);, repo_redrive) redrive_answered.
Proof using Hamb Hsteady Hcommits Haudit Haborts.
  apply runs_lift_bind; [|intros; apply repo_redrive_answers].
  intros e He. unfold authorize in He. destruct (negb _); [|done]. injection He as <-.
  split; [done|]. left. constructor.
Qed.

(** * A recorded request *)

Context (r : A) (Ht : redrive_tenant r = sc_tenant_id s) (Hq : redrive_request r = rq_request_id request).

Definition holds_redrive (d : database) : Prop := system_ok d ∧ stored d !! redrive_id r = Some r.

(** Asking again for [r]: nothing is committed, and the answer shows [r] or is a refusal. *)
Definition settled_by (x : res ProviderRedriveView) (cs : list (database * database)) : Prop :=
  cs = [] ∧
  match x with
  | Ok v => redrive_target r = target ∧ redrive_reason_code r = Some (rq_reason_code request) ∧ redrive_view r = Ok v
  | Err e =>
      (∃ m, e = ForbiddenError m) ∧ has_provider_operations_permission s provider_ops_redrive = false ∨
      e = ProviderOperationsPersistenceError ∨
      e = conflict "request_id_conflict" ∧
        (redrive_target r ≠ target ∨ redrive_reason_code r ≠ Some (rq_reason_code request))
  end.

Lemma refused x : authorize s provider_ops_redrive = Err x → settled_by (Err x) [].
Proof.
  unfold authorize. destruct (negb _) eqn:E; [|done]. intros [= <-]. split; [done|]. left.
  apply negb_true_iff in E. eauto.
Qed.

Lemma service_redrive_settled :
  (∀ d d', holds_redrive d → steady d d' → stored d ⊆ stored d') →
  runs amb holds_redrive (lift (authorize s provider_ops_redrive);, repo_redrive) settled_by.
Proof using Hamb Haudit Ht Hq.
  intros Hkeep. assert (rely amb holds_redrive) as Hrely.
  { intros n d Hd. pose proof (Hkeep _ _ Hd (Hamb n d)) as Hsub. destruct Hd as [Hd Hr].
    split; [by apply rely_system|]. by eapply lookup_weaken. }
  apply runs_lift_bind; [apply refused|]. intros u1 _. apply runs_lift_bind; [apply refused|]. intros u2 _.
  apply runs_try_except with (Q1 := settled_by); [|done|].
  - apply runs_bind_pure with (Qa := λ o, o = Some r ∧ ∃ d, system_ok d ∧ stored d !! redrive_id r = Some r).
    + apply runs_query; [done| |].
      * intros d [Hd Hr]. split; [done|]. split; [|by exists d].
        rewrite <- Ht, <- Hq. by eapply audit_for_request_recorded; [apply Haudit|].
      * split; [done|]. split; [done|]. by right; left.
    + intros o [-> (d & Hd & Hr)]. apply runs_lift. split; [done|].
      destruct (validate_replay r target request) as [v|e] eqn:Ev.
      * by apply validate_replay_ok in Ev.
      * right. right. unfold validate_replay in Ev. rewrite (redrive_view_ok _ _ _ _ (Haudit d Hd) Hr) in Ev.
        destruct (_ || _) eqn:E; [|done]. injection Ev as <-. split; [done|].
        by rewrite orb_true_iff, !bool_decide_eq_true in E.
  - intros e cs [-> He]. destruct He as [[[m ->] Hno]|[->|[-> He]]]; (split; [done|]); eauto.
Qed.
End Queue.

(** * The two queues *)

(** A dead message, and a callback whose event does not fit its command. *)
Definition demo_refusing : CommandTransport := λ _ _ _, Err (HTTPStatusError 401 None).
Definition demo_dead_round : system_call :=
  SysRound (mkWorkerRound "w1" 20 (Finite 90) demo_lookup demo_refusing (λ _, 1%nat) (Some (Finite 0))
    (λ _, false) true).
Definition demo_wrong_event : system_call :=
  SysReceive (demo_library (mkProviderWebhookEventData 155%N ag_order_operation 7%N px_completed
      (Some "P-1") (Some "ref-1") None 0)) demo_resolver "shop-1" demo_webhook_request.
Definition demo_callback_round : system_call :=
  SysCallbacks (mkCallbackRound "c1" 20 (Finite 90) 5%Q (λ _, mkRace 1 false true) (λ _, false) true).
Definition demo_dead_db : database :=
  demo_history [demo_create_call; demo_queue_call; demo_dead_round; demo_wrong_event; demo_callback_round].

Lemma reachable_dead : reachable demo_dead_db.
Proof. apply reachable_history. repeat constructor; apply demo_provider_identifies. Qed.

Definition demo_redrive_request (reason : ProviderRedriveReasonCode) : ProviderRedriveRequest :=
  mkProviderRedriveRequest "req-1" reason.

Lemma outbox_audited d : system_ok d → audit_ok (delivery_cycles d) (outbox_redrives d).
Proof. intros Hd. apply Hd. Qed.
Lemma inbox_audited d : system_ok d → audit_ok (processing_cycles (inbox d)) (inbox_redrives (inbox d)).
Proof. intros Hd. apply Hd. Qed.

Lemma outbox_redrive_answers amb stale s k request :
  steady_world amb → valid_caller s → valid_request request →
  runs amb system_ok (redrive_outbox stale s k request)
    (redrive_answered outbox_redrives s k request (outbox_redriven s k request)).
Proof.
  intros Hamb Hs Hq. eapply (service_redrive_answers outbox_redrives delivery_cycles); [done|..].
  - apply redrive_outbox_steady.
  - intros d v d' Hd. apply redrive_outbox_commits, Hd.
  - apply outbox_audited.
  - eapply aborts_weaken; [|by apply redrive_outbox_aborts]. by intros d [].
Qed.

Lemma inbox_redrive_answers amb stale s k request :
  steady_world amb → valid_caller s → valid_request request →
  runs amb system_ok (redrive_inbox stale s k request)
    (redrive_answered (λ d, inbox_redrives (inbox d)) s k request (inbox_redriven s k request)).
Proof.
  intros Hamb Hs Hq.
  eapply (service_redrive_answers (λ d, inbox_redrives (inbox d)) (λ d, processing_cycles (inbox d))); [done|..].
  - apply redrive_inbox_steady.
  - intros d v d' Hd. apply redrive_inbox_commits, Hd.
  - apply inbox_audited.
  - eapply aborts_weaken; [|by apply redrive_inbox_aborts]. by intros d [].
Qed.

(** C30: redriving a command is one audited commit: a successful call either shows a redrive
    recorded before, changing nothing, or has moved the message of that command and tenant,
    dead for a technical reason, to its next delivery cycle in one steady commit that also
    queues its operation again (or notes the redrive on the investigation's case) and records
    who asked, why and which cycles; a failed call has changed nothing, unless the
    acknowledgement of that commit was lost. *)
Theorem redrive_outbox_audited (amb : Ambient database) (stale : bool) (s : AccessScope) (k : uuid)
    (request : ProviderRedriveRequest) :
  steady_world amb → valid_caller s → valid_request request →
  runs amb system_ok (redrive_outbox stale s k request)
    (redrive_answered outbox_redrives s k request (outbox_redriven s k request)).
Proof. apply outbox_redrive_answers. Qed.

Definition demo_redrive_outbox (reason : ProviderRedriveReasonCode) : M database ProviderRedriveView :=
  redrive_outbox false (demo_scope supervisor) 155%N (demo_redrive_request reason).
Definition demo_redriven_db : database :=
  after (run_system_call (SysConsole (demo_scope supervisor)
    (ConsoleRedriveOutbox false 155%N (demo_redrive_request rr_manual_retry_approved)))) demo_dead_db.

Lemma redrive_outbox_audited_witness :
  om_status <$> rows (outbox_messages demo_dead_db) = [ob_dead] ∧
  om_status <$> rows (outbox_messages demo_redriven_db) = [ob_retry_scheduled] ∧
  oo_status <$> rows (order_operations demo_redriven_db) = [os_queued] ∧
  ord_new_cycle <$> rows (outbox_redrives demo_redriven_db) = [2] ∧
  redrive_answered outbox_redrives (demo_scope supervisor) 155%N
    (demo_redrive_request rr_manual_retry_approved)
    (outbox_redriven (demo_scope supervisor) 155%N (demo_redrive_request rr_manual_retry_approved))
    (outcome (demo_redrive_outbox rr_manual_retry_approved) demo_dead_db)
    (commits (demo_redrive_outbox rr_manual_retry_approved) demo_dead_db).
Proof.
  do 4 (split; [vm_compute; reflexivity|]).
  exact (runs_outcome _ _ _ demo_dead_db (redrive_outbox_audited idle_ambient false (demo_scope supervisor)
    155%N (demo_redrive_request rr_manual_retry_approved) steady_world_idle eq_refl eq_refl)
    (reachable_ok _ reachable_dead)).
Defined.

(** Redriving a callback is one audited commit: a successful call either shows a redrive
    recorded before, changing nothing, or has moved the failed and unleased callback of that
    tenant to its next processing cycle in one steady commit that touches only the inbox and
    records who asked, why and which cycles; a failed call has changed nothing, unless the
    acknowledgement of that commit was lost. *)
Theorem redrive_inbox_audited (amb : Ambient database) (stale : bool) (s : AccessScope) (k : uuid)
    (request : ProviderRedriveRequest) :
  steady_world amb → valid_caller s → valid_request request →
  runs amb system_ok (redrive_inbox stale s k request)
    (redrive_answered (λ d, inbox_redrives (inbox d)) s k request (inbox_redriven s k request)).
Proof. apply inbox_redrive_answers. Qed.

Definition demo_redrive_inbox (reason : ProviderRedriveReasonCode) : M database ProviderRedriveView :=
  redrive_inbox false (demo_scope supervisor) 401%N (demo_redrive_request reason).
Definition demo_requeued_db : database :=
  after (run_system_call (SysConsole (demo_scope supervisor)
    (ConsoleRedriveInbox false 401%N (demo_redrive_request rr_manual_retry_approved)))) demo_dead_db.

Lemma redrive_inbox_audited_witness :
  im_status <$> rows (inbox_messages (inbox demo_dead_db)) = [ib_failed] ∧
  im_status <$> rows (inbox_messages (inbox demo_requeued_db)) = [ib_received] ∧
  ird_new_cycle <$> rows (inbox_redrives (inbox demo_requeued_db)) = [2] ∧
  redrive_answered (λ d, inbox_redrives (inbox d)) (demo_scope supervisor) 401%N
    (demo_redrive_request rr_manual_retry_approved)
    (inbox_redriven (demo_scope supervisor) 401%N (demo_redrive_request rr_manual_retry_approved))
    (outcome (demo_redrive_inbox rr_manual_retry_approved) demo_dead_db)
    (commits (demo_redrive_inbox rr_manual_retry_approved) demo_dead_db).
Proof.
  do 3 (split; [vm_compute; reflexivity|]).
  exact (runs_outcome _ _ _ demo_dead_db (redrive_inbox_audited idle_ambient false (demo_scope supervisor)
    401%N (demo_redrive_request rr_manual_retry_approved) steady_world_idle eq_refl eq_refl)
    (reachable_ok _ reachable_dead)).
Defined.

(** * A repeated request *)

(** C31: a redrive request takes effect once: while other workers keep working, a request id
    its tenant has already used commits nothing at all, whichever message it names now; it is
    answered with the recorded redrive exactly when message and reason are the recorded ones,
    and otherwise refused as a request_id_conflict, unless the caller lacks the permission or
    the database fails. *)
Theorem redrives_take_effect_once (amb : Ambient database) (stale : bool) (s : AccessScope) (k : uuid)
    (request : ProviderRedriveRequest) :
  steady_world amb →
  (∀ r : OutboxRedrive, redrive_tenant r = sc_tenant_id s → redrive_request r = rq_request_id request →
     runs amb (holds_redrive outbox_redrives r) (redrive_outbox stale s k request) (settled_by s k request r)) ∧
  (∀ r : InboxRedrive, redrive_tenant r = sc_tenant_id s → redrive_request r = rq_request_id request →
     runs amb (holds_redrive (λ d, inbox_redrives (inbox d)) r) (redrive_inbox stale s k request)
       (settled_by s k request r)).
Proof.
  intros Hamb. split; intros r Ht Hq.
  - apply (service_redrive_settled outbox_redrives delivery_cycles); try done; [apply outbox_audited|].
    intros d d' [Hd _] Hs. by apply (st_outbox _ _ Hs (sys_outbox _ Hd)).
  - apply (service_redrive_settled (λ d, inbox_redrives (inbox d)) (λ d, processing_cycles (inbox d)));
      try done; [apply inbox_audited|].
    intros d d' [Hd _] Hs. by apply (st_inbox _ _ Hs (sys_inbox _ Hd)).
Qed.

(** The redrives recorded in the two demonstrations. *)
Definition demo_outbox_redrive : OutboxRedrive :=
  default (mkOutboxRedrive 0%N 0%N "" "" "" "" None 0 0 0) (head (rows (outbox_redrives demo_redriven_db))).
Definition demo_inbox_redrive : InboxRedrive :=
  default (mkInboxRedrive 0%N 0%N "" "" "" rr_manual_retry_approved 0 0 0)
    (head (rows (inbox_redrives (inbox demo_requeued_db)))).

Lemma reachable_redriven : reachable demo_redriven_db.
Proof. by apply reachable_next; [|apply reachable_dead]. Qed.
Lemma reachable_requeued : reachable demo_requeued_db.
Proof. by apply reachable_next; [|apply reachable_dead]. Qed.

Lemma holds_demo_outbox : holds_redrive outbox_redrives demo_outbox_redrive demo_redriven_db.
Proof. split; [apply reachable_ok, reachable_redriven|vm_compute; reflexivity]. Qed.
Lemma holds_demo_inbox : holds_redrive (λ d, inbox_redrives (inbox d)) demo_inbox_redrive demo_requeued_db.
Proof. split; [apply reachable_ok, reachable_requeued|vm_compute; reflexivity]. Qed.

Lemma redrives_take_effect_once_witness :
  outcome (demo_redrive_outbox rr_manual_retry_approved) demo_redriven_db
    = outcome (demo_redrive_outbox rr_manual_retry_approved) demo_dead_db ∧
  outcome (demo_redrive_outbox rr_transient_incident_resolved) demo_redriven_db
    = Err (conflict "request_id_conflict") ∧
  settled_by (demo_scope supervisor) 155%N (demo_redrive_request rr_transient_incident_resolved) demo_outbox_redrive
    (outcome (demo_redrive_outbox rr_transient_incident_resolved) demo_redriven_db)
    (commits (demo_redrive_outbox rr_transient_incident_resolved) demo_redriven_db) ∧
  settled_by (demo_scope supervisor) 401%N (demo_redrive_request rr_manual_retry_approved) demo_inbox_redrive
    (outcome (demo_redrive_inbox rr_manual_retry_approved) demo_requeued_db)
    (commits (demo_redrive_inbox rr_manual_retry_approved) demo_requeued_db).
Proof.
  split; [vm_compute; reflexivity|]. split; [vm_compute; reflexivity|]. split.
  - exact (runs_outcome _ _ _ demo_redriven_db (proj1 (redrives_take_effect_once idle_ambient false
      (demo_scope supervisor) 155%N (demo_redrive_request rr_transient_incident_resolved) steady_world_idle)
      demo_outbox_redrive ltac:(vm_compute; reflexivity) ltac:(vm_compute; reflexivity))
      holds_demo_outbox).
  - exact (runs_outcome _ _ _ demo_requeued_db (proj2 (redrives_take_effect_once idle_ambient false
      (demo_scope supervisor) 401%N (demo_redrive_request rr_manual_retry_approved) steady_world_idle)
      demo_inbox_redrive ltac:(vm_compute; reflexivity) ltac:(vm_compute; reflexivity))
      holds_demo_inbox).
Defined.

(** * Failures *)

Lemma presentable_response e :
  presentable e → ∃ a, error_response e = Some a ∧
    ∀ code, e = ProviderOperationsConflictError code → ae_code a = code.
Proof.
  destruct e; try done; intros Hp; cbn; eexists; (split; [reflexivity|]); try done.
  intros ? [= <-]. unfold conflict_handler.
  destruct (list_find _ _) as [[i [c msg]]|] eqn:E; [done|].
  apply list_find_None in E. apply list_elem_of_fmap in Hp as ([c msg] & Hc & Hin).
  rewrite List.Forall_forall in E. apply list_elem_of_In in Hin. by destruct (E _ Hin).
Qed.

(** Every failure of a call has a response, and a conflict the response of its code. *)
Definition failures_answered (r : res ProviderRedriveView) (cs : list (database * database)) : Prop :=
  ∀ e, r = Err e → ∃ a, error_response e = Some a ∧
    ∀ code, e = ProviderOperationsConflictError code → ae_code a = code.

Lemma answered_presentable {A} `{RedriveRow A} (stored : database → gmap uuid A) s k request step r cs :
  redrive_answered stored s k request step r cs → failures_answered r cs.
Proof. intros Hr e ->. destruct Hr as [Hp _]. by apply presentable_response. Qed.

(** C33: no redrive ends in an unhandled exception: whatever other workers commit and whichever
    statement the database fails, every exception of either call is one the console installs
    a handler for, and a conflict is reported under its own code, never under the fallback
    one. *)
Theorem redrive_failures_have_responses (amb : Ambient database) (stale : bool) (s : AccessScope) (k : uuid)
    (request : ProviderRedriveRequest) :
  steady_world amb → valid_caller s → valid_request request →
  runs amb system_ok (redrive_outbox stale s k request) failures_answered ∧
  runs amb system_ok (redrive_inbox stale s k request) failures_answered.
Proof.
  intros Hamb Hs Hq. split; eapply runs_weaken.
  - by apply outbox_redrive_answers.
  - intros r cs. apply answered_presentable.
  - by apply inbox_redrive_answers.
  - intros r cs. apply answered_presentable.
Qed.

Lemma redrive_failures_have_responses_witness :
  outcome (demo_redrive_outbox rr_manual_retry_approved) demo_queued_db = Err (conflict "status_not_redrivable") ∧
  ae_status_code <$> error_response (conflict "status_not_redrivable") = Some 409 ∧
  failures_answered (outcome (demo_redrive_outbox rr_manual_retry_approved) demo_queued_db)
    (commits (demo_redrive_outbox rr_manual_retry_approved) demo_queued_db).
Proof.
  do 2 (split; [vm_compute; reflexivity|]).
  exact (runs_outcome _ _ _ demo_queued_db (proj1 (redrive_failures_have_responses idle_ambient false
    (demo_scope supervisor) 155%N (demo_redrive_request rr_manual_retry_approved) steady_world_idle eq_refl eq_refl))
    system_ok_demo).
Defined.

(** * The audit of the system *)

(** Exactly one recorded redrive, by a named actor, opened cycle [n] of message [k]. *)
Definition cycle_explained {A} `{RedriveRow A} (audit : gmap uuid A) (tenant : string) (k : uuid) (n : Z) : Prop :=
  ∃ i r, audit !! i = Some r ∧ redrive_target r = k ∧ redrive_tenant r = tenant ∧
    redrive_previous_cycle r = n - 1 ∧ redrive_new_cycle r = n ∧ has_ink (redrive_requested_by r) = true ∧
    ∀ j r', audit !! j = Some r' → redrive_target r' = k → redrive_new_cycle r' = n → j = i.

Lemma audit_explains {A} `{RedriveRow A} cycles (audit : gmap uuid A) k t c n :
  audit_ok cycles audit → cycles !! k = Some (t, c) → 1 < n ≤ c → cycle_explained audit t k n.
Proof.
  intros Hok Hk Hn. destruct (au_explained _ _ Hok k t c Hk) as [_ Hex]. destruct (Hex n Hn) as (i & r & Hr & <- & <-).
  destruct (au_opened _ _ Hok i r Hr) as (_ & Hp & c' & Hc & _). rewrite Hk in Hc. injection Hc as Ht _.
  exists i, r. split_and!; try done; [lia|by eapply au_actor|].
  intros j r' Hr' E1 E2. by eapply audit_opened_once.
Qed.

(** C32: every cycle is explained: in every reachable database each delivery cycle of a command
    and each processing cycle of a callback after the first was opened by exactly one recorded
    redrive of the same tenant, which names its actor; and the record only grows. *)
Theorem every_cycle_explained (d : database) :
  reachable d →
  (∀ k m n, outbox_messages d !! k = Some m → 1 < n ≤ om_delivery_cycle m →
     cycle_explained (outbox_redrives d) (om_tenant_id m) k n) ∧
  (∀ k m n, inbox_messages (inbox d) !! k = Some m → 1 < n ≤ im_processing_cycle m →
     cycle_explained (inbox_redrives (inbox d)) (im_tenant_id m) k n) ∧
  ∀ d', system_reaches d d' →
    outbox_redrives d ⊆ outbox_redrives d' ∧ inbox_redrives (inbox d) ⊆ inbox_redrives (inbox d').
Proof.
  intros Hd. pose proof (reachable_ok d Hd) as Hok. split_and!.
  - intros k m n Hm. apply (audit_explains (delivery_cycles d)); [by apply outbox_audited|].
    by apply delivery_cycles_lookup.
  - intros k m n Hm. apply (audit_explains (processing_cycles (inbox d))); [by apply inbox_audited|].
    by apply processing_cycles_lookup.
  - intros d' [_ _ _ Hb Hi]%system_reaches_steady. destruct Hok as [_ _ Hob Hib].
    split; [by apply Hb|by apply Hi].
Qed.

Lemma every_cycle_explained_witness :
  om_delivery_cycle <$> outbox_messages demo_redriven_db !! 155%N = Some 2 ∧
  cycle_explained (outbox_redrives demo_redriven_db) "tenant-a" 155%N 2.
Proof.
  split; [vm_compute; reflexivity|].
  destruct (outbox_messages demo_redriven_db !! 155%N) as [m|] eqn:Hm.
  - assert (om_tenant_id m = "tenant-a" ∧ om_delivery_cycle m = 2) as [Ht Hc].
    { vm_compute in Hm. injection Hm as <-. by split. }
    rewrite <- Ht. apply (proj1 (every_cycle_explained _ reachable_redriven) 155%N m 2 Hm). rewrite Hc. lia.
  - exfalso. vm_compute in Hm. discriminate.
Defined.

(** * The manual-review fallback

    The final theorem on the manual-review fallback of an unreachable provider. *)

(** C34: when no provider can take a confirmed operation, the operation and its review move
    together: a successful fallback either finds the caller's operation under review already,
    changing nothing, or moves the caller's pending operation to manual review at P1 in one
    steady commit that also opens or escalates an unresolved review case of the same thread
    at P1, naming the delivery failure, and records the confirmation, the new status and the
    case; no command is queued, nothing is sent, and a failure has changed nothing unless the
    acknowledgement of that commit was lost. *)
Theorem provider_fallback_outcome (amb : Ambient database) (coordinated : bool) (s : AccessScope)
    (operation_id : uuid) (request_id : string) :
  steady_world amb →
  runs amb system_ok (move_to_provider_manual_review coordinated s operation_id request_id)
    (fallback_ending s operation_id (strip request_id)).
Proof. apply move_to_manual_review_runs. Qed.

Definition demo_fallback (s : AccessScope) : M database ProviderQueueFailureResult :=
  move_to_provider_manual_review true s demo_op_id "r1".
Definition demo_pending_db : database := demo_history [demo_create_call].
Definition demo_handed_db : database := after (demo_fallback (demo_scope customer)) demo_pending_db.

Lemma system_ok_pending : system_ok demo_pending_db.
Proof. apply reachable_ok, reachable_history. repeat constructor; apply demo_provider_identifies. Qed.

Definition fallback_action_of (r : res ProviderQueueFailureResult) : option ProviderQueueFailureAction :=
  match r with Ok x => Some (qf_action x) | Err _ => None end.

Lemma provider_fallback_outcome_witness :
  fallback_action_of (outcome (demo_fallback (demo_scope customer)) demo_pending_db) = Some qf_created ∧
  oo_status <$> rows (order_operations demo_handed_db) = [os_manual_review] ∧
  c_priority <$> rows (support_cases demo_handed_db) = [p1] ∧
  fallback_action_of (outcome (demo_fallback (demo_scope customer)) demo_handed_db) = Some qf_duplicate_ignored ∧
  outcome (demo_fallback (demo_scope supervisor)) demo_pending_db = Err OperationNotFoundError ∧
  fallback_ending (demo_scope customer) demo_op_id (strip "r1")
    (outcome (demo_fallback (demo_scope customer)) demo_pending_db)
    (commits (demo_fallback (demo_scope customer)) demo_pending_db).
Proof.
  do 5 (split; [vm_compute; reflexivity|]).
  exact (runs_outcome _ _ _ demo_pending_db (provider_fallback_outcome idle_ambient true (demo_scope customer)
    demo_op_id "r1" steady_world_idle) system_ok_pending).
Defined.
