(* ===== verification/TurnGuarantees.v ===== *)
(** The final theorems on a turn of the conversation: what it may do without the customer's
    consent, and what a message that matches a hard-critical rule leads to. *)
From S2P Require Import Prelude Effects Auth OperationModels OperationPolicy CaseModels CasePolicy RiskMatcher RiskTheorems Conversation Database Transactions CaseRepository CaseService OperationService Nodes GraphSteps Steady SystemSafety TurnSafety TurnNodes OutboxGuarantees.

(** * Consent *)

(** C2: a turn acts on an order only with the customer's consent.  Whatever the models
    answer and whatever other workers commit, each transaction of a turn keeps the invariants
    of every component; nothing is sent to a provider from within the turn; the operations
    and refund requests it changes are the caller's own; unless the customer answered yes
    to the confirmation of the operation, no command is queued and an operation is at most
    created as pending, cancelled, or linked to a case without changing its status; and unless
    the customer approved the refund, no refund request is made. *)
Theorem turn_acts_on_consent (amb : Ambient database) (ctx : TurnContext) (s : RefundState) :
  steady_world amb →
  runs amb system_ok (run_turn ctx s) (λ _ cs, Forall (λ c, turn_commit ctx c.1 c.2) cs).
Proof. intros Hamb. eapply runs_weaken; [by apply turns_run_turn|]. by intros r cs [? _]. Qed.

Lemma turn_acts_on_consent_witness :
  oo_status <$> ((λ x, x.2) <$> map_to_list (order_operations (after (demo_cancellation demo_agrees) empty_db)))
    = [os_queued] ∧
  size (outbox_messages (after (demo_cancellation demo_agrees) empty_db)) = 1%nat ∧
  oo_status <$> ((λ x, x.2) <$> map_to_list (order_operations (after (demo_cancellation demo_declines) empty_db)))
    = [os_cancelled_by_customer] ∧
  size (refund_requests (after (demo_refund demo_agrees) empty_db)) = 1%nat ∧
  size (refund_requests (after (demo_refund demo_declines) empty_db)) = 0%nat ∧
  Forall (λ c, turn_commit (demo_turn (mkDemoAnswers rl_none in_cancellation_request false
      demo_cancellation_request) demo_declines demo_new_order (Ok "shop-1")) c.1 c.2)
    (commits (demo_cancellation demo_declines) empty_db).
Proof.
  do 5 (split; [vm_compute; reflexivity|]).
  exact (runs_outcome _ _ _ empty_db (turn_acts_on_consent idle_ambient _ _ steady_world_idle) system_ok_empty).
Defined.

(** * Hard-critical messages *)

Definition message_text (s : RefundState) : string :=
  match latest_text_user_message s with Some (_, content) => content | None => "" end.

(** The state in which the case of a hard-critical message is recorded. *)
Definition escalated (ctx : TurnContext) (s : RefundState) : RefundState :=
  handle_critical_risk ctx (check_risk_rules ctx s).

Definition urgent (cs : list SemanticRiskCategory) : bool :=
  bool_decide (rc_self_harm ∈ cs) || bool_decide (rc_violence ∈ cs).

Lemma run_from_next ctx steps n s amb w s' n' w' :
  run_node ctx n s amb w = (Ok (s', Next n'), w') →
  run_from ctx (S steps) n s amb w = run_from ctx steps n' s' amb w'.
Proof. intros H. cbn [run_from]. unfold bind. by rewrite H. Qed.

Lemma run_from_next_ret ctx steps n s s' n' amb w :
  run_node ctx n s = ret (s', Next n') →
  run_from ctx (S steps) n s amb w = run_from ctx steps n' s' amb w.
Proof. intros H. apply run_from_next. by rewrite H. Qed.

Lemma hard_match_category ctx s :
  rule_set_ok (tn_rules ctx) →
  rx_hard_critical (risk_match (tn_unicode ctx) (tn_rules ctx) (code_points (message_text s))) = true →
  risk_hard_critical (risk_facts (escalated ctx s)) = true ∧
  ∃ c, c ∈ hard_critical_categories (escalated ctx s).
Proof.
  intros [Hhard _ _] Hm. split; [exact Hm|].
  unfold risk_match in Hm. cbn [rx_hard_critical] in Hm. apply bool_decide_eq_true in Hm.
  destruct (find_matches _ _ _ (rs_hard_critical _)) as [|m l] eqn:E; [done|].
  assert (m ∈ m :: l) as Hin by left. rewrite <- E in Hin.
  apply find_matches_texts in Hin as (r & i & Hr & _ & Hmr). rewrite Forall_forall in Hhard.
  exists (semantic_category (rm_category m)). unfold hard_critical_categories. apply elem_of_dict_fromkeys.
  apply list_elem_of_fmap. exists m. split; [done|]. apply list_elem_of_filter. split.
  - subst m. cbn. by apply Hhard.
  - change (m ∈ rx_matches (risk_match (tn_unicode ctx) (tn_rules ctx) (code_points (message_text s)))).
    unfold risk_match, rx_matches. cbn. rewrite E. set_solver.
Qed.

Lemma semantic_category_not_other s c : c ∈ hard_critical_categories s → c ≠ rc_other.
Proof.
  unfold hard_critical_categories. rewrite elem_of_dict_fromkeys, list_elem_of_fmap.
  intros (m & -> & _). cbn. by destruct (rm_category m).
Qed.

(** The decision for hard-critical categories alone. *)
Lemma hard_critical_decision i :
  (∃ c, c ∈ hi_hard_critical_categories i) →
  (∀ c, c ∈ hi_hard_critical_categories i → c ≠ rc_other) →
  (∀ r, reason_holds i r → ∃ c, c ∈ hi_hard_critical_categories i ∧ r = HARD_REASON_BY_CATEGORY c) →
  ∃ d, determine_handoff_policy i = Ok d ∧ hd_should_create_case d = true ∧
    hd_case_type d = Some (if urgent (hi_hard_critical_categories i) then ct_safety_review else ct_business_escalation) ∧
    hd_priority d = Some (if urgent (hi_hard_critical_categories i) then p0 else p1).
Proof.
  intros [c0 Hc0] Hother Hall. destruct (handoff_decision_facts i) as (d & Hd & Hsh & _ & _ & Hty).
  exists d. split; [done|]. assert (∀ c, c ∈ hi_hard_critical_categories i → reason_holds i (HARD_REASON_BY_CATEGORY c)) as Hr
    by (intros c Hc; left; eauto).
  assert (hd_should_create_case d = true) as Hs by (apply Hsh; eauto). rewrite Hs in Hty. split; [done|].
  destruct Hty as (t & p & -> & -> & [(rt & Hrt & <-) Ht] & [(rp & Hrp & <-) Hp]).
  destruct (Hall rt Hrt) as (ct & Hct & ->), (Hall rp Hrp) as (cp & Hcp & ->).
  destruct (urgent (hi_hard_critical_categories i)) eqn:Hu.
  - assert (∃ c, c ∈ hi_hard_critical_categories i ∧ (c = rc_self_harm ∨ c = rc_violence)) as (c & Hc & Huc).
    { unfold urgent in Hu. apply orb_true_iff in Hu as [Hu|Hu]; apply bool_decide_eq_true in Hu; eauto. }
    specialize (Ht _ (Hr c Hc)). specialize (Hp _ (Hr c Hc)).
    split; [destruct ct; destruct Huc as [-> | ->]; cbn in Ht; (done || lia)|
            destruct cp; destruct Huc as [-> | ->]; cbn in Hp; (done || lia)].
  - unfold urgent in Hu. bools. pose proof (Hother ct Hct). pose proof (Hother cp Hcp).
    split; [by destruct ct|by destruct cp].
Qed.

(** C3: a hard-critical message always reaches a human, whatever the models would say.  When
    the latest text of the customer matches a hard-critical rule, the turn is this: the safety
    reply is added, and a case is recorded for the message, under the decision to open one, at
    P0 as a safety review when a self-harm or violence rule matched and at P1 as a business
    escalation otherwise; then the turn is over.  No model is asked and no question is put to
    the customer; the turn fails only when the message has no usable identifier or text, the
    caller or the thread is unknown, or the case cannot be recorded. *)
Theorem hard_critical_always_escalates (ctx : TurnContext) (s : RefundState) :
  rule_set_ok (tn_rules ctx) →
  rx_hard_critical (risk_match (tn_unicode ctx) (tn_rules ctx) (code_points (message_text s))) = true →
  let s' := escalated ctx s in
  let safety := urgent (hard_critical_categories s') in
  ∃ d, hd_should_create_case d = true ∧
    hd_case_type d = Some (if safety then ct_safety_review else ct_business_escalation) ∧
    hd_priority d = Some (if safety then p0 else p1) ∧
    ∀ amb w, run_turn ctx s amb w =
      (trigger <- lift (build_case_trigger ctx s');
       scope <- lift (scope_of_turn ctx);
       result <- record_handoff (tn_case_attempts ctx) scope trigger d;
       ret (Finished (case_result_update result s'))) amb w.
Proof.
  intros Hrules Hm s' safety. destruct (hard_match_category ctx s Hrules Hm) as [Hhard Hcat]. fold s' in Hhard, Hcat.
  set (i := mkHandoffPolicyInput (hard_critical_categories s') None [] false false None false []).
  assert (build_handoff_policy_input s' = Ok i) as Hi by reflexivity.
  destruct (hard_critical_decision i Hcat) as (d & Hd & Hs & Hty & Hp).
  { intros c. apply semantic_category_not_other. }
  { intros r [?|[(l & f & c & [=] & _)|[(x & [=] & _)|[[[=] _]|[[[=] _]|[[[=] _]|Hr]]]]]]; [done|].
    by apply elem_of_nil in Hr. }
  exists d. split_and!; [done..|]. intros amb w. unfold run_turn, RECURSION_LIMIT.
  rewrite (run_from_next_ret ctx 24 check_risk_rules_n s (check_risk_rules ctx s) handle_critical_risk_n).
  2: { change (run_node ctx check_risk_rules_n s) with
         (label <- lift (Ok (if risk_hard_critical (risk_facts (check_risk_rules ctx s))
                             then "critical_risk" else "semantic_risk"));
          n <- lift (follow risk_rules_edges label); (ret (check_risk_rules ctx s, Next n) : M database _)).
       change (risk_hard_critical (risk_facts (check_risk_rules ctx s)) = true) in Hhard.
       rewrite Hhard. reflexivity. }
  rewrite (run_from_next_ret ctx 23 handle_critical_risk_n _ s' finalize_case_handoff_n) by reflexivity.
  cbn [run_from run_node]. unfold then_, finalize_case_handoff.
  replace (failure_case_persisted (support_facts s')) with false by reflexivity.
  rewrite Hi. unfold bind, lift, ret. cbn [fst snd]. rewrite Hd, Hs, Hty. cbn [negb].
  destruct (build_case_trigger ctx s') as [trigger|e]; [|done].
  destruct (scope_of_turn ctx) as [scope|e]; [|done].
  rewrite bool_decide_eq_false_2 by (by destruct safety; case_match). cbn [negb].
  destruct (record_handoff _ _ _ _ amb w) as [[result|e] w1]; reflexivity.
Qed.

Definition demo_threatened : TurnContext :=
  demo_turn (mkDemoAnswers rl_none in_order_inquiry false demo_return_request) demo_silent demo_snapshot (Ok "shop-1").

Lemma hard_critical_always_escalates_witness :
  c_priority <$> ((λ x, x.2) <$> map_to_list (support_cases
     (after (run_turn demo_threatened (demo_message "Fine, I WILL kill you.")) empty_db))) = [p0] ∧
  ∃ d, hd_should_create_case d = true ∧ hd_case_type d = Some ct_safety_review ∧ hd_priority d = Some p0 ∧
    ∀ amb w, run_turn demo_threatened (demo_message "Fine, I WILL kill you.") amb w =
      (trigger <- lift (build_case_trigger demo_threatened (escalated demo_threatened (demo_message "Fine, I WILL kill you.")));
       scope <- lift (scope_of_turn demo_threatened);
       result <- record_handoff 3 scope trigger d;
       ret (Finished (case_result_update result (escalated demo_threatened (demo_message "Fine, I WILL kill you."))))) amb w.
Proof.
  split; [vm_compute; reflexivity|].
  refine (hard_critical_always_escalates demo_threatened (demo_message "Fine, I WILL kill you.") demo_rules_ok _).
  vm_compute. reflexivity.
Defined.

(** * Turns that go wrong *)

(** A critical classification without categories passes the validation of its class, but not
    that of the policy: the safety reply is lost with the turn, and no case is opened. *)
Lemma critical_without_categories_fails :
  outcome (run_turn (demo_turn (mkDemoAnswers rl_critical in_order_inquiry false demo_return_request) demo_silent
      demo_snapshot (Ok "shop-1")) (demo_message "Something is terribly wrong.")) empty_db
    = Err (ValidationError "HandoffPolicyInput") ∧
  support_cases (after (run_turn (demo_turn (mkDemoAnswers rl_critical in_order_inquiry false demo_return_request)
      demo_silent demo_snapshot (Ok "shop-1")) (demo_message "Something is terribly wrong.")) empty_db) = ∅.
Proof. split; vm_compute; reflexivity. Qed.

(** A first operation falls back to manual review for want of a provider. *)
Definition demo_fallen_db : database :=
  after (run_turn (demo_turn (mkDemoAnswers rl_none in_cancellation_request false demo_cancellation_request)
    demo_agrees demo_new_order (Err ProviderConnectionNotFoundError)) (demo_message "Please cancel my order")) empty_db.
(** Then the same conversation asks for the return of another order. *)
Definition demo_other_order : OrderSnapshot :=
  mkOrderSnapshot "ORD-10002" 3 12950 "USD" ord_completed pay_paid ful_delivered
    0 (Some (days 1)) (Some (days 3)) (Some (days 4)) None (Some true) (Some false) []
    (Some "u1") (Some "tenant-a").
Definition demo_next_message : RefundState :=
  mkRefundState [HumanMessage (Some "msg-2") (Some "Return my other order")] None None no_risk_facts no_order_facts
    no_handoff_facts no_support_facts no_operation_facts.
Definition other_ids : Ambient database :=
  mkAmbient database (λ _ d, d) (λ n, seconds (1000 + Z.of_nat n)) (λ n, N.of_nat n + 5000)%N (λ _, NoFault).
Definition demo_second_review : res turn_result * World database :=
  run_turn (demo_turn (mkDemoAnswers rl_none in_return_request false demo_return_request) demo_agrees
    demo_other_order (Ok "shop-1")) demo_next_message other_ids (start demo_fallen_db).

(** Its case is the one the fallback opened, so the node that links the operation to its case
    takes it for linked, and the operation under review has no case. *)
Lemma second_review_never_linked :
  said demo_second_review.1 = messages demo_next_message ++ [AIMessage "Your request has been sent for manual review."] ∧
  (λ o, (oo_order_id o, oo_status o, bool_decide (is_Some (oo_support_case_id o)))) <$>
    ((λ x, x.2) <$> map_to_list (order_operations (w_db demo_second_review.2)))
    = [("ORD-10002", os_manual_review, false); ("ORD-10001", os_manual_review, true)] ∧
  c_reason_codes <$> ((λ x, x.2) <$> map_to_list (support_cases (w_db demo_second_review.2)))
    = [[hr_provider_delivery_failed; hr_operation_delivery_date_invalid]].
Proof. split_and!; vm_compute; reflexivity. Qed.
