(* ===== verification/InternalApi.v ===== *)
(** The internal HTTP API: the routes of [cases/api.py] and
    [integrations/provider_operations_api.py] with their bodies ([cases/api_models.py]), the
    handlers of [cases/api_errors.py] beside those of the console as [webapp.py] registers
    them, and what can come back from a request about cases.  The server hands over typed
    parameters. *)
From S2P Require Import Prelude Effects Auth OperationModels CaseModels CasePolicy Hmac Envelope InboxModels Retry Connections IdentityConfig Jwks Authentication IdentityRuntime Database Transactions CaseRepository CaseService CaseSafety CaseTheorems CaseGuarantees ProviderViews ProviderRedrive RedriveSafety RedriveGuarantees.

(** * Request bodies *)

Record ChangeCaseStatusRequest := mkChangeCaseStatusRequest {
  csr_target_status : CaseStatus;
  csr_request_id : string;
  csr_on_hold_reason : option OnHoldReason;
}.

Definition validate_on_hold_reason (r : ChangeCaseStatusRequest) : res unit :=
  if bool_decide (csr_target_status r = cs_on_hold) then
    raise_if (bool_decide (csr_on_hold_reason r = None))
      (ValueError "on_hold_reason is required when target_status is on_hold")
  else raise_if (bool_decide (is_Some (csr_on_hold_reason r)))
      (ValueError "on_hold_reason is only valid when target_status is on_hold").

Definition request_id_length_ok (s : string) : bool := nonempty s && (str_len s <=? 128).

Definition ChangeCaseStatusRequest_validate (r : ChangeCaseStatusRequest) : res ChangeCaseStatusRequest :=
  let r := mkChangeCaseStatusRequest (csr_target_status r) (strip (csr_request_id r)) (csr_on_hold_reason r) in
  raise_if (negb (request_id_length_ok (csr_request_id r))) (ValidationError "ChangeCaseStatusRequest");;;
  validating "ChangeCaseStatusRequest" (validate_on_hold_reason r);;;
  Ok r.

Record AssignCaseRequest := mkAssignCaseRequest { acr_agent_id : string; acr_request_id : string }.

Definition validate_reserved_agent (r : AssignCaseRequest) : res unit :=
  raise_if (bool_decide (acr_agent_id r ∈ RESERVED_AGENT_IDS)) (ValueError "agent_id is reserved").

Definition AssignCaseRequest_validate (r : AssignCaseRequest) : res AssignCaseRequest :=
  let r := mkAssignCaseRequest (strip (acr_agent_id r)) (strip (acr_request_id r)) in
  raise_if (negb (request_id_length_ok (acr_agent_id r) && negb (has_char ":" (acr_agent_id r))
                  && request_id_length_ok (acr_request_id r)))
    (ValidationError "AssignCaseRequest");;;
  validating "AssignCaseRequest" (validate_reserved_agent r);;;
  Ok r.

(** * Error responses *)

(** The handlers [register_case_exception_handlers] installs. *)
Definition case_error_response (e : exn) : option ApiError :=
  match e with
  | ForbiddenError _ => Some (mkApiError 403 "forbidden"
      "The authenticated caller is not allowed to perform this action.")
  | CaseNotFoundError => Some (mkApiError 404 "case_not_found" "The requested support case does not exist.")
  | AssignmentTargetUnavailableError => Some (mkApiError 404 "assignment_target_unavailable"
      "The requested assignment target is not available.")
  | DirectoryInfrastructureUnavailableError => Some (mkApiError 503 "identity_directory_unavailable"
      "The identity directory is temporarily unavailable.")
  | InvalidCaseStatusTransition => Some (mkApiError 409 "invalid_case_status_transition"
      "The requested support-case status transition is not allowed.")
  | ConcurrentCaseUpdateError => Some (mkApiError 409 "concurrent_case_update"
      "The support case changed concurrently. Retry the request.")
  | CasePersistenceError => Some (mkApiError 503 "case_storage_unavailable"
      "Support-case storage is temporarily unavailable.")
  | _ => None
  end.

(** The handlers of the app: the console's are registered last. *)
Definition app_error_response (e : exn) : option ApiError :=
  match error_response e with Some r => Some r | None => case_error_response e end.

(** * Routes *)

Inductive api_request :=
  | ListSupportCases (q : CaseListQuery)
  | GetSupportCase (case_id : uuid)
  | ListSupportCaseEvents (case_id : uuid) (limit offset : Z)
  | ChangeSupportCaseStatus (case_id : uuid) (body : ChangeCaseStatusRequest)
  | AssignSupportCase (case_id : uuid) (body : AssignCaseRequest)
  | GetQueueOverview
  | GetAttemptActivity (limit : Z)
  | GetOutboxDetail (command_id : uuid) (history_limit : Z)
  | GetInboxDetail (inbox_id : uuid) (history_limit : Z)
  | RedriveOutbox (command_id : uuid) (body : ProviderRedriveRequest)
  | RedriveInbox (inbox_id : uuid) (body : ProviderRedriveRequest).

Inductive api_body :=
  | BodyCasePage (page : SupportCasePage)
  | BodyCase (c : SupportCase)
  | BodyEventPage (page : SupportCaseEventPage)
  | BodyCaseResult (r : CaseServiceResult)
  | BodyOverview (o : ProviderQueueOverview)
  | BodyActivity (f : ProviderAttemptActivityFeed)
  | BodyOutbox (v : ProviderOutboxDetail)
  | BodyInbox (v : ProviderInboxDetail)
  | BodyRedrive (v : ProviderRedriveView).

Definition within (low high n : Z) : bool := (low <=? n) && (n <=? high).

(** [NonEmptyFilter] *)
Definition filter_ok (o : option string) : bool := match o with Some s => has_ink s | None => true end.

(** The request as the handler gets it; an error is a 422. *)
Definition validated (request : api_request) : res api_request :=
  let unprocessable := ValidationError "RequestValidationError" in
  match request with
  | ListSupportCases q =>
      raise_if (negb (filter_ok (lq_thread_id q) && filter_ok (lq_order_id q)
                      && within 1 100 (lq_limit q) && (0 <=? lq_offset q))) unprocessable;;; Ok request
  | GetSupportCase _ | GetQueueOverview => Ok request
  | ListSupportCaseEvents _ limit offset =>
      raise_if (negb (within 1 200 limit && (0 <=? offset))) unprocessable;;; Ok request
  | ChangeSupportCaseStatus case_id body =>
      let* body := ChangeCaseStatusRequest_validate body in Ok (ChangeSupportCaseStatus case_id body)
  | AssignSupportCase case_id body =>
      let* body := AssignCaseRequest_validate body in Ok (AssignSupportCase case_id body)
  | GetAttemptActivity limit => raise_if (negb (within 1 100 limit)) unprocessable;;; Ok request
  | GetOutboxDetail _ limit | GetInboxDetail _ limit =>
      raise_if (negb (within 1 100 limit)) unprocessable;;; Ok request
  | RedriveOutbox command_id body =>
      let* body := ProviderRedriveRequest_validate body in Ok (RedriveOutbox command_id body)
  | RedriveInbox inbox_id body =>
      let* body := ProviderRedriveRequest_validate body in Ok (RedriveInbox inbox_id body)
  end.

Definition answering {A} (f : A → api_body) (m : M database A) : M database api_body := a <- m; ret (f a).

Section Routes.
(** The case service's settings and directory, and the console's read race. *)
Context (max_write_attempts : nat) (directory : option IdentityDirectory) (stale : bool).

(** [cases/api.py] *)
Definition list_support_cases (scope : AccessScope) (query : CaseListQuery) : M database api_body :=
  query <- lift (CaseListQuery_validate query);
  answering BodyCasePage (service_list_cases scope query).

Definition get_support_case (scope : AccessScope) (case_id : uuid) : M database api_body :=
  answering BodyCase (service_get_case scope case_id).

Definition list_support_case_events (scope : AccessScope) (case_id : uuid) (limit offset : Z) : M database api_body :=
  answering BodyEventPage (service_list_case_events scope case_id limit offset).

Definition change_support_case_status (scope : AccessScope) (case_id : uuid) (request : ChangeCaseStatusRequest) :
    M database api_body :=
  answering BodyCaseResult
    (change_status max_write_attempts scope case_id (csr_target_status request) (csr_request_id request)
       (csr_on_hold_reason request)).

Definition assign_support_case (scope : AccessScope) (case_id : uuid) (request : AssignCaseRequest) :
    M database api_body :=
  answering BodyCaseResult
    (assign_case max_write_attempts directory scope case_id (acr_agent_id request) (acr_request_id request)).

(** [integrations/provider_operations_api.py] *)
Definition get_provider_queue_overview (scope : AccessScope) : M database api_body :=
  answering BodyOverview (get_queue_overview scope).

Definition get_provider_attempt_activity (scope : AccessScope) (limit : Z) : M database api_body :=
  answering BodyActivity (get_attempt_activity scope limit).

Definition get_provider_outbox_detail (scope : AccessScope) (command_id : uuid) (history_limit : Z) :
    M database api_body :=
  answering BodyOutbox (get_outbox_detail scope command_id history_limit).

Definition get_provider_inbox_detail (scope : AccessScope) (inbox_id : uuid) (history_limit : Z) :
    M database api_body :=
  answering BodyInbox (get_inbox_detail scope inbox_id history_limit).

Definition redrive_provider_outbox (scope : AccessScope) (command_id : uuid) (request : ProviderRedriveRequest) :
    M database api_body :=
  answering BodyRedrive (redrive_outbox stale scope command_id request).

Definition redrive_provider_inbox (scope : AccessScope) (inbox_id : uuid) (request : ProviderRedriveRequest) :
    M database api_body :=
  answering BodyRedrive (redrive_inbox stale scope inbox_id request).

(** The handler of a request. *)
Definition route (scope : AccessScope) (request : api_request) : M database api_body :=
  match request with
  | ListSupportCases query => list_support_cases scope query
  | GetSupportCase case_id => get_support_case scope case_id
  | ListSupportCaseEvents case_id limit offset => list_support_case_events scope case_id limit offset
  | ChangeSupportCaseStatus case_id body => change_support_case_status scope case_id body
  | AssignSupportCase case_id body => assign_support_case scope case_id body
  | GetQueueOverview => get_provider_queue_overview scope
  | GetAttemptActivity limit => get_provider_attempt_activity scope limit
  | GetOutboxDetail command_id limit => get_provider_outbox_detail scope command_id limit
  | GetInboxDetail inbox_id limit => get_provider_inbox_detail scope inbox_id limit
  | RedriveOutbox command_id body => redrive_provider_outbox scope command_id body
  | RedriveInbox inbox_id body => redrive_provider_inbox scope inbox_id body
  end.

Inductive api_response :=
  | Answered (body : api_body)
  | Failed (error : ApiError)
  | Unprocessable
  | Refused (status_code : Z) (detail : string) (headers : list (string * string))
  | Crashed (e : exn).

(** The response to what a handler ends with. *)
Definition response_of (r : res api_body) : api_response :=
  match r with
  | Ok body => Answered body
  | Err e => match app_error_response e with Some error => Failed error | None => Crashed e end
  end.

Definition responding (m : M database api_body) : M database api_response := λ amb w,
  let '(r, w') := m amb w in (Ok (response_of r), w').

(** One request: the caller first, then the parameters, then the handler. *)
Definition serve {P} `{IdentityProvider P} (provider : P) (authorization : option string) (request : api_request) :
    M database api_response :=
  match require_access_scope provider authorization with
  | HTTPException status_code detail headers => ret (Refused status_code detail headers)
  | Unhandled e => ret (Crashed e)
  | Returned s =>
      match validated request with
      | Err _ => ret Unprocessable
      | Ok request => responding (route s request)
      end
  end.
End Routes.

(** * What leaves the case service *)

Section Failing.
Context (amb : Ambient database).

(** Run from [I], the call keeps [I] and raises only what [P] allows. *)
Definition fails {A} (I : database → Prop) (P : exn → Prop) (m : M database A) : Prop :=
  runs amb I m (λ r _, ∀ e, r = Err e → P e).

Lemma fails_ret {A} I P (a : A) : fails I P (ret a).
Proof. by apply runs_ret. Qed.
Lemma fails_raise {A} I (P : exn → Prop) e : P e → fails I P (raise e : M database A).
Proof. intros He. apply runs_raise. by intros ? [= <-]. Qed.
Lemma fails_lift {A} I P (r : res A) : only_raises P r → fails I P (lift r).
Proof. intros Hr. by apply runs_lift. Qed.
Lemma fails_bind {A B} I P (m : M database A) (f : A → M database B) :
  fails I P m → (∀ a, fails I P (f a)) → fails I P (bind m f).
Proof.
  intros Hm Hf. eapply runs_bind; [exact Hm|..].
  - intros a cs _. apply Hf.
  - intros e cs He ? [= <-]. by apply He.
Qed.
Lemma fails_lift_bind {A B} I P (r : res A) (f : A → M database B) :
  only_raises P r → (∀ a, r = Ok a → fails I P (f a)) → fails I P (bind (lift r) f).
Proof.
  intros Hr Hf. apply runs_lift_bind; [|done]. intros e -> ? [= <-]. by apply Hr.
Qed.
Lemma fails_query {A} (I : database → Prop) (P : exn → Prop) pe (f : database → res A) :
  rely amb I → P pe → (∀ d, I d → only_raises P (f d)) → fails I P (query pe f).
Proof. intros Hrely Hpe Hf. apply runs_query; [done|..|by intros ? [= <-]]. intros d Hd e. by apply Hf. Qed.
Lemma fails_attempts {A} I P n (body : M database (option A)) (after : M database A) :
  fails I P body → fails I P after → fails I P (for_attempts n body after).
Proof.
  intros Hb Ha. apply runs_for_attempts_acc with (S := λ _, True); [done| |done].
  eapply runs_weaken; [exact Hb|]. intros [[a|]|e] cs H; cbn; [done|done|]. intros ? [= <-]. by apply H.
Qed.
Lemma fails_try {A} I (P P' : exn → Prop) (m : M database A) h :
  fails I P' m → (∀ e, P' e → match h e with Some k => fails I P k | None => P e end) → fails I P (try_except m h).
Proof.
  intros Hm Hh. eapply runs_try_except; [exact Hm|done|]. intros e cs He. specialize (Hh e (He e eq_refl)).
  destruct (h e) as [k|]; [exact Hh|]. by intros ? [= <-].
Qed.
Lemma fails_weaken {A} I (P Q : exn → Prop) (m : M database A) : (∀ e, P e → Q e) → fails I P m → fails I Q m.
Proof. intros HPQ Hm. eapply runs_weaken; [exact Hm|]. cbn. eauto. Qed.
End Failing.

(** A failure with a response of its own among the case handlers. *)
Definition case_answered (e : exn) : Prop := is_Some (case_error_response e).

Lemma answered_forbidden msg : case_answered (ForbiddenError msg). Proof. by eexists. Qed.
Lemma answered_not_found : case_answered CaseNotFoundError. Proof. by eexists. Qed.
Lemma answered_storage : case_answered CasePersistenceError. Proof. by eexists. Qed.
Lemma answered_concurrent : case_answered ConcurrentCaseUpdateError. Proof. by eexists. Qed.
Lemma answered_transition : case_answered InvalidCaseStatusTransition. Proof. by eexists. Qed.
Lemma answered_target : case_answered AssignmentTargetUnavailableError. Proof. by eexists. Qed.
Lemma answered_directory : case_answered DirectoryInfrastructureUnavailableError. Proof. by eexists. Qed.
#[local] Hint Resolve answered_forbidden answered_not_found answered_storage answered_concurrent
  answered_transition answered_target answered_directory : raising.

Lemma case_visibility_raises s : only_raises case_answered (case_visibility s).
Proof. unfold case_visibility. raising. Qed.
Lemma require_case_read_raises s : only_raises case_answered (require_case_read s).
Proof. unfold require_case_read. raising. Qed.
Lemma require_case_update_raises s : only_raises case_answered (require_case_update s).
Proof. unfold require_case_update. raising. Qed.
Lemma transition_raises a b : only_raises case_answered (validate_case_status_transition a b).
Proof. unfold validate_case_status_transition. raising. Qed.
#[local] Hint Resolve case_visibility_raises require_case_read_raises require_case_update_raises transition_raises : raising.

Section CaseFailures.
Context (amb : Ambient database) (Hamb : others_ok amb).

(** Reads of stored rows raise nothing of their own. *)
Lemma case_row_reads d o : case_db_ok d → (∀ c, o = Some c → ∃ i, support_cases d !! i = Some c) →
  only_raises case_answered (case_from_row o).
Proof.
  intros Hd Ho. destruct o as [c|]; cbn; [|raising]. destruct (Ho c eq_refl) as [i Hi].
  pose proof (cdb_cases d Hd i c Hi) as Hn. unfold case_normal in Hn. rewrite Hn. cbn. raising.
Qed.

Lemma visible_case_stored visible d i c : visible_case visible d i = Some c → ∃ i, support_cases d !! i = Some c.
Proof. unfold visible_case. destruct (support_cases d !! i) eqn:E; [|done]. case_match; [|done]. intros [= <-]. eauto. Qed.

Context (I : database → Prop) (Hrely : rely amb I) (HI : ∀ d, I d → case_db_ok d).

Lemma get_case_fails s i : fails amb I case_answered (get_case s i).
Proof using Hrely HI.
  unfold get_case. apply fails_lift_bind; [raising|]. intros visible _.
  apply fails_query; [done|raising|]. intros d Hd. apply (case_row_reads d); [auto|].
  intros c. apply visible_case_stored.
Qed.

Lemma find_event_fails s key : fails amb I case_answered (find_event_by_idempotency_key s key).
Proof using Hrely HI.
  apply fails_query; [done|raising|]. intros d Hd. unfold event_by_key, event_from_row.
  destruct (list_find _ _) as [[i e]|] eqn:E; cbn; [|raising].
  apply list_find_Some in E as (E & _). apply list_elem_of_lookup_2 in E.
  pose proof (cdb_events d (HI d Hd) e E) as Hn. unfold event_normal in Hn. rewrite Hn. cbn. raising.
Qed.

Lemma unchanged_result_fails {A} c (k : CaseServiceResult → M database A) :
  (∀ r, fails amb I case_answered (k r)) →
  fails amb I case_answered (bind (service_result ca_status_unchanged (Some c) None) k).
Proof. intros Hk. unfold service_result. apply fails_lift_bind; [by intros e|]. intros r _. apply Hk. Qed.

Lemma replay_previous_fails s ev : fails amb I case_answered (replay_previous s ev).
Proof using Hrely HI.
  unfold replay_previous. apply fails_bind; [apply get_case_fails|]. intros [c|].
  - apply fails_lift. by intros e.
  - apply fails_raise. raising.
Qed.

Lemma replay_conflict_fails s key e k : replay_conflict s key e = Some k → fails amb I case_answered k.
Proof using Hrely HI.
  unfold replay_conflict. destruct e; intros [= <-]; [apply fails_ret|].
  apply fails_bind; [apply find_event_fails|]. intros [ev|]; [|apply fails_ret].
  apply fails_bind; [apply get_case_fails|]. intros [c|]; [|apply fails_ret].
  unfold returning. apply unchanged_result_fails. intros r. apply fails_ret.
Qed.

(** ** Reading *)

Lemma service_get_case_fails s i : fails amb I case_answered (service_get_case s i).
Proof using Hrely HI.
  unfold service_get_case. apply fails_lift_bind; [raising|]. intros _ _.
  apply fails_bind; [apply get_case_fails|]. intros [c|]; [apply fails_ret|apply fails_raise; raising].
Qed.

Lemma traverse_raises {A B} (P : exn → Prop) (f : A → res B) l :
  (∀ x, x ∈ l → only_raises P (f x)) → only_raises P (traverse f l).
Proof.
  induction l as [|x l IH]; intros Hf; cbn; [raising|].
  apply only_raises_bind; [apply Hf; by left|]. intros y. apply only_raises_bind; [|raising].
  apply IH. intros z Hz. apply Hf. by right.
Qed.

Lemma page_elem {A} limit offset (l : list A) x : x ∈ page limit offset l → x ∈ l.
Proof.
  unfold page. intros H. apply list_elem_of_In in H. apply list_elem_of_In.
  rewrite <- (take_drop (Z.to_nat offset) l). apply in_or_app. right.
  rewrite <- (take_drop (Z.to_nat limit) (drop (Z.to_nat offset) l)). apply in_or_app. by left.
Qed.

Lemma service_list_cases_fails s q : fails amb I case_answered (service_list_cases s q).
Proof using Hrely HI.
  unfold service_list_cases, list_cases. apply fails_lift_bind; [raising|]. intros _ _.
  apply fails_lift_bind; [raising|]. intros visible _.
  apply fails_bind; [apply fails_query; [done|raising|raising]|]. intros total.
  apply fails_bind; [|intros; apply fails_ret]. apply fails_query; [done|raising|]. intros d Hd.
  apply traverse_raises. intros c Hc%page_elem. unfold matching_cases in Hc.
  rewrite merge_sort_Permutation in Hc. apply list_elem_of_filter in Hc as [_ [i Hi]%elem_of_rows].
  pose proof (cdb_cases d (HI d Hd) i c Hi) as Hn. unfold case_normal in Hn. rewrite Hn. raising.
Qed.

Lemma service_list_case_events_fails s i limit offset :
  1 ≤ limit ≤ 200 → 0 ≤ offset → fails amb I case_answered (service_list_case_events s i limit offset).
Proof using Hrely HI.
  intros Hl Ho. unfold service_list_case_events, list_case_events. apply fails_lift_bind; [raising|]. intros _ _.
  replace ((limit <? 1) || (200 <? limit)) with false by lia. replace (offset <? 0) with false by lia.
  apply fails_lift_bind; [by intros e|]. intros _ _. apply fails_lift_bind; [by intros e|]. intros _ _.
  apply fails_bind; [apply get_case_fails|]. intros [c|]; [|apply fails_raise; raising].
  apply fails_bind; [apply fails_query; [done|raising|raising]|]. intros total.
  apply fails_bind; [|intros; apply fails_ret]. apply fails_query; [done|raising|]. intros d Hd.
  apply traverse_raises. intros e He%page_elem. unfold case_timeline in He.
  rewrite merge_sort_Permutation in He. apply list_elem_of_filter in He as [_ He].
  pose proof (cdb_events d (HI d Hd) e He) as Hn. unfold event_normal in Hn. rewrite Hn. raising.
Qed.
End CaseFailures.

(** ** Writing *)

Lemma transact_raises {A} amb (I : database → Prop) pe (f : database → res (A * database)) w e w' :
  rely amb I → I (w_db w) → transact pe f amb w = (Err e, w') → e = pe ∨ ∃ d, I d ∧ f d = Err e.
Proof.
  intros Hrely Hw. unfold transact. pose proof (Hrely (w_tick w) _ Hw) as Hd.
  destruct (fault_at amb (w_tick w)).
  - destruct (f _) as [[a d']|x] eqn:E; intros [= <- <-]. eauto.
  - intros [= <- <-]. by left.
  - destruct (f _) as [[a d']|x] eqn:E; intros [= <- <-]; eauto.
Qed.

(** A row that keeps its place in the index of unresolved cases collides with no other. *)
Lemma same_place_no_collision d old new :
  schema_ok d → support_cases d !! c_case_id new = Some old →
  active_case_key new = None ∨ active_case_key new = active_case_key old →
  collides active_case_key (support_cases d) (c_case_id new) new = false.
Proof.
  intros Hd Hold Hk. apply collides_false. intros k i b Hn Hb Hkb.
  destruct Hk as [Hk|Hk]; [congruence|]. eapply (so_active_case d Hd); [exact Hb|exact Hold|done|congruence].
Qed.

Lemma insert_case_event_raises ev d x :
  insert_case_event ev d = PgErr x →
  x = OtherDatabaseError ∨ x = UniqueViolation "support_case_events_pkey" ∨
  x = UniqueViolation "uq_support_case_events_idempotency".
Proof.
  unfold insert_case_event, pg_bind, pg_check.
  repeat (case_match; simplify_eq); intros; simplify_eq; auto.
Qed.

(** What an optimistic update of a case may raise. *)
Definition update_failure (old new : SupportCase) (e : exn) : Prop :=
  case_answered e ∨ e = DuplicateIdempotencyKeyError ∨
  e = ActiveCaseConflictError ∧ active_case_key new ≠ None ∧ active_case_key new ≠ active_case_key old.

Lemma update_statements_raise d old new ev e :
  schema_ok d → support_cases d !! c_case_id new = Some old → ev_source_message_id ev = None →
  case_errors ev (pg_bind (put_support_case new d) (insert_case_event ev)) = Err e → update_failure old new e.
Proof.
  intros Hd Hold Hsrc. unfold put_support_case.
  destruct (support_cases_check new); cbn [pg_check pg_bind]; [|intros [= <-]; left; by eexists].
  destruct (collides active_case_key (support_cases d) (c_case_id new) new) eqn:Hc; cbn [negb pg_check pg_bind].
  - cbn [case_errors]. intros [= <-].
    assert (raise_unique_violation (active_case_constraint new) ev = ActiveCaseConflictError) as ->
      by (unfold active_case_constraint; by case_bool_decide).
    right. right. split; [done|]. split; intros Hk.
    + rewrite (same_place_no_collision d old new) in Hc; auto; done.
    + rewrite (same_place_no_collision d old new) in Hc; auto; done.
  - set (d1 := set_support_cases _ d).
    destruct (insert_case_event ev d1) as [d2|x] eqn:Ei; [done|].
    destruct (insert_case_event_raises _ _ _ Ei) as [->|[->| ->]]; cbn; intros [= <-];
      [by left; eexists|by left; eexists|]. unfold raise_unique_violation. rewrite Hsrc. right. by left.
Qed.

Section CaseWrites.
Context (amb : Ambient database) (Hamb : others_ok amb).

(** The facts an update of [old] by a caller other than a customer needs to be let through. *)
Record may_update (s : AccessScope) (old new : SupportCase) (ev : SupportCaseEvent) : Prop := {
  mu_update : update_of old new ev;
  mu_tenant : c_tenant_id new = sc_tenant_id s;
  mu_caller : sc_role s ≠ customer;
  mu_message : ev_source_message_id ev = None;
}.

Lemma update_case_fails s old new ev :
  may_update s old new ev →
  fails amb (case_seen old) (update_failure old new) (update_case_with_event s new ev (c_version old)).
Proof using Hamb.
  intros [Hup Ht Hrole Hsrc].
  eapply runs_weaken; [eapply runs_errors; [by apply update_case_with_event_runs|]|intros r cs [_ H]; exact H].
  intros w e w' Hw.
  unfold update_case_with_event, validate_case_ownership, validate_event_ownership.
  rewrite (uo_version _ _ _ Hup), Z.eqb_refl.
  rewrite (bool_decide_eq_false_2 (c_tenant_id new ≠ sc_tenant_id s)) by (by intros []).
  rewrite (bool_decide_eq_false_2 (sc_role s = customer)) by done.
  rewrite (bool_decide_eq_false_2 (ev_tenant_id ev ≠ sc_tenant_id s))
    by (rewrite (proj2 (uo_about _ _ _ Hup)), Ht; by intros []).
  unfold bind, lift. cbn [negb raise_if res_bind andb].
  destruct (case_visibility s) as [visible|x] eqn:Hv;
    [|intros [= <- <-]; left; by eapply case_visibility_raises].
  intros H. apply (transact_raises amb (case_seen old)) in H as [->|(d & Hd & H)];
    [left; by eexists| |by apply rely_case_seen|done].
  destruct (update_case_row visible new (c_version old) d) as [r|] eqn:Hu; [|injection H as <-; left; by eexists].
  eapply update_case_row_seen in Hu as (Hold & _ & ->); [|done..|apply Hup].
  eapply update_statements_raise; [|exact Hold|exact Hsrc|].
  - apply cdb_schema. by apply seen_ok in Hd.
  - by destruct (case_errors _ _) as [d'|x]; [|injection H as ->].
Qed.

(** [try: update; ...; except ...]: a duplicate request is answered, a stale version retried. *)
Lemma audited_write_fails s key old new ev action (P : exn → Prop) :
  may_update s old new ev → action ∈ [ca_created; ca_event_appended; ca_status_changed; ca_assigned] →
  (∀ e, case_answered e → P e) →
  (active_case_key new ≠ None → active_case_key new ≠ active_case_key old → P ActiveCaseConflictError) →
  fails amb (case_seen old) P
    (try_except (update_case_with_event s new ev (c_version old);,
                 returning (service_result action (Some new) (Some ev)))
       (replay_conflict s key)).
Proof using Hamb.
  intros Hmay Hact HP Hconf. apply fails_try with (P' := update_failure old new).
  - apply fails_bind; [by apply update_case_fails|]. intros _. unfold returning, service_result.
    rewrite service_result_written by done. apply fails_lift_bind; [by intros e|]. intros r _. apply fails_ret.
  - intros e He. destruct (replay_conflict s key e) as [k|] eqn:Hk.
    + eapply fails_weaken; [exact HP|]. eapply replay_conflict_fails; [by apply rely_case_seen|by intros d []|exact Hk].
    + destruct He as [He|[->|(-> & H1 & H2)]]; [by apply HP|done|by apply Hconf].
Qed.

(** The read that opens a round: the rest knows the row it found. *)
Lemma get_case_bind_fails {B} s i (k : option SupportCase → M database B) (P : exn → Prop) :
  (∀ e, case_answered e → P e) → fails amb case_db_ok P (k None) →
  (∀ c, c_case_id c = i → case_normal c → may_see s c → fails amb (case_seen c) P (k (Some c))) →
  fails amb case_db_ok P (bind (get_case s i) k).
Proof using Hamb.
  intros HP Hn Hs. unfold get_case. apply runs_bind_lift_bind.
  { intros e He ? [= <-]. apply HP. by eapply case_visibility_raises. }
  intros visible Hv. eapply runs_query_bind with (J := λ o d, match o with
      | None => case_db_ok d
      | Some c => case_seen c d ∧ case_normal c ∧ c_case_id c = i ∧ may_see s c
      end); [by apply rely_case_db| | | | |].
  - intros ? [= <-]. apply HP. by eexists.
  - intros d e Hd He ? [= <-]. apply HP.
    eapply (case_row_reads d); [exact Hd| |exact He]. intros c. apply visible_case_stored.
  - intros d a Hd Ha. apply case_from_row_normal in Ha; [|done]. unfold visible_case in Ha.
    destruct (support_cases d !! i) as [c|] eqn:E; [|by subst].
    destruct (visible (case_owner c)) eqn:Hvis; [|by subst]. subst a.
    split_and!; [by eapply case_seen_read|by eapply cdb_cases| |by exists visible].
    eapply so_case_id, E. by apply cdb_schema.
  - intros [c|] d; [by intros [[? _] _]|done].
  - intros [c|] [d Hd]; [|done]. destruct Hd as (_ & Hc & Hi & Hsee).
    intros w r w' (Hw & _) Hr. by destruct (Hs c Hi Hc Hsee w r w' Hw Hr) as (? & ?).
Qed.

(** ** What the calls build is accepted *)

Lemma normal_case_ink c :
  case_normal c → has_ink (c_customer_id c) = true ∧ has_ink (c_tenant_id c) = true ∧
  match c_assigned_agent_id c with Some a => has_ink a = true | None => True end.
Proof.
  intros Hc. pose proof (case_normal_strip c Hc) as Hst. apply SupportCase_validate_ok in Hc as (_ & Hf & _).
  pose proof (f_equal c_customer_id Hst) as H1. pose proof (f_equal c_tenant_id Hst) as H2.
  pose proof (f_equal c_assigned_agent_id Hst) as H3. cbn in H1, H2, H3.
  unfold SupportCase_fields_ok in Hf. bools. rewrite <- !nonempty_strip, H1, H2.
  split; [done|]. split; [done|]. destruct (c_assigned_agent_id c) as [a|]; [|done]. injection H3 as H3.
  by rewrite <- nonempty_strip, H3.
Qed.

Lemma SupportCase_validate_raises c : only_raises (λ e, e = ValidationError "SupportCase") (SupportCase_validate c).
Proof. unfold SupportCase_validate. raising. Qed.

Lemma status_event_valid u key c target reason actor t :
  case_normal c → has_ink key = true → has_ink actor = true →
  validate_on_hold_request target reason = Ok tt →
  ∃ ev, SupportCaseEvent_validate (status_event u key c target reason actor t) = Ok ev.
Proof.
  intros (Hcu & Hte & _)%normal_case_ink Hk Ha Hr. eexists. apply SupportCaseEvent_validate_ok.
  split; [reflexivity|]. unfold SupportCaseEvent_fields_ok, validate_event_fields, no_actor. cbn.
  rewrite !nonempty_strip, Hk, Hcu, Hte, Ha. split; [done|]. cbn.
  unfold validate_on_hold_request in Hr. apply res_bind_ok in Hr as (? & H1%raise_if_ok & H2%raise_if_ok).
  repeat case_bool_decide; try done; simplify_eq; try (exfalso; naive_solver).
Qed.

Lemma assigned_event_valid u key c agent actor t :
  case_normal c → has_ink key = true → has_ink actor = true → has_ink agent = true →
  ∃ ev, SupportCaseEvent_validate (assigned_event u key c agent actor t) = Ok ev.
Proof.
  intros (Hcu & Hte & Hag)%normal_case_ink Hk Ha Hg. eexists. apply SupportCaseEvent_validate_ok.
  split; [reflexivity|]. unfold SupportCaseEvent_fields_ok, validate_event_fields, no_actor. cbn.
  rewrite !nonempty_strip, Hk, Hcu, Hte, Ha, Hg. split; [|done].
  destruct (c_assigned_agent_id c) as [a|]; cbn; [|done]. by rewrite nonempty_strip, Hag.
Qed.
End CaseWrites.

(** ** The two calls that write *)

Section CaseCalls.
Context (amb : Ambient database) (Hamb : others_ok amb).
Context (s : AccessScope) (Hs : valid_caller s) (Hcan : canonical s).

(** Neither call is open to customers. *)
Lemma updater_not_customer u : require_case_update s = Ok u → sc_role s ≠ customer.
Proof using Hcan.
  unfold require_case_update, has_any_permission. intros H%raise_if_ok%negb_false_iff Hr. cbn in H.
  rewrite !canonical_has_permission, Hr in H by done. by vm_compute in H.
Qed.

Lemma assigner_not_customer : has_permission s cases_assign = true → sc_role s ≠ customer.
Proof using Hcan. rewrite canonical_has_permission by done. intros H Hr. rewrite Hr in H. by vm_compute in H. Qed.

(** A status change, from a validated body: a conflict with another unresolved case leaves only
    when the case is reopened, and a row is rejected only by a clock behind its creation. *)
Definition status_failure (target : CaseStatus) (e : exn) : Prop :=
  case_answered e ∨ (e = ActiveCaseConflictError ∧ target = cs_open) ∨ e = ValidationError "SupportCase".

Lemma status_keeps_place c target reason t :
  case_transition_allowed (c_status c) target = true → target ≠ cs_open →
  active_case_key (with_status c target reason t) = None ∨
  active_case_key (with_status c target reason t) = active_case_key c.
Proof.
  intros Ht Ho. unfold active_case_key. cbn.
  destruct (c_status c), target; try done; first [by left | by right].
Qed.

Lemma change_status_fails n case_id target request reason :
  nonempty (strip request) = true → validate_on_hold_request target reason = Ok tt →
  fails amb case_db_ok (status_failure target) (change_status n s case_id target request reason).
Proof using Hamb Hs Hcan.
  intros Hreq Hhold. pose proof (rely_case_db amb Hamb) as Hrely.
  assert (∀ e, case_answered e → status_failure target e) as HP by (by left).
  destruct (valid_caller_facts s Hs) as [(actor & Ha) _]. pose proof (identity_ink s actor Ha) as Hink.
  unfold change_status. apply fails_lift_bind; [intros e He; apply HP; by eapply require_case_update_raises|].
  intros ? Hupd%updater_not_customer. rewrite Hreq, Ha. apply fails_lift_bind; [by intros e|]. intros _ _.
  apply fails_lift_bind; [by intros e|]. intros ? [= <-].
  set (key := status_idempotency_key case_id (strip request)).
  apply fails_bind; [by eapply fails_weaken, find_event_fails|]. intros [ev|].
  { by eapply fails_weaken, replay_previous_fails. }
  apply fails_attempts; [|apply fails_raise, HP; by eexists].
  apply get_case_bind_fails; [done|done|apply fails_raise, HP; by eexists|]. intros old _ Hn Hsee.
  apply fails_lift_bind; [intros e He; apply HP; by eapply transition_raises|].
  intros ? Htr%validate_case_status_transition_ok. case_bool_decide as Hsame.
  { unfold returning. eapply fails_weaken; [exact HP|]. apply unchanged_result_fails. intros r. apply fails_ret. }
  destruct Htr as [|Htr]; [done|]. rewrite Hhold. apply fails_lift_bind; [by intros e|]. intros _ _.
  apply fails_bind; [by apply runs_now|]. intros t.
  apply fails_lift_bind; [intros e He; right; right; by eapply SupportCase_validate_raises|]. intros new Hnew.
  pose proof (SupportCase_validate_normal _ _ Hnew) as Hnn. apply with_status_validate in Hnew as ->; [|done].
  apply fails_bind; [by apply runs_new_id|]. intros u.
  destruct (status_event_valid u key old target reason actor t Hn eq_refl Hink Hhold) as (ev & Hev). rewrite Hev.
  apply fails_lift_bind; [by intros e|]. intros ? [= <-].
  pose proof (SupportCaseEvent_validate_normal _ _ Hev) as Hen. apply SupportCaseEvent_validate_ok in Hev as (-> & _).
  apply audited_write_fails; [done| |set_solver|done|].
  - split; [|by apply may_see_tenant in Hsee|done|done]. split; try done. split; [done|]. cbn.
    by rewrite <- (case_normal_strip old Hn) at 2.
  - intros H1 H2. right. left. split; [done|]. destruct (decide (target = cs_open)) as [|Ho]; [done|].
    destruct (status_keeps_place old target reason t Htr Ho); done.
Qed.

Definition assign_failure (e : exn) : Prop := case_answered e ∨ e = ValidationError "SupportCase".

(** What the service may rely on from a directory. *)
Definition directory_lawful (directory : option IdentityDirectory) : Prop :=
  ∀ find_user t u, directory = Some find_user → only_raises is_unavailable (find_user t u).

Lemma assignment_target_raises directory t u :
  directory_lawful directory → only_raises case_answered (require_assignment_target directory t u).
Proof.
  intros Hd. unfold require_assignment_target. destruct directory as [find|] eqn:E; [|raising].
  apply only_raises_bind; [|raising]. intros e He. rewrite (Hd find t u eq_refl e He). by eexists.
Qed.

Lemma assign_case_fails n directory case_id agent request agent' :
  directory_lawful directory → nonempty (strip request) = true → validate_agent_id agent = Ok agent' →
  fails amb case_db_ok assign_failure (assign_case n directory s case_id agent request).
Proof using Hamb Hs Hcan.
  intros Hdir Hreq Hagent. pose proof (rely_case_db amb Hamb) as Hrely.
  assert (∀ e, case_answered e → assign_failure e) as HP by (by left).
  destruct (valid_caller_facts s Hs) as [(actor & Ha) _]. pose proof (identity_ink s actor Ha) as Hink.
  unfold assign_case. apply fails_lift_bind; [intros e He%raise_if_err; apply HP; destruct He as [_ ->]; by eexists|].
  intros ? Hperm%raise_if_ok%negb_false_iff%assigner_not_customer.
  rewrite Hagent. apply fails_lift_bind; [by intros e|]. intros ? [= <-].
  apply validate_agent_id_ok in Hagent as (-> & Hst & Hne & _).
  rewrite Hreq, Ha. apply fails_lift_bind; [by intros e|]. intros _ _. apply fails_lift_bind; [by intros e|]. intros ? [= <-].
  set (key := assign_idempotency_key case_id (strip request)).
  apply fails_bind; [by eapply fails_weaken, find_event_fails|]. intros [ev|].
  { by eapply fails_weaken, replay_previous_fails. }
  apply fails_bind; [by eapply fails_weaken, get_case_fails|]. intros [present|]; [|apply fails_raise, HP; by eexists].
  apply fails_lift_bind; [intros e He; apply HP; by eapply assignment_target_raises|]. intros _ _.
  apply fails_attempts; [|apply fails_raise, HP; by eexists].
  apply get_case_bind_fails; [done|done|apply fails_raise, HP; by eexists|]. intros old _ Hn Hsee.
  case_bool_decide as Hsame.
  { unfold returning. eapply fails_weaken; [exact HP|]. apply unchanged_result_fails. intros r. apply fails_ret. }
  apply fails_bind; [by apply runs_now|]. intros t.
  apply fails_lift_bind; [intros e He; right; by eapply SupportCase_validate_raises|]. intros new Hnew.
  pose proof (SupportCase_validate_normal _ _ Hnew) as Hnn. apply with_agent_validate in Hnew as ->; [|done..].
  apply fails_bind; [by apply runs_new_id|]. intros u.
  assert (has_ink (strip agent) = true) as Hag by (by rewrite <- nonempty_strip, Hst; apply nonempty_true).
  destruct (assigned_event_valid u key old (strip agent) actor t Hn eq_refl Hink Hag) as (ev & Hev). rewrite Hev.
  apply fails_lift_bind; [by intros e|]. intros ? [= <-].
  pose proof (SupportCaseEvent_validate_normal _ _ Hev) as Hen. apply SupportCaseEvent_validate_ok in Hev as (-> & _).
  apply audited_write_fails; [done| |set_solver|done|by intros _ []].
  split; [|by apply may_see_tenant in Hsee|done|done]. split; try done. split; [done|]. cbn.
  by rewrite <- (case_normal_strip old Hn) at 2.
Qed.
End CaseCalls.

(** * What comes back *)

Section Endings.
Context (amb : Ambient database).

(** Two facts about one run hold of it together. *)
Lemma runs_both {A} I (m : M database A) Q1 Q2 :
  runs amb I m Q1 → runs amb I m Q2 → runs amb I m (λ r cs, Q1 r cs ∧ Q2 r cs).
Proof.
  intros H1 H2 w r w' Hw Hr. destruct (H1 w r w' Hw Hr) as (HI & cs & Hl & HQ1).
  destruct (H2 w r w' Hw Hr) as (_ & cs' & Hl' & HQ2). split; [done|]. exists cs. split; [done|]. split; [done|].
  rewrite Hl in Hl'. by apply app_inv_head in Hl' as ->.
Qed.

Lemma runs_answering {A} I (f : A → api_body) (m : M database A) Q :
  runs amb I m (λ r cs, Q (let* a := r in Ok (f a)) cs) → runs amb I (answering f m) Q.
Proof.
  intros Hm w r w' Hw. unfold answering, bind, ret. destruct (m amb w) as [[a|e] w1] eqn:E; intros [= <- <-];
    exact (Hm w _ _ Hw E).
Qed.

Lemma runs_responding I (m : M database api_body) (Q : api_response → list (database * database) → Prop) :
  runs amb I m (λ r cs, Q (response_of r) cs) →
  runs amb I (responding m) (λ r cs, ∃ response, r = Ok response ∧ Q response cs).
Proof.
  intros Hm w r w' Hw. unfold responding. destruct (m amb w) as [x w1] eqn:E. intros [= <- <-].
  destruct (Hm w x w1 Hw E) as (HI & cs & Hl & HQ). split; [done|]. exists cs. split; [done|]. eauto.
Qed.

(** A call that reads. *)
Definition reads_only {A} (I : database → Prop) (m : M database A) : Prop := runs amb I m (λ _ cs, cs = []).

Lemma reads_bind {A B} I (m : M database A) (f : A → M database B) :
  reads_only I m → (∀ a, reads_only I (f a)) → reads_only I (bind m f).
Proof.
  intros Hm Hf. unfold reads_only. eapply runs_bind_pure with (Qa := λ _, True); [|by intros a _; apply Hf].
  eapply runs_weaken; [exact Hm|]. cbn. intros [a|e] cs ->; done.
Qed.
Lemma reads_lift {A} I (r : res A) : reads_only I (lift r). Proof. by apply runs_lift. Qed.
Lemma reads_ret {A} I (a : A) : reads_only I (ret a). Proof. by apply runs_ret. Qed.
Lemma reads_raise {A} I e : reads_only I (raise e : M database A). Proof. by apply runs_raise. Qed.
Lemma reads_query {A} I pe (f : database → res A) : rely amb I → reads_only I (query pe f).
Proof. intros. by apply runs_query. Qed.
End Endings.

#[local] Hint Resolve reads_lift reads_ret reads_raise reads_query : reading.
Ltac reading :=
  repeat first [ progress intros | solve [eauto with reading] | apply reads_bind | case_match ].

(** The requests of [cases/api.py]. *)
Definition is_case_request (request : api_request) : Prop :=
  match request with
  | ListSupportCases _ | GetSupportCase _ | ListSupportCaseEvents _ _ _
  | ChangeSupportCaseStatus _ _ | AssignSupportCase _ _ => True
  | _ => False
  end.

(** The one handled conflict that is not: reopening a case while another one of its kind is
    unresolved. *)
Definition reopens (request : api_request) : Prop :=
  match request with ChangeSupportCaseStatus _ body => csr_target_status body = cs_open | _ => False end.

(** How a request about cases may end, and what it may have committed. *)
Definition case_request_ending (request : api_request) (response : api_response)
    (cs : list (database * database)) : Prop :=
  match response with
  | Answered _ => at_most_one (λ d d', case_db_ok d' ∧ cases_evolve d d') cs
  | Failed error =>
      ae_status_code error ∈ [403; 404; 409; 503] ∧
      (cs = [] ∨ ae_status_code error = 503 ∧ at_most_one (λ d d', case_db_ok d' ∧ cases_evolve d d') cs)
  | Unprocessable => cs = []
  | Refused status_code _ headers =>
      (status_code = 401 ∧ headers = [("WWW-Authenticate", "Bearer")] ∨ status_code = 503) ∧ cs = []
  | Crashed e =>
      (e = ActiveCaseConflictError ∧ reopens request ∨ e = ValidationError "SupportCase") ∧ cs = []
  end.

Lemma case_answered_response e :
  case_answered e → ∃ error, app_error_response e = Some error ∧ ae_status_code error ∈ [403; 404; 409; 503].
Proof.
  intros [r Hr]. destruct e; first [discriminate Hr | by eexists | (eexists; split; [reflexivity|]; cbn; set_solver)].
Qed.

(** An error answer of a call that commits nothing on errors, lost acknowledgements apart. *)
Lemma error_ending request e cs :
  case_answered e ∨ e = ActiveCaseConflictError ∧ reopens request ∨ e = ValidationError "SupportCase" →
  cs = [] ∨ e = CasePersistenceError ∧ at_most_one (λ d d', case_db_ok d' ∧ cases_evolve d d') cs →
  case_request_ending request (response_of (Err e)) cs.
Proof.
  intros He Hcs. destruct He as [He|He].
  - destruct (case_answered_response e He) as (error & Hr & Hc). cbn. rewrite Hr. cbn. split; [done|].
    destruct Hcs as [->|[-> H]]; [by left|]. right. split; [|done]. by injection Hr as <-.
  - assert (cs = []) as ->.
    { destruct Hcs as [->|[-> _]]; [done|]. destruct He as [[? _]|?]; done. }
    destruct He as [[-> Hr]| ->]; cbn; (split; [|done]); [by left|by right].
Qed.

Lemma read_ending {A} amb request (f : A → api_body) (m : M database A) :
  reads_only amb case_db_ok m → fails amb case_db_ok case_answered m →
  runs amb case_db_ok (answering f m) (λ r cs, case_request_ending request (response_of r) cs).
Proof.
  intros Hr Hf. apply runs_answering. eapply runs_weaken; [apply runs_both; [exact Hr|exact Hf]|].
  cbn. intros [a|e] cs [-> He]; cbn; [by left|]. apply (error_ending request e []); [left; by apply He|by left].
Qed.

Lemma write_ending amb request (m : M database CaseServiceResult) s step action :
  runs amb case_db_ok m (audited s step action) →
  runs amb case_db_ok m (λ _, at_most_one (λ d d', case_db_ok d' ∧ cases_evolve d d')) →
  fails amb case_db_ok (λ e, case_answered e ∨ e = ActiveCaseConflictError ∧ reopens request ∨
                             e = ValidationError "SupportCase") m →
  runs amb case_db_ok (answering BodyCaseResult m) (λ r cs, case_request_ending request (response_of r) cs).
Proof.
  intros Ha Ho Hf. apply runs_answering.
  eapply runs_weaken; [apply runs_both; [exact Ha|apply runs_both; [exact Ho|exact Hf]]|].
  cbn. intros [a|e] cs (HA & HO & HF); [done|]. apply error_ending; [by apply HF|].
  destruct HA as [->|[-> _]]; [by left|by right].
Qed.

Section Requests.
Context (amb : Ambient database) (Hamb : others_ok amb).
Context (n : nat) (directory : option IdentityDirectory) (Hdir : directory_lawful directory) (stale : bool).
Context (s : AccessScope) (Hs : valid_caller s) (Hcan : canonical s).

Lemma get_case_reads i : reads_only amb case_db_ok (get_case s i).
Proof using Hamb. pose proof (rely_case_db amb Hamb). unfold get_case. reading. Qed.
#[local] Hint Resolve get_case_reads : reading.

Lemma commits_evolve call :
  runs amb case_db_ok (run_case_call n directory s call)
    (λ _, at_most_one (λ d d', case_db_ok d' ∧ cases_evolve d d')).
Proof using Hamb.
  apply case_call_commits; [done|]. intros old c e d d' H.
  split; [apply H|by eapply case_committed_evolves].
Qed.

Lemma validated_route_ending request request' :
  is_case_request request → validated request = Ok request' →
  runs amb case_db_ok (route n directory stale s request')
    (λ r cs, case_request_ending request (response_of r) cs).
Proof using Hamb Hdir Hs Hcan.
  pose proof (rely_case_db amb Hamb) as Hrely. intros Hreq Hv.
  destruct request as [q|i|i limit offset|i body|i body| | | | | |]; try done; cbn in Hv.
  - apply res_bind_ok in Hv as (? & Hg%raise_if_ok & [= <-]). unfold within in Hg. bools. cbn [route]. unfold list_support_cases.
    assert (∃ q', CaseListQuery_validate q = Ok q') as (q' & ->).
    { unfold CaseListQuery_validate. cbn.
      assert (∀ o, filter_ok o = true → opt_nonempty (strip <$> o) = true) as Ho
        by (intros [o|]; cbn; [by rewrite nonempty_strip|done]).
      rewrite !Ho by done.
      repeat match goal with |- context [(?a <=? ?b)] => rewrite (proj2 (Z.leb_le a b)) by done end. cbn. eauto. }
    apply read_ending; [unfold service_list_cases, list_cases; reading|by apply service_list_cases_fails].
  - injection Hv as <-. apply read_ending; [unfold service_get_case; reading|by apply service_get_case_fails].
  - apply res_bind_ok in Hv as (? & Hg%raise_if_ok & [= <-]). unfold within in Hg. bools.
    apply read_ending; [unfold service_list_case_events, list_case_events; reading|].
    by apply service_list_case_events_fails.
  - apply res_bind_ok in Hv as (b & Hb & [= <-]). unfold ChangeCaseStatusRequest_validate in Hb. cbn in Hb.
    apply res_bind_ok in Hb as (? & Hl%raise_if_ok & Hb). apply res_bind_ok in Hb as (? & Hh%validating_ok & [= <-]).
    unfold request_id_length_ok in Hl. bools. unfold validate_on_hold_reason in Hh. cbn in Hh. cbn [route]. unfold change_support_case_status. cbn [csr_target_status csr_request_id csr_on_hold_reason].
    eapply write_ending; [by apply change_status_runs|apply (commits_evolve (CallStatus i _ _ _))|].
    eapply fails_weaken; [|apply change_status_fails; [done..| |]]; [done|by rewrite strip_idem|].
    unfold validate_on_hold_request. destruct (csr_target_status body), (csr_on_hold_reason body); done.
  - apply res_bind_ok in Hv as (b & Hb & [= <-]). unfold AssignCaseRequest_validate in Hb. cbn in Hb.
    apply res_bind_ok in Hb as (? & Hl%raise_if_ok & Hb). apply res_bind_ok in Hb as (? & Hh%validating_ok & [= <-]).
    unfold request_id_length_ok in Hl. bools. unfold validate_reserved_agent in Hh. apply raise_if_ok in Hh. cbn in Hh.
    cbn [route]. unfold assign_support_case. cbn [acr_agent_id acr_request_id].
    assert (validate_agent_id (strip (acr_agent_id body)) = Ok (strip (acr_agent_id body))) as Hag.
    { unfold validate_agent_id. rewrite strip_idem.
      repeat match goal with H : nonempty _ = true |- _ => rewrite H; clear H end.
      replace (128 <? str_len (strip (acr_agent_id body))) with false by lia.
      repeat match goal with H : has_char _ _ = false |- _ => rewrite H; clear H end. by rewrite Hh. }
    eapply write_ending; [by apply assign_case_runs|apply (commits_evolve (CallAssign i _ _))|].
    eapply fails_weaken; [|eapply assign_case_fails; [done..| |exact Hag]]; [|by rewrite strip_idem].
    intros e [He|He]; auto.
Qed.
End Requests.

(** C24: every request about support cases gets its answer: with any lawful identity provider
    and directory, and whatever other workers commit while it runs, a request is refused with
    401 and a challenge or with 503 before anything else happens; rejected for its parameters;
    answered, having committed at most once; or failed with a status of 403, 404, 409 or 503
    and nothing committed, unless a 503 reports a lost acknowledgement.  Only two exceptions
    have no response: the conflict of reopening a case while another of its kind is
    unresolved, for which no handler is registered, and the rejection of a row whose update
    would precede its creation; both have committed nothing. *)
Theorem case_requests_answered {P} `{IdentityProvider P} (provider : P) (amb : Ambient database) (n : nat)
    (directory : option IdentityDirectory) (stale : bool) (authorization : option string) (request : api_request) :
  LawfulProvider provider → others_ok amb → directory_lawful directory → is_case_request request →
  runs amb case_db_ok (serve n directory stale provider authorization request)
    (λ r cs, ∃ response, r = Ok response ∧ case_request_ending request response cs).
Proof.
  intros Hp Hamb Hdir Hreq. unfold serve, require_access_scope, parse_access_scope.
  destruct (resolve_identity provider authorization) as [i|e] eqn:E.
  - apply Hp in E as Hi. pose proof (trusted_identity_facts i Hi) as (Hsc & _). cbn [res_bind]. rewrite Hsc.
    cbn [answer_provider]. set (s := mkAccessScope _ _ _ _).
    assert (valid_caller s) as Hs by by apply trusted_scope_valid.
    assert (canonical s) as Hcan by apply Hi.
    destruct (validated request) as [request'|y] eqn:Hv.
    + apply runs_responding. by apply validated_route_ending.
    + apply runs_ret. by eexists.
  - apply Hp in E as [(msg & ->)| ->]; cbn; apply runs_ret; (eexists; split; [reflexivity|]; split; [|done]); auto.
Qed.

(** Both directories are lawful. *)
Lemma scim_directory_lawful d : directory_lawful (Some (scim_find_user d)).
Proof. intros find t u [= <-]. apply scim_find_user_raises. Qed.

Lemma demo_directory_lawful tokens p :
  new_demo_provider tokens = Ok p → directory_lawful (Some (demo_find_user p)).
Proof. intros Hp find t u [= <-] e He. by destruct (demo_find_user_ok _ _ _ _ _ Hp He) as [?|(? & ? & _)]. Qed.

Definition demo_api_request : api_request :=
  ChangeSupportCaseStatus demo_case_id (mkChangeCaseStatusRequest cs_in_progress " r1 " None).

Definition serve_demo (authorization : option string) (request : api_request) : M database api_response :=
  serve 3 (Some (scim_find_user demo_scim)) false demo_auth_provider authorization request.

Definition status_code_of (r : res api_response) : option Z :=
  match r with
  | Ok (Answered _) => Some 200
  | Ok (Failed error) => Some (ae_status_code error)
  | Ok Unprocessable => Some 422
  | Ok (Refused status_code _ _) => Some status_code
  | Ok (Crashed _) => None
  | Err _ => None
  end.

Lemma case_requests_answered_witness :
  status_code_of (outcome (serve_demo (Some "Bearer token-a") demo_api_request) demo_db) = Some 200 ∧
  status_code_of (outcome (serve_demo (Some "Bearer token-b") demo_api_request) demo_db) = Some 401 ∧
  status_code_of (outcome (serve_demo (Some "Bearer token-a")
    (ChangeSupportCaseStatus demo_case_id (mkChangeCaseStatusRequest cs_resolved "r1" None))) demo_db) = Some 409 ∧
  status_code_of (outcome (serve_demo (Some "Bearer token-a")
    (AssignSupportCase demo_case_id (mkAssignCaseRequest "legacy" "r2"))) demo_db) = Some 422 ∧
  length (commits (serve_demo (Some "Bearer token-a") demo_api_request) demo_db) = 1%nat ∧
  ∃ response, outcome (serve_demo (Some "Bearer token-a") demo_api_request) demo_db = Ok response ∧
    case_request_ending demo_api_request response (commits (serve_demo (Some "Bearer token-a") demo_api_request) demo_db).
Proof.
  do 5 (split; [vm_compute; reflexivity|]).
  exact (runs_outcome _ _ _ demo_db (case_requests_answered demo_auth_provider idle_ambient 3
    (Some (scim_find_user demo_scim)) false (Some "Bearer token-a") demo_api_request
    demo_auth_provider_lawful others_ok_idle (scim_directory_lawful demo_scim) I) case_db_ok_demo).
Defined.

(** Reopening a resolved case while a newer one of its kind is unresolved: the repository
    names the conflict, and no handler answers it. *)
Definition resolved_db : database :=
  after (serve_demo (Some "Bearer token-a") (ChangeSupportCaseStatus demo_case_id (mkChangeCaseStatusRequest cs_resolved "r2" None)))
    (after (serve_demo (Some "Bearer token-a") demo_api_request) demo_db).
Definition reopening_db : database :=
  after (record_handoff 3 (demo_scope customer)
           (mkCaseTrigger "thread-1" "message-2" (Some "ORD-10001") (Some rl_high) [rc_legal] "Again") demo_decision)
    resolved_db.

Example reopening_conflict_crashes :
  c_status <$> support_cases resolved_db !! demo_case_id = Some cs_resolved ∧
  outcome (serve_demo (Some "Bearer token-a")
    (ChangeSupportCaseStatus demo_case_id (mkChangeCaseStatusRequest cs_open "r3" None))) reopening_db
  = Ok (Crashed ActiveCaseConflictError).
Proof. split; vm_compute; reflexivity. Qed.
